(* ===== verification/_CoqProject ===== *)
-Q . S2P
Prelude.v
Effects.v
Order.v
Weights.v
Float.v
Text.v
Data.v
Externals.v
Instances.v
Value.v
KeyProps.v
Time.v
Expression.v
ExpressionProps.v
Reduce.v
ReduceProps.v
Timestamp.v
TimeColumn.v
TimeColumnProps.v
Persistence.v
PersistenceProps.v
Snapshot.v
SnapshotProps.v
Session.v
Connector.v
ConnectorProps.v
PrevNext.v
PrevNextProps.v
Gradual.v
GradualProps.v
DataFormat.v
DataFormatProps.v
Output.v
OutputProps.v
Table.v
TableProps.v
Join.v
JoinProps.v
Files.v
FilesProps.v
Readers.v
ReadersProps.v
S3Props.v
Writers.v
WritersProps.v
Index.v
IndexProps.v
Group.v
GroupProps.v
Complex.v
ComplexProps.v
ComplexEval.v
Properties.v
PropertiesProps.v
Export.v
ExportProps.v
Graph.v
GraphProps.v
IterateProps.v
S3Snapshot.v
S3SnapshotProps.v
