(* ===== verification/Prelude.v ===== *)
(** * A verification library of the Pathway engine (pathway-0.13.0/src)

    Pathway is a streaming engine in Rust on timely and differential dataflow.
    Connectors parse external data into rows and record them in snapshots; the
    engine evaluates expressions on rows, groups and reduces them, and delays or
    drops them by time columns; a tracker per worker persists how far the outputs
    have got.  The library models these parts as executable functions, translated
    from the source, and proves the properties that make them correct.

    ** Conventions

    A call that can fail returns an [outcome]: [Ok], [Err] for an error value, or
    [Panic] for an abort of the thread (an index out of bounds, an [unwrap], an
    assertion).  Machine integers are [Z] with their width written out:
    arithmetic on [i64] goes through [i64_arith], which panics on overflow in the
    dev profile and wraps around in the release profile (class [Profile]);
    theorems hold for both profiles unless they say otherwise.  Floats are
    binary64 numbers of the standard library's [SpecFloat].  Strings and byte
    strings are their bytes.  Libraries outside the repository (xxh3, chrono,
    ndarray, serde_json, bincode, Python) are type classes of operations, with
    their documented behaviour in a second class of laws ([Externals.v], and
    [MetadataSerde], [Bincode] and [SerdeJsonText] next to their use); [Instances.v] and the
    modules [ConcreteMetadata] and [ConcreteBincode] give an instance of each,
    which the witnesses evaluate.  The clock, the outcome of an asynchronous
    flush and the moments at which a buffered writer passes data to its file are
    arguments.

    ** Files

    - [Prelude.v], [Order.v], [Float.v], [Text.v]: outcomes, machine integers,
      little-endian bytes; Rust's [Ord] as a class with its laws, [min]/[max] and
      the stable sort; binary64; decimal printing and parsing, splitting,
      trimming.
    - [Data.v], [Value.v] (engine/value.rs, error.rs, dataflow/shard.rs): values,
      keys, types and errors; hashing, keys and shards, conversions.
      [KeyProps.v]: the hashed bytes determine a row, equal rows have equal keys,
      keys of one instance share a shard, the order of values is total, type
      conversion is exact.
    - [Time.v] (engine/time.rs): date-times and durations.  Accessors are total,
      truncation is a floor, division of durations obeys the division law,
      printing lists the parts.
    - [Expression.v] (engine/expression.rs, mat_mul.rs): the ten expression types
      and their evaluation by structural recursion.  [ExpressionProps.v]:
      argument slices are an optimisation that changes nothing, the typed
      evaluators refine the generic one, indexing and division follow Python, the
      exponent of a power is truncated to 32 bits and the power wraps around or
      panics as the profile says, the order and equality of tuples agree.
    - [Reduce.v] (engine/reduce.rs and the groupby of dataflow.rs): the reducers.
      [ReduceProps.v]: sums are the weighted sums of the group in any order of
      updates, results do not depend on the order of the rows, extremes are
      extremes, sorted tuples are sorted permutations.
    - [Timestamp.v] (engine/timestamp.rs, frontier.rs, the times of
      operators/time_column.rs): the order, lattice and path summaries that
      timely dataflow demands of a timestamp, and total frontiers.
    - [TimeColumn.v] (operators/time_column.rs, utils.rs, stateful_reduce.rs and
      its users in dataflow.rs): freeze, buffer, forget and stateful reduction as
      functions from the batches of a logical time to the emitted updates.  A
      trace is the sorted list of its keys with their values.
      [TimeColumnProps.v]: every update is routed to one output, the output of a
      stateful reduction is its state, the buffer releases exactly what is due.
    - [Persistence.v] (src/persistence): metadata blocks, recovery of the
      threshold times, the tracker of finalized times, assignment of snapshots to
      workers.  The directory of the metadata comes with its faults ([KvFaults]):
      scans, reads and removals that fail, and writes that stop after some bytes.
      [PersistenceProps.v]: keys parse back, a restart recovers the newest metadata
      or fails where it cannot be read, the finalized time of a reachable state is
      monotone and the time saved last survives a restart (rule induction over
      [tracker_run]), snapshots are partitioned among the workers.
    - [Snapshot.v] (connectors/snapshot.rs, offset.rs, persistence/frontier.rs):
      recorded events, the reader and the writer of snapshot directories.  The
      client [SnapshotReader] is verified against the interface
      [ReadSnapshotLaws]/[TruncateSnapshotLaws], which the local and the mock
      reader implement.  [SnapshotProps.v]: replay stops at the committed time
      and truncates exactly the rest; what was flushed survives a crash at any
      later point.
    - [S3Snapshot.v] (the S3 part of connectors/snapshot.rs): the reader of snapshots
      in a bucket, and the writer with the queue to its uploading thread.
      [S3SnapshotProps.v]: on the documented effects of the requests ([S3Laws]) the
      reader does what the local reader does on the directory of its objects and so
      implements [ReadSnapshotLaws]/[TruncateSnapshotLaws] while the service answers
      ([S3Answers]); for every run of the writer and its thread, what the answered
      flushes stored is recovered.
    - [Session.v] (connectors/adaptors.rs, with the input handle and session of the
      vendored timely and differential dataflow): the native and the upsert
      session, and the interface [InputAdaptorLaws] that both implement: changes
      are logged in order at the session's time, a flush sends all of them, and
      nothing is sent at an epoch beyond its time.
    - [Connector.v] (connectors/mod.rs, monitoring.rs, parsed events of
      data_format.rs, [merge_two_frontiers] of data_storage.rs): the handlers of
      the connector, its poller, and what the reading thread sends.
      [ConnectorProps.v], against the interface of the sessions: a call of the
      poller is a sequence of steps ([conn_step]) on a prefix of the channel;
      every recorded time is a consistent cut of the input; a restart from the
      record reproduces the session; the session's time is even and follows the
      clock; the resumed frontier is the furthest.
    - [PrevNext.v] (operators/prev_next.rs, [SortingBatchBuilder] of utils.rs): the
      incremental sorting index.  [PrevNextProps.v]: on a batch of insertions and
      deletions the operator emits what turns the pointers of the keys present
      before into those of the keys present after (the invariant of its loop over
      an instance is [loop_inv]: what is pushed so far, together with the carried
      entry, accounts for the keys passed).
    - [DataFormat.v] (connectors/data_format.rs): the five parsers, each an
      instance of the interface [Parser] that the connector is verified against,
      and the formatters of the outputs.  [DataFormatProps.v]: columns are found by
      their names, rows survive a DSV file, values survive JSON, and each of the five
      parsers meets [ParserContract]: it emits only events that its session and the
      connector accept.

    - [Weights.v]: collections with weights, the notion of the same collection
      ([weq], up to an equivalence of records) and the weight of a record.
    - [Gradual.v] (operators/gradual_broadcast.rs): the bucketed broadcast of a
      value to the rows of a table.  [GradualProps.v]: the accumulated output is
      the table with the bound that the present triplet assigns to each key.
    - [Output.v] (operators/output.rs, the mappings with consistent deletions of
      dataflow/operators.rs, the output thread of dataflow.rs): batches, caches of
      results, retries and commits.  [OutputProps.v]: deletions repeat the results
      that were emitted; every entry of a committed time is durable in a sink that
      keeps the promises of [WriterLaws]; a sink that accepts each entry within the
      retries gets all of them.
    - [Table.v], [Join.v] (the table operators of dataflow.rs, column paths and
      policies of engine/graph.rs): a table is the list of the updates of its rows.
      The collections' own operators (join, reduce, distinct) are those of
      differential dataflow by what they compute on accumulated updates;
      [consolidate] follows its code.  [TableProps.v]: what [consolidate],
      [distinct] and [reduce] compute, tables that represent a map, the operators on
      universes as operations on maps, duplicated keys become errors.  [JoinProps.v]:
      indexing is a lookup, a join is nested loops with the unmatched rows of its outer
      sides.

    - [Group.v] (the grouping, deduplication, sorting, expressions and asynchronous
      applications of dataflow.rs): every implementation of [DataflowReducer] on the
      batches of its input, [group_by_table] in scopes whose times are totally ordered or
      not, [deduplicate] with the snapshot of its states.  [GroupProps.v]: the reducers
      implement the interface [Reduces] (a value for each group of the accumulated
      rows), against which a group-by table is the table of its groups; the states of a
      deduplication are what it persisted, for functions such as
      [is_different_with_state] that make a state again from its row.

    - [Effects.v], [Files.v] (the file system part of connectors/data_storage.rs,
      metadata.rs): computations on a state that survives their failure; the scanner
      of a directory, the reader of lines or whole files and the reader of CSV.  The
      file system is a map that others change between the calls; a file that is open is
      read through its descriptor, and gives the bytes it has at the time of the read.
      [FilesProps.v]: what
      the polling reader has sent is, whenever it waits or allows a commit, the entries
      of complete files, and when it waits those of the files that its patterns select
      (invariants [scan_inv], [read_inv] over the runs [run], in which nobody writes to
      the file that is open); it catches up in finitely many calls once the files stop
      changing.

    - [Readers.v], [Writers.v] (the rest of connectors/data_storage.rs): the readers of
      Kafka, Python, S3 and Sqlite; the writers of files, Postgres, Kafka,
      Elasticsearch and Delta tables, with the conversions of values to the types of
      their columns.  A service is what it answers at the time of a call, or a state with
      the calls that are made.  [ReadersProps.v]: the Sqlite reader keeps the
      collection equal to the table, a Kafka reader goes on behind the recorded
      offsets.  [S3Props.v]: the S3 reader sends the objects of a bucket in order, and a
      restart sends what followed the recorded entry.  [WritersProps.v]: the file
      and the Postgres writer implement the interface [WriterLaws] against which
      [OutputProps.v] verifies the output thread, so that what is reported of them is
      durable (the writers of Kafka and of Delta tables do not); a database never has a part of an
      entry; a batch of a Delta table holds the rows since the last one.

    - [Index.v] (external_integration, operators/external_index.rs): the indexes of
      usearch and tantivy, their filters, and the operator that answers queries as of
      now.  The filtering index is verified against the interface
      [IndexLaws]/[RankedLaws], of which [usearch_laws] is an implementation.
      [IndexProps.v]: the index holds the rows of the table at each time; a filtering
      search gives the first matches of the whole ranking that pass.

    - [Complex.v] (dataflow/complex_columns.rs, the computers of engine/graph.rs): the
      attributes and methods of class transformers, evaluated on demand by a loop over
      a set of requests, replies and dependencies.  [ComplexProps.v]: collections of
      distinct records as sets, and the recursive evaluation of computers.
      [ComplexEval.v]: the loop ends with the values of the recursive evaluation.

    - [Properties.v] (the properties of tables in engine/graph.rs): [PropertiesProps.v]:
      the tree built from paths gives back the properties of every path.
    - [Export.v] (dataflow/export.rs, [snapshot_at] of engine/graph.rs): a table that one
      dataflow writes and another one reads, each on its own thread.  [ExportProps.v]:
      for every interleaving of their accesses ([reachable]) the importer has a prefix of
      the exported rows, complete up to the time it was told.
    - [Graph.v] (the state of [DataflowGraphInner] in dataflow.rs): the arenas of handles,
      the operations on columns and their tuples, tables from columns and columns from
      tables, static data on several workers, and [iterate] with the tables of its inner
      graph; a handle stands for the accumulated collection of its operators, or their
      panic.  [GraphProps.v]: columns put into a table come out of it unchanged.
      [IterateProps.v]: the graphs only grow, and an iteration is the repeated application
      of its logic up to the limit or a fixed point.

    ** Bounds and fuel

    [dec_fuel] of [Text.v] is one more than the binary logarithm, which bounds
    the decimal digits ([dec_fuel_enough]).  [local_read] of [Snapshot.v] runs its
    loop for twice the files left plus two iterations: every iteration returns,
    closes a file or opens the next one ([local_loop_spec] proves that this is
    enough).  [decode] uses the length of its input, of which every event
    consumes at least one byte.  [read_to_end] takes its fuel as an argument, and
    the theorems ask only that it exceeds the number of events.  The loops of
    [PrevNext.v] take the length of the batch, of which every iteration takes off
    a changed key ([instance_loop_ok], [batch_loop_ok]).  [split_str] of
    [DataFormat.v] takes the length of the text.  [search_rounds] of [Index.v] gets 65
    rounds, since the bound doubles and an index has fewer than [2^63] rows
    ([rounds_ok]).  [skip_bytes] and [skip_records] of [Readers.v] take a byte at least
    in each turn ([skip_bytes_stops], [skip_records_stops]).  [kafka_send] of
    [Writers.v] takes its fuel as an argument, and ends once the queue of the producer
    is not full any more ([kafka_send_ends]).  [iterate_events] of [Complex.v] takes the
    number of its rounds; a round ends it or adds one of the finitely many events that
    can occur ([round], [iterate_converges]).  The recursion of [from_paths] goes as deep
    as the longest path, and its loop as far as the largest index ([depth_fuel],
    [loop_fuel], [produce_nested_tuple_spec]).  [iterate] of [Graph.v] takes the number of
    its rounds; the number that its logic needs is enough ([rounds_spec]).

    ** Not modelled

    The scheduling of dataflow graphs by timely dataflow: the operators of differential
    dataflow stand for what they compute on accumulated updates, and a round of an
    iteration for the round at which its updates are complete.  Network and disk
    failures of the storages beyond the errors that their clients report.  The Python
    bindings, telemetry, licensing and the parsing of the environment, which are I/O.
    Threads and channels of the connectors are lists of entries, and the arrangement of
    upserts is left out. *)
From Stdlib Require Import ZArith Zpow_facts Lia Bool Ascii.
From stdpp Require Import base list strings gmap sorting.
Open Scope Z_scope.

(** ** The outcome monad: what a Rust call can end in *)

Inductive outcome (E A : Type) : Type :=
| Ok (a : A)
| Err (e : E)
| Panic (msg : string).
Arguments Ok {E A} a.
Arguments Err {E A} e.
Arguments Panic {E A} msg.

Global Instance Ok_inj E A : Inj eq eq (@Ok E A).
Proof. by intros a b [= ->]. Qed.

Global Instance outcome_ret E : MRet (outcome E) := λ A a, Ok a.
Global Instance outcome_bind E : MBind (outcome E) := λ A B k m,
  match m with Ok a => k a | Err e => Err e | Panic p => Panic p end.
Global Instance outcome_fmap E : FMap (outcome E) := λ A B f m,
  match m with Ok a => Ok (f a) | Err e => Err e | Panic p => Panic p end.

(** [opt.unwrap()] and [res.ok_or(e)]. *)
Definition unwrap {E A} (o : option A) : outcome E A :=
  match o with Some a => Ok a | None => Panic "called `Option::unwrap()` on a `None` value" end.
Definition ok_or {E A} (o : option A) (e : E) : outcome E A :=
  match o with Some a => Ok a | None => Err e end.
Definition map_err {E F A} (f : E → F) (m : outcome E A) : outcome F A :=
  match m with Ok a => Ok a | Err e => Err (f e) | Panic p => Panic p end.

(** [iter.map(f).try_collect()]: left to right, the first error wins. *)
Definition try_collect {E A B} (f : A → outcome E B) : list A → outcome E (list B) :=
  fix go l :=
    match l with
    | [] => Ok []
    | x :: l => match f x with
                | Ok y => match go l with
                          | Ok ys => Ok (y :: ys)
                          | Err e => Err e
                          | Panic p => Panic p
                          end
                | Err e => Err e
                | Panic p => Panic p
                end
    end.

Lemma bind_ok {E A B} (m : outcome E A) (k : A → outcome E B) b :
  (m ≫= k) = Ok b ↔ ∃ a, m = Ok a ∧ k a = Ok b.
Proof. destruct m; cbn; naive_solver. Qed.

Lemma try_collect_ok {E A B} (f : A → outcome E B) l ys :
  try_collect f l = Ok ys ↔ Forall2 (λ x y, f x = Ok y) l ys.
Proof.
  revert ys. induction l as [|x l IH]; intros ys; cbn.
  - split; [intros [= <-]; constructor | inversion 1; done].
  - destruct (f x) eqn:Hx; [destruct (try_collect f l) eqn:Hl|..]; split;
      try (intros ?; simplify_eq; fail).
    + intros [= <-]. constructor; [done|by apply IH].
    + inversion 1; subst. assert (Ok a0 = @Ok E _ l') as [= ->] by (by apply IH). congruence.
    + inversion 1; subst. by apply IH in H4.
    + inversion 1; subst. by apply IH in H4.
    + inversion 1; congruence.
    + inversion 1; congruence.
Qed.

(** ** Machine integers *)

Definition wrap_u (w z : Z) : Z := z mod 2 ^ w.
Definition wrap_s (w z : Z) : Z := (z + 2 ^ (w - 1)) mod 2 ^ w - 2 ^ (w - 1).
Definition wrap_i64 (z : Z) : Z := wrap_s 64 z.
Definition wrap_u64 (z : Z) : Z := wrap_u 64 z.
Definition wrap_u32 (z : Z) : Z := wrap_u 32 z.

Definition I64_MIN : Z := - 2 ^ 63.
Definition I64_MAX : Z := 2 ^ 63 - 1.
Definition U64_MAX : Z := 2 ^ 64 - 1.
Definition in_i64 (z : Z) : bool := (I64_MIN <=? z) && (z <=? I64_MAX).
Definition in_u64 (z : Z) : bool := (0 <=? z) && (z <=? U64_MAX).
Definition in_u128 (z : Z) : bool := (0 <=? z) && (z <? 2 ^ 128).

(** The build profile: in the dev profile integer overflow panics and
    [debug_assert!] is checked, in the release profile overflow wraps around
    and the assertions are gone. *)
Class Profile := overflow_checks : bool.
Definition debug_assertions `{Profile} : bool := overflow_checks.

Definition i64_arith `{Profile} {E} (z : Z) : outcome E Z :=
  if in_i64 z then Ok z
  else if overflow_checks then Panic "attempt to compute with overflow"
  else Ok (wrap_i64 z).

Definition u64_arith `{Profile} {E} (z : Z) : outcome E Z :=
  if in_u64 z then Ok z
  else if overflow_checks then Panic "attempt to compute with overflow"
  else Ok (wrap_u64 z).

(** [a / b] and [a % b] on [i64]: truncated; they panic on a zero divisor and
    on [i64::MIN / -1] in every profile. *)
Definition i64_div {E} (a b : Z) : outcome E Z :=
  if b =? 0 then Panic "attempt to divide by zero"
  else if in_i64 (Z.quot a b) then Ok (Z.quot a b) else Panic "attempt to divide with overflow".
Definition i64_rem {E} (a b : Z) : outcome E Z :=
  if b =? 0 then Panic "attempt to calculate the remainder with a divisor of zero"
  else if in_i64 (Z.quot a b) then Ok (Z.rem a b)
  else Panic "attempt to calculate the remainder with overflow".

(** [x << n] and [x >> n] on [i64]: a shift of [n < 0] or [n >= 64] panics in
    the dev profile; in the release profile only the low six bits of [n] count. *)
Definition i64_shift_amount `{Profile} {E} (n : Z) : outcome E Z :=
  if (0 <=? n) && (n <? 64) then Ok n
  else if overflow_checks then Panic "attempt to shift with overflow" else Ok (Z.land n 63).
Definition i64_shl `{Profile} {E} (x n : Z) : outcome E Z :=
  k ← i64_shift_amount n; Ok (wrap_i64 (Z.shiftl x k)).
Definition i64_shr `{Profile} {E} (x n : Z) : outcome E Z :=
  k ← i64_shift_amount n; Ok (Z.shiftr x k).

(** [i64::pow]: binary exponentiation as in the standard library. *)
Fixpoint i64_pow_loop `{Profile} {E} (base acc : Z) (exp : positive) : outcome E Z :=
  match exp with
  | xH => i64_arith (acc * base)
  | xO exp => base ← i64_arith (base * base); i64_pow_loop base acc exp
  | xI exp => acc ← i64_arith (acc * base);
              base ← i64_arith (base * base); i64_pow_loop base acc exp
  end.
Definition i64_pow `{Profile} {E} (base exp : Z) : outcome E Z :=
  match exp with Zpos p => i64_pow_loop base 1 p | _ => Ok 1 end.

Create HintDb pathway discriminated.

Lemma in_i64_spec z : in_i64 z = true ↔ - 2 ^ 63 ≤ z ≤ 2 ^ 63 - 1.
Proof. unfold in_i64, I64_MIN, I64_MAX. rewrite andb_true_iff, !Z.leb_le. lia. Qed.
Lemma in_u64_spec z : in_u64 z = true ↔ 0 ≤ z ≤ 2 ^ 64 - 1.
Proof. unfold in_u64, U64_MAX. rewrite andb_true_iff, !Z.leb_le. lia. Qed.

Lemma wrap_i64_range z : in_i64 (wrap_i64 z) = true.
Proof.
  apply in_i64_spec. unfold wrap_i64, wrap_s.
  pose proof (Z.mod_pos_bound (z + 2 ^ (64 - 1)) (2 ^ 64)). lia.
Qed.
Lemma wrap_i64_id z : in_i64 z = true → wrap_i64 z = z.
Proof.
  intros Hz%in_i64_spec. unfold wrap_i64, wrap_s. rewrite Z.mod_small; lia.
Qed.
Lemma wrap_i64_eqm z : wrap_i64 z mod 2 ^ 64 = z mod 2 ^ 64.
Proof.
  unfold wrap_i64, wrap_s. rewrite Zminus_mod_idemp_l. f_equal. lia.
Qed.
Lemma wrap_i64_cong a b : a mod 2 ^ 64 = b mod 2 ^ 64 → wrap_i64 a = wrap_i64 b.
Proof.
  intros H. unfold wrap_i64, wrap_s. f_equal.
  by rewrite <- (Zplus_mod_idemp_l a), H, Zplus_mod_idemp_l.
Qed.
#[export] Hint Resolve wrap_i64_range : pathway.

Lemma i64_arith_range `{Profile} {E} z r : @i64_arith _ E z = Ok r → in_i64 r = true.
Proof.
  unfold i64_arith. destruct (in_i64 z) eqn:Hz; [by intros [= <-]|].
  destruct overflow_checks; [done|]. intros [= <-]. apply wrap_i64_range.
Qed.
Lemma i64_arith_exact `{Profile} {E} z : in_i64 z = true → @i64_arith _ E z = Ok z.
Proof. unfold i64_arith. by intros ->. Qed.
Lemma i64_arith_release {E} z : @i64_arith false E z = Ok (wrap_i64 z).
Proof.
  unfold i64_arith. destruct (in_i64 z) eqn:Hz; [|done]. by rewrite wrap_i64_id.
Qed.
#[export] Hint Resolve i64_arith_range : pathway.

Lemma i64_arith_ok_wrap `{Profile} {E} z r : @i64_arith _ E z = Ok r → r = wrap_i64 z.
Proof.
  unfold i64_arith. destruct (in_i64 z) eqn:Hz; [intros [= <-]; by rewrite wrap_i64_id|].
  destruct overflow_checks; [done|]. by intros [= <-].
Qed.
Lemma wrap_i64_mul a b a' b' :
  a mod 2 ^ 64 = a' mod 2 ^ 64 → b mod 2 ^ 64 = b' mod 2 ^ 64 → (a * b) mod 2 ^ 64 = (a' * b') mod 2 ^ 64.
Proof. intros Ha Hb. by rewrite Zmult_mod, Ha, Hb, <- Zmult_mod. Qed.

(** Binary exponentiation computes the power, wrapped around. *)
Lemma i64_pow_loop_ok `{Profile} {E} p base acc r :
  @i64_pow_loop _ E base acc p = Ok r → r = wrap_i64 (acc * base ^ Zpos p).
Proof.
  revert base acc. induction p as [p IH|p IH|]; intros base acc; cbn [i64_pow_loop].
  - intros (a & Ha%i64_arith_ok_wrap & Hr)%bind_ok. apply bind_ok in Hr as (b & Hb%i64_arith_ok_wrap & Hr).
    rewrite (IH _ _ Hr). apply wrap_i64_cong.
    rewrite (Pos2Z.inj_xI p), Z.pow_add_r, Z.pow_1_r, Z.pow_mul_r by lia.
    replace (acc * ((base ^ 2) ^ Zpos p * base)) with ((acc * base) * (base ^ 2) ^ Zpos p) by lia.
    apply wrap_i64_mul; [by rewrite Ha, wrap_i64_eqm|].
    rewrite Hb, Zpower_mod, wrap_i64_eqm, <- Zpower_mod, Z.pow_2_r by lia. done.
  - intros (b & Hb%i64_arith_ok_wrap & Hr)%bind_ok.
    rewrite (IH _ _ Hr). apply wrap_i64_cong. rewrite (Pos2Z.inj_xO p), Z.pow_mul_r by lia.
    apply wrap_i64_mul; [done|].
    rewrite Hb, Zpower_mod, wrap_i64_eqm, <- Zpower_mod, Z.pow_2_r by lia. done.
  - intros Hr%i64_arith_ok_wrap. by rewrite Z.pow_1_r.
Qed.
Lemma i64_pow_ok `{Profile} {E} base exp r :
  0 ≤ exp → @i64_pow _ E base exp = Ok r → r = wrap_i64 (base ^ exp).
Proof.
  intros Hexp. unfold i64_pow. destruct exp as [|p|p]; [by intros [= <-]| |lia].
  intros ->%i64_pow_loop_ok. f_equal. lia.
Qed.

(** Dividing by a positive constant never panics. *)
Lemma i64_div_pos {E} a b : in_i64 a = true → 0 < b → @i64_div E a b = Ok (Z.quot a b).
Proof.
  intros Ha%in_i64_spec Hb. unfold i64_div. destruct (Z.eqb_spec b 0); [lia|].
  replace (in_i64 (Z.quot a b)) with true; [done|]. symmetry. apply in_i64_spec.
  Z.to_euclidean_division_equations. nia.
Qed.
Lemma i64_rem_pos {E} a b : in_i64 a = true → 0 < b → @i64_rem E a b = Ok (Z.rem a b).
Proof.
  intros Ha Hb. pose proof (i64_div_pos (E := E) a b Ha Hb) as Hd. unfold i64_div, i64_rem in *.
  destruct (Z.eqb_spec b 0); [lia|]. by destruct (in_i64 (Z.quot a b)).
Qed.

(** ** Little-endian bytes ([to_le_bytes]); a byte is a [Z] in [0, 255] *)

Fixpoint to_le_bytes (n : nat) (z : Z) : list Z :=
  match n with
  | O => []
  | S n => z mod 256 :: to_le_bytes n (z / 256)
  end.

Lemma length_to_le_bytes n z : length (to_le_bytes n z) = n.
Proof. revert z. induction n; intros; cbn; [done|]. by rewrite IHn. Qed.

Lemma to_le_bytes_inj n a b :
  to_le_bytes n a = to_le_bytes n b → a mod 2 ^ (8 * Z.of_nat n) = b mod 2 ^ (8 * Z.of_nat n).
Proof.
  revert a b. induction n as [|n IH]; intros a b; cbn [to_le_bytes].
  - intros _. by rewrite !Z.mod_1_r.
  - intros [= Hm Hd%IH].
    replace (8 * Z.of_nat (S n)) with (8 + 8 * Z.of_nat n) by lia.
    rewrite Z.pow_add_r by lia. change (2 ^ 8) with 256.
    rewrite !Z.rem_mul_r by lia. by rewrite Hm, Hd.
Qed.

(** Appending after blocks of the same length can be undone. *)
Lemma app_inj_block {A} (l1 l2 r1 r2 : list A) :
  length l1 = length l2 → l1 ++ r1 = l2 ++ r2 → l1 = l2 ∧ r1 = r2.
Proof. intros Hl H. by apply app_inj_1. Qed.

Lemma le_bytes_app_inj n a b r1 r2 :
  0 ≤ a < 2 ^ (8 * Z.of_nat n) → 0 ≤ b < 2 ^ (8 * Z.of_nat n) →
  to_le_bytes n a ++ r1 = to_le_bytes n b ++ r2 → a = b ∧ r1 = r2.
Proof.
  intros Ha Hb [Hab%to_le_bytes_inj ->]%app_inj_block; [|by rewrite !length_to_le_bytes].
  by rewrite !Z.mod_small in Hab by lia.
Qed.
