(* ===== verification/Effects.v ===== *)
(** Computations with a state that survives their failure: the methods of a mutable
    object that return a [Result]. *)
From Stdlib Require Import ZArith Lia Bool.
From stdpp Require Import base list strings.
From S2P Require Import Prelude.
Open Scope Z_scope.

Definition eff (S E A : Type) : Type := S → outcome E A * S.
Global Instance eff_ret S E : MRet (eff S E) := λ A a s, (Ok a, s).
Global Instance eff_bind S E : MBind (eff S E) := λ A B k m s,
  match m s with
  | (Ok a, s) => k a s
  | (Err e, s) => (Err e, s)
  | (Panic p, s) => (Panic p, s)
  end.

Definition lift {S E A} (o : outcome E A) : eff S E A := λ s, (o, s).
Definition gets {S E A} (f : S → A) : eff S E A := λ s, (Ok (f s), s).
Definition modify {S E} (f : S → S) : eff S E unit := λ s, (Ok tt, f s).
(** A computation on a part of the state. *)
Definition zoom {S T E A} (part : S → T) (set_part : T → S → S) (m : eff T E A) : eff S E A :=
  λ s, let '(r, t) := m (part s) in (r, set_part t s).

Section eff.
Context {S E : Type}.

(** What a computation returns and leaves when it succeeds. *)
Lemma bind_eff_ok {A B} (m : eff S E A) (k : A → eff S E B) s b s' :
  (m ≫= k) s = (Ok b, s') ↔ ∃ a s1, m s = (Ok a, s1) ∧ k a s1 = (Ok b, s').
Proof. unfold mbind, eff_bind. destruct (m s) as [[a|e|p] s1]; naive_solver. Qed.
Lemma bind_eff {A B} (m : eff S E A) (k : A → eff S E B) s a s1 : m s = (Ok a, s1) → (m ≫= k) s = k a s1.
Proof. unfold mbind, eff_bind. by intros ->. Qed.
Lemma lift_ok {A} (o : outcome E A) (s s' : S) a : lift o s = (Ok a, s') ↔ o = Ok a ∧ s' = s.
Proof. unfold lift. naive_solver. Qed.
End eff.
