(* ===== verification/Order.v ===== *)
(** Rust's [Ord] as a type class with its laws, and the standard-library
    routines the engine builds on it: slice and tuple comparison,
    [Iterator::min]/[max]/[min_by_key]/[max_by_key], stable [sort]. *)
From Stdlib Require Import ZArith Lia Bool Ascii.
From stdpp Require Import base list strings gmap sorting.
From S2P Require Import Prelude.

(** ** [Ord] *)

Class Ord (A : Type) := cmp : A → A → comparison.
Global Hint Mode Ord ! : typeclass_instances.

(** The contract of [Ord]: comparing the other way round mirrors the answer,
    and "not greater" is transitive.  Equality under [cmp] may be coarser than
    Leibniz equality. *)
Class OrdLaws (A : Type) `{Ord A} : Prop := {
  cmp_antisym : ∀ x y : A, cmp y x = CompOpp (cmp x y);
  cmp_trans : ∀ x y z : A, cmp x y ≠ Gt → cmp y z ≠ Gt → cmp x z ≠ Gt
}.

Definition ord_le `{Ord A} (x y : A) : Prop := cmp x y ≠ Gt.
Definition ord_eq `{Ord A} (x y : A) : Prop := cmp x y = Eq.
Definition ord_ltb `{Ord A} (x y : A) : bool := match cmp x y with Lt => true | _ => false end.
Definition ord_leb `{Ord A} (x y : A) : bool := match cmp x y with Gt => false | _ => true end.
Definition ord_eqb `{Ord A} (x y : A) : bool := match cmp x y with Eq => true | _ => false end.

Section laws.
Context `{OrdLaws A}.
Implicit Types x y z : A.

Lemma cmp_refl x : cmp x x = Eq.
Proof. pose proof (cmp_antisym x x). by destruct (cmp x x). Qed.

Lemma cmp_le_total x y : ord_le x y ∨ ord_le y x.
Proof. unfold ord_le. rewrite (cmp_antisym x y). destruct (cmp x y); auto. Qed.

Lemma cmp_eq_iff x y : cmp x y = Eq ↔ ord_le x y ∧ ord_le y x.
Proof. unfold ord_le. rewrite (cmp_antisym x y). destruct (cmp x y); naive_solver. Qed.

Lemma cmp_lt_iff x y : cmp x y = Lt ↔ ¬ ord_le y x.
Proof.
  unfold ord_le. rewrite (cmp_antisym x y).
  destruct (cmp x y); split; (done || (intros; exfalso; auto; fail) || naive_solver).
Qed.

Lemma cmp_eq_l x y z : cmp x y = Eq → cmp x z = cmp y z.
Proof.
  intros [Hxy Hyx]%cmp_eq_iff. unfold ord_le in *.
  pose proof (cmp_trans x y z Hxy). pose proof (cmp_trans y x z Hyx).
  pose proof (cmp_antisym x z) as Hx. pose proof (cmp_antisym y z) as Hy.
  pose proof (cmp_trans z x y) as Hzy. pose proof (cmp_trans z y x) as Hzx.
  destruct (cmp x z), (cmp y z); cbn in *; try done; exfalso; rewrite ?Hx, ?Hy in *; naive_solver.
Qed.

Lemma cmp_eq_r x y z : cmp x y = Eq → cmp z x = cmp z y.
Proof.
  intros Hxy%(cmp_eq_l _ _ z). rewrite (cmp_antisym x z), (cmp_antisym y z). by f_equal.
Qed.

Lemma cmp_lt_le_trans x y z : cmp x y = Lt → ord_le y z → cmp x z = Lt.
Proof.
  intros Hxy Hyz. apply cmp_lt_iff. intros Hzx.
  apply cmp_lt_iff in Hxy. apply Hxy. unfold ord_le in *. eauto using cmp_trans.
Qed.

Global Instance ord_le_preorder : PreOrder (ord_le (A:=A)).
Proof.
  split; [intros x; unfold ord_le; by rewrite cmp_refl|].
  intros x y z; apply cmp_trans.
Qed.

Global Instance ord_eq_equivalence : Equivalence (ord_eq (A:=A)).
Proof.
  split.
  - intros x. apply cmp_refl.
  - intros x y. unfold ord_eq. rewrite (cmp_antisym x y). by intros ->.
  - intros x y z. unfold ord_eq. intros Hxy Hyz. by rewrite (cmp_eq_l _ _ _ Hxy).
Qed.

Global Instance cmp_proper : Proper (ord_eq ==> ord_eq ==> eq) (cmp (A:=A)).
Proof. intros x y Hxy z w Hzw. by rewrite (cmp_eq_l _ _ _ Hxy), (cmp_eq_r _ _ _ Hzw). Qed.
End laws.
Global Hint Resolve cmp_refl : pathway.

(** Comparing images: [Ord] of a newtype, or of a key function. *)
Lemma ord_laws_via `{OrdLaws B} {A} `{Ord A} (f : A → B) :
  (∀ x y : A, cmp x y = cmp (f x) (f y)) → OrdLaws A.
Proof.
  intros Hf. split.
  - intros x y. rewrite !Hf. apply cmp_antisym.
  - intros x y z. rewrite !Hf. apply cmp_trans.
Qed.

(** ** Instances *)

Global Instance Z_ord : Ord Z := Z.compare.
Global Instance Z_ord_laws : OrdLaws Z.
Proof.
  split; unfold cmp, Z_ord; intros.
  - apply Z.compare_antisym.
  - rewrite Z.compare_ngt_iff in *. lia.
Qed.

Global Instance bool_ord : Ord bool := λ a b,
  match a, b with false, true => Lt | true, false => Gt | _, _ => Eq end.
Global Instance bool_ord_laws : OrdLaws bool.
Proof. split; [intros [] []|intros [] [] []]; done. Qed.

(** Lexicographic composition of two answers. *)
Definition then_cmp (c d : comparison) : comparison := match c with Eq => d | _ => c end.

Global Instance pair_ord `{Ord A, Ord B} : Ord (A * B) := λ p q,
  then_cmp (cmp p.1 q.1) (cmp p.2 q.2).
Lemma pair_cmp `{Ord A, Ord B} (p q : A * B) :
  cmp p q = then_cmp (cmp p.1 q.1) (cmp p.2 q.2).
Proof. reflexivity. Qed.
Global Instance pair_ord_laws `{OrdLaws A, OrdLaws B} : OrdLaws (A * B).
Proof.
  split.
  - intros [a b] [c d]. rewrite !pair_cmp; cbn. rewrite (cmp_antisym a c), (cmp_antisym b d).
    by destruct (cmp a c).
  - intros [a b] [c d] [e f]. rewrite !pair_cmp; cbn.
    destruct (cmp a c) eqn:Hac; cbn; try done.
    + rewrite (cmp_eq_l _ _ e Hac). destruct (cmp c e); cbn; try done. apply cmp_trans.
    + intros _. destruct (cmp c e) eqn:Hce; cbn; try done; intros _.
      * rewrite <- (cmp_eq_r _ _ a Hce), Hac. done.
      * rewrite (cmp_lt_le_trans a c e); [done|done|]. unfold ord_le. by rewrite Hce.
Qed.

Lemma pair_cmp_eq `{Ord A, Ord B} (p q : A * B) :
  cmp p q = Eq ↔ cmp p.1 q.1 = Eq ∧ cmp p.2 q.2 = Eq.
Proof. rewrite pair_cmp. destruct (cmp p.1 q.1); naive_solver. Qed.
Lemma pair_le_spec `{Ord A, Ord B} (p q : A * B) :
  ord_le p q → ord_le (fst p) (fst q) ∧ (ord_eq (fst p) (fst q) → ord_le (snd p) (snd q)).
Proof.
  unfold ord_le, ord_eq. rewrite pair_cmp. destruct (cmp (fst p) (fst q)); cbn; naive_solver.
Qed.
Lemma Z_cmp_eq (a b : Z) : cmp a b = Eq ↔ a = b.
Proof. apply Z.compare_eq_iff. Qed.

Global Instance option_ord `{Ord A} : Ord (option A) := λ o p,
  match o, p with
  | None, None => Eq | None, Some _ => Lt | Some _, None => Gt
  | Some a, Some b => cmp a b
  end.
Global Instance option_ord_laws `{OrdLaws A} : OrdLaws (option A).
Proof.
  split.
  - intros [a|] [b|]; try done. exact (cmp_antisym a b).
  - intros [a|] [b|] [c|]; try done. exact (cmp_trans a b c).
Qed.

(** [std::cmp::Reverse]. *)
Record Reverse (A : Type) := mk_Reverse { reverse_inner : A }.
Arguments mk_Reverse {A} _.
Arguments reverse_inner {A} _.
Global Instance Reverse_ord `{Ord A} : Ord (Reverse A) := λ a b, cmp (reverse_inner b) (reverse_inner a).
Global Instance Reverse_ord_laws `{OrdLaws A} : OrdLaws (Reverse A).
Proof.
  split.
  - intros [x] [y]. exact (cmp_antisym y x).
  - intros [x] [y] [z] H1 H2. exact (cmp_trans z y x H2 H1).
Qed.

(** Slices compare element by element, then by length. *)
Definition list_cmp {A B} (c : A → B → comparison) : list A → list B → comparison :=
  fix go l1 l2 :=
    match l1, l2 with
    | [], [] => Eq
    | [], _ :: _ => Lt
    | _ :: _, [] => Gt
    | x :: l1, y :: l2 => then_cmp (c x y) (go l1 l2)
    end.
Global Instance list_ord `{Ord A} : Ord (list A) := list_cmp cmp.

(** The laws, element by element, so that they also serve nested types. *)
Lemma list_cmp_antisym {A} (c : A → A → comparison) l1 l2 :
  Forall (λ x, ∀ y, c y x = CompOpp (c x y)) l1 →
  list_cmp c l2 l1 = CompOpp (list_cmp c l1 l2).
Proof.
  intros Hl. revert l2. induction Hl as [|x l1 Hx _ IH]; intros [|y l2]; cbn; try done.
  rewrite Hx, IH. destruct (c x y); done.
Qed.

Definition cmp_coherent {A} (c : A → A → comparison) (x : A) : Prop := ∀ y z,
  (c x y = Eq → c x z = c y z) ∧
  (c y z = Eq → c x y = c x z) ∧
  (c x y = Lt → c y z = Lt → c x z = Lt).

Lemma list_cmp_coherent {A} (c : A → A → comparison) l1 :
  Forall (cmp_coherent c) l1 → cmp_coherent (list_cmp c) l1.
Proof.
  intros Hall. induction Hall as [|x l1 Hx _ IH]; intros [|y l2] [|z l3]; cbn; try done.
  destruct (Hx y z) as (H1 & H2 & H3), (IH l2 l3) as (I1 & I2 & I3).
  destruct (c x y) eqn:Hxy, (c y z) eqn:Hyz; cbn;
    rewrite ?(H1 eq_refl), <- ?(H2 eq_refl), ?(H3 eq_refl eq_refl); cbn; auto; try done.
  all: repeat split; intros; try done.
Qed.

Lemma ord_laws_of_coherent `{Ord A} :
  (∀ x y : A, cmp y x = CompOpp (cmp x y)) → (∀ x : A, cmp_coherent cmp x) → OrdLaws A.
Proof.
  intros Ha Hc. split; [done|]. intros x y z Hxy Hyz.
  destruct (Hc x y z) as (H1 & H2 & H3).
  destruct (cmp x y) eqn:Exy; try done; [by rewrite H1|].
  destruct (cmp y z) eqn:Eyz; try done; [by rewrite <- H2|by rewrite H3].
Qed.
Lemma coherent_of_laws `{OrdLaws A} (x : A) : cmp_coherent cmp x.
Proof.
  intros y z. repeat split.
  - apply cmp_eq_l.
  - apply cmp_eq_r.
  - intros Hxy Hyz. eapply cmp_lt_le_trans; [done|]. unfold ord_le. by rewrite Hyz.
Qed.

Lemma list_cmp_eq_Forall2 {A B} (c : A → B → comparison) l1 l2 :
  list_cmp c l1 l2 = Eq ↔ Forall2 (λ x y, c x y = Eq) l1 l2.
Proof.
  revert l2. induction l1 as [|x l1 IH]; intros [|y l2]; cbn;
    try (split; [done|inversion 1]; fail); try (split; [constructor|done]).
  split.
  - intros H. destruct (c x y) eqn:Hxy; try done. constructor; [done|by apply IH].
  - inversion 1; subst. rewrite H3. cbn. by apply IH.
Qed.

Global Instance list_ord_laws `{OrdLaws A} : OrdLaws (list A).
Proof.
  apply ord_laws_of_coherent.
  - intros l1 l2. apply (list_cmp_antisym cmp). apply Forall_true. intros. apply cmp_antisym.
  - intros l1. apply (list_cmp_coherent cmp). apply Forall_true. apply coherent_of_laws.
Qed.

(** Rust strings compare byte by byte. *)
Global Instance ascii_ord : Ord ascii := λ a b, cmp (Z.of_N (N_of_ascii a)) (Z.of_N (N_of_ascii b)).
Global Instance ascii_ord_laws : OrdLaws ascii.
Proof. by apply (ord_laws_via (λ a, Z.of_N (N_of_ascii a))). Qed.
Global Instance string_ord : Ord string := λ a b,
  cmp (String.list_ascii_of_string a) (String.list_ascii_of_string b).
Global Instance string_ord_laws : OrdLaws string.
Proof. by apply (ord_laws_via String.list_ascii_of_string). Qed.

(** ** [Iterator::min], [max] and friends: [min] keeps the first of equal
    elements, [max] the last one. *)

Section extremes.
Context {A : Type} (c : A → A → comparison).

Definition min_by (l : list A) : option A :=
  match l with
  | [] => None
  | x :: l => Some (foldl (λ acc y, match c acc y with Gt => y | _ => acc end) x l)
  end.
Definition max_by (l : list A) : option A :=
  match l with
  | [] => None
  | x :: l => Some (foldl (λ acc y, match c acc y with Gt => acc | _ => y end) x l)
  end.
End extremes.
Definition iter_min `{Ord A} (l : list A) : option A := min_by cmp l.
Definition iter_max `{Ord A} (l : list A) : option A := max_by cmp l.
Definition min_by_key `{Ord K} {A} (f : A → K) (l : list A) : option A :=
  min_by (λ x y, cmp (f x) (f y)) l.
Definition max_by_key `{Ord K} {A} (f : A → K) (l : list A) : option A :=
  max_by (λ x y, cmp (f x) (f y)) l.

Section extremes_laws.
Context `{OrdLaws K} {A : Type} (f : A → K).

Lemma min_by_key_spec l m :
  min_by_key f l = Some m → m ∈ l ∧ ∀ x, x ∈ l → ord_le (f m) (f x).
Proof.
  destruct l as [|x l]; [done|]. cbn. intros [= <-].
  revert x. induction l as [|y l IH]; intros x; cbn.
  - split; [set_solver|]. intros z ->%list_elem_of_singleton. reflexivity.
  - set (acc := match cmp (f x) (f y) with Gt => y | _ => x end).
    destruct (IH acc) as [Hin Hle].
    assert ((acc = x ∨ acc = y) ∧ ord_le (f acc) (f x) ∧ ord_le (f acc) (f y)) as (Ha & Hax & Hay).
    { subst acc. unfold ord_le. destruct (cmp (f x) (f y)) eqn:Hxy;
        rewrite ?cmp_refl, ?(cmp_antisym (f x) (f y)), ?Hxy; auto. }
    rewrite elem_of_cons in Hin.
    split; [rewrite !elem_of_cons; intuition congruence|].
    intros z [->|[->|Hz]%elem_of_cons]%elem_of_cons.
    + etrans; [apply Hle; rewrite elem_of_cons; auto|done].
    + etrans; [apply Hle; rewrite elem_of_cons; auto|done].
    + apply Hle; rewrite elem_of_cons; auto.
Qed.

Lemma max_by_key_spec l m :
  max_by_key f l = Some m → m ∈ l ∧ ∀ x, x ∈ l → ord_le (f x) (f m).
Proof.
  destruct l as [|x l]; [done|]. cbn. intros [= <-].
  revert x. induction l as [|y l IH]; intros x; cbn.
  - split; [set_solver|]. intros z ->%list_elem_of_singleton. reflexivity.
  - set (acc := match cmp (f x) (f y) with Gt => x | _ => y end).
    destruct (IH acc) as [Hin Hle].
    assert ((acc = x ∨ acc = y) ∧ ord_le (f x) (f acc) ∧ ord_le (f y) (f acc)) as (Ha & Hax & Hay).
    { subst acc. unfold ord_le. destruct (cmp (f x) (f y)) eqn:Hxy;
        rewrite ?cmp_refl, ?(cmp_antisym (f x) (f y)), ?Hxy; auto. }
    rewrite elem_of_cons in Hin.
    split; [rewrite !elem_of_cons; intuition congruence|].
    intros z [->|[->|Hz]%elem_of_cons]%elem_of_cons.
    + etrans; [done|apply Hle; rewrite elem_of_cons; auto].
    + etrans; [done|apply Hle; rewrite elem_of_cons; auto].
    + apply Hle; rewrite elem_of_cons; auto.
Qed.

Lemma min_by_key_is_Some l : l ≠ [] → is_Some (min_by_key f l).
Proof. destruct l; [done|]. cbn. eauto. Qed.
Lemma max_by_key_is_Some l : l ≠ [] → is_Some (max_by_key f l).
Proof. destruct l; [done|]. cbn. eauto. Qed.

(** The key of the extreme does not depend on the order of the items. *)
Lemma min_by_key_perm l1 l2 m1 m2 :
  l1 ≡ₚ l2 → min_by_key f l1 = Some m1 → min_by_key f l2 = Some m2 →
  cmp (f m1) (f m2) = Eq.
Proof.
  intros Hp [Hin1 Hle1]%min_by_key_spec [Hin2 Hle2]%min_by_key_spec.
  apply cmp_eq_iff. split; [apply Hle1; by rewrite Hp|apply Hle2; by rewrite <- Hp].
Qed.
Lemma max_by_key_perm l1 l2 m1 m2 :
  l1 ≡ₚ l2 → max_by_key f l1 = Some m1 → max_by_key f l2 = Some m2 →
  cmp (f m1) (f m2) = Eq.
Proof.
  intros Hp [Hin1 Hle1]%max_by_key_spec [Hin2 Hle2]%max_by_key_spec.
  apply cmp_eq_iff. split; [apply Hle2; by rewrite <- Hp|apply Hle1; by rewrite Hp].
Qed.
End extremes_laws.

(** ** Stable sort *)

Section sort.
Context {A : Type} (c : A → A → comparison).

Fixpoint sort_insert (x : A) (l : list A) : list A :=
  match l with
  | [] => [x]
  | y :: l' => match c x y with Gt => y :: sort_insert x l' | _ => x :: l end
  end.
Definition sort_by (l : list A) : list A := foldr sort_insert [] l.

Lemma sort_insert_perm x l : sort_insert x l ≡ₚ x :: l.
Proof.
  induction l as [|y l IH]; cbn; [done|].
  destruct (c x y); try done. rewrite IH. constructor.
Qed.
Lemma sort_by_perm l : sort_by l ≡ₚ l.
Proof. induction l as [|x l IH]; cbn; [done|]. by rewrite sort_insert_perm, IH. Qed.
End sort.
Definition sort `{Ord A} (l : list A) : list A := sort_by cmp l.

Lemma sort_insert_sorted `{OrdLaws A} (x : A) l :
  StronglySorted ord_le l → StronglySorted ord_le (sort_insert cmp x l).
Proof.
  induction 1 as [|y l Hl IH Hy]; cbn; [repeat constructor|].
  destruct (cmp x y) eqn:Hxy.
  1,2: assert (ord_le x y) by (unfold ord_le; by rewrite Hxy);
    repeat constructor; [done|done|done|eapply Forall_impl; [done|]; intros z ?; by etrans].
  constructor; [done|]. rewrite sort_insert_perm. constructor; [|done].
  unfold ord_le. rewrite (cmp_antisym x y), Hxy. done.
Qed.
Lemma sort_sorted `{OrdLaws A} (l : list A) : StronglySorted ord_le (sort l).
Proof. induction l as [|x l IH]; cbn; [constructor|]. by apply sort_insert_sorted. Qed.

(** Two sorted arrangements of the same items agree up to [ord_eq]: both have,
    for every bound, the same number of items below it. *)
Definition count_le `{Ord A} (z : A) (l : list A) : nat :=
  length (List.filter (λ w, ord_leb w z) l).

Lemma ord_leb_spec `{Ord A} (x y : A) : ord_leb x y = true ↔ ord_le x y.
Proof. unfold ord_leb, ord_le. destruct (cmp x y); naive_solver. Qed.

Lemma count_le_perm `{Ord A} (z : A) l1 l2 : l1 ≡ₚ l2 → count_le z l1 = count_le z l2.
Proof.
  unfold count_le. induction 1 as [|x l1 l2 _ IH|x y l|]; cbn; try congruence.
  - destruct (ord_leb x z); cbn; congruence.
  - destruct (ord_leb x z), (ord_leb y z); done.
Qed.
Lemma count_le_pos `{Ord A} (z : A) l :
  (0 < count_le z l)%nat → ∃ w, w ∈ l ∧ ord_le w z.
Proof.
  unfold count_le. induction l as [|x l IH]; cbn; [lia|].
  destruct (ord_leb x z) eqn:Hx.
  - intros _. exists x. split; [set_solver|by apply ord_leb_spec].
  - intros (w & Hw & ?)%IH. exists w. split; [set_solver|done].
Qed.

Lemma sorted_head_le `{OrdLaws A} (x y : A) l1 l2 :
  StronglySorted ord_le (y :: l2) →
  (∀ z, count_le z (x :: l1) = count_le z (y :: l2)) → ord_le y x.
Proof.
  intros Hs Hc. destruct (count_le_pos x (y :: l2)) as (w & Hw & Hle).
  { rewrite <- Hc. unfold count_le. cbn. unfold ord_leb. rewrite cmp_refl. cbn. lia. }
  inversion Hs as [|? ? _ Hy]; subst. rewrite Forall_forall in Hy.
  apply elem_of_cons in Hw as [->|Hw]; [done|]. etrans; eauto.
Qed.

Lemma sorted_count_eq `{OrdLaws A} (l1 l2 : list A) :
  StronglySorted ord_le l1 → StronglySorted ord_le l2 →
  (∀ z, count_le z l1 = count_le z l2) → Forall2 ord_eq l1 l2.
Proof.
  intros Hs1. revert l2. induction Hs1 as [|x l1 Hs1 IH Hx]; intros [|y l2] Hs2 Hc.
  - constructor.
  - specialize (Hc y). revert Hc. unfold count_le. cbn. unfold ord_leb at 1. rewrite cmp_refl. done.
  - specialize (Hc x). revert Hc. unfold count_le. cbn. unfold ord_leb at 1. rewrite cmp_refl. done.
  - assert (cmp x y = Eq) as Hxy.
    { apply cmp_eq_iff. split.
      - apply (sorted_head_le y x l2 l1); [by constructor|]. intros z. by rewrite Hc.
      - by apply (sorted_head_le x y l1 l2). }
    constructor; [done|]. inversion Hs2; subst. apply IH; [done|].
    intros z. specialize (Hc z). revert Hc. unfold count_le. cbn.
    assert (ord_leb x z = ord_leb y z) as -> by (unfold ord_leb; by rewrite (cmp_eq_l _ _ z Hxy)).
    destruct (ord_leb y z); cbn; congruence.
Qed.

Lemma sort_perm_eq `{OrdLaws A} (l1 l2 : list A) :
  l1 ≡ₚ l2 → Forall2 ord_eq (sort l1) (sort l2).
Proof.
  intros Hp. apply sorted_count_eq; auto using sort_sorted.
  intros z. apply count_le_perm. unfold sort. by rewrite !sort_by_perm.
Qed.
