(* ===== verification/Weights.v ===== *)
(** Weighted collections: the updates of a differential collection as a list of
    records with integer weights, and what they add up to.  Two lists are the same
    collection when every measure of the records that respects the equivalence
    [R] of records has the same weighted sum over both. *)
From Stdlib Require Import ZArith Lia Bool.
From stdpp Require Import base list strings.
From S2P Require Import Prelude Order.
Open Scope Z_scope.

Section wsum.
Context {A : Type}.
Implicit Types (f g : A → Z) (es : list (A * Z)).

Definition wsum f es : Z := foldr (λ e s, f (fst e) * snd e + s) 0 es.

Lemma wsum_app f es1 es2 : wsum f (es1 ++ es2) = wsum f es1 + wsum f es2.
Proof. induction es1 as [|e es1 IH]; simpl; [done|]. rewrite IH. lia. Qed.
Lemma wsum_ext f g es : (∀ e, e ∈ es → f (fst e) = g (fst e)) → wsum f es = wsum g es.
Proof.
  induction es as [|e es IH]; intros Hfg; simpl; [done|].
  rewrite IH by (intros ??; apply Hfg; by constructor). by rewrite (Hfg e) by constructor.
Qed.
Lemma wsum_plus f g es : wsum (λ x, f x + g x) es = wsum f es + wsum g es.
Proof. induction es as [|e es IH]; simpl; lia. Qed.
Lemma wsum_scale c f es : wsum (λ x, c * f x) es = c * wsum f es.
Proof. induction es as [|e es IH]; simpl; [lia|]. rewrite IH. lia. Qed.
Lemma wsum_minus f g es : wsum (λ x, f x - g x) es = wsum f es - wsum g es.
Proof. induction es as [|e es IH]; simpl; lia. Qed.
Lemma wsum_zero f es : (∀ e, e ∈ es → f (fst e) = 0 ∨ snd e = 0) → wsum f es = 0.
Proof.
  induction es as [|e es IH]; intros Hf; simpl; [done|].
  rewrite IH by (intros ??; apply Hf; by constructor). destruct (Hf e) as [->| ->]; [by constructor|lia..].
Qed.
Lemma wsum_perm f es1 es2 : es1 ≡ₚ es2 → wsum f es1 = wsum f es2.
Proof. induction 1; simpl in *; lia. Qed.
Global Instance wsum_permutation f : Proper ((≡ₚ) ==> eq) (wsum f).
Proof. intros es1 es2. apply wsum_perm. Qed.
Lemma wsum_filter f (P : A → bool) es :
  wsum f (List.filter (λ e, P (fst e)) es) = wsum (λ x, if P x then f x else 0) es.
Proof. induction es as [|[x w] es IH]; simpl; [done|]. destruct (P x); simpl; rewrite IH; lia. Qed.
End wsum.

(** Mapping the records and multiplying the weights. *)
Lemma wsum_map {A B} (f : B → Z) (h : A → B) (c : Z) (es : list (A * Z)) :
  wsum f (map (λ e, (h (fst e), c * snd e)) es) = c * wsum (λ x, f (h x)) es.
Proof. induction es as [|e es IH]; simpl; [lia|]. rewrite IH. lia. Qed.
Lemma wsum_fmap {A B} (f : B → Z) (h : A → B) (es : list (A * Z)) :
  wsum f (map (λ e, (h (fst e), snd e)) es) = wsum (λ x, f (h x)) es.
Proof. induction es as [|e es IH]; simpl; [done|]. by rewrite IH. Qed.
(** Replacing a record by several ones of its weight. *)
Lemma wsum_flat_map {A B} (f : B → Z) (h : A → list B) (es : list (A * Z)) :
  wsum f (flat_map (λ e, map (λ b, (b, snd e)) (h (fst e))) es) = wsum (λ x, foldr (λ b s, f b + s) 0 (h x)) es.
Proof.
  induction es as [|[x w] es IH]; simpl; [done|]. rewrite wsum_app, IH. f_equal.
  induction (h x) as [|b bs IHb]; simpl; [done|]. rewrite IHb. lia.
Qed.

(** ** The same collection *)

Section weq.
Context {A : Type} (R : relation A).

Definition weq (a b : list (A * Z)) : Prop := ∀ f, Proper (R ==> eq) f → wsum f a = wsum f b.
Global Instance weq_equivalence : Equivalence weq.
Proof.
  split; [by intros ???|intros a b E f Hf; symmetry; by apply E|].
  intros a b c E1 E2 f Hf. etrans; [by apply E1|by apply E2].
Qed.
Global Instance weq_app : Proper (weq ==> weq ==> weq) app.
Proof. intros a a' Ha b b' Hb f Hf. rewrite !wsum_app. f_equal; [by apply Ha|by apply Hb]. Qed.
Global Instance weq_perm : subrelation (≡ₚ) weq.
Proof. intros a b Hp f _. by apply wsum_perm. Qed.

Definition wneg (es : list (A * Z)) : list (A * Z) := map (λ e, (fst e, - snd e)) es.
Lemma wsum_wneg f es : wsum f (wneg es) = - wsum f es.
Proof. induction es as [|e es IH]; simpl; [done|]. rewrite IH. lia. Qed.
Lemma weq_wneg es : weq (es ++ wneg es) [].
Proof. intros f _. rewrite wsum_app, wsum_wneg. simpl. lia. Qed.
End weq.

(** The weight of one record, up to a decidable equivalence. *)
Definition weight_of {A} (eqb : A → A → bool) (x : A) (es : list (A * Z)) : Z := wsum (λ y, Z.b2z (eqb x y)) es.
Lemma weq_weight_of {A} (R : relation A) (eqb : A → A → bool) x a b :
  (∀ y z, R y z → eqb x y = eqb x z) → weq R a b → weight_of eqb x a = weight_of eqb x b.
Proof. intros Hx E. apply E. intros y z Hyz. by rewrite (Hx y z Hyz). Qed.

(** Collections in which every record has the same weight are the same. *)
Section weight_of.
Context {A : Type} `{OrdLaws A}.
Implicit Types (c : list (A * Z)) (f : A → Z).

Definition weight_at (c : list (A * Z)) (x : A) : Z := weight_of ord_eqb x c.
Lemma ord_eqb_proper (x y z : A) : cmp y z = Eq → ord_eqb x y = ord_eqb x z.
Proof. intros E. unfold ord_eqb. by rewrite (cmp_eq_r _ _ x E). Qed.
Lemma weq_weight_at c1 c2 x : weq ord_eq c1 c2 → weight_at c1 x = weight_at c2 x.
Proof. apply weq_weight_of. intros y z E. by apply ord_eqb_proper. Qed.
Lemma weight_at_cons x y w c : weight_at ((y, w) :: c) x = (if ord_eqb x y then w else 0) + weight_at c x.
Proof. unfold weight_at, weight_of. simpl. destruct (ord_eqb x y); simpl; lia. Qed.
Lemma weight_at_eq c x y : cmp x y = Eq → weight_at c x = weight_at c y.
Proof.
  intros E. apply wsum_ext. intros e _. f_equal. unfold ord_eqb. by rewrite (cmp_eq_l _ _ (fst e) E).
Qed.
(** A record of weight zero does not count. *)
Lemma wsum_without f c x : Proper (ord_eq ==> eq) f →
  wsum f c = f x * weight_at c x + wsum f (List.filter (λ e, negb (ord_eqb x (fst e))) c).
Proof.
  intros Hf. induction c as [|[y w] c IH]; [simpl; unfold weight_at, weight_of; simpl; lia|].
  rewrite weight_at_cons. simpl. destruct (ord_eqb x y) eqn:E; simpl; rewrite IH; [|lia].
  assert (f y = f x) as ->; [|lia]. apply Hf. unfold ord_eqb in E. apply cmp_eq_iff. apply and_comm, cmp_eq_iff.
  by destruct (cmp x y).
Qed.
Lemma wsum_all_zero f c : Proper (ord_eq ==> eq) f → (∀ x, weight_at c x = 0) → wsum f c = 0.
Proof.
  intros Hf. remember (length c) as n eqn:Hn. revert c Hn.
  induction n as [n IH] using lt_wf_ind. intros c -> Hc. destruct c as [|[x w] c]; [done|].
  rewrite (wsum_without f _ x Hf), Hc, Z.mul_0_r. simpl.
  assert (ord_eqb x x = true) as -> by (unfold ord_eqb; by rewrite cmp_refl). simpl.
  set (c' := List.filter _ c). rewrite (IH (length c')) with (c := c'); [done| |done|].
  - subst c'. simpl. clear. induction c as [|e c IHc]; simpl; [lia|]. destruct (negb _); simpl; lia.
  - intros y. destruct (ord_eqb x y) eqn:Exy.
    + apply wsum_zero. intros e Hin. left. apply list_elem_of_In, filter_In in Hin as [_ Hne].
      assert (ord_eqb y (fst e) = ord_eqb x (fst e)) as ->; [|by destruct (ord_eqb x (fst e))].
      unfold ord_eqb in *. destruct (cmp x y) eqn:E; try done. by rewrite (cmp_eq_l _ _ (fst e) E).
    + rewrite <- (Hc y). unfold weight_at, weight_of. subst c'. simpl.
      assert (ord_eqb y x = false) as ->.
      { unfold ord_eqb in *. rewrite cmp_antisym. by destruct (cmp x y). }
      simpl. rewrite wsum_filter with (P := λ z, negb (ord_eqb x z)). apply wsum_ext. intros e _.
      destruct (ord_eqb x (fst e)) eqn:Exe; simpl; [|done]. unfold ord_eqb in *. destruct (cmp x (fst e)) eqn:E; try done.
      rewrite (cmp_antisym (fst e) y), <- (cmp_eq_l _ _ y E). by destruct (cmp x y).
Qed.
Lemma weight_at_weq c1 c2 : (∀ x, weight_at c1 x = weight_at c2 x) → weq ord_eq c1 c2.
Proof.
  intros Hw f Hf. assert (wsum f (c1 ++ wneg c2) = 0) as E.
  { apply wsum_all_zero; [done|]. intros x. unfold weight_at, weight_of in *. rewrite wsum_app, wsum_wneg, Hw. lia. }
  rewrite wsum_app, wsum_wneg in E. lia.
Qed.
End weight_of.
