(* ===== verification/Float.v ===== *)
(** Rust's [f64] as IEEE-754 binary64: the operations the engine uses, the
    total order of the [OrderedFloat] wrapper and the 64-bit image that the
    engine hashes.  A value is a [spec_float]; [f64_valid] says that its
    mantissa and exponent are a canonical binary64 pair. *)
From Stdlib Require Import ZArith Lia Bool SpecFloat.
From stdpp Require Import base list strings.
From S2P Require Import Prelude Order.
Open Scope Z_scope.

Abbreviation f64 := spec_float.
Definition f64_valid (x : f64) : bool := valid_binary 53 1024 x.

Definition f64_add : f64 → f64 → f64 := SFadd 53 1024.
Definition f64_sub : f64 → f64 → f64 := SFsub 53 1024.
Definition f64_mul : f64 → f64 → f64 := SFmul 53 1024.
Definition f64_div : f64 → f64 → f64 := SFdiv 53 1024.
Definition f64_neg : f64 → f64 := SFopp.
Definition f64_abs : f64 → f64 := SFabs.
(** The IEEE comparisons: every one but [!=] is false on a NaN. *)
Definition f64_eqb : f64 → f64 → bool := SFeqb.
Definition f64_ltb : f64 → f64 → bool := SFltb.
Definition f64_leb : f64 → f64 → bool := SFleb.

Definition f64_zero : f64 := S754_zero false.
Definition f64_one : f64 := S754_finite false 4503599627370496 (-52).
Definition is_nan (x : f64) : bool := match x with S754_nan => true | _ => false end.
Definition is_infinite (x : f64) : bool := match x with S754_infinity _ => true | _ => false end.
Definition sign_bit (x : f64) : bool :=
  match x with S754_zero s | S754_infinity s | S754_finite s _ _ => s | S754_nan => false end.
Definition copysign (x y : f64) : f64 :=
  match x with
  | S754_zero _ => S754_zero (sign_bit y)
  | S754_infinity _ => S754_infinity (sign_bit y)
  | S754_finite _ m e => S754_finite (sign_bit y) m e
  | S754_nan => S754_nan
  end.

(** [i as f64]: nearest, ties to even. *)
Definition f64_of_int (z : Z) : f64 := binary_normalize 53 1024 z 0 false.

(** The value of a finite float, rounded towards minus infinity. *)
Definition f64_floor_Z (s : bool) (m : positive) (e : Z) : Z :=
  Z.shiftl (cond_Zopp s (Zpos m)) e.
Definition f64_floor (x : f64) : f64 :=
  match x with
  | S754_finite s m e => if 0 <=? e then x else f64_of_int (f64_floor_Z s m e)
  | _ => x
  end.

(** [x as i64]: towards zero, saturating, NaN to 0. *)
Definition f64_as_i64 (x : f64) : Z :=
  match x with
  | S754_nan | S754_zero _ => 0
  | S754_infinity s => if s then I64_MIN else I64_MAX
  | S754_finite s m e =>
      let t := cond_Zopp s (Z.shiftl (Zpos m) e) in
      Z.max I64_MIN (Z.min I64_MAX t)
  end.

(** [x % y]: the exact remainder with the sign of [x]. *)
Definition f64_rem (x y : f64) : f64 :=
  match x, y with
  | S754_nan, _ | _, S754_nan => S754_nan
  | S754_infinity _, _ | _, S754_zero _ => S754_nan
  | S754_zero _, _ | _, S754_infinity _ => x
  | S754_finite sx mx ex, S754_finite _ my ey =>
      let e := Z.min ex ey in
      let r := Z.shiftl (Zpos mx) (ex - e) mod Z.shiftl (Zpos my) (ey - e) in
      binary_normalize 53 1024 (cond_Zopp sx r) e sx
  end.

(** [f64::to_bits] on the floats that are not NaN. *)
Definition f64_to_bits (x : f64) : Z :=
  match x with
  | S754_zero s => Z.b2z s * 2 ^ 63
  | S754_infinity s => Z.b2z s * 2 ^ 63 + 2047 * 2 ^ 52
  | S754_nan => 2047 * 2 ^ 52 + 2 ^ 51
  | S754_finite s m e =>
      Z.b2z s * 2 ^ 63 +
      (if 2 ^ 52 <=? Zpos m then (e + 1075) * 2 ^ 52 + (Zpos m - 2 ^ 52) else Zpos m)
  end.

(** ** [OrderedFloat]: NaN is the greatest float and equal to itself. *)
Global Instance f64_ord : Ord f64 := λ x y,
  match SFcompare x y with
  | Some c => c
  | None => if is_nan x then (if is_nan y then Eq else Gt) else Lt
  end.

(** The order as a comparison of integer triples. *)
Definition f64_rank (x : f64) : Z * (Z * Z) :=
  match x with
  | S754_infinity true => (-2, (0, 0))
  | S754_finite true m e => (-1, (-e, Zneg m))
  | S754_zero _ => (0, (0, 0))
  | S754_finite false m e => (1, (e, Zpos m))
  | S754_infinity false => (2, (0, 0))
  | S754_nan => (3, (0, 0))
  end.

Lemma compare_opp a b : (- a ?= - b) = CompOpp (a ?= b).
Proof. rewrite Z.compare_opp. apply Z.compare_antisym. Qed.

Lemma f64_cmp_rank x y : cmp x y = cmp (f64_rank x) (f64_rank y).
Proof.
  destruct x as [[]|[]| |[] mx ex], y as [[]|[]| |[] my ey]; try reflexivity.
  - change (cmp (f64_rank (S754_finite true mx ex)) (f64_rank (S754_finite true my ey)))
      with (then_cmp (- ex ?= - ey) (Zneg mx ?= Zneg my)).
    rewrite compare_opp. cbn. unfold Pos.compare. destruct (ex ?= ey); done.
  - change (cmp (f64_rank (S754_finite false mx ex)) (f64_rank (S754_finite false my ey)))
      with (then_cmp (ex ?= ey) (Zpos mx ?= Zpos my)).
    cbn. unfold Pos.compare. destruct (ex ?= ey); done.
Qed.
Global Instance f64_ord_laws : OrdLaws f64.
Proof. apply (ord_laws_via f64_rank). apply f64_cmp_rank. Qed.

(** ** The hashed image of a float *)

(** What [HashInto for f64] feeds to the hasher (value.rs): one image for every
    NaN, one for both zeros, the bits otherwise. *)
Definition f64_hash_raw (x : f64) : Z :=
  if is_nan x then 2 ^ 64 - 1 else if f64_eqb x f64_zero then 0 else f64_to_bits x.

Lemma digits2_pos_bound p :
  2 ^ (Zpos (digits2_pos p) - 1) ≤ Zpos p < 2 ^ Zpos (digits2_pos p).
Proof.
  induction p as [p IH|p IH|]; cbn [digits2_pos]; [| |lia];
    rewrite Pos2Z.inj_succ;
    replace (Z.succ (Zpos (digits2_pos p)) - 1) with (Zpos (digits2_pos p) - 1 + 1) by lia;
    unfold Z.succ; rewrite !Z.pow_add_r by lia; lia.
Qed.

Lemma f64_valid_finite s m e :
  f64_valid (S754_finite s m e) = true →
  Zpos m < 2 ^ 53 ∧ -1074 ≤ e ≤ 971 ∧ (2 ^ 52 ≤ Zpos m ∨ e = -1074).
Proof.
  unfold f64_valid. cbn. unfold bounded, canonical_mantissa, fexp, emin.
  rewrite andb_true_iff, Z.eqb_eq, Z.leb_le. intros [He Hmax].
  pose proof (digits2_pos_bound m) as [Hl Hu].
  assert (Zpos (digits2_pos m) ≤ 53) as Hd by lia.
  split; [eapply Z.lt_le_trans; [done|]; apply Z.pow_le_mono_r; lia|].
  split; [lia|].
  destruct (decide (Zpos (digits2_pos m) = 53)) as [H53|]; [left|right; lia].
  rewrite H53 in Hl. done.
Qed.

Lemma f64_to_bits_range x : f64_valid x = true → 0 ≤ f64_to_bits x < 2 ^ 64.
Proof.
  destruct x as [[]|[]| |s m e]; cbn [f64_to_bits Z.b2z]; try lia.
  intros (Hm & He & _)%f64_valid_finite.
  destruct s, (Z.leb_spec (2 ^ 52) (Zpos m)); cbn [Z.b2z]; lia.
Qed.
Lemma f64_hash_raw_range x : f64_valid x = true → 0 ≤ f64_hash_raw x < 2 ^ 64.
Proof.
  intros Hv%f64_to_bits_range. unfold f64_hash_raw.
  destruct (is_nan x); [lia|]. destruct (f64_eqb x f64_zero); lia.
Qed.

(** Equal hashed images, equal floats in the sense of [OrderedFloat]. *)
Lemma f64_hash_raw_inj x y :
  f64_valid x = true → f64_valid y = true →
  f64_hash_raw x = f64_hash_raw y → cmp x y = Eq.
Proof.
  intros Hx Hy.
  destruct x as [sx|sx| |sx mx ex], y as [sy|sy| |sy my ey]; unfold f64_hash_raw; cbn -[Z.pow];
    try (intros _; reflexivity).
  all: try (apply f64_valid_finite in Hx as (? & ? & Hx)).
  all: try (apply f64_valid_finite in Hy as (? & ? & Hy)).
  all: try (destruct sx); try (destruct sy); cbn [Z.b2z f64_eqb SFeqb SFcompare]; try (intros; reflexivity); try lia.
  all: repeat match goal with |- context [if ?a <=? ?b then _ else _] => destruct (Z.leb_spec a b) end.
  all: intros Heq; try (exfalso; lia).
  all: assert (ex = ey) as -> by lia; assert (mx = my) as -> by lia;
    rewrite Z.compare_refl, Pos.compare_cont_refl; reflexivity.
Qed.

(** [OrderedFloat] equality is equality of the hashed images. *)
Lemma f64_cmp_eq_hash x y : cmp x y = Eq → f64_hash_raw x = f64_hash_raw y.
Proof.
  rewrite f64_cmp_rank, !pair_cmp_eq, !Z_cmp_eq. unfold f64_hash_raw.
  destruct x as [[]|[]| |[] mx ex], y as [[]|[]| |[] my ey]; cbn [fst snd f64_rank];
    intros (Hs & He & Hm); try lia; try reflexivity.
  all: assert (ex = ey) as -> by lia; assert (mx = my) as -> by lia; reflexivity.
Qed.
