(* ===== verification/Text.v ===== *)
(** The text routines of Rust's standard library that the engine relies on:
    decimal printing and parsing of integers, [str::split], [str::trim] and
    [str::replace]-style scanning.  A [string] is its sequence of UTF-8 bytes. *)
From Stdlib Require Import ZArith Lia Bool Ascii.
From stdpp Require Import base list strings.
From S2P Require Import Prelude.
Open Scope Z_scope.

(** ** Decimal integers *)

Definition digit_char (d : Z) : ascii := ascii_of_N (Z.to_N (48 + d)).
Definition digit_val (c : ascii) : option Z :=
  let v := Z.of_N (N_of_ascii c) - 48 in
  if (0 <=? v) && (v <=? 9) then Some v else None.

Fixpoint dec_nat (fuel : nat) (n : Z) (acc : string) : string :=
  match fuel with
  | O => acc
  | S fuel => let acc := String (digit_char (n mod 10)) acc in
              if n <? 10 then acc else dec_nat fuel (n / 10) acc
  end.
Definition dec_fuel (n : Z) : nat := S (Z.to_nat (Z.log2 n)).

(** [n.to_string()]. *)
Definition int_to_string (n : Z) : string :=
  if n <? 0 then String "-" (dec_nat (dec_fuel (- n)) (- n) "")
  else dec_nat (dec_fuel n) n "".

Fixpoint parse_digits (s : string) (acc : Z) : option Z :=
  match s with
  | EmptyString => Some acc
  | String c s => match digit_val c with
                  | Some d => parse_digits s (10 * acc + d)
                  | None => None
                  end
  end.

(** [s.parse::<I>()] for an integer type with the given range. *)
Definition parse_int (signed : bool) (lo hi : Z) (s : string) : option Z :=
  let check (v : Z) := if (lo <=? v) && (v <=? hi) then Some v else None in
  match s with
  | EmptyString => None
  | String c rest =>
      if ((c =? "+") || (c =? "-"))%char && (rest =? "")%string then None
      else if (c =? "+")%char then parse_digits rest 0 ≫= check
      else if (c =? "-")%char && signed then parse_digits rest 0 ≫= λ v, check (- v)
      else parse_digits s 0 ≫= check
  end.
Definition parse_i64 : string → option Z := parse_int true I64_MIN I64_MAX.
Definition parse_u64 : string → option Z := parse_int false 0 U64_MAX.
Definition parse_u128 : string → option Z := parse_int false 0 (2 ^ 128 - 1).

Lemma digit_val_char d : 0 ≤ d ≤ 9 → digit_val (digit_char d) = Some d.
Proof.
  intros Hd. unfold digit_val, digit_char.
  rewrite N_ascii_embedding by lia. rewrite Z2N.id by lia.
  replace (48 + d - 48) with d by lia.
  destruct (Z.leb_spec 0 d), (Z.leb_spec d 9); done || lia.
Qed.

Lemma parse_dec_nat fuel n s :
  (0 < fuel)%nat → 0 ≤ n < 10 ^ Z.of_nat fuel →
  parse_digits (dec_nat fuel n s) 0 = parse_digits s n.
Proof.
  revert n s. induction fuel as [|fuel IH]; intros n s Hf Hn; [lia|]. cbn [dec_nat].
  pose proof (Z.mod_pos_bound n 10). pose proof (Z.div_mod n 10).
  destruct (Z.ltb_spec n 10).
  - cbn. rewrite digit_val_char by lia. f_equal. rewrite Z.mod_small; lia.
  - rewrite Nat2Z.inj_succ, Z.pow_succ_r in Hn by lia.
    assert (fuel ≠ 0)%nat by (intros ->; cbn in Hn; lia).
    rewrite IH; [|lia|split; [apply Z.div_pos; lia|apply Z.div_lt_upper_bound; lia]].
    cbn. rewrite digit_val_char by lia. f_equal. lia.
Qed.

Lemma dec_fuel_enough n : 0 ≤ n → 0 ≤ n < 10 ^ Z.of_nat (dec_fuel n).
Proof.
  intros Hn. split; [done|]. unfold dec_fuel. rewrite Nat2Z.inj_succ, Z2Nat.id by apply Z.log2_nonneg.
  destruct (decide (n = 0)) as [->|]; [apply Z.pow_pos_nonneg; [lia|cbn; lia]|].
  pose proof (Z.log2_spec n). pose proof (Z.log2_nonneg n).
  assert (2 ^ Z.succ (Z.log2 n) ≤ 10 ^ Z.succ (Z.log2 n)); [|lia].
  apply Z.pow_le_mono_l. lia.
Qed.

(** Every character printed by [dec_nat] is a digit. *)
Fixpoint string_forall (P : ascii → bool) (s : string) : bool :=
  match s with EmptyString => true | String c s => P c && string_forall P s end.
Definition is_digit (c : ascii) : bool := match digit_val c with Some _ => true | None => false end.

Lemma dec_nat_digits fuel n s :
  string_forall is_digit s = true → string_forall is_digit (dec_nat fuel n s) = true.
Proof.
  revert n s. induction fuel as [|fuel IH]; intros n s Hs; [done|]. cbn.
  assert (string_forall is_digit (String (digit_char (n mod 10)) s) = true) as Hc.
  { cbn. rewrite Hs, andb_true_r. unfold is_digit. pose proof (Z.mod_pos_bound n 10).
    by rewrite digit_val_char by lia. }
  destruct (n <? 10); [done|by apply IH].
Qed.
Lemma dec_nat_nonempty fuel n s : s ≠ "" ∨ (0 < fuel)%nat → dec_nat fuel n s ≠ "".
Proof.
  revert n s. induction fuel as [|fuel IH]; cbn; intros n s [Hs|Hf]; try done; try lia.
  - destruct (n <? 10); [done|]. apply IH. by left.
  - destruct (n <? 10); [done|]. apply IH. by left.
Qed.
Lemma is_digit_not c d : is_digit c = true → is_digit d = false → (c =? d)%char = false.
Proof. intros Hc Hd. destruct (Ascii.eqb_spec c d); [congruence|done]. Qed.

(** Printing and parsing an integer of the type's range gives it back. *)
Lemma parse_int_to_string (signed : bool) lo hi n :
  lo ≤ n ≤ hi → (signed = true ∨ 0 ≤ n) → parse_int signed lo hi (int_to_string n) = Some n.
Proof.
  intros Hn Hs. unfold int_to_string. destruct (Z.ltb_spec n 0).
  - assert (signed = true) as -> by (destruct Hs; [done|lia]).
    set (s := dec_nat (dec_fuel (- n)) (- n) "").
    assert (s ≠ "") as Hne by (apply dec_nat_nonempty; right; unfold dec_fuel; lia).
    assert (parse_digits s 0 = Some (- n)) as Hp.
    { unfold s. rewrite parse_dec_nat; [done|unfold dec_fuel; lia|apply dec_fuel_enough; lia]. }
    clearbody s. unfold parse_int. destruct (String.eqb_spec s ""); [done|]. cbn.
    rewrite Hp. cbn. replace (- - n) with n by lia.
    destruct (Z.leb_spec lo n), (Z.leb_spec n hi); done || lia.
  - pose proof (dec_nat_digits (dec_fuel n) n "" eq_refl) as Hd.
    pose proof (parse_dec_nat (dec_fuel n) n "" ltac:(unfold dec_fuel; lia)
                  ltac:(apply dec_fuel_enough; lia)) as Hp.
    destruct (dec_nat (dec_fuel n) n "") as [|c rest] eqn:Hs'.
    { exfalso. revert Hs'. apply dec_nat_nonempty. right. unfold dec_fuel. lia. }
    apply andb_true_iff in Hd as [Hc _]. unfold parse_int.
    rewrite (is_digit_not c "+"), (is_digit_not c "-") by done. cbn [andb orb].
    rewrite Hp. cbn. destruct (Z.leb_spec lo n), (Z.leb_spec n hi); done || lia.
Qed.

(** ** [str::split] on one character *)
#[local] Arguments Ascii.eqb : simpl never.
#[local] Arguments String.append !_ _ /.

Fixpoint split_on (sep : ascii) (s : string) : list string :=
  match s with
  | EmptyString => [""]
  | String c s =>
      if (c =? sep)%char then "" :: split_on sep s
      else match split_on sep s with
           | [] => [String c ""]
           | p :: ps => String c p :: ps
           end
  end.

Lemma split_on_none sep s :
  string_forall (λ c, negb (c =? sep)%char) s = true → split_on sep s = [s].
Proof.
  induction s as [|c s IH]; cbn; [done|]. rewrite andb_true_iff, negb_true_iff.
  intros [-> ->%IH]. done.
Qed.
Lemma split_on_app sep s rest :
  string_forall (λ c, negb (c =? sep)%char) s = true →
  split_on sep (s +:+ String sep rest) = s :: split_on sep rest.
Proof.
  induction s as [|c s IH]; cbn.
  - intros _. by rewrite Ascii.eqb_refl.
  - rewrite andb_true_iff, negb_true_iff. intros [-> ->%IH]. done.
Qed.
Lemma string_forall_impl (P Q : ascii → bool) s :
  (∀ c, P c = true → Q c = true) → string_forall P s = true → string_forall Q s = true.
Proof.
  intros HPQ. induction s as [|c s IH]; cbn; [done|]. rewrite !andb_true_iff. naive_solver.
Qed.
Lemma int_to_string_no_sep sep n :
  0 ≤ n → is_digit sep = false →
  string_forall (λ c, negb (c =? sep)%char) (int_to_string n) = true.
Proof.
  intros Hn Hsep. unfold int_to_string. destruct (Z.ltb_spec n 0); [lia|].
  eapply string_forall_impl; [|by apply dec_nat_digits].
  intros c Hc. by rewrite (is_digit_not c sep).
Qed.

(** ** [str::trim]: Unicode white space, on the UTF-8 bytes *)

(** The length in bytes of the white-space character the bytes start with. *)
Definition whitespace_len (bs : list N) : nat :=
  match bs with
  | (9 :: _ | 10 :: _ | 11 :: _ | 12 :: _ | 13 :: _ | 32 :: _)%N => 1
  | (194 :: 133 :: _ | 194 :: 160 :: _)%N => 2
  | (225 :: 154 :: 128 :: _)%N => 3
  | (226 :: 128 :: b :: _)%N =>
      if ((128 <=? b) && (b <=? 138) || (b =? 168) || (b =? 169) || (b =? 175))%N then 3 else 0
  | (226 :: 129 :: 159 :: _)%N => 3
  | (227 :: 128 :: 128 :: _)%N => 3
  | _ => 0
  end%nat.

Fixpoint trim_start_bytes (fuel : nat) (bs : list N) : list N :=
  match fuel with
  | O => bs
  | S fuel => match whitespace_len bs with
              | O => bs
              | n => trim_start_bytes fuel (drop n bs)
              end
  end.
(** The same from the end: a white-space character that ends the bytes. *)
Definition whitespace_len_end (bs : list N) : nat :=
  let n := length bs in
  if Nat.eqb (whitespace_len (drop (n - 1) bs)) 1 then 1%nat
  else if Nat.eqb (whitespace_len (drop (n - 2) bs)) 2 then 2%nat
  else if Nat.eqb (whitespace_len (drop (n - 3) bs)) 3 then 3%nat
  else 0%nat.
Fixpoint trim_end_bytes (fuel : nat) (bs : list N) : list N :=
  match fuel with
  | O => bs
  | S fuel => match whitespace_len_end bs with
              | O => bs
              | n => trim_end_bytes fuel (take (length bs - n) bs)
              end
  end.

Definition bytes_of_string (s : string) : list N :=
  map N_of_ascii (String.list_ascii_of_string s).
Definition string_of_bytes (bs : list N) : string :=
  String.string_of_list_ascii (map ascii_of_N bs).
Definition trim (s : string) : string :=
  let bs := bytes_of_string s in
  let bs := trim_start_bytes (length bs) bs in
  string_of_bytes (trim_end_bytes (length bs) bs).

Definition trim_end (s : string) : string :=
  let bs := bytes_of_string s in string_of_bytes (trim_end_bytes (length bs) bs).

Example trim_example : trim "  42	 " = "42".
Proof. vm_compute. reflexivity. Qed.
Example parse_example : parse_i64 "-42" = Some (-42) ∧ parse_i64 "+7" = Some 7 ∧ parse_i64 "" = None
  ∧ parse_i64 "-" = None ∧ parse_u64 "-1" = None ∧ parse_i64 "9223372036854775808" = None.
Proof. vm_compute. auto 10. Qed.

(** ** [str::replace] and counting matches of a pattern *)

Fixpoint prefix_drop (pat s : string) : option string :=
  match pat, s with
  | EmptyString, _ => Some s
  | String p pat, String c s => if (p =? c)%char then prefix_drop pat s else None
  | String _ _, EmptyString => None
  end.
(** [s.replace(pat, by)] for a non-empty pattern: non-overlapping matches from
    the left.  [fuel] is the length of [s]: every step consumes a character. *)
Fixpoint replace_go (fuel : nat) (pat by_ s : string) : string :=
  match fuel with
  | O => s
  | S fuel =>
      match prefix_drop pat s with
      | Some rest => by_ +:+ replace_go fuel pat by_ rest
      | None => match s with
                | EmptyString => ""
                | String c s => String c (replace_go fuel pat by_ s)
                end
      end
  end.
Definition replace (pat by_ s : string) : string := replace_go (S (String.length s)) pat by_ s.
(** [s.matches(pat).count()]. *)
Fixpoint count_matches_go (fuel : nat) (pat s : string) : nat :=
  match fuel with
  | O => 0
  | S fuel =>
      match prefix_drop pat s with
      | Some rest => S (count_matches_go fuel pat rest)
      | None => match s with
                | EmptyString => 0
                | String _ s => count_matches_go fuel pat s
                end
      end
  end.
Definition count_matches (pat s : string) : nat := count_matches_go (S (String.length s)) pat s.

(** [items.join(sep)]. *)
Fixpoint join (sep : string) (l : list string) : string :=
  match l with
  | [] => ""
  | [s] => s
  | s :: l => s +:+ sep +:+ join sep l
  end.

(** The bytes of a string. *)
Definition string_bytes (s : string) : list Z :=
  map (λ c, Z.of_N (N_of_ascii c)) (String.list_ascii_of_string s).
(** [str::from_utf8]: well-formed sequences only. *)
Definition in_range (lo hi b : Z) : bool := (lo <=? b) && (b <=? hi).
Definition cont (b : Z) : bool := in_range 0x80 0xBF b.
Fixpoint utf8_valid (bs : list Z) : bool :=
  match bs with
  | [] => true
  | b0 :: bs =>
      if in_range 0 0x7F b0 then utf8_valid bs
      else match bs with
      | [] => false
      | b1 :: bs =>
          if in_range 0xC2 0xDF b0 then cont b1 && utf8_valid bs
          else match bs with
          | [] => false
          | b2 :: bs =>
              if in_range 0xE0 0xEF b0 then
                in_range (if b0 =? 0xE0 then 0xA0 else 0x80) (if b0 =? 0xED then 0x9F else 0xBF) b1 && cont b2 && utf8_valid bs
              else match bs with
              | [] => false
              | b3 :: bs =>
                  in_range 0xF0 0xF4 b0 &&
                  in_range (if b0 =? 0xF0 then 0x90 else 0x80) (if b0 =? 0xF4 then 0x8F else 0xBF) b1 &&
                  cont b2 && cont b3 && utf8_valid bs
              end
          end
      end
  end.
