(* ===== verification/Data.v ===== *)
(** The engine's data model: keys, values, types and data errors
    (src/engine/value.rs, time.rs, error.rs), with the derived equality and
    order of [Value] and the proof that the order is lawful. *)
From Stdlib Require Import ZArith Lia Bool Ascii.
From stdpp Require Import base list strings countable.
From S2P Require Import Prelude Order Float.
Open Scope Z_scope.

(** ** Keys and times *)

(** [pub struct Key(pub KeyImpl)], with [KeyImpl = u128]. *)
Record Key := mk_Key { key_0 : Z }.
Record DateTimeNaive := mk_DateTimeNaive { dtn_timestamp : Z }.
Record DateTimeUtc := mk_DateTimeUtc { dtu_timestamp : Z }.
Record Duration := mk_Duration { duration : Z }.

Global Instance Key_ord : Ord Key := λ a b, cmp (key_0 a) (key_0 b).
Global Instance Key_ord_laws : OrdLaws Key.
Proof. by apply (ord_laws_via key_0). Qed.
Global Instance DateTimeNaive_ord : Ord DateTimeNaive := λ a b, cmp (dtn_timestamp a) (dtn_timestamp b).
Global Instance DateTimeNaive_ord_laws : OrdLaws DateTimeNaive.
Proof. by apply (ord_laws_via dtn_timestamp). Qed.
Global Instance DateTimeUtc_ord : Ord DateTimeUtc := λ a b, cmp (dtu_timestamp a) (dtu_timestamp b).
Global Instance DateTimeUtc_ord_laws : OrdLaws DateTimeUtc.
Proof. by apply (ord_laws_via dtu_timestamp). Qed.
Global Instance Duration_ord : Ord Duration := λ a b, cmp (duration a) (duration b).
Global Instance Duration_ord_laws : OrdLaws Duration.
Proof. by apply (ord_laws_via duration). Qed.

Global Instance Key_eq_dec : EqDecision Key.
Proof. solve_decision. Defined.
Global Instance Key_countable : Countable Key.
Proof. apply (inj_countable' key_0 mk_Key). by intros []. Defined.

(** ** Data of the libraries the engine stores in values *)

(** An [ndarray::ArrayD]: its shape and its elements in logical order. *)
Record ArrayD (T : Type) := mk_ArrayD { shape : list Z; elements : list T }.
Arguments mk_ArrayD {T} _ _.
Arguments shape {T} _.
Arguments elements {T} _.

(** [serde_json::Value]. *)
Inductive JsonNumber := JPosInt (n : Z) | JNegInt (n : Z) | JFloat (f : f64).
Inductive JsonValue :=
| JNull
| JBool (b : bool)
| JNumber (n : JsonNumber)
| JString (s : string)
| JArray (l : list JsonValue)
| JObject (m : list (string * JsonValue)).

(** A Python object, by its identity. *)
Record PyObjectWrapper := mk_PyObjectWrapper { py_id : Z }.

(** [Handle<T>]: shared data with the key of its contents; equality and order
    look at the key only. *)
Record Handle (T : Type) := mk_Handle { handle_key : Key; handle_data : T }.
Arguments mk_Handle {T} _ _.
Arguments handle_key {T} _.
Arguments handle_data {T} _.
Global Instance Handle_ord {T} : Ord (Handle T) := λ a b, cmp (handle_key a) (handle_key b).
Global Instance Handle_ord_laws {T} : OrdLaws (Handle T).
Proof. by apply (ord_laws_via handle_key). Qed.

(** ** [enum Value] *)

Inductive Value :=
| VNone
| VBool (b : bool)
| VInt (i : Z)
| VFloat (f : f64)
| VPointer (p : Key)
| VString (s : string)
| VBytes (b : list Z)
| VTuple (vals : list Value)
| VIntArray (a : Handle (ArrayD Z))
| VFloatArray (a : Handle (ArrayD f64))
| VDateTimeNaive (dt : DateTimeNaive)
| VDateTimeUtc (dt : DateTimeUtc)
| VDuration (d : Duration)
| VJson (j : Handle JsonValue)
| VError
| VPyObjectWrapper (ob : Handle PyObjectWrapper).

(** Induction that reaches the elements of tuples. *)
Section value_ind.
Context (P : Value → Prop).
Context (Htuple : ∀ vals, Forall P vals → P (VTuple vals)).
Context (Hother : ∀ v, (∀ vals, v ≠ VTuple vals) → P v).

Fixpoint Value_nested_ind (v : Value) : P v :=
  match v with
  | VTuple vals => Htuple vals
      ((fix go (l : list Value) : Forall P l :=
          match l with
          | [] => Forall_nil_2 P
          | v :: l => Forall_cons_2 P v l (Value_nested_ind v) (go l)
          end) vals)
  | v => Hother v ltac:(discriminate)
  end.
End value_ind.

(** The order of the variants. *)
Definition value_discr (v : Value) : Z :=
  match v with
  | VNone => 0 | VBool _ => 1 | VInt _ => 2 | VFloat _ => 3 | VPointer _ => 4
  | VString _ => 5 | VBytes _ => 6 | VTuple _ => 7 | VIntArray _ => 8
  | VFloatArray _ => 9 | VDateTimeNaive _ => 10 | VDateTimeUtc _ => 11
  | VDuration _ => 12 | VJson _ => 13 | VError => 14 | VPyObjectWrapper _ => 15
  end.

(** [#[derive(PartialOrd, Ord)]]: by variant, then by payload. *)
Fixpoint Value_cmp (v1 v2 : Value) {struct v1} : comparison :=
  then_cmp (Z.compare (value_discr v1) (value_discr v2))
    match v1, v2 with
    | VBool a, VBool b => cmp a b
    | VInt a, VInt b => cmp a b
    | VFloat a, VFloat b => cmp a b
    | VPointer a, VPointer b => cmp a b
    | VString a, VString b => cmp a b
    | VBytes a, VBytes b => cmp a b
    | VTuple a, VTuple b => list_cmp Value_cmp a b
    | VIntArray a, VIntArray b => cmp a b
    | VFloatArray a, VFloatArray b => cmp a b
    | VDateTimeNaive a, VDateTimeNaive b => cmp a b
    | VDateTimeUtc a, VDateTimeUtc b => cmp a b
    | VDuration a, VDuration b => cmp a b
    | VJson a, VJson b => cmp a b
    | VPyObjectWrapper a, VPyObjectWrapper b => cmp a b
    | _, _ => Eq
    end.
Global Instance Value_ord : Ord Value := Value_cmp.

(** Element-wise equality of slices. *)
Definition list_eqb {A B} (e : A → B → bool) : list A → list B → bool :=
  fix go l1 l2 :=
    match l1, l2 with
    | [], [] => true
    | x :: l1, y :: l2 => e x y && go l1 l2
    | _, _ => false
    end.

(** [#[derive(PartialEq)]]: same variant, equal payloads.  [OrderedFloat]
    equates the zeros and the NaNs; a [Handle] compares its key. *)
Definition ordered_float_eqb (a b : f64) : bool :=
  if is_nan a then is_nan b else f64_eqb a b.
Definition Handle_eqb {T} (a b : Handle T) : bool :=
  key_0 (handle_key a) =? key_0 (handle_key b).
Fixpoint Value_eqb (v1 v2 : Value) {struct v1} : bool :=
  match v1, v2 with
  | VNone, VNone => true
  | VBool a, VBool b => Bool.eqb a b
  | VInt a, VInt b => a =? b
  | VFloat a, VFloat b => ordered_float_eqb a b
  | VPointer a, VPointer b => key_0 a =? key_0 b
  | VString a, VString b => (a =? b)%string
  | VBytes a, VBytes b => list_eqb Z.eqb a b
  | VTuple a, VTuple b => list_eqb Value_eqb a b
  | VIntArray a, VIntArray b => Handle_eqb a b
  | VFloatArray a, VFloatArray b => Handle_eqb a b
  | VDateTimeNaive a, VDateTimeNaive b => dtn_timestamp a =? dtn_timestamp b
  | VDateTimeUtc a, VDateTimeUtc b => dtu_timestamp a =? dtu_timestamp b
  | VDuration a, VDuration b => duration a =? duration b
  | VJson a, VJson b => Handle_eqb a b
  | VError, VError => true
  | VPyObjectWrapper a, VPyObjectWrapper b => Handle_eqb a b
  | _, _ => false
  end.

(** *** The order is lawful and agrees with the equality *)

Lemma then_cmp_opp c d : CompOpp (then_cmp c d) = then_cmp (CompOpp c) (CompOpp d).
Proof. by destruct c. Qed.

Lemma Value_cmp_antisym v1 v2 : Value_cmp v2 v1 = CompOpp (Value_cmp v1 v2).
Proof.
  revert v2. induction v1 as [vals IH|v1 Hv1] using Value_nested_ind; intros v2.
  - destruct v2; try reflexivity. cbn. by apply list_cmp_antisym.
  - destruct v1; try (by destruct (Hv1 vals)); destruct v2; try reflexivity; cbn; apply cmp_antisym.
Qed.

Ltac same_variant H v := destruct v; try discriminate H; clear H.

Lemma Value_cmp_payload v1 v2 :
  value_discr v1 = value_discr v2 →
  Value_cmp v1 v2 = match v1, v2 with
    | VBool a, VBool b => cmp a b
    | VInt a, VInt b => cmp a b
    | VFloat a, VFloat b => cmp a b
    | VPointer a, VPointer b => cmp a b
    | VString a, VString b => cmp a b
    | VBytes a, VBytes b => cmp a b
    | VTuple a, VTuple b => list_cmp Value_cmp a b
    | VIntArray a, VIntArray b => cmp a b
    | VFloatArray a, VFloatArray b => cmp a b
    | VDateTimeNaive a, VDateTimeNaive b => cmp a b
    | VDateTimeUtc a, VDateTimeUtc b => cmp a b
    | VDuration a, VDuration b => cmp a b
    | VJson a, VJson b => cmp a b
    | VPyObjectWrapper a, VPyObjectWrapper b => cmp a b
    | _, _ => Eq
    end.
Proof. intros H. destruct v1; same_variant H v2; reflexivity. Qed.
Lemma Value_cmp_discr v1 v2 :
  value_discr v1 ≠ value_discr v2 → Value_cmp v1 v2 = (value_discr v1 ?= value_discr v2).
Proof.
  intros H. destruct v1, v2; try reflexivity; by destruct H.
Qed.

(** A comparison that looks at the variant first is coherent when it is
    coherent within a variant. *)
Lemma coherent_by_discr v1 :
  (∀ v2 v3, value_discr v1 = value_discr v2 → value_discr v2 = value_discr v3 →
    (Value_cmp v1 v2 = Eq → Value_cmp v1 v3 = Value_cmp v2 v3) ∧
    (Value_cmp v2 v3 = Eq → Value_cmp v1 v2 = Value_cmp v1 v3) ∧
    (Value_cmp v1 v2 = Lt → Value_cmp v2 v3 = Lt → Value_cmp v1 v3 = Lt)) →
  cmp_coherent Value_cmp v1.
Proof.
  intros Hsame v2 v3.
  destruct (decide (value_discr v1 = value_discr v2)) as [H12|H12],
    (decide (value_discr v2 = value_discr v3)) as [H23|H23].
  - by apply Hsame.
  - rewrite (Value_cmp_discr v2 v3), (Value_cmp_discr v1 v3), H12 by congruence.
    repeat split; intros H; try done. by apply Z.compare_eq in H.
  - rewrite (Value_cmp_discr v1 v2), (Value_cmp_discr v1 v3), H23 by congruence.
    repeat split; intros H; try done. apply Z.compare_eq in H. congruence.
  - rewrite (Value_cmp_discr v1 v2), (Value_cmp_discr v2 v3) by done.
    repeat split; intros H; try (by apply Z.compare_eq in H).
    intros H'. rewrite Value_cmp_discr; rewrite Z.compare_lt_iff in *; lia.
Qed.

Lemma Value_cmp_coherent v1 : cmp_coherent Value_cmp v1.
Proof.
  induction v1 as [vals IH|v1 Hv1] using Value_nested_ind; apply coherent_by_discr;
    intros v2 v3 H12 H23.
  - same_variant H12 v2; same_variant H23 v3. by apply list_cmp_coherent.
  - destruct v1; try (by destruct (Hv1 vals));
      same_variant H12 v2; same_variant H23 v3; cbn; try done; apply coherent_of_laws.
Qed.

Global Instance Value_ord_laws : OrdLaws Value.
Proof. exact (ord_laws_of_coherent Value_cmp_antisym Value_cmp_coherent). Qed.

Lemma list_eqb_cmp {A} (e : A → A → bool) (c : A → A → comparison) l1 l2 :
  Forall (λ x, ∀ y, e x y = true ↔ c x y = Eq) l1 →
  list_eqb e l1 l2 = true ↔ list_cmp c l1 l2 = Eq.
Proof.
  intros Hl. revert l2. induction Hl as [|x l1 Hx _ IH]; intros [|y l2]; cbn; try done.
  rewrite andb_true_iff, Hx, IH. destruct (c x y); naive_solver.
Qed.
Lemma ordered_float_eqb_cmp a b : ordered_float_eqb a b = true ↔ cmp a b = Eq.
Proof.
  unfold ordered_float_eqb, f64_eqb, SpecFloat.SFeqb, cmp, f64_ord.
  destruct a, b; cbn; try done; repeat case_match; naive_solver.
Qed.
Lemma Handle_eqb_cmp {T} (a b : Handle T) : Handle_eqb a b = true ↔ cmp a b = Eq.
Proof. unfold Handle_eqb. rewrite Z.eqb_eq. symmetry. apply Z_cmp_eq. Qed.
Lemma bool_eqb_cmp a b : Bool.eqb a b = true ↔ cmp a b = Eq.
Proof. by destruct a, b. Qed.
Lemma Z_eqb_cmp (a b : Z) : (a =? b) = true ↔ cmp a b = Eq.
Proof. rewrite Z.eqb_eq. symmetry. apply Z_cmp_eq. Qed.
Lemma list_ascii_inj (a b : string) :
  String.list_ascii_of_string a = String.list_ascii_of_string b → a = b.
Proof.
  intros H%(f_equal String.string_of_list_ascii).
  by rewrite !String.string_of_list_ascii_of_string in H.
Qed.
Lemma ascii_cmp_eq (a b : ascii) : cmp a b = Eq ↔ a = b.
Proof.
  unfold cmp, ascii_ord. rewrite Z_cmp_eq. split; [|by intros ->].
  intros H%N2Z.inj%(f_equal ascii_of_N). by rewrite !ascii_N_embedding in H.
Qed.
Lemma string_cmp_eq (a b : string) : cmp a b = Eq ↔ a = b.
Proof.
  unfold cmp, string_ord, cmp, list_ord. rewrite list_cmp_eq_Forall2. split.
  - intros H. apply list_ascii_inj. induction H as [|x y l1 l2 ->%ascii_cmp_eq _ ->]; done.
  - intros ->. apply Forall_Forall2_diag, Forall_true. intros x. by apply ascii_cmp_eq.
Qed.
Lemma string_eqb_cmp (a b : string) : (a =? b)%string = true ↔ cmp a b = Eq.
Proof. rewrite String.eqb_eq. symmetry. apply string_cmp_eq. Qed.

Lemma Value_eqb_cmp v1 v2 : Value_eqb v1 v2 = true ↔ cmp v1 v2 = Eq.
Proof.
  unfold cmp, Value_ord. revert v2. induction v1 as [vals IH|v1 Hv1] using Value_nested_ind; intros v2.
  - destruct v2; try done. by apply list_eqb_cmp.
  - destruct v1; try (by destruct (Hv1 vals)); destruct v2; try done; cbn [Value_eqb Value_cmp value_discr Z.compare then_cmp];
      auto using bool_eqb_cmp, Z_eqb_cmp, ordered_float_eqb_cmp, string_eqb_cmp, Handle_eqb_cmp.
    apply list_eqb_cmp, Forall_true. intros. apply Z_eqb_cmp.
Qed.

(** ** Types *)

Inductive SimpleType :=
| STNone | STBool | STInt | STFloat | STPointer | STString | STTuple | STIntArray
| STFloatArray | STDateTimeNaive | STDateTimeUtc | STDuration | STBytes | STJson
| STError | STPyObjectWrapper.

(** [simple_type as u8]: [#[repr(u8)]] numbers the variants in order. *)
Definition simple_type_u8 (t : SimpleType) : Z :=
  match t with
  | STNone => 0 | STBool => 1 | STInt => 2 | STFloat => 3 | STPointer => 4 | STString => 5
  | STTuple => 6 | STIntArray => 7 | STFloatArray => 8 | STDateTimeNaive => 9
  | STDateTimeUtc => 10 | STDuration => 11 | STBytes => 12 | STJson => 13 | STError => 14
  | STPyObjectWrapper => 15
  end.

Inductive Type_ :=
| TAny | TBool | TInt | TFloat | TPointer | TString | TBytes | TDateTimeNaive | TDateTimeUtc
| TDuration | TArray | TJson | TTuple | TPyObjectWrapper.

Record CompoundType := mk_CompoundType { type_ : Type_; is_optional : bool }.

Global Instance SimpleType_eq_dec : EqDecision SimpleType.
Proof. solve_decision. Defined.
Global Instance Type_eq_dec : EqDecision Type_.
Proof. solve_decision. Defined.

(** ** Errors of the parsers and formatters (src/connectors/data_format.rs)

    [ParserError] is [enum ParseError] there; the boxed error of
    [SchemaNotSatisfied] is kept as the name of its type. *)
Inductive DebeziumFormatError := OperationFieldMissing | NoPayloadAtTopLevel | IncorrectJsonRoot.
Inductive ParserError :=
| FieldsNotFoundInHeader (parsed requested : list string)
| SchemaNotSatisfied (field_name value : string) (type_ : CompoundType) (error : string)
| UnexpectedNumberOfCsvTokens (n : nat)
| FailedToParseFromJson (field_name : string) (payload : JsonValue) (type_ : CompoundType)
| KeyValueTokensIncorrect (n : nat)
| FailedToExtractJsonField (field_name : string) (path : option string) (payload : JsonValue)
| FailedToParseJson (s : string)
| FailedToParseMetadata
| DebeziumFormatViolated (e : DebeziumFormatError)
| UnsupportedDebeziumOperation (op : string)
| EmptyKafkaPayload
| UnsupportedReaderContext
| Utf8DecodeFailed
| UnparsableType (t : CompoundType)
| NoDefault (field_name : string)
| FieldIncorrectType (value : Value) (field_name : string) (type_ : CompoundType).
Inductive FormatterError :=
| ColumnsValuesCountMismatch
| IncorrectColumnIndex
| TypeNonJsonSerializable (t : Type_)
| ErrorValueNonJsonSerializable
| UnsupportedValueType.

(** ** [enum DataError]

    A [String] carried by a variant is kept as the format string the source
    uses, without the interpolated arguments.  [Other] boxes an error of another
    type; those of the modelled code come from the parsers and formatters. *)
Inductive DataError :=
| ValueMissing
| KeyMissingInInputTable (k : Key)
| KeyMissingInOutputTable (k : Key)
| MissingKey (k : Key)
| DuplicateKey (k : Key)
| ValueError (msg : string)
| TypeMismatch (expected : string) (value : Value)
| ColumnTypeMismatch (expected actual : string)
| IndexOutOfBounds
| DivisionByZero
| ParseError (msg : string)
| DateTimeConversionError
| ErrorInValue
| ErrorInFilter
| ErrorInReindex
| ErrorInJoin
| ErrorInGroupby
| ErrorInDeduplicate
| ErrorInOutput
| ErrorInIndexUpdate
| ErrorInIndexSearch
| ReducerInitializationError (reducer_type : string) (value : Value) (source_key : Key)
| MoreThanOneValueInUniqueReducer (value_1 value_2 : Value)
| MixingTypesInNpSum
| IncorrectType (value : Value) (type_ : CompoundType)
| OtherParser (e : ParserError)
| OtherFormatter (e : FormatterError).

(** [DynResult<T>] (and [DataResult<T>], [Result<T>]): the errors that the
    modelled code raises are all [DataError]s. *)
Abbreviation DynResult := (outcome DataError).
