(* ===== verification/Externals.v ===== *)
(** The libraries the engine calls and whose code is not part of the
    repository, as type classes: operations that the definitions take as
    arguments, and (in the [...Laws] classes) the documented behaviour that
    some theorems rely on. *)
From Stdlib Require Import ZArith Lia Bool.
From stdpp Require Import base list strings.
From S2P Require Import Prelude Order Float Data.
Open Scope Z_scope.

(** ** xxhash-rust: the streaming XXH3 hasher.  Its state is determined by the
    bytes fed so far; [digest128] is the 128-bit digest of them. *)
Class XxHash := digest128 : list Z → Z.
Class XxHashLaws `{XxHash} : Prop := digest128_u128 : ∀ bs, 0 ≤ digest128 bs < 2 ^ 128.

(** ** Python: [PyObjectWrapper::as_bytes], [None] when pickling fails, and the
    text Python's [str] gives. *)
Class Python := {
  py_as_bytes : PyObjectWrapper → option (list Z);
  py_str : PyObjectWrapper → string
}.

(** ** serde_json *)
Class SerdeJson := {
  json_to_string : JsonValue → string;
  json_get_index : JsonValue → Z → option JsonValue;
  json_get_key : JsonValue → string → option JsonValue;
  json_is_null : JsonValue → bool;
  json_as_i64 : JsonValue → option Z;
  json_as_f64 : JsonValue → option f64;
  json_as_bool : JsonValue → option bool;
  json_as_str : JsonValue → option string
}.

(** ** num-integer on [i64]: floored division and modulo *)
Class NumInteger := {
  div_floor : Z → Z → DynResult Z;
  mod_floor : Z → Z → DynResult Z
}.
Class NumIntegerLaws `{NumInteger} : Prop := {
  div_floor_ok : ∀ a b, in_i64 a = true → in_i64 b = true → b ≠ 0 → in_i64 (a / b) = true →
    div_floor a b = Ok (a / b);
  mod_floor_ok : ∀ a b, in_i64 a = true → in_i64 b = true → b ≠ 0 → in_i64 (a / b) = true →
    mod_floor a b = Ok (a mod b);
  div_floor_range : ∀ a b q, div_floor a b = Ok q → in_i64 q = true;
  mod_floor_range : ∀ a b r, mod_floor a b = Ok r → in_i64 r = true;
  div_floor_no_err : ∀ a b e, div_floor a b ≠ Err e;
  mod_floor_no_err : ∀ a b e, mod_floor a b ≠ Err e
}.

(** ** chrono (and chrono-tz) *)
Class Chrono := {
  NaiveDateTime : Type;
  TimeDelta : Type;
  (* [DateTime::from_timestamp(secs, nsecs)], then [.naive_utc()] *)
  from_timestamp : Z → Z → option NaiveDateTime;
  (* [.and_utc().timestamp_nanos_opt()] *)
  timestamp_nanos_opt : NaiveDateTime → option Z;
  chrono_nanosecond : NaiveDateTime → Z;
  chrono_second : NaiveDateTime → Z;
  chrono_minute : NaiveDateTime → Z;
  chrono_hour : NaiveDateTime → Z;
  chrono_day : NaiveDateTime → Z;
  chrono_month : NaiveDateTime → Z;
  chrono_year : NaiveDateTime → Z;
  num_days_from_monday : NaiveDateTime → Z;
  (* [TimeDelta::nanoseconds] and the accessors *)
  delta_nanoseconds : Z → TimeDelta;
  num_nanoseconds : TimeDelta → option Z;
  num_microseconds : TimeDelta → option Z;
  num_milliseconds : TimeDelta → Z;
  num_seconds : TimeDelta → Z;
  num_minutes : TimeDelta → Z;
  num_hours : TimeDelta → Z;
  num_days : TimeDelta → Z;
  num_weeks : TimeDelta → Z;
  (* [DurationRound], [None] standing for its error *)
  duration_round : NaiveDateTime → TimeDelta → option NaiveDateTime;
  duration_trunc : NaiveDateTime → TimeDelta → option NaiveDateTime;
  add_delta : NaiveDateTime → TimeDelta → NaiveDateTime;
  (* formatting and parsing *)
  chrono_format : NaiveDateTime → string → option string;  (* None: invalid format *)
  utc_format : Z → string → option string;
  parse_datetime : string → string → option NaiveDateTime;
  parse_date : string → string → option NaiveDateTime;   (* at midnight *)
  parse_time : string → string → option NaiveDateTime;   (* on 1900-01-01 *)
  parse_utc : string → string → option NaiveDateTime;    (* as the UTC instant *)
  (* time zones: local instants of a zone to UTC and back *)
  Tz : Type;
  tz_parse : string → option Tz;
  LocalResult : Type := (NaiveDateTime + (NaiveDateTime * NaiveDateTime + unit))%type;
  from_local_datetime : Tz → NaiveDateTime → LocalResult;
  from_utc_datetime : Tz → NaiveDateTime → NaiveDateTime
}.

(** The range of seconds that chrono can represent. *)
Definition CHRONO_MIN_SECS : Z := -8334601228800.
Definition CHRONO_MAX_SECS : Z := 8210266876799.

Class ChronoLaws `{Chrono} : Prop := {
  from_timestamp_ok : ∀ s n, CHRONO_MIN_SECS ≤ s ≤ CHRONO_MAX_SECS → 0 ≤ n < 10 ^ 9 →
    ∃ dt, from_timestamp s n = Some dt ∧ chrono_nanosecond dt = n ∧
      chrono_second dt = s mod 60 ∧ chrono_minute dt = s / 60 mod 60 ∧
      chrono_hour dt = s / 3600 mod 24 ∧ num_days_from_monday dt = (s / 86400 + 3) mod 7 ∧
      (in_i64 (s * 10 ^ 9 + n) = true → timestamp_nanos_opt dt = Some (s * 10 ^ 9 + n));
  num_nanoseconds_ok : ∀ n, in_i64 n = true → num_nanoseconds (delta_nanoseconds n) = Some n;
  num_microseconds_ok : ∀ n, in_i64 n = true →
    num_microseconds (delta_nanoseconds n) = Some (Z.quot n (10 ^ 3));
  num_milliseconds_ok : ∀ n, in_i64 n = true →
    num_milliseconds (delta_nanoseconds n) = Z.quot n (10 ^ 6);
  num_seconds_ok : ∀ n, in_i64 n = true → num_seconds (delta_nanoseconds n) = Z.quot n (10 ^ 9);
  num_minutes_ok : ∀ n, in_i64 n = true →
    num_minutes (delta_nanoseconds n) = Z.quot (Z.quot n (10 ^ 9)) 60;
  num_hours_ok : ∀ n, in_i64 n = true →
    num_hours (delta_nanoseconds n) = Z.quot (Z.quot n (10 ^ 9)) 3600;
  num_days_ok : ∀ n, in_i64 n = true →
    num_days (delta_nanoseconds n) = Z.quot (Z.quot n (10 ^ 9)) 86400;
  num_weeks_ok : ∀ n, in_i64 n = true →
    num_weeks (delta_nanoseconds n) = Z.quot (Z.quot n (10 ^ 9)) 604800;
  (* truncation to a positive multiple *)
  duration_trunc_ok : ∀ dt n t, in_i64 n = true → 0 < n → timestamp_nanos_opt dt = Some t →
    ∃ dt', duration_trunc dt (delta_nanoseconds n) = Some dt' ∧
      (in_i64 (t - t mod n) = true → timestamp_nanos_opt dt' = Some (t - t mod n))
}.

(** ** ndarray: the array operations; a shape mismatch panics *)
Class Ndarray := {
  int_array_scale : ArrayD Z → Z → DynResult (ArrayD Z);
  int_array_add : ArrayD Z → ArrayD Z → DynResult (ArrayD Z);
  float_array_scale : ArrayD f64 → f64 → DynResult (ArrayD f64);
  float_array_add : ArrayD f64 → ArrayD f64 → DynResult (ArrayD f64);
  (* the row [index_axis(Axis(0), i)]; its shape drops the first axis *)
  index_axis0 : ∀ T, ArrayD T → Z → ArrayD T;
  (* [dot] of operands of one or two axes whose inner lengths agree *)
  int_array_dot : ArrayD Z → ArrayD Z → DynResult (ArrayD Z);
  float_array_dot : ArrayD f64 → ArrayD f64 → DynResult (ArrayD f64);
  int_array_display : ArrayD Z → string;
  float_array_display : ArrayD f64 → string
}.

(** ** Text and libm routines whose tables are not reproduced here *)
Class RustText := {
  f64_parse : string → option f64;         (* [str::parse::<f64>] *)
  f64_to_string : f64 → string;            (* [{f}] *)
  f64_debug : f64 → string;                (* [{f:?}] *)
  str_debug : string → string;             (* [{s:?}] *)
  to_lowercase : string → string;
  base32_crockford : list Z → string;      (* crate base32 *)
  f64_powf : f64 → f64 → f64
}.
