(* ===== verification/Instances.v ===== *)
(** Concrete implementations of the external interfaces of Externals.v, small
    enough to evaluate, with proofs that they satisfy the documented laws: the
    theorems that assume those laws are applied to them. *)
From Stdlib Require Import ZArith Lia Bool Ascii.
From stdpp Require Import base list strings.
From S2P Require Import Prelude Order Float Text Data Externals.
Open Scope Z_scope.

Module Concrete.

(** A multiplicative digest modulo [2^128]. *)
#[export] Instance xxhash : XxHash := λ bs,
foldl (λ acc b, (Z.lxor acc b * 309485009821345068724781371) mod 2 ^ 128)
  144066263297769815596495629667062367629 bs.
#[export] Instance xxhash_laws : XxHashLaws.
Proof.
intros bs. unfold digest128, xxhash.
induction bs as [|b bs _] using rev_ind; [cbn; lia|].
rewrite foldl_app. cbn [foldl]. apply Z.mod_pos_bound. lia.
Qed.

(** Objects pickle to their identity; negative identities do not pickle. *)
#[export] Instance python : Python := {|
py_as_bytes ob := if py_id ob <? 0 then None else Some (to_le_bytes 8 (py_id ob));
py_str ob := "object"%string
|}.

Fixpoint json_text (j : JsonValue) : string :=
match j with
| JNull => "null"
| JBool b => if b then "true" else "false"
| JNumber (JPosInt n) | JNumber (JNegInt n) => int_to_string n
| JNumber (JFloat _) => "float"
| JString s => String.append "'" (String.append s "'")
| JArray l => String.append "[" (String.append (join "," (map json_text l)) "]")
| JObject m => String.append "{" (String.append
    (join "," (map (λ kv, String.append (fst kv) (String.append ":" (json_text (snd kv)))) m)) "}")
end.
#[export] Instance serde_json : SerdeJson := {|
json_to_string := json_text;
json_get_index j i := match j with
  | JArray l => if i <? 0 then None else l !! Z.to_nat i | _ => None end;
json_get_key j k := match j with
  | JObject m => snd <$> find (λ kv, (fst kv =? k)%string) m | _ => None end;
json_is_null j := match j with JNull => true | _ => false end;
json_as_i64 j := match j with
  | JNumber (JPosInt n) | JNumber (JNegInt n) => if in_i64 n then Some n else None | _ => None end;
json_as_f64 j := match j with
  | JNumber (JPosInt n) | JNumber (JNegInt n) => Some (f64_of_int n)
  | JNumber (JFloat f) => Some f | _ => None end;
json_as_bool j := match j with JBool b => Some b | _ => None end;
json_as_str j := match j with JString s => Some s | _ => None end
|}.

#[export] Instance num_integer : NumInteger := {|
div_floor a b := if b =? 0 then Panic "attempt to divide by zero"
  else if in_i64 (a / b) then Ok (a / b) else Panic "attempt to divide with overflow";
mod_floor a b := if b =? 0 then Panic "attempt to calculate the remainder with a divisor of zero"
  else if in_i64 (a / b) then Ok (wrap_i64 (a mod b))
  else Panic "attempt to calculate the remainder with overflow"
|}.
Lemma mod_in_i64 a b : in_i64 b = true → b ≠ 0 → in_i64 (a mod b) = true.
Proof.
intros Hb%in_i64_spec Hb0. apply in_i64_spec.
destruct (Z_lt_le_dec 0 b).
- pose proof (Z.mod_pos_bound a b). lia.
- pose proof (Z.mod_neg_bound a b). lia.
Qed.
#[export] Instance num_integer_laws : NumIntegerLaws.
Proof.
split; cbn; intros a b.
- intros _ _ Hb%Z.eqb_neq Hq. by rewrite Hb, Hq.
- intros _ Hb Hb0 Hq. assert ((b =? 0) = false) as -> by by apply Z.eqb_neq.
  rewrite Hq, wrap_i64_id; [done|]. by apply mod_in_i64.
- intros q. repeat case_match; intros; simplify_eq; done.
- intros q. repeat case_match; intros; simplify_eq; auto with pathway.
- intros e. by repeat case_match.
- intros e. by repeat case_match.
Qed.

(** A calendar on nanoseconds since the epoch.  Formats and zones are not
  interpreted: every text parses to the epoch, every zone is UTC. *)
Definition nanos_per_sec : Z := 10 ^ 9.
#[export] Instance chrono : Chrono := {|
NaiveDateTime := Z;
TimeDelta := Z;
from_timestamp s n :=
  if (CHRONO_MIN_SECS <=? s) && (s <=? CHRONO_MAX_SECS) && (0 <=? n) && (n <? nanos_per_sec)
  then Some (s * nanos_per_sec + n) else None;
timestamp_nanos_opt dt := if in_i64 dt then Some dt else None;
chrono_nanosecond dt := dt mod nanos_per_sec;
chrono_second dt := dt / nanos_per_sec mod 60;
chrono_minute dt := dt / nanos_per_sec / 60 mod 60;
chrono_hour dt := dt / nanos_per_sec / 3600 mod 24;
chrono_day dt := 1;
chrono_month dt := 1;
chrono_year dt := 1970;
num_days_from_monday dt := (dt / nanos_per_sec / 86400 + 3) mod 7;
delta_nanoseconds n := n;
num_nanoseconds d := if in_i64 d then Some d else None;
num_microseconds d := let m := Z.quot d (10 ^ 3) in if in_i64 m then Some m else None;
num_milliseconds d := Z.quot d (10 ^ 6);
num_seconds d := Z.quot d (10 ^ 9);
num_minutes d := Z.quot (Z.quot d (10 ^ 9)) 60;
num_hours d := Z.quot (Z.quot d (10 ^ 9)) 3600;
num_days d := Z.quot (Z.quot d (10 ^ 9)) 86400;
num_weeks d := Z.quot (Z.quot d (10 ^ 9)) 604800;
duration_round dt d := if d <=? 0 then None else
  if dt mod d * 2 <? d then Some (dt - dt mod d) else Some (dt - dt mod d + d);
duration_trunc dt d := if d <=? 0 then None else Some (dt - dt mod d);
add_delta dt d := dt + d;
chrono_format dt fmt := Some fmt;
utc_format ts fmt := Some fmt;
parse_datetime _ _ := Some 0;
parse_date _ _ := Some 0;
parse_time _ _ := Some 0;
parse_utc _ _ := Some 0;
Tz := unit;
tz_parse _ := Some tt;
from_local_datetime _ dt := inl dt;
from_utc_datetime _ dt := dt
|}.
#[export] Instance chrono_laws : ChronoLaws.
Proof.
split; cbn; try done.
- intros s n Hs Hn. exists (s * nanos_per_sec + n).
  assert (Hdiv : (s * nanos_per_sec + n) / nanos_per_sec = s).
  { unfold nanos_per_sec. rewrite Z.div_add_l, Z.div_small by lia. lia. }
  rewrite !Hdiv. unfold nanos_per_sec at 1.
  replace ((CHRONO_MIN_SECS <=? s) && (s <=? CHRONO_MAX_SECS) && (0 <=? n) && (n <? 10 ^ 9))
    with true by (symmetry; rewrite !andb_true_iff, !Z.leb_le, Z.ltb_lt; lia).
  repeat split; try done.
  + unfold nanos_per_sec. rewrite Z.add_comm, Z.mod_add, Z.mod_small by lia. done.
  + intros Hr. unfold nanos_per_sec. by rewrite Hr.
- intros n Hn. by rewrite Hn.
- intros n Hn. assert (in_i64 (Z.quot n (10 ^ 3)) = true) as ->; [|done].
  apply in_i64_spec in Hn. apply in_i64_spec. Z.to_euclidean_division_equations. lia.
- intros dt n t Hn Hpos Ht. exists (dt - dt mod n).
  destruct (Z.leb_spec n 0); [lia|]. split; [done|].
  intros Hr. case_match; simplify_eq. by rewrite Hr.
Qed.

(** Arrays of equal shapes combine element by element; a row is a block of the
  elements. *)
Definition zip_arrays {T} (f : T → T → T) (a b : ArrayD T) : DynResult (ArrayD T) :=
if list_eqb Z.eqb (shape a) (shape b)
then Ok (mk_ArrayD (shape a) (zip_with f (elements a) (elements b)))
else Panic "could not broadcast array".
Definition row_axis0 {T} (a : ArrayD T) (i : Z) : ArrayD T :=
let stride := foldr Z.mul 1 (tail (shape a)) in
mk_ArrayD (tail (shape a)) (take (Z.to_nat stride) (drop (Z.to_nat (i * stride)) (elements a))).
Definition dot_vectors {T} (mul add : T → T → T) (zero : T) (a b : ArrayD T) : ArrayD T :=
mk_ArrayD [] [foldr add zero (zip_with mul (elements a) (elements b))].
#[export] Instance ndarray : Ndarray := {|
int_array_scale a k := Ok (mk_ArrayD (shape a) (map (λ x, wrap_i64 (x * k)) (elements a)));
int_array_add := zip_arrays (λ x y, wrap_i64 (x + y));
float_array_scale a k := Ok (mk_ArrayD (shape a) (map (λ x, f64_mul x k) (elements a)));
float_array_add := zip_arrays f64_add;
index_axis0 T := row_axis0;
int_array_dot a b := Ok (dot_vectors (λ x y, wrap_i64 (x * y)) (λ x y, wrap_i64 (x + y)) 0 a b);
float_array_dot a b := Ok (dot_vectors f64_mul f64_add f64_zero a b);
int_array_display a := "array"%string;
float_array_display a := "array"%string
|}.

(** Floats are not parsed or printed. *)
#[export] Instance rust_text : RustText := {|
f64_parse _ := None;
f64_to_string _ := "float"%string;
f64_debug _ := "float"%string;
str_debug s := s;
to_lowercase s := s;
base32_crockford _ := "key"%string;
f64_powf x _ := x
|}.

End Concrete.
