(* ===== verification/Value.v ===== *)
(** Values, types and keys (src/engine/value.rs, dataflow/shard.rs): accessors
    and conversions, the bytes that [HashInto] feeds to the hasher, key
    generation and sharding. *)
From Stdlib Require Import ZArith Lia Bool Ascii.
From stdpp Require Import base list strings.
From S2P Require Import Prelude Order Float Text Data Externals.
Open Scope Z_scope.

(** ** Accessors and types *)

Definition from_isize (i : Z) : Value := if in_i64 i then VInt i else VNone.

Definition type_mismatch (v : Value) (expected : string) : DataError := TypeMismatch expected v.

Definition as_pointer (v : Value) : DynResult Key :=
  match v with VPointer k => Ok k | _ => Err (type_mismatch v "pointer") end.
Definition as_int (v : Value) : DynResult Z :=
  match v with VInt i => Ok i | _ => Err (type_mismatch v "integer") end.
Definition as_bool (v : Value) : DynResult bool :=
  match v with VBool b => Ok b | _ => Err (type_mismatch v "bool") end.
Definition as_float (v : Value) : DynResult f64 :=
  match v with VFloat f => Ok f | _ => Err (type_mismatch v "float") end.
Definition as_ordered_float (v : Value) : DynResult f64 :=
  match v with VFloat f => Ok f | _ => Err (type_mismatch v "float") end.
Definition as_string (v : Value) : DynResult string :=
  match v with VString s => Ok s | _ => Err (type_mismatch v "string") end.
Definition as_tuple (v : Value) : DynResult (list Value) :=
  match v with VTuple t => Ok t | _ => Err (type_mismatch v "tuple") end.
Definition as_date_time_naive (v : Value) : DynResult DateTimeNaive :=
  match v with VDateTimeNaive dt => Ok dt | _ => Err (type_mismatch v "DateTimeNaive") end.
Definition as_date_time_utc (v : Value) : DynResult DateTimeUtc :=
  match v with VDateTimeUtc dt => Ok dt | _ => Err (type_mismatch v "DateTimeUtc") end.
Definition as_duration (v : Value) : DynResult Duration :=
  match v with VDuration d => Ok d | _ => Err (type_mismatch v "Duration") end.
Definition as_json (v : Value) : DynResult JsonValue :=
  match v with VJson j => Ok (handle_data j) | _ => Err (type_mismatch v "Json") end.
Definition into_result (v : Value) : DynResult Value :=
  match v with VError => Err ErrorInValue | _ => Ok v end.

Definition simple_type (v : Value) : SimpleType :=
  match v with
  | VNone => STNone
  | VBool _ => STBool
  | VInt _ => STInt
  | VFloat _ => STFloat
  | VPointer _ => STPointer
  | VString _ => STString
  | VBytes _ => STBytes
  | VTuple _ => STTuple
  | VIntArray _ => STIntArray
  | VFloatArray _ => STFloatArray
  | VDateTimeNaive _ => STDateTimeNaive
  | VDateTimeUtc _ => STDateTimeUtc
  | VDuration _ => STDuration
  | VJson _ => STJson
  | VError => STError
  | VPyObjectWrapper _ => STPyObjectWrapper
  end.

Definition to_type (t : SimpleType) : option Type_ :=
  match t with
  | STNone | STError => None
  | STBool => Some TBool
  | STInt => Some TInt
  | STFloat => Some TFloat
  | STPointer => Some TPointer
  | STString => Some TString
  | STTuple => Some TTuple
  | STIntArray | STFloatArray => Some TArray
  | STDateTimeNaive => Some TDateTimeNaive
  | STDateTimeUtc => Some TDateTimeUtc
  | STDuration => Some TDuration
  | STBytes => Some TBytes
  | STJson => Some TJson
  | STPyObjectWrapper => Some TPyObjectWrapper
  end.

Definition matches (ct : CompoundType) (v : Value) : bool :=
  if decide (type_ ct = TAny) then true
  else match to_type (simple_type v) with
       | Some value_type => bool_decide (type_ ct = value_type)
       | None => false
       end.

Definition convert_value (ct : CompoundType) (v : Value) : DynResult Value :=
  if matches ct v || is_optional ct && Value_eqb v VNone then Ok v
  else match v, type_ ct with
       | VInt i, TFloat => Ok (VFloat (f64_of_int i))
       | v, _ => Err (IncorrectType v ct)
       end.

(** ** Hashing: the bytes fed to the hasher *)

Definition u8_hash (z : Z) : list Z := to_le_bytes 1 z.
Definition i64_hash (z : Z) : list Z := to_le_bytes 8 z.
Definition usize_hash (n : nat) : list Z := to_le_bytes 8 (Z.of_nat n).
Definition u128_hash (z : Z) : list Z := to_le_bytes 16 z.
Definition bool_hash (b : bool) : list Z := u8_hash (Z.b2z b).
Definition f64_hash (f : f64) : list Z := to_le_bytes 8 (f64_hash_raw f).
Definition key_hash (k : Key) : list Z := u128_hash (key_0 k).
Definition str_hash (s : string) : list Z :=
  usize_hash (String.length s) ++ string_bytes s.
Definition slice_hash {T} (h : T → list Z) (l : list T) : list Z :=
  usize_hash (length l) ++ concat (map h l).
Definition array_hash {T} (h : T → list Z) (a : ArrayD T) : list Z :=
  slice_hash (to_le_bytes 8) (shape a) ++ concat (map h (elements a)).

Section hash.
Context `{XxHash, Python, SerdeJson, Chrono}.

Definition duration_hash (d : Duration) : DynResult (list Z) :=
  n ← unwrap (num_nanoseconds (delta_nanoseconds (duration d))); Ok (i64_hash n).
Definition json_hash (j : JsonValue) : list Z := str_hash (json_to_string j).
Definition py_hash (ob : PyObjectWrapper) : DynResult (list Z) :=
  match py_as_bytes ob with
  | Some bs => Ok (slice_hash u8_hash bs)
  | None => Panic "PyObjectWrapper serialization should not fail"
  end.

(** [impl HashInto for Value]: the tag of the simple type, then the payload;
    the elements of an array, the text of a JSON value and the pickle of a
    Python object are hashed through their handle. *)
Fixpoint value_hash (v : Value) : DynResult (list Z) :=
  match
    match v with
    | VNone => Ok []
    | VBool b => Ok (bool_hash b)
    | VInt i => Ok (i64_hash i)
    | VFloat f => Ok (f64_hash f)
    | VPointer p => Ok (key_hash p)
    | VString s => Ok (str_hash s)
    | VBytes b => Ok (slice_hash u8_hash b)
    | VTuple vals =>
        match try_collect value_hash vals with
        | Ok bss => Ok (usize_hash (length vals) ++ concat bss)
        | Err e => Err e
        | Panic p => Panic p
        end
    | VIntArray a => Ok (array_hash i64_hash (handle_data a))
    | VFloatArray a => Ok (array_hash f64_hash (handle_data a))
    | VDateTimeNaive dt => Ok (i64_hash (dtn_timestamp dt))
    | VDateTimeUtc dt => Ok (i64_hash (dtu_timestamp dt))
    | VDuration d => duration_hash d
    | VJson j => Ok (json_hash (handle_data j))
    | VError => Panic "trying to hash error"
    | VPyObjectWrapper ob => py_hash (handle_data ob)
    end
  with
  | Ok payload => Ok (u8_hash (simple_type_u8 (simple_type v)) ++ payload)
  | Err e => Err e
  | Panic p => Panic p
  end.

(** ** Keys *)

Definition from_hasher (hasher : list Z) : Key := mk_Key (digest128 hasher).
Definition FOR_EMPTY_TUPLE : Key := mk_Key 0x40108D33B7.
Definition SHARD_MASK : Z := Z.shiftl 1 16 - 1.

Definition for_value (v : Value) : DynResult Key :=
  bs ← value_hash v; Ok (from_hasher bs).
Definition for_values (values : list Value) : DynResult Key :=
  if Nat.eqb (length values) 0 then Ok FOR_EMPTY_TUPLE
  else bss ← try_collect value_hash values; Ok (from_hasher (concat bss)).

Definition salted_with (k : Key) (seed : Z) : Key := mk_Key (Z.lxor (key_0 k) seed).
Definition with_shard_of (k other : Key) : Key :=
  mk_Key (Z.lor (Z.land (key_0 k) (2 ^ 128 - 1 - SHARD_MASK)) (Z.land (key_0 other) SHARD_MASK)).

(** [Shard for Key]. *)
Definition shard (k : Key) : Z := wrap_u64 (Z.land (key_0 k) SHARD_MASK).

Inductive ShardPolicy := WholeKey | LastKeyColumn.
Definition from_last_column_is_instance (last_column_is_instance : bool) : ShardPolicy :=
  if last_column_is_instance then LastKeyColumn else WholeKey.

Definition generate_key (p : ShardPolicy) (values : list Value) : DynResult Key :=
  match p with
  | WholeKey => for_values values
  | LastKeyColumn =>
      k ← for_values values;
      v ← unwrap (last values);
      k' ← for_value v;
      Ok (with_shard_of k k')
  end.

(** [Handle::new]: the key is that of the contents. *)
Definition handle_new {T} (hash_into : T → list Z) (data : T) : Handle T :=
  mk_Handle (from_hasher (hash_into data)) data.
Definition value_from_int_array (a : ArrayD Z) : Value := VIntArray (handle_new (array_hash i64_hash) a).
Definition value_from_float_array (a : ArrayD f64) : Value :=
  VFloatArray (handle_new (array_hash f64_hash) a).
Definition value_from_json (j : JsonValue) : Value := VJson (handle_new json_hash j).
End hash.
