(* ===== verification/KeyProps.v ===== *)
(** What the engine relies on about keys (src/engine/value.rs): the bytes fed
    to the hasher form a uniquely decodable code for values and rows, equal
    values get equal keys, and the shard functions place rows of one instance
    on one worker. *)
From Stdlib Require Import ZArith Lia Bool Ascii.
From stdpp Require Import base list strings.
From S2P Require Import Prelude Order Float Text Data Externals Instances Value.
Open Scope Z_scope.

(** ** Prefix codes *)

(** [H x b]: [b] is the code word of [x].  At [x] the code is prefix-free up
    to [E]: no code word of an element that is not [E x] starts another. *)
Definition prefix_at {A} (E : A → A → Prop) (H : A → list Z → Prop) (x : A) : Prop :=
  ∀ y bx by_ r1 r2, H x bx → H y by_ → bx ++ r1 = by_ ++ r2 → E x y ∧ r1 = r2.

Section prefix.
Context {A : Type} (E : A → A → Prop) (H : A → list Z → Prop).

(** Concatenations of equally many code words decode. *)
Lemma prefix_concat l1 l2 bs1 bs2 r1 r2 :
  Forall (prefix_at E H) l1 → Forall2 H l1 bs1 → Forall2 H l2 bs2 →
  length l1 = length l2 → concat bs1 ++ r1 = concat bs2 ++ r2 →
  Forall2 E l1 l2 ∧ r1 = r2.
Proof.
  intros Hp H1. revert l2 bs2. induction H1 as [|x bx l1 bs1 Hx _ IH]; intros l2 bs2 H2 Hlen Heq.
  - destruct H2; [|done]. by split; [constructor|].
  - destruct H2 as [|y by_ l2 bs2 Hy H2]; [done|]. apply Forall_cons in Hp as [Hpx Hp].
    cbn in Heq. rewrite <- !app_assoc in Heq.
    destruct (Hpx _ _ _ _ _ Hx Hy Heq) as [HE Hr].
    cbn in Hlen. destruct (IH Hp l2 bs2 H2 ltac:(lia) Hr). by split; [constructor|].
Qed.

(** With code words that are not empty the number of words is determined. *)
Lemma prefix_decode l1 l2 bs1 bs2 :
  Forall (prefix_at E H) l1 → (∀ x b, H x b → b ≠ []) →
  Forall2 H l1 bs1 → Forall2 H l2 bs2 → concat bs1 = concat bs2 → Forall2 E l1 l2.
Proof.
  intros Hp Hne H1. revert l2 bs2. induction H1 as [|x bx l1 bs1 Hx _ IH]; intros l2 bs2 H2 Heq.
  - destruct H2 as [|y by_ l2 bs2 Hy]; [done|].
    cbn in Heq. symmetry in Heq. apply app_eq_nil in Heq as [Heq _]. by destruct (Hne _ _ Hy).
  - destruct H2 as [|y by_ l2 bs2 Hy H2].
    + cbn in Heq. apply app_eq_nil in Heq as [Heq _]. by destruct (Hne _ _ Hx).
    + apply Forall_cons in Hp as [Hpx Hp].
      destruct (Hpx _ _ _ _ _ Hx Hy Heq) as [HE Hr]. constructor; [done|]. by apply (IH Hp l2 bs2).
Qed.
End prefix.

(** A function of constant code length that is injective is a prefix code. *)
Lemma prefix_fixed {A} (P : A → Prop) (E : A → A → Prop) (h : A → list Z) x :
  (∀ x y, length (h x) = length (h y)) → (∀ x y, P x → P y → h x = h y → E x y) →
  prefix_at E (λ x b, P x ∧ b = h x) x.
Proof.
  intros Hlen Hinj y bx by_ r1 r2 [Hx ->] [Hy ->] [Hh ->]%app_inj_block; [|done].
  split; [by apply Hinj|done].
Qed.

Lemma to_le_bytes_inj_u n a b :
  0 ≤ a < 2 ^ (8 * Z.of_nat n) → 0 ≤ b < 2 ^ (8 * Z.of_nat n) →
  to_le_bytes n a = to_le_bytes n b → a = b.
Proof. intros Ha Hb Hab%to_le_bytes_inj. by rewrite !Z.mod_small in Hab. Qed.
Lemma i64_hash_inj a b : in_i64 a = true → in_i64 b = true → i64_hash a = i64_hash b → a = b.
Proof.
  intros Ha Hb Hab%to_le_bytes_inj%wrap_i64_cong. by rewrite !wrap_i64_id in Hab.
Qed.
Lemma f64_hash_inj a b :
  f64_valid a = true → f64_valid b = true → f64_hash a = f64_hash b → ordered_float_eqb a b = true.
Proof.
  intros Ha Hb Hab%to_le_bytes_inj_u; [|by apply f64_hash_raw_range..].
  apply ordered_float_eqb_cmp. by apply f64_hash_raw_inj.
Qed.

(** ** Well-formed values: what the Rust types guarantee *)

Definition u64_len {A} (l : list A) : Prop := Z.of_nat (length l) < 2 ^ 64.
Definition byte_ok (b : Z) : Prop := 0 ≤ b < 256.
Definition Key_wf (k : Key) : Prop := 0 ≤ key_0 k < 2 ^ 128.
Definition Array_wf {T} (P : T → Prop) (a : ArrayD T) : Prop :=
  u64_len (shape a) ∧ Forall (λ n, 0 ≤ n < 2 ^ 64) (shape a) ∧
  Z.of_nat (length (elements a)) = foldr Z.mul 1 (shape a) ∧ Forall P (elements a).

Section wf.
Context `{XxHash, Python, SerdeJson, Chrono}.

(** A handle is made by [Handle::new]: its key is that of its contents. *)
Definition Handle_wf {T} (h : T → list Z) (a : Handle T) : Prop :=
  handle_key a = from_hasher (h (handle_data a)).
Definition json_wf (a : Handle JsonValue) : Prop :=
  Handle_wf json_hash a ∧ Z.of_nat (String.length (json_to_string (handle_data a))) < 2 ^ 64.
Definition py_wf (a : Handle PyObjectWrapper) : Prop :=
  ∀ bs, py_as_bytes (handle_data a) = Some bs →
    u64_len bs ∧ Forall byte_ok bs ∧ handle_key a = from_hasher (slice_hash u8_hash bs).

Fixpoint Value_wf (v : Value) : Prop :=
  match v with
  | VNone | VBool _ | VError => True
  | VInt i => in_i64 i = true
  | VFloat f => f64_valid f = true
  | VPointer p => Key_wf p
  | VString s => Z.of_nat (String.length s) < 2 ^ 64
  | VBytes b => u64_len b ∧ Forall byte_ok b
  | VTuple vals => u64_len vals ∧ foldr (λ v P, Value_wf v ∧ P) True vals
  | VIntArray a => Array_wf (λ i, in_i64 i = true) (handle_data a) ∧ Handle_wf (array_hash i64_hash) a
  | VFloatArray a => Array_wf (λ f, f64_valid f = true) (handle_data a) ∧ Handle_wf (array_hash f64_hash) a
  | VDateTimeNaive dt => in_i64 (dtn_timestamp dt) = true
  | VDateTimeUtc dt => in_i64 (dtu_timestamp dt) = true
  | VDuration d => in_i64 (duration d) = true
  | VJson j => json_wf j
  | VPyObjectWrapper ob => py_wf ob
  end.
Lemma Value_wf_tuple vals : foldr (λ v P, Value_wf v ∧ P) True vals ↔ Forall Value_wf vals.
Proof. induction vals; cbn; [done|]. rewrite IHvals. by rewrite Forall_cons. Qed.

(** No [Handle]s inside: arrays, JSON values and Python objects compare by a
    digest and are left out where equality must reflect the contents. *)
Fixpoint handle_free (v : Value) : bool :=
  match v with
  | VIntArray _ | VFloatArray _ | VJson _ | VPyObjectWrapper _ => false
  | VTuple vals => forallb handle_free vals
  | _ => true
  end.
Fixpoint error_free (v : Value) : bool :=
  match v with VError => false | VTuple vals => forallb error_free vals | _ => true end.
End wf.

(** ** The payload encodings *)

Lemma u8_list_app_inj bs1 bs2 r1 r2 :
  Forall byte_ok bs1 → Forall byte_ok bs2 → u64_len bs1 → u64_len bs2 →
  slice_hash u8_hash bs1 ++ r1 = slice_hash u8_hash bs2 ++ r2 → bs1 = bs2 ∧ r1 = r2.
Proof.
  unfold slice_hash, usize_hash. intros H1 H2 Hl1 Hl2. rewrite <- !app_assoc.
  intros [Hlen Heq]%le_bytes_app_inj; [|unfold u64_len in *; lia..].
  assert (Hpc := prefix_concat eq (λ b w, byte_ok b ∧ w = u8_hash b) bs1 bs2
    (map u8_hash bs1) (map u8_hash bs2) r1 r2).
  destruct Hpc as [HE Hr]; [|..|lia|done|].
  - apply Forall_true. intros b. apply prefix_fixed; [done|].
    intros x y Hx Hy Hxy%to_le_bytes_inj_u; done.
  - apply Forall2_fmap_r, Forall_Forall2_diag. eapply Forall_impl; [exact H1|done].
  - apply Forall2_fmap_r, Forall_Forall2_diag. eapply Forall_impl; [exact H2|done].
  - split; [|done]. by apply list_eq_Forall2.
Qed.

Global Instance ascii_byte_inj : Inj eq eq (λ c, Z.of_N (N_of_ascii c)).
Proof. intros a b Hab%N2Z.inj%(f_equal ascii_of_N). by rewrite !ascii_N_embedding in Hab. Qed.
Lemma string_bytes_inj s1 s2 : string_bytes s1 = string_bytes s2 → s1 = s2.
Proof.
  intros Hs. apply list_ascii_inj. by apply (inj (fmap (λ c, Z.of_N (N_of_ascii c)))).
Qed.
Lemma length_string_bytes s : length (string_bytes s) = String.length s.
Proof. unfold string_bytes. rewrite length_map. induction s; cbn; [done|]. by rewrite IHs. Qed.
Lemma str_hash_app_inj s1 s2 r1 r2 :
  Z.of_nat (String.length s1) < 2 ^ 64 → Z.of_nat (String.length s2) < 2 ^ 64 →
  str_hash s1 ++ r1 = str_hash s2 ++ r2 → s1 = s2 ∧ r1 = r2.
Proof.
  unfold str_hash, usize_hash. intros H1 H2. rewrite <- !app_assoc.
  intros [Hlen Heq]%le_bytes_app_inj; [|lia..].
  apply app_inj_block in Heq as [Hs ->]; [|rewrite !length_string_bytes; lia].
  split; [|done]. by apply string_bytes_inj.
Qed.

Lemma array_hash_app_inj {T} (P : T → Prop) (E : T → T → Prop) (h : T → list Z) a1 a2 r1 r2 :
  (∀ x y, length (h x) = length (h y)) → (∀ x y, P x → P y → h x = h y → E x y) →
  Array_wf P a1 → Array_wf P a2 →
  array_hash h a1 ++ r1 = array_hash h a2 ++ r2 →
  shape a1 = shape a2 ∧ Forall2 E (elements a1) (elements a2) ∧ r1 = r2.
Proof.
  intros Hlen Hinj (Hu1 & Hs1 & Hc1 & He1) (Hu2 & Hs2 & Hc2 & He2).
  unfold array_hash, slice_hash, usize_hash. rewrite <- !app_assoc.
  intros [Hl Heq]%le_bytes_app_inj; [|unfold u64_len in *; lia..].
  apply (prefix_concat eq (λ n w, 0 ≤ n < 2 ^ 64 ∧ w = to_le_bytes 8 n) (shape a1) (shape a2))
    in Heq as [Hs%list_eq_Forall2 Heq]; [| |apply Forall2_fmap_r, Forall_Forall2_diag; eapply Forall_impl; [eassumption|done]..|lia].
  2:{ apply Forall_true. intros n. apply prefix_fixed; [by intros; rewrite !length_to_le_bytes|].
      intros x y Hx Hy. by apply to_le_bytes_inj_u. }
  apply (prefix_concat E (λ n w, P n ∧ w = h n) (elements a1) (elements a2)) in Heq as [He ->];
    [done| |apply Forall2_fmap_r, Forall_Forall2_diag; eapply Forall_impl; [eassumption|done]..|].
  - apply Forall_true. intros n. by apply prefix_fixed.
  - rewrite Hs in Hc1. lia.
Qed.

(** ** The encoding of values *)

Section value_code.
Context `{XxHash, Python, SerdeJson, Chrono, !ChronoLaws}.

Lemma duration_hash_ok d : in_i64 (duration d) = true → duration_hash d = Ok (i64_hash (duration d)).
Proof. intros Hd. unfold duration_hash. by rewrite num_nanoseconds_ok. Qed.

(** The payload that follows the tag of a value. *)
Definition payload (v : Value) : DynResult (list Z) :=
  match v with
  | VNone => Ok []
  | VBool b => Ok (bool_hash b)
  | VInt i => Ok (i64_hash i)
  | VFloat f => Ok (f64_hash f)
  | VPointer p => Ok (key_hash p)
  | VString s => Ok (str_hash s)
  | VBytes b => Ok (slice_hash u8_hash b)
  | VTuple vals => bss ← try_collect value_hash vals; Ok (usize_hash (length vals) ++ concat bss)
  | VIntArray a => Ok (array_hash i64_hash (handle_data a))
  | VFloatArray a => Ok (array_hash f64_hash (handle_data a))
  | VDateTimeNaive dt => Ok (i64_hash (dtn_timestamp dt))
  | VDateTimeUtc dt => Ok (i64_hash (dtu_timestamp dt))
  | VDuration d => duration_hash d
  | VJson j => Ok (json_hash (handle_data j))
  | VError => Panic "trying to hash error"
  | VPyObjectWrapper ob => py_hash (handle_data ob)
  end.
Lemma value_hash_payload v b :
  value_hash v = Ok b ↔
  ∃ p, payload v = Ok p ∧ b = u8_hash (simple_type_u8 (simple_type v)) ++ p.
Proof.
  split.
  - destruct v; cbn; intros Hb; repeat case_match; simplify_eq; eauto.
  - intros (p & Hp & ->).
    destruct v; cbn in *; unfold mbind, outcome_bind in *; repeat case_match; simplify_eq; done.
Qed.
Lemma value_hash_nonempty v b : value_hash v = Ok b → b ≠ [].
Proof. by intros (p & _ & ->)%value_hash_payload. Qed.

Lemma simple_type_u8_inj t1 t2 r1 r2 :
  u8_hash (simple_type_u8 t1) ++ r1 = u8_hash (simple_type_u8 t2) ++ r2 → t1 = t2 ∧ r1 = r2.
Proof. destruct t1, t2; cbn; intros; simplify_eq; done. Qed.
Lemma simple_type_discr v1 v2 : simple_type v1 = simple_type v2 → value_discr v1 = value_discr v2.
Proof. by destruct v1, v2. Qed.

Definition value_code (v : Value) (b : list Z) : Prop := Value_wf v ∧ value_hash v = Ok b.
Definition value_equiv (v1 v2 : Value) : Prop := Value_eqb v1 v2 = true.

Lemma value_code_Forall2 vals bs :
  Forall Value_wf vals → Forall2 (λ v b, value_hash v = Ok b) vals bs → Forall2 value_code vals bs.
Proof. intros Hw Hb. induction Hb; [constructor|]. apply Forall_cons in Hw as []. constructor; [done|auto]. Qed.

Lemma list_eqb_Forall2 l1 l2 : Forall2 value_equiv l1 l2 ↔ list_eqb Value_eqb l1 l2 = true.
Proof.
  split; [induction 1 as [|x y l1 l2 Hxy _ IH]; cbn; [done|]; by rewrite Hxy, IH|].
  revert l2. induction l1 as [|x l1 IH]; intros [|y l2]; cbn; try done.
  intros [? ?]%andb_true_iff. constructor; [done|by apply IH].
Qed.

Lemma handle_hash_eq {T} (h : T → list Z) (a1 a2 : Handle T) :
  Handle_wf h a1 → Handle_wf h a2 → h (handle_data a1) = h (handle_data a2) → Handle_eqb a1 a2 = true.
Proof. unfold Handle_wf, Handle_eqb. intros -> -> ->. apply Z.eqb_refl. Qed.
Lemma py_hash_eq a1 a2 bs :
  py_wf a1 → py_wf a2 → py_as_bytes (handle_data a1) = Some bs →
  py_as_bytes (handle_data a2) = Some bs → Handle_eqb a1 a2 = true.
Proof.
  intros Hw1 Hw2 Hb1 Hb2. destruct (Hw1 _ Hb1) as (_ & _ & Hk1), (Hw2 _ Hb2) as (_ & _ & Hk2).
  unfold Handle_eqb. rewrite Hk1, Hk2. apply Z.eqb_refl.
Qed.

Lemma i64_hash_app_inj a b r1 r2 :
  in_i64 a = true → in_i64 b = true → i64_hash a ++ r1 = i64_hash b ++ r2 → a = b ∧ r1 = r2.
Proof. intros Ha Hb [Hab ->]%app_inj_block; [|done]. by split; [apply i64_hash_inj|]. Qed.

(** Within a variant: the payload decodes. *)
Lemma payload_app_inj v1 v2 p1 p2 r1 r2 :
  (∀ vals, v1 = VTuple vals → Forall (prefix_at value_equiv value_code) vals) →
  Value_wf v1 → Value_wf v2 → value_discr v1 = value_discr v2 →
  payload v1 = Ok p1 → payload v2 = Ok p2 → p1 ++ r1 = p2 ++ r2 →
  value_equiv v1 v2 ∧ r1 = r2.
Proof.
  intros IH Hw1 Hw2 Hd Hp1 Hp2 Heq. unfold value_equiv.
  destruct v1; same_variant Hd v2; cbn [payload Value_wf Value_eqb] in *;
    rewrite ?duration_hash_ok in Hp1, Hp2 by done; try done;
    try (injection Hp1 as <-; injection Hp2 as <-).
  - done.
  - destruct b, b0; cbn in Heq; simplify_eq; done.
  - apply i64_hash_app_inj in Heq as [-> ->]; [|done..]. by rewrite Z.eqb_refl.
  - apply app_inj_block in Heq as [Heq ->]; [|done]. split; [by apply f64_hash_inj|done].
  - apply le_bytes_app_inj in Heq as [-> ->]; [|done..]. by rewrite Z.eqb_refl.
  - apply str_hash_app_inj in Heq as [-> ->]; [|done..]. by rewrite String.eqb_refl.
  - destruct Hw1, Hw2. apply u8_list_app_inj in Heq as [-> ->]; [|done..].
    split; [|done]. exact (proj2 (Value_eqb_cmp (VBytes _) (VBytes _)) (cmp_refl _)).
  - destruct Hw1 as [Hl1 Hw1%Value_wf_tuple], Hw2 as [Hl2 Hw2%Value_wf_tuple].
    apply bind_ok in Hp1 as (bs1 & Hb1%try_collect_ok & <-%(inj Ok)).
    apply bind_ok in Hp2 as (bs2 & Hb2%try_collect_ok & <-%(inj Ok)).
    rewrite <- !app_assoc in Heq. unfold usize_hash in Heq.
    apply le_bytes_app_inj in Heq as [Hlen Heq]; [|unfold u64_len in *; lia..].
    apply (prefix_concat value_equiv value_code vals vals0) in Heq as [HE ->];
      [split; [by apply list_eqb_Forall2|done]|by apply IH|by apply value_code_Forall2..|lia].
  - destruct Hw1, Hw2. assert (Heq' := Heq).
    apply (array_hash_app_inj (λ i, in_i64 i = true) eq) in Heq' as (_ & _ & ->); [|done|by intros; apply i64_hash_inj|done..].
    apply app_inv_tail in Heq. split; [by eapply handle_hash_eq|done].
  - destruct Hw1, Hw2. assert (Heq' := Heq).
    apply (array_hash_app_inj (λ f, f64_valid f = true) (λ x y, ordered_float_eqb x y = true)) in Heq' as (_ & _ & ->);
      [|done|by intros; apply f64_hash_inj|done..].
    apply app_inv_tail in Heq. split; [by eapply handle_hash_eq|done].
  - apply i64_hash_app_inj in Heq as [-> ->]; [|done..]. by rewrite Z.eqb_refl.
  - apply i64_hash_app_inj in Heq as [-> ->]; [|done..]. by rewrite Z.eqb_refl.
  - apply i64_hash_app_inj in Heq as [-> ->]; [|done..]. by rewrite Z.eqb_refl.
  - destruct Hw1, Hw2. apply str_hash_app_inj in Heq as [Hs ->]; [|done..].
    split; [|done]. eapply handle_hash_eq; [done..|]. unfold json_hash. by rewrite Hs.
  - unfold py_hash in Hp1, Hp2.
    destruct (py_as_bytes (handle_data ob)) as [bs1|] eqn:Hb1; [|done]. apply (inj Ok) in Hp1 as <-.
    destruct (py_as_bytes (handle_data ob0)) as [bs2|] eqn:Hb2; [|done]. apply (inj Ok) in Hp2 as <-.
    destruct (Hw1 _ Hb1) as (? & ? & _), (Hw2 _ Hb2) as (? & ? & _).
    apply u8_list_app_inj in Heq as [-> ->]; [|done..]. split; [by eapply py_hash_eq|done].
Qed.

Lemma value_code_prefix v : prefix_at value_equiv value_code v.
Proof.
  induction v as [vals IH|v Hv] using Value_nested_ind;
    intros v2 b1 b2 r1 r2 [Hw1 (p1 & Hp1 & ->)%value_hash_payload]
      [Hw2 (p2 & Hp2 & ->)%value_hash_payload]; rewrite <- !app_assoc;
    intros [Hd%simple_type_discr Heq]%simple_type_u8_inj;
    (eapply payload_app_inj; [|done..]); intros vals' Hvals; [by injection Hvals as <-|by destruct (Hv vals')].
Qed.

(** Rows of well-formed values with the same bytes are equal. *)
Lemma row_code_decode vs1 vs2 bs1 bs2 :
  Forall Value_wf vs1 → Forall Value_wf vs2 →
  try_collect value_hash vs1 = Ok bs1 → try_collect value_hash vs2 = Ok bs2 →
  concat bs1 = concat bs2 → Forall2 value_equiv vs1 vs2.
Proof.
  intros Hw1 Hw2 H1'%try_collect_ok H2'%try_collect_ok. apply (prefix_decode value_equiv value_code).
  - apply Forall_true, value_code_prefix.
  - intros x b [_ Hb]. by eapply value_hash_nonempty.
  - by apply value_code_Forall2.
  - by apply value_code_Forall2.
Qed.

(** *** Equal values are fed alike *)

Lemma handle_free_hash v1 v2 :
  handle_free v1 = true → value_equiv v1 v2 → value_hash v1 = value_hash v2.
Proof.
  unfold value_equiv. revert v2. induction v1 as [vals IH|v1 Hv] using Value_nested_ind; intros v2 Hf Heq.
  - destruct v2 as [| | | | | | |vals2| | | | | | | |]; try done. cbn in *.
    assert (try_collect value_hash vals = try_collect value_hash vals2 ∧ length vals = length vals2)
      as [-> ->]; [|done].
    revert vals2 Heq. induction IH as [|v vals Hv _ IH]; intros [|v2 vals2]; cbn; try done.
    intros [Hh Ht]%andb_true_iff. cbn in Hf. apply andb_true_iff in Hf as [Hfv Hf].
    destruct (IH Hf _ Ht) as [-> ->]. by rewrite (Hv v2).
  - destruct v1; try done; try (by destruct (Hv vals)); destruct v2; try done; cbn in *.
    + by destruct b, b0.
    + by apply Z.eqb_eq in Heq as ->.
    + unfold f64_hash. by rewrite (f64_cmp_eq_hash f f0) by by apply ordered_float_eqb_cmp.
    + unfold key_hash. by apply Z.eqb_eq in Heq as ->.
    + by apply String.eqb_eq in Heq as ->.
    + apply (list_eqb_cmp Z.eqb cmp) in Heq; [|apply Forall_true; intros; apply Z_eqb_cmp].
      apply list_cmp_eq_Forall2 in Heq.
      assert (b = b0) as ->; [|done]. apply list_eq_Forall2.
      eapply Forall2_impl; [done|]. intros x y. apply Z_cmp_eq.
    + by apply Z.eqb_eq in Heq as ->.
    + by apply Z.eqb_eq in Heq as ->.
    + unfold duration_hash. by apply Z.eqb_eq in Heq as ->.
Qed.
End value_code.

(** ** Keys of rows *)

Section row_keys.
Context `{XxHash, Python, SerdeJson, Chrono, !ChronoLaws}.

(** Hashing is total on values without errors and handles. *)
Lemma handle_free_hash_ok v :
  handle_free v = true → error_free v = true → Value_wf v → ∃ b, value_hash v = Ok b.
Proof.
  induction v as [vals IH|v Hv] using Value_nested_ind; intros Hf He Hw.
  - cbn in *. destruct Hw as [_ Hw%Value_wf_tuple].
    assert (∃ bs, try_collect value_hash vals = Ok bs) as [bs ->]; [|eauto].
    induction IH as [|v vals Hv _ IH]; cbn; [eauto|].
    cbn in Hf, He. apply andb_true_iff in Hf as [Hf1 Hf2], He as [He1 He2].
    apply Forall_cons in Hw as [Hw1 Hw2].
    destruct (Hv Hf1 He1 Hw1) as [b ->], (IH Hf2 He2 Hw2) as [bs ->]. eauto.
  - destruct v; try done; try (by destruct (Hv vals)); cbn in *; rewrite ?duration_hash_ok; eauto.
Qed.

(** A value with an error inside never hashes. *)
Lemma error_hash v b : value_hash v = Ok b → error_free v = true.
Proof.
  revert b. induction v as [vals IH|v Hv] using Value_nested_ind; intros b Hb.
  - cbn in *. destruct (try_collect value_hash vals) as [bs| |] eqn:Hbs; [|done..].
    clear Hb. apply try_collect_ok in Hbs. apply forallb_forall. intros v Hin%list_elem_of_In.
    apply list_elem_of_lookup in Hin as [i Hi]. destruct (Forall2_lookup_l _ _ _ _ _ Hbs Hi) as (b' & _ & Hb').
    rewrite Forall_lookup in IH. by eapply IH.
  - destruct v; try done. by destruct (Hv vals).
Qed.

Lemma for_values_ok vs k :
  for_values vs = Ok k →
  (vs = [] ∧ k = FOR_EMPTY_TUPLE) ∨
  ∃ bs, try_collect value_hash vs = Ok bs ∧ k = mk_Key (digest128 (concat bs)).
Proof.
  unfold for_values. destruct vs as [|v vs]; [intros [= <-]; by left|].
  intros (bs & Hbs & Hk)%bind_ok. right. exists bs. split; [done|]. by injection Hk as <-.
Qed.

(** *** Shards *)

Lemma shard_mask_ones : SHARD_MASK = Z.ones 16.
Proof. reflexivity. Qed.
Lemma shard_mod k : 0 ≤ key_0 k → shard k = key_0 k mod 2 ^ 16.
Proof.
  intros Hk. unfold shard, wrap_u64, wrap_u. rewrite shard_mask_ones, Z.land_ones by lia.
  apply Z.mod_small. pose proof (Z.mod_pos_bound (key_0 k) (2 ^ 16)). lia.
Qed.
Lemma with_shard_of_bits k other i :
  0 ≤ i < 128 → Z.testbit (key_0 (with_shard_of k other)) i =
    if i <? 16 then Z.testbit (key_0 other) i else Z.testbit (key_0 k) i.
Proof.
  intros Hi. unfold with_shard_of. cbn [key_0].
  replace (2 ^ 128 - 1 - SHARD_MASK) with (Z.shiftl (Z.ones 112) 16) by reflexivity.
  rewrite shard_mask_ones, Z.lor_spec, !Z.land_spec, Z.shiftl_spec by lia.
  rewrite !Z.testbit_ones by lia.
  destruct (Z.ltb_spec i 16), (Z.leb_spec 0 (i - 16)), (Z.leb_spec 0 i), (Z.ltb_spec (i - 16) 112);
    try lia; by destruct (Z.testbit (key_0 k) i), (Z.testbit (key_0 other) i).
Qed.
Lemma with_shard_of_high k other :
  key_0 (with_shard_of k other) =
  Z.shiftl (Z.land (Z.shiftr (key_0 k) 16) (Z.ones 112)) 16 + key_0 other mod 2 ^ 16.
Proof.
  unfold with_shard_of. cbn [key_0]. rewrite shard_mask_ones, Z.land_ones by lia.
  replace (2 ^ 128 - 1 - Z.ones 16) with (Z.shiftl (Z.ones 112) 16) by reflexivity.
  replace (Z.land (key_0 k) (Z.shiftl (Z.ones 112) 16))
    with (Z.shiftl (Z.land (Z.shiftr (key_0 k) 16) (Z.ones 112)) 16).
  2:{ apply Z.bits_inj'. intros n Hn. rewrite Z.land_spec, !Z.shiftl_spec by lia.
      destruct (Z_lt_le_dec n 16).
      - rewrite !(Z.testbit_neg_r _ (n - 16)) by lia. by rewrite andb_false_r.
      - rewrite Z.land_spec, Z.shiftr_spec by lia. do 2 f_equal. lia. }
  symmetry. apply Z.add_nocarry_lor, Z.bits_inj'. intros n Hn. rewrite Z.land_spec, Z.bits_0, Z.shiftl_spec by lia.
  destruct (Z_lt_le_dec n 16).
  - by rewrite (Z.testbit_neg_r _ (n - 16)) by lia.
  - rewrite Z.mod_pow2_bits_high by lia. by rewrite andb_false_r.
Qed.
Lemma with_shard_of_wf k other : Key_wf (with_shard_of k other).
Proof.
  unfold Key_wf. rewrite with_shard_of_high, Z.land_ones, Z.shiftl_mul_pow2 by lia.
  pose proof (Z.mod_pos_bound (Z.shiftr (key_0 k) 16) (2 ^ 112)).
  pose proof (Z.mod_pos_bound (key_0 other) (2 ^ 16)). lia.
Qed.
Lemma shard_with_shard_of k other :
  Key_wf other → shard (with_shard_of k other) = shard other.
Proof.
  intros Ho. unfold Key_wf in Ho. rewrite !shard_mod by (try apply with_shard_of_wf; lia).
  rewrite with_shard_of_high, Z.shiftl_mul_pow2, Z.add_comm, Z.mod_add, Z.mod_mod by lia. done.
Qed.
End row_keys.

(** ** Types *)

Lemma matches_any ct v : type_ ct = TAny → matches ct v = true.
Proof. intros Ht. unfold matches. by rewrite decide_True. Qed.
Lemma matches_float ct i : type_ ct = TFloat → matches ct (VFloat (f64_of_int i)) = true.
Proof. intros Ht. unfold matches. rewrite Ht. done. Qed.
Lemma convert_value_cases ct v :
  (convert_value ct v = Ok v ∧ (matches ct v = true ∨ is_optional ct = true ∧ v = VNone)) ∨
  (matches ct v = false ∧
    ((∃ i, v = VInt i ∧ type_ ct = TFloat ∧ convert_value ct v = Ok (VFloat (f64_of_int i))) ∨
     convert_value ct v = Err (IncorrectType v ct) ∧ (is_optional ct = true → v ≠ VNone) ∧
       (type_ ct = TFloat → ∀ i, v ≠ VInt i))).
Proof.
  unfold convert_value. destruct (matches ct v) eqn:Hm; [left; auto|].
  destruct (is_optional ct) eqn:Ho; cbn [orb andb].
  - destruct (Value_eqb v VNone) eqn:Hv; [left; destruct v; auto|]. right. split; [done|].
    destruct v, (type_ ct); cbn in Hv; try done; try (right; repeat split; done); left; eauto.
  - right. split; [done|]. destruct v, (type_ ct); try (right; repeat split; done); left; eauto.
Qed.

(** ** Properties *)

(** C1: the bytes a row of well-formed values feeds to the hasher determine the
    row (up to the equality of values): a key clash between two different rows
    can only be a collision of the digest itself. *)
Theorem row_bytes_determine_row `{XxHash, Python, SerdeJson, Chrono, !ChronoLaws} vs1 vs2 bs1 bs2 :
  Forall Value_wf vs1 → Forall Value_wf vs2 →
  try_collect value_hash vs1 = Ok bs1 → try_collect value_hash vs2 = Ok bs2 →
  (concat bs1 = concat bs2 → Forall2 (λ a b, Value_eqb a b = true) vs1 vs2) ∧
  (vs1 ≠ [] → for_values vs1 = Ok (mk_Key (digest128 (concat bs1)))).
Proof.
  intros Hw1 Hw2 Hb1 Hb2. split; [by apply row_code_decode|].
  intros Hne. unfold for_values. destruct vs1; [done|]. cbn [length Nat.eqb]. by rewrite Hb1.
Qed.

(** C2: Rows of equal values get the same key, whatever the digest, also where equal
    values are not identical (the two zeros, and all NaNs): for rows of well-formed
    values that contain no array, JSON value or Python object, whose equality compares
    only their digests. Such a row gets a key exactly when no Value::Error is in it. *)
Theorem equal_rows_same_key `{XxHash, Python, SerdeJson, Chrono, !ChronoLaws} vs1 vs2 :
  Forall (λ v, handle_free v = true) vs1 → Forall Value_wf vs1 →
  Forall2 (λ a b, Value_eqb a b = true) vs1 vs2 →
  for_values vs1 = for_values vs2 ∧
  ((∃ k, for_values vs1 = Ok k) ↔ Forall (λ v, error_free v = true) vs1).
Proof.
  intros Hf Hw Heq. split.
  - unfold for_values. rewrite (Forall2_length _ _ _ Heq).
    assert (try_collect value_hash vs1 = try_collect value_hash vs2) as ->; [|done].
    clear Hw. induction Heq as [|v1 v2 vs1 vs2 Hv _ IH]; [done|].
    apply Forall_cons in Hf as [Hf1 Hf]. cbn. by rewrite (handle_free_hash v1 v2), IH.
  - split.
    + intros [k [[-> _]|(bs & Hbs%try_collect_ok & _)]%for_values_ok]; [constructor|].
      clear - Hbs. induction Hbs; constructor; eauto using error_hash.
    + clear Heq vs2. intros He. unfold for_values. destruct vs1 as [|v vs1]; [by eexists|].
      cbn [length Nat.eqb]. revert Hf Hw He. generalize (v :: vs1). intros vs Hf Hw He.
      assert (∃ bs, try_collect value_hash vs = Ok bs) as [bs ->]; [|by eexists].
      induction vs as [|w vs IH]; cbn; [eauto|]. rewrite Forall_cons in Hf, Hw, He.
      destruct Hf as [Hf1 Hf], Hw as [Hw1 Hw], He as [He1 He].
      destruct (handle_free_hash_ok w Hf1 He1 Hw1) as [b ->], (IH Hf Hw He) as [bs ->]. eauto.
Qed.

(** with the last column as the instance, the generated key keeps the upper
    112 bits of the whole-row key and takes its 16 shard bits from the key of
    the last column, so that all rows of an instance have one shard; an empty
    row panics. *)
Theorem generate_key_colocates `{XxHash, !XxHashLaws, Python, SerdeJson, Chrono} vs k v kv kw :
  generate_key LastKeyColumn vs = Ok k → last vs = Some v → for_value v = Ok kv →
  generate_key WholeKey vs = Ok kw →
  shard k = shard kv ∧ Key_wf k ∧
  (∀ i, 16 ≤ i < 128 → Z.testbit (key_0 k) i = Z.testbit (key_0 kw) i) ∧
  generate_key LastKeyColumn [] = Panic "called `Option::unwrap()` on a `None` value".
Proof.
  cbn [generate_key]. intros (k0 & Hk0 & Hk)%bind_ok Hlast Hkv Hkw.
  rewrite Hlast, Hkw in *. cbn in Hk. rewrite Hkv in Hk. injection Hk as <-. injection Hk0 as ->.
  assert (Key_wf kv) as Hwf.
  { apply bind_ok in Hkv as (b & _ & Hb). injection Hb as <-. exact (digest128_u128 b). }
  repeat split; try apply with_shard_of_wf; [by apply shard_with_shard_of|].
  intros i Hi. rewrite with_shard_of_bits by lia. by destruct (Z.ltb_spec i 16); [lia|].
Qed.

(** C4: the derived order of values is a total order whose equivalence is the
    derived equality: comparison is antisymmetric and transitive, and two
    values compare [Equal] exactly when [==] holds. *)
Theorem Value_order_total v1 v2 v3 :
  Value_cmp v2 v1 = CompOpp (Value_cmp v1 v2) ∧
  (Value_cmp v1 v2 ≠ Gt → Value_cmp v2 v3 ≠ Gt → Value_cmp v1 v3 ≠ Gt) ∧
  (Value_cmp v1 v2 = Eq ↔ Value_eqb v1 v2 = true).
Proof.
  split; [apply Value_cmp_antisym|]. split; [apply (cmp_trans v1 v2 v3)|].
  symmetry. apply Value_eqb_cmp.
Qed.

(** [convert_value] returns a value of the declared type (or [None] for an
    optional type), changes a value only from an integer to a float, converting
    again changes nothing, and it fails with [IncorrectType] of that value
    exactly when no conversion exists. *)
Theorem convert_value_correct ct v :
  (∀ w, convert_value ct v = Ok w →
     (matches ct w = true ∨ is_optional ct = true ∧ w = VNone) ∧ convert_value ct w = Ok w ∧
     (w = v ∨ ∃ i, v = VInt i ∧ w = VFloat (f64_of_int i) ∧ type_ ct = TFloat)) ∧
  ((∃ w, convert_value ct v = Ok w) ∨ convert_value ct v = Err (IncorrectType v ct)) ∧
  (convert_value ct v = Err (IncorrectType v ct) ↔
     matches ct v = false ∧ (is_optional ct = true → v ≠ VNone) ∧ (type_ ct = TFloat → ∀ i, v ≠ VInt i)).
Proof.
  destruct (convert_value_cases ct v) as [[Hc Hm]|[Hm [(i & -> & Ht & Hc)|(Hc & Hn & Hi)]]]; rewrite Hc.
  - split; [intros w [= <-]; eauto|]. split; [eauto|]. split; [done|].
    intros (Hm' & Hn & _). destruct Hm as [Hm|[Ho Hv]]; [congruence|by destruct (Hn Ho)].
  - split; [intros w [= <-]; split_and!; eauto|].
    + left. by apply matches_float.
    + unfold convert_value. by rewrite matches_float.
    + split; [eauto|]. split; [done|]. intros (_ & _ & Hi). by destruct (Hi Ht i).
  - split; [done|]. split; [by right|]. done.
Qed.

(** ** The properties at concrete inputs *)

Section witnesses.
Import Concrete.

Definition sample_row : list Value :=
[VInt 7; VTuple [VString "a"; VNone]; VFloat f64_one; VDuration (mk_Duration 5); VBytes [1; 255]].
Definition sample_bytes : list (list Z) :=
match try_collect value_hash sample_row with Ok bs => bs | _ => [] end.

Lemma row_bytes_determine_row_witness :
for_values sample_row = Ok (mk_Key (digest128 (concat sample_bytes))) ∧
Forall2 (λ a b, Value_eqb a b = true) sample_row sample_row.
Proof.
assert (Forall Value_wf sample_row) as Hw
  by (repeat constructor; cbn; unfold u64_len, byte_ok; cbn; try done; lia).
destruct (row_bytes_determine_row sample_row sample_row sample_bytes sample_bytes) as [Hd Hk];
  [exact Hw|exact Hw|vm_compute; reflexivity..|].
split; [by apply Hk|by apply Hd].
Defined.

Lemma equal_rows_same_key_witness :
for_values [VFloat (SpecFloat.S754_zero true); VInt 3] = for_values [VFloat f64_zero; VInt 3].
Proof.
apply (equal_rows_same_key [VFloat (SpecFloat.S754_zero true); VInt 3] [VFloat f64_zero; VInt 3]);
  repeat constructor.
Defined.

Lemma generate_key_colocates_witness :
∃ k1 k2, generate_key LastKeyColumn [VInt 1; VString "u"] = Ok k1 ∧
  for_value (VString "u") = Ok k2 ∧ shard k1 = shard k2.
Proof.
do 2 eexists. split; [vm_compute; reflexivity|]. split; [vm_compute; reflexivity|].
eapply (generate_key_colocates [VInt 1; VString "u"] _ (VString "u")); vm_compute; reflexivity.
Defined.

End witnesses.
