(* ===== verification/Time.v ===== *)
(** Date-times and durations (src/engine/time.rs): nanoseconds in an [i64],
    with calendar arithmetic by chrono. *)
From Stdlib Require Import ZArith Lia Bool Ascii.
From stdpp Require Import base list strings.
From S2P Require Import Prelude Order Float Text Data Externals Instances.
Open Scope Z_scope.

(** ** [trait DateTime] *)

Class DateTime (A : Type) := timestamp : A → Z.
Global Instance DateTimeNaive_DateTime : DateTime DateTimeNaive := dtn_timestamp.
Global Instance DateTimeUtc_DateTime : DateTime DateTimeUtc := dtu_timestamp.

Definition get_unit_multiplier (unit_ : string) : DynResult Z :=
  if (unit_ =? "s")%string then Ok 1000000000
  else if (unit_ =? "ms")%string then Ok 1000000
  else if (unit_ =? "us")%string then Ok 1000
  else if (unit_ =? "ns")%string then Ok 1
  else Err (ValueError "unit has to be one of s, ms, us, ns but is {unit:?}").

Definition sanitize_format_string (format : string) : DynResult string :=
  let format := replace ".%f" "%.f" format in
  if Nat.eqb (count_matches "%f" format) (count_matches "%%f" format) then Ok format
  else Err (ParseError "cannot use format {format:?}: using %f without the leading dot is not supported").

Section datetime.
Context `{Profile, Chrono, NumInteger}.

Definition try_u32 (z : Z) : DynResult Z :=
  if (0 <=? z) && (z <? 2 ^ 32) then Ok z
  else Panic "called `Result::unwrap()` on an `Err` value: TryFromIntError(())".

Section trait.
Context `{DateTime A}.
Implicit Types (self : A).

Definition as_chrono_datetime self : DynResult NaiveDateTime :=
  secs ← i64_div (timestamp self) 1000000000;
  nanos ← i64_rem (timestamp self) 1000000000;
  ' (secs, nanos) ← (if nanos <? 0
    then s ← i64_arith (secs - 1); n ← i64_arith (nanos + 1000000000); Ok (s, n)
    else Ok (secs, nanos));
  nanos ← try_u32 nanos;
  unwrap (from_timestamp secs nanos).

Definition nanosecond self : DynResult Z := chrono_nanosecond <$> as_chrono_datetime self.
Definition microsecond self : DynResult Z :=
  dt ← as_chrono_datetime self; Ok (chrono_nanosecond dt / 1000).
Definition millisecond self : DynResult Z :=
  dt ← as_chrono_datetime self; Ok (chrono_nanosecond dt / 1000000).
Definition second self : DynResult Z := chrono_second <$> as_chrono_datetime self.
Definition timestamp_microseconds self : DynResult Z := i64_div (timestamp self) 1000.
Definition timestamp_milliseconds self : DynResult Z := i64_div (timestamp self) 1000000.
Definition timestamp_seconds self : DynResult Z := i64_div (timestamp self) 1000000000.
Definition minute self : DynResult Z := chrono_minute <$> as_chrono_datetime self.
Definition hour self : DynResult Z := chrono_hour <$> as_chrono_datetime self.
Definition day self : DynResult Z := chrono_day <$> as_chrono_datetime self.
Definition month self : DynResult Z := chrono_month <$> as_chrono_datetime self.
Definition year self : DynResult Z := chrono_year <$> as_chrono_datetime self.
Definition weekday self : DynResult Z := num_days_from_monday <$> as_chrono_datetime self.
Definition timestamp_in_unit self (unit_ : string) : DynResult f64 :=
  mult ← get_unit_multiplier unit_;
  Ok (f64_div (f64_of_int (timestamp self)) (f64_of_int mult)).
Definition as_chrono_duration (d : Duration) : TimeDelta := delta_nanoseconds (duration d).
Definition get_rounded_timestamp self (d : Duration) : DynResult Z :=
  dt ← as_chrono_datetime self;
  r ← unwrap (duration_round dt (as_chrono_duration d));
  unwrap (timestamp_nanos_opt r).
Definition get_truncated_timestamp self (d : Duration) : DynResult Z :=
  dt ← as_chrono_datetime self;
  r ← unwrap (duration_trunc dt (as_chrono_duration d));
  unwrap (timestamp_nanos_opt r).
End trait.

(** [.format(..).to_string()] panics when the format is invalid. *)
Definition format_to_string (s : option string) : DynResult string :=
  match s with
  | Some s => Ok s
  | None => Panic "a Display implementation returned an error unexpectedly"
  end.

(** ** [DateTimeNaive] *)

Definition naive_from_chrono (value : NaiveDateTime) : DynResult DateTimeNaive :=
  t ← unwrap (timestamp_nanos_opt value); Ok (mk_DateTimeNaive t).
Definition utc_from_chrono (value : NaiveDateTime) : DynResult DateTimeUtc :=
  t ← unwrap (timestamp_nanos_opt value); Ok (mk_DateTimeUtc t).

Definition naive_strptime (date_string format : string) : DynResult DateTimeNaive :=
  format ← sanitize_format_string format;
  match parse_datetime date_string format with
  | Some datetime => naive_from_chrono datetime
  | None =>
      match parse_date date_string format with
      | Some datetime => naive_from_chrono datetime
      | None =>
          match parse_time date_string format with
          | Some datetime => naive_from_chrono datetime
          | None => Err (ParseError "cannot parse date {date_string:?} using format {format:?}")
          end
      end
  end.

Definition to_utc_from_timezone (self : DateTimeNaive) (timezone : string) : DynResult DateTimeUtc :=
  match tz_parse timezone with
  | Some tz =>
      naive_local ← as_chrono_datetime self;
      match from_local_datetime tz naive_local with
      | inl localized => utc_from_chrono localized                  (* Single *)
      | inr (inl (_, localized)) => utc_from_chrono localized       (* Ambiguous *)
      | inr (inr _) =>                                               (* None *)
          let moved := add_delta naive_local (delta_nanoseconds (30 * 60 * 10 ^ 9)) in
          rounded ← unwrap (duration_round moved (delta_nanoseconds (3600 * 10 ^ 9)));
          match from_local_datetime tz rounded with
          | inl localized => utc_from_chrono localized
          | _ => Err DateTimeConversionError
          end
      end
  | None => Err (ParseError "cannot parse time zone {timezone:?}: {e}")
  end.

Definition naive_round (self : DateTimeNaive) (d : Duration) : DynResult DateTimeNaive :=
  mk_DateTimeNaive <$> get_rounded_timestamp self d.
Definition naive_truncate (self : DateTimeNaive) (d : Duration) : DynResult DateTimeNaive :=
  mk_DateTimeNaive <$> get_truncated_timestamp self d.
Definition naive_from_timestamp (ts : Z) (unit_ : string) : DynResult DateTimeNaive :=
  mult ← get_unit_multiplier unit_; mk_DateTimeNaive <$> i64_arith (mult * ts).
Definition naive_from_timestamp_f64 (ts : f64) (unit_ : string) : DynResult DateTimeNaive :=
  mult ← get_unit_multiplier unit_;
  Ok (mk_DateTimeNaive (f64_as_i64 (f64_mul (f64_of_int mult) ts))).
Definition naive_strftime (self : DateTimeNaive) (format : string) : DynResult string :=
  dt ← as_chrono_datetime self; format_to_string (chrono_format dt format).
Definition naive_sub (a b : DateTimeNaive) : DynResult Duration :=
  mk_Duration <$> i64_arith (dtn_timestamp a - dtn_timestamp b).
Definition naive_add_duration (a : DateTimeNaive) (d : Duration) : DynResult DateTimeNaive :=
  mk_DateTimeNaive <$> i64_arith (dtn_timestamp a + duration d).
Definition naive_sub_duration (a : DateTimeNaive) (d : Duration) : DynResult DateTimeNaive :=
  mk_DateTimeNaive <$> i64_arith (dtn_timestamp a - duration d).
Definition naive_display (self : DateTimeNaive) : DynResult string :=
  naive_strftime self "%Y-%m-%dT%H:%M:%S%.9f".

(** ** [DateTimeUtc] *)

Definition utc_strptime (date_string format : string) : DynResult DateTimeUtc :=
  format ← sanitize_format_string format;
  match parse_utc date_string format with
  | Some datetime => utc_from_chrono datetime
  | None => Err (ParseError "cannot parse date {date_string:?} using format {format:?}: {e}")
  end.
Definition to_naive_in_timezone (self : DateTimeUtc) (timezone : string) : DynResult DateTimeNaive :=
  match tz_parse timezone with
  | Some tz =>
      naive_utc ← as_chrono_datetime self;
      naive_from_chrono (from_utc_datetime tz naive_utc)
  | None => Err (ParseError "cannot parse time zone {timezone:?}: {e}")
  end.
Definition utc_round (self : DateTimeUtc) (d : Duration) : DynResult DateTimeUtc :=
  mk_DateTimeUtc <$> get_rounded_timestamp self d.
Definition utc_truncate (self : DateTimeUtc) (d : Duration) : DynResult DateTimeUtc :=
  mk_DateTimeUtc <$> get_truncated_timestamp self d.
Definition utc_from_timestamp (ts : Z) (unit_ : string) : DynResult DateTimeUtc :=
  mult ← get_unit_multiplier unit_; mk_DateTimeUtc <$> i64_arith (mult * ts).
Definition utc_strftime (self : DateTimeUtc) (format : string) : DynResult string :=
  format_to_string (utc_format (dtu_timestamp self) format).
Definition utc_sub (a b : DateTimeUtc) : DynResult Duration :=
  mk_Duration <$> i64_arith (dtu_timestamp a - dtu_timestamp b).
Definition utc_add_duration (a : DateTimeUtc) (d : Duration) : DynResult DateTimeUtc :=
  mk_DateTimeUtc <$> i64_arith (dtu_timestamp a + duration d).
Definition utc_sub_duration (a : DateTimeUtc) (d : Duration) : DynResult DateTimeUtc :=
  mk_DateTimeUtc <$> i64_arith (dtu_timestamp a - duration d).
Definition utc_display (self : DateTimeUtc) : DynResult string :=
  utc_strftime self "%Y-%m-%dT%H:%M:%S%.9f%z".

(** ** [Duration] *)

Definition new_with_unit (d : Z) (unit_ : string) : DynResult Duration :=
  mult ← get_unit_multiplier unit_; mk_Duration <$> i64_arith (d * mult).
Definition nanoseconds (d : Duration) : DynResult Z := unwrap (num_nanoseconds (as_chrono_duration d)).
Definition microseconds (d : Duration) : DynResult Z := unwrap (num_microseconds (as_chrono_duration d)).
Definition milliseconds (d : Duration) : Z := num_milliseconds (as_chrono_duration d).
Definition seconds (d : Duration) : Z := num_seconds (as_chrono_duration d).
Definition minutes (d : Duration) : Z := num_minutes (as_chrono_duration d).
Definition hours (d : Duration) : Z := num_hours (as_chrono_duration d).
Definition days (d : Duration) : Z := num_days (as_chrono_duration d).
Definition weeks (d : Duration) : Z := num_weeks (as_chrono_duration d).

Definition true_div (a b : Duration) : DynResult f64 :=
  if duration b =? 0 then Err DivisionByZero
  else Ok (f64_div (f64_of_int (duration a)) (f64_of_int (duration b))).
Definition true_div_by_i64 (a : Duration) (b : Z) : DynResult Duration :=
  if b =? 0 then Err DivisionByZero else mk_Duration <$> i64_div (duration a) b.
Definition duration_neg (a : Duration) : DynResult Duration := mk_Duration <$> i64_arith (- duration a).
Definition duration_add (a b : Duration) : DynResult Duration :=
  mk_Duration <$> i64_arith (duration a + duration b).
Definition duration_sub (a b : Duration) : DynResult Duration :=
  mk_Duration <$> i64_arith (duration a - duration b).
Definition duration_mul (a : Duration) (b : Z) : DynResult Duration :=
  mk_Duration <$> i64_arith (duration a * b).
Definition duration_mul_f64 (a : Duration) (b : f64) : Duration :=
  mk_Duration (f64_as_i64 (f64_mul (f64_of_int (duration a)) b)).
Definition duration_div (a b : Duration) : DynResult Z :=
  if duration b =? 0 then Err DivisionByZero else div_floor (duration a) (duration b).
Definition duration_div_i64 (a : Duration) (b : Z) : DynResult Duration :=
  if b =? 0 then Err DivisionByZero else mk_Duration <$> div_floor (duration a) b.
Definition duration_div_f64 (a : Duration) (b : f64) : DynResult Duration :=
  if f64_eqb b f64_zero then Err DivisionByZero
  else Ok (mk_Duration (f64_as_i64 (f64_div (f64_of_int (duration a)) b))).
Definition duration_rem (a b : Duration) : DynResult Duration :=
  if duration b =? 0 then Err DivisionByZero else mk_Duration <$> mod_floor (duration a) (duration b).

(** [Display]: the loop over the units, pushing to [output]. *)
Definition timeunits : list (Z * string) :=
  [(1000000000 * 60 * 60 * 24, "d"); (1000000000 * 60 * 60, "h"); (1000000000 * 60, "m");
   (1000000000, "s"); (1, "ns")]%string.
Fixpoint display_loop (units : list (Z * string)) (remaining_nanoseconds : Z) (output : list string)
    : DynResult (list string) :=
  match units with
  | [] => Ok output
  | (num_nanoseconds, unit_name) :: units =>
      q ← i64_div remaining_nanoseconds num_nanoseconds;
      if negb (q =? 0) then
        r ← i64_rem remaining_nanoseconds num_nanoseconds;
        display_loop units r (output ++ [String.append (int_to_string q) unit_name])
      else display_loop units remaining_nanoseconds output
  end.
Definition duration_display (d : Duration) : DynResult string :=
  output ← display_loop timeunits (duration d) []; Ok (join " " output).
End datetime.

(** ** Date-times: the conversion to chrono *)

Section datetime_props.
Context `{Profile, Chrono, !ChronoLaws, DateTime A}.
Implicit Types (self : A).

(** Whatever the sign, the seconds and nanoseconds are the floored ones. *)
Lemma split_timestamp t :
  (Z.rem t (10 ^ 9) < 0 → Z.quot t (10 ^ 9) - 1 = t / 10 ^ 9 ∧ Z.rem t (10 ^ 9) + 10 ^ 9 = t mod 10 ^ 9) ∧
  (0 ≤ Z.rem t (10 ^ 9) → Z.quot t (10 ^ 9) = t / 10 ^ 9 ∧ Z.rem t (10 ^ 9) = t mod 10 ^ 9).
Proof. split; intros; Z.to_euclidean_division_equations; lia. Qed.

Lemma as_chrono_datetime_eq self :
  in_i64 (timestamp self) = true →
  as_chrono_datetime self = unwrap (from_timestamp (timestamp self / 10 ^ 9) (timestamp self mod 10 ^ 9)).
Proof.
  intros Hi. set (t := timestamp self) in *. pose proof (split_timestamp t) as [Hneg Hpos].
  assert (Hr : 0 ≤ t mod 10 ^ 9 < 10 ^ 9) by (apply Z.mod_pos_bound; lia).
  assert (Htry : try_u32 (t mod 10 ^ 9) = Ok (t mod 10 ^ 9)).
  { unfold try_u32. by rewrite (proj2 (Z.leb_le _ _)), (proj2 (Z.ltb_lt _ _)) by lia. }
  unfold as_chrono_datetime. fold t. change 1000000000 with (10 ^ 9).
  rewrite i64_div_pos, i64_rem_pos by (done || lia). cbn [mbind outcome_bind].
  destruct (Z.ltb_spec (Z.rem t (10 ^ 9)) 0) as [Hlt|Hge].
  - destruct (Hneg Hlt) as [-> ->].
    assert (in_i64 (t / 10 ^ 9) = true ∧ in_i64 (t mod 10 ^ 9) = true) as [Hd Hm].
    { apply in_i64_spec in Hi. split; apply in_i64_spec; Z.to_euclidean_division_equations; lia. }
    rewrite !i64_arith_exact by done. cbn [mbind outcome_bind]. by rewrite Htry.
  - destruct (Hpos Hge) as [-> ->]. cbn [mbind outcome_bind]. by rewrite Htry.
Qed.

(** Every [i64] is in chrono's range. *)
Lemma i64_secs_in_chrono t : in_i64 t = true → CHRONO_MIN_SECS ≤ t / 10 ^ 9 ≤ CHRONO_MAX_SECS.
Proof.
  intros Hi%in_i64_spec. unfold CHRONO_MIN_SECS, CHRONO_MAX_SECS.
  Z.to_euclidean_division_equations. lia.
Qed.

Lemma as_chrono_datetime_ok self :
  let t := timestamp self in in_i64 t = true →
  ∃ dt, as_chrono_datetime self = Ok dt ∧ chrono_nanosecond dt = t mod 10 ^ 9 ∧
    chrono_second dt = t / 10 ^ 9 mod 60 ∧ chrono_minute dt = t / 10 ^ 9 / 60 mod 60 ∧
    chrono_hour dt = t / 10 ^ 9 / 3600 mod 24 ∧
    num_days_from_monday dt = (t / 10 ^ 9 / 86400 + 3) mod 7 ∧
    timestamp_nanos_opt dt = Some t.
Proof.
  intros t Hi. subst t.
  destruct (from_timestamp_ok (timestamp self / 10 ^ 9) (timestamp self mod 10 ^ 9))
    as (dt & Hdt & ? & ? & ? & ? & ? & Ht).
  { by apply i64_secs_in_chrono. } { apply Z.mod_pos_bound. lia. }
  exists dt. rewrite as_chrono_datetime_eq, Hdt by done. split; [done|]. repeat split; try done.
  assert (Heq : timestamp self / 10 ^ 9 * 10 ^ 9 + timestamp self mod 10 ^ 9 = timestamp self)
    by (Z.to_euclidean_division_equations; lia).
  rewrite Heq in Ht. by apply Ht.
Qed.

Lemma get_truncated_timestamp_ok self d :
  let t := timestamp self in
  in_i64 t = true → in_i64 (duration d) = true → 0 < duration d →
  in_i64 (t - t mod duration d) = true →
  get_truncated_timestamp self d = Ok (t - t mod duration d).
Proof.
  intros t Hi Hd Hpos Hr. subst t.
  destruct (as_chrono_datetime_ok self Hi) as (dt & Hdt & _ & _ & _ & _ & _ & Ht).
  destruct (duration_trunc_ok dt (duration d) _ Hd Hpos Ht) as (dt' & Htr & Hts).
  unfold get_truncated_timestamp, as_chrono_duration. rewrite Hdt. cbn. rewrite Htr. cbn.
  by rewrite (Hts Hr).
Qed.
End datetime_props.

(** ** Durations: printing *)

Section display_props.
Lemma display_loop_cons u name units r out :
  in_i64 r = true → 0 < u →
  display_loop ((u, name) :: units) r out =
  display_loop units (Z.rem r u)
    (out ++ if Z.quot r u =? 0 then [] else [String.append (int_to_string (Z.quot r u)) name]).
Proof.
  intros Hr Hu. cbn [display_loop]. rewrite i64_div_pos by done. cbn [mbind outcome_bind].
  destruct (Z.eqb_spec (Z.quot r u) 0) as [Hq|Hq]; cbn [negb].
  - rewrite app_nil_r. f_equal. pose proof (Z.quot_rem' r u). lia.
  - by rewrite i64_rem_pos by done.
Qed.

Definition render (c : Z * string) : string := String.append (int_to_string (fst c)) (snd c).
Definition nonzero (c : Z * string) : bool := negb (fst c =? 0).
Definition DAY : Z := 86400 * 10 ^ 9.
Definition HOUR : Z := 3600 * 10 ^ 9.
Definition MINUTE : Z := 60 * 10 ^ 9.
Definition SECOND : Z := 10 ^ 9.
Definition duration_parts (n : Z) : list (Z * string) :=
  [(Z.quot n DAY, "d"); (Z.quot (Z.rem n DAY) HOUR, "h"); (Z.quot (Z.rem n HOUR) MINUTE, "m");
   (Z.quot (Z.rem n MINUTE) SECOND, "s"); (Z.rem n SECOND, "ns")]%string.

Lemma rem_in_i64 n u : in_i64 n = true → 0 < u → in_i64 (Z.rem n u) = true.
Proof.
  intros Hn%in_i64_spec Hu. apply in_i64_spec. destruct (Z.le_ge_cases 0 n).
  - pose proof (Z.rem_le n u). pose proof (Z.rem_bound_pos n u). lia.
  - rewrite <- (Z.opp_involutive n), Z.rem_opp_l'.
    pose proof (Z.rem_le (- n) u). pose proof (Z.rem_bound_pos (- n) u). lia.
Qed.
Lemma rem_rem n a b : 0 < a → 0 < b → Z.rem (Z.rem n (a * b)) b = Z.rem n b.
Proof.
  intros Ha Hb.
  assert (Hnn : ∀ m, 0 ≤ m → Z.rem (Z.rem m (a * b)) b = Z.rem m b).
  { intros m Hm. pose proof (Z.rem_bound_pos m (a * b)).
    rewrite !Z.rem_mod_nonneg by nia. apply Z.mod_mod_divide. by exists a. }
  destruct (Z.le_ge_cases 0 n) as [Hn|Hn]; [by apply Hnn|].
  specialize (Hnn (- n) ltac:(lia)). rewrite !Z.rem_opp_l' in Hnn. lia.
Qed.

Lemma display_loop_parts n :
  in_i64 n = true → display_loop timeunits n [] = Ok (map render (List.filter nonzero (duration_parts n))).
Proof.
  intros Hn. unfold timeunits, duration_parts.
  change (1000000000 * 60 * 60 * 24) with DAY. change (1000000000 * 60 * 60) with HOUR.
  change (1000000000 * 60) with MINUTE. change 1000000000 with SECOND.
  rewrite !display_loop_cons by (try done; repeat apply rem_in_i64; done).
  replace (Z.rem (Z.rem n DAY) HOUR) with (Z.rem n HOUR) by (symmetry; by apply (rem_rem n 24 HOUR)).
  replace (Z.rem (Z.rem n HOUR) MINUTE) with (Z.rem n MINUTE) by (symmetry; by apply (rem_rem n 60 MINUTE)).
  replace (Z.rem (Z.rem n MINUTE) SECOND) with (Z.rem n SECOND) by (symmetry; by apply (rem_rem n 60 SECOND)).
  rewrite Z.quot_1_r. cbn [display_loop app]. f_equal. unfold nonzero. cbn [List.filter fst].
  repeat match goal with |- context [?a =? 0] => destruct (a =? 0); cbn [negb app map] end; reflexivity.
Qed.
End display_props.

(** ** Properties *)

(** for every [i64] timestamp, negative ones included, the date-time
    accessors return (no [unwrap] on the way to chrono panics) the fields of
    the floored timestamp, and converting to chrono and back gives the same
    timestamp. *)
Theorem datetime_fields_total `{Profile, Chrono, !ChronoLaws} (self : DateTimeNaive) :
  let t := timestamp self in
  in_i64 t = true →
  nanosecond self = Ok (t mod 10 ^ 9) ∧
  microsecond self = Ok (t mod 10 ^ 9 / 10 ^ 3) ∧
  millisecond self = Ok (t mod 10 ^ 9 / 10 ^ 6) ∧
  second self = Ok (t / 10 ^ 9 mod 60) ∧
  minute self = Ok (t / 10 ^ 9 / 60 mod 60) ∧
  hour self = Ok (t / 10 ^ 9 / 3600 mod 24) ∧
  weekday self = Ok ((t / 10 ^ 9 / 86400 + 3) mod 7) ∧
  (as_chrono_datetime self ≫= naive_from_chrono) = Ok self.
Proof.
  intros t Hi. destruct (as_chrono_datetime_ok (H2 := DateTimeNaive_DateTime) self Hi) as (dt & Hdt & Hn & Hs & Hm & Hh & Hw & Ht).
  unfold nanosecond, microsecond, millisecond, second, minute, hour, weekday. rewrite Hdt.
  cbn [mbind outcome_bind fmap outcome_fmap]. rewrite Hn, Hs, Hm, Hh, Hw.
  unfold naive_from_chrono. rewrite Ht. by destruct self.
Qed.

(** Truncating to a positive duration gives the largest multiple of the
    duration (counted from the epoch) that is not later. *)
Theorem truncate_floor `{Profile, Chrono, !ChronoLaws} (self : DateTimeNaive) (d : Duration) :
  let t := timestamp self in
  in_i64 t = true → in_i64 (duration d) = true → 0 < duration d → in_i64 (t - t mod duration d) = true →
  ∃ r, naive_truncate self d = Ok r ∧ (duration d | timestamp r) ∧
    timestamp r ≤ t < timestamp r + duration d.
Proof.
  intros t Hi Hd Hpos Hr. exists (mk_DateTimeNaive (t - t mod duration d)).
  unfold naive_truncate. rewrite (get_truncated_timestamp_ok self d) by done. split; [done|].
  unfold timestamp, DateTimeNaive_DateTime. cbn [dtn_timestamp].
  pose proof (Z.mod_pos_bound t (duration d) Hpos). split; [|lia].
  exists (t / duration d). rewrite Z.mod_eq by lia. lia.
Qed.

(** Dividing durations reports [DivisionByZero] for a zero divisor and
    otherwise satisfies the division law: dividend = quotient * divisor +
    remainder, the remainder having the sign of the divisor and a smaller
    magnitude; the only pair excluded is [i64::MIN / -1]. *)
Theorem duration_division_law `{NumInteger, !NumIntegerLaws} (a b : Duration) :
  in_i64 (duration a) = true → in_i64 (duration b) = true →
  (duration b = 0 →
     duration_div a b = Err DivisionByZero ∧ duration_rem a b = Err DivisionByZero) ∧
  (duration b ≠ 0 → (duration a ≠ I64_MIN ∨ duration b ≠ -1) →
   ∃ q r, duration_div a b = Ok q ∧ duration_rem a b = Ok (mk_Duration r) ∧
     duration a = q * duration b + r ∧ (0 ≤ r < duration b ∨ duration b < r ≤ 0)).
Proof.
  intros Ha Hb. unfold duration_div, duration_rem. split; [by intros ->|]. intros Hnz Hex.
  exists (duration a / duration b), (duration a mod duration b).
  destruct (Z.eqb_spec (duration b) 0); [done|].
  assert (in_i64 (duration a / duration b) = true) as Hq.
  { apply in_i64_spec. apply in_i64_spec in Ha, Hb. unfold I64_MIN in Hex.
    Z.to_euclidean_division_equations. nia. }
  rewrite div_floor_ok, mod_floor_ok by done. repeat split.
  - rewrite Z.mul_comm. apply Z_div_mod_eq_full.
  - destruct (Z_lt_le_dec 0 (duration b)).
    + left. apply Z.mod_pos_bound. lia.
    + right. apply Z.mod_neg_bound. lia.
Qed.

(** A duration prints without panicking as its days, hours, minutes,
    seconds and nanoseconds, leaving out the zero ones (so the zero duration
    prints as the empty string); the printed parts add up to the duration and
    each but the days is below the next larger unit. *)
Theorem duration_display_parts (d : Duration) :
  in_i64 (duration d) = true →
  duration_display d = Ok (join " " (map render (List.filter nonzero (duration_parts (duration d))))) ∧
  foldr Z.add 0 (zip_with (λ c u, fst c * u) (duration_parts (duration d)) [DAY; HOUR; MINUTE; SECOND; 1])
    = duration d ∧
  Forall2 (λ c b, Z.abs (fst c) < b) (tail (duration_parts (duration d))) [24; 60; 60; 10 ^ 9].
Proof.
  intros Hd. split; [|split].
  - unfold duration_display. by rewrite display_loop_parts.
  - unfold duration_parts. cbn [zip_with foldr fst]. unfold DAY, HOUR, MINUTE, SECOND.
    Z.to_euclidean_division_equations. lia.
  - unfold duration_parts. cbn [tail]. unfold DAY, HOUR, MINUTE, SECOND.
    repeat constructor; cbn [fst]; Z.to_euclidean_division_equations; lia.
Qed.

(** ** The properties at concrete inputs *)

Section witnesses.
Import Concrete.
#[local] Instance dev_profile : Profile := true.

(** One nanosecond before the epoch. *)
Lemma datetime_fields_total_witness :
nanosecond (mk_DateTimeNaive (-1)) = Ok 999999999 ∧ hour (mk_DateTimeNaive (-1)) = Ok 23.
Proof.
destruct (datetime_fields_total (mk_DateTimeNaive (-1)) eq_refl) as (Hn & _ & _ & _ & _ & Hh & _).
by split; [rewrite Hn|rewrite Hh].
Defined.
Lemma truncate_floor_witness :
∃ r, naive_truncate (mk_DateTimeNaive (-7)) (mk_Duration 5) = Ok r ∧ timestamp r ≤ -7.
Proof.
destruct (truncate_floor (mk_DateTimeNaive (-7)) (mk_Duration 5)) as (r & Hr & _ & Hle & _);
  [reflexivity..|]. by exists r.
Defined.
Lemma duration_division_law_witness :
∃ q r, duration_div (mk_Duration (-7)) (mk_Duration 2) = Ok q ∧
  duration_rem (mk_Duration (-7)) (mk_Duration 2) = Ok (mk_Duration r) ∧ -7 = q * 2 + r.
Proof.
destruct (duration_division_law (mk_Duration (-7)) (mk_Duration 2) eq_refl eq_refl) as [_ Hq].
destruct Hq as (q & r & ? & ? & ? & _); [done|by right|]. by exists q, r.
Defined.
Lemma duration_display_parts_witness :
duration_display (mk_Duration 0) = Ok ""%string ∧
duration_display (mk_Duration 86400000000001) = Ok "1d 1ns"%string.
Proof.
split; [rewrite (proj1 (duration_display_parts (mk_Duration 0) eq_refl))|
  rewrite (proj1 (duration_display_parts (mk_Duration 86400000000001) eq_refl))]; reflexivity.
Defined.

End witnesses.
