(* ===== verification/Expression.v ===== *)
(** Expressions (src/engine/expression.rs, src/mat_mul.rs): the typed
    expression trees that the engine evaluates on each row, with the whole
    evaluator. *)
From Stdlib Require Import ZArith Lia Bool Ascii.
From stdpp Require Import base list strings.
From S2P Require Import Prelude Order Float Text Data Externals Instances Value Time.
Open Scope Z_scope.

(** ** Syntax: the enums of the source, [Arc]s erased *)

Inductive Expressions : Type :=
| Explicit (exprs : list Expression)
| Arguments (range_start range_end : nat)

with AnyExpression : Type :=
| Any_Argument (i : nat)
| Any_Const (v : Value)
| Any_Apply (f : list Value → DynResult Value) (args : Expressions)
| Any_OptionalApply (f : list Value → DynResult Value) (args : Expressions)
| Any_IfElse (if_ then_ else_ : Expression)
| Any_OptionalPointerFrom (args : Expressions)
| Any_OptionalPointerWithInstanceFrom (args : Expressions) (instance : Expression)
| Any_MakeTuple (args : Expressions)
| Any_TupleGetItemChecked (tuple index default_ : Expression)
| Any_TupleGetItemUnchecked (tuple index : Expression)
| Any_JsonGetItem (tuple index default_ : Expression)
| Any_JsonToOptional (e : Expression) (type_ : Type_)
| Any_ParseStringToInt (e : Expression) (optional : bool)
| Any_ParseStringToFloat (e : Expression) (optional : bool)
| Any_ParseStringToBool (e : Expression) (true_list false_list : list string) (optional : bool)
| Any_Unwrap (e : Expression)
| Any_CastToOptionalIntFromOptionalFloat (e : Expression)
| Any_CastToOptionalFloatFromOptionalInt (e : Expression)
| Any_MatMul (lhs rhs : Expression)
| Any_FillError (e replacement : Expression)

with BoolExpression : Type :=
| Bool_Const (c : bool)
| Bool_IsNone (e : Expression)
| Bool_Not (e : Expression)
| Bool_And (lhs rhs : Expression)
| Bool_Or (lhs rhs : Expression)
| Bool_Xor (lhs rhs : Expression)
| Bool_IntEq (lhs rhs : Expression)
| Bool_IntNe (lhs rhs : Expression)
| Bool_IntLt (lhs rhs : Expression)
| Bool_IntLe (lhs rhs : Expression)
| Bool_IntGt (lhs rhs : Expression)
| Bool_IntGe (lhs rhs : Expression)
| Bool_FloatEq (lhs rhs : Expression)
| Bool_FloatNe (lhs rhs : Expression)
| Bool_FloatLt (lhs rhs : Expression)
| Bool_FloatLe (lhs rhs : Expression)
| Bool_FloatGt (lhs rhs : Expression)
| Bool_FloatGe (lhs rhs : Expression)
| Bool_StringEq (lhs rhs : Expression)
| Bool_StringNe (lhs rhs : Expression)
| Bool_StringLt (lhs rhs : Expression)
| Bool_StringLe (lhs rhs : Expression)
| Bool_StringGt (lhs rhs : Expression)
| Bool_StringGe (lhs rhs : Expression)
| Bool_PtrEq (lhs rhs : Expression)
| Bool_PtrNe (lhs rhs : Expression)
| Bool_PtrLe (lhs rhs : Expression)
| Bool_PtrLt (lhs rhs : Expression)
| Bool_PtrGe (lhs rhs : Expression)
| Bool_PtrGt (lhs rhs : Expression)
| Bool_BoolEq (lhs rhs : Expression)
| Bool_BoolNe (lhs rhs : Expression)
| Bool_BoolLe (lhs rhs : Expression)
| Bool_BoolLt (lhs rhs : Expression)
| Bool_BoolGe (lhs rhs : Expression)
| Bool_BoolGt (lhs rhs : Expression)
| Bool_DateTimeNaiveEq (lhs rhs : Expression)
| Bool_DateTimeNaiveNe (lhs rhs : Expression)
| Bool_DateTimeNaiveLt (lhs rhs : Expression)
| Bool_DateTimeNaiveLe (lhs rhs : Expression)
| Bool_DateTimeNaiveGt (lhs rhs : Expression)
| Bool_DateTimeNaiveGe (lhs rhs : Expression)
| Bool_DateTimeUtcEq (lhs rhs : Expression)
| Bool_DateTimeUtcNe (lhs rhs : Expression)
| Bool_DateTimeUtcLt (lhs rhs : Expression)
| Bool_DateTimeUtcLe (lhs rhs : Expression)
| Bool_DateTimeUtcGt (lhs rhs : Expression)
| Bool_DateTimeUtcGe (lhs rhs : Expression)
| Bool_DurationEq (lhs rhs : Expression)
| Bool_DurationNe (lhs rhs : Expression)
| Bool_DurationLt (lhs rhs : Expression)
| Bool_DurationLe (lhs rhs : Expression)
| Bool_DurationGt (lhs rhs : Expression)
| Bool_DurationGe (lhs rhs : Expression)
| Bool_Eq (lhs rhs : Expression)
| Bool_Ne (lhs rhs : Expression)
| Bool_TupleEq (lhs rhs : Expression)
| Bool_TupleNe (lhs rhs : Expression)
| Bool_TupleLe (lhs rhs : Expression)
| Bool_TupleLt (lhs rhs : Expression)
| Bool_TupleGe (lhs rhs : Expression)
| Bool_TupleGt (lhs rhs : Expression)
| Bool_CastFromFloat (e : Expression)
| Bool_CastFromInt (e : Expression)
| Bool_CastFromString (e : Expression)

with IntExpression : Type :=
| Int_Const (c : Z)
| Int_Neg (e : Expression)
| Int_Abs (e : Expression)
| Int_Add (lhs rhs : Expression)
| Int_Sub (lhs rhs : Expression)
| Int_Mul (lhs rhs : Expression)
| Int_FloorDiv (lhs rhs : Expression)
| Int_Mod (lhs rhs : Expression)
| Int_Pow (lhs rhs : Expression)
| Int_Lshift (lhs rhs : Expression)
| Int_Rshift (lhs rhs : Expression)
| Int_And (lhs rhs : Expression)
| Int_Or (lhs rhs : Expression)
| Int_Xor (lhs rhs : Expression)
| Int_DateTimeNaiveNanosecond (e : Expression)
| Int_DateTimeNaiveMicrosecond (e : Expression)
| Int_DateTimeNaiveMillisecond (e : Expression)
| Int_DateTimeNaiveSecond (e : Expression)
| Int_DateTimeNaiveMinute (e : Expression)
| Int_DateTimeNaiveHour (e : Expression)
| Int_DateTimeNaiveDay (e : Expression)
| Int_DateTimeNaiveMonth (e : Expression)
| Int_DateTimeNaiveYear (e : Expression)
| Int_DateTimeNaiveTimestampNs (e : Expression)
| Int_DateTimeNaiveWeekday (e : Expression)
| Int_DateTimeUtcNanosecond (e : Expression)
| Int_DateTimeUtcMicrosecond (e : Expression)
| Int_DateTimeUtcMillisecond (e : Expression)
| Int_DateTimeUtcSecond (e : Expression)
| Int_DateTimeUtcMinute (e : Expression)
| Int_DateTimeUtcHour (e : Expression)
| Int_DateTimeUtcDay (e : Expression)
| Int_DateTimeUtcMonth (e : Expression)
| Int_DateTimeUtcYear (e : Expression)
| Int_DateTimeUtcTimestampNs (e : Expression)
| Int_DateTimeUtcWeekday (e : Expression)
| Int_DurationFloorDiv (lhs rhs : Expression)
| Int_DurationNanoseconds (e : Expression)
| Int_DurationMicroseconds (e : Expression)
| Int_DurationMilliseconds (e : Expression)
| Int_DurationSeconds (e : Expression)
| Int_DurationMinutes (e : Expression)
| Int_DurationHours (e : Expression)
| Int_DurationDays (e : Expression)
| Int_DurationWeeks (e : Expression)
| Int_CastFromBool (e : Expression)
| Int_CastFromFloat (e : Expression)
| Int_CastFromString (e : Expression)

with FloatExpression : Type :=
| Float_Const (c : f64)
| Float_Neg (e : Expression)
| Float_Abs (e : Expression)
| Float_Add (lhs rhs : Expression)
| Float_Sub (lhs rhs : Expression)
| Float_Mul (lhs rhs : Expression)
| Float_FloorDiv (lhs rhs : Expression)
| Float_TrueDiv (lhs rhs : Expression)
| Float_IntTrueDiv (lhs rhs : Expression)
| Float_Mod (lhs rhs : Expression)
| Float_Pow (lhs rhs : Expression)
| Float_DurationTrueDiv (lhs rhs : Expression)
| Float_DateTimeNaiveTimestamp (e unit_ : Expression)
| Float_DateTimeUtcTimestamp (e unit_ : Expression)
| Float_CastFromBool (e : Expression)
| Float_CastFromInt (e : Expression)
| Float_CastFromString (e : Expression)

with StringExpression : Type :=
| String_Add (lhs rhs : Expression)
| String_Mul (lhs rhs : Expression)
| String_CastFromBool (e : Expression)
| String_CastFromFloat (e : Expression)
| String_CastFromInt (e : Expression)
| String_DateTimeNaiveStrftime (e fmt : Expression)
| String_DateTimeUtcStrftime (e fmt : Expression)
| String_ToString (e : Expression)

with PointerExpression : Type :=
| Pointer_PointerFrom (args : Expressions)
| Pointer_PointerWithInstanceFrom (args : Expressions) (instance : Expression)

with DateTimeNaiveExpression : Type :=
| Naive_AddDuration (lhs rhs : Expression)
| Naive_SubDuration (lhs rhs : Expression)
| Naive_Strptime (e fmt : Expression)
| Naive_FromUtc (e timezone : Expression)
| Naive_Round (e d : Expression)
| Naive_Floor (e d : Expression)
| Naive_FromTimestamp (e unit_ : Expression)
| Naive_FromFloatTimestamp (e unit_ : Expression)

with DateTimeUtcExpression : Type :=
| Utc_AddDuration (lhs rhs : Expression)
| Utc_SubDuration (lhs rhs : Expression)
| Utc_Strptime (e fmt : Expression)
| Utc_FromNaive (e from_timezone : Expression)
| Utc_Round (e d : Expression)
| Utc_Floor (e d : Expression)

with DurationExpression : Type :=
| Duration_Neg (e : Expression)
| Duration_Add (lhs rhs : Expression)
| Duration_Sub (lhs rhs : Expression)
| Duration_MulByInt (lhs rhs : Expression)
| Duration_DivByInt (lhs rhs : Expression)
| Duration_TrueDivByInt (lhs rhs : Expression)
| Duration_MulByFloat (lhs rhs : Expression)
| Duration_DivByFloat (lhs rhs : Expression)
| Duration_Mod (lhs rhs : Expression)
| Duration_DateTimeNaiveSub (lhs rhs : Expression)
| Duration_DateTimeUtcSub (lhs rhs : Expression)

with Expression : Type :=
| EBool (b : BoolExpression)
| EInt (i : IntExpression)
| EFloat (f : FloatExpression)
| EPointer (p : PointerExpression)
| EString (s : StringExpression)
| EDateTimeNaive (dt : DateTimeNaiveExpression)
| EDateTimeUtc (dt : DateTimeUtcExpression)
| EDuration (d : DurationExpression)
| EAny (a : AnyExpression).

(** ** Helpers *)

(** The [while]-free part of [maybe_argument_slice]: the loop over the rest. *)
Fixpoint argument_slice_loop (source : list Expression) (next_index : nat) : option nat :=
  match source with
  | [] => Some next_index
  | EAny (Any_Argument current_index) :: source =>
      if Nat.eqb current_index next_index then argument_slice_loop source (S current_index) else None
  | _ => None
  end.
Definition maybe_argument_slice (source : list Expression) : option (nat * nat) :=
  match source with
  | EAny (Any_Argument first_index) :: rest =>
      match argument_slice_loop rest (S first_index) with
      | Some next_index => Some (first_index, next_index)
      | None => None
      end
  | _ => None
  end.
Definition Expressions_from (source : list Expression) : Expressions :=
  match maybe_argument_slice source with
  | Some (first_index, next_index) => Arguments first_index next_index
  | None => Explicit source
  end.

(** [&values[start..end]]: panics unless [start <= end <= len]. *)
Definition slice {A} (l : list A) (start end_ : nat) : DynResult (list A) :=
  if Nat.leb start end_ && Nat.leb end_ (length l) then Ok (take (end_ - start) (drop start l))
  else Panic "slice index out of range".

(** [Expressions::eval], [Arguments] case. *)
Definition eval_arguments (values : list Value) (start end_ : nat) : DynResult (list Value) :=
  values ← slice values start end_;
  if existsb (λ v, Value_eqb v VError) values then Err ErrorInValue else Ok values.

Definition value_error {A} (msg : string) : DynResult A := Err (ValueError msg).

Section helpers.
Context `{XxHash, Python, SerdeJson, Ndarray}.

Definition wrap_index (index length : Z) : option Z :=
  let index := if index <? 0 then index + length else index in
  if (index <? 0) || (length <=? index) then None else Some index.

Definition get_ndarray_element {T} (from_elem : T → Value) (from_array : ArrayD T → Value)
    (array : ArrayD T) (index : Z) : DynResult (option Value) :=
  match shape array with
  | [] => Panic "index out of bounds: the len is 0 but the index is 0"
  | length :: _ =>
      match wrap_index index length with
      | None => Ok None
      | Some index =>
          let row := index_axis0 T array index in
          match shape row with
          | [] => x ← unwrap (head (elements row)); Ok (Some (from_elem x))
          | _ => Ok (Some (from_array row))
          end
      end
  end.

Definition get_tuple_element (tuple : list Value) (index : Z) : DynResult (option Value) :=
  match wrap_index index (Z.of_nat (length tuple)) with
  | None => Ok None
  | Some index => Ok (tuple !! Z.to_nat index)
  end.

Definition get_array_element (index : DynResult Z) (value : DynResult Value) : DynResult (option Value) :=
  index ← index;
  value ← value;
  match value with
  | VIntArray array =>
      get_ndarray_element VInt value_from_int_array (handle_data array) index
  | VFloatArray array =>
      get_ndarray_element VFloat value_from_float_array (handle_data array) index
  | VTuple tuple => get_tuple_element tuple index
  | _ => value_error "Can't get element at index {index} out of {value:?}"
  end.

Definition get_json_item (index value : DynResult Value) : DynResult (option Value) :=
  index ← index;
  value ← value;
  json ← as_json value;
  match index with
  | VInt index => Ok (value_from_json <$> (if index <? 0 then None else json_get_index json index))
  | VString index => Ok (value_from_json <$> json_get_key json index)
  | _ => value_error "json index must be string or integer, got {index}"
  end.

(** [mat_mul]: which operand shapes are multiplied; [dot] is ndarray's. *)
Definition mat_mul {T} (dot : ArrayD T → ArrayD T → DynResult (ArrayD T)) (a b : ArrayD T)
    : DynResult (option (ArrayD T)) :=
  match shape a, shape b with
  | [_; inner_a], ([inner_b; _] | [inner_b]) | [inner_a], ([inner_b; _] | [inner_b]) =>
      if inner_a =? inner_b then Some <$> dot a b else Ok None
  | _, _ => Ok None
  end.
Definition mat_mul_wrapper {T} (dot : ArrayD T → ArrayD T → DynResult (ArrayD T))
    (from_array : ArrayD T → Value) (lhs rhs : ArrayD T) : DynResult Value :=
  result ← mat_mul dot lhs rhs;
  match result with
  | Some result => Ok (from_array result)
  | None => value_error "can't multiply arrays of shapes {:?} and {:?}"
  end.
End helpers.

(** [are_tuples_equal]: the loop over the zipped elements; [result] is
    accumulated, and an unsupported pair is an error wherever it is. *)
Definition tuples_equal_loop (f : Value → Value → DynResult bool) :
    list Value → list Value → bool → DynResult bool :=
  fix go lhs rhs result :=
    match lhs, rhs with
    | val_l :: lhs, val_r :: rhs =>
        match f val_l val_r with
        | Ok result_single => go lhs rhs (result && result_single)
        | Err e => Err e
        | Panic p => Panic p
        end
    | _, _ => Ok result
    end.
Fixpoint value_equal_in_tuple (val_l val_r : Value) {struct val_l} : DynResult bool :=
  match val_l, val_r with
  | VTuple lhs, VTuple rhs =>
      tuples_equal_loop value_equal_in_tuple lhs rhs (Nat.eqb (length lhs) (length rhs))
  | VFloat l, VInt r => Ok (ordered_float_eqb l (f64_of_int r))
  | VInt l, VFloat r => Ok (ordered_float_eqb (f64_of_int l) r)
  | val, VNone => Ok (Value_eqb val VNone)
  | VNone, val => Ok (Value_eqb val VNone)
  | _, _ =>
      if decide (simple_type val_l = simple_type val_r) then Ok (Value_eqb val_l val_r)
      else value_error "equality not supported between instances of '{type_l:?}' and '{type_r:?}'"
  end.
Definition are_tuples_equal (lhs rhs : list Value) : DynResult bool :=
  tuples_equal_loop value_equal_in_tuple lhs rhs (Nat.eqb (length lhs) (length rhs)).

(** [compare_tuples]: likewise, with the first difference kept. *)
Definition compare_tuples_loop (f : Value → Value → DynResult comparison) :
    list Value → list Value → comparison → DynResult comparison :=
  fix go lhs rhs result :=
    match lhs, rhs with
    | val_l :: lhs, val_r :: rhs =>
        match f val_l val_r with
        | Ok c => go lhs rhs (match result with Eq => c | _ => result end)
        | Err e => Err e
        | Panic p => Panic p
        end
    | _, _ => Ok result
    end.
Definition compare_tuples_with (f : Value → Value → DynResult comparison) (lhs rhs : list Value)
    : DynResult comparison :=
  match compare_tuples_loop f lhs rhs Eq with
  | Ok Eq => Ok (Nat.compare (length lhs) (length rhs))
  | r => r
  end.
Definition is_incomparable_type (t : SimpleType) : bool :=
  match t with STJson | STIntArray | STFloatArray => true | _ => false end.
Fixpoint value_compare_in_tuple (val_l val_r : Value) {struct val_l} : DynResult comparison :=
  match val_l, val_r with
  | VTuple lhs, VTuple rhs => compare_tuples_with value_compare_in_tuple lhs rhs
  | VFloat l, VInt r => Ok (cmp l (f64_of_int r))
  | VInt l, VFloat r => Ok (cmp (f64_of_int l) r)
  | _, _ =>
      if negb (bool_decide (simple_type val_l = simple_type val_r)) || is_incomparable_type (simple_type val_l)
      then value_error "comparison not supported between instances of '{type_l:?}' and '{type_r:?}'"
      else Ok (Value_cmp val_l val_r)
  end.
Definition compare_tuples (lhs rhs : list Value) : DynResult comparison :=
  compare_tuples_with value_compare_in_tuple lhs rhs.

Definition is_le (c : comparison) : bool := match c with Gt => false | _ => true end.
Definition is_lt (c : comparison) : bool := match c with Lt => true | _ => false end.
Definition is_ge (c : comparison) : bool := match c with Lt => false | _ => true end.
Definition is_gt (c : comparison) : bool := match c with Gt => true | _ => false end.

(** [impl Display for Value]. *)
Section display.
Context `{Profile, Python, SerdeJson, Chrono, Ndarray, RustText}.

Definition key_display (k : Key) : string :=
  String.append "^" (base32_crockford (to_le_bytes 16 (key_0 k))).
Fixpoint value_display (v : Value) : DynResult string :=
  match v with
  | VNone => Ok "None"
  | VBool b => Ok (if b then "True" else "False")
  | VInt i => Ok (int_to_string i)
  | VFloat f => Ok (f64_debug f)
  | VPointer p => Ok (key_display p)
  | VString s => Ok (str_debug s)
  | VBytes b => Ok (String.append "[" (String.append (join ", " (map int_to_string b)) "]"))
  | VTuple vals =>
      match try_collect value_display vals with
      | Ok strs => Ok (String.append "(" (String.append (join ", " strs) ")"))
      | Err e => Err e
      | Panic p => Panic p
      end
  | VIntArray a => Ok (int_array_display (handle_data a))
  | VFloatArray a => Ok (float_array_display (handle_data a))
  | VDateTimeNaive dt => naive_display dt
  | VDateTimeUtc dt => utc_display dt
  | VDuration d => duration_display d
  | VJson j => Ok (json_to_string (handle_data j))
  | VError => Ok "Error"
  | VPyObjectWrapper ob => Ok (py_str (handle_data ob))
  end%string.
End display.

(** ** Evaluation on a row [values] *)

Section eval.
Context `{Profile, XxHash, Python, SerdeJson, Chrono, NumInteger, Ndarray, RustText}.
Context (values : list Value).

Definition any_none (args : list Value) : bool :=
  existsb (λ a, match a with VNone => true | _ => false end) args.

(** [debug_assert!(!matches!(res, Value::Error))]. *)
Definition assert_not_error (res : DynResult Value) : DynResult Value :=
  match res with
  | Ok VError => if debug_assertions then Panic "assertion failed: !matches!(res, Value::Error)" else res
  | _ => res
  end.

Definition parse_to_int (val : string) (optional : bool) : DynResult Value :=
  match parse_i64 (trim val), optional with
  | Some i, _ => Ok (VInt i)
  | None, true => Ok VNone
  | None, false => Err (ParseError "cannot parse {val:?} to int: {e}")
  end.
Definition parse_to_float (val : string) (optional : bool) : DynResult Value :=
  match f64_parse (trim val), optional with
  | Some f, _ => Ok (VFloat f)
  | None, true => Ok VNone
  | None, false => Err (ParseError "cannot parse {val:?} to float: {e}")
  end.
Definition parse_to_bool (val : string) (true_list false_list : list string) (optional : bool)
    : DynResult Value :=
  let val_str := to_lowercase (trim val) in
  if existsb (String.eqb val_str) true_list then Ok (VBool true)
  else if existsb (String.eqb val_str) false_list then Ok (VBool false)
  else if optional then Ok VNone
  else Err (ParseError "cannot parse {val:?} to bool").
Definition json_to_optional (val : Value) (t : Type_) : DynResult Value :=
  match val with
  | VJson json =>
      let json := handle_data json in
      if json_is_null json then Ok VNone
      else
        val ← (match t with
               | TInt => Ok (VInt <$> json_as_i64 json)
               | TFloat => Ok (VFloat <$> json_as_f64 json)
               | TBool => Ok (VBool <$> json_as_bool json)
               | TString => Ok (VString <$> json_as_str json)
               | _ => value_error "Cannot convert json {json} to {type_:?}"
               end : DynResult (option Value));
        ok_or val (ValueError "Cannot convert json {json} to {type_:?}")
  | VNone => Ok VNone
  | _ => value_error "Expected Json or None, found {val:?}"
  end.
Definition mat_mul_values (lhs rhs : Value) : DynResult Value :=
  match lhs, rhs with
  | VFloatArray lhs, VFloatArray rhs =>
      mat_mul_wrapper float_array_dot value_from_float_array (handle_data lhs) (handle_data rhs)
  | VIntArray lhs, VIntArray rhs =>
      mat_mul_wrapper int_array_dot value_from_int_array (handle_data lhs) (handle_data rhs)
  | _, _ => value_error "can't perform matrix multiplication on {lhs_type:?} and {rhs_type:?}"
  end.
(** [FloatExpression::Mod], as in CPython. *)
Definition float_mod (lhs_val rhs_val : f64) : DynResult f64 :=
  if f64_eqb rhs_val f64_zero then Err DivisionByZero
  else
    let modulo := f64_rem lhs_val rhs_val in
    Ok (if f64_eqb modulo f64_zero then copysign modulo rhs_val
        else if negb (Bool.eqb (f64_ltb rhs_val f64_zero) (f64_ltb modulo f64_zero))
        then f64_add modulo rhs_val
        else modulo).
Definition string_repeat (s : string) (n : Z) : string :=
  Nat.iter (Z.to_nat n) (String.append s) "".

Definition type_error {A} (e : Expression) (expected : string) : DynResult A :=
  let actual := match e with
    | EBool _ => "bool" | EInt _ => "int" | EFloat _ => "float" | EPointer _ => "pointer"
    | EString _ => "string" | EDateTimeNaive _ => "DateTimeNaive" | EDateTimeUtc _ => "DateTimeUtc"
    | EDuration _ => "Duration" | EAny _ => "unknown type"
    end%string in
  Err (ColumnTypeMismatch expected actual).

Fixpoint Expressions_eval (es : Expressions) : DynResult (list Value) :=
  match es with
  | Explicit exprs => try_collect eval exprs
  | Arguments start end_ => eval_arguments values start end_
  end

with Any_eval (a : AnyExpression) : DynResult Value :=
  assert_not_error
  match a with
  | Any_Argument i => v ← ok_or (values !! i) IndexOutOfBounds; into_result v
  | Any_Const v => Ok v
  | Any_Apply f args => args ← Expressions_eval args; f args
  | Any_OptionalApply f args =>
      args ← Expressions_eval args; if any_none args then Ok VNone else f args
  | Any_IfElse if_ then_ else_ =>
      b ← eval_as_bool if_; if (b : bool) then eval then_ else eval else_
  | Any_OptionalPointerFrom args =>
      args ← Expressions_eval args;
      if any_none args then Ok VNone else VPointer <$> for_values args
  | Any_OptionalPointerWithInstanceFrom args instance =>
      args ← Expressions_eval args;
      i ← eval instance;
      let args := args ++ [i] in
      if any_none args then Ok VNone else VPointer <$> generate_key LastKeyColumn args
  | Any_MakeTuple args => VTuple <$> Expressions_eval args
  | Any_TupleGetItemChecked tuple index default_ =>
      entry ← get_array_element (eval_as_int index) (eval tuple);
      match entry with Some entry => Ok entry | None => eval default_ end
  | Any_TupleGetItemUnchecked tuple index =>
      entry ← get_array_element (eval_as_int index) (eval tuple);
      ok_or entry IndexOutOfBounds
  | Any_JsonGetItem tuple index default_ =>
      entry ← get_json_item (eval index) (eval tuple);
      match entry with Some entry => Ok entry | None => eval default_ end
  | Any_ParseStringToInt e optional => val ← eval_as_string e; parse_to_int val optional
  | Any_ParseStringToFloat e optional => val ← eval_as_string e; parse_to_float val optional
  | Any_ParseStringToBool e true_list false_list optional =>
      val ← eval_as_string e; parse_to_bool val true_list false_list optional
  | Any_CastToOptionalIntFromOptionalFloat e =>
      val ← eval e;
      match val with
      | VFloat f => Ok (VInt (f64_as_i64 f))
      | VNone => Ok VNone
      | _ => value_error "Cannot cast to int from {val:?}"
      end
  | Any_CastToOptionalFloatFromOptionalInt e =>
      val ← eval e;
      match val with
      | VInt i => Ok (VFloat (f64_of_int i))
      | VNone => Ok VNone
      | _ => value_error "Cannot cast to float from {val:?}"
      end
  | Any_JsonToOptional e t => val ← eval e; json_to_optional val t
  | Any_MatMul lhs rhs => lhs_val ← eval lhs; rhs_val ← eval rhs; mat_mul_values lhs_val rhs_val
  | Any_Unwrap e =>
      val ← eval e;
      if Value_eqb val VNone then value_error "cannot unwrap if there is None value" else Ok val
  | Any_FillError e replacement =>
      match eval e with Err _ => eval replacement | r => r end
  end

with Bool_eval (b : BoolExpression) : DynResult bool :=
  match b with
  | Bool_Const c => Ok c
  | Bool_IsNone e => v ← eval e; Ok (match v with VNone => true | _ => false end)
  | Bool_Not e => b ← eval_as_bool e; Ok (negb b)
  | Bool_And lhs rhs => l ← eval_as_bool lhs; if (l : bool) then eval_as_bool rhs else Ok false
  | Bool_Or lhs rhs => l ← eval_as_bool lhs; if (l : bool) then Ok true else eval_as_bool rhs
  | Bool_Xor lhs rhs => l ← eval_as_bool lhs; r ← eval_as_bool rhs; Ok (xorb l r)
  | Bool_IntEq lhs rhs => l ← eval_as_int lhs; r ← eval_as_int rhs; Ok (l =? r)
  | Bool_IntNe lhs rhs => l ← eval_as_int lhs; r ← eval_as_int rhs; Ok (negb (l =? r))
  | Bool_IntLt lhs rhs => l ← eval_as_int lhs; r ← eval_as_int rhs; Ok (l <? r)
  | Bool_IntLe lhs rhs => l ← eval_as_int lhs; r ← eval_as_int rhs; Ok (l <=? r)
  | Bool_IntGt lhs rhs => l ← eval_as_int lhs; r ← eval_as_int rhs; Ok (r <? l)
  | Bool_IntGe lhs rhs => l ← eval_as_int lhs; r ← eval_as_int rhs; Ok (r <=? l)
  | Bool_FloatEq lhs rhs => l ← eval_as_float lhs; r ← eval_as_float rhs; Ok (f64_eqb l r)
  | Bool_FloatNe lhs rhs => l ← eval_as_float lhs; r ← eval_as_float rhs; Ok (negb (f64_eqb l r))
  | Bool_FloatLt lhs rhs => l ← eval_as_float lhs; r ← eval_as_float rhs; Ok (f64_ltb l r)
  | Bool_FloatLe lhs rhs => l ← eval_as_float lhs; r ← eval_as_float rhs; Ok (f64_leb l r)
  | Bool_FloatGt lhs rhs => l ← eval_as_float lhs; r ← eval_as_float rhs; Ok (f64_ltb r l)
  | Bool_FloatGe lhs rhs => l ← eval_as_float lhs; r ← eval_as_float rhs; Ok (f64_leb r l)
  | Bool_StringEq lhs rhs => l ← eval_as_string lhs; r ← eval_as_string rhs; Ok (ord_eqb l r)
  | Bool_StringNe lhs rhs => l ← eval_as_string lhs; r ← eval_as_string rhs; Ok (negb (ord_eqb l r))
  | Bool_StringLt lhs rhs => l ← eval_as_string lhs; r ← eval_as_string rhs; Ok (ord_ltb l r)
  | Bool_StringLe lhs rhs => l ← eval_as_string lhs; r ← eval_as_string rhs; Ok (ord_leb l r)
  | Bool_StringGt lhs rhs => l ← eval_as_string lhs; r ← eval_as_string rhs; Ok (ord_ltb r l)
  | Bool_StringGe lhs rhs => l ← eval_as_string lhs; r ← eval_as_string rhs; Ok (ord_leb r l)
  | Bool_PtrEq lhs rhs => l ← eval_as_pointer lhs; r ← eval_as_pointer rhs; Ok (ord_eqb l r)
  | Bool_PtrNe lhs rhs => l ← eval_as_pointer lhs; r ← eval_as_pointer rhs; Ok (negb (ord_eqb l r))
  | Bool_PtrLe lhs rhs => l ← eval_as_pointer lhs; r ← eval_as_pointer rhs; Ok (ord_leb l r)
  | Bool_PtrLt lhs rhs => l ← eval_as_pointer lhs; r ← eval_as_pointer rhs; Ok (ord_ltb l r)
  | Bool_PtrGe lhs rhs => l ← eval_as_pointer lhs; r ← eval_as_pointer rhs; Ok (ord_leb r l)
  | Bool_PtrGt lhs rhs => l ← eval_as_pointer lhs; r ← eval_as_pointer rhs; Ok (ord_ltb r l)
  | Bool_BoolEq lhs rhs => l ← eval_as_bool lhs; r ← eval_as_bool rhs; Ok (Bool.eqb l r)
  | Bool_BoolNe lhs rhs => l ← eval_as_bool lhs; r ← eval_as_bool rhs; Ok (negb (Bool.eqb l r))
  | Bool_BoolLe lhs rhs => l ← eval_as_bool lhs; r ← eval_as_bool rhs; Ok (ord_leb l r)
  | Bool_BoolLt lhs rhs => l ← eval_as_bool lhs; r ← eval_as_bool rhs; Ok (negb l && r)
  | Bool_BoolGe lhs rhs => l ← eval_as_bool lhs; r ← eval_as_bool rhs; Ok (ord_leb r l)
  | Bool_BoolGt lhs rhs => l ← eval_as_bool lhs; r ← eval_as_bool rhs; Ok (l && negb r)
  | Bool_DateTimeNaiveEq lhs rhs =>
      l ← eval_as_date_time_naive lhs; r ← eval_as_date_time_naive rhs; Ok (ord_eqb l r)
  | Bool_DateTimeNaiveNe lhs rhs =>
      l ← eval_as_date_time_naive lhs; r ← eval_as_date_time_naive rhs; Ok (negb (ord_eqb l r))
  | Bool_DateTimeNaiveLt lhs rhs =>
      l ← eval_as_date_time_naive lhs; r ← eval_as_date_time_naive rhs; Ok (ord_ltb l r)
  | Bool_DateTimeNaiveLe lhs rhs =>
      l ← eval_as_date_time_naive lhs; r ← eval_as_date_time_naive rhs; Ok (ord_leb l r)
  | Bool_DateTimeNaiveGt lhs rhs =>
      l ← eval_as_date_time_naive lhs; r ← eval_as_date_time_naive rhs; Ok (ord_ltb r l)
  | Bool_DateTimeNaiveGe lhs rhs =>
      l ← eval_as_date_time_naive lhs; r ← eval_as_date_time_naive rhs; Ok (ord_leb r l)
  | Bool_DateTimeUtcEq lhs rhs =>
      l ← eval_as_date_time_utc lhs; r ← eval_as_date_time_utc rhs; Ok (ord_eqb l r)
  | Bool_DateTimeUtcNe lhs rhs =>
      l ← eval_as_date_time_utc lhs; r ← eval_as_date_time_utc rhs; Ok (negb (ord_eqb l r))
  | Bool_DateTimeUtcLt lhs rhs =>
      l ← eval_as_date_time_utc lhs; r ← eval_as_date_time_utc rhs; Ok (ord_ltb l r)
  | Bool_DateTimeUtcLe lhs rhs =>
      l ← eval_as_date_time_utc lhs; r ← eval_as_date_time_utc rhs; Ok (ord_leb l r)
  | Bool_DateTimeUtcGt lhs rhs =>
      l ← eval_as_date_time_utc lhs; r ← eval_as_date_time_utc rhs; Ok (ord_ltb r l)
  | Bool_DateTimeUtcGe lhs rhs =>
      l ← eval_as_date_time_utc lhs; r ← eval_as_date_time_utc rhs; Ok (ord_leb r l)
  | Bool_DurationEq lhs rhs =>
      l ← eval_as_duration lhs; r ← eval_as_duration rhs; Ok (ord_eqb l r)
  | Bool_DurationNe lhs rhs =>
      l ← eval_as_duration lhs; r ← eval_as_duration rhs; Ok (negb (ord_eqb l r))
  | Bool_DurationLt lhs rhs =>
      l ← eval_as_duration lhs; r ← eval_as_duration rhs; Ok (ord_ltb l r)
  | Bool_DurationLe lhs rhs =>
      l ← eval_as_duration lhs; r ← eval_as_duration rhs; Ok (ord_leb l r)
  | Bool_DurationGt lhs rhs =>
      l ← eval_as_duration lhs; r ← eval_as_duration rhs; Ok (ord_ltb r l)
  | Bool_DurationGe lhs rhs =>
      l ← eval_as_duration lhs; r ← eval_as_duration rhs; Ok (ord_leb r l)
  | Bool_Eq lhs rhs => l ← eval lhs; r ← eval rhs; Ok (Value_eqb l r)
  | Bool_Ne lhs rhs => l ← eval lhs; r ← eval rhs; Ok (negb (Value_eqb l r))
  | Bool_TupleEq lhs rhs => l ← eval_as_tuple lhs; r ← eval_as_tuple rhs; are_tuples_equal l r
  | Bool_TupleNe lhs rhs =>
      l ← eval_as_tuple lhs; r ← eval_as_tuple rhs; b ← are_tuples_equal l r; Ok (negb b)
  | Bool_TupleLe lhs rhs =>
      l ← eval_as_tuple lhs; r ← eval_as_tuple rhs; c ← compare_tuples l r; Ok (is_le c)
  | Bool_TupleLt lhs rhs =>
      l ← eval_as_tuple lhs; r ← eval_as_tuple rhs; c ← compare_tuples l r; Ok (is_lt c)
  | Bool_TupleGe lhs rhs =>
      l ← eval_as_tuple lhs; r ← eval_as_tuple rhs; c ← compare_tuples l r; Ok (is_ge c)
  | Bool_TupleGt lhs rhs =>
      l ← eval_as_tuple lhs; r ← eval_as_tuple rhs; c ← compare_tuples l r; Ok (is_gt c)
  | Bool_CastFromInt e => i ← eval_as_int e; Ok (negb (i =? 0))
  | Bool_CastFromFloat e => f ← eval_as_float e; Ok (negb (f64_eqb f f64_zero))
  | Bool_CastFromString e => s ← eval_as_string e; Ok (negb (s =? "")%string)
  end

with Int_eval (i : IntExpression) : DynResult Z :=
  match i with
  | Int_Const c => Ok c
  | Int_Neg e => x ← eval_as_int e; i64_arith (- x)
  | Int_Abs e => x ← eval_as_int e; i64_arith (Z.abs x)
  | Int_Add lhs rhs => l ← eval_as_int lhs; r ← eval_as_int rhs; i64_arith (l + r)
  | Int_Sub lhs rhs => l ← eval_as_int lhs; r ← eval_as_int rhs; i64_arith (l - r)
  | Int_Mul lhs rhs => l ← eval_as_int lhs; r ← eval_as_int rhs; i64_arith (l * r)
  | Int_FloorDiv lhs rhs =>
      rhs_val ← eval_as_int rhs;
      if rhs_val =? 0 then Err DivisionByZero else l ← eval_as_int lhs; div_floor l rhs_val
  | Int_Mod lhs rhs =>
      rhs_val ← eval_as_int rhs;
      if rhs_val =? 0 then Err DivisionByZero else l ← eval_as_int lhs; mod_floor l rhs_val
  | Int_Pow lhs rhs =>
      v ← eval lhs; l ← as_int v; r ← eval_as_int rhs; i64_pow l (wrap_u32 r)
  | Int_Lshift lhs rhs => l ← eval_as_int lhs; r ← eval_as_int rhs; i64_shl l r
  | Int_Rshift lhs rhs => l ← eval_as_int lhs; r ← eval_as_int rhs; i64_shr l r
  | Int_And lhs rhs => l ← eval_as_int lhs; r ← eval_as_int rhs; Ok (Z.land l r)
  | Int_Or lhs rhs => l ← eval_as_int lhs; r ← eval_as_int rhs; Ok (Z.lor l r)
  | Int_Xor lhs rhs => l ← eval_as_int lhs; r ← eval_as_int rhs; Ok (Z.lxor l r)
  | Int_DateTimeNaiveNanosecond e => dt ← eval_as_date_time_naive e; nanosecond dt
  | Int_DateTimeNaiveMicrosecond e => dt ← eval_as_date_time_naive e; microsecond dt
  | Int_DateTimeNaiveMillisecond e => dt ← eval_as_date_time_naive e; millisecond dt
  | Int_DateTimeNaiveSecond e => dt ← eval_as_date_time_naive e; second dt
  | Int_DateTimeNaiveMinute e => dt ← eval_as_date_time_naive e; minute dt
  | Int_DateTimeNaiveHour e => dt ← eval_as_date_time_naive e; hour dt
  | Int_DateTimeNaiveDay e => dt ← eval_as_date_time_naive e; day dt
  | Int_DateTimeNaiveMonth e => dt ← eval_as_date_time_naive e; month dt
  | Int_DateTimeNaiveYear e => dt ← eval_as_date_time_naive e; year dt
  | Int_DateTimeNaiveTimestampNs e => dt ← eval_as_date_time_naive e; Ok (timestamp dt)
  | Int_DateTimeNaiveWeekday e => dt ← eval_as_date_time_naive e; weekday dt
  | Int_DateTimeUtcNanosecond e => dt ← eval_as_date_time_utc e; nanosecond dt
  | Int_DateTimeUtcMicrosecond e => dt ← eval_as_date_time_utc e; microsecond dt
  | Int_DateTimeUtcMillisecond e => dt ← eval_as_date_time_utc e; millisecond dt
  | Int_DateTimeUtcSecond e => dt ← eval_as_date_time_utc e; second dt
  | Int_DateTimeUtcMinute e => dt ← eval_as_date_time_utc e; minute dt
  | Int_DateTimeUtcHour e => dt ← eval_as_date_time_utc e; hour dt
  | Int_DateTimeUtcDay e => dt ← eval_as_date_time_utc e; day dt
  | Int_DateTimeUtcMonth e => dt ← eval_as_date_time_utc e; month dt
  | Int_DateTimeUtcYear e => dt ← eval_as_date_time_utc e; year dt
  | Int_DateTimeUtcTimestampNs e => dt ← eval_as_date_time_utc e; Ok (timestamp dt)
  | Int_DateTimeUtcWeekday e => dt ← eval_as_date_time_utc e; weekday dt
  | Int_DurationFloorDiv lhs rhs =>
      l ← eval_as_duration lhs; r ← eval_as_duration rhs; duration_div l r
  | Int_DurationNanoseconds e => d ← eval_as_duration e; nanoseconds d
  | Int_DurationMicroseconds e => d ← eval_as_duration e; microseconds d
  | Int_DurationMilliseconds e => d ← eval_as_duration e; Ok (milliseconds d)
  | Int_DurationSeconds e => d ← eval_as_duration e; Ok (seconds d)
  | Int_DurationMinutes e => d ← eval_as_duration e; Ok (minutes d)
  | Int_DurationHours e => d ← eval_as_duration e; Ok (hours d)
  | Int_DurationDays e => d ← eval_as_duration e; Ok (days d)
  | Int_DurationWeeks e => d ← eval_as_duration e; Ok (weeks d)
  | Int_CastFromFloat e => f ← eval_as_float e; Ok (f64_as_i64 f)
  | Int_CastFromBool e => b ← eval_as_bool e; Ok (Z.b2z b)
  | Int_CastFromString e =>
      val ← eval e; s ← as_string val;
      ok_or (parse_i64 (trim s)) (ParseError "Cannot cast to int from {val_str}.")
  end

with Float_eval (f : FloatExpression) : DynResult f64 :=
  match f with
  | Float_Const c => Ok c
  | Float_Neg e => f ← eval_as_float e; Ok (f64_neg f)
  | Float_Abs e => f ← eval_as_float e; Ok (f64_abs f)
  | Float_Add lhs rhs => l ← eval_as_float lhs; r ← eval_as_float rhs; Ok (f64_add l r)
  | Float_Sub lhs rhs => l ← eval_as_float lhs; r ← eval_as_float rhs; Ok (f64_sub l r)
  | Float_Mul lhs rhs => l ← eval_as_float lhs; r ← eval_as_float rhs; Ok (f64_mul l r)
  | Float_FloorDiv lhs rhs =>
      rhs_val ← eval_as_float rhs;
      if f64_eqb rhs_val f64_zero then Err DivisionByZero
      else l ← eval_as_float lhs; Ok (f64_floor (f64_div l rhs_val))
  | Float_TrueDiv lhs rhs =>
      rhs_val ← eval_as_float rhs;
      if f64_eqb rhs_val f64_zero then Err DivisionByZero
      else l ← eval_as_float lhs; Ok (f64_div l rhs_val)
  | Float_Mod lhs rhs => l ← eval_as_float lhs; r ← eval_as_float rhs; float_mod l r
  | Float_Pow lhs rhs => l ← eval_as_float lhs; r ← eval_as_float rhs; Ok (f64_powf l r)
  | Float_IntTrueDiv lhs rhs =>
      rhs_val ← eval_as_int rhs;
      if rhs_val =? 0 then Err DivisionByZero
      else l ← eval_as_int lhs; Ok (f64_div (f64_of_int l) (f64_of_int rhs_val))
  | Float_DateTimeNaiveTimestamp e unit_ =>
      dt ← eval_as_date_time_naive e; u ← eval_as_string unit_; timestamp_in_unit dt u
  | Float_DateTimeUtcTimestamp e unit_ =>
      dt ← eval_as_date_time_utc e; u ← eval_as_string unit_; timestamp_in_unit dt u
  | Float_DurationTrueDiv lhs rhs => l ← eval_as_duration lhs; r ← eval_as_duration rhs; true_div l r
  | Float_CastFromBool e => b ← eval_as_bool e; Ok (if (b : bool) then f64_one else f64_zero)
  | Float_CastFromInt e => i ← eval_as_int e; Ok (f64_of_int i)
  | Float_CastFromString e =>
      val ← eval e; s ← as_string val;
      ok_or (f64_parse (trim s)) (ParseError "Cannot cast to float from {val}.")
  end

with Pointer_eval (p : PointerExpression) : DynResult Key :=
  match p with
  | Pointer_PointerFrom args => args ← Expressions_eval args; for_values args
  | Pointer_PointerWithInstanceFrom args instance =>
      args ← Expressions_eval args; i ← eval instance; generate_key LastKeyColumn (args ++ [i])
  end

with String_eval (s : StringExpression) : DynResult string :=
  match s with
  | String_Add lhs rhs =>
      lhs ← eval_as_string lhs; rhs ← eval_as_string rhs;
      Ok (if (lhs =? "")%string then rhs else if (rhs =? "")%string then lhs
          else String.append lhs rhs)
  | String_Mul lhs rhs =>
      repeat_ ← eval_as_int rhs;
      if repeat_ <? 0 then Ok ""%string else l ← eval_as_string lhs; Ok (string_repeat l repeat_)
  | String_CastFromInt e => i ← eval_as_int e; Ok (int_to_string i)
  | String_CastFromFloat e => f ← eval_as_float e; Ok (f64_to_string f)
  | String_CastFromBool e =>
      b ← eval_as_bool e; Ok (if (b : bool) then "True" else "False")%string
  | String_DateTimeNaiveStrftime e fmt =>
      dt ← eval_as_date_time_naive e; f ← eval_as_string fmt; naive_strftime dt f
  | String_DateTimeUtcStrftime e fmt =>
      dt ← eval_as_date_time_utc e; f ← eval_as_string fmt; utc_strftime dt f
  | String_ToString e =>
      val ← eval e; match val with VString s => Ok s | _ => value_display val end
  end

with Naive_eval (n : DateTimeNaiveExpression) : DynResult DateTimeNaive :=
  match n with
  | Naive_AddDuration lhs rhs =>
      l ← eval_as_date_time_naive lhs; r ← eval_as_duration rhs; naive_add_duration l r
  | Naive_SubDuration lhs rhs =>
      l ← eval_as_date_time_naive lhs; r ← eval_as_duration rhs; naive_sub_duration l r
  | Naive_Strptime e fmt => s ← eval_as_string e; f ← eval_as_string fmt; naive_strptime s f
  | Naive_FromUtc e timezone =>
      dt ← eval_as_date_time_utc e; tz ← eval_as_string timezone; to_naive_in_timezone dt tz
  | Naive_Round e d => dt ← eval_as_date_time_naive e; d ← eval_as_duration d; naive_round dt d
  | Naive_Floor e d => dt ← eval_as_date_time_naive e; d ← eval_as_duration d; naive_truncate dt d
  | Naive_FromTimestamp e unit_ =>
      i ← eval_as_int e; u ← eval_as_string unit_; naive_from_timestamp i u
  | Naive_FromFloatTimestamp e unit_ =>
      f ← eval_as_float e; u ← eval_as_string unit_; naive_from_timestamp_f64 f u
  end

with Utc_eval (u : DateTimeUtcExpression) : DynResult DateTimeUtc :=
  match u with
  | Utc_AddDuration lhs rhs =>
      l ← eval_as_date_time_utc lhs; r ← eval_as_duration rhs; utc_add_duration l r
  | Utc_SubDuration lhs rhs =>
      l ← eval_as_date_time_utc lhs; r ← eval_as_duration rhs; utc_sub_duration l r
  | Utc_Strptime e fmt => s ← eval_as_string e; f ← eval_as_string fmt; utc_strptime s f
  | Utc_FromNaive e from_timezone =>
      dt ← eval_as_date_time_naive e; tz ← eval_as_string from_timezone; to_utc_from_timezone dt tz
  | Utc_Round e d => dt ← eval_as_date_time_utc e; d ← eval_as_duration d; utc_round dt d
  | Utc_Floor e d => dt ← eval_as_date_time_utc e; d ← eval_as_duration d; utc_truncate dt d
  end

with Duration_eval (d : DurationExpression) : DynResult Duration :=
  match d with
  | Duration_Neg e => d ← eval_as_duration e; duration_neg d
  | Duration_Add lhs rhs => l ← eval_as_duration lhs; r ← eval_as_duration rhs; duration_add l r
  | Duration_Sub lhs rhs => l ← eval_as_duration lhs; r ← eval_as_duration rhs; duration_sub l r
  | Duration_MulByInt lhs rhs => l ← eval_as_duration lhs; r ← eval_as_int rhs; duration_mul l r
  | Duration_DivByInt lhs rhs => l ← eval_as_duration lhs; r ← eval_as_int rhs; duration_div_i64 l r
  | Duration_TrueDivByInt lhs rhs =>
      l ← eval_as_duration lhs; r ← eval_as_int rhs; true_div_by_i64 l r
  | Duration_MulByFloat lhs rhs =>
      l ← eval_as_duration lhs; r ← eval_as_float rhs; Ok (duration_mul_f64 l r)
  | Duration_DivByFloat lhs rhs =>
      l ← eval_as_duration lhs; r ← eval_as_float rhs; duration_div_f64 l r
  | Duration_Mod lhs rhs => l ← eval_as_duration lhs; r ← eval_as_duration rhs; duration_rem l r
  | Duration_DateTimeNaiveSub lhs rhs =>
      l ← eval_as_date_time_naive lhs; r ← eval_as_date_time_naive rhs; naive_sub l r
  | Duration_DateTimeUtcSub lhs rhs =>
      l ← eval_as_date_time_utc lhs; r ← eval_as_date_time_utc rhs; utc_sub l r
  end

with eval (e : Expression) : DynResult Value :=
  match e with
  | EBool b => VBool <$> Bool_eval b
  | EInt i => VInt <$> Int_eval i
  | EFloat f => VFloat <$> Float_eval f
  | EPointer p => VPointer <$> Pointer_eval p
  | EString s => VString <$> String_eval s
  | EDateTimeNaive n => VDateTimeNaive <$> Naive_eval n
  | EDateTimeUtc u => VDateTimeUtc <$> Utc_eval u
  | EDuration d => VDuration <$> Duration_eval d
  | EAny a => Any_eval a
  end

with eval_as_bool (e : Expression) : DynResult bool :=
  match e with
  | EBool b => Bool_eval b
  | EAny a => v ← Any_eval a; as_bool v
  | _ => type_error e "bool"
  end
with eval_as_int (e : Expression) : DynResult Z :=
  match e with
  | EInt i => Int_eval i
  | EAny a => v ← Any_eval a; as_int v
  | _ => type_error e "int"
  end
with eval_as_float (e : Expression) : DynResult f64 :=
  match e with
  | EFloat f => Float_eval f
  | EAny a => v ← Any_eval a; as_float v
  | _ => type_error e "float"
  end
with eval_as_pointer (e : Expression) : DynResult Key :=
  match e with
  | EPointer p => Pointer_eval p
  | EAny a => v ← Any_eval a; as_pointer v
  | _ => type_error e "pointer"
  end
with eval_as_string (e : Expression) : DynResult string :=
  match e with
  | EString s => String_eval s
  | EAny a => v ← Any_eval a; as_string v
  | _ => type_error e "string"
  end
with eval_as_date_time_naive (e : Expression) : DynResult DateTimeNaive :=
  match e with
  | EDateTimeNaive n => Naive_eval n
  | EAny a => v ← Any_eval a; as_date_time_naive v
  | _ => type_error e "DateTimeNaive"
  end
with eval_as_date_time_utc (e : Expression) : DynResult DateTimeUtc :=
  match e with
  | EDateTimeUtc u => Utc_eval u
  | EAny a => v ← Any_eval a; as_date_time_utc v
  | _ => type_error e "DateTimeUtc"
  end
with eval_as_duration (e : Expression) : DynResult Duration :=
  match e with
  | EDuration d => Duration_eval d
  | EAny a => v ← Any_eval a; as_duration v
  | _ => type_error e "Duration"
  end
with eval_as_tuple (e : Expression) : DynResult (list Value) :=
  match e with
  | EAny a => v ← Any_eval a; as_tuple v
  | _ => type_error e "Tuple"
  end.
End eval.

Definition new_const (value : Value) : Expression :=
  match value with
  | VBool b => EBool (Bool_Const b)
  | VInt i => EInt (Int_Const i)
  | VFloat f => EFloat (Float_Const f)
  | other => EAny (Any_Const other)
  end.
