(* ===== verification/ExpressionProps.v ===== *)
(** Properties of expression evaluation: the argument-slice optimisation, the
    agreement of the typed and untyped evaluators, Python-style indexing,
    integer division and powers, and the comparison of tuples. *)
From Stdlib Require Import ZArith Lia Bool Ascii.
From stdpp Require Import base list strings.
From S2P Require Import Prelude Order Float Text Data Externals Instances Value Time Expression.
Open Scope Z_scope.

(** ** Argument slices *)

Definition argument (i : nat) : Expression := EAny (Any_Argument i).

Lemma argument_slice_loop_spec source n m :
  argument_slice_loop source n = Some m → source = map argument (seq n (m - n)) ∧ (n ≤ m)%nat.
Proof.
  revert n. induction source as [|e source IH]; intros n; cbn [argument_slice_loop].
  - intros [= <-]. by rewrite Nat.sub_diag.
  - destruct e as [| | | | | | | |[i| | | | | | | | | | | | | | | | | | |]]; try done.
    destruct (Nat.eqb_spec i n) as [->|]; [|done]. intros [-> Hle]%IH.
    split; [|lia]. rewrite (Nat.sub_succ_r m n). destruct (m - n)%nat as [|k] eqn:Hk; [lia|].
    done.
Qed.

Lemma maybe_argument_slice_spec source a b :
  maybe_argument_slice source = Some (a, b) → source = map argument (seq a (b - a)) ∧ (a < b)%nat.
Proof.
  destruct source as [|e source]; [done|].
  destruct e as [| | | | | | | |[i| | | | | | | | | | | | | | | | | | |]]; try done. cbn.
  destruct (argument_slice_loop source (S i)) as [m|] eqn:Hm; [|done]. intros [= <- <-].
  apply argument_slice_loop_spec in Hm as [-> Hle]. split; [|lia].
  by replace (m - i)%nat with (S (m - S i)) by lia.
Qed.

Lemma is_error_eqb v : Value_eqb v VError = true ↔ v = VError.
Proof. by destruct v. Qed.

Section slices.
Context `{Profile, XxHash, Python, SerdeJson, Chrono, NumInteger, Ndarray, RustText}.

Lemma eval_argument values i :
  eval values (argument i) =
  match values !! i with Some VError => Err ErrorInValue | Some v => Ok v | None => Err IndexOutOfBounds end.
Proof. unfold argument. cbn. destruct (values !! i) as [[]|]; reflexivity. Qed.

Lemma try_collect_arguments values a k :
  (a + k ≤ length values)%nat →
  try_collect (eval values) (map argument (seq a k)) =
  let vs := take k (drop a values) in
  if existsb (λ v, Value_eqb v VError) vs then Err ErrorInValue else Ok vs.
Proof.
  revert a. induction k as [|k IH]; intros a Hlen; [done|].
  destruct (lookup_lt_is_Some_2 values a) as [v Hv]; [lia|].
  cbn [seq map]. unfold try_collect. fold (try_collect (eval values)).
  rewrite eval_argument, Hv, (drop_S _ _ _ Hv). cbn [take existsb]. rewrite IH by lia. cbn zeta.
  destruct v; cbn [Value_eqb orb]; try reflexivity; by destruct (existsb _ _).
Qed.

Lemma Expressions_from_eval values source :
  (∀ i, argument i ∈ source → (i < length values)%nat) →
  Expressions_eval values (Expressions_from source) = Expressions_eval values (Explicit source).
Proof.
  intros Hin. unfold Expressions_from.
  destruct (maybe_argument_slice source) as [[a b]|] eqn:Hs; [|done].
  apply maybe_argument_slice_spec in Hs as [-> Hlt].
  assert (b ≤ length values)%nat as Hb.
  { assert (b - 1 < length values)%nat; [|lia]. apply Hin.
    apply list_elem_of_fmap. exists (b - 1)%nat. split; [done|]. apply elem_of_seq. lia. }
  change (Expressions_eval values (Explicit (map argument (seq a (b - a)))))
    with (try_collect (eval values) (map argument (seq a (b - a)))).
  rewrite try_collect_arguments by lia. cbn [Expressions_eval].
  unfold eval_arguments, slice. rewrite (proj2 (Nat.leb_le _ _)), (proj2 (Nat.leb_le _ _)) by lia. done.
Qed.

(** Equations of the evaluator. *)
Lemma Any_eval_checked values t i d :
  Any_eval values (Any_TupleGetItemChecked t i d) = assert_not_error
    (entry ← get_array_element (eval_as_int values i) (eval values t);
     match entry with Some entry => Ok entry | None => eval values d end).
Proof. reflexivity. Qed.
Lemma Any_eval_unchecked values t i :
  Any_eval values (Any_TupleGetItemUnchecked t i) = assert_not_error
    (entry ← get_array_element (eval_as_int values i) (eval values t); ok_or entry IndexOutOfBounds).
Proof. reflexivity. Qed.
Lemma Int_eval_floor_div values l r :
  Int_eval values (Int_FloorDiv l r) =
    (b ← eval_as_int values r;
     if b =? 0 then Err DivisionByZero else a ← eval_as_int values l; div_floor a b).
Proof. reflexivity. Qed.
Lemma Int_eval_mod values l r :
  Int_eval values (Int_Mod l r) =
    (b ← eval_as_int values r;
     if b =? 0 then Err DivisionByZero else a ← eval_as_int values l; mod_floor a b).
Proof. reflexivity. Qed.
Lemma Int_eval_pow values l r :
  Int_eval values (Int_Pow l r) =
    (v ← eval values l; a ← as_int v; b ← eval_as_int values r; i64_pow a (wrap_u32 b)).
Proof. reflexivity. Qed.

(** The typed evaluators accept exactly the values of their type. *)
Lemma eval_as_any {A} (as_T : Value → DynResult A) (mk : A → Value) values a x :
  (∀ v, as_T v = Ok x ↔ v = mk x) →
  (v ← Any_eval values a; as_T v) = Ok x ↔ eval values (EAny a) = Ok (mk x).
Proof.
  intros Has. change (eval values (EAny a)) with (Any_eval values a). rewrite bind_ok. split.
  - by intros (v & Hv & ->%Has).
  - intros Hv. exists (mk x). split; [done|]. by apply Has.
Qed.
Lemma fmap_ok_iff {E A B} (f : A → B) (m : outcome E A) x :
  (∀ a b, f a = f b → a = b) → m = Ok x ↔ f <$> m = Ok (f x).
Proof. intros Hf. destruct m; cbn; naive_solver. Qed.
Lemma fmap_other {E A B} (f : A → B) (m : outcome E A) y : (∀ a, f a ≠ y) → f <$> m ≠ Ok y.
Proof. intros Hf. destruct m; cbn; naive_solver. Qed.
End slices.

Ltac typed_eval :=
  match goal with |- ?l = Ok _ ↔ eval _ ?e = _ => destruct e end;
  lazymatch goal with
  | |- context [eval _ (EAny _)] => apply eval_as_any; intros []; cbn; naive_solver
  | _ => first [apply fmap_ok_iff; by intros ? ? [= ->]
               |split; [discriminate|]; intros Hx; exfalso; revert Hx; by apply fmap_other]
  end.

(** ** Indexing *)

Lemma wrap_index_spec i len :
  0 ≤ len →
  wrap_index i len = if (- len <=? i) && (i <? len) then Some (i mod len) else None.
Proof.
  intros Hlen. unfold wrap_index. destruct (Z.ltb_spec i 0), (Z.leb_spec (- len) i), (Z.ltb_spec i len);
    cbn [andb]; try lia;
    repeat match goal with |- context [?a <? ?b] => destruct (Z.ltb_spec a b) end;
    repeat match goal with |- context [?a <=? ?b] => destruct (Z.leb_spec a b) end; cbn [orb]; try lia; try done.
  - f_equal. rewrite <- (Z.mod_add i 1 len), Z.mod_small by lia. lia.
  - by rewrite Z.mod_small by lia.
Qed.

(** ** Tuples *)

Lemma compare_tuples_loop_decided f lhs rhs c :
  c ≠ Eq → compare_tuples_loop f lhs rhs c =
  match compare_tuples_loop f lhs rhs Eq with Ok _ => Ok c | r => r end.
Proof.
  intros Hc. revert rhs. assert (Hgen : ∀ d rhs, match compare_tuples_loop f lhs rhs d with Ok _ => Ok c | r => r end
    = compare_tuples_loop f lhs rhs c).
  { induction lhs as [|v lhs IH]; intros d [|w rhs]; cbn; try done. destruct (f v w); [|done..].
    rewrite IH. by destruct c. }
  intros rhs. by rewrite Hgen.
Qed.

Definition is_eq (c : comparison) : bool := match c with Eq => true | _ => false end.
Lemma is_eq_Value_cmp v w : is_eq (Value_cmp v w) = Value_eqb v w.
Proof.
  pose proof (Value_eqb_cmp v w) as Hiff. unfold cmp, Value_ord in Hiff.
  destruct (Value_cmp v w), (Value_eqb v w); cbn; naive_solver.
Qed.
Lemma is_eq_float a b : is_eq (cmp a b) = ordered_float_eqb a b.
Proof.
  pose proof (ordered_float_eqb_cmp a b) as Hiff.
  destruct (cmp a b), (ordered_float_eqb a b); cbn; naive_solver.
Qed.

Lemma compare_equal_loop lhs rhs r b c :
  Forall (λ v, ∀ w c, value_compare_in_tuple v w = Ok c → value_equal_in_tuple v w = Ok (is_eq c)) lhs →
  compare_tuples_loop value_compare_in_tuple lhs rhs r = Ok c →
  tuples_equal_loop value_equal_in_tuple lhs rhs (b && is_eq r) = Ok (b && is_eq c).
Proof.
  intros Hl. revert rhs r. induction Hl as [|v lhs Hv _ IH]; intros [|w rhs] r; cbn; try by intros [= <-].
  destruct (value_compare_in_tuple v w) as [c0| |] eqn:Hc; [|done..].
  rewrite (Hv _ _ Hc). intros Hloop%IH. rewrite <- Hloop. f_equal. by destruct b, r.
Qed.
Lemma compare_equal_tuples lhs rhs c :
  Forall (λ v, ∀ w c, value_compare_in_tuple v w = Ok c → value_equal_in_tuple v w = Ok (is_eq c)) lhs →
  compare_tuples lhs rhs = Ok c → are_tuples_equal lhs rhs = Ok (is_eq c).
Proof.
  intros Hl. unfold compare_tuples, compare_tuples_with, are_tuples_equal.
  destruct (compare_tuples_loop _ lhs rhs Eq) as [c0| |] eqn:Hloop; [|done..].
  apply (compare_equal_loop _ _ _ (Nat.eqb (length lhs) (length rhs))) in Hloop; [|done].
  cbn [is_eq] in Hloop. rewrite andb_true_r in Hloop. rewrite Hloop.
  destruct c0; intros [= <-]; cbn [is_eq]; rewrite ?andb_false_r, ?andb_true_r; try done.
  f_equal. destruct (Nat.compare_spec (length lhs) (length rhs)), (Nat.eqb_spec (length lhs) (length rhs)); try done; lia.
Qed.
Lemma value_compare_equal v w c :
  value_compare_in_tuple v w = Ok c → value_equal_in_tuple v w = Ok (is_eq c).
Proof.
  revert w c. induction v as [vals IH|v Hv] using Value_nested_ind; intros w c.
  - destruct w; try done. by apply compare_equal_tuples.
  - destruct v; try (by destruct (Hv vals)); destruct w; try done;
      cbn [value_compare_in_tuple value_equal_in_tuple simple_type is_incomparable_type negb orb];
      try (rewrite bool_decide_eq_false_2 by done; done);
      rewrite ?bool_decide_eq_true_2 by done; cbn [negb orb]; try done; intros [= <-];
      rewrite ?is_eq_float; try rewrite decide_True by done; try done;
      match goal with |- Ok (Value_eqb ?v ?w) = _ => exact (f_equal Ok (eq_sym (is_eq_Value_cmp v w))) end.
Qed.

Lemma compare_loop_antisym lhs rhs r :
  Forall (λ v, ∀ w, value_compare_in_tuple w v = CompOpp <$> value_compare_in_tuple v w) lhs →
  compare_tuples_loop value_compare_in_tuple rhs lhs (CompOpp r) =
  CompOpp <$> compare_tuples_loop value_compare_in_tuple lhs rhs r.
Proof.
  intros Hl. revert rhs r. induction Hl as [|v lhs Hv _ IH]; intros [|w rhs] r; cbn; try done.
  rewrite Hv. destruct (value_compare_in_tuple v w); cbn; [|done..].
  rewrite <- IH. f_equal. by destruct r.
Qed.
Lemma compare_tuples_with_antisym lhs rhs :
  Forall (λ v, ∀ w, value_compare_in_tuple w v = CompOpp <$> value_compare_in_tuple v w) lhs →
  compare_tuples rhs lhs = CompOpp <$> compare_tuples lhs rhs.
Proof.
  intros Hl. unfold compare_tuples, compare_tuples_with.
  pose proof (compare_loop_antisym lhs rhs Eq Hl) as Hloop. cbn [CompOpp] in Hloop. rewrite Hloop.
  destruct (compare_tuples_loop _ lhs rhs Eq) as [[]| |]; cbn; try done.
  f_equal. by rewrite Nat.compare_antisym.
Qed.
Lemma value_compare_antisym v w :
  value_compare_in_tuple w v = CompOpp <$> value_compare_in_tuple v w.
Proof.
  revert w. induction v as [vals IH|v Hv] using Value_nested_ind; intros w.
  - destruct w; try reflexivity. by apply compare_tuples_with_antisym.
  - destruct v; try (by destruct (Hv vals)); destruct w; try reflexivity; cbn;
      rewrite ?bool_decide_eq_true_2 by done; cbn; f_equal; apply cmp_antisym.
Qed.

(** ** Properties *)

(** Turning a list of consecutive argument references into one slice of
    the row changes nothing: for arguments that are in the row, evaluating the
    optimised form gives the same values, or the same error when one of them
    is [Value::Error], as evaluating the expressions one by one. *)
Theorem argument_slice_equivalent `{Profile, XxHash, Python, SerdeJson, Chrono, NumInteger, Ndarray, RustText}
    values source :
  (∀ i, argument i ∈ source → (i < length values)%nat) →
  Expressions_eval values (Expressions_from source) = try_collect (eval values) source.
Proof. intros Hin. by rewrite Expressions_from_eval. Qed.

(** Each typed evaluator succeeds with [x] exactly when the untyped
    evaluator returns [x] wrapped in the corresponding variant. *)
Theorem typed_eval_agrees `{Profile, XxHash, Python, SerdeJson, Chrono, NumInteger, Ndarray, RustText} values e :
  (∀ b, eval_as_bool values e = Ok b ↔ eval values e = Ok (VBool b)) ∧
  (∀ i, eval_as_int values e = Ok i ↔ eval values e = Ok (VInt i)) ∧
  (∀ f, eval_as_float values e = Ok f ↔ eval values e = Ok (VFloat f)) ∧
  (∀ k, eval_as_pointer values e = Ok k ↔ eval values e = Ok (VPointer k)) ∧
  (∀ s, eval_as_string values e = Ok s ↔ eval values e = Ok (VString s)) ∧
  (∀ dt, eval_as_date_time_naive values e = Ok dt ↔ eval values e = Ok (VDateTimeNaive dt)) ∧
  (∀ dt, eval_as_date_time_utc values e = Ok dt ↔ eval values e = Ok (VDateTimeUtc dt)) ∧
  (∀ d, eval_as_duration values e = Ok d ↔ eval values e = Ok (VDuration d)) ∧
  (∀ t, eval_as_tuple values e = Ok t ↔ eval values e = Ok (VTuple t)).
Proof. split_and!; intros x; typed_eval. Qed.

(** Tuples are indexed as in Python: for [-len <= i < len] the element at
    [i mod len] is returned, otherwise the checked form evaluates its default
    and the unchecked form reports [IndexOutOfBounds]. *)
Theorem tuple_index_python `{Profile, XxHash, Python, SerdeJson, Chrono, NumInteger, Ndarray, RustText}
    values tuple index default_ vals i :
  eval values tuple = Ok (VTuple vals) → eval_as_int values index = Ok i →
  let len := Z.of_nat (length vals) in
  (- len ≤ i < len → ∀ v, vals !! Z.to_nat (i mod len) = Some v →
     Any_eval values (Any_TupleGetItemChecked tuple index default_) = assert_not_error (Ok v) ∧
     Any_eval values (Any_TupleGetItemUnchecked tuple index) = assert_not_error (Ok v)) ∧
  (i < - len ∨ len ≤ i →
     Any_eval values (Any_TupleGetItemChecked tuple index default_) = assert_not_error (eval values default_) ∧
     Any_eval values (Any_TupleGetItemUnchecked tuple index) = Err IndexOutOfBounds).
Proof.
  intros Ht Hi len.
  rewrite Any_eval_checked, Any_eval_unchecked, Ht, Hi. cbn [get_array_element mbind outcome_bind].
  unfold get_tuple_element. rewrite wrap_index_spec by lia. fold len.
  split.
  - intros Hr v Hv. rewrite (proj2 (Z.leb_le _ _)), (proj2 (Z.ltb_lt _ _)) by lia.
    cbn [andb]. by rewrite Hv.
  - intros Hr. replace ((- len <=? i) && (i <? len)) with false; [done|].
    symmetry. apply andb_false_iff. rewrite Z.leb_gt, Z.ltb_ge. lia.
Qed.

(** Integer floor division and modulo satisfy the division law with the
    remainder having the sign of the divisor, for all operands but
    [i64::MIN // -1]; a zero divisor is [DivisionByZero], whatever the
    dividend (which is not even evaluated). *)
Theorem int_division_law
    `{Profile, XxHash, Python, SerdeJson, Chrono, NumInteger, !NumIntegerLaws, Ndarray, RustText}
    values lhs rhs b :
  eval_as_int values rhs = Ok b → in_i64 b = true →
  (b = 0 → Int_eval values (Int_FloorDiv lhs rhs) = Err DivisionByZero ∧
           Int_eval values (Int_Mod lhs rhs) = Err DivisionByZero) ∧
  (∀ a, eval_as_int values lhs = Ok a → in_i64 a = true → b ≠ 0 → a ≠ I64_MIN ∨ b ≠ -1 →
   ∃ q r, Int_eval values (Int_FloorDiv lhs rhs) = Ok q ∧ Int_eval values (Int_Mod lhs rhs) = Ok r ∧
     a = q * b + r ∧ (0 ≤ r < b ∨ b < r ≤ 0)).
Proof.
  intros Hb Hbi. rewrite Int_eval_floor_div, Int_eval_mod, Hb. cbn [mbind outcome_bind]. split; [by intros ->|].
  intros a Ha Hai Hnz Hex. rewrite Ha. cbn [mbind outcome_bind].
  destruct (Z.eqb_spec b 0); [done|]. exists (a / b), (a mod b).
  assert (in_i64 (a / b) = true) as Hq.
  { apply in_i64_spec. apply in_i64_spec in Hai, Hbi. unfold I64_MIN in Hex.
    Z.to_euclidean_division_equations. nia. }
  rewrite div_floor_ok, mod_floor_ok by done. repeat split.
  - rewrite Z.mul_comm. apply Z_div_mod_eq_full.
  - destruct (Z_lt_le_dec 0 b); [left; apply Z.mod_pos_bound|right; apply Z.mod_neg_bound]; lia.
Qed.

(** Overflow in a power: a factor that overflows makes the product overflow. *)
Lemma overflow_grows x y : in_i64 x = false → 0 < y → in_i64 (x * y) = false.
Proof. rewrite <- !not_true_iff_false, !in_i64_spec. nia. Qed.
Lemma square_overflows b x p : in_i64 (b * b) = false → x ≠ 0 → in_i64 (x * (b ^ 2) ^ Zpos p) = false.
Proof.
  rewrite <- !not_true_iff_false, !in_i64_spec. intros Hb Hx.
  assert (2 ^ 63 < b ^ 2) as Hsq.
  { rewrite Z.pow_2_r. destruct (Z_le_gt_dec (Z.abs b) 3037000499); nia. }
  assert (b ^ 2 ≤ (b ^ 2) ^ Zpos p) as Hp.
  { rewrite <- (Z.pow_1_r (b ^ 2)) at 1. apply Z.pow_le_mono_r; lia. }
  nia.
Qed.
Lemma i64_pow_loop_zero `{Profile} {E} p acc : @i64_pow_loop _ E 0 acc p = Ok 0.
Proof.
  assert (∀ x, @i64_arith _ E (x * 0) = Ok 0) as Hzero by (intros x; by rewrite Z.mul_0_r).
  revert acc. induction p as [p IH|p IH|]; intros acc; cbn [i64_pow_loop]; rewrite ?Hzero; [apply IH..|done].
Qed.
Lemma i64_pow_loop_checked `{Profile} {E} p base acc : overflow_checks = true → acc ≠ 0 ∨ base = 0 →
  @i64_pow_loop _ E base acc p = i64_arith (acc * base ^ Zpos p).
Proof.
  intros Hchecks. assert (∀ z, in_i64 z = false → @i64_arith _ E z = Panic "attempt to compute with overflow") as Hover.
  { intros z Hz. unfold i64_arith. by rewrite Hz, Hchecks. }
  intros [Hne| ->]; [|by rewrite i64_pow_loop_zero, Z.pow_0_l, Z.mul_0_r by lia].
  destruct (decide (base = 0)) as [->|Hb]; [by rewrite i64_pow_loop_zero, Z.pow_0_l, Z.mul_0_r by lia|].
  revert base acc Hne Hb. induction p as [p IH|p IH|]; intros base acc Hne Hb; cbn [i64_pow_loop]; [| |by rewrite Z.pow_1_r].
  - rewrite (Pos2Z.inj_xI p), Z.pow_add_r, Z.pow_1_r, Z.pow_mul_r by lia.
    replace (acc * ((base ^ 2) ^ Zpos p * base)) with ((acc * base) * (base ^ 2) ^ Zpos p) by lia.
    assert (0 < (base ^ 2) ^ Zpos p) as Hpos by (apply Z.pow_pos_nonneg; [nia|lia]).
    destruct (in_i64 (acc * base)) eqn:Ea; [|rewrite (Hover _ Ea); by rewrite (Hover _ (overflow_grows _ _ Ea Hpos))].
    rewrite (i64_arith_exact _ Ea). cbn [mbind outcome_bind].
    destruct (in_i64 (base * base)) eqn:Eb; 
      [|rewrite (Hover _ Eb); rewrite (Hover _ (square_overflows _ (acc * base) p Eb ltac:(nia))); done].
    rewrite (i64_arith_exact _ Eb). cbn [mbind outcome_bind]. rewrite IH by nia. by rewrite Z.pow_2_r.
  - rewrite (Pos2Z.inj_xO p), Z.pow_mul_r by lia.
    destruct (in_i64 (base * base)) eqn:Eb; [|rewrite (Hover _ Eb); by rewrite (Hover _ (square_overflows _ acc p Eb Hne))].
    rewrite (i64_arith_exact _ Eb). cbn [mbind outcome_bind]. rewrite IH by nia. by rewrite Z.pow_2_r.
Qed.
Lemma i64_pow_loop_wraps `{Profile} {E} p base acc : overflow_checks = false → ∃ r, @i64_pow_loop _ E base acc p = Ok r.
Proof.
  intros Hwraps. assert (∀ z, ∃ r, @i64_arith _ E z = Ok r) as Ha.
  { intros z. unfold i64_arith. rewrite Hwraps. by destruct (in_i64 z); eexists. }
  revert base acc. induction p as [p IH|p IH|]; intros base acc; cbn [i64_pow_loop]; [| |apply Ha].
  - destruct (Ha (acc * base)) as [? ->], (Ha (base * base)) as [? ->]. apply IH.
  - destruct (Ha (base * base)) as [? ->]. apply IH.
Qed.

(** C14: An integer power takes its exponent modulo 2^32, so that an exponent of 2^32
    gives 1 and a negative exponent acts as 2^32 plus it. In the release profile, which
    does not check for overflow, the result is the power wrapped to 64 bits; in the dev
    profile it is the power where that fits in 64 bits, and the evaluation panics where
    it does not. *)
Theorem int_pow_truncates `{Profile, XxHash, Python, SerdeJson, Chrono, NumInteger, Ndarray, RustText}
    values lhs rhs a b :
  eval values lhs = Ok (VInt a) → eval_as_int values rhs = Ok b →
  let power := a ^ (b mod 2 ^ 32) in
  (overflow_checks = false → Int_eval values (Int_Pow lhs rhs) = Ok (wrap_i64 power)) ∧
  (overflow_checks = true → in_i64 power = true → Int_eval values (Int_Pow lhs rhs) = Ok power) ∧
  (overflow_checks = true → in_i64 power = false →
    Int_eval values (Int_Pow lhs rhs) = Panic "attempt to compute with overflow") ∧
  (b = 2 ^ 32 → Int_eval values (Int_Pow lhs rhs) = Ok 1).
Proof.
  intros Ha Hb power. rewrite Int_eval_pow, Ha. cbn [as_int mbind outcome_bind]. rewrite Hb. cbn [as_int mbind outcome_bind].
  assert (wrap_u32 b = b mod 2 ^ 32) as -> by done. pose proof (Z.mod_pos_bound b (2 ^ 32)) as Hr.
  assert (overflow_checks = true → i64_pow a (b mod 2 ^ 32) = (i64_arith power : outcome DataError Z)) as Hc.
  { intros Hchecks. unfold power, i64_pow. destruct (b mod 2 ^ 32) as [|p|p]; [done| |lia].
    cbv iota. rewrite i64_pow_loop_checked by (done || by left). f_equal. lia. }
  split; [|split; [|split]].
  - intros Hwraps. assert (∃ r, i64_pow a (b mod 2 ^ 32) = (Ok r : outcome DataError Z)) as [r Hp].
    { unfold i64_pow. destruct (b mod 2 ^ 32); eauto using i64_pow_loop_wraps. }
    rewrite Hp. f_equal. apply i64_pow_ok in Hp; [done|lia].
  - intros Hchecks Hin. by rewrite Hc, i64_arith_exact.
  - intros Hchecks Hout. rewrite Hc by done. unfold i64_arith. by rewrite Hout, Hchecks.
  - by intros ->.
Qed.

(** The order of tuples is consistent with their equality and
    antisymmetric: when two tuples can be compared, they compare [Equal]
    exactly when they are equal, and comparing them the other way round gives
    the opposite answer (or the same error). *)
Theorem tuple_order_consistent lhs rhs :
  (∀ c, compare_tuples lhs rhs = Ok c → are_tuples_equal lhs rhs = Ok (is_eq c)) ∧
  compare_tuples rhs lhs = CompOpp <$> compare_tuples lhs rhs.
Proof.
  split.
  - intros c. apply compare_equal_tuples, Forall_true, value_compare_equal.
  - apply compare_tuples_with_antisym, Forall_true, value_compare_antisym.
Qed.

(** ** The properties at concrete inputs *)

Section witnesses.
Import Concrete.
#[local] Instance dev_profile : Profile := true.

Definition sample_values : list Value := [VInt 4; VInt (-7); VTuple [VInt 1; VInt 2; VInt 3]; VInt (2 ^ 32)].

Lemma argument_slice_equivalent_witness :
Expressions_eval sample_values (Expressions_from [argument 0; argument 1]) = Ok [VInt 4; VInt (-7)].
Proof.
rewrite (argument_slice_equivalent sample_values [argument 0; argument 1]); [reflexivity|].
intros i [[= ->]|[[= ->]|Hi%elem_of_nil]%elem_of_cons]%elem_of_cons; cbn; try lia; done.
Defined.

Lemma tuple_index_python_witness :
Any_eval sample_values (Any_TupleGetItemUnchecked (argument 2) (EInt (Int_Const (-1)))) = Ok (VInt 3).
Proof.
destruct (tuple_index_python sample_values (argument 2) (EInt (Int_Const (-1))) (argument 0)
  [VInt 1; VInt 2; VInt 3] (-1) eq_refl eq_refl) as [Hin _].
destruct (Hin ltac:(cbn; lia) (VInt 3) eq_refl) as [_ Hu]. exact Hu.
Defined.

Lemma int_division_law_witness :
∃ q r, Int_eval sample_values (Int_FloorDiv (argument 1) (argument 0)) = Ok q ∧
  Int_eval sample_values (Int_Mod (argument 1) (argument 0)) = Ok r ∧ -7 = q * 4 + r.
Proof.
destruct (int_division_law sample_values (argument 1) (argument 0) 4 eq_refl eq_refl) as [_ Hq].
destruct (Hq (-7)) as (q & r & ? & ? & ? & _); [reflexivity..|done|by right|]. by exists q, r.
Defined.

Lemma int_pow_truncates_witness :
Int_eval sample_values (Int_Pow (argument 0) (argument 3)) = Ok 1 ∧
Int_eval sample_values (Int_Pow (argument 1) (argument 0)) = Ok 2401 ∧
Int_eval sample_values (Int_Pow (argument 0) (argument 1)) = Panic "attempt to compute with overflow".
Proof.
split; [|split].
- apply (int_pow_truncates sample_values (argument 0) (argument 3) 4 (2 ^ 32)); reflexivity.
- destruct (int_pow_truncates sample_values (argument 1) (argument 0) (-7) 4 eq_refl eq_refl) as (_ & Hp & _). by apply Hp.
- vm_compute. reflexivity.
Defined.

End witnesses.
