(* ===== verification/Reduce.v ===== *)
(** Reducers (src/engine/reduce.rs) and the way groups are reduced by the
    dataflow (src/engine/dataflow.rs, [trait DataflowReducer]).

    A group's input is the list of its distinct states with their
    multiplicities.  Multiplicities become [NonZeroUsize] when the iterator is
    consumed, so an item of the iterator carries the outcome of that
    conversion.  [isize] and [usize] are 64 bits wide. *)
From Stdlib Require Import ZArith Lia Bool Ascii.
From stdpp Require Import base list strings sorting.
From S2P Require Import Prelude Order Float Text Data Externals Instances Value.
Open Scope Z_scope.

(** ** The traits *)

Definition Item (S : Type) : Type := S * DynResult positive.

(** Consuming the whole iterator. *)
Definition consume {S} (items : list (Item S)) : DynResult (list (S * positive)) :=
  try_collect (λ it, c ← snd it; Ok (fst it, c)) items.

Record ReducerImpl := mk_ReducerImpl {
  State : Type;
  init : Key → list Value → DynResult State;
  combine : list (Item State) → DynResult State;
  finish : State → Value
}.
Record UnaryReducerImpl := mk_UnaryReducerImpl {
  UState : Type;
  init_unary : Key → Value → DynResult UState;
  ucombine : list (Item UState) → DynResult UState;
  ufinish : UState → Value
}.
(** [impl<T: UnaryReducerImpl> ReducerImpl for T]; [&values[0]] panics on an
    empty row. *)
Definition index0 (values : list Value) : DynResult Value :=
  match values with v :: _ => Ok v | [] => Panic "index out of bounds: the len is 0 but the index is 0" end.
Definition of_unary (r : UnaryReducerImpl) : ReducerImpl :=
  mk_ReducerImpl (UState r) (λ key values, v ← index0 values; init_unary r key v) (ucombine r) (ufinish r).

(** ** The integer sum: a semigroup *)

Record IntSumState := mk_IntSumState { count : Z; sum : Z; error_count : Z }.

Section int_sum.
Context `{Profile}.

Definition int_sum_is_zero (s : IntSumState) : bool :=
  (count s =? 0) && (sum s =? 0) && (error_count s =? 0).
Definition int_sum_plus_equals (s rhs : IntSumState) : DynResult IntSumState :=
  c ← i64_arith (count s + count rhs);
  t ← i64_arith (sum s + sum rhs);
  e ← i64_arith (error_count s + error_count rhs);
  Ok (mk_IntSumState c t e).
Definition int_sum_multiply (s : IntSumState) (rhs : Z) : DynResult IntSumState :=
  c ← i64_arith (count s * rhs);
  t ← i64_arith (sum s * rhs);
  e ← i64_arith (error_count s * rhs);
  Ok (mk_IntSumState c t e).
Definition int_sum_single (val : Z) : IntSumState := mk_IntSumState 1 val 0.
Definition int_sum_error : IntSumState := mk_IntSumState 0 0 1.
Definition int_sum_init (key : Key) (value : Value) : DynResult IntSumState :=
  match value with
  | VInt i => Ok (int_sum_single i)
  | value => Err (ReducerInitializationError "IntSumReducer" value key)
  end.
Definition int_sum_finish (s : IntSumState) : Value :=
  if negb (error_count s =? 0) then VError else VInt (sum s).

(** [IntSumReducer::reduce] on one group: each row's state (the error state
    for a row with an error or of a wrong type), exploded with the row's
    multiplicity and accumulated. *)
Definition int_sum_row (row : Key * list Value) : DynResult IntSumState :=
  if existsb (λ v, Value_eqb v VError) (snd row) then Ok int_sum_error
  else v ← index0 (snd row);
       match int_sum_init (fst row) v with Err _ => Ok int_sum_error | r => r end.
Fixpoint int_sum_accumulate (acc : IntSumState) (updates : list ((Key * list Value) * Z))
    : DynResult IntSumState :=
  match updates with
  | [] => Ok acc
  | (row, diff) :: updates =>
      s ← int_sum_row row;
      s ← int_sum_multiply s diff;
      acc ← int_sum_plus_equals acc s;
      int_sum_accumulate acc updates
  end.
Definition int_sum_reduce (updates : list ((Key * list Value) * Z)) : DynResult Value :=
  s ← int_sum_accumulate (mk_IntSumState 0 0 0) updates; Ok (int_sum_finish s).
End int_sum.

(** ** The other reducers *)

(** [.sum()] of floats starts from zero. *)
Definition FloatSumReducer : UnaryReducerImpl := {|
  UState := f64;
  init_unary key value := match value with
    | VFloat f => Ok f
    | value => Err (ReducerInitializationError "FloatSumReducer" value key)
    end;
  ucombine items :=
    vs ← consume items;
    Ok (foldl f64_add f64_zero (map (λ vc, f64_mul (fst vc) (f64_of_int (Zpos (snd vc)))) vs));
  ufinish := VFloat
|}.

Section arrays.
Context `{XxHash, Ndarray}.

Inductive ArraySumState := AIntArray (a : ArrayD Z) | AFloatArray (a : ArrayD f64).
Definition array_sum_new (value : Value) (cnt : positive) : DynResult ArraySumState :=
  match value with
  | VIntArray array =>
      if Pos.eqb cnt 1 then Ok (AIntArray (handle_data array))
      else AIntArray <$> int_array_scale (handle_data array) (Zpos cnt)
  | VFloatArray array =>
      if Pos.eqb cnt 1 then Ok (AFloatArray (handle_data array))
      else AFloatArray <$> float_array_scale (handle_data array) (f64_of_int (Zpos cnt))
  | value => Err (TypeMismatch "Array" value)
  end.
Definition add_array_sum_states (lhs rhs : DynResult ArraySumState) : DynResult ArraySumState :=
  lhs ← lhs; rhs ← rhs;
  match lhs, rhs with
  | AIntArray lhs, AIntArray rhs => AIntArray <$> int_array_add lhs rhs
  | AFloatArray lhs, AFloatArray rhs => AFloatArray <$> float_array_add lhs rhs
  | _, _ => Err MixingTypesInNpSum
  end.
Definition value_from_array_sum (s : ArraySumState) : Value :=
  match s with
  | AIntArray a => value_from_int_array a
  | AFloatArray a => value_from_float_array a
  end.
Definition ArraySumReducer : UnaryReducerImpl := {|
  UState := Value;
  init_unary key value := Ok value;
  ucombine items :=
    vs ← consume items;
    match map (λ vc, array_sum_new (fst vc) (snd vc)) vs with
    | [] => Panic "values should not be empty"
    | s :: ss => s ← foldl add_array_sum_states s ss; Ok (value_from_array_sum s)
    end;
  ufinish v := v
|}.
End arrays.

Definition UniqueReducer : UnaryReducerImpl := {|
  UState := Value;
  init_unary key value := Ok value;
  ucombine items :=
    match items with
    | [] => Panic "called `Option::unwrap()` on a `None` value"
    | (state, cnt) :: items =>
        _ ← cnt;
        match items with
        | (next_value, next_cnt) :: _ =>
            _ ← next_cnt; Err (MoreThanOneValueInUniqueReducer state next_value)
        | [] => Ok state
        end
    end;
  ufinish v := v
|}.
Definition MinReducer : UnaryReducerImpl := {|
  UState := Value;
  init_unary key value := Ok value;
  ucombine items := vs ← consume items; unwrap (iter_min (map fst vs));
  ufinish v := v
|}.
Definition ArgMinReducer : UnaryReducerImpl := {|
  UState := Value * Key;
  init_unary key value := Ok (value, key);
  ucombine items := vs ← consume items; unwrap (iter_min (map fst vs));
  ufinish s := VPointer (snd s)
|}.
Definition SALT : Z := 0xDEADBEEFDEADBEEFDEADBEEFDEADBEEF.
Definition AnyReducer : UnaryReducerImpl := {|
  UState := Key * Value;
  init_unary key value := Ok (key, value);
  ucombine items :=
    vs ← consume items;
    unwrap (min_by_key (λ kv, (salted_with (fst kv) SALT, snd kv)) (map fst vs));
  ufinish s := snd s
|}.
Definition MaxReducer : UnaryReducerImpl := {|
  UState := Value;
  init_unary key value := Ok value;
  ucombine items := vs ← consume items; unwrap (iter_max (map fst vs));
  ufinish v := v
|}.
Definition ArgMaxReducer : UnaryReducerImpl := {|
  UState := Value * Key;
  init_unary key value := Ok (value, key);
  ucombine items :=
    vs ← consume items;
    unwrap (max_by_key (λ vk, (fst vk, mk_Reverse (snd vk))) (map fst vs));
  ufinish s := VPointer (snd s)
|}.

(** [flat_map(|(state, cnt)| state.iter().flat_map(|v| repeat(v).take(cnt)))]. *)
Definition repeat_items {T} (vs : list (list T * positive)) : list T :=
  concat (map (λ sc, concat (map (λ v, replicate (Pos.to_nat (snd sc)) v) (fst sc))) vs).

Definition SortedTupleReducer (skip_nones : bool) : UnaryReducerImpl := {|
  UState := list Value;
  init_unary key value := Ok (if Value_eqb value VNone && skip_nones then [] else [value]);
  ucombine items := vs ← consume items; Ok (repeat_items vs);
  ufinish state := VTuple (sort state)
|}.
Definition TupleEntry : Type := option Value * Key * Value.
Definition TupleReducer (skip_nones : bool) : ReducerImpl := {|
  State := list TupleEntry;
  init key values :=
    v0 ← index0 values;
    Ok (if Value_eqb v0 VNone && skip_nones then []
        else match values with
             | _ :: v1 :: _ => [(Some v1, key, v0)]
             | _ => [(None, key, v0)]
             end);
  combine items := vs ← consume items; Ok (repeat_items vs);
  finish state := VTuple (map snd (sort state))
|}.

(** ** Reducing a group ([impl DataflowReducer for R: ReducerImpl]) *)

Section group.
Context (R : ReducerImpl).

(** [.ok_with_logger()]: an error is logged and becomes [None]. *)
Definition ok_with_logger {A} (r : DynResult A) : DynResult (option A) :=
  match r with Ok a => Ok (Some a) | Err _ => Ok None | Panic p => Panic p end.

(** ["DataFlowReducer::reduce::init"]. *)
Definition group_init (source_key : Key) (values : list Value) : DynResult (option (State R)) :=
  if existsb (λ v, Value_eqb v VError) values then Ok None
  else ok_with_logger (init R source_key values).

(** [usize::try_from(cnt).unwrap().try_into().unwrap()]. *)
Definition nonzero_count (cnt : Z) : DynResult positive :=
  match cnt with
  | Zpos p => Ok p
  | _ => Panic "called `Result::unwrap()` on an `Err` value"
  end.
(** [state.as_ref().unwrap()]: only reached when all are [Some]. *)
Fixpoint all_some (input : list (option (State R) * Z)) : option (list (Item (State R))) :=
  match input with
  | [] => Some []
  | (Some s, cnt) :: input =>
      match all_some input with Some l => Some ((s, nonzero_count cnt) :: l) | None => None end
  | (None, _) :: _ => None
  end.
Definition group_reduce (input : list (option (State R) * Z)) : DynResult (option (State R)) :=
  match all_some input with
  | None => Ok None
  | Some items => ok_with_logger (combine R items)
  end.
Definition group_result (input : list (option (State R) * Z)) : DynResult Value :=
  r ← group_reduce input;
  Ok (match r with Some state => finish R state | None => VError end).
End group.
