(* ===== verification/ReduceProps.v ===== *)
(** Properties of reducers: the integer sum is the wrapped sum of the rows
    with their multiplicities, and reducing a group does not depend on the
    order in which its states are presented. *)
From Stdlib Require Import ZArith Lia Bool Ascii.
From stdpp Require Import base list strings sorting.
From S2P Require Import Prelude Order Float Text Data Externals Instances Value Reduce.
Open Scope Z_scope.

(** ** The integer sum *)

(** What a row adds to the sum and to the error count. *)
Definition row_parts (row : Key * list Value) : Z * Z :=
  if existsb (λ v, Value_eqb v VError) (snd row) then (0, 1)
  else match snd row with VInt i :: _ => (i, 0) | _ => (0, 1) end.
Definition total (f : Key * list Value → Z) (updates : list ((Key * list Value) * Z)) : Z :=
  foldr (λ u acc, f (fst u) * snd u + acc) 0 updates.
Definition int_sum_value (updates : list ((Key * list Value) * Z)) : Value :=
  if wrap_i64 (total (snd ∘ row_parts) updates) =? 0
  then VInt (wrap_i64 (total (fst ∘ row_parts) updates)) else VError.

Lemma total_perm f l1 l2 : l1 ≡ₚ l2 → total f l1 = total f l2.
Proof. unfold total. induction 1; cbn; try lia. Qed.

Lemma wrap_i64_add_mul a b c d x :
  a mod 2 ^ 64 = (b + wrap_i64 (c * d)) mod 2 ^ 64 → wrap_i64 (a + x) = wrap_i64 (b + (c * d + x)).
Proof.
  intros Ha. apply wrap_i64_cong. rewrite Z.add_assoc, <- (Zplus_mod_idemp_l a), Ha, Zplus_mod_idemp_l.
  rewrite <- (Zplus_mod_idemp_l (b + wrap_i64 (c * d))), <- (Zplus_mod_idemp_l (b + c * d)).
  do 2 f_equal. rewrite <- (Zplus_mod_idemp_r (wrap_i64 _)), wrap_i64_eqm. apply Zplus_mod_idemp_r.
Qed.

Section int_sum_props.
Context `{Profile}.

Lemma int_sum_row_ok row s :
  int_sum_row row = Ok s → sum s = fst (row_parts row) ∧ error_count s = snd (row_parts row).
Proof.
  unfold int_sum_row, row_parts. destruct (existsb _ (snd row)); [by intros [= <-]|].
  destruct (snd row) as [|v vs]; [done|]. cbn. by destruct v; intros [= <-].
Qed.
Lemma int_sum_accumulate_ok ups acc s :
  in_i64 (sum acc) = true → in_i64 (error_count acc) = true →
  int_sum_accumulate acc ups = Ok s →
  sum s = wrap_i64 (sum acc + total (fst ∘ row_parts) ups) ∧
  error_count s = wrap_i64 (error_count acc + total (snd ∘ row_parts) ups).
Proof.
  revert acc. induction ups as [|[row d] ups IH]; intros acc Hs He; cbn.
  - intros [= <-]. by rewrite !Z.add_0_r, !wrap_i64_id.
  - intros (s1 & [Hs1 He1]%int_sum_row_ok & Hr)%bind_ok.
    apply bind_ok in Hr as (s2 & Hm & Hr). apply bind_ok in Hr as (acc' & Hp & Hr).
    unfold int_sum_multiply in Hm. apply bind_ok in Hm as (c2 & _ & Hm).
    apply bind_ok in Hm as (t2 & Ht2%i64_arith_ok_wrap & Hm).
    apply bind_ok in Hm as (e2 & He2%i64_arith_ok_wrap & [= <-]).
    unfold int_sum_plus_equals in Hp. apply bind_ok in Hp as (c3 & _ & Hp).
    apply bind_ok in Hp as (t3 & Ht3 & Hp). apply bind_ok in Hp as (e3 & He3 & [= <-]).
    apply IH in Hr as [-> ->]; [|eapply i64_arith_range; eassumption..]. cbn [sum error_count] in *.
    apply i64_arith_ok_wrap in Ht3, He3. rewrite Hs1, He1 in *.
    split; apply wrap_i64_add_mul; by rewrite ?Ht3, ?He3, wrap_i64_eqm, ?Ht2, ?He2.
Qed.
End int_sum_props.

Lemma int_sum_row_total `{Profile} row : snd row ≠ [] → ∃ s, int_sum_row row = Ok s.
Proof.
  intros Hne. unfold int_sum_row. destruct (existsb _ (snd row)); [eauto|].
  destruct (snd row) as [|v vs]; [done|]. cbn. destruct v; eauto.
Qed.
Lemma int_sum_accumulate_release ups acc :
  Forall (λ u, snd (fst u) ≠ []) ups → ∃ s, int_sum_accumulate (H := false) acc ups = Ok s.
Proof.
  intros Hne. revert acc. induction Hne as [|[row d] ups Hrow _ IH]; intros acc; cbn; [eauto|].
  destruct (int_sum_row_total (H := false) row Hrow) as [s ->]. cbn.
  unfold int_sum_multiply, int_sum_plus_equals. rewrite !i64_arith_release. cbn.
  rewrite !i64_arith_release. cbn. apply IH.
Qed.

(** ** Order independence *)

(** Outcomes that the dataflow cannot tell apart: equal values, or the same
    kind of failure. *)
Definition same_outcome (r1 r2 : DynResult Value) : Prop :=
  match r1, r2 with
  | Ok v1, Ok v2 => Value_eqb v1 v2 = true
  | Err _, Err _ => True
  | Panic _, Panic _ => True
  | _, _ => False
  end.
Definition with_counts {S} (vs : list (S * positive)) : list (Item S) :=
  map (λ sp, (fst sp, Ok (snd sp))) vs.

(** What a reducer promises to the dataflow. *)
Class OrderInsensitive (R : ReducerImpl) : Prop :=
  combine_perm : ∀ vs1 vs2, vs1 ≡ₚ vs2 →
    same_outcome (finish R <$> combine R (with_counts vs1)) (finish R <$> combine R (with_counts vs2)).

Lemma consume_with_counts {S} (vs : list (S * positive)) : consume (with_counts vs) = Ok vs.
Proof. induction vs as [|[s p] vs IH]; cbn; [done|]. unfold consume, with_counts in IH. by rewrite IH. Qed.

Lemma Value_eqb_of_cmp v w : cmp v w = Eq → Value_eqb v w = true.
Proof. apply Value_eqb_cmp. Qed.
Lemma VPointer_eqb k1 k2 : cmp k1 k2 = Eq → Value_eqb (VPointer k1) (VPointer k2) = true.
Proof. intros Hk. by apply Value_eqb_cmp. Qed.
Lemma VTuple_eqb l1 l2 : Forall2 ord_eq l1 l2 → Value_eqb (VTuple l1) (VTuple l2) = true.
Proof. intros Hl. apply Value_eqb_cmp. by apply list_cmp_eq_Forall2. Qed.

(** A reducer that picks an extreme of the states. *)
Lemma min_pick_insensitive `{OrdLaws K} {S} (f : S → K) (fin : S → Value) (l1 l2 : list S) :
  (∀ x y, cmp (f x) (f y) = Eq → Value_eqb (fin x) (fin y) = true) → l1 ≡ₚ l2 →
  same_outcome (fin <$> unwrap (min_by_key f l1)) (fin <$> unwrap (min_by_key f l2)).
Proof.
  intros Hf Hp. destruct (min_by_key f l1) as [m1|] eqn:H1, (min_by_key f l2) as [m2|] eqn:H2; cbn.
  - by apply Hf, (min_by_key_perm f l1 l2).
  - destruct l2; [|done]. apply Permutation_nil_r in Hp. by subst.
  - destruct l1; [|done]. symmetry in Hp. apply Permutation_nil_r in Hp. by subst.
  - done.
Qed.
Lemma max_pick_insensitive `{OrdLaws K} {S} (f : S → K) (fin : S → Value) (l1 l2 : list S) :
  (∀ x y, cmp (f x) (f y) = Eq → Value_eqb (fin x) (fin y) = true) → l1 ≡ₚ l2 →
  same_outcome (fin <$> unwrap (max_by_key f l1)) (fin <$> unwrap (max_by_key f l2)).
Proof.
  intros Hf Hp. destruct (max_by_key f l1) as [m1|] eqn:H1, (max_by_key f l2) as [m2|] eqn:H2; cbn.
  - by apply Hf, (max_by_key_perm f l1 l2).
  - destruct l2; [|done]. apply Permutation_nil_r in Hp. by subst.
  - destruct l1; [|done]. symmetry in Hp. apply Permutation_nil_r in Hp. by subst.
  - done.
Qed.

Ltac pick_reducer R :=
  intros vs1 vs2 Hp; unfold R; cbn [of_unary combine finish ucombine ufinish]; rewrite !consume_with_counts;
  cbn [mbind outcome_bind].

Global Instance Min_insensitive : OrderInsensitive (of_unary MinReducer).
Proof.
  pick_reducer MinReducer. apply (min_pick_insensitive (λ v : Value, v) (λ v, v)); [apply Value_eqb_of_cmp|by rewrite Hp].
Qed.
Global Instance Max_insensitive : OrderInsensitive (of_unary MaxReducer).
Proof.
  pick_reducer MaxReducer. apply (max_pick_insensitive (λ v : Value, v) (λ v, v)); [apply Value_eqb_of_cmp|by rewrite Hp].
Qed.
Global Instance ArgMin_insensitive : OrderInsensitive (of_unary ArgMinReducer).
Proof.
  pick_reducer ArgMinReducer. apply (min_pick_insensitive (λ s : Value * Key, s) (λ s, VPointer (snd s))); [|by rewrite Hp].
  intros x y [_ Hk]%pair_cmp_eq. by apply VPointer_eqb.
Qed.
Global Instance ArgMax_insensitive : OrderInsensitive (of_unary ArgMaxReducer).
Proof.
  pick_reducer ArgMaxReducer. apply (max_pick_insensitive (λ vk : Value * Key, (fst vk, mk_Reverse (snd vk)))
    (λ s, VPointer (snd s))); [|by rewrite Hp].
  intros x y [_ Hk]%pair_cmp_eq. apply VPointer_eqb. cbn in Hk. unfold cmp, Reverse_ord in Hk. cbn in Hk.
  rewrite (cmp_antisym (snd y) (snd x)), Hk. done.
Qed.
Global Instance Any_insensitive : OrderInsensitive (of_unary AnyReducer).
Proof.
  pick_reducer AnyReducer. apply (min_pick_insensitive (λ kv : Key * Value, (salted_with (fst kv) SALT, snd kv))
    (λ s, snd s)); [|by rewrite Hp].
  intros x y [_ Hv]%pair_cmp_eq. by apply Value_eqb_of_cmp.
Qed.
Global Instance Unique_insensitive : OrderInsensitive (of_unary UniqueReducer).
Proof.
  intros vs1 vs2 Hp. destruct vs1 as [|[s1 p1] [|[s1' p1'] vs1]].
  - symmetry in Hp. apply Permutation_nil_r in Hp. by subst.
  - symmetry in Hp. apply Permutation_singleton_r in Hp. subst. apply (Value_eqb_of_cmp s1), cmp_refl.
  - apply Permutation_length in Hp. by destruct vs2 as [|? [|? vs2]].
Qed.

Lemma repeat_items_perm {T} (vs1 vs2 : list (list T * positive)) :
  vs1 ≡ₚ vs2 → repeat_items vs1 ≡ₚ repeat_items vs2.
Proof.
  unfold repeat_items. induction 1 as [|x l1 l2 _ IH|x y l|l1 l2 l3 _ IH1 _ IH2]; cbn; try done.
  - by rewrite IH.
  - rewrite !app_assoc. by apply Permutation_app_tail, Permutation_app_comm.
  - by etrans.
Qed.
Global Instance SortedTuple_insensitive skip : OrderInsensitive (of_unary (SortedTupleReducer skip)).
Proof.
  intros vs1 vs2 Hp. cbn [of_unary combine finish ucombine ufinish SortedTupleReducer].
  rewrite !consume_with_counts. by apply VTuple_eqb, sort_perm_eq, repeat_items_perm.
Qed.
Global Instance Tuple_insensitive skip : OrderInsensitive (TupleReducer skip).
Proof.
  intros vs1 vs2 Hp. cbn [combine finish TupleReducer]. rewrite !consume_with_counts.
  apply VTuple_eqb, Forall2_fmap. eapply Forall2_impl; [by apply sort_perm_eq, repeat_items_perm|].
  intros x y [_ Hv]%pair_cmp_eq. done.
Qed.

(** *** At the level of a group *)

Lemma all_some_perm R in1 in2 :
  in1 ≡ₚ in2 →
  match all_some R in1, all_some R in2 with
  | Some l1, Some l2 => l1 ≡ₚ l2
  | None, None => True
  | _, _ => False
  end.
Proof.
  induction 1 as [|[s c] l1 l2 _ IH|[s c] [t d] l|l1 l2 l3 _ IH1 _ IH2]; cbn; try done.
  - destruct s, (all_some R l1), (all_some R l2); try done. by constructor.
  - destruct s, t, (all_some R l); try done. constructor.
  - destruct (all_some R l1), (all_some R l2), (all_some R l3); try done. by etrans.
Qed.
Lemma all_some_counts R input items :
  Forall (λ sc, 0 < snd sc) input → all_some R input = Some items → ∃ vs, items = with_counts vs.
Proof.
  intros Hp. revert items. induction Hp as [|[[s|] c] input Hc _ IH]; intros items; cbn; try done.
  - intros [= <-]. by exists [].
  - destruct (all_some R input) as [l|]; [|done]. destruct (IH l eq_refl) as [vs ->].
    intros [= <-]. destruct c as [|p|]; try (cbn in Hc; lia). by exists ((s, p) :: vs).
Qed.
Lemma with_counts_perm {S} (vs1 vs2 : list (S * positive)) :
  with_counts vs1 ≡ₚ with_counts vs2 → vs1 ≡ₚ vs2.
Proof.
  intros Hp. assert (Hinv : ∀ vs, vs = omap (λ it : Item S, match snd it with Ok p => Some (fst it, p) | _ => None end)
    (with_counts vs)) by (induction vs as [|[] vs IH]; cbn; [done|f_equal; exact IH]).
  rewrite (Hinv vs1), (Hinv vs2). by rewrite Hp.
Qed.

Lemma group_result_perm R `{!OrderInsensitive R} in1 in2 :
  Forall (λ sc, 0 < snd sc) in1 → in1 ≡ₚ in2 → same_outcome (group_result R in1) (group_result R in2).
Proof.
  intros Hpos Hp. pose proof (all_some_perm R _ _ Hp) as Ha. unfold group_result, group_reduce.
  destruct (all_some R in1) as [l1|] eqn:H1, (all_some R in2) as [l2|] eqn:H2; try done.
  destruct (all_some_counts R in1 l1 Hpos H1) as [vs1 ->].
  destruct (all_some_counts R in2 l2) as [vs2 ->]; [by rewrite <- Hp|done|].
  apply with_counts_perm in Ha. pose proof (combine_perm vs1 vs2 Ha) as Hc.
  destruct (combine R (with_counts vs1)), (combine R (with_counts vs2)); cbn in *; done.
Qed.

(** *** Extremal reducers *)

Lemma min_combine_spec {S} `{OrdLaws S} (vs : list (S * positive)) :
  vs ≠ [] → ∃ m, unwrap (E := DataError) (iter_min (map fst vs)) = Ok m ∧ m ∈ map fst vs ∧
    ∀ x, x ∈ map fst vs → ord_le m x.
Proof.
  intros Hne. destruct (min_by_key_is_Some (λ x : S, x) (map fst vs)) as [m Hm]; [by destruct vs|].
  exists m. split; [change (iter_min (map fst vs)) with (min_by_key (λ x : S, x) (map fst vs)); by rewrite Hm|].
  by apply (min_by_key_spec (λ x : S, x)).
Qed.

(** ** Properties *)

(** The integer-sum reducer returns the sum of the rows weighted by their
    multiplicities, modulo 2^64, or [Error] when the multiplicities of the rows
    that are errors (or not integers) do not cancel; in the release profile it
    always returns.  So the result does not depend on the order of the updates,
    and an insertion followed by its retraction changes nothing. *)
Theorem int_sum_correct (updates : list ((Key * list Value) * Z)) :
  Forall (λ u, snd (fst u) ≠ []) updates →
  (∀ (p : Profile) v, int_sum_reduce updates = Ok v → v = int_sum_value updates) ∧
  int_sum_reduce (H := false) updates = Ok (int_sum_value updates) ∧
  (∀ updates', updates ≡ₚ updates' → int_sum_value updates = int_sum_value updates') ∧
  (∀ row d, int_sum_value ((row, d) :: (row, - d) :: updates) = int_sum_value updates).
Proof.
  intros Hne.
  assert (Hv : ∀ (p : Profile) v, int_sum_reduce updates = Ok v → v = int_sum_value updates).
  { intros p v (s & Hs & [= <-])%bind_ok. apply int_sum_accumulate_ok in Hs as [Hs He]; [|done..].
    cbn [sum error_count] in Hs, He. rewrite !Z.add_0_l in Hs, He.
    unfold int_sum_finish, int_sum_value. rewrite <- Hs, <- He. by destruct (error_count s =? 0). }
  split_and!; [done| | |].
  - destruct (int_sum_accumulate_release updates (mk_IntSumState 0 0 0) Hne) as [s Hs].
    assert (Hr : int_sum_reduce (H := false) updates = Ok (int_sum_finish s))
      by (unfold int_sum_reduce; by rewrite Hs).
    rewrite Hr. f_equal. by apply (Hv false).
  - intros updates' Hp. unfold int_sum_value. by rewrite !(total_perm _ _ _ Hp).
  - intros row d. unfold int_sum_value, total. cbn [foldr fst snd].
    do 2 (rewrite Z.add_assoc, Z.mul_opp_r, Z.add_opp_diag_r, Z.add_0_l). done.
Qed.

(** For the reducers min, max, argmin, argmax, any, unique, sorted-tuple
    and tuple, the result of a group does not depend on the order in which its
    states (with positive multiplicities) are presented: both orders give equal
    values, or both fail. *)
Theorem group_result_order_independent (skip_nones : bool) (R : ReducerImpl) in1 in2 :
  R ∈ [of_unary MinReducer; of_unary MaxReducer; of_unary ArgMinReducer; of_unary ArgMaxReducer;
       of_unary AnyReducer; of_unary UniqueReducer; of_unary (SortedTupleReducer skip_nones);
       TupleReducer skip_nones] →
  Forall (λ sc, 0 < snd sc) in1 → in1 ≡ₚ in2 →
  same_outcome (group_result R in1) (group_result R in2).
Proof.
  intros HR Hpos Hp.
  repeat (apply elem_of_cons in HR as [->|HR]; [by apply group_result_perm; [apply _|..]|]).
  by apply elem_of_nil in HR.
Qed.

(** on a non-empty group, min returns a value of the group that is not
    above any other, argmin the smallest key among the rows of least value, and
    argmax the smallest key among the rows of greatest value. *)
Theorem extremal_reducers (vs : list ((Value * Key) * positive)) :
  vs ≠ [] →
  (∃ m, combine (of_unary MinReducer) (with_counts (map (λ x, (fst (fst x), snd x)) vs)) = Ok m ∧
     m ∈ map (fst ∘ fst) vs ∧ Forall (λ v, ord_le m v) (map (fst ∘ fst) vs)) ∧
  (∃ m k, combine (of_unary ArgMinReducer) (with_counts vs) = Ok (m, k) ∧ (m, k) ∈ map fst vs ∧
     ∀ v k', (v, k') ∈ map fst vs → ord_le m v ∧ (ord_eq m v → ord_le k k')) ∧
  (∃ m k, combine (of_unary ArgMaxReducer) (with_counts vs) = Ok (m, k) ∧ (m, k) ∈ map fst vs ∧
     ∀ v k', (v, k') ∈ map fst vs → ord_le v m ∧ (ord_eq m v → ord_le k k')).
Proof.
  intros Hne. unfold MinReducer, ArgMinReducer, ArgMaxReducer.
  cbn [of_unary combine ucombine]. rewrite !consume_with_counts. cbn [mbind outcome_bind].
  split_and!.
  - destruct (min_combine_spec (map (λ x, (fst (fst x), snd x)) vs)) as (m & Hm & Hin & Hle);
      [by destruct vs|].
    rewrite map_map in Hin, Hle. exists m. split_and!; [done|done|]. by apply Forall_forall.
  - destruct (min_combine_spec vs Hne) as ([m k] & Hm & Hin & Hle). exists m, k. split_and!; [done|done|].
    intros v k' Hv. by apply (pair_le_spec (m, k) (v, k')), Hle.
  - destruct (max_by_key_is_Some (λ vk : Value * Key, (fst vk, mk_Reverse (snd vk))) (map fst vs))
      as [[m k] Hm]; [by destruct vs|].
    exists m, k. rewrite Hm. apply max_by_key_spec in Hm as [Hin Hle]. split_and!; [done|done|].
    intros v k' [Hle1 Hle2]%Hle%pair_le_spec. split; [done|]. intros Heq. apply Hle2. cbn in *.
    unfold ord_eq in *. by rewrite (cmp_antisym m v), Heq.
Qed.

(** the sorted-tuple reducer returns the values of the group, each as often
    as its multiplicity, in ascending order; with [skip_nones] a [None] row
    contributes nothing. *)
Theorem sorted_tuple_sorts (skip_nones : bool) (rows : list (Key * Value * positive)) :
  ∃ states t,
    Forall2 (λ r s, init (of_unary (SortedTupleReducer skip_nones)) (fst (fst r)) [snd (fst r)] = Ok s) rows states ∧
    finish (of_unary (SortedTupleReducer skip_nones)) <$>
      combine (of_unary (SortedTupleReducer skip_nones)) (with_counts (zip states (map snd rows))) = Ok (VTuple t) ∧
    StronglySorted ord_le t ∧
    t ≡ₚ concat (map (λ r, replicate (Pos.to_nat (snd r)) (snd (fst r)))
           (List.filter (λ r, negb (Value_eqb (snd (fst r)) VNone && skip_nones)) rows)).
Proof.
  exists (map (λ r : Key * Value * positive, if Value_eqb (snd (fst r)) VNone && skip_nones then [] else [snd (fst r)]) rows).
  eexists. cbn [of_unary combine finish ucombine ufinish SortedTupleReducer init].
  rewrite consume_with_counts. split; [|split; [reflexivity|split; [apply sort_sorted|]]].
  - apply Forall2_fmap_r, Forall_Forall2_diag, Forall_true. by intros r.
  - unfold sort. rewrite sort_by_perm. unfold repeat_items.
    induction rows as [|[[k v] c] rows IH]; [done|]. cbn [map zip_with zip concat List.filter fst snd].
    destruct (Value_eqb v VNone && skip_nones); cbn [negb map concat fst snd]; rewrite IH; [done|].
    by rewrite app_nil_r.
Qed.

(** ** The properties at concrete inputs *)

Section witnesses.

Definition sample_k1 : Key := mk_Key 1.
Definition sample_k2 : Key := mk_Key 2.

Lemma int_sum_correct_witness :
int_sum_reduce (H := false) [((sample_k1, [VInt 5]), 2); ((sample_k2, [VInt 7]), -1); ((sample_k2, [VError]), 0)] = Ok (VInt 3).
Proof.
destruct (int_sum_correct [((sample_k1, [VInt 5]), 2); ((sample_k2, [VInt 7]), -1); ((sample_k2, [VError]), 0)])
  as (_ & Hr & _); [by repeat constructor|]. rewrite Hr. reflexivity.
Defined.

Lemma group_result_order_independent_witness :
same_outcome (group_result (TupleReducer true) [(Some [(None, sample_k1, VInt 1)], 1); (Some [(None, sample_k2, VInt 2)], 3)])
  (group_result (TupleReducer true) [(Some [(None, sample_k2, VInt 2)], 3); (Some [(None, sample_k1, VInt 1)], 1)]).
Proof.
apply (group_result_order_independent true).
- do 7 (apply elem_of_cons; right). by apply elem_of_cons; left.
- by repeat constructor.
- constructor.
Defined.

Lemma extremal_reducers_witness :
∃ m k, combine (of_unary ArgMaxReducer) (with_counts [((VInt 3, sample_k2), xH); ((VInt 3, sample_k1), xH)]) = Ok (m, k) ∧
  ord_le k sample_k2.
Proof.
destruct (extremal_reducers [((VInt 3, sample_k2), xH); ((VInt 3, sample_k1), xH)]) as (_ & _ & m & k & Hc & _ & Hm); [done|].
exists m, k. split; [exact Hc|].
destruct (Hm (VInt 3) sample_k2) as [_ Hk]; [by apply elem_of_cons; left|].
apply Hk. assert (Hv : Ok (VInt 3, sample_k1) = @Ok DataError _ (m, k)) by (rewrite <- Hc; reflexivity).
by injection Hv as <- <-.
Defined.

End witnesses.
