(* ===== verification/Timestamp.v ===== *)
(** Logical time (src/engine/timestamp.rs, src/engine/frontier.rs and the
    timestamp part of src/engine/dataflow/operators/time_column.rs), against
    the traits of timely and differential dataflow (vendored under
    external/), given as type classes with their laws. *)
From Stdlib Require Import ZArith Lia Bool NArith.
From stdpp Require Import base list strings numbers.
From S2P Require Import Prelude Order Text.
Open Scope Z_scope.

(** ** The traits *)

(** timely's [PartialOrder : Eq]. *)
Class PartialOrder (T : Type) := less_equal : T → T → bool.
Definition less_than `{PartialOrder T, EqDecision T} (a b : T) : bool :=
  less_equal a b && negb (bool_decide (a = b)).
Class PartialOrderLaws (T : Type) `{PartialOrder T} : Prop := {
  le_refl : ∀ a, less_equal a a = true;
  le_antisym : ∀ a b, less_equal a b = true → less_equal b a = true → a = b;
  le_trans : ∀ a b c, less_equal a b = true → less_equal b c = true → less_equal a c = true
}.

(** differential's [Lattice]. *)
Class Lattice (T : Type) := { join : T → T → T; meet : T → T → T }.
Class LatticeLaws (T : Type) `{PartialOrder T, Lattice T} : Prop := {
  join_lub : ∀ a b c, less_equal (join a b) c = true ↔ less_equal a c = true ∧ less_equal b c = true;
  meet_glb : ∀ a b c, less_equal c (meet a b) = true ↔ less_equal c a = true ∧ less_equal c b = true
}.

(** timely's [PathSummary<T>] and [Timestamp]. *)
Class PathSummary (S T : Type) := {
  results_in : S → T → option T;
  followed_by : S → S → option S
}.
(** A summary moves times forward, strictly preserves their order, and
    summaries compose. *)
Class PathSummaryLaws (S T : Type) `{PartialOrder T, EqDecision T, PathSummary S T} : Prop := {
  results_in_ge : ∀ s t t', results_in s t = Some t' → less_equal t t' = true;
  results_in_mono : ∀ s t1 t2 u1 u2, results_in s t1 = Some u1 → results_in s t2 = Some u2 →
    less_than t1 t2 = true → less_than u1 u2 = true;
  followed_by_results_in : ∀ s1 s2 t,
    (s ← followed_by s1 s2; results_in s t) = (t' ← results_in s1 t; results_in s2 t')
}.
Class TimestampTrait (T : Type) := minimum : T.
Class MinimumLaw (T : Type) `{PartialOrder T, TimestampTrait T} : Prop :=
  minimum_le : ∀ t, less_equal minimum t = true.

(** ** [u64] as a timestamp *)

Definition u64_max : N := (2 ^ 64 - 1)%N.
Definition checked_add (a b : N) : option N := if (a + b <=? u64_max)%N then Some (a + b)%N else None.
Global Instance N_PartialOrder : PartialOrder N := N.leb.
Global Instance N_Lattice : Lattice N := {| join := N.max; meet := N.min |}.
Global Instance N_PathSummary : PathSummary N N := {|
  results_in self src := checked_add self src;
  followed_by self other := checked_add self other
|}.

(** ** [Timestamp] and [Summary] *)

Record Timestamp := mk_Timestamp { ts_0 : N }.
Record Summary := mk_Summary { sum_0 : N }.
Global Instance Timestamp_eq_dec : EqDecision Timestamp.
Proof. solve_decision. Defined.
Global Instance Summary_eq_dec : EqDecision Summary.
Proof. solve_decision. Defined.

Global Instance Timestamp_PartialOrder : PartialOrder Timestamp := λ self other, (ts_0 self <=? ts_0 other)%N.
Global Instance Timestamp_Lattice : Lattice Timestamp := {|
  join self other := mk_Timestamp (join (ts_0 self) (ts_0 other));
  meet self other := mk_Timestamp (meet (ts_0 self) (ts_0 other))
|}.
Global Instance Timestamp_trait : TimestampTrait Timestamp := mk_Timestamp 0.
Global Instance Summary_PartialOrder : PartialOrder Summary := λ self other, (sum_0 self <=? sum_0 other)%N.
Global Instance Summary_PathSummary : PathSummary Summary Timestamp := {|
  results_in self src := mk_Timestamp <$> results_in (sum_0 self) (ts_0 src);
  followed_by self other := mk_Summary <$> followed_by (S := N) (T := N) (sum_0 self) (sum_0 other)
|}.
Definition epsilon : Summary := mk_Summary 1.
Definition get_max_timestamp : Timestamp := mk_Timestamp (u64_max / 2 * 2).
Definition timestamp_to_string (t : Timestamp) : string := int_to_string (Z.of_N (ts_0 t)).
Definition timestamp_from_str (s : string) : option Timestamp :=
  n ← parse_u64 s; Some (mk_Timestamp (Z.to_N n)).
Global Instance Timestamp_ord : Ord Timestamp := λ a b, cmp (Z.of_N (ts_0 a)) (Z.of_N (ts_0 b)).
Global Instance Timestamp_ord_laws : OrdLaws Timestamp.
Proof. by apply (ord_laws_via (λ t, Z.of_N (ts_0 t))). Qed.

Lemma Timestamp_cmp_eq (a b : Timestamp) : cmp a b = Eq ↔ a = b.
Proof.
  unfold cmp, Timestamp_ord. rewrite Z_cmp_eq. destruct a as [x], b as [y]; cbn.
  split; [intros ->%N2Z.inj; done|by intros [= ->]].
Qed.

(** ** [SelfCompactionTime]: a time with a retraction flag *)

Record SelfCompactionTime (T : Type) := mk_SelfCompactionTime { sct_time : T; sct_retraction : bool }.
Arguments mk_SelfCompactionTime {T} _ _.
Arguments sct_time {T} _.
Arguments sct_retraction {T} _.

Definition original {T} (time : T) : SelfCompactionTime T := mk_SelfCompactionTime time false.
Definition retraction {T} (time : T) : SelfCompactionTime T := mk_SelfCompactionTime time true.

Section self_compaction.
Context `{PartialOrder T, EqDecision T}.

Global Instance SCT_eq_dec : EqDecision (SelfCompactionTime T).
Proof. solve_decision. Defined.

Global Instance SCT_PartialOrder : PartialOrder (SelfCompactionTime T) := λ self other,
  if decide (sct_time self = sct_time other)
  then negb (sct_retraction self) || sct_retraction other        (* [bool <= bool] *)
  else less_equal (sct_time self) (sct_time other).
Global Instance SCT_Lattice `{Lattice T} : Lattice (SelfCompactionTime T) := {|
  join self other :=
    let time := join (sct_time self) (sct_time other) in
    let r := false in
    let r := if decide (time = sct_time self) then r || sct_retraction self else r in
    let r := if decide (time = sct_time other) then r || sct_retraction other else r in
    mk_SelfCompactionTime time r;
  meet self other :=
    let time := meet (sct_time self) (sct_time other) in
    let r := true in
    let r := if decide (time = sct_time self) then r && sct_retraction self else r in
    let r := if decide (time = sct_time other) then r && sct_retraction other else r in
    mk_SelfCompactionTime time r
|}.
Global Instance SCT_PathSummary {S : Type} `{!PathSummary S T} :
    PathSummary (SelfCompactionTime S) (SelfCompactionTime T) := {|
  results_in self timestamp :=
    val ← results_in (sct_time self) (sct_time timestamp);
    Some (mk_SelfCompactionTime val (sct_retraction self || sct_retraction timestamp));
  followed_by self other :=
    val ← followed_by (sct_time self) (sct_time other);
    Some (mk_SelfCompactionTime val (sct_retraction self || sct_retraction other))
|}.
Global Instance SCT_trait `{TimestampTrait T} : TimestampTrait (SelfCompactionTime T) := original minimum.
Definition sct_to_inner (other : T) : SelfCompactionTime T := original other.
Definition sct_to_outer (self : SelfCompactionTime T) : T := sct_time self.
Definition sct_summarize {S} (path : SelfCompactionTime S) : S := sct_time path.
End self_compaction.
Definition sct_get_max_timestamp : SelfCompactionTime Timestamp := original get_max_timestamp.

(** ** [TotalFrontier] *)

Inductive TotalFrontier (T : Type) := At (t : T) | Done.
Arguments At {T} t.
Arguments Done {T}.

(** [#[derive(PartialOrd, Ord)]]: [At] before [Done]. *)
Global Instance TotalFrontier_ord `{Ord T} : Ord (TotalFrontier T) := λ f g,
  match f, g with
  | At t, At u => cmp t u
  | At _, Done => Lt
  | Done, At _ => Gt
  | Done, Done => Eq
  end.
Definition frontier_from_antichain {T} (value : option T) : TotalFrontier T :=
  match value with Some t => At t | None => Done end.
Definition frontier_try_from {T} (value : list T) : option (TotalFrontier T) :=
  match value with [] => Some Done | [t] => Some (At t) | _ => None end.
Section frontier.
Context `{PartialOrder T, EqDecision T}.
Definition is_time_done (f : TotalFrontier T) (time : T) : bool :=
  match f with At t => less_than time t | Done => true end.
Definition is_time_pending (f : TotalFrontier T) (time : T) : bool := negb (is_time_done f time).
Definition is_done (f : TotalFrontier T) : bool := match f with Done => true | _ => false end.
End frontier.
Global Instance TotalFrontier_ord_laws `{OrdLaws T} : OrdLaws (TotalFrontier T).
Proof.
  split.
  - intros [t|] [u|]; cbn; try done. apply cmp_antisym.
  - intros [t|] [u|] [w|]; cbn; try done. apply cmp_trans.
Qed.

(** ** The laws hold *)

Lemma less_than_spec `{PartialOrder T, EqDecision T} (a b : T) :
  less_than a b = true ↔ less_equal a b = true ∧ a ≠ b.
Proof. unfold less_than. rewrite andb_true_iff, negb_true_iff, bool_decide_eq_false. done. Qed.

Global Instance Timestamp_PartialOrderLaws : PartialOrderLaws Timestamp.
Proof.
  split; unfold less_equal, Timestamp_PartialOrder.
  - intros a. apply N.leb_refl.
  - intros [a] [b]; cbn. rewrite !N.leb_le. intros. f_equal. lia.
  - intros a b c. rewrite !N.leb_le. lia.
Qed.
Global Instance Timestamp_LatticeLaws : LatticeLaws Timestamp.
Proof.
  split; intros [a] [b] [c]; unfold less_equal, Timestamp_PartialOrder; cbn; rewrite !N.leb_le; lia.
Qed.
Lemma checked_add_spec a b c : checked_add a b = Some c ↔ c = (a + b)%N ∧ (a + b ≤ u64_max)%N.
Proof. unfold checked_add. destruct (N.leb_spec (a + b) u64_max); naive_solver lia. Qed.
Lemma results_in_timestamp s t t' :
  results_in s t = Some t' ↔ ts_0 t' = (sum_0 s + ts_0 t)%N ∧ (sum_0 s + ts_0 t ≤ u64_max)%N.
Proof.
  destruct t' as [t']. cbn. rewrite fmap_Some. setoid_rewrite checked_add_spec. naive_solver.
Qed.
Global Instance Summary_PathSummaryLaws : PathSummaryLaws Summary Timestamp.
Proof.
  split.
  - intros s t t' [Ht _]%results_in_timestamp. unfold less_equal, Timestamp_PartialOrder. apply N.leb_le. lia.
  - intros s [t1] [t2] [u1] [u2] [H1 _]%results_in_timestamp [H2 _]%results_in_timestamp.
    rewrite !less_than_spec. unfold less_equal, Timestamp_PartialOrder. cbn in *. rewrite !N.leb_le.
    intros [Hle Hne]. split; [lia|]. intros [= ->]. apply Hne. f_equal. lia.
  - intros [s1] [s2] [t]. cbn. unfold checked_add.
    destruct (N.leb_spec (s1 + s2) u64_max); cbn; unfold checked_add;
      destruct (N.leb_spec (s1 + t) u64_max); cbn; unfold checked_add.
    + replace (s1 + s2 + t)%N with (s2 + (s1 + t))%N by lia. done.
    + destruct (N.leb_spec (s1 + s2 + t) u64_max); [lia|done].
    + destruct (N.leb_spec (s2 + (s1 + t)) u64_max); [lia|done].
    + done.
Qed.
Global Instance Timestamp_MinimumLaw : MinimumLaw Timestamp.
Proof. intros t. apply N.leb_le. cbn. lia. Qed.

Section self_compaction_laws.
Context `{PartialOrder T, EqDecision T, !PartialOrderLaws T}.
Implicit Types (a b c : SelfCompactionTime T).

Lemma sct_le_spec a b :
  less_equal a b = true ↔
  (sct_time a = sct_time b ∧ (sct_retraction a = true → sct_retraction b = true)) ∨
  (sct_time a ≠ sct_time b ∧ less_equal (sct_time a) (sct_time b) = true).
Proof.
  unfold less_equal at 1, SCT_PartialOrder. destruct (decide (sct_time a = sct_time b)) as [He|He].
  - destruct (sct_retraction a), (sct_retraction b); cbn; naive_solver.
  - naive_solver.
Qed.
Lemma sct_le_time a b : less_equal a b = true → less_equal (sct_time a) (sct_time b) = true.
Proof. intros [[-> _]|[_ ?]]%sct_le_spec; [apply le_refl|done]. Qed.

Global Instance SCT_PartialOrderLaws : PartialOrderLaws (SelfCompactionTime T).
Proof.
  split.
  - intros a. apply sct_le_spec. by left.
  - intros [t1 r1] [t2 r2] H1 H2.
    assert (t1 = t2) as -> by (apply le_antisym; by eapply sct_le_time in H1, H2).
    apply sct_le_spec in H1 as [[_ H1]|[[] _]]; [|done].
    apply sct_le_spec in H2 as [[_ H2]|[[] _]]; [|done]. cbn in *.
    f_equal. destruct r1, r2; naive_solver.
  - intros a b c H1 H2. pose proof (sct_le_time _ _ H1). pose proof (sct_le_time _ _ H2).
    apply sct_le_spec. destruct (decide (sct_time a = sct_time c)) as [He|He]; [left|right].
    + split; [done|]. assert (sct_time a = sct_time b) as Hab by (apply le_antisym; congruence).
      apply sct_le_spec in H1 as [[_ H1]|[[] _]]; [|done].
      apply sct_le_spec in H2 as [[_ H2]|[[] _]]; [auto|congruence].
    + split; [done|]. by eapply le_trans.
Qed.

Context `{Lattice T, !LatticeLaws T}.
Lemma join_l (x y : T) : less_equal x (join x y) = true.
Proof. apply (join_lub x y (join x y)), le_refl. Qed.
Lemma join_r (x y : T) : less_equal y (join x y) = true.
Proof. apply (join_lub x y (join x y)), le_refl. Qed.
Lemma meet_l (x y : T) : less_equal (meet x y) x = true.
Proof. apply (meet_glb x y (meet x y)), le_refl. Qed.
Lemma meet_r (x y : T) : less_equal (meet x y) y = true.
Proof. apply (meet_glb x y (meet x y)), le_refl. Qed.

Lemma sct_time_join a b : sct_time (join a b) = join (sct_time a) (sct_time b).
Proof. reflexivity. Qed.
Lemma sct_time_meet a b : sct_time (meet a b) = meet (sct_time a) (sct_time b).
Proof. reflexivity. Qed.
Lemma sct_join_retraction a b :
  sct_retraction (join a b) = true ↔
  (join (sct_time a) (sct_time b) = sct_time a ∧ sct_retraction a = true) ∨
  (join (sct_time a) (sct_time b) = sct_time b ∧ sct_retraction b = true).
Proof. cbn. repeat case_decide; cbn; rewrite ?orb_true_iff; naive_solver. Qed.
Lemma sct_meet_retraction a b :
  sct_retraction (meet a b) = true ↔
  (meet (sct_time a) (sct_time b) = sct_time a → sct_retraction a = true) ∧
  (meet (sct_time a) (sct_time b) = sct_time b → sct_retraction b = true).
Proof. cbn. repeat case_decide; cbn; rewrite ?andb_true_iff; naive_solver. Qed.

Lemma sct_join_upper a b : less_equal a (join a b) = true ∧ less_equal b (join a b) = true.
Proof.
  split; apply sct_le_spec; rewrite ?sct_time_join.
  - destruct (decide (sct_time a = join (sct_time a) (sct_time b))) as [He|He]; [left|right; auto using join_l].
    split; [done|]. intros Hr. apply sct_join_retraction. by left.
  - destruct (decide (sct_time b = join (sct_time a) (sct_time b))) as [He|He]; [left|right; auto using join_r].
    split; [done|]. intros Hr. apply sct_join_retraction. by right.
Qed.
Lemma sct_meet_lower a b : less_equal (meet a b) a = true ∧ less_equal (meet a b) b = true.
Proof.
  split; apply sct_le_spec; rewrite ?sct_time_meet.
  - destruct (decide (meet (sct_time a) (sct_time b) = sct_time a)) as [He|He]; [left|right; auto using meet_l].
    split; [done|]. intros [Hr _]%sct_meet_retraction. by apply Hr.
  - destruct (decide (meet (sct_time a) (sct_time b) = sct_time b)) as [He|He]; [left|right; auto using meet_r].
    split; [done|]. intros [_ Hr]%sct_meet_retraction. by apply Hr.
Qed.

Global Instance SCT_LatticeLaws : LatticeLaws (SelfCompactionTime T).
Proof.
  split; intros a b c.
  - split; [intros Hj; destruct (sct_join_upper a b); split; by eapply le_trans|]. intros [Ha Hb].
    pose proof (sct_le_time _ _ Ha) as Hta. pose proof (sct_le_time _ _ Hb) as Htb.
    assert (Hj : less_equal (join (sct_time a) (sct_time b)) (sct_time c) = true) by (by apply join_lub).
    apply sct_le_spec. rewrite ?sct_time_join.
    destruct (decide (join (sct_time a) (sct_time b) = sct_time c)) as [He|He]; [left|by right].
    split; [done|]. intros [[Hja Hr]|[Hjb Hr]]%sct_join_retraction.
    + apply sct_le_spec in Ha as [[_ Ha]|[Hn _]]; [by apply Ha|congruence].
    + apply sct_le_spec in Hb as [[_ Hb]|[Hn _]]; [by apply Hb|congruence].
  - split; [intros Hm; destruct (sct_meet_lower a b); split; by eapply le_trans|]. intros [Ha Hb].
    pose proof (sct_le_time _ _ Ha) as Hta. pose proof (sct_le_time _ _ Hb) as Htb.
    assert (Hm : less_equal (sct_time c) (meet (sct_time a) (sct_time b)) = true) by (by apply meet_glb).
    apply sct_le_spec. rewrite ?sct_time_meet.
    destruct (decide (sct_time c = meet (sct_time a) (sct_time b))) as [He|He]; [left|by right].
    split; [done|]. intros Hr. apply sct_meet_retraction. split; intros Hq.
    + apply sct_le_spec in Ha as [[_ Ha]|[Hn _]]; [by apply Ha|congruence].
    + apply sct_le_spec in Hb as [[_ Hb]|[Hn _]]; [by apply Hb|congruence].
Qed.
End self_compaction_laws.

Section self_compaction_summary.
Context {T S : Type} `{PartialOrder T, EqDecision T, !PartialOrderLaws T, PathSummary S T, !PathSummaryLaws S T}.
Implicit Types (s : SelfCompactionTime S) (t u : SelfCompactionTime T).

Lemma sct_results_in s t t' :
  results_in s t = Some t' ↔
  results_in (sct_time s) (sct_time t) = Some (sct_time t') ∧
  sct_retraction t' = sct_retraction s || sct_retraction t.
Proof. destruct t' as [x r]. cbn. rewrite bind_Some. naive_solver. Qed.

Lemma sct_results_in_ge s t t' : results_in s t = Some t' → less_equal t t' = true.
Proof.
  intros [Ht Hr]%sct_results_in. apply results_in_ge in Ht. apply sct_le_spec.
  destruct (decide (sct_time t = sct_time t')); [left|by right].
  split; [done|]. intros Hrt. rewrite Hr, Hrt. apply orb_true_r.
Qed.
(** A summary that marks a retraction strictly advances original times. *)
Lemma sct_retraction_advances s t t' :
  sct_retraction s = true → sct_retraction t = false → results_in s t = Some t' → less_than t t' = true.
Proof.
  intros Hs Ht Hres. apply less_than_spec. split; [by eapply sct_results_in_ge|].
  apply sct_results_in in Hres as [_ Hr]. intros <-. rewrite Hs, Ht in Hr. done.
Qed.
Lemma sct_results_in_mono s t1 t2 u1 u2 :
  results_in s t1 = Some u1 → results_in s t2 = Some u2 → less_equal t1 t2 = true → less_equal u1 u2 = true.
Proof.
  intros [H1 Hr1]%sct_results_in [H2 Hr2]%sct_results_in. rewrite !sct_le_spec.
  intros [[He Hr]|[Hn Hle]].
  - left. rewrite He in H1. split; [congruence|]. rewrite Hr1, Hr2, !orb_true_iff. naive_solver.
  - right. assert (Hlt : less_than (sct_time t1) (sct_time t2) = true) by (by apply less_than_spec).
    apply (results_in_mono _ _ _ _ _ H1 H2), less_than_spec in Hlt as [? ?]. done.
Qed.
Lemma sct_followed_by_results_in s1 s2 t :
  (s ← followed_by s1 s2; results_in s t) = (t' ← results_in s1 t; results_in s2 t').
Proof.
  cbn. pose proof (followed_by_results_in (sct_time s1) (sct_time s2) (sct_time t)) as Hf. revert Hf.
  destruct (followed_by (sct_time s1) (sct_time s2)), (results_in (sct_time s1) (sct_time t)); cbn;
    try (intros ->; cbn); try (intros <-; cbn); try done.
  destruct (results_in _ _); cbn; [|done]. f_equal. f_equal.
  destruct (sct_retraction s1), (sct_retraction s2), (sct_retraction t); done.
Qed.
End self_compaction_summary.

(** ** Properties *)

(** For every lawful time type, [SelfCompactionTime] over it is a partial
    order with the least element [original minimum], and its [join] and [meet]
    are least upper and greatest lower bounds, also where the underlying times
    are incomparable. *)
Theorem self_compaction_time_lattice
    `{PartialOrder T, EqDecision T, !PartialOrderLaws T, Lattice T, !LatticeLaws T, TimestampTrait T, !MinimumLaw T}
    (a b c : SelfCompactionTime T) :
  less_equal a a = true ∧
  (less_equal a b = true → less_equal b a = true → a = b) ∧
  (less_equal a b = true → less_equal b c = true → less_equal a c = true) ∧
  less_equal minimum a = true ∧
  (less_equal (join a b) c = true ↔ less_equal a c = true ∧ less_equal b c = true) ∧
  (less_equal c (meet a b) = true ↔ less_equal c a = true ∧ less_equal c b = true).
Proof.
  split_and!; [apply le_refl|apply le_antisym|apply le_trans| |apply join_lub|apply meet_glb].
  apply sct_le_spec. destruct (decide (sct_time (minimum : SelfCompactionTime T) = sct_time a)); [left|right].
  - done.
  - split; [done|]. apply minimum_le.
Qed.

(** path summaries of [SelfCompactionTime] are sound for timely: they never
    move a time back, preserve the order, compose, and agree with the outer
    summary when a time leaves the scope; the retraction summary of the feedback
    edge moves every original time strictly forward, even with a zero step. *)
Theorem self_compaction_summary_sound
    {T S : Type} `{PartialOrder T, EqDecision T, !PartialOrderLaws T, PathSummary S T, !PathSummaryLaws S T}
    (s s' : SelfCompactionTime S) (t t1 : SelfCompactionTime T) :
  (∀ u, results_in s t = Some u → less_equal t u = true) ∧
  (∀ u u1, results_in s t = Some u → results_in s t1 = Some u1 → less_equal t t1 = true → less_equal u u1 = true) ∧
  (r ← followed_by s s'; results_in r t) = (u ← results_in s t; results_in s' u) ∧
  sct_to_outer <$> results_in s t = results_in (sct_summarize s) (sct_to_outer t) ∧
  (∀ step u, results_in (retraction step) (original (sct_time t)) = Some u → less_than (original (sct_time t)) u = true).
Proof.
  split_and!.
  - apply sct_results_in_ge.
  - intros u u1. apply sct_results_in_mono.
  - apply sct_followed_by_results_in.
  - unfold sct_to_outer, sct_summarize. cbn [results_in SCT_PathSummary].
    by destruct (results_in (sct_time s) (sct_time t)).
  - intros step u. by apply sct_retraction_advances.
Qed.

(** Advancing a total frontier only turns pending times into done ones: a
    time is done exactly when [At] it lies strictly before the frontier, so
    everything done at a frontier is done at a later one, and no time is pending
    once the frontier is [Done]. *)
Theorem total_frontier_monotone (f g : TotalFrontier Timestamp) (t : Timestamp) :
  (is_time_done f t = true ↔ cmp (At t) f = Lt) ∧
  (cmp f g ≠ Gt → is_time_done f t = true → is_time_done g t = true) ∧
  (is_done f = true → is_time_pending f t = false).
Proof.
  assert (Hd : ∀ f, is_time_done f t = true ↔ cmp (At t) f = Lt).
  { intros [u|]; [|done]. unfold is_time_done. rewrite less_than_spec.
    unfold less_equal, Timestamp_PartialOrder, cmp, TotalFrontier_ord, cmp, Timestamp_ord, cmp, Z_ord.
    rewrite N.leb_le, Z.compare_lt_iff. destruct t as [x], u as [y]; cbn. split.
    - intros [Hle Hne]. assert (x ≠ y) by congruence. lia.
    - intros Hlt. split; [lia|]. intros [= ->]. lia. }
  split_and!; [apply Hd| |].
  - rewrite !Hd. intros Hfg Hf. by eapply cmp_lt_le_trans.
  - by destruct f.
Qed.

(** ** The properties at concrete inputs *)

Lemma self_compaction_time_lattice_witness :
  less_equal (join (original (mk_Timestamp 2)) (retraction (mk_Timestamp 2))) (retraction (mk_Timestamp 2)) = true.
Proof.
  destruct (self_compaction_time_lattice (original (mk_Timestamp 2)) (retraction (mk_Timestamp 2))
    (retraction (mk_Timestamp 2))) as (_ & _ & _ & _ & Hj & _).
  apply Hj. split; reflexivity.
Defined.
Lemma self_compaction_summary_sound_witness :
  less_than (original (mk_Timestamp 4)) (retraction (mk_Timestamp 4)) = true.
Proof.
  destruct (self_compaction_summary_sound (retraction epsilon) (retraction epsilon)
    (original (mk_Timestamp 4)) (original (mk_Timestamp 5))) as (_ & _ & _ & _ & Hs).
  apply (Hs (mk_Summary 0)). reflexivity.
Defined.
Lemma total_frontier_monotone_witness :
  is_time_done (At (mk_Timestamp 7)) (mk_Timestamp 2) = true.
Proof.
  destruct (total_frontier_monotone (At (mk_Timestamp 5)) (At (mk_Timestamp 7)) (mk_Timestamp 2))
    as (_ & Hm & _).
  apply Hm; [discriminate|reflexivity].
Defined.
