(* ===== verification/TimeColumn.v ===== *)
(** Operators that follow a time column (src/engine/dataflow/operators:
    time_column.rs, utils.rs) and the stateful reduction (stateful_reduce.rs,
    with the reducers of dataflow.rs that use it).

    An operator is modelled as the function its closure computes on the batches
    of one invocation, from the state it keeps to the new state and the records
    it gives to its output sessions.  A batch is given in the order in which its
    cursor visits it. *)
From Stdlib Require Import ZArith Lia Bool.
From stdpp Require Import base list strings gmap sorting.
From S2P Require Import Prelude Order Data Value Reduce Timestamp.
Open Scope Z_scope.

(** [[&a, &b].into_iter().flatten().max()]. *)
Definition omax `{Ord A} (a b : option A) : option A :=
  iter_max (omap id [a; b]).

(** ** [batch_by_time] *)

Section batch_by_time.
Context {K V T R O : Type} `{Ord T}.

(** [BTreeMap<T, Vec<O>>] as the sorted list of its entries; pushing to the
    vector of a time, created when missing. *)
Fixpoint btree_push (time : T) (o : O) (ret : list (T * list O)) : list (T * list O) :=
  match ret with
  | [] => [(time, [o])]
  | (t, os) :: rest =>
      match cmp time t with
      | Eq => (t, os ++ [o]) :: rest
      | Lt => (time, [o]) :: ret
      | Gt => (t, os) :: btree_push time o rest
      end
  end.
Definition batch_by_time (input : list (list (K * V * T * R))) (logic : K → V → T → R → O)
    : list (T * list O) :=
  foldl (λ ret u, let '(key, val, time, diff) := u in btree_push time (logic key val time diff) ret)
    [] (concat input).
End batch_by_time.

(** ** [ignore_late] (and [freeze]) *)

Section ignore_late.
Context {K V T CT R : Type} `{Ord T, Ord CT}.
Context (threshold_time_extractor current_time_extractor : V → CT).
Implicit Types (max_column_time : option CT).

Definition Record_ : Type := (K * V) * T * R.

(** The test that lets a record through. *)
Definition in_time max_column_time (val : V) : bool :=
  match max_column_time with
  | None => true
  | Some m => ord_ltb m (threshold_time_extractor val)
  end.

(** The loop over the records of one time. *)
Fixpoint ignore_late_group max_column_time (data : list Record_) (future_max_column_time : option CT)
    (out late : list Record_) : list Record_ * list Record_ * option CT :=
  match data with
  | [] => (out, late, future_max_column_time)
  | (((key, val), time, weight) as r) :: data =>
      let future := omax future_max_column_time (Some (current_time_extractor val)) in
      if in_time max_column_time val
      then ignore_late_group max_column_time data future (out ++ [r]) late
      else ignore_late_group max_column_time data future out (late ++ [r])
  end.
Fixpoint ignore_late_groups max_column_time (grouped : list (T * list Record_)) (out late : list Record_)
    : list Record_ * list Record_ * option CT :=
  match grouped with
  | [] => (out, late, max_column_time)
  | (_, data) :: grouped =>
      let '(out, late, future) := ignore_late_group max_column_time data None out late in
      ignore_late_groups (omax max_column_time future) grouped out late
  end.
(** One message of the input: a list of batches of [((key, val), (), time, diff)]. *)
Definition ignore_late_message max_column_time (batches : list (list ((K * V) * unit * T * R)))
    : list Record_ * list Record_ * option CT :=
  ignore_late_groups max_column_time
    (batch_by_time batches (λ key_val _ time diff, (key_val, time, diff))) [] [].
End ignore_late.

(** ** [postpone_core]: the buffer of records waiting for their threshold *)

(** differential's [Semigroup]. *)
Class Semigroup (R : Type) := { plus_equals : R → R → R; is_zero : R → bool }.

Record TimeKey (CT K : Type) := mk_TimeKey { tk_time : CT; tk_key : K }.
Arguments mk_TimeKey {CT K} _ _.
Arguments tk_time {CT K} _.
Arguments tk_key {CT K} _.
Global Instance TimeKey_ord `{Ord CT, Ord K} : Ord (TimeKey CT K) := λ a b,
  cmp (tk_time a, tk_key a) (tk_time b, tk_key b).
Global Instance TimeKey_ord_laws `{OrdLaws CT, OrdLaws K} : OrdLaws (TimeKey CT K).
Proof. by apply (ord_laws_via (λ a, (tk_time a, tk_key a))). Qed.

Section postpone.
Context {OT CT K V R : Type} `{Ord OT, Ord CT, Ord K, Semigroup R}.
Context (threshold_time_extractor current_time_extractor : V → CT).

Definition OTime : Type := SelfCompactionTime OT.
Global Instance OTime_ord : Ord OTime := λ a b,
  cmp (sct_time a, sct_retraction a) (sct_time b, sct_retraction b).

(** The arrangement of the input: keys in order, values with their weights. *)
Definition Trace : Type := list (TimeKey CT K * list (V * list (OTime * R))).

(** [prepend_time_to_key]. *)
Definition prepend_time_to_key (k : K) (v : V) : TimeKey CT K * V :=
  (mk_TimeKey (threshold_time_extractor v) k, v).

(** [key_val_total_weight]. *)
Definition key_val_total_weight (times : list (OTime * R)) : option R :=
  foldl (λ ret td, match ret with None => Some (snd td) | Some r => Some (plus_equals r (snd td)) end)
    None times.

(** A record given to the output, with the arrangement key it comes from: one
    that was late for buffering, or one released from the arrangement. *)
Inductive Emitted :=
| ELate (key : TimeKey CT K) (val : V) (time : OTime) (diff : R)
| EReleased (key : TimeKey CT K) (val : V) (time : OTime) (weight : R).
Definition emitted_record (e : Emitted) : (K * V) * OTime * R :=
  match e with ELate k v t d | EReleased k v t d => ((tk_key k, v), t, d) end.

(** [push_key_values_to_output]. *)
Definition push_key_values_to_output (tk : TimeKey CT K) (vals : list (V * list (OTime * R)))
    (time : OTime) : list Emitted :=
  omap (λ vt, match key_val_total_weight (snd vt) with
              | Some weight => if negb (is_zero weight) then Some (EReleased tk (fst vt) time weight) else None
              | None => None
              end) vals.

(** [move_cursor_to_key]: the keys from the cursor on. *)
Fixpoint seek_key (trace : Trace) (key : TimeKey CT K) : Trace :=
  match trace with
  | [] => []
  | (tk, vals) :: rest => if ord_ltb tk key then seek_key rest key else trace
  end.
Definition move_cursor_to_key (trace : Trace) (key : option (TimeKey CT K)) : Trace :=
  match key with
  | None => trace
  | Some key =>
      match seek_key trace key with
      | (tk, vals) :: rest => if ord_eqb tk key then rest else (tk, vals) :: rest
      | [] => []
      end
  end.

(** The scan of the arrangement up to the release threshold. *)
Fixpoint release_loop (cursor : Trace) (threshold : CT) (time : OTime)
    (local_last : option (TimeKey CT K)) : list Emitted * option (TimeKey CT K) :=
  match cursor with
  | [] => ([], local_last)
  | (tk, vals) :: rest =>
      if ord_ltb threshold (tk_time tk) then ([], local_last)
      else let '(out, last) := release_loop rest threshold time (Some tk) in
           (push_key_values_to_output tk vals time ++ out, last)
  end.

Record PostponeState := mk_PostponeState {
  already_released_column_time : option CT;
  release_threshold_column_time : option CT;
  last_arrangement_key : option (TimeKey CT K)
}.

Definition is_late (st : PostponeState) (key : TimeKey CT K) : bool :=
  match already_released_column_time st with
  | Some a => ord_leb (tk_time key) a
  | None => false
  end.

(** The loop over the entries of one time. *)
Fixpoint postpone_entries (st : PostponeState) (trace : Trace) (time : OTime)
    (entries : list (TimeKey CT K * V * R)) (future : option CT) (local_last : option (TimeKey CT K))
    : list Emitted * option CT * option (TimeKey CT K) :=
  match entries with
  | [] => ([], future, local_last)
  | (key, val, diff) :: entries =>
      let future := omax future (Some (current_time_extractor val)) in
      let '(out1, local_last) :=
        if is_late st key then ([ELate key val time diff], omax local_last (Some key))
        else ([], local_last) in
      let '(out2, local_last) :=
        match release_threshold_column_time st with
        | Some threshold => release_loop (move_cursor_to_key trace local_last) threshold time local_last
        | None => ([], local_last)
        end in
      let '(out3, future, local_last) := postpone_entries st trace time entries future local_last in
      (out1 ++ out2 ++ out3, future, local_last)
  end.
Definition postpone_group (st : PostponeState) (trace : Trace) (time : OTime)
    (entries : list (TimeKey CT K * V * R)) : list Emitted * PostponeState :=
  if sct_retraction time then ([], st)
  else
    let '(out, future, local_last) :=
      postpone_entries st trace time entries None (last_arrangement_key st) in
    (out, mk_PostponeState (release_threshold_column_time st)
            (omax (release_threshold_column_time st) future) local_last).
Fixpoint postpone_groups (st : PostponeState) (trace : Trace)
    (grouped : list (OTime * list (TimeKey CT K * V * R))) : list Emitted * PostponeState :=
  match grouped with
  | [] => ([], st)
  | (time, entries) :: grouped =>
      let '(out1, st) := postpone_group st trace time entries in
      let '(out2, st) := postpone_groups st trace grouped in
      (out1 ++ out2, st)
  end.
Definition postpone_message (st : PostponeState) (trace : Trace)
    (batches : list (list (TimeKey CT K * V * OTime * R))) : list Emitted * PostponeState :=
  postpone_groups st trace (batch_by_time batches (λ key val _ diff, (key, val, diff))).

(** At the end of the input, with [flush_on_end]: everything still buffered. *)
Definition postpone_flush (st : PostponeState) (trace : Trace) (cap_time : OTime) : list Emitted :=
  concat (map (λ kv, push_key_values_to_output (fst kv) (snd kv) cap_time)
    (move_cursor_to_key trace (last_arrangement_key st))).
End postpone.

(** ** [forget]: the retractions leave at the odd ("neu") time after theirs *)

Definition neu_time (time : Timestamp) : Timestamp := mk_Timestamp (ts_0 time + 1).
Definition assert_original_time (time : Timestamp) : DynResult Timestamp :=
  if (ts_0 time mod 2 =? 0)%N then Ok time else Panic "Neu time encountered at forget() input.".
Definition forget_output {D R} (mark_forgetting_records : bool) (forgetting : list (D * Timestamp * R))
    : DynResult (list (D * Timestamp * R)) :=
  if mark_forgetting_records
  then try_collect (λ r, let '(d, time, diff) := r in
         t ← assert_original_time time; Ok (d, neu_time t, diff)) forgetting
  else Ok forgetting.

(** ** [stateful_reduce_named] *)

Section stateful_reduce.
Context {K V V2 T : Type} `{Countable K, Ord T}.
Context (V2_eqb : V2 → V2 → bool).
Context (logic : option V2 → list (V * Z) → DynResult (option V2)).

Definition option_eqb (a b : option V2) : bool :=
  match a, b with
  | Some a, Some b => V2_eqb a b
  | None, None => true
  | _, _ => false
  end.
Definition SOut : Type := (K * V2) * T * Z.

(** [data_by_time]. *)
Definition data_by_time (vals : list (V * list (T * Z))) : list (T * list (V * Z)) :=
  foldl (λ m vt, foldl (λ m td, btree_push (fst td) (fst vt, snd td) m) m (snd vt)) [] vals.

Fixpoint stateful_times (key : K) (state : option V2) (data : list (T * list (V * Z)))
    : DynResult (list SOut * option V2) :=
  match data with
  | [] => Ok ([], state)
  | (time, data_at) :: data =>
      new_state ← logic state data_at;
      if option_eqb new_state state then stateful_times key state data
      else
        ' (out, final) ← stateful_times key new_state data;
        Ok (match state with Some s => [((key, s), time, -1)] | None => [] end ++
            match new_state with Some s => [((key, s), time, 1)] | None => [] end ++ out, final)
  end.
Definition stateful_key (state_by_key : gmap K V2) (key : K) (vals : list (V * list (T * Z)))
    : DynResult (list SOut * gmap K V2) :=
  ' (out, final) ← stateful_times key (state_by_key !! key) (data_by_time vals);
  Ok (out, match final with
           | Some s => <[key := s]> (delete key state_by_key)
           | None => delete key state_by_key
           end).
(** A batch: the keys in order, each with its values. *)
Fixpoint stateful_batch (state_by_key : gmap K V2) (batch : list (K * list (V * list (T * Z))))
    : DynResult (list SOut * gmap K V2) :=
  match batch with
  | [] => Ok ([], state_by_key)
  | (key, vals) :: batch =>
      ' (out1, state_by_key) ← stateful_key state_by_key key vals;
      ' (out2, state_by_key) ← stateful_batch state_by_key batch;
      Ok (out1 ++ out2, state_by_key)
  end.
End stateful_reduce.

(** ** The reducers built on it (dataflow.rs) *)

Definition row_contains_error (row : list Value) : bool := existsb (λ v, Value_eqb v VError) row.

(** [impl DataflowReducer for StatefulReducer]; an error of the user's function
    is logged. *)
Definition stateful_reducer_logic (combine_fn : option Value → list (list Value * Z) → DynResult (option Value))
    (state : option Value) (values : list (list Value * Z)) : DynResult (option Value) :=
  let contains_errors :=
    match state with Some v => Value_eqb v VError | None => false end ||
    existsb (λ rc, row_contains_error (fst rc)) values in
  if contains_errors then Ok (Some VError)
  else match combine_fn state values with
       | Err _ => Ok (Some VError)
       | r => r
       end.

Definition exactly_one (values : list Value) : DynResult Value :=
  match values with [v] => Ok v | _ => Panic "called `Result::unwrap()` on an `Err` value" end.
Definition keyed_row (what : string) (item : (Key * list Value) * Z) : DynResult (Key * Value) :=
  let '((key, values), diff) := item in
  if 0 <? diff then v ← exactly_one values; Ok (key, v)
  else Panic (String.append "deletion encountered in " what).

Definition latest_logic (state : option Value) (values : list ((Key * list Value) * Z))
    : DynResult (option Value) :=
  rows ← try_collect (keyed_row "latest reducer") values;
  match max_by_key fst rows with
  | Some (_, result_value) => Ok (Some result_value)
  | None => Panic "input values shouldn't be empty"
  end.
Definition earliest_logic (state : option Value) (values : list ((Key * list Value) * Z))
    : DynResult (option Value) :=
  match state with
  | Some s => Ok (Some s)
  | None =>
      rows ← try_collect (keyed_row "earliest reducer") values;
      match min_by_key fst rows with
      | Some (_, result_value) => Ok (Some result_value)
      | None => Panic "input values shouldn't be empty"
      end
  end.
