(* ===== verification/TimeColumnProps.v ===== *)
(** Properties of the time-column operators: which records [ignore_late] drops,
    when the buffer of [postpone_core] releases a record, and that the output of
    the stateful reduction always adds up to the state it keeps. *)
From Stdlib Require Import ZArith Lia Bool.
From stdpp Require Import base list strings gmap sorting.
From S2P Require Import Prelude Order Data Value Reduce Timestamp TimeColumn.
Open Scope Z_scope.

Lemma ord_ltb_spec `{Ord A} (x y : A) : ord_ltb x y = true ↔ cmp x y = Lt.
Proof. unfold ord_ltb. destruct (cmp x y); naive_solver. Qed.
Lemma ord_leb_ltb `{OrdLaws A} (x y : A) : ord_leb x y = negb (ord_ltb y x).
Proof. unfold ord_leb, ord_ltb. rewrite (cmp_antisym x y). by destruct (cmp x y). Qed.

(** ** Grouping by time *)

Section grouping.
Context `{OrdLaws T} {O : Type} (time_of : O → T).

Definition grouped_wf (G : list (T * list O)) : Prop :=
  StronglySorted (λ g1 g2, cmp (fst g1) (fst g2) = Lt) G ∧
  Forall (λ g, Forall (λ o, cmp (time_of o) (fst g) = Eq) (snd g)) G.

Lemma btree_push_in (time : T) (o : O) (G : list (T * list O)) g :
  g ∈ btree_push time o G → cmp time (fst g) = Eq ∨ ∃ g', g' ∈ G ∧ fst g' = fst g.
Proof.
  induction G as [|[t os] G IH]; cbn.
  - intros ->%list_elem_of_singleton. left. apply cmp_refl.
  - destruct (cmp time t) eqn:Hc.
    + intros [->|Hg]%elem_of_cons; [by left|]. right. exists g. by rewrite elem_of_cons; auto.
    + intros [->|Hg]%elem_of_cons; [left; apply cmp_refl|]. right. by exists g.
    + intros [->|Hg]%elem_of_cons; [right; exists (t, os); by rewrite elem_of_cons; auto|].
      destruct (IH Hg) as [?|(g' & Hg' & Heq)]; [by left|]. right. exists g'. by rewrite elem_of_cons; auto.
Qed.
Lemma btree_push_wf (o : O) (G : list (T * list O)) : grouped_wf G → grouped_wf (btree_push (time_of o) o G).
Proof.
  intros [Hs Hf]. unfold grouped_wf. induction G as [|[t os] G IH]; cbn.
  - split; [repeat constructor|]. repeat constructor. apply cmp_refl.
  - inversion Hs as [|? ? Hs' Hlt]; subst. apply Forall_cons in Hf as [Ht Hf].
    destruct (cmp (time_of o) t) eqn:Hc.
    + split; [by constructor|]. constructor; [|done]. cbn in *. apply Forall_app. by split; [|constructor].
    + split.
      * constructor; [done|]. constructor; [done|]. eapply Forall_impl; [exact Hlt|].
        intros g Hg. eapply cmp_lt_le_trans; [exact Hc|]. unfold ord_le. cbn in Hg. by rewrite Hg.
      * constructor; [repeat constructor; apply cmp_refl|]. by constructor.
    + destruct (IH Hs' Hf) as [Hs2 Hf2]. split; [|by constructor]. constructor; [done|].
      apply Forall_forall. intros g Hg. destruct (btree_push_in _ _ _ _ Hg) as [He|(g' & Hg' & <-)].
      * cbn. rewrite <- (cmp_eq_r _ _ t He), (cmp_antisym (time_of o) t), Hc. done.
      * rewrite Forall_forall in Hlt. by apply Hlt.
Qed.
Lemma btree_push_perm (time : T) (o : O) (G : list (T * list O)) :
  concat (map snd (btree_push time o G)) ≡ₚ o :: concat (map snd G).
Proof.
  induction G as [|[t os] G IH]; cbn; [done|]. destruct (cmp time t); cbn; [|done|].
  - by rewrite <- app_assoc, Permutation_middle.
  - by rewrite IH, Permutation_middle.
Qed.

Lemma batch_by_time_spec {K V R} (input : list (list (K * V * T * R))) (logic : K → V → T → R → O) :
  (∀ k v t d, time_of (logic k v t d) = t) →
  grouped_wf (batch_by_time input logic) ∧
  concat (map snd (batch_by_time input logic)) ≡ₚ
    map (λ u, let '(k, v, t, d) := u in logic k v t d) (concat input).
Proof.
  intros Ht. unfold batch_by_time. generalize (concat input). clear input. intros us.
  assert (Hgen : ∀ G, grouped_wf G →
    let G' := foldl (λ ret u, let '(key, val, time, diff) := u in btree_push time (logic key val time diff) ret) G us in
    grouped_wf G' ∧ concat (map snd G') ≡ₚ map (λ u, let '(k, v, t, d) := u in logic k v t d) us ++ concat (map snd G)).
  { induction us as [|[[[k v] t] d] us IH]; intros G HG; cbn; [done|].
    destruct (IH (btree_push t (logic k v t d) G)) as [Hw Hp].
    { rewrite <- (Ht k v t d) at 1. by apply btree_push_wf. }
    split; [done|]. rewrite Hp, btree_push_perm. by rewrite Permutation_middle. }
  destruct (Hgen []) as [Hw Hp]; [by repeat constructor|]. split; [done|].
  by rewrite Hp, app_nil_r.
Qed.
End grouping.

(** ** [ignore_late] *)

Section ignore_late_props.
Context {K V R : Type} `{OrdLaws T, OrdLaws CT}.
Context (thr cur : V → CT).
Implicit Types (m : option CT) (r : Record_ (K := K) (V := V) (T := T) (R := R)).

Definition rec_val r : V := snd (fst (fst r)).
Definition rec_time r : T := snd (fst r).
Definition before_threshold r' r : bool := ord_ltb (cur (rec_val r')) (thr (rec_val r)).

Lemma in_time_omax m1 m2 v : in_time thr (omax m1 m2) v = in_time thr m1 v && in_time thr m2 v.
Proof.
  destruct m1 as [a|], m2 as [b|]; cbn; rewrite ?andb_true_r; try done.
  destruct (cmp a b) eqn:Hab; unfold ord_ltb.
  - rewrite (cmp_eq_l _ _ (thr v) Hab). by destruct (cmp b (thr v)).
  - destruct (cmp b (thr v)) eqn:Hb; [..|].
    + by destruct (cmp a (thr v)).
    + assert (cmp a (thr v) = Lt) as ->; [|done]. eapply cmp_lt_le_trans; [exact Hab|]. unfold ord_le. by rewrite Hb.
    + by destruct (cmp a (thr v)).
  - destruct (cmp a (thr v)) eqn:Ha; [done| |done].
    assert (cmp b (thr v) = Lt) as ->; [|done]. eapply cmp_lt_le_trans.
    + rewrite (cmp_antisym a b), Hab. done.
    + unfold ord_le. by rewrite Ha.
Qed.

Lemma ignore_late_group_spec m data f out late :
  ∃ f', ignore_late_group thr cur m data f out late =
    (out ++ List.filter (λ r, in_time thr m (rec_val r)) data,
     late ++ List.filter (λ r, negb (in_time thr m (rec_val r))) data, f') ∧
    ∀ r, in_time thr f' (rec_val r) = in_time thr f (rec_val r) && forallb (λ r', before_threshold r' r) data.
Proof.
  revert f out late. induction data as [|[[[k v] t] w] data IH]; intros f out late; cbn [ignore_late_group List.filter forallb].
  - exists f. rewrite !app_nil_r. split; [done|]. intros r. by rewrite andb_true_r.
  - destruct (in_time thr m v) eqn:Hin; cbn [rec_val fst snd negb]; rewrite ?Hin; cbn [negb];
      match goal with |- context [ignore_late_group _ _ _ _ ?f ?o ?l] =>
        destruct (IH f o l) as (f' & -> & Hf) end;
      exists f'; rewrite <- ?app_assoc; (split; [done|]); intros r; rewrite Hf, in_time_omax;
      rewrite <- andb_assoc; done.
Qed.

(** What the operator guarantees on records [recs] from the state [m]. *)
Definition late_spec m (recs out late : list Record_) (m' : option CT) : Prop :=
  out ++ late ≡ₚ recs ∧
  (∀ r, r ∈ out → in_time thr m (rec_val r) = true ∧
     ∀ r', r' ∈ recs → cmp (rec_time r') (rec_time r) = Lt → before_threshold r' r = true) ∧
  (∀ r, r ∈ late → in_time thr m (rec_val r) = false ∨
     ∃ r', r' ∈ recs ∧ cmp (rec_time r') (rec_time r) = Lt ∧ before_threshold r' r = false) ∧
  (∀ r, in_time thr m' (rec_val r) = true ↔
     in_time thr m (rec_val r) = true ∧ ∀ r', r' ∈ recs → before_threshold r' r = true).

Lemma forallb_elem (P : Record_ → bool) l : forallb P l = true ↔ ∀ r, r ∈ l → P r = true.
Proof. rewrite forallb_forall. setoid_rewrite list_elem_of_In. done. Qed.
Lemma forallb_false_elem (P : Record_ → bool) l : forallb P l = false → ∃ r, r ∈ l ∧ P r = false.
Proof.
  induction l as [|x l IH]; cbn; [done|]. destruct (P x) eqn:Hx; cbn.
  - intros (r & ? & ?)%IH. exists r. by rewrite elem_of_cons; auto.
  - intros _. exists x. by rewrite elem_of_cons; auto.
Qed.
Lemma filter_elem (P : Record_ → bool) l r : r ∈ List.filter P l ↔ r ∈ l ∧ P r = true.
Proof. rewrite !list_elem_of_In. apply filter_In. Qed.
Lemma filter_perm (P : Record_ → bool) l :
  List.filter P l ++ List.filter (λ r, negb (P r)) l ≡ₚ l.
Proof.
  induction l as [|r l IH]; cbn; [done|]. destruct (P r); cbn; [by rewrite IH|].
  by rewrite <- Permutation_middle, IH.
Qed.

(** The first group: none of its records has an earlier one. *)
Lemma late_spec_first m t data f' :
  Forall (λ r, cmp (rec_time r) t = Eq) data →
  (∀ r, in_time thr f' (rec_val r) = forallb (λ r', before_threshold r' r) data) →
  late_spec m data (List.filter (λ r, in_time thr m (rec_val r)) data)
    (List.filter (λ r, negb (in_time thr m (rec_val r))) data) (omax m f').
Proof.
  intros Ht Hf. rewrite Forall_forall in Ht. unfold late_spec. split_and!.
  - apply filter_perm.
  - intros r [Hr Hin]%filter_elem. split; [done|]. intros r' Hr' Hlt.
    rewrite (cmp_eq_l _ _ _ (Ht r' Hr')), (cmp_antisym (rec_time r) t), (Ht r Hr) in Hlt. done.
  - intros r [_ Hin%negb_true_iff]%filter_elem. by left.
  - intros r. rewrite in_time_omax, andb_true_iff, Hf, forallb_elem. done.
Qed.

(** Later groups, processed from the state after the earlier ones. *)
Lemma late_spec_app m m1 m2 recs1 recs2 out1 late1 out2 late2 :
  (∀ r1 r2, r1 ∈ recs1 → r2 ∈ recs2 → cmp (rec_time r1) (rec_time r2) = Lt) →
  late_spec m recs1 out1 late1 m1 → late_spec m1 recs2 out2 late2 m2 →
  late_spec m (recs1 ++ recs2) (out1 ++ out2) (late1 ++ late2) m2.
Proof.
  intros Hlt (Hp1 & Ho1 & Hl1 & Hm1) (Hp2 & Ho2 & Hl2 & Hm2).
  assert (Hin1 : ∀ r, r ∈ out1 ∨ r ∈ late1 → r ∈ recs1) by (intros r; by rewrite <- Hp1, elem_of_app).
  assert (Hin2 : ∀ r, r ∈ out2 ∨ r ∈ late2 → r ∈ recs2) by (intros r; by rewrite <- Hp2, elem_of_app).
  unfold late_spec. split_and!.
  - rewrite <- Hp1, <- Hp2, <- !app_assoc. apply Permutation_app_head.
    rewrite !app_assoc. apply Permutation_app_tail, Permutation_app_comm.
  - intros r [Hr|Hr]%elem_of_app.
    + destruct (Ho1 r Hr) as [Hin Hb]. split; [done|]. intros r' [Hr'|Hr']%elem_of_app Hc; [by apply Hb|].
      assert (Hc' := Hlt r r' (Hin1 r (or_introl Hr)) Hr'). by rewrite (cmp_antisym (rec_time r)), Hc' in Hc.
    + destruct (Ho2 r Hr) as [Hin Hb]. apply Hm1 in Hin as [Hin Hall]. split; [done|].
      intros r' [Hr'|Hr']%elem_of_app Hc; [by apply Hall|by apply Hb].
  - intros r [Hr|Hr]%elem_of_app.
    + destruct (Hl1 r Hr) as [?|(r' & Hr' & ? & ?)]; [by left|]. right. exists r'. by rewrite elem_of_app; auto.
    + destruct (Hl2 r Hr) as [Hn|(r' & Hr' & ? & ?)].
      * destruct (in_time thr m (rec_val r)) eqn:Hm; [right|by left].
        destruct (forallb (λ r', before_threshold r' r) recs1) eqn:Hfa.
        { rewrite forallb_elem in Hfa. assert (in_time thr m1 (rec_val r) = true) by (by apply Hm1).
          congruence. }
        apply forallb_false_elem in Hfa as (r' & Hr' & Hb). exists r'. rewrite elem_of_app.
        split_and!; auto.
      * right. exists r'. by rewrite elem_of_app; auto.
  - intros r. rewrite Hm2, Hm1. setoid_rewrite elem_of_app. naive_solver.
Qed.

Lemma ignore_late_groups_spec m G out late :
  grouped_wf rec_time G →
  ∃ o l m', ignore_late_groups thr cur m G out late = (out ++ o, late ++ l, m') ∧
    late_spec m (concat (map snd G)) o l m'.
Proof.
  intros [Hs Hf]. revert m out late. induction G as [|[t data] G IH]; intros m out late; cbn.
  - exists [], [], m. rewrite !app_nil_r. split; [done|].
    unfold late_spec. split_and!; try (by intros r Hr%elem_of_nil); [done|].
    intros r. split; [|naive_solver]. intros ?. split; [done|]. by intros r' Hr'%elem_of_nil.
  - inversion Hs as [|? ? Hs' Hlt]; subst. apply Forall_cons in Hf as [Ht Hf].
    destruct (ignore_late_group_spec m data None out late) as (f' & -> & Hf').
    destruct (IH Hs' Hf (omax m f') (out ++ List.filter (λ r, in_time thr m (rec_val r)) data)
      (late ++ List.filter (λ r, negb (in_time thr m (rec_val r))) data)) as (o & l & m' & -> & Hspec).
    do 3 eexists. rewrite <- !app_assoc. split; [reflexivity|].
    eapply late_spec_app; [|by apply (late_spec_first m t)|exact Hspec].
    intros r1 r2 Hr1 Hr2. pose proof (proj1 (Forall_forall _ _) Hlt) as Hlt'.
    rewrite Forall_forall in Ht. rewrite Forall_forall in Hf.
    apply list_elem_of_In, in_concat in Hr2 as (d & Hd%in_map_iff & Hr2%list_elem_of_In).
    destruct Hd as (g & <- & Hg%list_elem_of_In). specialize (Hlt' g Hg). specialize (Hf g Hg).
    rewrite Forall_forall in Hf. cbn in Hlt', Ht.
    rewrite (cmp_eq_l _ _ _ (Ht r1 Hr1)), (cmp_eq_r _ _ t (Hf r2 Hr2)). done.
Qed.
End ignore_late_props.

(** ** The stateful reduction: the output adds up to the state *)

Section stateful_props.
Context {K V V2 T : Type} `{Countable K, Ord T, EqDecision V2}.
Context (V2_eqb : V2 → V2 → bool).
Context (logic : option V2 → list (V * Z) → DynResult (option V2)).

(** The net multiplicity of a pair in the output. *)
Definition net (k : K) (v : V2) (out : list (SOut (K := K) (V2 := V2) (T := T))) : Z :=
  foldr (λ o acc, (if decide (fst (fst o) = (k, v)) then snd o else 0) + acc) 0 out.
Definition holds (s : option V2) (v : V2) : Z := if decide (s = Some v) then 1 else 0.

Lemma net_app k v o1 o2 : net k v (o1 ++ o2) = net k v o1 + net k v o2.
Proof. unfold net. induction o1 as [|o o1 IH]; cbn; [done|]. rewrite IH. lia. Qed.

Lemma stateful_times_net key state data out final :
  stateful_times V2_eqb logic key state data = Ok (out, final) →
  ∀ k v, net k v out = if decide (k = key) then holds final v - holds state v else 0.
Proof.
  revert state out. induction data as [|[time d] data IH]; intros state out; cbn [stateful_times].
  - intros [= <- <-] k v. cbn. case_decide; lia.
  - intros (new & _ & Hr)%bind_ok. destruct (option_eqb V2_eqb new state); [by apply IH|].
    apply bind_ok in Hr as ([out' fin] & Hr & [= <- <-]). intros k v.
    rewrite !net_app, (IH _ _ Hr). clear IH Hr. unfold holds.
    destruct state as [s|], new as [n|]; cbn; repeat case_decide; simplify_eq; try lia; naive_solver.
Qed.

Lemma stateful_key_net st key vals out st' :
  stateful_key V2_eqb logic st key vals = Ok (out, st') →
  ∀ k v, net k v out = holds (st' !! k) v - holds (st !! k) v.
Proof.
  unfold stateful_key. intros ([o final] & Hr & [= <- <-])%bind_ok k v.
  rewrite (stateful_times_net _ _ _ _ _ Hr). case_decide as Hk.
  - subst k. f_equal. destruct final; [by rewrite lookup_insert_eq|by rewrite lookup_delete_eq].
  - destruct final; rewrite ?lookup_insert_ne, lookup_delete_ne by done; lia.
Qed.

Lemma stateful_batch_net st batch out st' :
  stateful_batch V2_eqb logic st batch = Ok (out, st') →
  ∀ k v, net k v out = holds (st' !! k) v - holds (st !! k) v.
Proof.
  revert st out. induction batch as [|[key vals] batch IH]; intros st out; cbn [stateful_batch].
  - intros [= <- <-] k v. cbn. lia.
  - intros ([o1 st1] & H1 & Hr)%bind_ok k v. apply bind_ok in Hr as ([o2 st2] & H2 & [= <- <-]).
    rewrite net_app, (stateful_key_net _ _ _ _ _ H1), (IH _ _ H2). lia.
Qed.
End stateful_props.

(** ** The buffer *)

Section postpone_props.
Context {OT CT K V R : Type} `{Ord OT, OrdLaws CT, OrdLaws K, Semigroup R}.
Context (current_time_extractor : V → CT).
Abbreviation Trace := (Trace (OT := OT) (CT := CT) (K := K) (V := V) (R := R)).
Abbreviation TK := (TimeKey CT K).

Definition sorted_trace (trace : Trace) : Prop :=
  StronglySorted (λ a b, cmp (fst a) (fst b) = Lt) trace.
Definition above (last : option TK) (tk : TK) : Prop :=
  match last with None => True | Some l => cmp l tk = Lt end.
Definition covers (last : option TK) (tk : TK) : Prop :=
  match last with None => False | Some l => ord_le tk l end.

Lemma TimeKey_cmp (a b : TK) : cmp a b = then_cmp (cmp (tk_time a) (tk_time b)) (cmp (tk_key a) (tk_key b)).
Proof. exact (pair_cmp (tk_time a, tk_key a) (tk_time b, tk_key b)). Qed.
Lemma time_le_of_key_le (a b : TK) : ord_le a b → ord_le (tk_time a) (tk_time b).
Proof. unfold ord_le. rewrite TimeKey_cmp. by destruct (cmp (tk_time a) (tk_time b)). Qed.
Lemma key_lt_of_time_lt (a b : TK) : cmp (tk_time a) (tk_time b) = Lt → cmp a b = Lt.
Proof. rewrite TimeKey_cmp. by intros ->. Qed.

(** The cursor moves to exactly the keys after the given one. *)
Lemma seek_key_elem (trace : Trace) key x :
  sorted_trace trace → x ∈ seek_key trace key ↔ x ∈ trace ∧ ord_le key (fst x).
Proof.
  intros Hs. induction Hs as [|[tk vals] rest Hs IH Hlt]; cbn [seek_key]; [by rewrite elem_of_nil; naive_solver|].
  destruct (ord_ltb tk key) eqn:Hk.
  - apply ord_ltb_spec in Hk. rewrite IH, elem_of_cons. split; [naive_solver|].
    intros [[->|Hx] Hle]; [|done]. by apply cmp_lt_iff in Hk.
  - assert (ord_le key tk) as Hle.
    { unfold ord_le. rewrite (cmp_antisym tk key). unfold ord_ltb in Hk. by destruct (cmp tk key). }
    split; [|by intros []]. intros Hx. split; [done|]. apply elem_of_cons in Hx as [->|Hx]; [done|].
    rewrite Forall_forall in Hlt. etrans; [exact Hle|]. unfold ord_le. specialize (Hlt x Hx). cbn in Hlt.
    by rewrite Hlt.
Qed.
Lemma seek_key_sorted (trace : Trace) key : sorted_trace trace → sorted_trace (seek_key trace key).
Proof.
  intros Hs. induction Hs as [|[tk vals] rest Hs IH Hlt]; cbn [seek_key]; [constructor|].
  destruct (ord_ltb tk key); [done|]. by constructor.
Qed.
Lemma move_cursor_sorted (trace : Trace) last :
  sorted_trace trace → sorted_trace (move_cursor_to_key trace last).
Proof.
  intros Hs. destruct last as [l|]; [|done]. cbn. pose proof (seek_key_sorted trace l Hs) as Hk.
  destruct (seek_key trace l) as [|[tk vals] rest]; [done|].
  destruct (ord_eqb tk l); [|done]. by inversion Hk.
Qed.
Lemma move_cursor_elem (trace : Trace) last x :
  sorted_trace trace → x ∈ move_cursor_to_key trace last ↔ x ∈ trace ∧ above last (fst x).
Proof.
  intros Hs. destruct last as [l|]; [|cbn; naive_solver]. unfold move_cursor_to_key, above.
  pose proof (seek_key_elem trace l x Hs) as Hx. pose proof (seek_key_sorted trace l Hs) as Hss.
  pose proof (seek_key_elem trace l) as Hall.
  destruct (seek_key trace l) as [|[tk vals] rest].
  - split; [by intros Hn%elem_of_nil|]. intros [Hin Hlt]. apply Hx. split; [done|]. unfold ord_le. by rewrite Hlt.
  - assert (Hle : ord_le l tk) by (apply (Hall (tk, vals) Hs); by rewrite elem_of_cons; left).
    inversion Hss as [|? ? Hrest Hlt]; subst. rewrite Forall_forall in Hlt.
    destruct (ord_eqb tk l) eqn:He.
    + assert (Heq : cmp tk l = Eq) by (unfold ord_eqb in He; by destruct (cmp tk l)).
      split.
      * intros Hr. split; [apply Hx; by rewrite elem_of_cons; right|].
        specialize (Hlt x Hr). cbn in Hlt. by rewrite <- (cmp_eq_l _ _ _ Heq).
      * intros [Hin Hl]. assert (Hc : x ∈ (tk, vals) :: rest) by (apply Hx; split; [done|unfold ord_le; by rewrite Hl]).
        apply elem_of_cons in Hc as [->|]; [|done]. cbn in Hl. by rewrite (cmp_antisym tk l), Heq in Hl.
    + assert (Hlt' : cmp l tk = Lt).
      { unfold ord_le in Hle. unfold ord_eqb in He. rewrite (cmp_antisym l tk) in He.
        by destruct (cmp l tk). }
      rewrite Hx. split; [|intros [Hin Hl]; split; [done|unfold ord_le; by rewrite Hl]].
      intros [Hin Hl]. split; [done|]. assert (Hc : x ∈ (tk, vals) :: rest) by (by apply Hx).
      apply elem_of_cons in Hc as [->|Hc]; [done|]. eapply cmp_lt_le_trans; [exact Hlt'|].
      unfold ord_le. specialize (Hlt x Hc). cbn in Hlt. by rewrite Hlt.
Qed.

(** The order of the "last key" positions. *)
Definition ole (a b : option TK) : Prop :=
  match a, b with None, _ => True | Some x, Some y => ord_le x y | Some _, None => False end.
Lemma ole_refl a : ole a a.
Proof. destruct a; cbn; [reflexivity|done]. Qed.
Lemma ole_trans a b c : ole a b → ole b c → ole a c.
Proof. destruct a, b, c; cbn; try done. apply cmp_trans. Qed.
Lemma above_ole a b tk : ole a b → above b tk → above a tk.
Proof.
  destruct a as [x|], b as [y|]; cbn; try done. intros Hle Hlt. apply cmp_lt_iff. intros Hge.
  apply cmp_lt_iff in Hlt. apply Hlt. by etrans.
Qed.
Lemma covers_ole a b tk : ole a b → covers a tk → covers b tk.
Proof. destruct a, b; cbn; try done. intros. by etrans. Qed.
Lemma omax_ole a b : ole a (omax a b) ∧ ole b (omax a b).
Proof.
  destruct a as [x|], b as [y|]; cbn; try by split; [|reflexivity].
  - destruct (cmp x y) eqn:Hc; cbn; split; try reflexivity; unfold ord_le; rewrite ?Hc; try done.
    by rewrite (cmp_antisym x y), Hc.
Qed.
Lemma above_omax a b tk : above a tk → above b tk → above (omax a b) tk.
Proof. destruct a as [x|], b as [y|]; cbn; try done. by destruct (cmp x y). Qed.

(** What is released, and that it is all. *)
Definition releasable (cursor : Trace) (thr : CT) (time : OTime (OT := OT)) (tk : TK) (e : Emitted) : Prop :=
  ∃ vals, (tk, vals) ∈ cursor ∧ e ∈ push_key_values_to_output tk vals time ∧ ord_le (tk_time tk) thr.

Lemma release_loop_spec (cursor : Trace) thr time last out last' :
  sorted_trace cursor → (∀ x, x ∈ cursor → above last (fst x)) →
  release_loop cursor thr time last = (out, last') →
  ole last last' ∧
  (∀ e, e ∈ out → ∃ tk, releasable cursor thr time tk e ∧ covers last' tk) ∧
  (∀ tk e, releasable cursor thr time tk e → e ∈ out).
Proof.
  intros Hs. revert last out. induction Hs as [|[tk vals] rest Hs IH Hlt]; intros last out Hab; cbn [release_loop].
  - intros [= <- <-]. split_and!; [apply ole_refl|by intros e He%elem_of_nil|].
    intros tk e (vals & Hin%elem_of_nil & _). done.
  - rewrite Forall_forall in Hlt. destruct (ord_ltb thr (tk_time tk)) eqn:Hthr.
    + apply ord_ltb_spec in Hthr. intros [= <- <-]. split_and!; [apply ole_refl|by intros e He%elem_of_nil|].
      intros tk' e (vals' & Hin & _ & Hle). exfalso. apply cmp_lt_iff in Hthr. apply Hthr.
      apply elem_of_cons in Hin as [[= -> ->]|Hin]; [done|]. etrans; [|exact Hle].
      apply time_le_of_key_le. unfold ord_le. specialize (Hlt _ Hin). cbn in Hlt. by rewrite Hlt.
    + destruct (release_loop rest thr time (Some tk)) as [out' last''] eqn:Hr. intros [= <- <-].
      destruct (IH (Some tk) out') as (Hole & Hout & Hall); [intros x Hx; exact (Hlt x Hx)|done|].
      assert (Hle : ord_le (tk_time tk) thr).
      { unfold ord_le. rewrite (cmp_antisym thr). unfold ord_ltb in Hthr. by destruct (cmp thr (tk_time tk)). }
      split_and!.
      * eapply ole_trans; [|exact Hole]. specialize (Hab (tk, vals) ltac:(by rewrite elem_of_cons; left)).
        destruct last; cbn in *; [|done]. unfold ord_le. by rewrite Hab.
      * intros e [He|He]%elem_of_app.
        -- exists tk. split; [exists vals; rewrite elem_of_cons; auto|].
           eapply covers_ole; [exact Hole|]. cbn. reflexivity.
        -- destruct (Hout e He) as (tk' & (vals' & ? & ? & ?) & ?). exists tk'. split; [|done].
           exists vals'. rewrite elem_of_cons. auto.
      * intros tk' e (vals' & Hin & He & Hle'). rewrite elem_of_app.
        apply elem_of_cons in Hin as [[= -> ->]|Hin]; [by left|]. right. apply (Hall tk'). by exists vals'.
Qed.

Lemma release_from_spec (trace : Trace) thr time last out last' :
  sorted_trace trace → release_loop (move_cursor_to_key trace last) thr time last = (out, last') →
  ole last last' ∧
  (∀ e, e ∈ out → ∃ tk, releasable trace thr time tk e ∧ above last tk ∧ covers last' tk) ∧
  (∀ tk e, above last tk → releasable trace thr time tk e → e ∈ out).
Proof.
  intros Hs Hr. destruct (release_loop_spec _ _ _ _ _ _ (move_cursor_sorted trace last Hs)
    (λ x Hx, proj2 (proj1 (move_cursor_elem trace last x Hs) Hx)) Hr) as (Hole & Hout & Hall).
  split_and!; [done| |].
  - intros e (tk & (vals & Hin & He & Hle) & Hc)%Hout. apply (move_cursor_elem _ _ _ Hs) in Hin as [Hin Ha].
    exists tk. split_and!; try done. by exists vals.
  - intros tk e Ha (vals & Hin & He & Hle). apply (Hall tk). exists vals. split_and!; try done.
    by apply move_cursor_elem.
Qed.

Lemma postpone_entries_spec st (trace : Trace) time entries future ll out future' ll' :
  sorted_trace trace →
  postpone_entries current_time_extractor st trace time entries future ll = (out, future', ll') →
  ole ll ll' ∧
  (∀ e, e ∈ out →
     (∃ key val diff, e = ELate key val time diff ∧ (key, val, diff) ∈ entries ∧ is_late st key = true) ∨
     (∃ tk thr, release_threshold_column_time st = Some thr ∧ releasable trace thr time tk e ∧
        above ll tk ∧ covers ll' tk)) ∧
  (∀ key val diff, (key, val, diff) ∈ entries → is_late st key = true → ELate key val time diff ∈ out) ∧
  (∀ thr tk e, entries ≠ [] → release_threshold_column_time st = Some thr → above ll tk →
     is_late st tk = false → releasable trace thr time tk e → e ∈ out).
Proof.
  intros Hs. revert future ll out. induction entries as [|[[key val] diff] entries IH]; intros future ll out;
    cbn [postpone_entries].
  - intros [= <- <- <-]. split_and!; [apply ole_refl|by intros e He%elem_of_nil|by intros ? ? ? He%elem_of_nil|done].
  - set (ll1 := if is_late st key then omax ll (Some key) else ll).
    assert (Hll1 : ole ll ll1) by (subst ll1; destruct (is_late st key); [apply omax_ole|apply ole_refl]).
    replace (if is_late st key then ([ELate key val time diff], omax ll (Some key)) else ([], ll))
      with (if is_late st key then [ELate key val time diff] else [], ll1)
      by (subst ll1; by destruct (is_late st key)).
    destruct (match release_threshold_column_time st with Some thr => _ | None => _ end) as [out2 ll2] eqn:Hrel2.
    destruct (postpone_entries _ st trace time entries _ ll2) as [[out3 f3] ll3] eqn:Hent3.
    intros [= <- <- <-]. destruct (IH _ _ _ Hent3) as (Hole3 & Hout3 & Hlate3 & _).
    assert (ole ll1 ll2 ∧
      (∀ e, e ∈ out2 → ∃ tk thr, release_threshold_column_time st = Some thr ∧ releasable trace thr time tk e ∧
         above ll1 tk ∧ covers ll2 tk) ∧
      (∀ thr tk e, release_threshold_column_time st = Some thr → above ll1 tk →
         releasable trace thr time tk e → e ∈ out2)) as (Hole2 & Hout2 & Hall2).
    { destruct (release_threshold_column_time st) as [thr|] eqn:Hthr.
      - destruct (release_from_spec _ _ _ _ _ _ Hs Hrel2) as (? & Hout & Hall). split_and!; [done| |].
        + intros e (tk & ? & ? & ?)%Hout. by exists tk, thr.
        + intros thr' tk e [= <-]. apply Hall.
      - injection Hrel2 as <- <-. split_and!; [apply ole_refl|by intros e He%elem_of_nil|done]. }
    split_and!.
    + eapply ole_trans; [exact Hll1|]. by eapply ole_trans.
    + intros e [He|[He|He]%elem_of_app]%elem_of_app.
      * destruct (is_late st key) eqn:Hl; [|by apply elem_of_nil in He].
        apply list_elem_of_singleton in He as ->. left. exists key, val, diff. rewrite elem_of_cons. auto.
      * destruct (Hout2 e He) as (tk & thr & ? & ? & Ha & Hc). right. exists tk, thr.
        split_and!; [done|done|by eapply above_ole|by eapply covers_ole].
      * destruct (Hout3 e He) as [(k & v & d & ? & ? & ?)|(tk & thr & ? & ? & Ha & Hc)].
        -- left. exists k, v, d. rewrite elem_of_cons. auto.
        -- right. exists tk, thr. split_and!; [done|done| |done].
           eapply above_ole; [|exact Ha]. by eapply ole_trans.
    + intros k v d [[= -> -> ->]|Hin]%elem_of_cons Hl; rewrite !elem_of_app.
      * left. rewrite Hl. by apply list_elem_of_singleton.
      * right. right. by apply Hlate3.
    + intros thr tk e _ Hthr Ha Hnl Hrel. rewrite !elem_of_app. right. left. apply (Hall2 thr tk); [done| |done].
      subst ll1. destruct (is_late st key) eqn:Hl; [|done]. apply above_omax; [done|]. cbn.
      apply key_lt_of_time_lt. unfold is_late in *.
      destruct (already_released_column_time st) as [a|]; [|done].
      apply ord_leb_spec in Hl. unfold ord_leb in Hnl.
      assert (cmp a (tk_time tk) = Lt) by (rewrite (cmp_antisym (tk_time tk)); by destruct (cmp (tk_time tk) a)).
      apply cmp_lt_iff. intros Hge. apply (proj1 (cmp_lt_iff a (tk_time tk))); [done|]. by etrans.
Qed.
End postpone_props.

(** ** Properties *)

(** C23: [ignore_late] splits every message into the records it lets through
    and the late ones, losing and duplicating none; a record is late exactly
    when the column time seen before the message, or the column time of some
    record with a strictly smaller timestamp, has reached its threshold; and the
    new state stands for all column times seen so far. *)
Theorem ignore_late_correct {K V R : Type} `{OrdLaws T, OrdLaws CT} (thr cur : V → CT) (m : option CT)
    (batches : list (list ((K * V) * unit * T * R))) out late m' :
  ignore_late_message thr cur m batches = (out, late, m') →
  let recs := map (λ u, let '(kv, _, t, d) := u in (kv, t, d)) (concat batches) in
  out ++ late ≡ₚ recs ∧
  (∀ r, r ∈ out → in_time thr m (rec_val r) = true ∧
     ∀ r', r' ∈ recs → cmp (rec_time r') (rec_time r) = Lt → before_threshold thr cur r' r = true) ∧
  (∀ r, r ∈ late → in_time thr m (rec_val r) = false ∨
     ∃ r', r' ∈ recs ∧ cmp (rec_time r') (rec_time r) = Lt ∧ before_threshold thr cur r' r = false) ∧
  (∀ r : Record_, in_time thr m' (rec_val r) = true ↔
     in_time thr m (rec_val r) = true ∧ ∀ r', r' ∈ recs → before_threshold thr cur r' r = true).
Proof.
  intros Hr recs. unfold ignore_late_message in Hr.
  destruct (batch_by_time_spec rec_time batches (λ key_val _ time diff, (key_val, time, diff))) as [Hw Hp]; [done|].
  destruct (ignore_late_groups_spec thr cur m _ [] [] Hw) as (o & l & m'' & Heq & Hsp).
  assert (Heq' : (out, late, m') = (o, l, m'')) by (rewrite <- Hr; exact Heq). injection Heq' as -> -> ->.
  destruct Hsp as (Hperm & Ho & Hl & Hm). split_and!.
  - by rewrite Hperm, Hp.
  - intros r Hin. destruct (Ho r Hin) as [? Hb]. split; [done|]. intros r' Hr'. apply Hb. by rewrite Hp.
  - intros r Hin. destruct (Hl r Hin) as [?|(r' & Hr' & ?)]; [by left|]. right. exists r'. by rewrite Hp in Hr'.
  - intros r. rewrite Hm. by setoid_rewrite Hp.
Qed.

(** The records a stateful reduction emits for a batch add up, for every
    key and value, to the change of the kept state: the output collection always
    holds exactly the current state of each key, once. *)
Theorem stateful_reduce_output_is_state {K V V2 T : Type} `{Countable K, Ord T, EqDecision V2}
    (V2_eqb : V2 → V2 → bool) (logic : option V2 → list (V * Z) → DynResult (option V2))
    (st st' : gmap K V2) batch out :
  stateful_batch V2_eqb logic st batch = Ok (out, st') →
  ∀ (k : K) v, net (T := T) k v out =
    (if decide (st' !! k = Some v) then 1 else 0) - (if decide (st !! k = Some v) then 1 else 0).
Proof. apply stateful_batch_net. Qed.

(** C25: processing the entries of one time, the buffer emits exactly the entries
    that come late (their threshold is not after the column time already
    released) and the arranged records whose threshold is within the release
    threshold: nothing is released early, nothing due is kept, every released
    key lies after the previous position and within the new one, so no key is
    released twice, and the position never moves back. *)
Theorem postpone_releases_when_due {OT CT K V R : Type} `{Ord OT, OrdLaws CT, OrdLaws K, Semigroup R}
    (cur : V → CT) st (trace : Trace) (time : OTime) entries out st' :
  sorted_trace trace → sct_retraction time = false →
  postpone_group (OT := OT) (R := R) (K := K) cur st trace time entries = (out, st') →
  ole (last_arrangement_key st) (last_arrangement_key st') ∧
  (∀ e, e ∈ out →
     (∃ key val diff, e = ELate key val time diff ∧ (key, val, diff) ∈ entries ∧ is_late st key = true) ∨
     (∃ tk thr, release_threshold_column_time st = Some thr ∧ releasable trace thr time tk e ∧
        above (last_arrangement_key st) tk ∧ covers (last_arrangement_key st') tk)) ∧
  (∀ key val diff, (key, val, diff) ∈ entries → is_late st key = true → ELate key val time diff ∈ out) ∧
  (∀ thr tk e, entries ≠ [] → release_threshold_column_time st = Some thr →
     above (last_arrangement_key st) tk → is_late st tk = false → releasable trace thr time tk e → e ∈ out).
Proof.
  intros Hs Hret. unfold postpone_group. rewrite Hret.
  destruct (postpone_entries _ _ _ _ _ _ _) as [[o f] ll] eqn:He. intros [= <- <-].
  by eapply postpone_entries_spec.
Qed.

(** ** The properties at concrete inputs *)

Section witnesses.
#[local] Instance Z_semigroup : Semigroup Z := {| plus_equals := Z.add; is_zero := Z.eqb 0 |}.

(** A record of column time 10 at time 0 makes the one with threshold 7 at time 2 late. *)
Definition late_batches : list (list ((Z * Z) * unit * Z * Z)) := [[((1, 7), tt, 2, 1); ((2, 10), tt, 0, 1)]].
Lemma ignore_late_correct_witness :
∃ out late m', ignore_late_message (K := Z) id id None late_batches = (out, late, m') ∧
  out ++ late ≡ₚ [((1, 7), 2, 1); ((2, 10), 0, 1)].
Proof.
do 3 eexists. split; [vm_compute; reflexivity|].
eapply (ignore_late_correct (K := Z) id id None late_batches). vm_compute. reflexivity.
Defined.

Definition sum_logic (s : option Z) (d : list (Z * Z)) : DynResult (option Z) :=
Ok (Some (foldr (λ vd acc, fst vd * snd vd + acc) (default 0 s) d)).
Lemma stateful_reduce_output_is_state_witness :
∃ out st', stateful_batch (K := Z) (T := Z) Z.eqb sum_logic ∅ [(1, [(5, [(0, 1); (2, 1)])])] = Ok (out, st') ∧
  net 1 10 out = 1.
Proof.
do 2 eexists. split; [vm_compute; reflexivity|].
eapply eq_trans.
- eapply (stateful_reduce_output_is_state (K := Z) (T := Z) Z.eqb sum_logic ∅ _
    [(1, [(5, [(0, 1); (2, 1)])])]). vm_compute. reflexivity.
- vm_compute. reflexivity.
Defined.

Definition sample_trace : Trace (OT := Z) (CT := Z) (K := Z) (V := Z) (R := Z) :=
[(mk_TimeKey 3 1, [(30, [(original 0, 1)])]); (mk_TimeKey 9 2, [(90, [(original 0, 1)])])].
Lemma postpone_releases_when_due_witness :
∃ out st', postpone_group (OT := Z) (K := Z) (R := Z) id (mk_PostponeState None (Some 5) None) sample_trace
    (original 2) [(mk_TimeKey 9 2, 90, 1)] = (out, st') ∧
  EReleased (mk_TimeKey 3 1) 30 (original 2) 1 ∈ out.
Proof.
do 2 eexists. split; [vm_compute; reflexivity|].
destruct (postpone_releases_when_due (K := Z) (R := Z) id (mk_PostponeState None (Some 5) None) sample_trace
  (original 2) [(mk_TimeKey 9 2, 90, 1)] _ _ ltac:(repeat constructor) eq_refl eq_refl) as (_ & _ & _ & Hall).
apply (Hall 5 (mk_TimeKey 3 1)); [done|reflexivity|exact I|reflexivity|].
exists [(30, [(original 0, 1)])]. split; [by apply elem_of_cons; left|]. split; [|done].
vm_compute. by apply elem_of_cons; left.
Defined.

End witnesses.
