(* ===== verification/Persistence.v ===== *)
(** Persistence of the engine's progress (src/persistence: state.rs, tracker.rs,
    frontier.rs, config.rs, metadata_backends): the metadata blocks of the
    workers, the choice of the logical time from which a run resumes, and the
    commit of finalized times.

    The environment enters as arguments: the system clock, the outcome of the
    asynchronous flushes, whether the snapshot interval has passed, and which calls
    of the file system fail and how ([KvFaults]). *)
From Stdlib Require Import ZArith Lia Bool Ascii.
From stdpp Require Import base list strings gmap.
From S2P Require Import Prelude Order Text Timestamp.
Open Scope Z_scope.

(** ** Metadata backends *)

Inductive BackendError := FileSystem | S3Error | Utf8Error | IncorrectFormat (data : string).
Abbreviation BResult := (outcome BackendError).

(** [trait MetadataBackend]: operations on the backend's state. *)
Class MetadataBackend (B : Type) := {
  list_keys : B → BResult (list string);
  get_value : B → string → BResult string;
  put_value : B → string → string → BResult unit * B;
  remove_key : B → string → BResult unit * B
}.

(** What the file system answers to the calls of a process.  A write cannot open its
    file, or has room for some bytes only; the writes after the listed ones succeed. *)
Inductive WriteFault := CannotOpen | WritesOnly (bytes : nat).
Record KvFaults := mk_KvFaults {
  read_dir_fails : bool;
  entry_fails : string → bool;
  read_fails : string → bool;
  remove_fails : string → bool;
  write_faults : list (option WriteFault)
}.
Definition no_faults : KvFaults := mk_KvFaults false (λ _, false) (λ _, false) (λ _, false) [].
Definition next_writes (f : KvFaults) : KvFaults :=
  mk_KvFaults (read_dir_fails f) (entry_fails f) (read_fails f) (remove_fails f) (tail (write_faults f)).

(** [FilesystemKVStorage]: the regular files of its directory.  A scan skips the
    entries that it fails on and those whose name is not Unicode; [read_to_string]
    fails on contents that are not UTF-8. *)
Record FilesystemKVStorage := mk_FilesystemKVStorage { kv_files : gmap string string; kv_faults : KvFaults }.
Definition entry_seen (f : KvFaults) (key : string) : bool := negb (entry_fails f key) && utf8_valid (string_bytes key).
Definition can_read (f : KvFaults) (key raw : string) : bool := negb (read_fails f key) && utf8_valid (string_bytes raw).
Definition fs_write (b : FilesystemKVStorage) (key value : string) : BResult unit * FilesystemKVStorage :=
  let faults := next_writes (kv_faults b) in
  let written := (Ok tt, mk_FilesystemKVStorage (<[key := value]> (kv_files b)) faults) in
  match head (write_faults (kv_faults b)) with
  | None | Some None => written
  | Some (Some CannotOpen) => (Err FileSystem, mk_FilesystemKVStorage (kv_files b) faults)
  | Some (Some (WritesOnly n)) =>
      if (n <? String.length value)%nat
      then (Err FileSystem, mk_FilesystemKVStorage (<[key := String.substring 0 n value]> (kv_files b)) faults)
      else written
  end.
Global Instance filesystem_backend : MetadataBackend FilesystemKVStorage := {|
  list_keys b :=
    if read_dir_fails (kv_faults b) then Err FileSystem
    else Ok (List.filter (entry_seen (kv_faults b)) (map fst (map_to_list (kv_files b))));
  get_value b key :=
    raw ← ok_or (kv_files b !! key) FileSystem;
    if can_read (kv_faults b) key raw then Ok raw else Err FileSystem;
  put_value := fs_write;
  remove_key b key := match kv_files b !! key with
    | Some _ =>
        if remove_fails (kv_faults b) key then (Err FileSystem, b)
        else (Ok tt, mk_FilesystemKVStorage (delete key (kv_files b)) (kv_faults b))
    | None => (Err FileSystem, b)
    end
|}.
Record MockKVStorage := mk_MockKVStorage {}.
Global Instance mock_backend : MetadataBackend MockKVStorage := {|
  list_keys b := Ok [];
  get_value b key := Panic "internal error: entered unreachable code";
  put_value b key value := (Ok tt, b);
  remove_key b key := (Ok tt, b)
|}.

(** ** [StoredMetadata] *)

Definition PersistentId : Type := Z.
Inductive StorageType := StFileSystem | StS3Csv | StS3Lines | StCsvFilesystem | StKafka | StPython | StSqlite.
Record StoredMetadata := mk_StoredMetadata {
  storage_types : gmap PersistentId StorageType;
  last_advanced_timestamp : TotalFrontier Timestamp
}.
Definition StoredMetadata_new : StoredMetadata := mk_StoredMetadata ∅ (At (mk_Timestamp 0)).

(** serde_json on [StoredMetadata]. *)
Class MetadataSerde := {
  metadata_from_str : string → option StoredMetadata;
  metadata_to_string : StoredMetadata → string
}.
(** Serializing gives text that parses back and does not end in white space; a text
    that is cut off does not parse, since the closing brace is its last byte. *)
Class MetadataSerdeLaws `{MetadataSerde} : Prop := {
  metadata_roundtrip : ∀ m, metadata_from_str (metadata_to_string m) = Some m;
  metadata_no_trailing_space : ∀ m, trim_end (metadata_to_string m) = metadata_to_string m;
  metadata_cut_off m n : (n < String.length (metadata_to_string m))%nat →
    metadata_from_str (trim_end (String.substring 0 n (metadata_to_string m))) = None
}.

Definition StoredMetadata_parse `{MetadataSerde} (data : string) : BResult StoredMetadata :=
  ok_or (metadata_from_str (trim_end data)) (IncorrectFormat data).
Definition StoredMetadata_merge (self other : StoredMetadata) : StoredMetadata :=
  mk_StoredMetadata (storage_types other ∪ storage_types self) (last_advanced_timestamp self).

(** ** [MetadataKey] *)

Record MetadataKey := mk_MetadataKey { version : Z; worker_id : Z; rotation_id : Z }.
Definition MetadataKey_from_str (key : string) : option MetadataKey :=
  match split_on "-" key with
  | [p0; p1; p2] =>
      version ← parse_u128 p0;
      worker_id ← parse_u64 p1;
      rotation_id ← parse_u64 p2;
      Some (mk_MetadataKey version worker_id rotation_id)
  | _ => None
  end.
Definition MetadataKey_to_string (k : MetadataKey) : string :=
  int_to_string (version k) +:+ String "-" (int_to_string (worker_id k) +:+
    String "-" (int_to_string (rotation_id k))).

(** ** [MetadataAccessor] *)

Definition frontier_max (a b : TotalFrontier Timestamp) : TotalFrontier Timestamp :=
  match cmp a b with Gt => a | _ => b end.

Section accessor.
Context `{MetadataSerde} {B : Type} `{MetadataBackend B}.

Record MetadataAccessor := mk_MetadataAccessor {
  backend : B;
  internal_state : StoredMetadata;
  past_runs_threshold_times : gmap Z (TotalFrontier Timestamp);
  current_key_to_use : string;
  next_key_to_use : string
}.

(** The first loop of [new]: the last version of each worker. *)
Definition last_version_per_worker (keys : list string) : gmap Z Z :=
  foldl (λ m key,
    match MetadataKey_from_str key with
    | None => m
    | Some k => <[worker_id k := match m !! worker_id k with
                                  | Some v => Z.max v (version k)
                                  | None => version k
                                  end]> m
    end) ∅ keys.

(** The second loop: remove the obsolete blocks, merge the others. *)
Fixpoint load_blocks (versions : gmap Z Z) (keys : list string) (b : B) (state : StoredMetadata)
    (times : gmap Z (TotalFrontier Timestamp))
    : BResult (B * StoredMetadata * gmap Z (TotalFrontier Timestamp)) :=
  match keys with
  | [] => Ok (b, state, times)
  | key :: keys =>
      match MetadataKey_from_str key with
      | None => load_blocks versions keys b state times
      | Some k =>
          match versions !! worker_id k with
          | None => Panic "no version for worker"
          | Some target_version =>
              if version k <? target_version
              then load_blocks versions keys (snd (remove_key b key)) state times
              else
                raw_block ← get_value b key;
                match StoredMetadata_parse raw_block with
                | Ok block =>
                    let t := last_advanced_timestamp block in
                    load_blocks versions keys b (StoredMetadata_merge state block)
                      (<[worker_id k := match times !! worker_id k with
                                        | Some t0 => frontier_max t0 t
                                        | None => t
                                        end]> times)
                | _ => load_blocks versions keys b state times
                end
          end
      end
  end.

Definition MetadataAccessor_new (b : B) (worker : Z) (current_timestamp : Z) : BResult MetadataAccessor :=
  keys ← list_keys b;
  ' (b, state, times) ← load_blocks (last_version_per_worker keys) keys b StoredMetadata_new ∅;
  Ok (mk_MetadataAccessor b state times
        (MetadataKey_to_string (mk_MetadataKey current_timestamp worker 0))
        (MetadataKey_to_string (mk_MetadataKey current_timestamp worker 1))).

Definition accessor_register_input_source (a : MetadataAccessor) (pid : PersistentId) (st : StorageType)
    : MetadataAccessor :=
  mk_MetadataAccessor (backend a)
    (mk_StoredMetadata (<[pid := st]> (storage_types (internal_state a)))
       (last_advanced_timestamp (internal_state a)))
    (past_runs_threshold_times a) (current_key_to_use a) (next_key_to_use a).
Definition accessor_accept_finalized_timestamp (a : MetadataAccessor) (t : TotalFrontier Timestamp)
    : MetadataAccessor :=
  mk_MetadataAccessor (backend a) (mk_StoredMetadata (storage_types (internal_state a)) t)
    (past_runs_threshold_times a) (current_key_to_use a) (next_key_to_use a).
Definition accessor_last_advanced_timestamp (a : MetadataAccessor) : TotalFrontier Timestamp :=
  last_advanced_timestamp (internal_state a).
Definition save_current_state (a : MetadataAccessor) : BResult unit * MetadataAccessor :=
  let serialized_state := metadata_to_string (internal_state a) in
  match put_value (backend a) (current_key_to_use a) serialized_state with
  | (Ok _, b) => (Ok tt, mk_MetadataAccessor b (internal_state a) (past_runs_threshold_times a)
                           (next_key_to_use a) (current_key_to_use a))
  | (r, b) => (r, mk_MetadataAccessor b (internal_state a) (past_runs_threshold_times a)
                    (current_key_to_use a) (next_key_to_use a))
  end.
End accessor.
Arguments MetadataAccessor : clear implicits.

(** ** Configuration ([config.rs], the modes of [connectors/mod.rs]) *)

Inductive PersistenceMode :=
| RealtimeReplay | SpeedrunReplay | Batch | Persisting | SelectivePersisting | UdfCaching.
Inductive SnapshotAccess := Replay | SaRecord | Full.
Definition is_replay_allowed (self : SnapshotAccess) : bool :=
  match self with Full | Replay => true | SaRecord => false end.
Definition is_snapshot_writing_allowed (self : SnapshotAccess) : bool :=
  match self with Full | SaRecord => true | Replay => false end.

(** The part of [PersistenceManagerConfig] the operations below read. *)
Record PersistenceManagerConfig := mk_PersistenceManagerConfig {
  persistence_mode : PersistenceMode;
  cfg_worker_id : Z;
  total_workers : Z
}.

Inductive ReadersQueryPurpose := ReadSnapshot | ReconstructFrontier.
Definition includes_worker (self : ReadersQueryPurpose) (other_worker_id worker_id total_workers : Z) : bool :=
  match self with
  | ReadSnapshot => other_worker_id mod total_workers =? worker_id
  | ReconstructFrontier => true
  end.
Definition truncate_at_end (self : ReadersQueryPurpose) : bool :=
  match self with ReadSnapshot => true | ReconstructFrontier => false end.

(** [Path::join] with a relative component, and [str::strip_suffix('/')]. *)
Definition ends_with_slash (s : string) : bool :=
  match String.get (String.length s - 1) s with Some c => (c =? "/")%char | None => false end.
Definition path_join (root component : string) : string :=
  if (root =? "")%string || ends_with_slash root then root +:+ component
  else root +:+ String "/" component.
Definition strip_slash (s : string) : string :=
  if ends_with_slash s then String.substring 0 (String.length s - 1) s else s.

Definition snapshot_writer_path (c : PersistenceManagerConfig) (root_path : string) (pid : PersistentId) : string :=
  path_join (path_join (path_join root_path "streams") (int_to_string (cfg_worker_id c))) (int_to_string pid).
Definition s3_snapshot_path (c : PersistenceManagerConfig) (root_path : string) (pid : PersistentId) : string :=
  strip_slash root_path +:+ "/streams/" +:+ int_to_string (cfg_worker_id c) +:+ "/" +:+ int_to_string pid.

(** An entry of the streams directory: its name, when it is Unicode, and
    whether it is a directory. *)
Record DirEntry := mk_DirEntry { file_name : option string; is_dir : bool }.
Definition assigned_snapshot_paths (c : PersistenceManagerConfig) (root_path : string)
    (entries : list DirEntry) (pid : PersistentId) (query_purpose : ReadersQueryPurpose) : gmap Z string :=
  let streams_dir := path_join root_path "streams" in
  foldl (λ assigned_paths entry,
    if is_dir entry then
      match file_name entry ≫= parse_u64 with
      | None => assigned_paths
      | Some parsed_worker_id =>
          if includes_worker query_purpose parsed_worker_id (cfg_worker_id c) (total_workers c)
          then <[parsed_worker_id := path_join streams_dir
                   (int_to_string parsed_worker_id +:+ "/" +:+ int_to_string pid)]> assigned_paths
          else assigned_paths
      end
    else assigned_paths) ∅ entries.

(** The same over the object keys that the bucket lists under [streams/]. *)
Fixpoint assign_s3_keys (c : PersistenceManagerConfig) (snapshots_root_path : string) (pid : PersistentId)
    (query_purpose : ReadersQueryPurpose) (keys : list string) (assigned_paths : gmap Z string)
    : outcome unit (gmap Z string) :=
  match keys with
  | [] => Ok assigned_paths
  | key :: keys =>
      let prefix_len := String.length snapshots_root_path in
      if Nat.leb (String.length key) prefix_len then Panic "assertion failed: key.len() > prefix_len"
      else
        let continue_with := assign_s3_keys c snapshots_root_path pid query_purpose keys in
        match split_on "/" (String.substring prefix_len (String.length key - prefix_len) key) with
        | [p0; _; _] =>
            match parse_u64 p0 with
            | None => continue_with assigned_paths
            | Some parsed_worker_id =>
                if includes_worker query_purpose parsed_worker_id (cfg_worker_id c) (total_workers c)
                then continue_with (<[parsed_worker_id := snapshots_root_path +:+
                       int_to_string parsed_worker_id +:+ "/" +:+ int_to_string pid]> assigned_paths)
                else continue_with assigned_paths
            end
        | _ => continue_with assigned_paths
        end
  end.
Definition assigned_s3_snapshot_paths (c : PersistenceManagerConfig) (root_path : string)
    (keys : list string) (pid : PersistentId) (query_purpose : ReadersQueryPurpose)
    : outcome unit (gmap Z string) :=
  assign_s3_keys c (strip_slash root_path +:+ "/streams/") pid query_purpose keys ∅.

(** The threshold that [create_snapshot_readers] gives to every reader. *)
Definition min_threshold_time (threshold_times : gmap Z (TotalFrontier Timestamp)) : TotalFrontier Timestamp :=
  default (At (mk_Timestamp 0)) (iter_min (map snd (map_to_list threshold_times))).

(** ** [WorkerPersistentStorage] *)

(** What awaiting a flush future gives: the result sent by the writer, or
    [Canceled] when the sender is gone. *)
Inductive FlushResult := Flushed | FlushFailed (* Ok(Err(WriteError)) *) | Canceled.

Record LogicalTimeCommitData := mk_LogicalTimeCommitData {
  snapshot_futures : list FlushResult;
  timestamp_to_commit : TotalFrontier Timestamp
}.

(** [LogicalTimeCommitData::prepare]: [if let Err(e) = future.await]. *)
Definition prepare (c : LogicalTimeCommitData) : bool :=
  foldl (λ is_snapshot_saved flush_result,
    match flush_result with
    | Canceled => false
    | Flushed | FlushFailed => is_snapshot_saved
    end) true (snapshot_futures c).

Section tracker.
Context `{MetadataSerde} {B : Type} `{MetadataBackend B}.

Record WorkerPersistentStorage := mk_WorkerPersistentStorage {
  metadata_storage : MetadataAccessor B;
  config : PersistenceManagerConfig;
  snapshot_writers : list PersistentId;
  sink_threshold_times : list (TotalFrontier Timestamp);
  registered_persistent_ids : gset PersistentId
}.

Definition WorkerPersistentStorage_new (c : PersistenceManagerConfig) (b : B) (current_timestamp : Z)
    : BResult WorkerPersistentStorage :=
  m ← MetadataAccessor_new b (cfg_worker_id c) current_timestamp;
  Ok (mk_WorkerPersistentStorage m c [] [] ∅).
Definition table_persistence_enabled (w : WorkerPersistentStorage) : bool :=
  match persistence_mode (config w) with Persisting | SelectivePersisting => true | _ => false end.
Definition persistent_id_generation_enabled (w : WorkerPersistentStorage) : bool :=
  match persistence_mode (config w) with Persisting => true | _ => false end.
Definition last_finalized_timestamp (w : WorkerPersistentStorage) : TotalFrontier Timestamp :=
  accessor_last_advanced_timestamp (metadata_storage w).

Definition register_input_source (w : WorkerPersistentStorage) (pid : PersistentId) (st : StorageType)
    : outcome unit WorkerPersistentStorage :=
  if decide (pid ∈ registered_persistent_ids w)
  then Panic "Same persistent_id belongs to more than one data source: {persistent_id}"
  else Ok (mk_WorkerPersistentStorage (accessor_register_input_source (metadata_storage w) pid st)
             (config w) (snapshot_writers w) (sink_threshold_times w) ({[ pid ]} ∪ registered_persistent_ids w)).
Definition register_sink (w : WorkerPersistentStorage) : nat * WorkerPersistentStorage :=
  (length (sink_threshold_times w),
   mk_WorkerPersistentStorage (metadata_storage w) (config w) (snapshot_writers w)
     (sink_threshold_times w ++ [At (mk_Timestamp 0)]) (registered_persistent_ids w)).

(** [create_snapshot_writer], given what creating a new writer gives. *)
Definition create_snapshot_writer {E} (w : WorkerPersistentStorage) (pid : PersistentId)
    (created : outcome E unit) : outcome E WorkerPersistentStorage :=
  if decide (pid ∈ snapshot_writers w) then Ok w
  else
    _ ← created;
    Ok (mk_WorkerPersistentStorage (metadata_storage w) (config w) (snapshot_writers w ++ [pid])
          (sink_threshold_times w) (registered_persistent_ids w)).

(** [flush]: what awaiting the flush of each snapshot writer gives. *)
Definition accept_finalized_timestamp (w : WorkerPersistentStorage)
    (finalized_timestamp : TotalFrontier Timestamp) (flush : PersistentId → FlushResult)
    : LogicalTimeCommitData :=
  if ord_leb finalized_timestamp (last_finalized_timestamp w)
  then mk_LogicalTimeCommitData [] (last_finalized_timestamp w)
  else mk_LogicalTimeCommitData (map flush (snapshot_writers w)) finalized_timestamp.
Definition commit_finalized_timestamp (w : WorkerPersistentStorage) (c : LogicalTimeCommitData)
    : WorkerPersistentStorage :=
  let m := accessor_accept_finalized_timestamp (metadata_storage w) (timestamp_to_commit c) in
  mk_WorkerPersistentStorage (snd (save_current_state m)) (config w) (snapshot_writers w)
    (sink_threshold_times w) (registered_persistent_ids w).

(** [update_sink_finalized_time], given whether the snapshot interval has
    elapsed since the last commit. *)
Definition update_sink_finalized_time (w : WorkerPersistentStorage) (sink_id : nat)
    (reported_timestamp : option Timestamp) (interval_elapsed : bool) (flush : PersistentId → FlushResult)
    : outcome unit WorkerPersistentStorage :=
  if Nat.ltb sink_id (length (sink_threshold_times w)) then
    let times := <[sink_id := match reported_timestamp with Some t => At t | None => Done end]>
      (sink_threshold_times w) in
    let w := mk_WorkerPersistentStorage (metadata_storage w) (config w) (snapshot_writers w) times
      (registered_persistent_ids w) in
    match iter_min times with
    | None => Panic "no known sinks"
    | Some worker_finalized_timestamp =>
        let timestamp_updated := negb (ord_eqb worker_finalized_timestamp (last_finalized_timestamp w)) in
        let commit_interval_passed :=
          match worker_finalized_timestamp with Done => true | _ => interval_elapsed end in
        if timestamp_updated && commit_interval_passed then
          let commit_data := accept_finalized_timestamp w worker_finalized_timestamp flush in
          if prepare commit_data then Ok (commit_finalized_timestamp w commit_data) else Ok w
        else Ok w
    end
  else Panic "index out of bounds".
End tracker.
Arguments WorkerPersistentStorage : clear implicits.
