(* ===== verification/PersistenceProps.v ===== *)
(** Theorems on the persistence layer: metadata keys parse back, a new run
    recovers the newest metadata of every worker, the finalized time of a
    worker is monotone and survives a restart, and the snapshots of the former
    workers are partitioned among the present ones. *)
From Stdlib Require Import ZArith Lia Bool Ascii.
From stdpp Require Import base list strings gmap relations.
From S2P Require Import Prelude Order Text Timestamp Persistence.
Open Scope Z_scope.

Lemma TotalFrontier_cmp_eq (f g : TotalFrontier Timestamp) : cmp f g = Eq ↔ f = g.
Proof.
  destruct f as [t|], g as [u|]; cbn; try (split; congruence).
  setoid_rewrite Timestamp_cmp_eq. split; congruence.
Qed.
Lemma frontier_le_antisym (f g : TotalFrontier Timestamp) : ord_le f g → ord_le g f → f = g.
Proof. intros. by apply TotalFrontier_cmp_eq, cmp_eq_iff. Qed.

(** ** Metadata keys *)

Definition metadata_key_in_range (k : MetadataKey) : bool :=
  in_u128 (version k) && in_u64 (worker_id k) && in_u64 (rotation_id k).

Lemma parse_u64_to_string n : in_u64 n = true → parse_u64 (int_to_string n) = Some n.
Proof. intros Hn%in_u64_spec. apply parse_int_to_string; [unfold U64_MAX|]; lia. Qed.
Lemma parse_u128_to_string n : in_u128 n = true → parse_u128 (int_to_string n) = Some n.
Proof.
  unfold in_u128. rewrite andb_true_iff, Z.leb_le, Z.ltb_lt. intros Hn.
  apply parse_int_to_string; lia.
Qed.
Lemma metadata_key_parse k :
  metadata_key_in_range k = true → MetadataKey_from_str (MetadataKey_to_string k) = Some k.
Proof.
  destruct k as [v w r]. unfold metadata_key_in_range. cbn [version worker_id rotation_id].
  rewrite !andb_true_iff. intros [[Hv Hw] Hr].
  assert (0 ≤ v) by (unfold in_u128 in Hv; lia).
  pose proof (proj1 (in_u64_spec w) Hw). pose proof (proj1 (in_u64_spec r) Hr).
  unfold MetadataKey_from_str, MetadataKey_to_string. cbn [version worker_id rotation_id].
  rewrite !split_on_app, split_on_none by (by apply int_to_string_no_sep; [lia|]).
  by rewrite parse_u128_to_string, !parse_u64_to_string.
Qed.

Lemma omap_cons_eq {A B} (f : A → option B) (x : A) (l : list A) :
  omap f (x :: l) = match f x with Some y => y :: omap f l | None => omap f l end.
Proof. reflexivity. Qed.
Lemma omap_ext_elem {A B} (f g : A → option B) (l : list A) :
  (∀ x, x ∈ l → f x = g x) → omap f l = omap g l.
Proof.
  induction l as [|x l IH]; intros Hfg; [done|].
  rewrite !omap_cons_eq, Hfg, IH by set_solver. done.
Qed.

(** ** Maxima per key *)

(** Both loops of [MetadataAccessor::new] keep, for every worker, the largest
    of the values they meet. *)
Section max_per_key.
Context {V : Type} (le : relation V) (mx : V → V → V).
Context `{!PreOrder le}.
Context (mx_l : ∀ a b, le a (mx a b)) (mx_r : ∀ a b, le b (mx a b)).
Context (mx_either : ∀ a b, mx a b = a ∨ mx a b = b).

Definition keep_max (m : gmap Z V) (p : Z * V) : gmap Z V :=
  <[p.1 := match m !! p.1 with Some v => mx v p.2 | None => p.2 end]> m.
Definition is_max_of (l : list (Z * V)) (w : Z) (o : option V) : Prop :=
  match o with
  | None => ∀ v, (w, v) ∉ l
  | Some v => (w, v) ∈ l ∧ ∀ v', (w, v') ∈ l → le v' v
  end.

Lemma keep_max_spec l w : is_max_of l w (foldl keep_max ∅ l !! w).
Proof using All.
  induction l as [|[w1 v1] l IH] using rev_ind; 
    [cbn [foldl]; rewrite lookup_empty; intros v; apply not_elem_of_nil|].
  rewrite foldl_snoc. set (m := foldl keep_max ∅ l) in *. unfold keep_max. cbn [fst snd].
  destruct (decide (w1 = w)) as [->|Hne]; unfold is_max_of in *.
  - rewrite lookup_insert_eq. destruct (m !! w) as [v|] eqn:Hm.
    + destruct IH as [Hin Hle]. split.
      * destruct (mx_either v v1) as [-> | ->]; set_solver.
      * intros v' [Hv'|Hv']%elem_of_app; [etrans; [by apply Hle|apply mx_l]|].
        apply list_elem_of_singleton in Hv' as [= ->]. apply mx_r.
    + split; [set_solver|]. intros v' [Hv'|Hv']%elem_of_app; [by destruct (IH v')|].
      apply list_elem_of_singleton in Hv' as [= ->]. reflexivity.
  - rewrite lookup_insert_ne by done. destruct (m !! w) as [v|] eqn:Hm; set_solver.
Qed.
End max_per_key.

(** ** Recovery of the metadata blocks *)

Section recovery.
Context `{MetadataSerde}.
Implicit Types files : gmap string string.

Definition key_version (key : string) : option (Z * Z) :=
  k ← MetadataKey_from_str key; Some (worker_id k, version k).
(** What a key adds to the recovered times, given the versions to use. *)
Definition contribution (versions : gmap Z Z) files (key : string) : option (Z * TotalFrontier Timestamp) :=
  k ← MetadataKey_from_str key;
  target_version ← versions !! worker_id k;
  if version k <? target_version then None
  else
    raw_block ← files !! key;
    match StoredMetadata_parse raw_block with
    | Ok block => Some (worker_id k, last_advanced_timestamp block)
    | _ => None
    end.
Definition obsolete (versions : gmap Z Z) (key : string) : bool :=
  match MetadataKey_from_str key with
  | Some k => match versions !! worker_id k with Some v => version k <? v | None => false end
  | None => false
  end.

Lemma last_version_keep_max keys :
  last_version_per_worker keys = foldl (keep_max Z.max) ∅ (omap key_version keys).
Proof.
  unfold last_version_per_worker. generalize (∅ : gmap Z Z).
  induction keys as [|key keys IH]; intros m; cbn; [done|]. unfold key_version at 1.
  destruct (MetadataKey_from_str key) as [k|]; cbn; by rewrite IH.
Qed.
Lemma last_version_spec keys w :
  is_max_of Z.le (omap key_version keys) w (last_version_per_worker keys !! w).
Proof. rewrite last_version_keep_max. apply keep_max_spec; try typeclasses eauto; lia. Qed.
Lemma key_version_elem (keys : list string) key k :
  key ∈ keys → MetadataKey_from_str key = Some k → (worker_id k, version k) ∈ omap key_version keys.
Proof.
  intros Hin Hk. apply list_elem_of_omap. exists key. split; [done|]. unfold key_version. by rewrite Hk.
Qed.
Lemma last_version_present (keys : list string) key k :
  key ∈ keys → MetadataKey_from_str key = Some k → is_Some (last_version_per_worker keys !! worker_id k).
Proof.
  intros Hin Hk. pose proof (last_version_spec keys (worker_id k)) as Hs.
  destruct (last_version_per_worker keys !! worker_id k); [eauto|].
  destruct (Hs (version k)). by eapply key_version_elem.
Qed.

Lemma contribution_delete versions files key key' :
  key ≠ key' → contribution versions (delete key files) key' = contribution versions files key'.
Proof. intros. unfold contribution. by rewrite lookup_delete_ne by done. Qed.

(** The blocks left after the loop over [keys]: an obsolete block stays when it
    cannot be removed. *)
Definition removed versions (flt : KvFaults) (keys : list string) (key : string) : bool :=
  bool_decide (key ∈ keys) && obsolete versions key && negb (remove_fails flt key).
Definition kept_blocks versions flt (keys : list string) files files' : Prop :=
  ∀ key, files' !! key = if removed versions flt keys key then None else files !! key.
Lemma kept_blocks_skip versions flt key keys files files' :
  obsolete versions key && negb (remove_fails flt key) = false →
  kept_blocks versions flt keys files files' → kept_blocks versions flt (key :: keys) files files'.
Proof.
  intros Ho Hk key'. rewrite Hk. unfold removed. destruct (decide (key' = key)) as [->|].
  - by rewrite <- !andb_assoc, Ho, !andb_false_r.
  - by rewrite (bool_decide_ext (key' ∈ key :: keys) (key' ∈ keys)) by set_solver.
Qed.
Lemma kept_blocks_remove versions flt key keys files files' :
  obsolete versions key = true → remove_fails flt key = false →
  kept_blocks versions flt keys (delete key files) files' → kept_blocks versions flt (key :: keys) files files'.
Proof.
  intros Ho Hr Hk key'. rewrite Hk. unfold removed. destruct (decide (key' = key)) as [->|].
  - rewrite lookup_delete_eq, Ho, Hr, (bool_decide_true (key ∈ key :: keys)) by set_solver.
    by destruct (_ && _).
  - rewrite lookup_delete_ne by done.
    by rewrite (bool_decide_ext (key' ∈ key :: keys) (key' ∈ keys)) by set_solver.
Qed.

(** A block that is to be merged and cannot be read. *)
Definition blocked versions flt files (key : string) : bool :=
  match MetadataKey_from_str key, files !! key with
  | Some _, Some raw => negb (obsolete versions key) && negb (can_read flt key raw)
  | _, _ => false
  end.
Lemma blocked_delete versions flt files key key' : key ≠ key' →
  blocked versions flt (delete key files) key' = blocked versions flt files key'.
Proof. intros. unfold blocked. by rewrite lookup_delete_ne by done. Qed.

(** The loop over the blocks fails when one of them is blocked; otherwise it keeps the
    largest time of every worker and removes the obsolete blocks that it can remove. *)
Lemma load_blocks_spec versions flt (keys : list string) files state times :
  NoDup keys → (∀ key, key ∈ keys → is_Some (files !! key)) →
  (∀ key k, key ∈ keys → MetadataKey_from_str key = Some k → is_Some (versions !! worker_id k)) →
  if existsb (blocked versions flt files) keys
  then load_blocks versions keys (mk_FilesystemKVStorage files flt) state times = Err FileSystem
  else ∃ files' state',
    load_blocks versions keys (mk_FilesystemKVStorage files flt) state times =
      Ok (mk_FilesystemKVStorage files' flt, state',
          foldl (keep_max frontier_max) times (omap (contribution versions files) keys)) ∧
    kept_blocks versions flt keys files files' ∧
    last_advanced_timestamp state' = last_advanced_timestamp state.
Proof.
  revert files state times. induction keys as [|key keys IH]; intros files state times Hnd Hf Hv.
  { exists files, state. split_and!; try done. }
  apply NoDup_cons in Hnd as [Hni Hnd].
  assert (∀ key', key' ∈ keys → is_Some (files !! key')) as Hf' by set_solver.
  assert (∀ key' k, key' ∈ keys → MetadataKey_from_str key' = Some k → is_Some (versions !! worker_id k))
    as Hv' by set_solver.
  pose proof (λ state times, IH files state times Hnd Hf' Hv') as Hskip.
  destruct (Hf key) as [raw Hraw]; [set_solver|]. specialize (Hv key).
  cbn [load_blocks existsb]. rewrite omap_cons_eq. unfold contribution at 1, blocked at 1.
  pose proof (kept_blocks_skip versions flt key keys files) as Hsame. unfold obsolete in Hsame at 1 |- * at 1.
  rewrite Hraw. destruct (MetadataKey_from_str key) as [k|] eqn:Hk; cbn [mbind option_bind orb andb].
  2: { specialize (Hskip state times). destruct (existsb _ keys); [done|]. naive_solver. }
  destruct (Hv k) as [target Ht]; [set_solver|done|]. rewrite Ht in Hsame |- *. cbn [mbind option_bind].
  destruct (version k <? target) eqn:Hlt; cbn [negb andb orb].
  - cbn [snd remove_key filesystem_backend kv_files kv_faults]. rewrite Hraw.
    destruct (remove_fails flt key) eqn:Hrm; cbn [snd].
    { specialize (Hskip state times). destruct (existsb _ keys); [done|]. naive_solver. }
    specialize (IH (delete key files) state times Hnd).
    assert (existsb (blocked versions flt (delete key files)) keys = existsb (blocked versions flt files) keys) as Hex.
    { clear - Hni. induction keys as [|x l IHl]; cbn; [done|]. rewrite blocked_delete by set_solver. f_equal. apply IHl. set_solver. }
    rewrite Hex in IH. destruct (existsb _ keys).
    + apply IH; [|done]. intros key' Hin. rewrite lookup_delete_ne by (intros ->; done). by apply Hf'.
    + destruct IH as (f' & s' & Hl & Hfs & Hs); [|done|].
      { intros key' Hin. rewrite lookup_delete_ne by (intros ->; done). by apply Hf'. }
      exists f', s'. split_and!; [| |done].
      * rewrite Hl. do 3 f_equal. apply omap_ext_elem. intros key' Hin. apply contribution_delete. by intros ->.
      * apply kept_blocks_remove; [|done|done]. unfold obsolete. by rewrite Hk, Ht, Hlt.
  - cbn [get_value filesystem_backend kv_files kv_faults]. rewrite Hraw. cbn [ok_or mbind outcome_bind option_bind].
    destruct (can_read flt key raw); cbn [negb orb mbind outcome_bind]; [|done].
    destruct (StoredMetadata_parse raw) as [block| |]; cbn [foldl];
      [specialize (Hskip (StoredMetadata_merge state block)
         (keep_max frontier_max times (worker_id k, last_advanced_timestamp block)))
      |specialize (Hskip state times)..];
      (destruct (existsb _ keys); [done|]; destruct Hskip as (f' & s' & Hl & Hfs & Hs); exists f', s'; split_and!;
        [exact Hl|by apply Hsame|done]).
Qed.

(** A metadata block of a worker, with the version of its key. *)
Definition block_of files (w v : Z) (block : StoredMetadata) : Prop :=
  ∃ key k raw, files !! key = Some raw ∧ MetadataKey_from_str key = Some k ∧
    worker_id k = w ∧ version k = v ∧ StoredMetadata_parse raw = Ok block.
Definition key_of files (w v : Z) : Prop :=
  ∃ key k raw, files !! key = Some raw ∧ MetadataKey_from_str key = Some k ∧
    worker_id k = w ∧ version k = v.
(** [v] is the newest version of the worker's keys. *)
Definition newest_version files (w v : Z) : Prop :=
  key_of files w v ∧ ∀ v', key_of files w v' → v' ≤ v.

Section listed.
Context (keys : list string) files (Hkeys : ∀ key, key ∈ keys ↔ is_Some (files !! key)).
Lemma key_of_elem w v : (w, v) ∈ omap key_version keys ↔ key_of files w v.
Proof.
  rewrite list_elem_of_omap. unfold key_of, key_version. split.
  - intros (key & [raw Hraw]%Hkeys & Hk). destruct (MetadataKey_from_str key) as [k|] eqn:Hp; [|done].
    cbn in Hk. injection Hk as <- <-. eauto 10.
  - intros (key & k & raw & Hraw & Hk & <- & <-). exists key.
    split; [by apply Hkeys; exists raw|]. by rewrite Hk.
Qed.
Lemma newest_version_iff w v : last_version_per_worker keys !! w = Some v ↔ newest_version files w v.
Proof.
  pose proof (last_version_spec keys w) as Hs. unfold newest_version.
  setoid_rewrite <- key_of_elem. unfold is_max_of in Hs.
  destruct (last_version_per_worker keys !! w) as [v0|]; split.
  - by intros [= ->].
  - intros [Hin Hmax]. f_equal. apply Z.le_antisymm; [by apply Hmax, Hs|by apply Hs].
  - done.
  - intros [Hin _]. by destruct (Hs v).
Qed.
Lemma contribution_elem w t :
  (w, t) ∈ omap (contribution (last_version_per_worker keys) files) keys ↔
  ∃ v block, newest_version files w v ∧ block_of files w v block ∧ last_advanced_timestamp block = t.
Proof.
  rewrite list_elem_of_omap. unfold contribution, block_of. split.
  - intros (key & _ & Hc). destruct (MetadataKey_from_str key) as [k|] eqn:Hk; [|done]. cbn in Hc.
    destruct (last_version_per_worker _ !! worker_id k) as [v|] eqn:Hv; [|done]. cbn in Hc.
    destruct (Z.ltb_spec (version k) v) as [|Hle]; [done|].
    destruct (files !! key) as [raw|] eqn:Hraw; [|done]. cbn in Hc.
    destruct (StoredMetadata_parse raw) as [block| |] eqn:Hp; [|done..].
    injection Hc as <- <-. apply newest_version_iff in Hv.
    assert (version k = v) as Hkv.
    { apply Z.le_antisymm; [|done]. apply Hv. unfold key_of. eauto 10. }
    exists v, block. split; [done|]. split; [|done]. eauto 10.
  - intros (v & block & Hn%newest_version_iff & (key & k & raw & Hraw & Hk & <- & <- & Hp) & <-).
    exists key. split; [by apply Hkeys; exists raw|].
    rewrite Hk. cbn. rewrite Hn. cbn. rewrite Z.ltb_irrefl, Hraw. cbn. by rewrite Hp.
Qed.
Lemma obsolete_iff key k : MetadataKey_from_str key = Some k →
  obsolete (last_version_per_worker keys) key = true ↔ ∃ v, newest_version files (worker_id k) v ∧ version k < v.
Proof.
  intros Hk. unfold obsolete. rewrite Hk. setoid_rewrite <- newest_version_iff.
  destruct (last_version_per_worker keys !! worker_id k) as [v|]; [|naive_solver]. rewrite Z.ltb_lt. naive_solver.
Qed.
End listed.

(** The time recovered for worker [w]: the largest one among the readable
    blocks of the worker's newest version. *)
Definition recovered_time files (w : Z) (o : option (TotalFrontier Timestamp)) : Prop :=
  match o with
  | None => ∀ v block, newest_version files w v → ¬ block_of files w v block
  | Some t => ∃ v, newest_version files w v ∧
      (∃ block, block_of files w v block ∧ last_advanced_timestamp block = t) ∧
      ∀ block, block_of files w v block → ord_le (last_advanced_timestamp block) t
  end.

Lemma frontier_max_spec (a b : TotalFrontier Timestamp) :
  ord_le a (frontier_max a b) ∧ ord_le b (frontier_max a b) ∧
  (frontier_max a b = a ∨ frontier_max a b = b).
Proof.
  unfold frontier_max, ord_le. pose proof (cmp_antisym a b) as Hba.
  destruct (cmp a b) eqn:Hab; rewrite ?cmp_refl, ?Hba, ?Hab; cbn; split_and!; auto; done.
Qed.
Lemma newest_version_unique files w v v' : newest_version files w v → newest_version files w v' → v = v'.
Proof. intros [Hk Hm] [Hk' Hm']. apply Z.le_antisymm; auto. Qed.

(** The files that a scan of the directory finds. *)
Definition visible flt files : gmap string string := filter (λ kv, entry_seen flt kv.1 = true) files.
Lemma visible_lookup flt files key raw : visible flt files !! key = Some raw ↔ files !! key = Some raw ∧ entry_seen flt key = true.
Proof. unfold visible. rewrite map_lookup_filter_Some. done. Qed.
(** The directory, or a block of the newest version of its worker, cannot be read. *)
Definition unreadable flt files : Prop :=
  read_dir_fails flt = true ∨
  ∃ key k raw, visible flt files !! key = Some raw ∧ MetadataKey_from_str key = Some k ∧
    newest_version (visible flt files) (worker_id k) (version k) ∧ can_read flt key raw = false.
(** The keys listed for a directory are those of its visible files. *)
Definition listed flt files : list string := List.filter (entry_seen flt) (map fst (map_to_list files)).
Lemma listed_elem flt files key : key ∈ listed flt files ↔ is_Some (visible flt files !! key).
Proof.
  unfold listed, is_Some. rewrite list_elem_of_In, filter_In, <- list_elem_of_In, list_elem_of_fmap.
  setoid_rewrite visible_lookup. split.
  - intros [([key' raw] & -> & Hin%elem_of_map_to_list) Hs]. eauto.
  - intros (raw & Hraw & Hs). split; [|done]. exists (key, raw). split; [done|]. by apply elem_of_map_to_list.
Qed.
Lemma listed_nodup flt files : NoDup (listed flt files).
Proof. apply NoDup_ListNoDup, List.NoDup_filter, NoDup_ListNoDup, NoDup_fst_map_to_list. Qed.
(** A block is obsolete when it is visible and older than another one of its worker. *)
Definition obsolete_block flt files (key : string) : Prop :=
  is_Some (visible flt files !! key) ∧ ∃ k v, MetadataKey_from_str key = Some k ∧
    newest_version (visible flt files) (worker_id k) v ∧ version k < v.

Lemma blocked_iff flt files : existsb (blocked (last_version_per_worker (listed flt files)) flt files) (listed flt files) = true ↔
  ∃ key k raw, visible flt files !! key = Some raw ∧ MetadataKey_from_str key = Some k ∧
    newest_version (visible flt files) (worker_id k) (version k) ∧ can_read flt key raw = false.
Proof.
  rewrite existsb_exists. split.
  - intros (key & Hin%list_elem_of_In & Hb). unfold blocked in Hb. pose proof (listed_elem flt files) as Hl.
    pose proof Hin as [raw Hraw]%Hl. rewrite (proj1 (proj1 (visible_lookup _ _ _ _) Hraw)) in Hb.
    destruct (MetadataKey_from_str key) as [k|] eqn:Hk; [|done]. apply andb_prop in Hb as [Ho Hr].
    exists key, k, raw. apply negb_true_iff in Ho, Hr. split_and!; [done..| |done].
    destruct (last_version_present _ key k Hin Hk) as [v Hv]. pose proof Hv as Hn%(newest_version_iff _ _ Hl).
    assert (version k = v) as ->; [|done]. apply Z.le_antisymm; [apply Hn; unfold key_of; eauto 10|].
    unfold obsolete in Ho. rewrite Hk, Hv in Ho. by apply Z.ltb_ge in Ho.
  - intros (key & k & raw & Hraw & Hk & Hn & Hr). exists key. pose proof (listed_elem flt files) as Hl.
    split; [apply list_elem_of_In, Hl; by exists raw|]. unfold blocked.
    rewrite Hk, (proj1 (proj1 (visible_lookup _ _ _ _) Hraw)), Hr, andb_true_r. apply negb_true_iff, not_true_is_false.
    intros (v & Hv & Hlt)%(obsolete_iff _ _ Hl key k Hk). destruct Hv as [Hkv _].
    destruct Hn as [_ Hn]. specialize (Hn v Hkv). lia.
Qed.

Lemma accessor_new_spec flt files wid now :
  (unreadable flt files → MetadataAccessor_new (mk_FilesystemKVStorage files flt) wid now = Err FileSystem) ∧
  (¬ unreadable flt files → ∃ a, MetadataAccessor_new (mk_FilesystemKVStorage files flt) wid now = Ok a) ∧
  (∀ a, MetadataAccessor_new (mk_FilesystemKVStorage files flt) wid now = Ok a →
    (∀ w, recovered_time (visible flt files) w (past_runs_threshold_times a !! w)) ∧
    kept_blocks (last_version_per_worker (listed flt files)) flt (listed flt files) files (kv_files (backend a)) ∧
    accessor_last_advanced_timestamp a = At (mk_Timestamp 0) ∧
    current_key_to_use a = MetadataKey_to_string (mk_MetadataKey now wid 0) ∧
    next_key_to_use a = MetadataKey_to_string (mk_MetadataKey now wid 1) ∧ kv_faults (backend a) = flt).
Proof.
  unfold MetadataAccessor_new, unreadable. cbn [list_keys filesystem_backend kv_files kv_faults mbind outcome_bind].
  destruct (read_dir_fails flt) eqn:Hd; [split; [done|split; [naive_solver|done]]|]. fold (listed flt files). cbn [mbind outcome_bind].
  pose proof (listed_elem flt files) as Hl.
  pose proof (load_blocks_spec (last_version_per_worker (listed flt files)) flt (listed flt files) files StoredMetadata_new ∅) as Hs.
  rewrite <- blocked_iff. destruct (existsb _ _) eqn:Hex.
  { rewrite Hs; [|apply listed_nodup| |intros; by eapply last_version_present]; [split; [done|split; [naive_solver|done]]|].
    intros key [raw Hraw]%Hl. apply visible_lookup in Hraw. naive_solver. }
  split; [naive_solver|].
  destruct Hs as (f' & s' & -> & Hk & Hlast); [apply listed_nodup| |intros; by eapply last_version_present|].
  { intros key [raw Hraw]%Hl. apply visible_lookup in Hraw. naive_solver. }
  split; [intros _; by eexists|]. intros a [= <-]. cbn. split_and!; try done. intros w.
  rewrite (omap_ext_elem _ (contribution (last_version_per_worker (listed flt files)) (visible flt files))).
  2: { intros key [raw Hraw]%Hl. unfold contribution. by rewrite Hraw, (proj1 (proj1 (visible_lookup _ _ _ _) Hraw)). }
  pose proof (keep_max_spec ord_le frontier_max
    ltac:(intros; apply frontier_max_spec) ltac:(intros; apply frontier_max_spec) ltac:(intros; apply frontier_max_spec)
    (omap (contribution (last_version_per_worker (listed flt files)) (visible flt files)) (listed flt files)) w) as Hm.
  destruct (foldl _ _ _ !! w) as [t|]; cbn in *.
  - destruct Hm as [(v & block & Hn & Hb & Ht)%(contribution_elem _ _ Hl) Hmax].
    exists v. split; [done|]. split; [eauto|]. intros block' Hb'. apply Hmax, (contribution_elem _ _ Hl). eauto.
  - intros v block Hn Hb. eapply Hm, (contribution_elem _ _ Hl). eauto 10.
Qed.
End recovery.

(** ** Durability of the finalized time *)

Section durability.
Context `{MetadataSerdeLaws}.
Implicit Types files : gmap string string.
Abbreviation storage := (WorkerPersistentStorage FilesystemKVStorage).
Abbreviation files_of w := (kv_files (backend (metadata_storage w))).

Lemma key_of_insert files key k raw w v :
  MetadataKey_from_str key = Some k → key_of (<[key := raw]> files) w v →
  (worker_id k = w ∧ version k = v) ∨ key_of files w v.
Proof.
  intros Hk (key' & k' & raw' & Hl & Hk' & Hw & Hv). destruct (decide (key' = key)) as [->|Hne].
  - left. by simplify_eq.
  - right. rewrite lookup_insert_ne in Hl by done. unfold key_of. eauto 10.
Qed.
Lemma block_of_insert_inv files key raw w v block :
  block_of (<[key := raw]> files) w v block → StoredMetadata_parse raw = Ok block ∨ block_of files w v block.
Proof.
  intros (key' & k' & raw' & Hl & Hk' & Hw & Hv & Hp). destruct (decide (key' = key)) as [->|Hne].
  - left. rewrite lookup_insert_eq in Hl. by simplify_eq.
  - right. rewrite lookup_insert_ne in Hl by done. unfold block_of. eauto 10.
Qed.
Lemma block_of_insert files key k raw block :
  MetadataKey_from_str key = Some k → StoredMetadata_parse raw = Ok block →
  block_of (<[key := raw]> files) (worker_id k) (version k) block.
Proof. intros Hk Hp. exists key, k, raw. by rewrite lookup_insert_eq. Qed.
Lemma metadata_parse_serialized m : StoredMetadata_parse (metadata_to_string m) = Ok m.
Proof. unfold StoredMetadata_parse. by rewrite metadata_no_trailing_space, metadata_roundtrip. Qed.
Lemma key_of_kept versions flt keys files files' w v :
  kept_blocks versions flt keys files files' → key_of files' w v → key_of files w v.
Proof.
  intros Hk (key & k & raw & Hl & Hrest). rewrite Hk in Hl. destruct (removed _ _ _ _); [done|].
  unfold key_of. eauto 10.
Qed.
Lemma block_of_key_of files w v block : block_of files w v block → key_of files w v.
Proof. unfold block_of, key_of. naive_solver. Qed.

(** The operations the engine performs on the storage of a worker. *)
Inductive tracker_step : storage → storage → Prop :=
| step_register_input_source w pid st w' :
    register_input_source w pid st = Ok w' → tracker_step w w'
| step_register_sink w : tracker_step w (register_sink w).2
| step_create_snapshot_writer w pid (created : outcome unit unit) w' :
    create_snapshot_writer w pid created = Ok w' → tracker_step w w'
| step_update_sink_finalized_time w sink reported elapsed flush w' :
    update_sink_finalized_time w sink reported elapsed flush = Ok w' → tracker_step w w'.
(** The time that an operation has saved: a successful write of the metadata
    changes the key to use. *)
Definition saved (w w' : storage) : option (TotalFrontier Timestamp) :=
  if bool_decide (current_key_to_use (metadata_storage w') = current_key_to_use (metadata_storage w)) then None
  else Some (last_finalized_timestamp w').
(** A run of a worker, with the time that was saved last. *)
Inductive tracker_run (w0 : storage) : option (TotalFrontier Timestamp) → storage → Prop :=
| run_start : tracker_run w0 None w0
| run_step s w w' : tracker_run w0 s w → tracker_step w w' →
    tracker_run w0 (match saved w w' with Some t => Some t | None => s end) w'.

(** The storage of worker [wid] whose keys carry version [v] and that saved [s] last:
    the block of the key to use next is the one saved last, that of the other key is
    an older one or was cut off. *)
Record durable (v wid : Z) (s : option (TotalFrontier Timestamp)) (w : storage) : Prop := {
  durable_keys : ∃ r, (r = 0 ∨ r = 1) ∧
    current_key_to_use (metadata_storage w) = MetadataKey_to_string (mk_MetadataKey v wid r) ∧
    next_key_to_use (metadata_storage w) = MetadataKey_to_string (mk_MetadataKey v wid (1 - r));
  durable_newest : ∀ v', key_of (files_of w) wid v' → v' ≤ v;
  durable_bound : ∀ block, block_of (files_of w) wid v block →
    ∃ t, s = Some t ∧ ord_le (last_advanced_timestamp block) t;
  durable_le : ∀ t, s = Some t → ord_le t (last_finalized_timestamp w);
  durable_saved : ∀ t, s = Some t → ∃ raw block,
    files_of w !! next_key_to_use (metadata_storage w) = Some raw ∧ StoredMetadata_parse raw = Ok block ∧
    last_advanced_timestamp block = t
}.

Context (v wid : Z) (Hv : in_u128 v = true) (Hwid : in_u64 wid = true).

Lemma own_key r : r = 0 ∨ r = 1 →
  MetadataKey_from_str (MetadataKey_to_string (mk_MetadataKey v wid r)) = Some (mk_MetadataKey v wid r).
Proof using Hv Hwid.
  intros Hr. apply metadata_key_parse. unfold metadata_key_in_range. cbn. rewrite Hv, Hwid. by destruct Hr as [-> | ->].
Qed.
Lemma own_keys_differ r : r = 0 ∨ r = 1 →
  MetadataKey_to_string (mk_MetadataKey v wid r) ≠ MetadataKey_to_string (mk_MetadataKey v wid (1 - r)).
Proof using Hv Hwid.
  intros Hr Heq%(f_equal MetadataKey_from_str). rewrite !own_key in Heq by lia. injection Heq. lia.
Qed.
(** A write of the metadata either saves them, or leaves at most a cut off block. *)
Lemma fs_write_cases files flt key m :
  ∃ files' r flt', fs_write (mk_FilesystemKVStorage files flt) key (metadata_to_string m) = (r, mk_FilesystemKVStorage files' flt') ∧
    ((r = Ok tt ∧ files' = <[key := metadata_to_string m]> files) ∨
     (r = Err FileSystem ∧ (files' = files ∨ ∃ raw, files' = <[key := raw]> files ∧ ∀ block, StoredMetadata_parse raw ≠ Ok block))) ∧
    (write_faults flt = [] → r = Ok tt ∧ write_faults flt' = []).
Proof.
  unfold fs_write. cbn [kv_files kv_faults]. destruct (write_faults flt) as [|[[|n]|] fs] eqn:Ew; cbn [head].
  - do 3 eexists. split; [done|]. split; [by left|]. intros _. unfold next_writes. cbn. by rewrite Ew.
  - do 3 eexists. split; [done|]. split; [|done]. right. split; [done|]. by left.
  - destruct (Nat.ltb_spec n (String.length (metadata_to_string m))) as [Hn|Hn]; do 3 eexists; (split; [done|]); (split; [|done]).
    + right. split; [done|]. right. eexists. split; [done|]. intros block Hp. unfold StoredMetadata_parse in Hp.
      by rewrite metadata_cut_off in Hp.
    + by left.
  - do 3 eexists. split; [done|]. split; [by left|done].
Qed.
Lemma commit_eq (w : storage) futures t :
  let m := accessor_accept_finalized_timestamp (metadata_storage w) t in
  commit_finalized_timestamp w (mk_LogicalTimeCommitData futures t) =
  mk_WorkerPersistentStorage (snd (save_current_state m)) (config w) (snapshot_writers w) (sink_threshold_times w)
    (registered_persistent_ids w).
Proof. done. Qed.
Lemma last_finalized_commit (w : storage) futures t :
  last_finalized_timestamp (commit_finalized_timestamp w (mk_LogicalTimeCommitData futures t)) = t.
Proof.
  rewrite commit_eq. unfold save_current_state, last_finalized_timestamp, accessor_last_advanced_timestamp. cbn [metadata_storage].
  destruct (put_value _ _ _) as [[| |] b]; done.
Qed.

Lemma durable_commit s w futures t :
  durable v wid s w → ord_le (last_finalized_timestamp w) t →
  let w' := commit_finalized_timestamp w (mk_LogicalTimeCommitData futures t) in
  durable v wid (match saved w w' with Some t => Some t | None => s end) w' ∧
  (write_faults (kv_faults (backend (metadata_storage w))) = [] →
    saved w w' = Some t ∧ write_faults (kv_faults (backend (metadata_storage w'))) = []).
Proof using All.
  intros [(r & Hr & Hcur & Hnext) Hnew Hbound Hsle Hsaved] Hle w'. unfold w'. rewrite commit_eq. unfold saved.
  destruct w as [[[files flt] [sts lat] past cur nxt] cfg wr sk reg]. cbn in Hcur, Hnext, Hnew, Hbound, Hle, Hsle, Hsaved |- *.
  unfold save_current_state. cbn [put_value filesystem_backend backend internal_state current_key_to_use].
  unfold accessor_accept_finalized_timestamp. cbn. subst cur nxt.
  destruct (fs_write_cases files flt (MetadataKey_to_string (mk_MetadataKey v wid r)) (mk_StoredMetadata sts t))
    as (files' & res & flt' & Hw & Hres & Hgood). rewrite Hw.
  pose proof (own_key r Hr) as Hk. pose proof (own_keys_differ r Hr) as Hd.
  assert (∀ raw v', key_of (<[MetadataKey_to_string (mk_MetadataKey v wid r) := raw]> files) wid v' → v' ≤ v) as Hkeys.
  { intros raw v' [[_ <-]|Hin]%(key_of_insert _ _ _ _ _ _ Hk); [cbn; lia|by apply Hnew]. }
  destruct Hres as [[-> ->]|[-> Hf]]; cbn.
  - rewrite bool_decide_eq_false_2 by congruence. split; [|intros Hn; split; [done|by apply Hgood]].
    split; cbn.
    + exists (1 - r). split_and!; [lia|done|]. by replace (1 - (1 - r)) with r by lia.
    + intros v'. apply Hkeys.
    + intros block [Hp|Hb]%block_of_insert_inv; exists t; (split; [done|]).
      * rewrite metadata_parse_serialized in Hp. injection Hp as <-. reflexivity.
      * destruct (Hbound block Hb) as (t0 & -> & Hb0). etrans; [exact Hb0|]. etrans; [by apply Hsle|done].
    + intros t' [= <-]. reflexivity.
    + intros t' [= <-]. do 2 eexists. rewrite lookup_insert_eq. split; [done|]. split; [apply metadata_parse_serialized|done].
  - rewrite bool_decide_eq_true_2 by done. split; [|intros Hn; by destruct (Hgood Hn)].
    assert (files' = files ∨ ∃ raw, files' = <[MetadataKey_to_string (mk_MetadataKey v wid r) := raw]> files ∧
      ∀ block, StoredMetadata_parse raw ≠ Ok block) as Hf' by done.
    split; cbn.
    + exists r. by split_and!.
    + intros v'. destruct Hf' as [->|(raw & -> & _)]; [apply Hnew|apply Hkeys].
    + intros block Hb. apply Hbound. destruct Hf' as [->|(raw & -> & Hno)]; [done|].
      apply block_of_insert_inv in Hb as [Hp|Hb]; [by destruct (Hno block)|done].
    + intros t' Ht'. etrans; [by apply Hsle|done].
    + intros t' Ht'. destruct (Hsaved t' Ht') as (raw & block & Hl & Hp & Hlast). exists raw, block. split_and!; [|done..].
      destruct Hf' as [->|(raw' & -> & _)]; [done|]. by rewrite lookup_insert_ne.
Qed.

(** [update_sink_finalized_time] only records the reported time, or commits
    in addition: the minimum over the sinks, or the old time again when the
    minimum is behind it. *)
Definition with_sink_times (w : storage) (times : list (TotalFrontier Timestamp)) : storage :=
  mk_WorkerPersistentStorage (metadata_storage w) (config w) (snapshot_writers w) times
    (registered_persistent_ids w).
Lemma update_cases (w : storage) sink reported elapsed flush w' :
  update_sink_finalized_time w sink reported elapsed flush = Ok w' →
  let times := <[sink := match reported with Some t => At t | None => Done end]> (sink_threshold_times w) in
  ∃ m, (sink < length (sink_threshold_times w))%nat ∧ iter_min times = Some m ∧
    (w' = with_sink_times w times ∨
     ∃ futures t, w' = commit_finalized_timestamp (with_sink_times w times) (mk_LogicalTimeCommitData futures t) ∧
       ord_le (last_finalized_timestamp w) t ∧ (t = last_finalized_timestamp w ∨ t = m)).
Proof.
  intros Hu times. unfold update_sink_finalized_time in Hu.
  destruct (Nat.ltb_spec sink (length (sink_threshold_times w))) as [Hs|]; [|done].
  fold times in Hu. destruct (iter_min times) as [m|]; [|done]. exists m. split_and!; [done..|].
  change (mk_WorkerPersistentStorage _ _ _ times _) with (with_sink_times w times) in Hu.
  destruct (_ && _); [|left; by injection Hu]. unfold accept_finalized_timestamp in Hu.
  change (last_finalized_timestamp (with_sink_times w times)) with (last_finalized_timestamp w) in Hu.
  destruct (ord_leb m (last_finalized_timestamp w)) eqn:Hle.
  - right. injection Hu as <-. eexists _, _. split_and!; [done|reflexivity|by left].
  - destruct (prepare _); [|left; by injection Hu]. right. injection Hu as <-.
    eexists _, _. split_and!; [done| |by right].
    destruct (cmp_le_total m (last_finalized_timestamp w)) as [Hm|Hm]; [|done].
    by rewrite (proj2 (ord_leb_spec _ _) Hm) in Hle.
Qed.
Lemma tracker_step_durable s w w' :
  durable v wid s w → tracker_step w w' →
  durable v wid (match saved w w' with Some t => Some t | None => s end) w' ∧
  ord_le (last_finalized_timestamp w) (last_finalized_timestamp w') ∧
  (write_faults (kv_faults (backend (metadata_storage w))) = [] →
    write_faults (kv_faults (backend (metadata_storage w'))) = [] ∧
    (last_finalized_timestamp w' = last_finalized_timestamp w ∨ saved w w' = Some (last_finalized_timestamp w'))).
Proof using All.
  assert (∀ w1 w2 : storage, backend (metadata_storage w1) = backend (metadata_storage w2) →
    last_finalized_timestamp w1 = last_finalized_timestamp w2 →
    current_key_to_use (metadata_storage w1) = current_key_to_use (metadata_storage w2) →
    next_key_to_use (metadata_storage w1) = next_key_to_use (metadata_storage w2) →
    durable v wid s w1 → durable v wid (match saved w1 w2 with Some t => Some t | None => s end) w2 ∧
      ord_le (last_finalized_timestamp w1) (last_finalized_timestamp w2) ∧
      (write_faults (kv_faults (backend (metadata_storage w1))) = [] →
        write_faults (kv_faults (backend (metadata_storage w2))) = [] ∧
        (last_finalized_timestamp w2 = last_finalized_timestamp w1 ∨ saved w1 w2 = Some (last_finalized_timestamp w2))))
    as Hsame.
  { intros w1 w2 Hf Hl Hc Hn [Hk Hnew Hb Hle Hs]. unfold saved. rewrite Hc, bool_decide_eq_true_2 by done.
    split; [split; rewrite <- ?Hf, <- ?Hl, <- ?Hc, <- ?Hn; done|].
    rewrite Hl, <- Hf. split; [done|]. intros; split; [done|by left]. }
  intros Hd Hstep. destruct Hstep as [w pid st w' Hr|w|w pid created w' Hc|w sink rep el flush w' Hu].
  - unfold register_input_source in Hr. destruct (decide _); [done|]. injection Hr as <-. by apply (Hsame w).
  - by apply (Hsame w).
  - unfold create_snapshot_writer in Hc. destruct (decide _); [injection Hc as <-; by apply (Hsame w)|].
    apply bind_ok in Hc as (? & _ & Hc). injection Hc as <-. by apply (Hsame w).
  - apply update_cases in Hu as (m & Hs & Hm & [->|(futures & t & -> & Hle & _)]); [by apply (Hsame w)|].
    set (times := <[sink := _]> _) in *.
    assert (durable v wid s (with_sink_times w times)) as Hd'.
    { destruct Hd as [Hk Hnew Hb Hl Hsv]. by split. }
    destruct (durable_commit s (with_sink_times w times) futures t Hd' Hle) as [Hc Hgood].
    rewrite last_finalized_commit. split; [exact Hc|]. split; [done|]. intros Hw. destruct (Hgood Hw) as [Hsv Hw'].
    split; [exact Hw'|]. right. exact Hsv.
Qed.

Lemma durable_new files flt cfg w :
  cfg_worker_id cfg = wid → (∀ v', key_of files wid v' → v' < v) →
  WorkerPersistentStorage_new cfg (mk_FilesystemKVStorage files flt) v = Ok w →
  durable v wid None w ∧ last_finalized_timestamp w = At (mk_Timestamp 0) ∧
  write_faults (kv_faults (backend (metadata_storage w))) = write_faults flt.
Proof using All.
  intros Hc Hclock. unfold WorkerPersistentStorage_new. rewrite Hc.
  intros (a & Ha & [= <-])%bind_ok.
  destruct (accessor_new_spec flt files wid v) as (_ & _ & Hgood).
  destruct (Hgood a Ha) as (_ & Hk & Hl & Hcur & Hnext & Hflt). split; [|cbn; by rewrite Hflt].
  split; cbn; [exists 0; split_and!; auto| | |done|done].
  - intros v' Hin%(key_of_kept _ _ _ _ _ _ _ Hk). specialize (Hclock v' Hin). lia.
  - intros block Hb%block_of_key_of%(key_of_kept _ _ _ _ _ _ _ Hk). specialize (Hclock v Hb). lia.
Qed.

(** The keys of the blocks are ASCII. *)
Lemma ascii_utf8 s : string_forall (λ c, (N_of_ascii c <? 128)%N) s = true → utf8_valid (string_bytes s) = true.
Proof.
  unfold string_bytes. induction s as [|c s IH]; cbn; [done|]. intros [Hc Hs]%andb_prop.
  unfold in_range at 1. apply N.ltb_lt in Hc. replace (_ && _) with true by lia. by apply IH.
Qed.
Lemma string_forall_app P a b : string_forall P (a +:+ b) = string_forall P a && string_forall P b.
Proof.
  induction a as [|c a IH]; [done|]. change (String c a +:+ b) with (String c (a +:+ b)).
  cbn [string_forall]. by rewrite IH, andb_assoc.
Qed.
Lemma int_to_string_ascii n : 0 ≤ n → string_forall (λ c, (N_of_ascii c <? 128)%N) (int_to_string n) = true.
Proof.
  intros Hn. unfold int_to_string. destruct (Z.ltb_spec n 0); [lia|].
  eapply string_forall_impl; [|by apply dec_nat_digits]. by intros [[] [] [] [] [] [] [] []].
Qed.
Lemma own_key_utf8 r : r = 0 ∨ r = 1 → utf8_valid (string_bytes (MetadataKey_to_string (mk_MetadataKey v wid r))) = true.
Proof using Hv Hwid.
  intros Hr. apply ascii_utf8. unfold MetadataKey_to_string. cbn [version worker_id rotation_id].
  apply in_u64_spec in Hwid as Hw. assert (0 ≤ v) by (unfold in_u128 in Hv; lia).
  rewrite string_forall_app. cbn [string_forall]. rewrite string_forall_app. cbn [string_forall].
  rewrite !int_to_string_ascii by lia. done.
Qed.

(** A restart that sees every entry and can read the blocks recovers what was saved. *)
Lemma durable_recovers s t w flt wid' now' :
  durable v wid s w → s = Some t → (∀ key, entry_fails flt key = false) → ¬ unreadable flt (files_of w) →
  ∃ a, MetadataAccessor_new (mk_FilesystemKVStorage (files_of w) flt) wid' now' = Ok a ∧
    past_runs_threshold_times a !! wid = Some t.
Proof using All.
  intros [(r & Hr & _ & Hnext) Hnew Hbound _ Hsaved] Hs Hscan Hread.
  destruct (accessor_new_spec flt (files_of w) wid' now') as (_ & Hok & Hspec). specialize (Hok Hread).
  destruct Hok as [a Ha]. exists a. split; [done|]. destruct (Hspec a Ha) as [Hrec _]. specialize (Hrec wid).
  destruct (Hsaved t Hs) as (raw & block & Hl & Hp & Hlast).
  rewrite Hnext in Hl. assert (1 - r = 0 ∨ 1 - r = 1) as Hr' by lia.
  set (vis := visible flt (files_of w)) in *.
  assert (vis !! MetadataKey_to_string (mk_MetadataKey v wid (1 - r)) = Some raw) as Hvis.
  { apply visible_lookup. split; [done|]. unfold entry_seen. rewrite Hscan. cbn. by apply own_key_utf8. }
  assert (block_of vis wid v block) as Hb.
  { exists (MetadataKey_to_string (mk_MetadataKey v wid (1 - r))), (mk_MetadataKey v wid (1 - r)), raw.
    split_and!; try done. by apply own_key. }
  assert (∀ w0 v0, key_of vis w0 v0 → key_of (files_of w) w0 v0) as Hsubk.
  { intros w0 v0 (key & k & raw0 & H1%visible_lookup & H2). destruct H1 as [H1 _]. unfold key_of. eauto 10. }
  assert (∀ b0, block_of vis wid v b0 → block_of (files_of w) wid v b0) as Hsubb.
  { intros b0 (key & k & raw0 & H1%visible_lookup & H2). destruct H1 as [H1 _]. unfold block_of. eauto 10. }
  assert (newest_version vis wid v) as Hn by (split; [by eapply block_of_key_of|intros; by apply Hnew, Hsubk]).
  destruct (past_runs_threshold_times a !! wid) as [t'|]; cbn in Hrec; [|by destruct (Hrec v block Hn)].
  destruct Hrec as (v' & Hn' & (block' & Hb' & <-) & Hmax).
  rewrite (newest_version_unique _ _ _ _ Hn' Hn) in *. f_equal. apply frontier_le_antisym.
  - destruct (Hbound block' (Hsubb _ Hb')) as (t0 & E & Hle). by simplify_eq.
  - rewrite <- Hlast. by apply Hmax.
Qed.
End durability.

(** [prepare] succeeds exactly when no flush was canceled. *)
Definition not_canceled (r : FlushResult) : bool := match r with Canceled => false | _ => true end.
Lemma prepare_spec futures t : prepare (mk_LogicalTimeCommitData futures t) = forallb not_canceled futures.
Proof.
  unfold prepare. cbn [snapshot_futures].
  assert (∀ b, foldl (λ saved r, match r with Canceled => false | _ => saved end) b futures =
               b && forallb not_canceled futures) as Hf; [|apply Hf].
  induction futures as [|[] futures IH]; intros b; cbn; rewrite ?IH, ?andb_true_r, ?andb_false_r; done.
Qed.
Lemma forallb_map_eq {A B} (f : A → B) (P : B → bool) l : forallb P (map f l) = forallb (λ x, P (f x)) l.
Proof. induction l as [|x l IH]; cbn; [done|]. by rewrite IH. Qed.

(** ** Assignment of the former workers' snapshots *)

Definition snapshot_dir (id : Z) (e : DirEntry) : Prop :=
  is_dir e = true ∧ file_name e ≫= parse_u64 = Some id.
Definition snapshot_path_of (root_path : string) (id : Z) (pid : PersistentId) : string :=
  path_join (path_join root_path "streams") (int_to_string id +:+ "/" +:+ int_to_string pid).

Lemma assigned_lookup c root entries pid purpose id p :
  assigned_snapshot_paths c root entries pid purpose !! id = Some p ↔
  Exists (snapshot_dir id) entries ∧
  includes_worker purpose id (cfg_worker_id c) (total_workers c) = true ∧ p = snapshot_path_of root id pid.
Proof.
  unfold assigned_snapshot_paths.
  induction entries as [|e entries IH] using rev_ind; [cbn; rewrite lookup_empty, Exists_nil; naive_solver|].
  rewrite foldl_snoc, Exists_app, Exists_cons, Exists_nil. set (m := foldl _ _ _) in *.
  unfold snapshot_dir at 2. destruct (is_dir e) eqn:Hd; [|rewrite IH; naive_solver].
  destruct (file_name e ≫= parse_u64) as [id'|] eqn:Hp; [|rewrite IH; naive_solver].
  destruct (decide (id' = id)) as [->|Hne].
  - destruct (includes_worker purpose id _ _) eqn:Hi; [|rewrite IH; naive_solver].
    rewrite lookup_insert_eq. unfold snapshot_path_of. naive_solver.
  - destruct (includes_worker purpose id' _ _); rewrite ?lookup_insert_ne, IH by done; naive_solver.
Qed.

(** ** The properties *)

(** Printing a metadata key and parsing it gives the key back, for every
    version, worker and rotation id of their types; hence the keys of distinct
    blocks are distinct. *)
Theorem metadata_key_roundtrip (k1 k2 : MetadataKey) :
  metadata_key_in_range k1 = true → metadata_key_in_range k2 = true →
  MetadataKey_from_str (MetadataKey_to_string k1) = Some k1 ∧
  (MetadataKey_to_string k1 = MetadataKey_to_string k2 → k1 = k2).
Proof.
  intros H1 H2. split; [by apply metadata_key_parse|].
  intros Heq%(f_equal MetadataKey_from_str). rewrite !metadata_key_parse in Heq by done. congruence.
Qed.

(** C27: Opening the metadata of a directory fails exactly when the directory cannot be
    scanned, or a block of the newest version of its worker, among the blocks that the
    scan finds, cannot be read or is not UTF-8. Otherwise it recovers, for every worker,
    the largest time among the parsable blocks of that worker's newest version (nothing
    when it has none), starts a run at time 0, and removes exactly the found blocks
    older than the newest version of their worker, but for those that cannot be removed. *)
Theorem accessor_recovers_newest `{MetadataSerde} (files : gmap string string) (flt : KvFaults) (worker now : Z) :
  let opened := MetadataAccessor_new (mk_FilesystemKVStorage files flt) worker now in
  (unreadable flt files → opened = Err FileSystem) ∧
  (¬ unreadable flt files → ∃ a, opened = Ok a ∧
    (∀ w, recovered_time (visible flt files) w (past_runs_threshold_times a !! w)) ∧
    accessor_last_advanced_timestamp a = At (mk_Timestamp 0) ∧
    ∀ key raw, files !! key = Some raw →
      (kv_files (backend a) !! key = None ↔ obsolete_block flt files key ∧ remove_fails flt key = false) ∧
      (kv_files (backend a) !! key = None ∨ kv_files (backend a) !! key = Some raw)).
Proof.
  intros opened. destruct (accessor_new_spec flt files worker now) as (Hbad & Hok & Hspec). split; [done|]. intros Hr.
  destruct (Hok Hr) as [a Ha]. exists a. split; [done|]. destruct (Hspec a Ha) as (Hrec & Hk & Hl & _).
  split_and!; [done..|]. intros key raw Hraw. rewrite Hk. pose proof (listed_elem flt files) as Hle.
  assert (removed (last_version_per_worker (listed flt files)) flt (listed flt files) key = true ↔
    obsolete_block flt files key ∧ remove_fails flt key = false) as Hrm.
  { unfold removed, obsolete_block. rewrite !andb_true_iff, bool_decide_eq_true, negb_true_iff, Hle.
    destruct (MetadataKey_from_str key) as [k|] eqn:Hkey.
    - rewrite (obsolete_iff _ _ Hle key k Hkey). naive_solver.
    - unfold obsolete. rewrite Hkey. naive_solver. }
  destruct (removed _ _ _ _).
  { split; [split; [intros _; by apply Hrm|done]|by left]. }
  rewrite Hraw. split; [|by right]. split; [done|]. intros Ho%Hrm. done.
Qed.

(** C28: In every state that a worker reaches from its start by registering sources,
    sinks and writers and by reporting sink times, while any writes of the metadata fail
    and leave cut off blocks, the finalized time never decreases and is not behind the
    time saved last (the one of the last successful write); and once a time is saved,
    any restart that sees all entries of the directory and can read the newest blocks
    recovers exactly the time saved last, whichever worker restarts and whenever. If no
    write fails, the finalized time is the one saved last, or 0. The clock at the start
    is past the versions of the worker's earlier blocks; the serialized metadata parses
    back, and no cut off part of it does. *)
Theorem finalized_time_survives_restart `{MetadataSerdeLaws} files flt cfg v w0 s w :
  in_u128 v = true → in_u64 (cfg_worker_id cfg) = true →
  (∀ v', key_of files (cfg_worker_id cfg) v' → v' < v) →
  WorkerPersistentStorage_new cfg (mk_FilesystemKVStorage files flt) v = Ok w0 → tracker_run w0 s w →
  (∀ w', tracker_step w w' → ord_le (last_finalized_timestamp w) (last_finalized_timestamp w')) ∧
  (∀ t, s = Some t → ord_le t (last_finalized_timestamp w) ∧
    ∀ flt' worker now, (∀ key, entry_fails flt' key = false) →
      let files' := kv_files (backend (metadata_storage w)) in
      ¬ unreadable flt' files' →
      ∃ a, MetadataAccessor_new (mk_FilesystemKVStorage files' flt') worker now = Ok a ∧
        past_runs_threshold_times a !! cfg_worker_id cfg = Some t) ∧
  (write_faults flt = [] → s = Some (last_finalized_timestamp w) ∨ last_finalized_timestamp w = At (mk_Timestamp 0)).
Proof.
  intros Hv Hw Hclock Hnew Hrun.
  destruct (durable_new v _ Hv Hw files flt cfg w0 eq_refl Hclock Hnew) as (Hd0 & Hl0 & Hf0).
  assert (durable v (cfg_worker_id cfg) s w ∧ (write_faults flt = [] →
    write_faults (kv_faults (backend (metadata_storage w))) = [] ∧
    (s = Some (last_finalized_timestamp w) ∨ last_finalized_timestamp w = At (mk_Timestamp 0)))) as [Hd Hgood].
  { clear Hnew. induction Hrun as [|s w w' _ [Hd Hgood] Hstep]; [rewrite Hf0; auto|].
    destruct (tracker_step_durable v _ Hv Hw _ _ _ Hd Hstep) as (Hd' & _ & Hg). split; [done|].
    intros Hnone. destruct (Hgood Hnone) as [Hw0 Hs]. destruct (Hg Hw0) as [Hw' Hlast]. split; [done|].
    destruct Hlast as [Hsame|Hsv]; [|rewrite Hsv; by left]. unfold saved. case_bool_decide; [by rewrite Hsame|by left]. }
  split_and!.
  - intros w' Hstep. by destruct (tracker_step_durable v _ Hv Hw _ _ _ Hd Hstep) as (_ & Hle & _).
  - intros t Ht. split; [by apply (durable_le _ _ _ _ Hd)|]. intros flt' worker now Hscan files' Hread.
    by eapply (durable_recovers v _ Hv Hw s t w).
  - intros Hn. by apply Hgood.
Qed.


(** The snapshots of the former workers are partitioned among the present
    ones: every stream directory is read by exactly one worker, at the path the
    former worker wrote, and every worker sees every directory when it
    reconstructs the frontier. *)
Theorem snapshot_assignment_partition mode total root entries pid id :
  0 < total → 0 ≤ id → Exists (snapshot_dir id) entries →
  let cfg worker := mk_PersistenceManagerConfig mode worker total in
  (∃ worker, 0 ≤ worker < total ∧
    (assigned_snapshot_paths (cfg worker) root entries pid ReadSnapshot !! id =
      Some (snapshot_path_of root id pid)) ∧
    ∀ worker' p, assigned_snapshot_paths (cfg worker') root entries pid ReadSnapshot !! id = Some p →
      worker' = worker) ∧
  ∀ worker, assigned_snapshot_paths (cfg worker) root entries pid ReconstructFrontier !! id =
    Some (snapshot_path_of root id pid).
Proof.
  intros Ht Hid He cfg. split.
  - exists (id mod total). split_and!; [apply Z.mod_pos_bound; lia..| |].
    + apply assigned_lookup. split_and!; [done| |done]. apply Z.eqb_refl.
    + intros worker' p (_ & Hi & _)%assigned_lookup. symmetry. by apply Z.eqb_eq.
  - intros worker. by apply assigned_lookup.
Qed.

(** A flush that failed (as opposed to one that was canceled) does not stop
    the commit: the finalized time moves forward although the snapshot of the
    data up to it was not written. *)
Theorem failed_flush_still_commits `{MetadataSerde} (w : WorkerPersistentStorage FilesystemKVStorage) flush t :
  (∀ pid, flush pid = FlushFailed) → sink_threshold_times w = [last_finalized_timestamp w] →
  ord_ltb (last_finalized_timestamp w) (At t) = true →
  ∃ w', update_sink_finalized_time w 0 (Some t) true flush = Ok w' ∧ last_finalized_timestamp w' = At t.
Proof.
  intros Hf Hs Hlt. unfold update_sink_finalized_time. rewrite Hs. cbn -[accept_finalized_timestamp ord_eqb].
  unfold ord_ltb in Hlt.
  destruct (cmp (last_finalized_timestamp w) (At t)) eqn:Hc; try done.
  match goal with |- context [ord_eqb ?a ?b] => assert (ord_eqb a b = false) as -> end.
  { unfold ord_eqb. change (last_finalized_timestamp _) with (last_finalized_timestamp w).
    by rewrite (cmp_antisym (last_finalized_timestamp w)), Hc. }
  cbn [negb andb]. unfold accept_finalized_timestamp, ord_leb.
  change (last_finalized_timestamp (mk_WorkerPersistentStorage _ _ _ _ _)) with (last_finalized_timestamp w).
  rewrite (cmp_antisym (last_finalized_timestamp w)), Hc. cbn [CompOpp].
  rewrite prepare_spec, forallb_map_eq.
  replace (forallb _ _) with true.
  { eexists. split; [done|]. by rewrite last_finalized_commit. }
  symmetry. apply forallb_forall. intros pid _. by rewrite Hf.
Qed.

(** ** The properties at concrete inputs *)

(** A serialization of the metadata as text: the bits of its code, then a
    terminator. *)
Module ConcreteMetadata.
Definition storage_type_code (t : StorageType) : nat :=
  match t with
  | StFileSystem => 0 | StS3Csv => 1 | StS3Lines => 2 | StCsvFilesystem => 3 | StKafka => 4
  | StPython => 5 | StSqlite => 6
  end.
Definition storage_type_of_code (n : nat) : StorageType :=
  match n with
  | 0 => StFileSystem | 1 => StS3Csv | 2 => StS3Lines | 3 => StCsvFilesystem | 4 => StKafka
  | 5 => StPython | _ => StSqlite
  end%nat.
Definition metadata_code (m : StoredMetadata) : positive :=
  encode (map (prod_map id storage_type_code) (map_to_list (storage_types m)),
          match last_advanced_timestamp m with At t => Some (ts_0 t) | Done => None end).
Definition metadata_of_code (p : positive) : option StoredMetadata :=
  ' (l, t) ← (decode p : option (list (Z * nat) * option N));
  Some (mk_StoredMetadata (list_to_map (map (prod_map id storage_type_of_code) l))
          match t with Some n => At (mk_Timestamp n) | None => Done end).
Fixpoint bits_to_string (p : positive) : string :=
  match p with
  | xI p => String "1" (bits_to_string p)
  | xO p => String "0" (bits_to_string p)
  | xH => "}}}"
  end.
Fixpoint bits_of_string (s : string) : option positive :=
  match s with
  | EmptyString => None
  | String c s =>
      if (c =? "1")%char then xI <$> bits_of_string s
      else if (c =? "0")%char then xO <$> bits_of_string s
      else if (c =? "}")%char && (s =? "}}")%string then Some xH else None
  end.
#[export] Instance metadata_serde : MetadataSerde := {|
  metadata_from_str s := bits_of_string s ≫= metadata_of_code;
  metadata_to_string m := bits_to_string (metadata_code m)
|}.

Lemma bits_roundtrip p : bits_of_string (bits_to_string p) = Some p.
Proof. induction p as [p IH|p IH|]; cbn; rewrite ?IH; done. Qed.
Lemma metadata_code_roundtrip m : metadata_of_code (metadata_code m) = Some m.
Proof.
  unfold metadata_of_code, metadata_code. rewrite decode_encode. cbn. f_equal. destruct m as [sts lat]. cbn.
  f_equal; [|by destruct lat as [[n]|]].
  rewrite map_map. rewrite (map_ext _ id), map_id; [apply list_to_map_to_list|].
  intros [pid st]. cbn. by destruct st.
Qed.
Lemma bits_bytes p : ∃ l, bytes_of_string (bits_to_string p) = l ++ [125; 125; 125]%N.
Proof.
  induction p as [p [l IH]|p [l IH]|]; [exists (49%N :: l)|exists (48%N :: l)|by exists []];
    unfold bytes_of_string in *; cbn; by rewrite IH.
Qed.
Lemma trim_end_braces s l : bytes_of_string s = l ++ [125; 125; 125]%N → trim_end s = s.
Proof.
  intros Hs. assert (string_of_bytes (bytes_of_string s) = s) as Hb.
  { unfold string_of_bytes, bytes_of_string. rewrite map_map, (map_ext _ id), map_id.
    - apply String.string_of_list_ascii_of_string.
    - intros c. apply ascii_N_embedding. }
  unfold trim_end. rewrite Hs in Hb |- *. rewrite length_app. cbn [length].
  replace (length l + 3)%nat with (S (length l + 2)) by lia. cbn [trim_end_bytes].
  replace (whitespace_len_end _) with 0%nat; [done|]. unfold whitespace_len_end. rewrite length_app. cbn [length].
  rewrite !drop_app. replace (length l + 3 - 1 - length l)%nat with 2%nat by lia.
  replace (length l + 3 - 2 - length l)%nat with 1%nat by lia.
  replace (length l + 3 - 3 - length l)%nat with 0%nat by lia.
  rewrite (drop_ge l (length l + 3 - 1)), (drop_ge l (length l + 3 - 2)), (drop_ge l (length l + 3 - 3)) by lia.
  reflexivity.
Qed.
Lemma trim_end_bytes_prefix fuel bs : ∃ k, trim_end_bytes fuel bs = take k bs.
Proof.
  revert bs. induction fuel as [|fuel IH]; intros bs; cbn; [exists (length bs); by rewrite firstn_all|].
  destruct (whitespace_len_end bs) as [|n]; [exists (length bs); by rewrite firstn_all|].
  destruct (IH (take (length bs - S n) bs)) as [k Hk]. exists (Nat.min k (length bs - S n)). by rewrite Hk, take_take.
Qed.
Lemma take_bytes k s : string_of_bytes (take k (bytes_of_string s)) = String.substring 0 k s.
Proof.
  unfold string_of_bytes, bytes_of_string. revert k. induction s as [|c s IH]; intros [|k]; cbn; [done..|].
  by rewrite ascii_N_embedding, IH.
Qed.
Lemma trim_end_substring s : ∃ k, trim_end s = String.substring 0 k s.
Proof.
  unfold trim_end. destruct (trim_end_bytes_prefix (length (bytes_of_string s)) (bytes_of_string s)) as [k Hk].
  exists k. by rewrite Hk, take_bytes.
Qed.
Lemma substring_substring k n s : String.substring 0 k (String.substring 0 n s) = String.substring 0 (Nat.min k n) s.
Proof. revert k n. induction s as [|c s IH]; intros [|k] [|n]; cbn; by rewrite ?IH. Qed.
Lemma bits_cut_off p n : (n < String.length (bits_to_string p))%nat →
  bits_of_string (String.substring 0 n (bits_to_string p)) = None.
Proof.
  revert n. induction p as [p IH|p IH|]; intros [|n] Hn; cbn in *; [done|by rewrite IH by lia|done|by rewrite IH by lia|done|].
  destruct n as [|[|n]]; [done..|lia].
Qed.
#[export] Instance metadata_serde_laws : MetadataSerdeLaws.
Proof.
  split.
  - intros m. cbn. rewrite bits_roundtrip. apply metadata_code_roundtrip.
  - intros m. destruct (bits_bytes (metadata_code m)) as [l Hl]. by eapply trim_end_braces.
  - intros m n Hn. destruct (trim_end_substring (String.substring 0 n (metadata_to_string m))) as [k ->].
    rewrite substring_substring. cbn [metadata_from_str metadata_to_string metadata_serde] in *.
    by rewrite bits_cut_off by lia.
Qed.

(** Worker 1 of 2, started at clock 1700000000000 in an empty directory, with
    one sink and one snapshot writer; the disk is full at the second write. *)
Definition full_disk : KvFaults := mk_KvFaults false (λ _, false) (λ _, false) (λ _, false) [None; Some (WritesOnly 3)].
Definition sample_config : PersistenceManagerConfig := mk_PersistenceManagerConfig Persisting 1 2.
Definition fresh : WorkerPersistentStorage FilesystemKVStorage :=
  mk_WorkerPersistentStorage
    (mk_MetadataAccessor (mk_FilesystemKVStorage ∅ full_disk) StoredMetadata_new ∅
       (MetadataKey_to_string (mk_MetadataKey 1700000000000 1 0))
       (MetadataKey_to_string (mk_MetadataKey 1700000000000 1 1)))
    sample_config [] [] ∅.
Definition with_sink : WorkerPersistentStorage FilesystemKVStorage := (register_sink fresh).2.
Definition with_writer : WorkerPersistentStorage FilesystemKVStorage :=
  mk_WorkerPersistentStorage (metadata_storage with_sink) sample_config [7] [At (mk_Timestamp 0)] ∅.
Definition committed : WorkerPersistentStorage FilesystemKVStorage :=
  commit_finalized_timestamp
    (with_sink_times with_writer [At (mk_Timestamp 10)])
    (mk_LogicalTimeCommitData [Flushed] (At (mk_Timestamp 10))).
End ConcreteMetadata.

Section persistence_witnesses.
Import ConcreteMetadata.

Lemma metadata_key_roundtrip_witness :
  MetadataKey_from_str (MetadataKey_to_string (mk_MetadataKey 1700000000000 3 1)) =
    Some (mk_MetadataKey 1700000000000 3 1).
Proof.
  destruct (metadata_key_roundtrip (mk_MetadataKey 1700000000000 3 1) (mk_MetadataKey 0 0 0)) as [Hk _];
    [reflexivity..|]. exact Hk.
Defined.
(** The second report is cut off on its way to the disk: the restart recovers the
    first one. *)
Definition committed_twice : WorkerPersistentStorage FilesystemKVStorage :=
  commit_finalized_timestamp (with_sink_times committed [At (mk_Timestamp 20)])
    (mk_LogicalTimeCommitData [Flushed] (At (mk_Timestamp 20))).
Lemma full_disk_run : tracker_run fresh (Some (At (mk_Timestamp 10))) committed_twice.
Proof.
  change (Some (At (mk_Timestamp 10))) with
    (match saved committed committed_twice with Some t => Some t | None =>
       match saved with_writer committed with Some t => Some t | None =>
         match saved with_sink with_writer with Some t => Some t | None =>
           match saved fresh with_sink with Some t => Some t | None => None end end end end).
  eapply run_step; [eapply run_step; [eapply run_step; [eapply run_step; [apply run_start|]|]|]|].
  - exact (step_register_sink fresh).
  - eapply (step_create_snapshot_writer with_sink 7 (Ok tt)). vm_compute. reflexivity.
  - eapply (step_update_sink_finalized_time with_writer 0 (Some (mk_Timestamp 10)) true (λ _, Flushed)).
    vm_compute. reflexivity.
  - eapply (step_update_sink_finalized_time committed 0 (Some (mk_Timestamp 20)) true (λ _, Flushed)).
    vm_compute. reflexivity.
Qed.
Lemma readable_files (files : gmap string string) :
  forallb (λ kv, utf8_valid (string_bytes kv.2)) (map_to_list files) = true → ¬ unreadable no_faults files.
Proof.
  intros Hall [?|(key & k & raw & [Hl _]%visible_lookup & _ & _ & Hr)]; [done|].
  rewrite forallb_forall in Hall. specialize (Hall (key, raw) (proj1 (list_elem_of_In _ _) (proj2 (elem_of_map_to_list _ _ _) Hl))).
  unfold can_read in Hr. cbn [negb andb read_fails no_faults snd] in *. by rewrite Hall in Hr.
Qed.
Lemma accessor_recovers_newest_witness :
  ∃ a, MetadataAccessor_new (mk_FilesystemKVStorage (kv_files (backend (metadata_storage committed))) no_faults) 0 1800000000000 = Ok a ∧
    accessor_last_advanced_timestamp a = At (mk_Timestamp 0).
Proof.
  destruct (accessor_recovers_newest (kv_files (backend (metadata_storage committed))) no_faults 0 1800000000000) as [_ Hok].
  destruct Hok as (a & Ha & _ & Hl & _); [|exists a; split; [exact Ha|exact Hl]].
  apply readable_files. vm_compute. reflexivity.
Defined.
Lemma finalized_time_survives_restart_witness :
  last_finalized_timestamp committed_twice = At (mk_Timestamp 20) ∧
  ∃ a, MetadataAccessor_new (mk_FilesystemKVStorage (kv_files (backend (metadata_storage committed_twice))) no_faults) 0 1800000000000 = Ok a ∧
    past_runs_threshold_times a !! 1 = Some (At (mk_Timestamp 10)).
Proof.
  split; [vm_compute; reflexivity|].
  destruct (finalized_time_survives_restart ∅ full_disk sample_config 1700000000000 fresh (Some (At (mk_Timestamp 10))) committed_twice)
    as (_ & Hr & _).
  - reflexivity.
  - reflexivity.
  - intros v (key & k & raw & Hl & _). by rewrite lookup_empty in Hl.
  - vm_compute. reflexivity.
  - apply full_disk_run.
  - destruct (Hr _ eq_refl) as [_ H]. apply (H no_faults 0 1800000000000); [done|].
    apply readable_files. vm_compute. reflexivity.
Defined.
(** When the first write of a run is cut off, its block is the newest one of the
    worker by its name: the restart recovers nothing, although the block of the run
    before was there, and removes that one. *)
Example cut_off_first_block :
  let before := kv_files (backend (metadata_storage committed)) in
  let faults := mk_KvFaults false (λ _, false) (λ _, false) (λ _, false) [Some (WritesOnly 3)] in
  ∃ w1 w2 a1 a2,
    MetadataAccessor_new (mk_FilesystemKVStorage before no_faults) 1 1700000000500 = Ok a1 ∧
    past_runs_threshold_times a1 !! 1 = Some (At (mk_Timestamp 10)) ∧
    WorkerPersistentStorage_new sample_config (mk_FilesystemKVStorage before faults) 1700000000500 = Ok w1 ∧
    update_sink_finalized_time (register_sink w1).2 0 (Some (mk_Timestamp 12)) true (λ _, Flushed) = Ok w2 ∧
    MetadataAccessor_new (backend (metadata_storage w2)) 1 1700000000900 = Ok a2 ∧
    past_runs_threshold_times a2 !! 1 = None ∧ map_Forall (λ key _, key ∉ map fst (map_to_list before)) (kv_files (backend a2)).
Proof.
  do 4 eexists. split_and!; [vm_compute; reflexivity..|]. apply map_Forall_to_list. vm_compute. repeat constructor; set_solver.
Qed.
Lemma snapshot_assignment_partition_witness :
  assigned_snapshot_paths (mk_PersistenceManagerConfig Persisting 0 2) "/data"
    [mk_DirEntry (Some "3"%string) true] 7 ReconstructFrontier !! 3 = Some "/data/streams/3/7"%string.
Proof.
  destruct (snapshot_assignment_partition Persisting 2 "/data" [mk_DirEntry (Some "3"%string) true] 7 3)
    as [_ Hr]; [lia..|constructor; split; reflexivity|]. apply (Hr 0).
Defined.
Lemma failed_flush_still_commits_witness :
  ∃ w', update_sink_finalized_time with_writer 0 (Some (mk_Timestamp 10)) true (λ _, FlushFailed) = Ok w' ∧
    last_finalized_timestamp w' = At (mk_Timestamp 10).
Proof.
  apply (failed_flush_still_commits with_writer (λ _, FlushFailed) (mk_Timestamp 10)); reflexivity.
Defined.
End persistence_witnesses.
