(* ===== verification/Snapshot.v ===== *)
(** Input snapshots (src/connectors/snapshot.rs, offset.rs,
    src/persistence/frontier.rs): the events recorded for an input, the writer
    of binary snapshot files, the reader that replays them up to the last
    committed time and truncates the rest.

    bincode is an argument ([Bincode]); a directory is the map from its file
    names to their bytes.  Disk I/O itself does not fail. *)
From Stdlib Require Import ZArith Lia Bool Ascii.
From stdpp Require Import base list strings gmap.
From S2P Require Import Prelude Order Text Data Timestamp.
Open Scope Z_scope.

(** ** Offsets *)

Inductive OffsetKey := OkKafka (topic : string) (partition : Z) | OkEmpty.
Inductive OffsetValue :=
| KafkaOffset (offset : Z)
| FilePosition (total_entries_read : Z) (path : string) (bytes_offset : Z)
| S3ObjectPosition (total_entries_read : Z) (path : string) (bytes_offset : Z)
| PythonEntrySequentialId (id : Z)
| OvEmpty.
Definition Offset : Type := OffsetKey * OffsetValue.
Definition EMPTY_OFFSET : Offset := (OkEmpty, OvEmpty).

Global Instance OffsetKey_eq_dec : EqDecision OffsetKey.
Proof. solve_decision. Defined.
Global Instance OffsetKey_countable : Countable OffsetKey.
Proof.
  apply (inj_countable'
    (λ k, match k with OkKafka t p => Some (t, p) | OkEmpty => None end)
    (λ o, match o with Some (t, p) => OkKafka t p | None => OkEmpty end)).
  by intros [].
Defined.

Record OffsetAntichain := mk_OffsetAntichain { antichain : gmap OffsetKey OffsetValue }.
Definition OffsetAntichain_new : OffsetAntichain := mk_OffsetAntichain ∅.
Definition get_offset (a : OffsetAntichain) (k : OffsetKey) : option OffsetValue := antichain a !! k.
Definition advance_offset (a : OffsetAntichain) (k : OffsetKey) (v : OffsetValue) : OffsetAntichain :=
  mk_OffsetAntichain (<[k := v]> (antichain a)).

(** ** Events *)

Inductive Event :=
| Insert (key : Key) (values : list Value)
| Delete (key : Key) (values : list Value)
| Upsert (key : Key) (values : option (list Value))
| AdvanceTime (time : Timestamp) (frontier : OffsetAntichain)
| Finished.

Inductive S3CommandName := ListObjectsV2 | GetObject | DeleteObject | InitiateMultipartUpload | PutMultipartChunk | CompleteMultipartUpload.
Inductive ReadError := ReadIo | ReadBincode | ReadS3 (command : S3CommandName).
Inductive WriteError := WriteIo | WriteBincode | WriteS3 (command : S3CommandName).

(** ** bincode on events *)

(** [deserialize_from]: the value and the bytes left, or the kind of error. *)
Inductive Deserialized :=
| DeOk (event : Event) (rest : list Z)
| DeUnexpectedEof
| DeIo
| DeError.
(** [serialize_into] writes bytes and reports whether it succeeded. *)
Class Bincode := {
  bin_serialize : Event → list Z * bool;
  bin_deserialize : list Z → Deserialized
}.
Definition serializable `{Bincode} (e : Event) : bool := snd (bin_serialize e).
Definition event_bytes `{Bincode} (e : Event) : list Z := fst (bin_serialize e).
(** What was serialized deserializes to the event and consumes exactly its
    bytes; a proper prefix of it runs into the end of the input; deserializing
    looks at no more bytes than it consumes. *)
Class BincodeLaws `{Bincode} : Prop := {
  bin_nonempty : ∀ e, serializable e = true → event_bytes e ≠ [];
  bin_roundtrip : ∀ e rest, serializable e = true → bin_deserialize (event_bytes e ++ rest) = DeOk e rest;
  bin_prefix : ∀ e p q, serializable e = true → event_bytes e = p ++ q → q ≠ [] →
    bin_deserialize p = DeUnexpectedEof;
  bin_empty : bin_deserialize [] = DeUnexpectedEof;
  bin_consumes : ∀ bs e rest, bin_deserialize bs = DeOk e rest →
    ∃ used, used ≠ [] ∧ bs = used ++ rest ∧ ∀ rest', bin_deserialize (used ++ rest') = DeOk e rest'
}.

(** ** [trait ReadSnapshotEvent] *)

Class ReadSnapshotEvent (R : Type) := {
  rse_read : R → outcome ReadError (Event * R);
  rse_truncate : R → outcome ReadError unit * R;
  check_threshold_from_metadata : R → bool
}.

Abbreviation Directory := (gmap string (list Z)).

Section local.
Context `{Bincode}.

(** [reader]: the open file, as its length and the bytes not yet consumed;
    [root_dir]: the directory at [root_path]. *)
Record LocalBinarySnapshotReader := mk_LocalBinarySnapshotReader {
  root_dir : Directory;
  reader : option (nat * list Z);
  next_file_idx : nat;
  times_advanced : list Timestamp
}.

Definition local_reader_new (dir : Directory) : LocalBinarySnapshotReader :=
  mk_LocalBinarySnapshotReader dir None 0
    (sort (omap timestamp_from_str (map fst (map_to_list dir)))).

(** The loop of [read].  Every iteration returns, closes the current file or
    opens the next one. *)
Fixpoint local_read_loop (fuel : nat) (r : LocalBinarySnapshotReader)
    : outcome ReadError (Event * LocalBinarySnapshotReader) :=
  match fuel with
  | O => Panic "out of fuel"
  | S fuel =>
      match reader r with
      | Some (len, bytes) =>
          match bin_deserialize bytes with
          | DeOk entry rest =>
              Ok (entry, mk_LocalBinarySnapshotReader (root_dir r) (Some (len, rest)) (next_file_idx r)
                           (times_advanced r))
          | DeUnexpectedEof =>
              local_read_loop fuel
                (mk_LocalBinarySnapshotReader (root_dir r) None (next_file_idx r) (times_advanced r))
          | DeIo => Err ReadIo
          | DeError => Err ReadBincode
          end
      | None =>
          match times_advanced r !! next_file_idx r with
          | None => Ok (Finished, r)
          | Some time =>
              match root_dir r !! timestamp_to_string time with
              | None => Err ReadIo
              | Some bytes =>
                  local_read_loop fuel
                    (mk_LocalBinarySnapshotReader (root_dir r) (Some (length bytes, bytes))
                       (S (next_file_idx r)) (times_advanced r))
              end
          end
      end
  end.
Definition local_read_fuel (r : LocalBinarySnapshotReader) : nat :=
  2 * (length (times_advanced r) - next_file_idx r) + 2.
Definition local_read (r : LocalBinarySnapshotReader)
    : outcome ReadError (Event * LocalBinarySnapshotReader) :=
  local_read_loop (local_read_fuel r) r.

(** [remove_file] on each of the times. *)
Fixpoint remove_files (dir : Directory) (times : list Timestamp) : outcome ReadError unit * Directory :=
  match times with
  | [] => (Ok tt, dir)
  | t :: times =>
      match dir !! timestamp_to_string t with
      | None => (Err ReadIo, dir)
      | Some _ => remove_files (delete (timestamp_to_string t) dir) times
      end
  end.
Definition with_root_dir (r : LocalBinarySnapshotReader) (dir : Directory) : LocalBinarySnapshotReader :=
  mk_LocalBinarySnapshotReader dir (reader r) (next_file_idx r) (times_advanced r).
(** [set_len]: cut the file, or extend it with zeros. *)
Definition set_len (n : nat) (bytes : list Z) : list Z :=
  take n bytes ++ replicate (n - length bytes) 0.
Definition local_truncate (r : LocalBinarySnapshotReader)
    : outcome ReadError unit * LocalBinarySnapshotReader :=
  let shrunk : outcome ReadError Directory :=
    match reader r with
    | None => Ok (root_dir r)
    | Some (len, bytes) =>
        let stable_position := (len - length bytes)%nat in
        match times_advanced r !! (next_file_idx r - 1)%nat with
        | None => Panic "index out of bounds"
        | Some time =>
            match root_dir r !! timestamp_to_string time with
            | None => Err ReadIo
            | Some file => Ok (<[timestamp_to_string time := set_len stable_position file]> (root_dir r))
            end
        end
    end in
  match shrunk with
  | Ok dir =>
      let (result, dir) := remove_files dir (drop (next_file_idx r) (times_advanced r)) in
      (result, with_root_dir r dir)
  | Err e => (Err e, r)
  | Panic p => (Panic p, r)
  end.

Global Instance LocalBinarySnapshotReader_impl : ReadSnapshotEvent LocalBinarySnapshotReader := {|
  rse_read := local_read;
  rse_truncate := local_truncate;
  check_threshold_from_metadata _ := true
|}.

(** ** The writer *)

(** [lazy_writer]: the file it writes to and the bytes its buffer holds. *)
Record LocalBinarySnapshotWriter := mk_LocalBinarySnapshotWriter {
  writer_dir : Directory;
  lazy_writer : option (string * list Z)
}.
Definition local_writer_new (dir : Directory) : LocalBinarySnapshotWriter :=
  mk_LocalBinarySnapshotWriter dir None.

Definition append_file (dir : Directory) (path : string) (bytes : list Z) : Directory :=
  <[path := default [] (dir !! path) ++ bytes]> dir.

(** [now]: the clock; [spilled]: how many of the buffered bytes the
    [BufWriter] passes on to the file during this call. *)
Definition local_write (w : LocalBinarySnapshotWriter) (now : Z) (spilled : nat) (event : Event)
    : outcome WriteError unit * LocalBinarySnapshotWriter :=
  let '(dir, path, buffer) :=
    match lazy_writer w with
    | Some (path, buffer) => (writer_dir w, path, buffer)
    | None => let path := int_to_string now in (<[path := []]> (writer_dir w), path, [])
    end in
  let buffer := buffer ++ event_bytes event in
  (if serializable event then Ok tt else Err WriteBincode,
   mk_LocalBinarySnapshotWriter (append_file dir path (take spilled buffer)) (Some (path, drop spilled buffer))).
Definition local_flush (w : LocalBinarySnapshotWriter) : outcome WriteError unit * LocalBinarySnapshotWriter :=
  match lazy_writer w with
  | Some (path, buffer) =>
      (Ok tt, mk_LocalBinarySnapshotWriter (append_file (writer_dir w) path buffer) (Some (path, [])))
  | None => (Ok tt, w)
  end.
End local.

(** ** The mock reader *)

Record MockSnapshotReader := mk_MockSnapshotReader { mock_events : list Event }.
Global Instance MockSnapshotReader_impl : ReadSnapshotEvent MockSnapshotReader := {|
  rse_read r := match mock_events r with
                | e :: es => Ok (e, mk_MockSnapshotReader es)
                | [] => Ok (Finished, r)
                end;
  rse_truncate r := (Ok tt, r);
  check_threshold_from_metadata _ := false
|}.

(** ** [SnapshotReader] *)

Section snapshot_reader.
Context {R : Type} `{ReadSnapshotEvent R}.

Record SnapshotReader := mk_SnapshotReader {
  reader_impl : R;
  threshold_time : TotalFrontier Timestamp;
  entries_read : Z;
  last_frontier : OffsetAntichain;
  sr_truncate_at_end : bool
}.

Definition SnapshotReader_new (impl : R) (threshold : TotalFrontier Timestamp) (truncate_at_end : bool)
    : outcome ReadError SnapshotReader :=
  if ord_eqb threshold (At (mk_Timestamp 0)) && truncate_at_end then
    match rse_truncate impl with
    | (Ok _, impl) => Ok (mk_SnapshotReader impl threshold 0 OffsetAntichain_new truncate_at_end)
    | (Err e, _) => Err e
    | (Panic p, _) => Panic p
    end
  else Ok (mk_SnapshotReader impl threshold 0 OffsetAntichain_new truncate_at_end).

Definition snapshot_read (s : SnapshotReader) : outcome ReadError (Event * SnapshotReader) :=
  ' (event, impl) ← rse_read (reader_impl s);
  let next frontier n := mk_SnapshotReader impl (threshold_time s) n frontier (sr_truncate_at_end s) in
  match event with
  | Finished => Ok (Finished, next (last_frontier s) (entries_read s))
  | AdvanceTime new_time frontier =>
      let read_finished := ord_leb (threshold_time s) (At new_time) in
      if check_threshold_from_metadata impl && read_finished then
        if sr_truncate_at_end s then
          match rse_truncate impl with
          | (Ok _, impl) =>
              Ok (Finished, mk_SnapshotReader impl (threshold_time s) (entries_read s) frontier true)
          | (Err e, _) => Err e
          | (Panic p, _) => Panic p
          end
        else Ok (Finished, next frontier (entries_read s))
      else Ok (event, next frontier (entries_read s + 1))
  | _ => Ok (event, next (last_frontier s) (entries_read s + 1))
  end.
End snapshot_reader.
Arguments SnapshotReader : clear implicits.

(** The loop of its callers ([rewind_from_disk_snapshot] and [frontier_for]):
    the events read before [Finished] or an error, and the final state.  [fuel]
    bounds the number of calls. *)
Fixpoint read_to_end {R} `{ReadSnapshotEvent R} (fuel : nat) (s : SnapshotReader R)
    : option (list Event * SnapshotReader R) :=
  match fuel with
  | O => None
  | S fuel =>
      match snapshot_read s with
      | Ok (Finished, s) => Some ([], s)
      | Ok (e, s) => ' (es, s) ← read_to_end fuel s; Some (e :: es, s)
      | Err _ => Some ([], s)
      | Panic _ => None
      end
  end.
