(* ===== verification/SnapshotProps.v ===== *)
(** Theorems on the input snapshots: the reader replays the recorded events up
    to the committed time and truncates the directory to exactly what it
    consumed; what a writer recorded up to its last flush survives a crash at
    any later point. *)
From Stdlib Require Import ZArith Lia Bool Ascii Sorted.
From stdpp Require Import base list strings gmap sorting.
From S2P Require Import Prelude Order Text Data Timestamp Snapshot.
Open Scope Z_scope.

(** ** File names *)

Lemma int_to_string_inj a b : 0 ≤ a → 0 ≤ b → int_to_string a = int_to_string b → a = b.
Proof.
  intros Ha Hb Heq%(f_equal (parse_int false 0 (Z.max a b))).
  rewrite !parse_int_to_string in Heq by lia. congruence.
Qed.
Lemma timestamp_to_string_inj a b : timestamp_to_string a = timestamp_to_string b → a = b.
Proof.
  destruct a as [a], b as [b]. unfold timestamp_to_string. cbn.
  intros Heq%int_to_string_inj; [|lia..]. f_equal. lia.
Qed.

Lemma Timestamp_sorted_unique (l1 l2 : list Timestamp) :
  StronglySorted ord_le l1 → StronglySorted ord_le l2 → l1 ≡ₚ l2 → l1 = l2.
Proof.
  intros H1 H2 Hp. apply list_eq_Forall2.
  eapply Forall2_impl; [apply sorted_count_eq; [done..|]|].
  - intros z. by apply count_le_perm.
  - intros x y. apply Timestamp_cmp_eq.
Qed.

(** Every file is named by a time. *)
Definition names_ok (dir : Directory) : Prop := ∀ name, is_Some (dir !! name) →
  ∃ t, timestamp_from_str name = Some t ∧ name = timestamp_to_string t.
Definition dir_times (dir : Directory) : list Timestamp := times_advanced (local_reader_new dir).

#[global] Arguments dir_times : simpl never.
Lemma dir_times_perm dir :
  dir_times dir ≡ₚ omap timestamp_from_str (map fst (map_to_list dir)).
Proof. apply sort_by_perm. Qed.
Lemma dir_times_sorted dir : StronglySorted ord_le (dir_times dir).
Proof. apply sort_sorted. Qed.
Lemma elem_of_names (dir : Directory) name : name ∈ map fst (map_to_list dir) ↔ is_Some (dir !! name).
Proof.
  rewrite list_elem_of_fmap. split.
  - intros ([name' bs] & -> & Hin%elem_of_map_to_list). by exists bs.
  - intros [bs Hbs]. exists (name, bs). split; [done|]. by apply elem_of_map_to_list.
Qed.
Lemma elem_of_dir_times dir t : names_ok dir → t ∈ dir_times dir ↔ is_Some (dir !! timestamp_to_string t).
Proof.
  intros Hn. rewrite dir_times_perm, list_elem_of_omap. setoid_rewrite elem_of_names. split.
  - intros (name & Hname & Ht). destruct (Hn name Hname) as (t' & Ht' & ->). by simplify_eq.
  - intros Ht. exists (timestamp_to_string t). split; [done|].
    destruct (Hn _ Ht) as (t' & Ht' & ->%timestamp_to_string_inj). done.
Qed.
Lemma NoDup_omap_inj {A B} (f : A → option B) (l : list A) :
  (∀ x y z, x ∈ l → y ∈ l → f x = Some z → f y = Some z → x = y) → NoDup l → NoDup (omap f l).
Proof.
  intros Hf. induction 1 as [|x l Hx Hl IH]; [constructor|].
  change (omap f (x :: l)) with (match f x with Some y => y :: omap f l | None => omap f l end).
  assert (NoDup (omap f l)) by (apply IH; set_solver).
  destruct (f x) as [z|] eqn:Hz; [|done]. constructor; [|done].
  intros (y & Hy & Hfy)%list_elem_of_omap. destruct Hx. by rewrite (Hf x y z) by set_solver.
Qed.
Lemma NoDup_dir_times dir : names_ok dir → NoDup (dir_times dir).
Proof.
  intros Hn. rewrite dir_times_perm. apply NoDup_omap_inj; [|apply NoDup_fst_map_to_list].
  intros n1 n2 t H1%elem_of_names%Hn H2%elem_of_names%Hn Ht1 Ht2.
  destruct H1 as (t1 & Hp1 & ->), H2 as (t2 & Hp2 & ->). congruence.
Qed.
(** The times of a directory are the sorted list of its file names. *)
Lemma dir_times_unique dir l :
  names_ok dir → NoDup l → StronglySorted ord_le l →
  (∀ t, t ∈ l ↔ is_Some (dir !! timestamp_to_string t)) → dir_times dir = l.
Proof.
  intros Hn Hnd Hs Hl. apply Timestamp_sorted_unique; [apply dir_times_sorted|done|].
  apply NoDup_Permutation; [by apply NoDup_dir_times|done|].
  intros t. by rewrite elem_of_dir_times, Hl.
Qed.

(** ** The events of a file *)

Section decoding.
Context `{BincodeLaws}.

Fixpoint decode_fuel (fuel : nat) (bs : list Z) : list Event * Deserialized :=
  match fuel with
  | O => ([], DeUnexpectedEof)
  | S fuel => match bin_deserialize bs with
              | DeOk e rest => let (es, end_) := decode_fuel fuel rest in (e :: es, end_)
              | d => ([], d)
              end
  end.
(** The events at the start of the bytes, and why there are no more. *)
Definition decode (bs : list Z) : list Event * Deserialized := decode_fuel (S (length bs)) bs.

#[global] Arguments decode : simpl never.

Lemma decode_fuel_enough fuel bs : (length bs < fuel)%nat → decode_fuel fuel bs = decode bs.
Proof using Type*.
  unfold decode. remember (S (length bs)) as fuel' eqn:Hf'.
  assert (length bs < fuel')%nat as Hlt by lia. clear Hf'. revert fuel' bs Hlt.
  induction fuel as [|fuel IH]; intros fuel' bs Hlt' Hlt; [lia|].
  destruct fuel' as [|fuel']; [lia|]. cbn. destruct (bin_deserialize bs) as [e rest| | |] eqn:Hd; try done.
  apply bin_consumes in Hd as (used & Hne & -> & _). rewrite length_app in *.
  destruct used as [|b used]; [done|]. cbn in Hlt, Hlt'. by rewrite (IH fuel' rest) by lia.
Qed.
Lemma decode_step bs :
  decode bs = match bin_deserialize bs with
              | DeOk e rest => let (es, end_) := decode rest in (e :: es, end_)
              | d => ([], d)
              end.
Proof using Type*.
  unfold decode at 1. cbn [decode_fuel].
  destruct (bin_deserialize bs) as [e rest| | |] eqn:Hd; try done.
  apply bin_consumes in Hd as (used & Hne & -> & _). rewrite decode_fuel_enough; [done|].
  rewrite length_app. destruct used; [done|]. cbn. lia.
Qed.
Definition events_in (bs : list Z) : list Event := (decode bs).1.
#[global] Arguments events_in : simpl never.
(** Nothing but an unfinished record follows the events. *)
Definition clean (bs : list Z) : Prop := (decode bs).2 = DeUnexpectedEof.

(** [used] is exactly the record of the events [es]. *)
Definition records (used : list Z) (es : list Event) : Prop :=
  ∀ rest, decode (used ++ rest) = (es ++ events_in rest, (decode rest).2).
Lemma records_nil : records [] [].
Proof. intros rest. rewrite !app_nil_l. unfold events_in. by destruct (decode rest). Qed.
Lemma records_app u1 u2 es1 es2 : records u1 es1 → records u2 es2 → records (u1 ++ u2) (es1 ++ es2).
Proof.
  intros H1 H2 rest. rewrite <- !app_assoc, (H1 (u2 ++ rest)). unfold events_in at 1. by rewrite H2.
Qed.
Lemma records_deserialized bs e rest :
  bin_deserialize bs = DeOk e rest → ∃ used, bs = used ++ rest ∧ records used [e].
Proof using Type*.
  intros (used & _ & -> & Hu)%bin_consumes. exists used. split; [done|].
  intros rest'. rewrite decode_step, Hu. unfold events_in. by destruct (decode rest').
Qed.
Lemma records_event e : serializable e = true → records (event_bytes e) [e].
Proof using Type*.
  intros He rest. rewrite decode_step, bin_roundtrip by done. unfold events_in. by destruct (decode rest).
Qed.
Lemma records_decode used es : records used es → events_in used = es ∧ clean used.
Proof using Type*.
  intros Hr. pose proof (Hr []) as Hd. rewrite app_nil_r in Hd.
  assert (decode [] = ([], DeUnexpectedEof)) as Hnil by (by rewrite decode_step, bin_empty).
  unfold events_in, clean in *. rewrite Hnil in Hd. rewrite Hd. cbn. by rewrite app_nil_r.
Qed.
End decoding.

(** ** What a snapshot reader promises *)

(** [reader_state r consumed pending]: the reader has returned [consumed] and
    will return [pending].  [stored r es]: a new reader of the same store will
    return [es]. *)
Class ReadSnapshotLaws (R : Type) `{ReadSnapshotEvent R} := {
  reader_state : R → list Event → list Event → Prop;
  read_pending : ∀ r consumed e pending, reader_state r consumed (e :: pending) →
    ∃ r', rse_read r = Ok (e, r') ∧ reader_state r' (consumed ++ [e]) pending;
  read_finished : ∀ r consumed, reader_state r consumed [] →
    ∃ r', rse_read r = Ok (Finished, r') ∧ reader_state r' consumed []
}.
Class TruncateSnapshotLaws (R : Type) `{ReadSnapshotLaws R} := {
  stored : R → list Event → Prop;
  stored_state : ∀ r consumed pending, reader_state r consumed pending → stored r (consumed ++ pending);
  truncate_consumed : ∀ r consumed pending, reader_state r consumed pending →
    ∃ r', rse_truncate r = (Ok tt, r') ∧ stored r' consumed;
  always_checks_threshold : ∀ r, check_threshold_from_metadata r = true
}.

Global Program Instance MockSnapshotReader_laws : ReadSnapshotLaws MockSnapshotReader := {|
  reader_state r _ pending := mock_events r = pending
|}.
Next Obligation. intros [es] c e p Hs. cbn in *. subst. eauto. Qed.
Next Obligation. intros [es] c Hs. cbn in *. subst. eauto. Qed.

(** ** The local reader keeps the promise *)

Section local_reader.
Context `{BincodeLaws}.
Implicit Types dir : Directory.

(** A directory of snapshot files: each is named by its time and holds events,
    the last of which may be cut short. *)
Definition dir_ok dir : Prop :=
  names_ok dir ∧ ∀ name bs, dir !! name = Some bs → clean bs.
Definition file_events dir (t : Timestamp) : list Event :=
  events_in (default [] (dir !! timestamp_to_string t)).
(** The events of the files, in the order of their times. *)
Definition events_of dir (times : list Timestamp) : list Event := concat (map (file_events dir) times).
#[global] Arguments events_of : simpl never.
#[global] Arguments file_events : simpl never.
Definition snapshot_events dir : list Event := events_of dir (dir_times dir).

Definition local_state (r : LocalBinarySnapshotReader) (consumed pending : list Event) : Prop :=
  let dir := root_dir r in let times := times_advanced r in let idx := next_file_idx r in
  dir_ok dir ∧ times = dir_times dir ∧ (idx ≤ length times)%nat ∧
  match reader r with
  | None => consumed = events_of dir (take idx times) ∧ pending = events_of dir (drop idx times)
  | Some (len, bytes) => ∃ i t used es,
      idx = S i ∧ times !! i = Some t ∧ dir !! timestamp_to_string t = Some (used ++ bytes) ∧
      len = length (used ++ bytes) ∧ records used es ∧
      consumed = events_of dir (take i times) ++ es ∧
      pending = events_in bytes ++ events_of dir (drop idx times)
  end.

Lemma events_of_app dir l1 l2 : events_of dir (l1 ++ l2) = events_of dir l1 ++ events_of dir l2.
Proof. unfold events_of. by rewrite map_app, concat_app. Qed.
Lemma events_of_take_S dir times i t :
  times !! i = Some t → events_of dir (take (S i) times) = events_of dir (take i times) ++ file_events dir t.
Proof.
  intros Hi. rewrite (take_S_r _ _ _ Hi), events_of_app. f_equal. unfold events_of. cbn. by rewrite app_nil_r.
Qed.
Lemma events_of_drop dir times i t :
  times !! i = Some t → events_of dir (drop i times) = file_events dir t ++ events_of dir (drop (S i) times).
Proof. intros Hi. by rewrite (drop_S _ _ _ Hi). Qed.

(** One pass of the loop over a state with the current file closed. *)
Lemma local_loop_eof r consumed len bytes :
  reader r = Some (len, bytes) → events_in bytes = [] →
  ∀ pending, local_state r consumed pending →
  bin_deserialize bytes = DeUnexpectedEof ∧
  local_state (mk_LocalBinarySnapshotReader (root_dir r) None (next_file_idx r) (times_advanced r))
    consumed pending.
Proof using Type*.
  intros Hr He pending (Hok & Ht & Hi & Hs). rewrite Hr in Hs.
  destruct Hs as (i & t & used & es & Hidx & Hti & Hf & Hlen & Hu & Hc & Hp).
  destruct (Hok) as [Hn Hclean]. pose proof (Hclean _ _ Hf) as Hcl. unfold clean in Hcl.
  rewrite (Hu bytes) in Hcl. cbn in Hcl. split.
  - rewrite decode_step in Hcl. unfold events_in in He. rewrite decode_step in He.
    destruct (bin_deserialize bytes) as [e rest| | |]; cbn in *; try done. by destruct (decode rest).
  - unfold local_state. cbn. split_and!; try done; [|by rewrite Hp, He].
    rewrite Hidx, (events_of_take_S _ _ _ _ Hti), Hc. f_equal. unfold file_events. rewrite Hf. cbn.
    unfold events_in at 1. rewrite (Hu bytes). cbn. by rewrite He, app_nil_r.
Qed.
Lemma local_loop_event r consumed len bytes e es :
  reader r = Some (len, bytes) → events_in bytes = e :: es →
  ∀ pending, local_state r consumed pending →
  ∃ rest, bin_deserialize bytes = DeOk e rest ∧
  local_state (mk_LocalBinarySnapshotReader (root_dir r) (Some (len, rest)) (next_file_idx r) (times_advanced r))
    (consumed ++ [e]) (tail pending) ∧ head pending = Some e.
Proof using Type*.
  intros Hr He pending (Hok & Ht & Hi & Hs). rewrite Hr in Hs.
  destruct Hs as (i & t & used & es0 & Hidx & Hti & Hf & Hlen & Hu & Hc & Hp).
  unfold events_in in He. rewrite decode_step in He.
  destruct (bin_deserialize bytes) as [e' rest| | |] eqn:Hd; try done.
  destruct (records_deserialized _ _ _ Hd) as (used' & -> & Hu').
  destruct (decode rest) as [es' end'] eqn:Hrest. injection He as -> ->.
  exists rest. split; [done|]. rewrite Hp. unfold events_in. rewrite (Hu' rest). cbn. split; [|done].
  unfold local_state. cbn. split_and!; try done.
  exists i, t, (used ++ used'), (es0 ++ [e]). rewrite <- !app_assoc. split_and!; try done.
  - by apply records_app.
  - rewrite Hc, <- app_assoc. done.
Qed.
Lemma local_loop_open r consumed pending t :
  reader r = None → times_advanced r !! next_file_idx r = Some t → local_state r consumed pending →
  ∃ bytes, root_dir r !! timestamp_to_string t = Some bytes ∧
  local_state (mk_LocalBinarySnapshotReader (root_dir r) (Some (length bytes, bytes))
                 (S (next_file_idx r)) (times_advanced r)) consumed pending.
Proof using Type*.
  intros Hr Ht (Hok & Hts & Hi & Hs). rewrite Hr in Hs. destruct Hs as [Hc Hp].
  assert (is_Some (root_dir r !! timestamp_to_string t)) as [bytes Hb].
  { apply elem_of_dir_times; [apply Hok|]. rewrite <- Hts. by eapply list_elem_of_lookup_2. }
  exists bytes. split; [done|]. unfold local_state. cbn. split_and!; try done.
  { apply lookup_lt_Some in Ht. lia. }
  exists (next_file_idx r), t, [], []. split_and!; try done.
  - apply records_nil.
  - by rewrite app_nil_r.
  - rewrite Hp, (events_of_drop _ _ _ _ Ht). unfold file_events. by rewrite Hb.
Qed.

Definition loop_fuel (r : LocalBinarySnapshotReader) : nat :=
  2 * (length (times_advanced r) - next_file_idx r) + match reader r with Some _ => 2 | None => 1 end.
(** The loop of [read] ends within its fuel and returns the next event. *)
Lemma local_loop_spec fuel r consumed pending :
  local_state r consumed pending → (loop_fuel r ≤ fuel)%nat →
  ∃ r', local_read_loop fuel r = Ok (default Finished (head pending), r') ∧
    local_state r' (consumed ++ option_list (head pending)) (tail pending).
Proof using Type*.
  revert r. induction fuel as [|fuel IH]; intros r Hs Hf.
  { unfold loop_fuel in Hf. destruct (reader r); lia. }
  cbn [local_read_loop]. destruct (reader r) as [[len bytes]|] eqn:Hr.
  - destruct (events_in bytes) as [|e es] eqn:He.
    + destruct (local_loop_eof _ _ _ _ Hr He _ Hs) as [-> Hs']. apply IH; [done|].
      revert Hf. unfold loop_fuel. rewrite Hr. cbn. lia.
    + destruct (local_loop_event _ _ _ _ _ _ Hr He _ Hs) as (rest & -> & Hs' & ->). cbn. eauto.
  - destruct (times_advanced r !! next_file_idx r) as [t|] eqn:Ht.
    + destruct (local_loop_open _ _ _ _ Hr Ht Hs) as (bytes & -> & Hs'). apply IH; [done|].
      apply lookup_lt_Some in Ht. revert Hf. unfold loop_fuel. rewrite Hr. cbn. lia.
    + apply lookup_ge_None in Ht. destruct (Hs) as (Hok & Hts & Hi & Hcp). rewrite Hr in Hcp.
      destruct Hcp as [Hc Hp]. rewrite drop_ge in Hp by lia. cbn in Hp. subst pending. cbn.
      exists r. split; [done|]. by rewrite app_nil_r.
Qed.
Lemma local_read_spec r consumed pending :
  local_state r consumed pending →
  ∃ r', local_read r = Ok (default Finished (head pending), r') ∧
    local_state r' (consumed ++ option_list (head pending)) (tail pending).
Proof using Type*.
  intros Hs. apply local_loop_spec; [done|]. unfold loop_fuel, local_read_fuel. destruct (reader r); lia.
Qed.

Lemma remove_files_spec dir times :
  NoDup times → (∀ t, t ∈ times → is_Some (dir !! timestamp_to_string t)) →
  ∃ dir', remove_files dir times = (Ok tt, dir') ∧
    (∀ t, t ∈ times → dir' !! timestamp_to_string t = None) ∧
    (∀ name, (∀ t, t ∈ times → name ≠ timestamp_to_string t) → dir' !! name = dir !! name) ∧
    (∀ name bs, dir' !! name = Some bs → dir !! name = Some bs).
Proof.
  intros Hnd. revert dir. induction Hnd as [|t times Ht Hnd IH]; intros dir Hin; cbn.
  { exists dir. split_and!; set_solver. }
  destruct (Hin t) as [bs ->]; [set_solver|].
  destruct (IH (delete (timestamp_to_string t) dir)) as (dir' & Hd & Hnone & Hsame & Hsub).
  { intros t' Ht'. rewrite lookup_delete_ne; [by apply Hin; set_solver|].
    intros ->%timestamp_to_string_inj. done. }
  exists dir'. split_and!; [done|..].
  - intros t' [->|Ht']%elem_of_cons; [|by apply Hnone].
    rewrite Hsame; [apply lookup_delete_eq|]. intros t'' Ht'' ->%timestamp_to_string_inj. done.
  - intros name Hname. rewrite Hsame by set_solver. apply lookup_delete_ne. symmetry. set_solver.
  - intros name bs' Hbs'%Hsub. apply lookup_delete_Some in Hbs'. naive_solver.
Qed.

(** Truncating to the first [n] files of a directory, some with new contents. *)
Lemma truncated_dir dir dir1 n :
  dir_ok dir →
  (∀ name, is_Some (dir1 !! name) ↔ is_Some (dir !! name)) →
  (∀ t bs, t ∈ take n (dir_times dir) → dir1 !! timestamp_to_string t = Some bs → clean bs) →
  ∃ dir', remove_files dir1 (drop n (dir_times dir)) = (Ok tt, dir') ∧ dir_ok dir' ∧ dir_times dir' = take n (dir_times dir) ∧
  ∀ t, t ∈ take n (dir_times dir) → dir' !! timestamp_to_string t = dir1 !! timestamp_to_string t.
Proof using Type*.
  intros [Hn Hcl] Hdom Hcl1.
  pose proof (NoDup_dir_times dir Hn) as Hnd. pose proof (dir_times_sorted dir) as Hsort.
  pose proof (λ t, elem_of_dir_times dir t Hn) as Helem.
  rewrite <- (take_drop n (dir_times dir)) in Hnd, Hsort, Helem.
  apply NoDup_app in Hnd as (Hnd1 & Hdisj & Hnd2). apply StronglySorted_app_1_l in Hsort.
  destruct (remove_files_spec dir1 (drop n (dir_times dir)) Hnd2) as (dir' & Hd & Hnone & Hsame & Hsub).
  { intros t Ht. apply Hdom, Helem. set_solver. }
  assert (∀ t, t ∈ take n (dir_times dir) → dir' !! timestamp_to_string t = dir1 !! timestamp_to_string t) as Hkeep.
  { intros t Ht. apply Hsame. intros t' Ht' ->%timestamp_to_string_inj. by eapply Hdisj. }
  assert (names_ok dir') as Hn'.
  { intros name [bs Hbs%Hsub]. apply Hn, Hdom. eauto. }
  assert (∀ t, t ∈ take n (dir_times dir) ↔ is_Some (dir' !! timestamp_to_string t)) as Hin'.
  { intros t. split.
    - intros Ht. rewrite Hkeep by done. apply Hdom, Helem. set_solver.
    - intros [bs Hbs]. assert (t ∈ take n (dir_times dir) ++ drop n (dir_times dir)) as [|Ht]%elem_of_app; [|done|].
      + apply Helem, Hdom. eauto.
      + by rewrite Hnone in Hbs. }
  exists dir'. split_and!; [done|split; [done|]|by apply dir_times_unique|done].
  intros name bs Hbs. destruct (Hn' name) as (t & _ & ->); [eauto|].
  assert (t ∈ take n (dir_times dir)) as Ht by (apply Hin'; eauto).
  eapply (Hcl1 t); [done|]. by rewrite <- Hkeep.
Qed.

Lemma events_of_ext dir1 dir2 times :
  (∀ t, t ∈ times → dir1 !! timestamp_to_string t = dir2 !! timestamp_to_string t) →
  events_of dir1 times = events_of dir2 times.
Proof.
  intros Heq. unfold events_of. f_equal. apply map_ext_in. intros t Ht%list_elem_of_In.
  unfold file_events. by rewrite Heq.
Qed.
Lemma set_len_prefix (used bytes : list Z) :
  set_len (length (used ++ bytes) - length bytes) (used ++ bytes) = used.
Proof.
  unfold set_len. rewrite length_app. replace (length used + length bytes - length bytes)%nat with (length used) by lia.
  rewrite take_app_length. replace (length used - _)%nat with 0%nat by lia. apply app_nil_r.
Qed.

Lemma local_truncate_spec r consumed pending :
  local_state r consumed pending →
  ∃ r', local_truncate r = (Ok tt, r') ∧ dir_ok (root_dir r') ∧ snapshot_events (root_dir r') = consumed.
Proof using Type*.
  intros (Hok & Hts & Hi & Hs). unfold local_truncate, snapshot_events.
  destruct (reader r) as [[len bytes]|] eqn:Hr.
  - destruct Hs as (i & t & used & es & Hidx & Hti & Hf & -> & Hu & -> & _).
    rewrite Hidx. replace (S i - 1)%nat with i by lia. rewrite Hti, Hf, set_len_prefix.
    pose proof (NoDup_dir_times _ (proj1 Hok)) as Hnd. rewrite <- Hts in Hnd.
    assert (∀ t', t' ∈ take i (times_advanced r) → timestamp_to_string t ≠ timestamp_to_string t') as Hne.
    { intros t' Ht' <-%timestamp_to_string_inj. rewrite <- (take_drop_middle _ _ _ Hti) in Hnd.
      apply NoDup_app in Hnd as (_ & Hd & _). by apply (Hd t); [|set_solver]. }
    destruct (truncated_dir (root_dir r) (<[timestamp_to_string t := used]> (root_dir r)) (S i) Hok)
      as (dir' & Hrm & Hok' & Hts' & Hsame).
    + intros name. destruct (decide (name = timestamp_to_string t)) as [->|].
      * rewrite lookup_insert_eq, Hf. naive_solver.
      * by rewrite lookup_insert_ne.
    + rewrite <- Hts, (take_S_r _ _ _ Hti). intros t' bs [Ht'|Ht']%elem_of_app.
      * rewrite lookup_insert_ne by auto. apply Hok.
      * apply list_elem_of_singleton in Ht' as ->. rewrite lookup_insert_eq. intros [= <-]. by eapply records_decode.
    + rewrite Hts, Hrm. eexists. split; [done|]. cbn. split; [done|].
      rewrite Hts', <- Hts. rewrite <- Hts in Hsame. rewrite (events_of_ext _ _ _ Hsame), (events_of_take_S _ _ _ _ Hti). f_equal.
      * apply events_of_ext. intros t' Ht'. apply lookup_insert_ne. auto.
      * unfold file_events. rewrite lookup_insert_eq. cbn. by eapply records_decode.
  - destruct Hs as [-> _].
    destruct (truncated_dir (root_dir r) (root_dir r) (next_file_idx r) Hok) as (dir' & Hrm & Hok' & Hts' & Hsame).
    + done.
    + intros t bs _. apply Hok.
    + rewrite Hts, Hrm. eexists. split; [done|]. cbn. split; [done|].
      rewrite Hts'. by apply events_of_ext.
Qed.

Lemma local_state_stored r consumed pending :
  local_state r consumed pending → snapshot_events (root_dir r) = consumed ++ pending.
Proof using Type*.
  intros (Hok & Hts & Hi & Hs). unfold snapshot_events. rewrite <- Hts.
  destruct (reader r) as [[len bytes]|].
  - destruct Hs as (i & t & used & es & Hidx & Hti & Hf & _ & Hu & -> & ->).
    rewrite <- (take_drop i (times_advanced r)) at 1. rewrite events_of_app, (events_of_drop _ _ _ _ Hti), Hidx.
    rewrite <- !app_assoc. f_equal. rewrite !app_assoc. f_equal.
    unfold file_events. rewrite Hf. cbn. unfold events_in at 1. by rewrite Hu.
  - destruct Hs as [-> ->]. by rewrite <- events_of_app, take_drop.
Qed.
Lemma local_state_new dir : dir_ok dir → local_state (local_reader_new dir) [] (snapshot_events dir).
Proof. intros Hok. unfold local_state. cbn. split_and!; try done. lia. Qed.

Global Program Instance local_reader_laws : ReadSnapshotLaws LocalBinarySnapshotReader := {|
  reader_state := local_state
|}.
Next Obligation. intros r c e p Hs. exact (local_read_spec r c (e :: p) Hs). Qed.
Next Obligation.
  intros r c Hs. destruct (local_read_spec _ _ _ Hs) as (r' & Hr & Hs'). cbn in Hs'. rewrite app_nil_r in Hs'. eauto.
Qed.
Global Program Instance local_truncate_laws : TruncateSnapshotLaws LocalBinarySnapshotReader := {|
  stored r es := dir_ok (root_dir r) ∧ snapshot_events (root_dir r) = es
|}.
Next Obligation. intros r c p Hs. split; [apply Hs|by apply local_state_stored]. Qed.
Next Obligation. intros r c p Hs. by apply (local_truncate_spec _ _ p). Qed.
Next Obligation. done. Qed.
End local_reader.

(** ** Replay up to the committed time *)

Section replay.
Context (threshold : TotalFrontier Timestamp).
Definition reaches (e : Event) : bool :=
  match e with AdvanceTime t _ => ord_leb threshold (At t) | _ => false end.
(** The events before the first time advancement that reaches the threshold. *)
Fixpoint replayed (es : list Event) : list Event :=
  match es with
  | [] => []
  | e :: es => if reaches e then [] else e :: replayed es
  end.
(** The same, with that advancement: what the snapshot keeps. *)
Fixpoint committed_prefix (es : list Event) : list Event :=
  match es with
  | [] => []
  | e :: es => if reaches e then [e] else e :: committed_prefix es
  end.
Definition frontier_after : OffsetAntichain → list Event → OffsetAntichain :=
  foldl (λ f e, match e with AdvanceTime _ g => g | _ => f end).

Lemma replayed_committed es : replayed (committed_prefix es) = replayed es.
Proof. induction es as [|e es IH]; cbn; [done|]. destruct (reaches e) eqn:He; cbn; rewrite He; by f_equal. Qed.
Lemma replayed_app es1 es2 : existsb reaches es1 = true → replayed (es1 ++ es2) = replayed es1.
Proof.
  induction es1 as [|e es1 IH]; cbn; [done|]. destruct (reaches e); cbn; [done|]. intros. f_equal. auto.
Qed.
Lemma committed_unreached es : existsb reaches es = false → committed_prefix es = es.
Proof.
  induction es as [|e es IH]; cbn; [done|]. destruct (reaches e); cbn; [done|]. intros. f_equal. auto.
Qed.
End replay.

Section snapshot_reader_laws.
Context {R : Type} `{TruncateSnapshotLaws R}.
Implicit Types s : SnapshotReader R.

(** Reading an event that does not end the replay. *)
Lemma snapshot_read_continue s consumed e pending :
  reader_state (reader_impl s) consumed (e :: pending) → e ≠ Finished → reaches (threshold_time s) e = false →
  ∃ s', snapshot_read s = Ok (e, s') ∧ reader_state (reader_impl s') (consumed ++ [e]) pending ∧
    threshold_time s' = threshold_time s ∧ sr_truncate_at_end s' = sr_truncate_at_end s ∧
    last_frontier s' = frontier_after (last_frontier s) [e].
Proof.
  intros Hs Hf Hr. destruct (read_pending _ _ _ _ Hs) as (impl & Hread & Hs').
  unfold snapshot_read. rewrite Hread. cbn [mbind outcome_bind].
  destruct e as [| | |t f|]; [eauto 10..| |done]. cbn in Hr.
  rewrite Hr, andb_false_r. eauto 10.
Qed.
(** Reading the event that ends it. *)
Lemma snapshot_read_reached s consumed e pending :
  reader_state (reader_impl s) consumed (e :: pending) → reaches (threshold_time s) e = true →
  ∃ s', snapshot_read s = Ok (Finished, s') ∧ last_frontier s' = frontier_after (last_frontier s) [e] ∧
    stored (reader_impl s') (if sr_truncate_at_end s then consumed ++ [e] else consumed ++ e :: pending).
Proof.
  intros Hs Hr. destruct (read_pending _ _ _ _ Hs) as (impl & Hread & Hs').
  unfold snapshot_read. rewrite Hread. cbn [mbind outcome_bind].
  destruct e as [| | |t f|]; try done. cbn in Hr. rewrite always_checks_threshold, Hr. cbn [andb].
  destruct (sr_truncate_at_end s).
  - destruct (truncate_consumed _ _ _ Hs') as (impl' & -> & Hst). eauto 10.
  - apply stored_state in Hs'. rewrite <- app_assoc in Hs'. eauto 10.
Qed.

Lemma read_to_end_spec fuel s consumed pending :
  reader_state (reader_impl s) consumed pending → Finished ∉ pending → (length pending < fuel)%nat →
  let th := threshold_time s in
  ∃ s', read_to_end fuel s = Some (replayed th pending, s') ∧
    last_frontier s' = frontier_after (last_frontier s) (committed_prefix th pending) ∧
    stored (reader_impl s')
      (consumed ++ if sr_truncate_at_end s then committed_prefix th pending else pending).
Proof.
  revert s consumed pending. induction fuel as [|fuel IH]; intros s consumed pending Hs Hf Hfuel; [lia|].
  destruct pending as [|e pending]; cbn [read_to_end replayed committed_prefix].
  - destruct (read_finished _ _ Hs) as (impl & Hread & Hs'). unfold snapshot_read. rewrite Hread. cbn.
    eexists. split_and!; [done..|]. apply stored_state in Hs'. by destruct (sr_truncate_at_end s).
  - destruct (reaches (threshold_time s) e) eqn:Hr.
    + destruct (snapshot_read_reached _ _ _ _ Hs Hr) as (s' & -> & Hl & Hst).
      exists s'. split_and!; [done..|]. by destruct (sr_truncate_at_end s).
    + assert (e ≠ Finished) as Hne by set_solver.
      destruct (snapshot_read_continue _ _ _ _ Hs Hne Hr) as (s1 & -> & Hs1 & Hth & Htr & Hl).
      destruct (IH s1 (consumed ++ [e]) pending Hs1) as (s' & Hread & Hl' & Hst); [set_solver|cbn in *; lia|].
      rewrite Hth, Htr, Hl in *. exists s'. rewrite Hread.
      split_and!; [by destruct e|done|]. rewrite <- app_assoc in Hst. by destruct (sr_truncate_at_end s).
Qed.
End snapshot_reader_laws.

(** ** The writer *)

Section writer.
Context `{BincodeLaws}.
Implicit Types dir : Directory.

(** What the engine does with a writer: writes, with the clock and the amount
    of buffered data the write passes on to the file, and flushes. *)
Inductive WriterOp := OpWrite (now : Z) (spilled : nat) (e : Event) | OpFlush.
Definition writer_step (w : LocalBinarySnapshotWriter) (op : WriterOp) : LocalBinarySnapshotWriter :=
  match op with
  | OpWrite now spilled e => (local_write w now spilled e).2
  | OpFlush => (local_flush w).2
  end.
Definition run_writer (w : LocalBinarySnapshotWriter) (ops : list WriterOp) : LocalBinarySnapshotWriter :=
  foldl writer_step w ops.
Definition written : list WriterOp → list Event :=
  omap (λ op, match op with OpWrite _ _ e => Some e | OpFlush => None end).
(** How many events had been written at the last flush. *)
Fixpoint flushed_count (ops : list WriterOp) (n : nat) : nat :=
  match ops with
  | [] => 0
  | OpWrite _ _ _ :: ops => flushed_count ops (S n)
  | OpFlush :: ops => Nat.max n (flushed_count ops n)
  end.
(** Serializable events, and clocks past the files of the directory. *)
Definition op_ok dir (op : WriterOp) : Prop :=
  match op with
  | OpWrite now _ e => serializable e = true ∧ in_u64 now = true ∧
      ∀ t, t ∈ dir_times dir → Z.of_N (ts_0 t) < now
  | OpFlush => True
  end.

Definition bytes_of (es : list Event) : list Z := concat (map event_bytes es).
Lemma bytes_of_app es1 es2 : bytes_of (es1 ++ es2) = bytes_of es1 ++ bytes_of es2.
Proof. unfold bytes_of. by rewrite map_app, concat_app. Qed.
Lemma records_bytes_of es : Forall (λ e, serializable e = true) es → records (bytes_of es) es.
Proof using Type*.
  induction 1 as [|e es He _ IH]; [apply records_nil|].
  apply (records_app _ _ [e]); [by apply records_event|done].
Qed.

(** A file holding a prefix of the record of [es] holds some first events. *)
Lemma decode_prefix es file buffer :
  Forall (λ e, serializable e = true) es → file ++ buffer = bytes_of es →
  ∃ n, (n ≤ length es)%nat ∧ decode file = (take n es, DeUnexpectedEof).
Proof using Type*.
  intros Hes. revert file. induction Hes as [|e es He _ IH]; intros file Hf.
  - apply app_nil in Hf as [-> _]. exists 0%nat. split; [done|]. by rewrite decode_step, bin_empty.
  - change (bytes_of (e :: es)) with (event_bytes e ++ bytes_of es) in Hf.
    destruct (Nat.lt_ge_cases (length file) (length (event_bytes e))) as [Hlt|Hge].
    + assert (event_bytes e = file ++ take (length (event_bytes e) - length file) buffer) as Hp.
      { rewrite <- (take_app_length (event_bytes e) (bytes_of es)), <- Hf at 1.
        by rewrite take_app, take_ge by lia. }
      exists 0%nat. split; [lia|]. rewrite decode_step.
      rewrite (bin_prefix _ _ _ He Hp); [done|]. intros Hnil. rewrite Hnil, app_nil_r in Hp. rewrite Hp in Hlt. lia.
    + assert (file = event_bytes e ++ drop (length (event_bytes e)) file) as Hfile.
      { rewrite <- (take_drop (length (event_bytes e)) file) at 1. f_equal.
        rewrite <- (take_app_le file buffer), Hf by done. apply take_app_length. }
      rewrite Hfile, <- app_assoc in Hf. apply app_inv_head in Hf.
      destruct (IH _ Hf) as (n & Hn & Hd). exists (S n). split; [cbn; lia|].
      rewrite Hfile, (records_event e He). unfold events_in. by rewrite Hd.
Qed.
(** At least those whose whole record is in the file. *)
Lemma decode_prefix_from k es file buffer :
  Forall (λ e, serializable e = true) es → file ++ buffer = bytes_of es → (k ≤ length es)%nat →
  bytes_of (take k es) `prefix_of` file →
  ∃ n, (k ≤ n ≤ length es)%nat ∧ decode file = (take n es, DeUnexpectedEof).
Proof using Type*.
  intros Hes Hf Hk [file' ->].
  rewrite <- (take_drop k es) in Hf at 2. rewrite bytes_of_app, <- app_assoc in Hf. apply app_inv_head in Hf.
  destruct (decode_prefix (drop k es) file' buffer) as (m & Hm & Hd); [by apply Forall_drop|done|].
  rewrite length_drop in Hm. exists (k + m)%nat. split; [lia|].
  rewrite (records_bytes_of (take k es)) by (by apply Forall_take). unfold events_in. rewrite Hd. cbn. f_equal.
  by rewrite <- take_take_drop.
Qed.

(** [es]: written so far; the first [k] of them were flushed. *)
Definition writer_inv dir0 (w : LocalBinarySnapshotWriter) (es : list Event) (k : nat) : Prop :=
  (k ≤ length es)%nat ∧ Forall (λ e, serializable e = true) es ∧
  match lazy_writer w with
  | None => writer_dir w = dir0 ∧ es = []
  | Some (path, buffer) => ∃ t file,
      path = timestamp_to_string t ∧ timestamp_from_str path = Some t ∧
      (∀ t0, t0 ∈ dir_times dir0 → cmp t0 t = Lt) ∧
      writer_dir w = <[path := file]> dir0 ∧ file ++ buffer = bytes_of es ∧
      bytes_of (take k es) `prefix_of` file
  end.

Lemma writer_inv_flush dir0 w es k :
  writer_inv dir0 w es k → writer_inv dir0 (local_flush w).2 es (length es).
Proof.
  intros (Hk & Hes & Hw). unfold local_flush. destruct (lazy_writer w) as [[path buffer]|] eqn:Hl.
  - destruct Hw as (t & file & Hp & Ht & Hlt & Hd & Hf & _). split_and!; try done. cbn.
    exists t, (file ++ buffer). split_and!; try done.
    + unfold append_file. rewrite Hd, lookup_insert_eq. cbn. by rewrite insert_insert_eq.
    + by rewrite app_nil_r.
    + by rewrite take_ge, Hf.
  - cbn. unfold writer_inv. rewrite Hl. destruct Hw as [-> ->]. done.
Qed.
Lemma clock_timestamp now : in_u64 now = true →
  let t := mk_Timestamp (Z.to_N now) in
  int_to_string now = timestamp_to_string t ∧ timestamp_from_str (int_to_string now) = Some t.
Proof.
  intros Hnow t. pose proof (proj1 (in_u64_spec now) Hnow). split.
  - unfold timestamp_to_string. cbn. by rewrite Z2N.id by lia.
  - unfold timestamp_from_str, parse_u64. rewrite parse_int_to_string by (unfold U64_MAX; lia). done.
Qed.
Lemma writer_inv_write dir0 w es k now spilled e :
  writer_inv dir0 w es k → op_ok dir0 (OpWrite now spilled e) →
  writer_inv dir0 (local_write w now spilled e).2 (es ++ [e]) k.
Proof.
  intros (Hk & Hes & Hw) (He & Hnow & Hclock).
  assert (Forall (λ e, serializable e = true) (es ++ [e])) as Hes' by (apply Forall_app; by repeat constructor).
  assert (k ≤ length (es ++ [e]))%nat as Hk' by (rewrite length_app; lia).
  unfold local_write. destruct (lazy_writer w) as [[path buffer]|] eqn:Hl.
  - destruct Hw as (t & file & Hp & Ht & Hlt & Hd & Hf & Hpre). split_and!; try done. cbn.
    exists t, (file ++ take spilled (buffer ++ event_bytes e)). split_and!; try done.
    + unfold append_file. rewrite Hd, lookup_insert_eq. cbn. by rewrite insert_insert_eq.
    + rewrite <- app_assoc, take_drop, app_assoc, Hf, bytes_of_app. f_equal.
      unfold bytes_of. cbn. by rewrite app_nil_r.
    + rewrite take_app_le by done. by apply prefix_app_r.
  - destruct Hw as [Hd ->]. assert (k = 0)%nat as -> by (cbn in Hk; lia). split_and!; try done. cbn.
    destruct (clock_timestamp now Hnow) as [Hname Hparse].
    exists (mk_Timestamp (Z.to_N now)), (take spilled (event_bytes e)). split_and!; try done.
    + intros t0 Ht0%Hclock. unfold cmp, Timestamp_ord. cbn.
      pose proof (proj1 (in_u64_spec now) Hnow). rewrite Z2N.id by lia. by apply Z.compare_lt_iff.
    + unfold append_file. rewrite lookup_insert_eq. cbn. rewrite insert_insert_eq. by rewrite Hd.
    + rewrite take_drop. unfold bytes_of. cbn. by rewrite app_nil_r.
    + apply prefix_nil.
Qed.

Lemma run_writer_inv dir0 ops : Forall (op_ok dir0) ops → ∀ w es k, writer_inv dir0 w es k →
  writer_inv dir0 (run_writer w ops) (es ++ written ops) (Nat.max k (flushed_count ops (length es))).
Proof.
  induction 1 as [|op ops Hop _ IH]; intros w es k Hw; cbn [run_writer foldl].
  - cbn. by rewrite app_nil_r, Nat.max_0_r.
  - fold (run_writer (writer_step w op) ops). destruct op as [now spilled e|].
    + specialize (IH _ _ _ (writer_inv_write _ _ _ _ _ _ _ Hw Hop)).
      rewrite <- app_assoc, length_app in IH. cbn [length] in IH.
      replace (length es + 1)%nat with (S (length es)) in IH by lia. exact IH.
    + specialize (IH _ _ _ (writer_inv_flush _ _ _ _ Hw)).
      replace (Nat.max k _) with (Nat.max (length es) (flushed_count ops (length es))); [exact IH|].
      cbn [flushed_count]. destruct Hw as [Hk _]. lia.
Qed.

(** Adding a file later than all others appends its events. *)
Lemma snapshot_events_insert dir0 t file :
  dir_ok dir0 → timestamp_from_str (timestamp_to_string t) = Some t →
  (∀ t0, t0 ∈ dir_times dir0 → cmp t0 t = Lt) → clean file →
  let dir := <[timestamp_to_string t := file]> dir0 in
  dir_ok dir ∧ snapshot_events dir = snapshot_events dir0 ++ events_in file.
Proof.
  intros [Hn Hcl] Ht Hlt Hfile dir.
  assert (∀ t0, t0 ∈ dir_times dir0 → t ≠ t0) as Hne.
  { intros t0 Ht0%Hlt <-. rewrite cmp_refl in Ht0. done. }
  assert (names_ok dir) as Hn'.
  { intros name. unfold dir. destruct (decide (name = timestamp_to_string t)) as [->|]; [eauto|].
    rewrite lookup_insert_ne by done. apply Hn. }
  assert (dir_times dir = dir_times dir0 ++ [t]) as Hts.
  { apply dir_times_unique; [done|..].
    - apply NoDup_app. split_and!; [by apply NoDup_dir_times| |apply NoDup_singleton].
      intros t0 Ht0 Heq%list_elem_of_singleton. by apply (Hne t0).
    - apply StronglySorted_app. split_and!; [|apply dir_times_sorted|repeat constructor].
      intros t1 t2 Ht1 ->%list_elem_of_singleton. unfold ord_le. by rewrite Hlt.
    - intros t1. rewrite elem_of_app, list_elem_of_singleton, elem_of_dir_times by done. unfold dir.
      destruct (decide (t1 = t)) as [->|Hne'].
      + rewrite lookup_insert_eq. naive_solver.
      + rewrite lookup_insert_ne by (by intros Heq%timestamp_to_string_inj). naive_solver. }
  split.
  - split; [done|]. intros name bs [[_ <-]|[_ Hbs]]%lookup_insert_Some; [done|by apply (Hcl name)].
  - unfold snapshot_events. rewrite Hts, events_of_app. f_equal.
    + apply events_of_ext. intros t0 Ht0. apply lookup_insert_ne.
      intros Heq%timestamp_to_string_inj. by apply (Hne t0).
    + unfold events_of. cbn. rewrite app_nil_r. unfold file_events, dir. by rewrite lookup_insert_eq.
Qed.

Lemma writer_inv_events dir0 w es k :
  dir_ok dir0 → writer_inv dir0 w es k →
  ∃ n, (k ≤ n ≤ length es)%nat ∧ dir_ok (writer_dir w) ∧
    snapshot_events (writer_dir w) = snapshot_events dir0 ++ take n es.
Proof using Type*.
  intros Hok (Hk & Hes & Hw). destruct (lazy_writer w) as [[path buffer]|].
  - destruct Hw as (t & file & -> & Ht & Hlt & Hd & Hf & Hpre).
    destruct (decode_prefix_from _ _ _ _ Hes Hf Hk Hpre) as (n & Hn & Hdec).
    exists n. split; [done|]. rewrite Hd.
    destruct (snapshot_events_insert dir0 t file Hok Ht Hlt) as [Hok' Hev].
    + unfold clean. by rewrite Hdec.
    + split; [done|]. rewrite Hev. f_equal. unfold events_in. by rewrite Hdec.
  - destruct Hw as [-> ->]. exists k. cbn. rewrite take_nil, app_nil_r. done.
Qed.
End writer.

Lemma threshold_not_zero (th : TotalFrontier Timestamp) :
  th ≠ At (mk_Timestamp 0) → ord_eqb th (At (mk_Timestamp 0)) = false.
Proof.
  intros Hth. unfold ord_eqb. destruct th as [t|]; [|done]. cbn.
  destruct (cmp t (mk_Timestamp 0)) eqn:Hc; try done. by apply Timestamp_cmp_eq in Hc as ->.
Qed.
(** A reader whose files are gone: it reports an error, or the end when it knew
    of none. *)
Lemma local_read_gone `{Bincode} (dir : Directory) :
  let r := with_root_dir (local_reader_new dir) ∅ in
  local_read r = Err ReadIo ∨ local_read r = Ok (Finished, r).
Proof.
  intros r. unfold local_read. assert (∃ n, local_read_fuel r = S n) as [n ->].
  { exists (Nat.pred (local_read_fuel r)). unfold local_read_fuel. lia. }
  cbn [local_read_loop]. change (reader r) with (@None (nat * list Z)). cbn iota.
  destruct (times_advanced r !! next_file_idx r); [|by right].
  change (root_dir r) with (∅ : Directory). rewrite lookup_empty. by left.
Qed.

(** ** The properties *)

(** C32: opening the snapshot of an input with a committed time past 0 and
    reading it to the end never fails.  It returns exactly the recorded events
    before the first time advancement that reaches the committed time, together
    with the frontier recorded there; afterwards the directory holds exactly the
    events up to that advancement, so that a second recovery with the same
    committed time returns the same events. *)
Theorem snapshot_recovery `{BincodeLaws} (dir : Directory) (th : TotalFrontier Timestamp) fuel :
  dir_ok dir → th ≠ At (mk_Timestamp 0) → Finished ∉ snapshot_events dir →
  (length (snapshot_events dir) < fuel)%nat →
  ∃ s s', SnapshotReader_new (local_reader_new dir) th true = Ok s ∧
    read_to_end fuel s = Some (replayed th (snapshot_events dir), s') ∧
    last_frontier s' = frontier_after OffsetAntichain_new (committed_prefix th (snapshot_events dir)) ∧
    dir_ok (root_dir (reader_impl s')) ∧
    snapshot_events (root_dir (reader_impl s')) = committed_prefix th (snapshot_events dir) ∧
    replayed th (snapshot_events (root_dir (reader_impl s'))) = replayed th (snapshot_events dir).
Proof.
  intros Hok Hth Hfin Hfuel. unfold SnapshotReader_new.
  rewrite (threshold_not_zero th Hth).
  cbn [andb]. eexists. 
  assert (reader_state (local_reader_new dir) [] (snapshot_events dir)) as Hs by (by apply local_state_new).
  destruct (read_to_end_spec fuel
    (mk_SnapshotReader (local_reader_new dir) th 0 OffsetAntichain_new true) [] (snapshot_events dir)
    Hs Hfin Hfuel) as (s' & Hread & Hl & Hok' & Hst).
  exists s'. split_and!; [done..|]. rewrite Hst. apply replayed_committed.
Qed.

(** When no time was committed, opening the snapshot removes every file of
    the directory, and reading it returns nothing. *)
Theorem uncommitted_snapshot_discarded `{BincodeLaws} (dir : Directory) :
  dir_ok dir →
  ∃ s s', SnapshotReader_new (local_reader_new dir) (At (mk_Timestamp 0)) true = Ok s ∧
    root_dir (reader_impl s) = ∅ ∧ read_to_end 1 s = Some ([], s').
Proof.
  intros Hok. destruct (truncated_dir dir dir 0 Hok) as (dir' & Hrm & [Hn' _] & Hts' & _); [done| |].
  { intros t bs _. apply Hok. }
  assert (dir' = ∅) as ->.
  { apply map_eq. intros name. rewrite lookup_empty. apply eq_None_not_Some. intros Hs.
    destruct (Hn' name Hs) as (t & _ & ->). apply elem_of_dir_times in Hs; [|done].
    rewrite Hts' in Hs. by apply not_elem_of_nil in Hs. }
  set (s := mk_SnapshotReader (with_root_dir (local_reader_new dir) ∅) (At (mk_Timestamp 0)) 0
    OffsetAntichain_new true).
  assert (SnapshotReader_new (local_reader_new dir) (At (mk_Timestamp 0)) true = Ok s) as Hnew.
  { unfold SnapshotReader_new. cbn [ord_eqb cmp TotalFrontier_ord andb rse_truncate
      LocalBinarySnapshotReader_impl]. unfold local_truncate.
    change (times_advanced (local_reader_new dir)) with (dir_times dir).
    cbn [reader local_reader_new root_dir next_file_idx]. by rewrite Hrm. }
  assert (∃ s', read_to_end 1 s = Some ([], s')) as [s' Hread].
  { cbn [read_to_end]. unfold snapshot_read. cbn [rse_read LocalBinarySnapshotReader_impl reader_impl s].
    destruct (local_read_gone dir) as [-> | ->]; cbn [mbind outcome_bind]; eauto. }
  by exists s, s'.
Qed.

(** C34: whatever the writer does with its buffer, and wherever it is
    interrupted, the directory stays a well-formed snapshot: it holds the earlier
    events followed by a prefix of what was written, and this prefix includes
    everything written before the last flush. *)
Theorem writer_crash_consistent `{BincodeLaws} (dir : Directory) (ops : list WriterOp) :
  dir_ok dir → Forall (op_ok dir) ops →
  ∃ n, (flushed_count ops 0 ≤ n ≤ length (written ops))%nat ∧
    let dir' := writer_dir (run_writer (local_writer_new dir) ops) in
    dir_ok dir' ∧ snapshot_events dir' = snapshot_events dir ++ take n (written ops).
Proof.
  intros Hok Hops. assert (writer_inv dir (local_writer_new dir) [] 0) as Hinv.
  { split_and!; [done|constructor|done]. }
  pose proof (run_writer_inv dir ops Hops _ _ _ Hinv) as Hrun. cbn [length] in Hrun.
  destruct (writer_inv_events _ _ _ _ Hok Hrun) as (n & Hn & Hok' & Hev).
  cbn [app] in Hn, Hev. exists n. by split; [lia|].
Qed.

(** A time is safe to commit once it is flushed.  If a time advancement that
    reaches [th] was written before the last flush (or was already in the
    directory), then a recovery at [th] after a crash at any later point replays
    exactly the events recorded before it, as if there had been no crash. *)
Theorem flushed_time_recovers `{BincodeLaws} (dir : Directory) (ops : list WriterOp)
    (th : TotalFrontier Timestamp) fuel :
  let recorded := snapshot_events dir ++ written ops in
  let dir' := writer_dir (run_writer (local_writer_new dir) ops) in
  dir_ok dir → Forall (op_ok dir) ops → th ≠ At (mk_Timestamp 0) → Finished ∉ recorded →
  existsb (reaches th) (snapshot_events dir ++ take (flushed_count ops 0) (written ops)) = true →
  (length recorded < fuel)%nat →
  ∃ s s', SnapshotReader_new (local_reader_new dir') th true = Ok s ∧
    read_to_end fuel s = Some (replayed th recorded, s').
Proof.
  intros recorded dir' Hok Hops Hth Hfin Hreach Hfuel.
  assert (writer_inv dir (local_writer_new dir) [] 0) as Hinv by (split_and!; [done|constructor|done]).
  pose proof (run_writer_inv dir ops Hops _ _ _ Hinv) as Hrun. cbn [length] in Hrun.
  destruct (writer_inv_events _ _ _ _ Hok Hrun) as (n & Hn & Hok' & Hev). fold dir' in Hok', Hev.
  cbn [app] in Hn, Hev.
  assert (recorded = snapshot_events dir' ++ drop n (written ops)) as Hrec.
  { rewrite Hev, <- app_assoc, take_drop. done. }
  assert (replayed th recorded = replayed th (snapshot_events dir')) as ->.
  { rewrite Hrec. apply replayed_app. rewrite Hev.
    replace (take n (written ops)) with
      (take (flushed_count ops 0) (written ops) ++ drop (flushed_count ops 0) (take n (written ops))).
    - by rewrite app_assoc, existsb_app, Hreach.
    - rewrite <- (take_drop (flushed_count ops 0) (take n (written ops))) at 2. f_equal.
      rewrite take_take. f_equal. lia. }
  assert (reader_state (local_reader_new dir') [] (snapshot_events dir')) as Hs by (by apply local_state_new).
  unfold SnapshotReader_new. rewrite (threshold_not_zero th Hth). cbn [andb].
  edestruct (read_to_end_spec fuel
    (mk_SnapshotReader (local_reader_new dir') th 0 OffsetAntichain_new true) [] (snapshot_events dir')
    Hs) as (s' & Hread & _).
  - rewrite Hrec in Hfin. set_solver.
  - rewrite Hrec, length_app in Hfuel. lia.
  - by eexists _, s'.
Qed.

(** ** The properties at concrete inputs *)

(** A serialization of the events without a row: a tag, then one word. *)
Module ConcreteBincode.
#[export] Instance bincode : Bincode := {|
  bin_serialize e :=
    match e with
    | Insert k [] => ([0; key_0 k], true)
    | Delete k [] => ([1; key_0 k], true)
    | AdvanceTime t f => if decide (antichain f = ∅) then ([3; Z.of_N (ts_0 t)], true) else ([], false)
    | Finished => ([4; 0], true)
    | _ => ([], false)
    end;
  bin_deserialize bs :=
    match bs with
    | tag :: word :: rest =>
        if tag =? 0 then DeOk (Insert (mk_Key word) []) rest
        else if tag =? 1 then DeOk (Delete (mk_Key word) []) rest
        else if tag =? 3 then DeOk (AdvanceTime (mk_Timestamp (Z.to_N word)) OffsetAntichain_new) rest
        else if tag =? 4 then DeOk Finished rest
        else DeError
    | _ => DeUnexpectedEof
    end
|}.
Lemma event_bytes_two e : serializable e = true →
  ∃ tag word, event_bytes e = [tag; word] ∧ ∀ rest, bin_deserialize (tag :: word :: rest) = DeOk e rest.
Proof.
  unfold serializable, event_bytes. destruct e as [[k] [|]|[k] [|]| |[t] [f]|]; cbn; try done; intros He;
    [eexists 0, k|eexists 1, k| |eexists 4, 0]; try done.
  destruct (decide (f = ∅)) as [->|]; [|done]. eexists 3, _. split; [done|]. intros rest. cbn.
  by rewrite N2Z.id.
Qed.
#[export] Instance bincode_laws : BincodeLaws.
Proof.
  split.
  - intros e (tag & word & -> & _)%event_bytes_two. done.
  - intros e rest (tag & word & -> & Hd)%event_bytes_two. apply Hd.
  - intros e p q (tag & word & -> & _)%event_bytes_two Hpq Hq.
    destruct p as [|a [|b [|c p]]]; try done; cbn in Hpq; simplify_eq; done.
  - done.
  - intros [|tag [|word bs]] e rest Hd; try done. exists [tag; word]. cbn in *.
    repeat case_match; simplify_eq; done.
Qed.

(** Two files: the second one ends in an unfinished record. *)
Definition sample_dir : Directory :=
  <["5"%string := [0; 7; 3; 6]]> (<["12"%string := [0; 8; 3; 10; 0; 9; 3; 14; 1]]> ∅).
Lemma sample_dir_ok : dir_ok sample_dir.
Proof.
  unfold sample_dir. split.
  - intros name [bs [[<- _]|[_ [[<- _]|[_ Hl]]%lookup_insert_Some]]%lookup_insert_Some].
    + exists (mk_Timestamp 5). split; reflexivity.
    + exists (mk_Timestamp 12). split; reflexivity.
    + by rewrite lookup_empty in Hl.
  - intros name bs [[_ <-]|[_ [[_ <-]|[_ Hl]]%lookup_insert_Some]]%lookup_insert_Some.
    + reflexivity.
    + reflexivity.
    + by rewrite lookup_empty in Hl.
Qed.
Definition sample_ops : list WriterOp :=
  [OpWrite 20 1 (Insert (mk_Key 3) []);
   OpWrite 21 0 (AdvanceTime (mk_Timestamp 30) OffsetAntichain_new); OpFlush;
   OpWrite 22 1 (Delete (mk_Key 4) [])].
Lemma sample_ops_ok : Forall (op_ok sample_dir) sample_ops.
Proof.
  assert (∀ now, 12 < now → ∀ t, t ∈ dir_times sample_dir → Z.of_N (ts_0 t) < now) as Hclock.
  { intros now Hnow t Ht. assert (dir_times sample_dir = [mk_Timestamp 5; mk_Timestamp 12]) as Heq
      by (vm_compute; reflexivity).
    rewrite Heq in Ht. apply elem_of_cons in Ht as [->|Ht]; [cbn; lia|].
    apply list_elem_of_singleton in Ht as ->. cbn. lia. }
  repeat constructor; apply Hclock; lia.
Qed.
End ConcreteBincode.

Section snapshot_witnesses.
Import ConcreteBincode.

Lemma snapshot_recovery_witness :
  ∃ s s', SnapshotReader_new (local_reader_new sample_dir) (At (mk_Timestamp 9)) true = Ok s ∧
    read_to_end 10 s = Some ([Insert (mk_Key 7) []; AdvanceTime (mk_Timestamp 6) OffsetAntichain_new;
                              Insert (mk_Key 8) []], s').
Proof.
  destruct (snapshot_recovery sample_dir (At (mk_Timestamp 9)) 10) as (s & s' & Hs & Hr & _).
  - exact sample_dir_ok.
  - discriminate.
  - assert (Hc : existsb (λ e, match e with Finished => true | _ => false end)
      (snapshot_events sample_dir) = false) by (vm_compute; reflexivity).
    intros Hin. apply not_true_iff_false in Hc. apply Hc, existsb_exists.
    exists Finished. split; [by apply list_elem_of_In|]. reflexivity.
  - apply Nat.ltb_lt. vm_compute. reflexivity.
  - exists s, s'. split; [exact Hs|]. rewrite Hr. repeat f_equal.
Defined.
Lemma uncommitted_snapshot_discarded_witness :
  ∃ s s', SnapshotReader_new (local_reader_new sample_dir) (At (mk_Timestamp 0)) true = Ok s ∧
    root_dir (reader_impl s) = ∅ ∧ read_to_end 1 s = Some ([], s').
Proof. exact (uncommitted_snapshot_discarded sample_dir sample_dir_ok). Defined.
Lemma writer_crash_consistent_witness :
  ∃ n, (2 ≤ n ≤ 3)%nat ∧
    snapshot_events (writer_dir (run_writer (local_writer_new sample_dir) sample_ops)) =
      snapshot_events sample_dir ++ take n (written sample_ops).
Proof.
  destruct (writer_crash_consistent sample_dir sample_ops sample_dir_ok sample_ops_ok) as (n & Hn & _ & Hev).
  exists n. split; [exact Hn|exact Hev].
Defined.
Lemma flushed_time_recovers_witness :
  ∃ s s', SnapshotReader_new
      (local_reader_new (writer_dir (run_writer (local_writer_new sample_dir) sample_ops)))
      (At (mk_Timestamp 25)) true = Ok s ∧
    read_to_end 20 s = Some (snapshot_events sample_dir ++ [Insert (mk_Key 3) []], s').
Proof.
  destruct (flushed_time_recovers sample_dir sample_ops (At (mk_Timestamp 25)) 20) as (s & s' & Hs & Hr).
  - exact sample_dir_ok.
  - exact sample_ops_ok.
  - discriminate.
  - assert (Hc : existsb (λ e, match e with Finished => true | _ => false end)
      (snapshot_events sample_dir ++ written sample_ops) = false) by (vm_compute; reflexivity).
    intros Hin. apply not_true_iff_false in Hc. apply Hc, existsb_exists.
    exists Finished. split; [by apply list_elem_of_In|]. reflexivity.
  - vm_compute. reflexivity.
  - apply Nat.ltb_lt. vm_compute. reflexivity.
  - exists s, s'. split; [exact Hs|]. rewrite Hr. repeat f_equal.
Defined.
End snapshot_witnesses.
