(* ===== verification/Session.v ===== *)
(** Input sessions (src/connectors/adaptors.rs, over the input handle of
    external/timely-dataflow and the session of external/differential-dataflow):
    how a connector hands updates and times to the dataflow.

    The class [InputAdaptor] is the trait; [InputAdaptorLaws] is what a connector
    relies on: an adaptor logs exactly the changes given to it, at its time, in
    order; it accepts every time not before its own; a flush leaves nothing
    buffered.  Both sessions implement it. *)
From Stdlib Require Import ZArith Lia Bool.
From stdpp Require Import base list strings gmap.
From S2P Require Import Prelude Order Data Timestamp.
Open Scope Z_scope.

(** ** The handle of a timely input *)

(** Its epoch and the batches sent through it, each at the epoch it had. *)
Record InputHandle (D : Type) := mk_InputHandle {
  now_at : Timestamp; sent : list (Timestamp * list D)
}.
Arguments mk_InputHandle {D} _ _.
Arguments now_at {D} _.
Arguments sent {D} _.

Section input_handle.
Context {D : Type}.
Definition handle_new_input : InputHandle D := mk_InputHandle minimum [].
Definition send_batch (h : InputHandle D) (buffer : list D) : InputHandle D :=
  match buffer with [] => h | _ => mk_InputHandle (now_at h) (sent h ++ [(now_at h, buffer)]) end.
Definition handle_advance_to (h : InputHandle D) (next : Timestamp) : outcome unit (InputHandle D) :=
  if less_equal (now_at h) next then Ok (mk_InputHandle next (sent h))
  else Panic "assertion failed: self.now_at.less_equal(&next)".
End input_handle.

(** ** Sessions *)

(** [trait InputAdaptor<Timestamp>]. *)
Class InputAdaptor (S : Type) := {
  ia_new : S;
  ia_insert : S → Key → Value → outcome unit S;
  ia_remove : S → Key → Value → outcome unit S;
  ia_upsert : S → Key → option Value → outcome unit S;
  ia_advance_to : S → Timestamp → outcome unit S;
  ia_time : S → Timestamp;
  ia_flush : S → outcome unit S
}.

(** The fields of both sessions. *)
Record Session (D : Type) := mk_Session { time : Timestamp; buffer : list D; handle : InputHandle D }.
Arguments mk_Session {D} _ _ _.
Arguments time {D} _.
Arguments buffer {D} _.
Arguments handle {D} _.

(** When the vector of buffered records is at its capacity. *)
Class AtCapacity (D : Type) := at_capacity : Session D → bool.

Section session.
Context {D : Type}.
Definition session_new : Session D := mk_Session (now_at (handle_new_input (D:=D))) [] handle_new_input.
Definition session_push `{AtCapacity D} (s : Session D) (record : D) : Session D :=
  if at_capacity s
  then mk_Session (time s) [record] (send_batch (handle s) (buffer s))
  else mk_Session (time s) (buffer s ++ [record]) (handle s).
Definition session_flush (s : Session D) : outcome unit (Session D) :=
  let h := send_batch (handle s) (buffer s) in
  if less_than (now_at h) (time s)
  then h ← handle_advance_to h (time s); Ok (mk_Session (time s) [] h)
  else Ok (mk_Session (time s) [] h).
Definition session_advance_to (s : Session D) (t : Timestamp) : outcome unit (Session D) :=
  if less_equal (now_at (handle s)) t && less_equal (time s) t
  then Ok (mk_Session t (buffer s) (handle s))
  else Panic "assertion failed: self.time.less_equal(&time)".
End session.

(** [InputSession<Timestamp, (Key, Value), isize>] of differential dataflow. *)
Definition NativeRecord : Type := (Key * Value) * Timestamp * Z.
Record InputSession := mk_InputSession { native_session : Session NativeRecord }.
Definition input_session_update `{AtCapacity NativeRecord} (s : InputSession) (element : Key * Value) (change : Z)
    : InputSession :=
  mk_InputSession (session_push (native_session s) (element, time (native_session s), change)).
Global Instance InputSession_adaptor `{AtCapacity NativeRecord} : InputAdaptor InputSession := {|
  ia_new := mk_InputSession session_new;
  ia_insert s key value := Ok (input_session_update s (key, value) 1);
  ia_remove s key value := Ok (input_session_update s (key, value) (-1));
  ia_upsert s key value := Panic "this type of InputAdaptor doesn't support upserts";
  ia_advance_to s t := s' ← session_advance_to (native_session s) t; Ok (mk_InputSession s');
  ia_time s := time (native_session s);
  ia_flush s := s' ← session_flush (native_session s); Ok (mk_InputSession s')
|}.

Definition UpsertRecord : Type := Key * option Value * Timestamp.
Record UpsertSession := mk_UpsertSession { upsert_session : Session UpsertRecord }.
Global Instance UpsertSession_adaptor `{AtCapacity UpsertRecord} : InputAdaptor UpsertSession := {|
  ia_new := mk_UpsertSession session_new;
  ia_insert s key value := Panic "this type of InputAdaptor doesn't support inserts";
  ia_remove s key value := Panic "this type of InputAdaptor doesn't support removals";
  ia_upsert s key value :=
    Ok (mk_UpsertSession (session_push (upsert_session s) (key, value, time (upsert_session s))));
  ia_advance_to s t := s' ← session_advance_to (upsert_session s) t; Ok (mk_UpsertSession s');
  ia_time s := time (upsert_session s);
  ia_flush s := s' ← session_flush (upsert_session s); Ok (mk_UpsertSession s')
|}.

(** ** The contract of an adaptor *)

Inductive Change := ChInsert (key : Key) (value : Value) | ChRemove (key : Key) (value : Value)
  | ChUpsert (key : Key) (value : option Value).
Definition ia_change {S} `{InputAdaptor S} (s : S) (c : Change) : outcome unit S :=
  match c with
  | ChInsert k v => ia_insert s k v
  | ChRemove k v => ia_remove s k v
  | ChUpsert k v => ia_upsert s k v
  end.

(** [ia_log]: all changes given to the adaptor, with their times; [ia_sent]: the
    batches that reached the dataflow, with the epochs they were sent at. *)
Class InputAdaptorLaws (S : Type) `{InputAdaptor S} := {
  ia_log : S → list (Change * Timestamp);
  ia_sent : S → list (Timestamp * list (Change * Timestamp));
  ia_epoch : S → Timestamp;
  ia_supports : Change → bool;
  ia_ok : S → Prop;
  ia_ok_new : ia_ok ia_new;
  ia_new_log : ia_log ia_new = [];
  ia_sent_log s : ia_ok s → concat (map snd (ia_sent s)) `prefix_of` ia_log s;
  ia_sent_epochs s e b c t : ia_ok s → (e, b) ∈ ia_sent s → (c, t) ∈ b →
    less_equal e t = true ∧ less_equal e (ia_epoch s) = true;
  ia_change_ok s c : ia_ok s → ia_supports c = true →
    ∃ s', ia_change s c = Ok s' ∧ ia_ok s' ∧ ia_log s' = ia_log s ++ [(c, ia_time s)] ∧ ia_time s' = ia_time s;
  ia_change_unsupported s c : ia_supports c = false → ∃ p, ia_change s c = Panic p;
  ia_advance_ok s t : ia_ok s → less_equal (ia_time s) t = true →
    ∃ s', ia_advance_to s t = Ok s' ∧ ia_ok s' ∧ ia_log s' = ia_log s ∧ ia_time s' = t;
  ia_advance_back s t : less_equal (ia_time s) t = false → ∃ p, ia_advance_to s t = Panic p;
  ia_flush_ok s : ia_ok s →
    ∃ s', ia_flush s = Ok s' ∧ ia_ok s' ∧ ia_log s' = ia_log s ∧ ia_time s' = ia_time s ∧
      concat (map snd (ia_sent s')) = ia_log s ∧ ia_epoch s' = ia_time s
}.

Definition native_supports (c : Change) : bool := match c with ChUpsert _ _ => false | _ => true end.

(** ** Lemmas on sessions *)

Lemma Timestamp_le_trans (a b c : Timestamp) :
  less_equal a b = true → less_equal b c = true → less_equal a c = true.
Proof. unfold less_equal, Timestamp_PartialOrder. rewrite !N.leb_le. lia. Qed.
Lemma Timestamp_le_refl (a : Timestamp) : less_equal a a = true.
Proof. unfold less_equal, Timestamp_PartialOrder. rewrite N.leb_le. lia. Qed.
Lemma Timestamp_le_antisym (a b : Timestamp) :
  less_equal a b = true → less_equal b a = true → a = b.
Proof.
  destruct a, b. unfold less_equal, Timestamp_PartialOrder. rewrite !N.leb_le. simpl. intros. f_equal. lia.
Qed.
#[export] Hint Resolve Timestamp_le_refl : core.

Section session_lemmas.
Context {D : Type} (tm : D → Timestamp).

(** Every record lies between the epoch it is sent at and the time of the
    session. *)
Definition batch_ok (now : Timestamp) (eb : Timestamp * list D) : Prop :=
  less_equal (fst eb) now = true ∧ ∀ r, r ∈ snd eb → less_equal (fst eb) (tm r) = true.
Record session_ok (s : Session D) : Prop := {
  so_epoch : less_equal (now_at (handle s)) (time s) = true;
  so_buffer : ∀ r, r ∈ buffer s → less_equal (now_at (handle s)) (tm r) = true;
  so_sent : ∀ eb, eb ∈ sent (handle s) → batch_ok (now_at (handle s)) eb
}.
Definition session_records (s : Session D) : list D := concat (map snd (sent (handle s))) ++ buffer s.

Lemma sent_send_batch (h : InputHandle D) b :
  concat (map snd (sent (send_batch h b))) = concat (map snd (sent h)) ++ b.
Proof. destruct b; simpl; [by rewrite app_nil_r|]. rewrite map_app, concat_app. simpl. by rewrite app_nil_r. Qed.
Lemma now_at_send_batch (h : InputHandle D) b : now_at (send_batch h b) = now_at h.
Proof. by destruct b. Qed.
Lemma send_batch_ok (h : InputHandle D) b :
  (∀ r, r ∈ b → less_equal (now_at h) (tm r) = true) →
  (∀ eb, eb ∈ sent h → batch_ok (now_at h) eb) → ∀ eb, eb ∈ sent (send_batch h b) → batch_ok (now_at h) eb.
Proof.
  intros Hb Hs eb. destruct b as [|x b]; [apply Hs|]. unfold send_batch; simpl.
  rewrite elem_of_app, list_elem_of_singleton. intros [?| ->]; [by apply Hs|]. split; simpl; auto.
Qed.

Lemma session_new_ok : session_ok session_new.
Proof. split; simpl; [done|..]; intros ? []%elem_of_nil. Qed.
Lemma session_push_ok `{AtCapacity D} s r : session_ok s → tm r = time s →
  session_ok (session_push s r) ∧ session_records (session_push s r) = session_records s ++ [r] ∧
  time (session_push s r) = time s.
Proof.
  intros [He Hb Hs] Hr. unfold session_push. destruct (at_capacity s); split_and!; try done.
  - split; simpl; rewrite ?now_at_send_batch; [done| |by apply send_batch_ok].
    intros r' ->%list_elem_of_singleton. congruence.
  - unfold session_records; simpl. by rewrite sent_send_batch.
  - split; simpl; [done| |done]. intros r' [?| ->%list_elem_of_singleton]%elem_of_app; [auto|congruence].
  - unfold session_records; simpl. by rewrite app_assoc.
Qed.
Lemma session_advance_ok s t : session_ok s → less_equal (time s) t = true →
  ∃ s', session_advance_to s t = Ok s' ∧ session_ok s' ∧ session_records s' = session_records s ∧ time s' = t.
Proof.
  intros [He Hb Hs] Ht. unfold session_advance_to.
  rewrite Ht, (Timestamp_le_trans _ _ _ He Ht). simpl. eexists; split_and!; [done| |done|done].
  split; simpl; [by eapply Timestamp_le_trans|done|done].
Qed.
Lemma session_advance_back (s : Session D) t : less_equal (time s) t = false → ∃ p, session_advance_to s t = Panic p.
Proof. intros Ht. unfold session_advance_to. rewrite Ht, andb_false_r. by eexists. Qed.
Lemma session_flush_ok s : session_ok s →
  ∃ s', session_flush s = Ok s' ∧ session_ok s' ∧ session_records s' = session_records s ∧ time s' = time s ∧
    concat (map snd (sent (handle s'))) = session_records s ∧ now_at (handle s') = time s.
Proof.
  intros [He Hb Hs]. unfold session_flush, handle_advance_to. rewrite now_at_send_batch, He. simpl.
  pose proof (send_batch_ok _ _ Hb Hs) as Hs'.
  destruct (less_than (now_at (handle s)) (time s)) eqn:Hlt; eexists; (split; [done|]); split_and!; simpl;
    try done; try (unfold session_records; simpl; by rewrite ?app_nil_r, sent_send_batch).
  - split; simpl; [done|by intros ? ?%elem_of_nil|]. intros eb Heb. destruct (Hs' _ Heb) as [H1 H2].
    split; [by eapply Timestamp_le_trans|done].
  - split; simpl; rewrite ?now_at_send_batch; [done|by intros ? ?%elem_of_nil|done].
  - rewrite now_at_send_batch. unfold less_than in Hlt. rewrite He in Hlt. simpl in Hlt.
    by apply negb_false_iff, bool_decide_eq_true in Hlt.
Qed.
End session_lemmas.

(** ** Both sessions keep the contract *)

Definition native_change (r : NativeRecord) : Change * Timestamp :=
  let '((k, v), t, diff) := r in (if diff =? 1 then ChInsert k v else ChRemove k v, t).
Definition upsert_change (r : UpsertRecord) : Change * Timestamp := let '(k, v, t) := r in (ChUpsert k v, t).

Section log.
Context {D : Type} (change_of : D → Change * Timestamp).
Definition session_log (s : Session D) : list (Change * Timestamp) := map change_of (session_records s).
Definition session_sent (s : Session D) : list (Timestamp * list (Change * Timestamp)) :=
  map (λ eb, (fst eb, map change_of (snd eb))) (sent (handle s)).
Lemma session_sent_concat s :
  concat (map snd (session_sent s)) = map change_of (concat (map snd (sent (handle s)))).
Proof. unfold session_sent. rewrite map_map, concat_map, map_map. done. Qed.
Lemma session_sent_log s : concat (map snd (session_sent s)) `prefix_of` session_log s.
Proof.
  rewrite session_sent_concat. unfold session_log, session_records. rewrite map_app. by eexists.
Qed.
Lemma session_sent_epochs s e b c t : session_ok (snd ∘ change_of) s → (e, b) ∈ session_sent s → (c, t) ∈ b →
  less_equal e t = true ∧ less_equal e (now_at (handle s)) = true.
Proof.
  intros [_ _ Hs] Hb Hc. apply list_elem_of_fmap in Hb as ([e' b'] & [= -> ->] & Hb).
  apply list_elem_of_fmap in Hc as (r & Hr & Hc). destruct (Hs _ Hb) as [He Hr'].
  split; [|done]. specialize (Hr' r Hc). simpl in Hr'. by rewrite <- Hr in Hr'.
Qed.
Lemma session_log_push `{AtCapacity D} s r : session_ok (snd ∘ change_of) s → snd (change_of r) = time s →
  session_ok (snd ∘ change_of) (session_push s r) ∧
  session_log (session_push s r) = session_log s ++ [change_of r] ∧ time (session_push s r) = time s.
Proof.
  intros Hok Ht. destruct (session_push_ok (snd ∘ change_of) s r Hok Ht) as (H1 & H2 & H3).
  unfold session_log. by rewrite H2, map_app.
Qed.
End log.

Ltac session_op lem :=
  let Hr := fresh in
  edestruct lem as (? & -> & ? & Hr & ?); [eassumption..|];
  eexists; split; [reflexivity|]; destruct_and?; split_and!; simpl; unfold session_log;
  rewrite ?session_sent_concat; congruence.

Global Program Instance InputSession_laws `{AtCapacity NativeRecord} : InputAdaptorLaws InputSession := {|
  ia_log s := session_log native_change (native_session s);
  ia_sent s := session_sent native_change (native_session s);
  ia_epoch s := now_at (handle (native_session s));
  ia_supports := native_supports;
  ia_ok s := session_ok (snd ∘ native_change) (native_session s)
|}.
Next Obligation. intros. apply session_new_ok. Qed.
Next Obligation. done. Qed.
Next Obligation. intros. apply session_sent_log. Qed.
Next Obligation. intros ? s e b c t ???. by apply (session_sent_epochs native_change _ e b c t). Qed.
Next Obligation.
  intros ? s c Hok Hc. destruct c as [k v|k v|k v]; [| |done]; simpl; eexists; (split; [done|]); simpl;
    (apply (session_log_push native_change); [done|reflexivity]).
Qed.
Next Obligation. intros ? s [] [=]. by eexists. Qed.
Next Obligation. intros ? s t Hok Ht. simpl. session_op (session_advance_ok (snd ∘ native_change)). Qed.
Next Obligation. intros ? s t Ht. simpl. destruct (session_advance_back _ _ Ht) as [p ->]. by eexists. Qed.
Next Obligation. intros ? s Hok. simpl. session_op (session_flush_ok (snd ∘ native_change)). Qed.

Global Program Instance UpsertSession_laws `{AtCapacity UpsertRecord} : InputAdaptorLaws UpsertSession := {|
  ia_log s := session_log upsert_change (upsert_session s);
  ia_sent s := session_sent upsert_change (upsert_session s);
  ia_epoch s := now_at (handle (upsert_session s));
  ia_supports c := negb (native_supports c);
  ia_ok s := session_ok (snd ∘ upsert_change) (upsert_session s)
|}.
Next Obligation. intros. apply session_new_ok. Qed.
Next Obligation. done. Qed.
Next Obligation. intros. apply session_sent_log. Qed.
Next Obligation. intros ? s e b c t ???. by apply (session_sent_epochs upsert_change _ e b c t). Qed.
Next Obligation.
  intros ? s c Hok Hc. destruct c as [k v|k v|k v]; [done|done|]; simpl; eexists; (split; [done|]); simpl.
  apply (session_log_push upsert_change); [done|reflexivity].
Qed.
Next Obligation. intros ? s [] [=]; by eexists. Qed.
Next Obligation. intros ? s t Hok Ht. simpl. session_op (session_advance_ok (snd ∘ upsert_change)). Qed.
Next Obligation. intros ? s t Ht. simpl. destruct (session_advance_back _ _ Ht) as [p ->]. by eexists. Qed.
Next Obligation. intros ? s Hok. simpl. session_op (session_flush_ok (snd ∘ upsert_change)). Qed.
