(* ===== verification/Connector.v ===== *)
(** Input connectors (src/connectors/mod.rs, monitoring.rs, the parsed events of
    data_format.rs, merge_two_frontiers of data_storage.rs, and the closure of
    connector_table in dataflow.rs that makes keys): from the entries of a source
    to the updates of an input session and the events of a snapshot.

    The parser and the reader's frontier are arguments; the clock is a function
    of the number of times it was read.  A snapshot writer is the list of the
    events submitted to it: a failed write is only logged, and Snapshot.v says
    what becomes of the events.  The receiving end of the channel is the list of
    the entries that arrive until a call of the poller returns. *)
From Stdlib Require Import ZArith Lia Bool Ascii.
From stdpp Require Import base list strings gmap.
From S2P Require Import Prelude Order Text Data Externals Value Timestamp Persistence Snapshot Session.
Open Scope Z_scope.

(** ** Parsed events *)

Inductive SessionType := Native | UpsertType.
Inductive DataEventType := DeInsert | DeDelete | DeUpsert.
Definition KeyFieldsWithErrors : Type := option (DynResult (list Value)).
Definition ValueFieldsWithErrors : Type := list (DynResult Value).
Inductive ParsedEventWithErrors :=
| PeAdvanceTime
| PeInsert (key : KeyFieldsWithErrors) (values : ValueFieldsWithErrors)
| PeUpsert (key : KeyFieldsWithErrors) (values : option ValueFieldsWithErrors)
| PeDelete (key : KeyFieldsWithErrors) (values : ValueFieldsWithErrors).
Inductive ParsedEvent :=
| PAdvanceTime
| PInsert (key : option (list Value)) (values : list Value)
| PUpsert (key : option (list Value)) (values : option (list Value))
| PDelete (key : option (list Value)) (values : list Value).

Definition parsed_event_new (session_type : SessionType) (data_event_type : DataEventType)
    (key : KeyFieldsWithErrors) (values : ValueFieldsWithErrors) : outcome unit ParsedEventWithErrors :=
  match session_type, data_event_type with
  | Native, DeInsert => Ok (PeInsert key values)
  | Native, DeDelete => Ok (PeDelete key values)
  | Native, DeUpsert => Panic "incorrect Reader-Parser configuration: unexpected Upsert event in Native session"
  | UpsertType, DeInsert => Panic "incorrect Reader-Parser configuration: unexpected Insert event in Upsert session"
  | UpsertType, DeDelete => Ok (PeUpsert key None)
  | UpsertType, DeUpsert => Ok (PeUpsert key (Some values))
  end.

(** [Option::transpose] on the fallible key. *)
Definition transpose_key (key : KeyFieldsWithErrors) : DynResult (option (list Value)) :=
  match key with
  | None => Ok None
  | Some k => k ← k; Ok (Some k)
  end.
(** [logic]: values without errors and the errors it logged. *)
Definition ErrorRemovalLogic : Type := ValueFieldsWithErrors → DynResult (list Value) * list DataError.
Definition remove_errors (logic : ErrorRemovalLogic) (self : ParsedEventWithErrors)
    : DynResult ParsedEvent * list DataError :=
  let with_key key (k : option (list Value) → DynResult ParsedEvent * list DataError) :=
    match transpose_key key with
    | Ok key => k key
    | Err e => (Err e, [])
    | Panic p => (Panic p, [])
    end in
  match self with
  | PeAdvanceTime => (Ok PAdvanceTime, [])
  | PeInsert key values => with_key key (λ key,
      let (vs, log) := logic values in (vs ← vs; Ok (PInsert key vs), log))
  | PeUpsert key None => with_key key (λ key, (Ok (PUpsert key None), []))
  | PeUpsert key (Some values) => with_key key (λ key,
      let (vs, log) := logic values in (vs ← vs; Ok (PUpsert key (Some vs)), log))
  | PeDelete key values => with_key key (λ key,
      let (vs, log) := logic values in (vs ← vs; Ok (PDelete key vs), log))
  end.
(** [try_collect] and, unless all errors are skipped, [unwrap_or_log]. *)
Definition skip_all_errors_logic : ErrorRemovalLogic := λ values, (try_collect id values, []).
Definition log_errors_logic : ErrorRemovalLogic := λ values,
  (try_collect (λ v, match v with Ok v => Ok v | Err _ => Ok VError | Panic p => Panic p end) values,
   omap (λ v, match v with Err e => Some e | _ => None end) values).

Section parsed_event.
Context (values_to_key : option (list Value) → option Offset → outcome unit Key).
Definition parsed_key (self : ParsedEvent) (offset : option Offset) : outcome unit (option Key) :=
  match self with
  | PInsert raw_key _ | PUpsert raw_key _ | PDelete raw_key _ =>
      k ← values_to_key raw_key offset; Ok (Some k)
  | PAdvanceTime => Ok None
  end.
End parsed_event.
Definition snapshot_event (self : ParsedEvent) (key : Key) : option Event :=
  match self with
  | PInsert _ values => Some (Insert key values)
  | PUpsert _ values => Some (Upsert key values)
  | PDelete _ values => Some (Delete key values)
  | PAdvanceTime => None
  end.

(** ** Keys of the rows of a connector *)

Section row_keys.
Context `{XxHash, Python, SerdeJson, Chrono}.
Definition offset_key_hash (k : OffsetKey) : list Z :=
  match k with
  | OkKafka topic partition => string_bytes topic ++ to_le_bytes 4 partition
  | OkEmpty => []
  end.
Definition offset_value_hash (v : OffsetValue) : list Z :=
  match v with
  | KafkaOffset offset => i64_hash offset
  | FilePosition _ path bytes_offset => string_bytes path ++ to_le_bytes 8 bytes_offset
  | S3ObjectPosition _ path bytes_offset => string_bytes path ++ to_le_bytes 8 bytes_offset
  | PythonEntrySequentialId sequential_id => to_le_bytes 8 sequential_id
  | OvEmpty => []
  end.
(** The closure that [connector_table] passes to [Connector::run]. *)
Definition connector_values_to_key (values : option (list Value)) (offset : option Offset) : outcome unit Key :=
  match values with
  | None =>
      match offset with
      | None => Panic "offset is required for key generation"
      | Some (offset_key, offset_value) =>
          Ok (from_hasher (offset_key_hash offset_key ++ offset_value_hash offset_value))
      end
  | Some [VPointer key] => Ok key
  | Some values => map_err (λ _, tt) (for_values values)
  end.
End row_keys.

(** ** Frontiers of offsets *)

(** The value [merge_two_frontiers] leaves at a key, from the values the two
    frontiers hold there. *)
Definition merge_offset_value (offset_value other_value : OffsetValue) : OffsetValue :=
  match offset_value, other_value with
  | KafkaOffset offset_position, KafkaOffset other_position
  | PythonEntrySequentialId offset_position, PythonEntrySequentialId other_position =>
      if offset_position <? other_position then other_value else offset_value
  | FilePosition offset_line_idx _ _, FilePosition other_line_idx _ _
  | S3ObjectPosition offset_line_idx _ _, S3ObjectPosition other_line_idx _ _ =>
      if offset_line_idx <? other_line_idx then other_value else offset_value
  | _, _ => offset_value
  end.
Definition merge_two_frontiers (lhs rhs : OffsetAntichain) : OffsetAntichain :=
  foldl (λ result '(offset_key, other_value),
    match get_offset result offset_key with
    | Some offset_value => advance_offset result offset_key (merge_offset_value offset_value other_value)
    | None => advance_offset result offset_key other_value
    end) lhs (map_to_list (antichain rhs)).

(** ** [ConnectorMonitor] *)

(** Its statistics; the text it logs is left out.  Instants are nanoseconds. *)
Record ConnectorMonitor := mk_ConnectorMonitor {
  num_messages_from_start : Z;
  num_messages_in_last_minute : Z;
  num_messages_recently_committed : Z;
  finished : bool;
  last_minute_queue : list (Z * Z);
  current_num_messages : Z
}.
Definition monitor_new : ConnectorMonitor := mk_ConnectorMonitor 0 0 0 false [] 0.
Definition SIXTY_SECONDS : Z := 60 * 1000000000.
Section monitor.
Context `{Profile}.
Definition monitor_increment (m : ConnectorMonitor) : outcome unit ConnectorMonitor :=
  n ← u64_arith (current_num_messages m + 1);
  Ok (mk_ConnectorMonitor (num_messages_from_start m) (num_messages_in_last_minute m)
        (num_messages_recently_committed m) (finished m) (last_minute_queue m) n).
Definition monitor_finish (m : ConnectorMonitor) : ConnectorMonitor :=
  mk_ConnectorMonitor (num_messages_from_start m) (num_messages_in_last_minute m)
    (num_messages_recently_committed m) true (last_minute_queue m) (current_num_messages m).
(** The loop over the front of the queue ([duration_since] saturates). *)
Fixpoint drop_old_messages (now : Z) (queue : list (Z * Z)) (in_last_minute : Z)
    : outcome unit (list (Z * Z) * Z) :=
  match queue with
  | [] => Ok ([], in_last_minute)
  | elem :: queue' =>
      if Z.max 0 (now - snd elem) <? SIXTY_SECONDS then Ok (queue, in_last_minute)
      else n ← u64_arith (in_last_minute - fst elem); drop_old_messages now queue' n
  end.
Definition monitor_commit (now : Z) (m : ConnectorMonitor) : outcome unit ConnectorMonitor :=
  ' (queue, in_last_minute) ← drop_old_messages now (last_minute_queue m) (num_messages_in_last_minute m);
  in_last_minute ← u64_arith (in_last_minute + current_num_messages m);
  from_start ← u64_arith (num_messages_from_start m + current_num_messages m);
  Ok (mk_ConnectorMonitor from_start in_last_minute (current_num_messages m) (finished m)
        (queue ++ [(current_num_messages m, now)]) 0).
End monitor.

(** ** [Connector] *)

Record Connector := mk_Connector {
  commit_duration : option Z;
  current_timestamp : Timestamp;
  num_columns : nat;
  current_frontier : OffsetAntichain;
  skip_all_errors : bool
}.
Definition Connector_new (commit_duration : option Z) (num_columns : nat) (skip_all_errors : bool) : Connector :=
  mk_Connector commit_duration (mk_Timestamp 0) num_columns OffsetAntichain_new skip_all_errors.
Definition set_current_timestamp (c : Connector) (t : Timestamp) : Connector :=
  mk_Connector (commit_duration c) t (num_columns c) (current_frontier c) (skip_all_errors c).
Definition set_current_frontier (c : Connector) (f : OffsetAntichain) : Connector :=
  mk_Connector (commit_duration c) (current_timestamp c) (num_columns c) f (skip_all_errors c).

Inductive ReadResult (RC Meta : Type) :=
| RrFinished
| RrNewSource (metadata : option Meta)
| RrFinishedSource (commit_allowed : bool)
| RrData (context : RC) (offset : Offset).
Arguments RrFinished {RC Meta}.
Arguments RrNewSource {RC Meta} _.
Arguments RrFinishedSource {RC Meta} _.
Arguments RrData {RC Meta} _ _.
Inductive Entry (RC Meta : Type) :=
| EnSnapshot (e : Event)
| EnRewindFinishSentinel (f : OffsetAntichain)
| EnRealtime (r : ReadResult RC Meta).
Arguments EnSnapshot {RC Meta} _.
Arguments EnRewindFinishSentinel {RC Meta} _.
Arguments EnRealtime {RC Meta} _.

(** [trait Parser], on the contexts and the metadata that the reader produces. *)
Class Parser (RC Meta P : Type) := {
  parse : P → RC → DynResult (list ParsedEventWithErrors) * P;
  on_new_source_started : P → option Meta → P
}.

(** What the logger of errors receives. *)
Inductive LoggedError := LoggedError_data (e : DataError) | LoggedError_ErrorInKey (e : DataError).

Section connector.
Context {S : Type} `{InputAdaptor S, Profile}.
(** The clocks ([current_unix_timestamp_ms], [Instant::now]) at their n-th
    reading; the closure that makes keys. *)
Context (unix_timestamp_ms instant_now : nat → Z).
Context (values_to_key : option (list Value) → option Offset → outcome unit Key).

(** The connector with what its handlers borrow mutably; [ticks] counts the
    readings of the clocks. *)
Record ConnectorState := mk_ConnectorState {
  connector : Connector;
  input_session : S;
  snapshot_writer : option (list Event);
  connector_monitor : option ConnectorMonitor;
  logged_errors : list LoggedError;
  ticks : nat
}.
Definition with_session (x : ConnectorState) (s : S) : ConnectorState :=
  mk_ConnectorState (connector x) s (snapshot_writer x) (connector_monitor x) (logged_errors x) (ticks x).
Definition with_connector (x : ConnectorState) (c : Connector) : ConnectorState :=
  mk_ConnectorState c (input_session x) (snapshot_writer x) (connector_monitor x) (logged_errors x) (ticks x).
Definition with_monitor (x : ConnectorState) (m : option ConnectorMonitor) : ConnectorState :=
  mk_ConnectorState (connector x) (input_session x) (snapshot_writer x) m (logged_errors x) (ticks x).
Definition with_logged (x : ConnectorState) (es : list LoggedError) : ConnectorState :=
  mk_ConnectorState (connector x) (input_session x) (snapshot_writer x) (connector_monitor x)
    (logged_errors x ++ es) (ticks x).
(** [write] on the snapshot writer, if there is one. *)
Definition write_event (x : ConnectorState) (e : Event) : ConnectorState :=
  mk_ConnectorState (connector x) (input_session x) ((λ w, w ++ [e]) <$> snapshot_writer x)
    (connector_monitor x) (logged_errors x) (ticks x).
Definition tick (x : ConnectorState) : ConnectorState :=
  mk_ConnectorState (connector x) (input_session x) (snapshot_writer x) (connector_monitor x)
    (logged_errors x) (Datatypes.S (ticks x)).

Definition advance_time (x : ConnectorState) : outcome unit (ConnectorState * Timestamp) :=
  let ms := unix_timestamp_ms (ticks x) in
  if in_u64 ms then
    let new_timestamp := mk_Timestamp (Z.to_N (ms / 2 * 2)) in
    let c := if (ts_0 (current_timestamp (connector x)) <=? ts_0 new_timestamp)%N
             then set_current_timestamp (connector x) new_timestamp else connector x in
    s ← ia_advance_to (input_session x) (current_timestamp c);
    s ← ia_flush s;
    Ok (with_session (with_connector (tick x) c) s, current_timestamp c)
  else Panic "number of milliseconds should fit in 64 bits".

Definition on_insert (x : ConnectorState) (key : Key) (values : list Value) : outcome unit ConnectorState :=
  s ← ia_insert (input_session x) key (VTuple values); Ok (with_session x s).
Definition on_upsert (x : ConnectorState) (key : Key) (values : option (list Value)) : outcome unit ConnectorState :=
  s ← ia_upsert (input_session x) key (VTuple <$> values); Ok (with_session x s).
Definition on_remove (x : ConnectorState) (key : Key) (values : list Value) : outcome unit ConnectorState :=
  s ← ia_remove (input_session x) key (VTuple values); Ok (with_session x s).

Definition log_parse_error (x : ConnectorState) (e : LoggedError) : ConnectorState :=
  if skip_all_errors (connector x) then x else with_logged x [e].

Definition expect_key (key : option Key) : outcome unit Key :=
  match key with Some k => Ok k | None => Panic "No key" end.

(** The part of the loop body of [on_parsed_data] before the last [match]. *)
Definition record_entry (x : ConnectorState) (entry : ParsedEvent) (key : option Key) : outcome unit ConnectorState :=
  match key with
  | None => Ok x
  | Some k =>
      m ← match connector_monitor x with
          | Some m => m ← monitor_increment m; Ok (Some m)
          | None => Ok None
          end;
      match snapshot_writer x with
      | None => Ok (with_monitor x m)
      | Some _ =>
          match snapshot_event entry k with
          | Some e => Ok (write_event (with_monitor x m) e)
          | None => Panic "Snapshot event not constructed"
          end
      end
  end.
(** The last [match] of the loop body. *)
Definition apply_entry (x : ConnectorState) (entry : ParsedEvent) (key : option Key) : outcome unit ConnectorState :=
  match entry with
  | PInsert _ values =>
      if negb (Nat.eqb (length values) (num_columns (connector x))) then Ok x
      else k ← expect_key key; on_insert x k values
  | PUpsert _ values => k ← expect_key key; on_upsert x k values
  | PDelete _ values =>
      if negb (Nat.eqb (length values) (num_columns (connector x))) then Ok x
      else k ← expect_key key; on_remove x k values
  | PAdvanceTime =>
      ' (x, time_advanced) ← advance_time x;
      m ← match connector_monitor x with
          | Some m => m ← monitor_commit (instant_now (ticks x)) m; Ok (Some m)
          | None => Ok None
          end;
      let x := with_monitor x m in
      Ok (write_event x (AdvanceTime time_advanced (current_frontier (connector x))))
  end.
Definition on_parsed_entry (x : ConnectorState) (offset : option Offset) (entry : ParsedEventWithErrors)
    : outcome unit ConnectorState :=
  let logic := if skip_all_errors (connector x) then skip_all_errors_logic else log_errors_logic in
  let (entry, value_errors) := remove_errors logic entry in
  let x := with_logged x (map LoggedError_data value_errors) in
  match entry with
  | Panic p => Panic p
  | Err err => Ok (log_parse_error x (LoggedError_ErrorInKey err))
  | Ok entry =>
      key ← parsed_key values_to_key entry offset;
      x ← record_entry x entry key;
      apply_entry x entry key
  end.
Fixpoint on_parsed_data (x : ConnectorState) (offset : option Offset) (parsed_entries : list ParsedEventWithErrors)
    : outcome unit ConnectorState :=
  match parsed_entries with
  | [] => Ok x
  | entry :: entries => x ← on_parsed_entry x offset entry; on_parsed_data x offset entries
  end.

(** ** The entries of the channel *)

Context {RC Meta P : Type} `{Parser RC Meta P}.

(** The variables that the poller's closure captures. *)
Record PollerState := mk_PollerState {
  pstate : ConnectorState;
  parser : P;
  backfilling_finished : bool;
  commit_allowed : bool;
  next_commit_at : option Z
}.
Definition with_pstate (p : PollerState) (x : ConnectorState) : PollerState :=
  mk_PollerState x (parser p) (backfilling_finished p) (commit_allowed p) (next_commit_at p).

Definition is_advance_time (e : ParsedEventWithErrors) : bool :=
  match e with PeAdvanceTime => true | _ => false end.

Definition handle_input_entry (p : PollerState) (entry : Entry RC Meta) : outcome unit PollerState :=
  let has_persistent_storage := match snapshot_writer (pstate p) with Some _ => true | None => false end in
  match entry with
  | EnRealtime RrFinished => Ok p
  | EnRealtime (RrFinishedSource commit_allowed_external) =>
      x ← (if commit_allowed_external then on_parsed_data (pstate p) None [PeAdvanceTime] else Ok (pstate p));
      Ok (mk_PollerState x (parser p) (backfilling_finished p) commit_allowed_external (next_commit_at p))
  | EnRealtime (RrNewSource metadata) =>
      Ok (mk_PollerState (pstate p) (on_new_source_started (parser p) metadata)
            (backfilling_finished p) false (next_commit_at p))
  | EnRealtime (RrData reader_context offset) =>
      let (parsed, parser') := parse (parser p) reader_context in
      let p := mk_PollerState (pstate p) parser' (backfilling_finished p) (commit_allowed p) (next_commit_at p) in
      match parsed with
      | Panic m => Panic m
      | Err e => Ok (with_pstate p (log_parse_error (pstate p) (LoggedError_data e)))
      | Ok parsed_entries =>
          let parsed_entries := if backfilling_finished p then parsed_entries
                                else filter (λ e, is_advance_time e = false) parsed_entries in
          x ← on_parsed_data (pstate p) (Some offset) parsed_entries;
          if has_persistent_storage then
            if backfilling_finished p then
              let c := connector x in
              Ok (with_pstate p (with_connector x
                    (set_current_frontier c (advance_offset (current_frontier c) (fst offset) (snd offset)))))
            else Panic "assertion failed: *backfilling_finished"
          else Ok (with_pstate p x)
      end
  | EnRewindFinishSentinel restored_frontier =>
      if backfilling_finished p then Panic "assertion failed: !*backfilling_finished"
      else
        let x := with_connector (pstate p) (set_current_frontier (connector (pstate p)) restored_frontier) in
        x ← on_parsed_data x None [PeAdvanceTime];
        Ok (mk_PollerState x (parser p) true (commit_allowed p) (next_commit_at p))
  | EnSnapshot snapshot =>
      if backfilling_finished p then Panic "assertion failed: !*backfilling_finished"
      else
        x ← match snapshot with
            | Insert key value => on_insert (pstate p) key value
            | Delete key value => on_remove (pstate p) key value
            | Upsert key value => on_upsert (pstate p) key value
            | AdvanceTime _ _ | Finished => Panic "internal error: entered unreachable code"
            end;
        Ok (with_pstate p x)
  end.

(** ** The poller *)

Inductive ControlFlow := Continue (next : option Z) | Break.

(** [SystemTime + Duration], in nanoseconds. *)
Definition system_time_add (t d : Z) : outcome unit Z :=
  if t + d <? 2 ^ 63 * 1000000000 then Ok (t + d) else Panic "overflow when adding duration to instant".

(** The event written when the source has ended. *)
Definition finalization_event (x : ConnectorState) : outcome unit Event :=
  t ← u64_arith (Z.of_N (ts_0 (current_timestamp (connector x))) + 2);
  Ok (AdvanceTime (mk_Timestamp (Z.to_N t)) (current_frontier (connector x))).
Definition finish_monitor (p : PollerState) : PollerState :=
  with_pstate p (with_monitor (pstate p) (monitor_finish <$> connector_monitor (pstate p))).

(** The loop of the poller.  [receiver]: the entries that [try_recv] gives;
    [disconnected]: whether the sender is gone after them.  Returns the entries
    left in the channel. *)
Fixpoint poll_loop (p : PollerState) (iteration_start : Z) (n_entries_in_batch : Z)
    (receiver : list (Entry RC Meta)) (disconnected : bool)
    : outcome unit (PollerState * list (Entry RC Meta) * ControlFlow) :=
  if n_entries_in_batch + 1 =? 100000 then Ok (p, receiver, Continue (next_commit_at p))
  else
    match receiver with
    | [] => if disconnected then Ok (finish_monitor p, [], Break) else Ok (p, [], Continue (next_commit_at p))
    | EnRealtime RrFinished :: receiver =>
        p ← match snapshot_writer (pstate p) with
            | Some _ => e ← finalization_event (pstate p); Ok (with_pstate p (write_event (pstate p) e))
            | None => Ok p
            end;
        if backfilling_finished p then Ok (finish_monitor p, receiver, Break)
        else poll_loop p iteration_start (n_entries_in_batch + 1) receiver disconnected
    | EnSnapshot (AdvanceTime new_timestamp _) :: receiver =>
        let x := pstate p in
        s ← ia_flush (input_session x);
        s ← ia_advance_to s (mk_Timestamp (ts_0 new_timestamp / 2 * 2));
        s ← ia_flush s;
        Ok (with_pstate p (with_session x s), receiver, Continue (Some iteration_start))
    | entry :: receiver =>
        p ← handle_input_entry p entry;
        poll_loop p iteration_start (n_entries_in_batch + 1) receiver disconnected
    end.

(** The auto-commit. *)
Definition maybe_commit (p : PollerState) (iteration_start : Z) : outcome unit PollerState :=
  match next_commit_at p with
  | Some next_commit_at_timestamp =>
      if next_commit_at_timestamp <=? iteration_start then
        x ← (if backfilling_finished p && commit_allowed p
             then on_parsed_data (pstate p) None [PeAdvanceTime] else Ok (pstate p));
        d ← unwrap (commit_duration (connector x));
        next ← system_time_add next_commit_at_timestamp d;
        Ok (mk_PollerState x (parser p) (backfilling_finished p) (commit_allowed p) (Some next))
      else Ok p
  | None => Ok p
  end.

(** The poller of [Connector::run]; [probe_less_than t]: whether the output
    probe's frontier is still before [t]. *)
Definition poll (persistence_mode : PersistenceMode) (probe_less_than : Timestamp → bool) (p : PollerState)
    (iteration_start : Z) (receiver : list (Entry RC Meta)) (disconnected : bool)
    : outcome unit (PollerState * list (Entry RC Meta) * ControlFlow) :=
  if match persistence_mode with SpeedrunReplay => true | _ => false end && negb (backfilling_finished p) &&
     probe_less_than (ia_time (input_session (pstate p)))
  then Ok (p, receiver, Continue (Some iteration_start))
  else
    p ← maybe_commit p iteration_start;
    poll_loop p iteration_start 0 receiver disconnected.
End connector.
Arguments ConnectorState : clear implicits.
Arguments PollerState : clear implicits.

(** ** The reading thread: what it sends *)

Section reading.
Context {RC Meta R : Type} `{ReadSnapshotEvent R}.

Definition on_before_reading_snapshot (self : PersistenceMode) (unix_timestamp_ms : Z)
    : outcome unit (list (Entry RC Meta)) :=
  match self with
  | Batch =>
      if in_u64 unix_timestamp_ms
      then Ok [EnSnapshot (AdvanceTime (mk_Timestamp (Z.to_N unix_timestamp_ms)) OffsetAntichain_new)]
      else Panic "number of milliseconds should fit in 64 bits"
  | _ => Ok []
  end.
Definition handle_snapshot_time_advancement (self : PersistenceMode) (entry_read : Event)
    : outcome unit (list (Entry RC Meta)) :=
  match self with
  | Batch | Persisting | SelectivePersisting | UdfCaching => Ok []
  | SpeedrunReplay => Ok [EnSnapshot entry_read]
  | RealtimeReplay => Panic "internal error: entered unreachable code"
  end.
(** What the loop over one reader sends for the events that it reads. *)
Fixpoint rewind_entries (mode : PersistenceMode) (events : list Event) : outcome unit (list (Entry RC Meta)) :=
  match events with
  | [] => Ok []
  | e :: events =>
      sent ← match e with
             | Finished => Ok []
             | Insert _ _ | Delete _ _ | Upsert _ _ => Ok [EnSnapshot e]
             | AdvanceTime _ _ => handle_snapshot_time_advancement mode e
             end;
      rest ← rewind_entries mode events;
      Ok (sent ++ rest)
  end.
Fixpoint rewind_from_disk_snapshot (fuel : nat) (mode : PersistenceMode) (snapshot_readers : list (SnapshotReader R))
    : option (outcome unit (list (Entry RC Meta))) :=
  match snapshot_readers with
  | [] => Some (Ok [])
  | snapshot_reader :: readers =>
      ' (events, _) ← read_to_end fuel snapshot_reader;
      rest ← rewind_from_disk_snapshot fuel mode readers;
      Some (sent ← rewind_entries mode events; rest ← rest; Ok (sent ++ rest))
  end.
Fixpoint frontier_for (fuel : nat) (frontier : OffsetAntichain) (snapshot_readers : list (SnapshotReader R))
    : option OffsetAntichain :=
  match snapshot_readers with
  | [] => Some frontier
  | snapshot_reader :: readers =>
      ' (_, snapshot_reader) ← read_to_end fuel snapshot_reader;
      frontier_for fuel (merge_two_frontiers frontier (last_frontier snapshot_reader)) readers
  end.
(** [read_snapshot]: the entries sent.  [persisted]: when there is a storage and
    the reader has a persistent id, the readers of the rewind and those created
    after it for the frontier. *)
Definition read_snapshot (fuel : nat) (mode : PersistenceMode) (access : SnapshotAccess) (unix_timestamp_ms : Z)
    (persisted : option (list (SnapshotReader R) * list (SnapshotReader R)))
    : option (outcome unit (list (Entry RC Meta))) :=
  if is_replay_allowed access then
    match persisted with
    | Some (rewind_readers, frontier_readers) =>
        rewound ← rewind_from_disk_snapshot fuel mode rewind_readers;
        frontier ← frontier_for fuel OffsetAntichain_new frontier_readers;
        Some (before ← on_before_reading_snapshot mode unix_timestamp_ms;
              rewound ← rewound;
              Ok (before ++ rewound ++ [EnRewindFinishSentinel frontier]))
    | None =>
        Some (before ← on_before_reading_snapshot mode unix_timestamp_ms;
              Ok (before ++ [EnRewindFinishSentinel OffsetAntichain_new]))
    end
  else Some (Ok [EnRewindFinishSentinel OffsetAntichain_new]).
(** [read_realtime_updates], while somebody receives: the entries sent for the
    results that the reader gives, and the errors reported. *)
Fixpoint read_realtime_updates {Er : Type} (max_allowed_consecutive_errors : nat) (consecutive_errors : nat)
    (results : list (outcome Er (ReadResult RC Meta))) : list (Entry RC Meta) * list Er :=
  match results with
  | [] => ([], [])
  | Ok RrFinished :: _ => ([EnRealtime RrFinished], [])
  | Ok read_result :: results =>
      let (sent, reported) := read_realtime_updates max_allowed_consecutive_errors 0 results in
      (EnRealtime read_result :: sent, reported)
  | Err error :: results =>
      let n := Datatypes.S consecutive_errors in
      let (sent, reported) := read_realtime_updates max_allowed_consecutive_errors n results in
      (sent, if Nat.ltb max_allowed_consecutive_errors n then error :: reported else reported)
  | Panic _ :: _ => ([], [])
  end.
End reading.

(** [Connector::snapshot_writer]: the events of a new writer, if there is one.
    [created]: what creating the writer gives. *)
Definition snapshot_writer_for `{MetadataSerde} {B E} `{MetadataBackend B}
    (persistent_id : option PersistentId) (is_internal : bool)
    (persistent_storage : option (WorkerPersistentStorage B)) (snapshot_access : SnapshotAccess)
    (created : outcome E unit) : outcome E (option (list Event) * option (WorkerPersistentStorage B)) :=
  if negb (is_snapshot_writing_allowed snapshot_access) then Ok (None, persistent_storage)
  else
    match persistent_storage with
    | Some storage =>
        match persistent_id with
        | Some pid => storage ← create_snapshot_writer storage pid created; Ok (Some [], Some storage)
        | None =>
            if negb (persistent_id_generation_enabled storage) || is_internal then Ok (None, Some storage)
            else Panic "assertion failed: !persistent_ids_enforced || reader.is_internal()"
        end
    | None =>
        match persistent_id with
        | None => Ok (None, None)
        | Some _ => Panic "assertion failed: reader.persistent_id().is_none()"
        end
    end.

(** [read_persisted_state]: its poller, on the native session of rows. *)
Definition PersistedRecord : Type := (Key * list Value) * Timestamp * Z.
Fixpoint read_persisted_state `{AtCapacity PersistedRecord} {RC Meta} (s : Session PersistedRecord)
    (receiver : list (Entry RC Meta)) : outcome unit (Session PersistedRecord) :=
  match receiver with
  | [] | EnRewindFinishSentinel _ :: _ => Ok s
  | EnSnapshot (Insert key values) :: receiver =>
      read_persisted_state (session_push s ((key, values), time s, 1)) receiver
  | EnSnapshot (Delete key values) :: receiver =>
      read_persisted_state (session_push s ((key, values), time s, -1)) receiver
  | _ :: _ => Panic "internal error: entered unreachable code"
  end.
