(* ===== verification/ConnectorProps.v ===== *)
(** Properties of the connectors: what a connector records is what it hands to
    its session, so a restart from the record reproduces the session; every
    recorded time is a consistent cut of the input; no entry of the channel is
    lost or reordered; times of the session only grow and are even; frontiers
    merge to the furthest offsets. *)
From Stdlib Require Import ZArith Lia Bool Ascii.
From stdpp Require Import base list strings gmap.
From S2P Require Import Prelude Order Data Externals Value Timestamp Persistence Snapshot Session Connector.
Open Scope Z_scope.

(** ** Effects of the handlers *)

(** The change a recorded event stands for, and whether its row has the
    connector's number of columns. *)
Definition event_change (e : Event) : option Change :=
  match e with
  | Insert k vs => Some (ChInsert k (VTuple vs))
  | Delete k vs => Some (ChRemove k (VTuple vs))
  | Upsert k vs => Some (ChUpsert k (VTuple <$> vs))
  | AdvanceTime _ _ | Finished => None
  end.
Definition arity_ok (n : nat) (e : Event) : bool :=
  match e with Insert _ vs | Delete _ vs => Nat.eqb (length vs) n | _ => true end.
Definition applied_changes (n : nat) (es : list Event) : list Change :=
  omap event_change (filter (λ e, arity_ok n e = true) es).
Lemma applied_changes_app n es1 es2 :
  applied_changes n (es1 ++ es2) = applied_changes n es1 ++ applied_changes n es2.
Proof. unfold applied_changes. by rewrite filter_app, omap_app. Qed.
Lemma applied_changes_arity n es : Forall (λ e, arity_ok n e = true) es → applied_changes n es = omap event_change es.
Proof. intros Hes. unfold applied_changes. f_equal. induction Hes as [|e es He Hes IH]; [done|]. by rewrite filter_cons_True, IH. Qed.

Section effects.
Context {S : Type} `{InputAdaptorLaws S, Profile}.
Implicit Types x y : ConnectorState S.

Lemma ia_change_inv (s : S) c s' : ia_ok s → ia_change s c = Ok s' →
  ia_supports c = true ∧ ia_ok s' ∧ ia_log s' = ia_log s ++ [(c, ia_time s)] ∧ ia_time s' = ia_time s.
Proof.
  intros Hok Hc. destruct (ia_supports c) eqn:Hs.
  - destruct (ia_change_ok s c Hok Hs) as (s'' & Hc' & ?). rewrite Hc in Hc'. by injection Hc' as <-.
  - destruct (ia_change_unsupported s c Hs) as [p Hp]. congruence.
Qed.

Definition changes x : list Change := map fst (ia_log (input_session x)).
(** The session is at the connector's time, which is even. *)
Definition time_ok x : Prop :=
  ia_time (input_session x) = current_timestamp (connector x) ∧
  N.Even (ts_0 (current_timestamp (connector x))).

(** [y] comes from [x] by submitting the events [evs] and applying their changes. *)
Record effect x y (evs : list Event) : Prop := {
  ef_ok : ia_ok (input_session y);
  ef_writer : snapshot_writer y = (λ w, w ++ evs) <$> snapshot_writer x;
  ef_changes : changes y = changes x ++ applied_changes (num_columns (connector x)) evs;
  ef_supported : Forall (λ c, ia_supports c = true) (applied_changes (num_columns (connector x)) evs);
  ef_columns : num_columns (connector y) = num_columns (connector x);
  ef_frontier : current_frontier (connector y) = current_frontier (connector x);
  ef_time : time_ok x → time_ok y ∧
    less_equal (current_timestamp (connector x)) (current_timestamp (connector y)) = true
}.
Lemma effect_trans x y z es1 es2 : effect x y es1 → effect y z es2 → effect x z (es1 ++ es2).
Proof.
  intros [o1 w1 c1 u1 n1 f1 t1] [o2 w2 c2 u2 n2 f2 t2]. rewrite n1 in *.
  split; try congruence; try done.
  - rewrite w2, w1. destruct (snapshot_writer x); simpl; by rewrite ?app_assoc.
  - by rewrite c2, c1, applied_changes_app, app_assoc.
  - rewrite applied_changes_app. by apply Forall_app.
  - intros Ht. destruct (t1 Ht) as [Ht1 ?]. destruct (t2 Ht1). split; [done|]. by eapply Timestamp_le_trans.
Qed.
(** Steps that touch neither session, writer nor connector. *)
Lemma effect_same x y : ia_ok (input_session x) → input_session y = input_session x →
  snapshot_writer y = snapshot_writer x → connector y = connector x → effect x y [].
Proof.
  intros Hok Hs Hw Hc. unfold time_ok. split; unfold changes, applied_changes; rewrite ?Hs, ?Hw, ?Hc; simpl; try done.
  - destruct (snapshot_writer x); simpl; by rewrite ?app_nil_r.
  - by rewrite app_nil_r.
  - unfold time_ok. rewrite Hs, Hc. done.
Qed.

Lemma change_effect x c s' y e : ia_ok (input_session x) → ia_change (input_session x) c = Ok s' →
  event_change e = Some c → arity_ok (num_columns (connector x)) e = true →
  input_session y = s' → snapshot_writer y = (λ w, w ++ [e]) <$> snapshot_writer x →
  connector y = connector x → effect x y [e].
Proof.
  intros Hok Hc He Ha Hs Hw Hcn. destruct (ia_change_inv _ _ _ Hok Hc) as (Hsup & Hok' & Hlog & Htime).
  assert (Hap : applied_changes (num_columns (connector x)) [e] = [c]).
  { unfold applied_changes. rewrite filter_cons_True by done. simpl. by rewrite He. }
  split; rewrite ?Hap, ?Hcn, ?Hs; try done.
  - unfold changes. by rewrite Hs, Hlog, map_app.
  - by repeat constructor.
  - unfold time_ok. rewrite Hs, Hcn, Htime. intros ?; split; [done|apply Timestamp_le_refl].
Qed.

Context (unix_timestamp_ms instant_now : nat → Z).
Context (values_to_key : option (list Value) → option Offset → outcome unit Key).
Abbreviation advance_time := (advance_time unix_timestamp_ms).
Abbreviation apply_entry := (apply_entry unix_timestamp_ms instant_now).
Abbreviation on_parsed_entry := (on_parsed_entry unix_timestamp_ms instant_now values_to_key).
Abbreviation on_parsed_data := (on_parsed_data unix_timestamp_ms instant_now values_to_key).

(** The time [advance_time] moves to. *)
Definition next_timestamp x : Timestamp :=
  let new := mk_Timestamp (Z.to_N (unix_timestamp_ms (ticks x) / 2 * 2)) in
  if (ts_0 (current_timestamp (connector x)) <=? ts_0 new)%N then new else current_timestamp (connector x).
Lemma next_timestamp_ge x : less_equal (current_timestamp (connector x)) (next_timestamp x) = true.
Proof.
  unfold next_timestamp. destruct (N.leb _ _) eqn:E; [|apply Timestamp_le_refl].
  by unfold less_equal, Timestamp_PartialOrder.
Qed.
Lemma next_timestamp_even x : N.Even (ts_0 (current_timestamp (connector x))) → N.Even (ts_0 (next_timestamp x)).
Proof.
  unfold next_timestamp. destruct (N.leb _ _); [|done]. intros _. simpl.
  exists (Z.to_N (unix_timestamp_ms (ticks x) / 2)). lia.
Qed.
Lemma set_current_timestamp_same c : set_current_timestamp c (current_timestamp c) = c.
Proof. by destruct c. Qed.

(** [advance_time] on every branch. *)
Lemma advance_time_eq x : in_u64 (unix_timestamp_ms (ticks x)) = true →
  advance_time x =
    (s ← ia_advance_to (input_session x) (next_timestamp x);
     s ← ia_flush s;
     Ok (with_session (with_connector (tick x) (set_current_timestamp (connector x) (next_timestamp x))) s,
         next_timestamp x)).
Proof.
  intros Hu. unfold Connector.advance_time, next_timestamp. rewrite Hu.
  destruct (N.leb _ _); simpl; rewrite ?set_current_timestamp_same; done.
Qed.
Lemma advance_time_ok x : ia_ok (input_session x) → in_u64 (unix_timestamp_ms (ticks x)) = true →
  less_equal (ia_time (input_session x)) (next_timestamp x) = true →
  ∃ s', advance_time x = Ok (with_session (with_connector (tick x)
            (set_current_timestamp (connector x) (next_timestamp x))) s', next_timestamp x) ∧
    ia_ok s' ∧ ia_log s' = ia_log (input_session x) ∧ ia_time s' = next_timestamp x ∧
    concat (map snd (ia_sent s')) = ia_log s' ∧ ia_epoch s' = next_timestamp x.
Proof.
  intros Hok Hu Hle. rewrite advance_time_eq by done.
  destruct (ia_advance_ok _ _ Hok Hle) as (s1 & E1 & Hok1 & Hl1 & Ht1). rewrite E1. simpl.
  destruct (ia_flush_ok _ Hok1) as (s2 & E2 & Hok2 & Hl2 & Ht2 & Hs2 & He2). rewrite E2. simpl.
  exists s2. split; [done|]. split_and!; congruence.
Qed.
Lemma advance_time_back x : in_u64 (unix_timestamp_ms (ticks x)) = false ∨
    less_equal (ia_time (input_session x)) (next_timestamp x) = false →
  ∃ p, advance_time x = Panic p.
Proof.
  intros Hor. destruct (in_u64 (unix_timestamp_ms (ticks x))) eqn:Hu.
  - rewrite advance_time_eq by done. destruct Hor as [|Hle]; [done|].
    destruct (ia_advance_back _ _ Hle) as [p ->]. by eexists.
  - unfold Connector.advance_time. rewrite Hu. by eexists.
Qed.
Lemma advance_time_inv x y t : ia_ok (input_session x) → advance_time x = Ok (y, t) →
  effect x y [] ∧ t = next_timestamp x ∧ ia_time (input_session y) = t ∧ current_timestamp (connector y) = t ∧
  connector_monitor y = connector_monitor x.
Proof.
  intros Hok Hadv.
  destruct (in_u64 (unix_timestamp_ms (ticks x))) eqn:Hu;
    [destruct (less_equal (ia_time (input_session x)) (next_timestamp x)) eqn:Hle|].
  2,3: destruct (advance_time_back x) as [p Hp]; [by auto|congruence].
  destruct (advance_time_ok x Hok Hu Hle) as (s' & E & Hok' & Hlog & Ht & _).
  rewrite E in Hadv. injection Hadv as <- <-. split_and!; try done.
  split; simpl; try done.
  - destruct (snapshot_writer x); simpl; by rewrite ?app_nil_r.
  - unfold changes. simpl. by rewrite Hlog, app_nil_r.
  - unfold time_ok. simpl. intros [_ He]. split_and!; [done|by apply next_timestamp_even|apply next_timestamp_ge].
Qed.
Lemma write_effect x t f : ia_ok (input_session x) → effect x (write_event x (AdvanceTime t f)) [AdvanceTime t f].
Proof.
  intros Hok. split; simpl; try done. unfold changes. by rewrite app_nil_r.
Qed.

Lemma record_entry_inv x y entry k e : record_entry x entry (Some k) = Ok y → snapshot_event entry k = Some e →
  input_session y = input_session x ∧ connector y = connector x ∧
  snapshot_writer y = (λ w, w ++ [e]) <$> snapshot_writer x.
Proof.
  intros Hr He. simpl in Hr. apply bind_ok in Hr as (m & _ & Hr).
  destruct (snapshot_writer x) as [w|] eqn:Hw; [rewrite He in Hr|]; injection Hr as <-; simpl; by rewrite ?Hw.
Qed.
(** A row with the wrong number of columns is recorded and not applied. *)
Lemma skipped_effect x y e : ia_ok (input_session x) → arity_ok (num_columns (connector x)) e = false →
  input_session y = input_session x → snapshot_writer y = (λ w, w ++ [e]) <$> snapshot_writer x →
  connector y = connector x → effect x y [e].
Proof.
  intros Hok Ha Hs Hw Hc.
  assert (Hap : applied_changes (num_columns (connector x)) [e] = []).
  { unfold applied_changes. by rewrite filter_cons_False by (by rewrite Ha). }
  split; rewrite ?Hap, ?Hs, ?Hw, ?Hc; try done.
  - unfold changes. by rewrite Hs, app_nil_r.
  - unfold time_ok. by rewrite Hs, Hc.
Qed.
Lemma data_entry_effect x y z entry k e : ia_ok (input_session x) → snapshot_event entry k = Some e →
  record_entry x entry (Some k) = Ok y → apply_entry y entry (Some k) = Ok z → effect x z [e].
Proof.
  intros Hok He Hr Ha. destruct (record_entry_inv _ _ _ _ _ Hr He) as (Hs & Hc & Hw).
  destruct entry as [|rk vs|rk vs|rk vs]; simpl in He; [done|..]; injection He as <-; simpl in Ha.
  - rewrite Hc in Ha. destruct (Nat.eqb (length vs) (num_columns (connector x))) eqn:Hn; simpl in Ha.
    + apply bind_ok in Ha as (s' & Hi & [= <-]). rewrite Hs in Hi.
      by eapply (change_effect x (ChInsert k (VTuple vs)) s').
    + injection Ha as <-. by apply skipped_effect.
  - apply bind_ok in Ha as (s' & Hi & [= <-]). rewrite Hs in Hi.
    by eapply (change_effect x (ChUpsert k (VTuple <$> vs)) s').
  - rewrite Hc in Ha. destruct (Nat.eqb (length vs) (num_columns (connector x))) eqn:Hn; simpl in Ha.
    + apply bind_ok in Ha as (s' & Hi & [= <-]). rewrite Hs in Hi.
      by eapply (change_effect x (ChRemove k (VTuple vs)) s').
    + injection Ha as <-. by apply skipped_effect.
Qed.
Lemma time_entry_effect x z key : ia_ok (input_session x) → apply_entry x PAdvanceTime key = Ok z →
  effect x z [AdvanceTime (next_timestamp x) (current_frontier (connector x))] ∧
  ia_time (input_session z) = next_timestamp x.
Proof.
  intros Hok Ha. simpl in Ha. apply bind_ok in Ha as ([y t] & Hadv & Ha).
  destruct (advance_time_inv _ _ _ Hok Hadv) as (Hef & -> & Ht & _).
  apply bind_ok in Ha as (m & _ & [= <-]). simpl. split; [|done].
  rewrite <- (ef_frontier _ _ _ Hef). apply (effect_trans _ (with_monitor y m) _ [] [_]).
  - apply (effect_trans _ y _ [] []); [done|]. apply effect_same; try done. apply Hef.
  - apply write_effect. apply Hef.
Qed.

(** What one parsed entry submits. *)
Definition entry_events (is_time : bool) (f : OffsetAntichain) (evs : list Event) : Prop :=
  if is_time then ∃ t, evs = [AdvanceTime t f]
  else Forall (λ e, match e with AdvanceTime _ _ | Finished => False | _ => True end) evs.
Lemma snapshot_event_data entry k e : snapshot_event entry k = Some e →
  match e with AdvanceTime _ _ | Finished => False | _ => True end.
Proof. destruct entry; simpl; intros; by simplify_eq. Qed.
Lemma remove_errors_time logic e r log : remove_errors logic e = (Ok r, log) →
  is_advance_time e = true ↔ r = PAdvanceTime.
Proof.
  destruct e as [|k vs|k [vs|]|k vs]; simpl; intros Hr; [by injection Hr as <- <-|..];
    (split; [done|intros ->]); destruct (transpose_key k); try done;
    try (destruct (logic vs) as [[|?|?] ?]; done).
Qed.
Lemma on_parsed_entry_effect x y offset e : ia_ok (input_session x) → on_parsed_entry x offset e = Ok y →
  ∃ evs, effect x y evs ∧ entry_events (is_advance_time e) (current_frontier (connector x)) evs.
Proof.
  intros Hok Hp. unfold Connector.on_parsed_entry in Hp.
  set (logic := if skip_all_errors (connector x) then _ else _) in Hp.
  destruct (remove_errors logic e) as [r log] eqn:Hre.
  set (x1 := with_logged x (map LoggedError_data log)) in Hp.
  assert (Hx1 : effect x x1 []) by by apply effect_same.
  destruct r as [entry|err|?]; [| |done].
  - apply bind_ok in Hp as (key & Hkey & Hp). apply bind_ok in Hp as (x2 & Hr & Ha).
    pose proof (remove_errors_time _ _ _ _ Hre) as Hiff.
    destruct (is_advance_time e) eqn:Hadv.
    + assert (entry = PAdvanceTime) as -> by by apply Hiff. simpl in Hkey. injection Hkey as <-. injection Hr as <-.
      destruct (time_entry_effect _ _ _ (ef_ok _ _ _ Hx1) Ha) as [Hef _].
      eexists. split; [by apply (effect_trans _ _ _ [] _ Hx1 Hef)|]. by eexists.
    + destruct key as [k|]; [|destruct entry; simpl in Hkey;
        [by assert (false = true) by by apply Hiff
        |by apply bind_ok in Hkey as (? & _ & ?)..]].
      destruct (snapshot_event entry k) as [ev|] eqn:Hev; [|destruct entry; simpl in *; congruence].
      exists [ev]. split.
      * apply (effect_trans _ _ _ [] [ev] Hx1). by eapply data_entry_effect.
      * constructor; [|done]. by eapply snapshot_event_data.
  - exists []. injection Hp as <-. split.
    + apply (effect_trans _ _ _ [] [] Hx1). by apply effect_same; unfold log_parse_error; try destruct (skip_all_errors _).
    + destruct e as [|k vs|k [vs|]|k vs]; simpl; try done; constructor.
Qed.

(** Parsed entries that are all time advancements, or none. *)
Definition uniform (entries : list ParsedEventWithErrors) : Prop :=
  PeAdvanceTime ∈ entries → Forall (λ e, is_advance_time e = true) entries.
Lemma on_parsed_data_effect entries : ∀ x y offset, ia_ok (input_session x) → on_parsed_data x offset entries = Ok y →
  ∃ evs, effect x y evs ∧ Forall (λ e, e ≠ Finished) evs ∧
    (Forall (λ e, is_advance_time e = true) entries →
       Forall (λ e, ∃ t, e = AdvanceTime t (current_frontier (connector x))) evs) ∧
    (Forall (λ e, is_advance_time e = false) entries → Forall (λ e, ∀ t f, e ≠ AdvanceTime t f) evs).
Proof.
  induction entries as [|e entries IH]; intros x y offset Hok Hp.
  - injection Hp as <-. exists []. split_and!; try done; try (by constructor). by apply effect_same.
  - simpl in Hp. apply bind_ok in Hp as (x1 & He & Hp).
    destruct (on_parsed_entry_effect _ _ _ _ Hok He) as (ev & Hef & Hev).
    destruct (IH _ _ _ (ef_ok _ _ _ Hef) Hp) as (evs & Hefs & Hfin & Hall & Hnone).
    exists (ev ++ evs). rewrite (ef_frontier _ _ _ Hef) in Hall.
    split_and!; [by eapply effect_trans|..].
    + apply Forall_app; split; [|done]. destruct (is_advance_time e); simpl in Hev.
      * destruct Hev as [t ->]. by repeat constructor.
      * eapply Forall_impl; [done|]. by intros [].
    + intros [Hadv Hrest]%Forall_cons. rewrite Hadv in Hev. destruct Hev as [t ->].
      apply Forall_app; split; [|auto]. repeat constructor. by eexists.
    + intros [Hadv Hrest]%Forall_cons. rewrite Hadv in Hev. simpl in Hev. apply Forall_app; split; [|auto].
      eapply Forall_impl; [done|]. by intros [].
Qed.
End effects.

(** ** The steps of a running connector *)

Section poller.
Context {S : Type} `{InputAdaptorLaws S, Profile}.
Context (unix_timestamp_ms instant_now : nat → Z).
Context (values_to_key : option (list Value) → option Offset → outcome unit Key).
Context {RC Meta P : Type} `{Parser RC Meta P}.
Implicit Types (p : PollerState S P) (x y z : ConnectorState S).
Abbreviation advance_time := (advance_time unix_timestamp_ms).
Abbreviation on_parsed_data := (on_parsed_data unix_timestamp_ms instant_now values_to_key).
Abbreviation handle_input_entry := (handle_input_entry unix_timestamp_ms instant_now values_to_key).
Abbreviation poll_loop := (poll_loop unix_timestamp_ms instant_now values_to_key).
Abbreviation poll := (poll unix_timestamp_ms instant_now values_to_key).

(** One step of the poller, labelled with the entries it takes from the channel. *)
Inductive conn_step : PollerState S P → list (Entry RC Meta) → PollerState S P → Prop :=
| step_entry p e p' :
    match e with EnRealtime RrFinished | EnSnapshot (AdvanceTime _ _) => False | _ => True end →
    handle_input_entry p e = Ok p' → conn_step p [e] p'
| step_commit p x next :
    backfilling_finished p = true → commit_allowed p = true →
    on_parsed_data (pstate p) None [PeAdvanceTime] = Ok x →
    conn_step p [] (mk_PollerState x (parser p) true true next)
| step_schedule p next :
    conn_step p [] (mk_PollerState (pstate p) (parser p) (backfilling_finished p) (commit_allowed p) next)
| step_finished p ev : is_Some (snapshot_writer (pstate p)) → finalization_event (pstate p) = Ok ev →
    conn_step p [EnRealtime RrFinished] (with_pstate p (write_event (pstate p) ev))
| step_finished_unrecorded p : snapshot_writer (pstate p) = None → conn_step p [EnRealtime RrFinished] p
| step_monitor p : conn_step p [] (finish_monitor p)
| step_replay_time p t f s1 s2 s3 :
    ia_flush (input_session (pstate p)) = Ok s1 → ia_advance_to s1 (mk_Timestamp (ts_0 t / 2 * 2)) = Ok s2 →
    ia_flush s2 = Ok s3 →
    conn_step p [EnSnapshot (AdvanceTime t f)] (with_pstate p (with_session (pstate p) s3)).
Inductive conn_steps : PollerState S P → list (Entry RC Meta) → PollerState S P → Prop :=
| steps_nil p : conn_steps p [] p
| steps_cons p l p1 es p2 : conn_step p l p1 → conn_steps p1 es p2 → conn_steps p (l ++ es) p2.

Lemma steps_one p l p' : conn_step p l p' → conn_steps p l p'.
Proof. intros Hs. rewrite <- (app_nil_r l). eapply steps_cons; [done|constructor]. Qed.
Lemma steps_app p l p1 es p2 : conn_steps p l p1 → conn_steps p1 es p2 → conn_steps p (l ++ es) p2.
Proof.
  induction 1 as [|p l p1' es' p1 Hs _ IH]; [done|]. intros Hes. rewrite <- app_assoc.
  eapply steps_cons; [done|auto].
Qed.

(** Why a call of the poller returned. *)
Inductive stopped (p : PollerState S P) (start : Z) (disconnected : bool) (n : Z) (consumed rest : list (Entry RC Meta)) :
    ControlFlow → Prop :=
| stop_full : n + Z.of_nat (length consumed) = 99999 → stopped p start disconnected n consumed rest (Continue (next_commit_at p))
| stop_empty : rest = [] → disconnected = false → stopped p start disconnected n consumed rest (Continue (next_commit_at p))
| stop_disconnected : rest = [] → disconnected = true → stopped p start disconnected n consumed rest Break
| stop_time t f : last consumed = Some (EnSnapshot (AdvanceTime t f)) →
    stopped p start disconnected n consumed rest (Continue (Some start))
| stop_finished : last consumed = Some (EnRealtime RrFinished) → backfilling_finished p = true →
    stopped p start disconnected n consumed rest Break.
Lemma last_app_some {A} (l1 l2 : list A) a : last l2 = Some a → last (l1 ++ l2) = Some a.
Proof. intros Hl. rewrite last_app. by rewrite Hl. Qed.
Lemma stopped_app p start d n l consumed rest flow :
  stopped p start d (n + Z.of_nat (length l)) consumed rest flow → stopped p start d n (l ++ consumed) rest flow.
Proof.
  intros [Hn|Hr Hd|Hr Hd|t f Hl|Hl Hb].
  - apply stop_full. rewrite length_app. lia.
  - by apply stop_empty.
  - by apply stop_disconnected.
  - eapply stop_time. by apply last_app_some.
  - apply stop_finished; [by apply last_app_some|done].
Qed.
Lemma poll_loop_steps receiver : ∀ p start n d p' rest flow, 0 ≤ n ≤ 99999 →
  poll_loop p start n receiver d = Ok (p', rest, flow) →
  ∃ consumed, receiver = consumed ++ rest ∧ conn_steps p consumed p' ∧
    n + Z.of_nat (length consumed) ≤ 99999 ∧ stopped p' start d n consumed rest flow.
Proof.
  induction receiver as [|e receiver IH]; intros p start n d p' rest flow Hn Hp; simpl in Hp;
    (destruct (Z.eqb_spec (n + 1) 100000) as [Hfull|Hfull];
       [injection Hp as <- <- <-; exists []; split_and!;
          [done|constructor|simpl; lia|apply stop_full; simpl; lia]|]).
  - destruct d; injection Hp as <- <- <-; exists []; (split; [done|]); (split; [|split; [simpl; lia|]]).
    + apply steps_one, step_monitor.
    + by apply stop_disconnected.
    + constructor.
    + by apply stop_empty.
  - assert (Hgo : ∀ p1, conn_step p [e] p1 → poll_loop p1 start (n + 1) receiver d = Ok (p', rest, flow) →
      ∃ consumed, e :: receiver = consumed ++ rest ∧ conn_steps p consumed p' ∧
        n + Z.of_nat (length consumed) ≤ 99999 ∧ stopped p' start d n consumed rest flow).
    { intros p1 Hs Hp1. destruct (IH p1 start (n + 1) d p' rest flow ltac:(lia) Hp1) as (consumed & -> & Hss & Hlen & Hst).
      exists ([e] ++ consumed). split_and!; [done|by eapply steps_cons| |by apply (stopped_app _ _ _ _ [e])].
      rewrite length_app. simpl. lia. }
    destruct e as [[k vs|k vs|k vs|t f|]|f|[| | |]];
      try (apply bind_ok in Hp as (p1 & Hh & Hp); eapply Hgo; [|exact Hp]; by constructor).
    + apply bind_ok in Hp as (s1 & E1 & Hp). apply bind_ok in Hp as (s2 & E2 & Hp).
      apply bind_ok in Hp as (s3 & E3 & [= <- <- <-]).
      exists [EnSnapshot (AdvanceTime t f)]. split_and!; [done| |simpl; lia|by eapply stop_time].
      by eapply steps_one, step_replay_time.
    + apply bind_ok in Hp as (p1 & Hh & Hp).
      assert (Hs : conn_step p [EnRealtime RrFinished] p1 ∧ backfilling_finished p1 = backfilling_finished p).
      { destruct (snapshot_writer (pstate p)) eqn:Hw.
        - apply bind_ok in Hh as (ev & Hev & [= <-]). split; [|done]. by apply step_finished; [rewrite Hw|].
        - injection Hh as <-. split; [|done]. by apply step_finished_unrecorded. }
      destruct (backfilling_finished p1) eqn:Hb; [|by eapply Hgo; [apply Hs|]].
      injection Hp as <- <- <-. exists [EnRealtime RrFinished]. split_and!; [done| |simpl; lia|by apply stop_finished].
      change [EnRealtime RrFinished] with ([EnRealtime RrFinished] ++ @nil (Entry RC Meta)).
      eapply steps_cons; [apply Hs|]. apply steps_one, step_monitor.
Qed.
Lemma maybe_commit_steps p start p' :
  maybe_commit unix_timestamp_ms instant_now values_to_key p start = Ok p' → conn_steps p [] p'.
Proof.
  unfold maybe_commit. destruct (next_commit_at p) as [t|]; [|intros [= <-]; constructor].
  destruct (t <=? start); [|intros [= <-]; constructor]. intros Hc.
  apply bind_ok in Hc as (x & Hx & Hc). apply bind_ok in Hc as (d & _ & Hc). apply bind_ok in Hc as (n & _ & [= <-]).
  destruct (backfilling_finished p && commit_allowed p) eqn:Hba.
  - apply andb_true_iff in Hba as [Hb Ha]. rewrite Hb, Ha. by apply steps_one, step_commit.
  - injection Hx as <-. apply steps_one, step_schedule.
Qed.

(** C13: A call of the poller that ends without a panic is a sequence of steps of the
    connector that takes a prefix of the entries in the channel, in order and at most
    99999 of them: nothing is lost, repeated or reordered between calls. It leaves
    entries in the channel only when it has handled 99999, has met a replayed time or
    the end of the source, or waits for the output of a replayed time. *)
Theorem poll_refines_steps mode probe_less_than p start receiver disconnected p' rest flow :
  poll mode probe_less_than p start receiver disconnected = Ok (p', rest, flow) →
  ∃ consumed, receiver = consumed ++ rest ∧ conn_steps p consumed p' ∧
    (length consumed <= N.to_nat 99999)%nat ∧
    (stopped p' start disconnected 0 consumed rest flow ∨
     (consumed = [] ∧ p' = p ∧ flow = Continue (Some start) ∧ mode = SpeedrunReplay ∧
      backfilling_finished p = false ∧ probe_less_than (ia_time (input_session (pstate p))) = true)).
Proof.
  unfold Connector.poll. destruct (match mode with SpeedrunReplay => true | _ => false end) eqn:Hm; simpl.
  1: destruct (backfilling_finished p) eqn:Hb; simpl;
       [|destruct (probe_less_than _) eqn:Hprobe; simpl;
         [intros [= <- <- <-]; exists []; split_and!; [done|constructor|simpl; lia|right]; by destruct mode|]].
  all: intros Hp; apply bind_ok in Hp as (p1 & Hc & Hp); apply maybe_commit_steps in Hc;
    destruct (poll_loop_steps _ p1 start 0 disconnected p' rest flow ltac:(lia) Hp) as (consumed & -> & Hs & Hlen & Hst);
    exists consumed; split_and!; [done|by apply (steps_app _ [] p1)|lia|by left].
Qed.

(** ** What a running connector records *)

Record recorded (x y : ConnectorState S) (evs : list Event) : Prop := {
  re_ok : ia_ok (input_session y);
  re_writer : snapshot_writer y = (λ w, w ++ evs) <$> snapshot_writer x;
  re_changes : changes y = changes x ++ applied_changes (num_columns (connector x)) evs;
  re_supported : Forall (λ c, ia_supports c = true) (applied_changes (num_columns (connector x)) evs);
  re_columns : num_columns (connector y) = num_columns (connector x)
}.
Lemma effect_recorded x y evs : effect x y evs → recorded x y evs.
Proof. by intros []. Qed.
Lemma recorded_trans x y z es1 es2 : recorded x y es1 → recorded y z es2 → recorded x z (es1 ++ es2).
Proof.
  intros [o1 w1 c1 u1 n1] [o2 w2 c2 u2 n2]. rewrite n1 in *. split; try congruence; try done.
  - rewrite w2, w1. destruct (snapshot_writer x); simpl; by rewrite ?app_assoc.
  - by rewrite c2, c1, applied_changes_app, app_assoc.
  - rewrite applied_changes_app. by apply Forall_app.
Qed.
Lemma recorded_frontier x y f evs : recorded x y evs →
  recorded x (with_connector y (set_current_frontier (connector y) f)) evs.
Proof. intros []. by split. Qed.
Lemma recorded_refl x y : ia_ok (input_session x) → input_session y = input_session x →
  snapshot_writer y = snapshot_writer x → connector y = connector x → recorded x y [].
Proof. intros. by apply effect_recorded, effect_same. Qed.

Definition is_time_event (e : Event) : bool := match e with AdvanceTime _ _ => true | _ => false end.
(** The events of one step of [p]: times with the frontier of [p], or none. *)
Definition chunk_ok (f : OffsetAntichain) (evs : list Event) : Prop :=
  Forall (λ e, ∃ t, e = AdvanceTime t f) evs ∨ Forall (λ e, is_time_event e = false) evs.
Definition uniform_parser : Prop :=
  ∀ (q : P) (c : RC) entries q', parse q c = (Ok entries, q') → uniform entries.

Lemma no_advance_in (entries : list ParsedEventWithErrors) :
  PeAdvanceTime ∉ entries → Forall (λ e, is_advance_time e = false) entries.
Proof. intros Hn. apply Forall_forall. intros [] He; try done. Qed.
Lemma commit_chunk x y : ia_ok (input_session x) → on_parsed_data x None [PeAdvanceTime] = Ok y →
  ∃ evs, effect x y evs ∧ chunk_ok (current_frontier (connector x)) evs.
Proof.
  intros Hok Hd. destruct (on_parsed_data_effect _ _ _ _ _ _ _ Hok Hd) as (evs & Hef & _ & Ht & _).
  exists evs. split; [done|]. left. apply Ht. by repeat constructor.
Qed.

(** Once the replay is over, a step records what it does. *)
Lemma conn_step_recorded p es p' : ia_ok (input_session (pstate p)) → backfilling_finished p = true →
  conn_step p es p' →
  ∃ evs, recorded (pstate p) (pstate p') evs ∧ backfilling_finished p' = true ∧
    (uniform_parser → chunk_ok (current_frontier (connector (pstate p))) evs).
Proof.
  intros Hok Hb Hs. destruct Hs as [p e p' He Hh|p x next _ _ Hd|p next|p ev _ Hev|p Hw|p|p t f s1 s2 s3 E1 E2 E3].
  - destruct e as [e|f|[|m|allowed|c o]]; simpl in Hh; rewrite ?Hb in Hh; try done.
    + injection Hh as <-. exists []. split_and!; [by apply recorded_refl|done|left; constructor].
    + apply bind_ok in Hh as (x & Hx & [= <-]). destruct allowed.
      * destruct (commit_chunk _ _ Hok Hx) as (evs & Hef & Hc). exists evs.
        split_and!; [by apply effect_recorded|done|done].
      * injection Hx as <-. exists []. split_and!; [by apply recorded_refl|done|left; constructor].
    + destruct (parse (parser p) c) as [r q] eqn:Hparse. destruct r as [entries|err|?]; [| |done].
      * apply bind_ok in Hh as (x & Hx & Hh).
        destruct (on_parsed_data_effect _ _ _ _ _ _ _ Hok Hx) as (evs & Hef & _ & Ht & Hd).
        exists evs. split_and!.
        -- destruct (snapshot_writer (pstate p)); injection Hh as <-; simpl; [apply recorded_frontier|]; by apply effect_recorded.
        -- by destruct (snapshot_writer (pstate p)); injection Hh as <-.
        -- intros Hu. specialize (Hu _ _ _ _ Hparse).
           destruct (decide (Forall (λ e, is_advance_time e = true) entries)) as [Hall|Hnall]; [left; auto|].
           right. eapply Forall_impl; [apply Hd, no_advance_in; auto|]. intros [| | |t f|] Hne; try done. by destruct (Hne t f).
      * injection Hh as <-. exists []. simpl. unfold log_parse_error.
        split_and!; [|done|left; constructor]. by apply recorded_refl; try destruct (skip_all_errors _).
  - destruct (commit_chunk _ _ Hok Hd) as (evs & Hef & Hc). exists evs. split_and!; [by apply effect_recorded|done|done].
  - exists []. split_and!; [by apply recorded_refl|done|left; constructor].
  - unfold finalization_event in Hev. apply bind_ok in Hev as (t & _ & [= <-]).
    exists [AdvanceTime (mk_Timestamp (Z.to_N t)) (current_frontier (connector (pstate p)))].
    split_and!; [by apply effect_recorded, write_effect|done|]. left. repeat constructor. by eexists.
  - exists []. split_and!; [by apply recorded_refl|done|left; constructor].
  - exists []. split_and!; [by apply recorded_refl|done|left; constructor].
  - exists []. split_and!; [|done|left; constructor]. simpl.
    destruct (ia_flush_ok _ Hok) as (s1' & E1' & Hok1 & Hl1 & _). rewrite E1 in E1'. injection E1' as <-.
    destruct (less_equal (ia_time s1) (mk_Timestamp (ts_0 t / 2 * 2))) eqn:Hle;
      [|destruct (ia_advance_back _ _ Hle); congruence].
    destruct (ia_advance_ok _ _ Hok1 Hle) as (s2' & E2' & Hok2 & Hl2 & _). rewrite E2 in E2'. injection E2' as <-.
    destruct (ia_flush_ok _ Hok2) as (s3' & E3' & Hok3 & Hl3 & _). rewrite E3 in E3'. injection E3' as <-.
    split; simpl; try done.
    + destruct (snapshot_writer (pstate p)); simpl; by rewrite ?app_nil_r.
    + unfold changes. simpl. by rewrite Hl3, Hl2, Hl1, app_nil_r.
Qed.
Lemma conn_steps_recorded p es p' : ia_ok (input_session (pstate p)) → backfilling_finished p = true →
  conn_steps p es p' → ∃ evs, recorded (pstate p) (pstate p') evs ∧ backfilling_finished p' = true.
Proof.
  intros Hok Hb Hs. induction Hs as [p|p l p1 es p2 Hs _ IH]; [exists []; split; [by apply recorded_refl|done]|].
  destruct (conn_step_recorded _ _ _ Hok Hb Hs) as (evs1 & Hr1 & Hb1 & _).
  destruct (IH (re_ok _ _ _ Hr1) Hb1) as (evs2 & Hr2 & Hb2).
  exists (evs1 ++ evs2). split; [by eapply recorded_trans|done].
Qed.

Definition data_events (evs : list Event) : list Event := filter (λ e, is_time_event e = false) evs.
Lemma data_events_times f evs : Forall (λ e, ∃ t, e = AdvanceTime t f) evs → data_events evs = [].
Proof. unfold data_events. induction 1 as [|e evs [t ->] _ IH]; [done|]. by rewrite filter_cons_False. Qed.
Lemma data_events_app evs1 evs2 : data_events (evs1 ++ evs2) = data_events evs1 ++ data_events evs2.
Proof. apply filter_app. Qed.

(** The parser and the frontier after reading entries: the offset of every entry
    that was parsed is passed. *)
Definition read_entry (qf : P * OffsetAntichain) (e : Entry RC Meta) : P * OffsetAntichain :=
  let (q, f) := qf in
  match e with
  | EnRealtime (RrNewSource m) => (on_new_source_started q m, f)
  | EnRealtime (RrData c o) =>
      let (r, q') := parse q c in (q', match r with Ok _ => advance_offset f (fst o) (snd o) | _ => f end)
  | _ => (q, f)
  end.
Definition read_state p : P * OffsetAntichain := (parser p, current_frontier (connector (pstate p))).
Lemma conn_step_read p es p' : ia_ok (input_session (pstate p)) → backfilling_finished p = true →
  is_Some (snapshot_writer (pstate p)) → conn_step p es p' → read_state p' = foldl read_entry (read_state p) es.
Proof.
  intros Hok Hb [w Hw] Hs. unfold read_state.
  destruct Hs as [p e p' He Hh|p x next _ _ Hd|p next|p ev _ Hev|p Hn|p|p t f s1 s2 s3 E1 E2 E3]; try done.
  - destruct e as [e|f|[|m|allowed|c o]]; simpl in Hh; rewrite ?Hb in Hh; try done; simpl.
    + by injection Hh as <-.
    + apply bind_ok in Hh as (x & Hx & [= <-]). destruct allowed; [|by injection Hx as <-].
      destruct (commit_chunk _ _ Hok Hx) as (evs & Hef & _). simpl. by rewrite (ef_frontier _ _ _ Hef).
    + rewrite Hw in Hh. destruct (parse (parser p) c) as [[entries|err|?] q]; [| |done].
      * apply bind_ok in Hh as (x & Hx & [= <-]).
        destruct (on_parsed_data_effect _ _ _ _ _ _ _ Hok Hx) as (evs & Hef & _). simpl.
        by rewrite (ef_frontier _ _ _ Hef).
      * injection Hh as <-. simpl. unfold log_parse_error. by destruct (skip_all_errors _).
  - destruct (commit_chunk _ _ Hok Hd) as (evs & Hef & _). simpl. by rewrite (ef_frontier _ _ _ Hef).
Qed.
Lemma conn_steps_read p es p' : ia_ok (input_session (pstate p)) → backfilling_finished p = true →
  is_Some (snapshot_writer (pstate p)) → conn_steps p es p' → read_state p' = foldl read_entry (read_state p) es.
Proof.
  intros Hok Hb Hw Hs. induction Hs as [p|p l p1 es p2 Hs _ IH]; [done|].
  destruct (conn_step_recorded _ _ _ Hok Hb Hs) as (c & Hr & Hb1 & _).
  rewrite foldl_app, <- (conn_step_read _ _ _ Hok Hb Hw Hs). apply IH; [apply Hr|done|].
  rewrite (re_writer _ _ _ Hr). by apply fmap_is_Some.
Qed.

Lemma cut_exists p es p' w evs1 t f evs2 :
  uniform_parser → ia_ok (input_session (pstate p)) → backfilling_finished p = true →
  snapshot_writer (pstate p) = Some w → conn_steps p es p' →
  snapshot_writer (pstate p') = Some (w ++ evs1 ++ AdvanceTime t f :: evs2) →
  ∃ es1 es2 p1 evs0, es = es1 ++ es2 ∧ conn_steps p es1 p1 ∧ conn_steps p1 es2 p' ∧
    current_frontier (connector (pstate p1)) = f ∧
    recorded (pstate p) (pstate p1) evs0 ∧ data_events evs0 = data_events evs1.
Proof.
  intros Hu Hok Hb Hw Hs. revert w evs1 Hok Hb Hw.
  induction Hs as [p|p l p1 es p2 Hs Hss IH]; intros w evs1 Hok Hb Hw Hw'.
  { rewrite Hw in Hw'. injection Hw' as Hl. apply (f_equal length) in Hl. rewrite !length_app in Hl. simpl in Hl. lia. }
  destruct (conn_step_recorded _ _ _ Hok Hb Hs) as (c & Hr & Hb1 & Hc). specialize (Hc Hu).
  destruct (conn_steps_recorded _ _ _ (re_ok _ _ _ Hr) Hb1 Hss) as (evs' & Hr' & _).
  assert (Hw1 : snapshot_writer (pstate p1) = Some (w ++ c)) by by rewrite (re_writer _ _ _ Hr), Hw.
  assert (Heq : evs1 ++ AdvanceTime t f :: evs2 = c ++ evs').
  { pose proof (re_writer _ _ _ Hr') as Hw2. rewrite Hw1, Hw' in Hw2. simpl in Hw2.
    injection Hw2 as Hw2. by rewrite <- app_assoc in Hw2; apply app_inv_head in Hw2. }
  assert (Hlater : ∀ k, data_events (c ++ k) = data_events evs1 → evs' = k ++ AdvanceTime t f :: evs2 →
    ∃ es1 es2 p1' evs0, l ++ es = es1 ++ es2 ∧ conn_steps p es1 p1' ∧ conn_steps p1' es2 p2 ∧
      current_frontier (connector (pstate p1')) = f ∧ recorded (pstate p) (pstate p1') evs0 ∧
      data_events evs0 = data_events evs1).
  { intros k Hk ->. destruct (IH (w ++ c) k) as (es1 & es2 & q & evs0 & -> & ? & ? & ? & Hq & Hd);
      [apply Hr|done|done| |].
    { rewrite (re_writer _ _ _ Hr'), Hw1. simpl. by rewrite <- !app_assoc. }
    exists (l ++ es1), es2, q, (c ++ evs0). split_and!; try done; [by rewrite app_assoc|by eapply steps_cons|by eapply recorded_trans|].
    by rewrite data_events_app, Hd, <- data_events_app. }
  apply app_eq_inv in Heq as [(k & -> & Hk)|(k & -> & Hk)]; [by apply (Hlater k)|].
  destruct k as [|e k]; [by apply (Hlater []); rewrite ?app_nil_r|].
  simpl in Hk. injection Hk as <- Hk. destruct Hc as [Hc|Hc].
  - apply Forall_app in Hc as [Hc1 Hc2]. apply Forall_cons in Hc2 as [[t' [= _ ->]] _].
    exists [], (l ++ es), p, []. split; [done|]. split; [apply steps_nil|]. split; [by eapply steps_cons|].
    split; [done|]. split; [by apply recorded_refl|]. symmetry. by eapply data_events_times.
  - apply Forall_app in Hc as [_ Hc]. by apply Forall_cons in Hc as [? _].
Qed.

(** C37: a recorded time is a consistent cut: the frontier stored with it passes
    exactly the offsets of a prefix of the entries, and the rows recorded before
    it are exactly the rows of that prefix.  So seeking the source to the
    frontier and replaying these rows neither loses nor repeats input, provided
    the parser does not mix rows and time advancements in one entry. *)
Theorem recorded_time_is_consistent_cut p es p' w evs1 t f evs2 :
  uniform_parser → ia_ok (input_session (pstate p)) → backfilling_finished p = true →
  snapshot_writer (pstate p) = Some w → conn_steps p es p' →
  snapshot_writer (pstate p') = Some (w ++ evs1 ++ AdvanceTime t f :: evs2) →
  ∃ es1 es2 p1 evs0, es = es1 ++ es2 ∧ conn_steps p es1 p1 ∧ conn_steps p1 es2 p' ∧
    f = snd (foldl read_entry (read_state p) es1) ∧
    recorded (pstate p) (pstate p1) evs0 ∧ data_events evs0 = data_events evs1.
Proof.
  intros Hu Hok Hb Hw Hs Hw'.
  destruct (cut_exists p es p' w evs1 t f evs2 Hu Hok Hb Hw Hs Hw')
    as (es1 & es2 & p1 & evs0 & ? & Hs1 & ? & Hf & ? & ?).
  exists es1, es2, p1, evs0. split_and!; try done.
  by rewrite <- (conn_steps_read _ _ _ Hok Hb ltac:(by eexists) Hs1), <- Hf.
Qed.

(** ** Restarting from a record *)

Fixpoint handle_entries p (es : list (Entry RC Meta)) : outcome unit (PollerState S P) :=
  match es with [] => Ok p | e :: es => p ← handle_input_entry p e; handle_entries p es end.
Lemma handle_entries_cons p e es : handle_entries p (e :: es) = (p ← handle_input_entry p e; handle_entries p es).
Proof. done. Qed.
Lemma handle_entries_app p es1 es2 p1 : handle_entries p es1 = Ok p1 →
  handle_entries p (es1 ++ es2) = handle_entries p1 es2.
Proof.
  revert p. induction es1 as [|e es1 IH]; simpl; intros p Hp; [by injection Hp as ->|].
  apply bind_ok in Hp as (q & -> & Hp). simpl. by apply IH.
Qed.

(** The modes in which the recorded times are not replayed. *)
Definition rows_only (mode : PersistenceMode) : bool :=
  match mode with Batch | Persisting | SelectivePersisting | UdfCaching => true | _ => false end.
Lemma on_event p e c s' : backfilling_finished p = false → event_change e = Some c →
  ia_change (input_session (pstate p)) c = Ok s' →
  handle_input_entry p (EnSnapshot e) = Ok (with_pstate p (with_session (pstate p) s')).
Proof.
  intros Hb He Hc. simpl. rewrite Hb. destruct e; simplify_eq/=; unfold on_insert, on_remove, on_upsert; by rewrite Hc.
Qed.
Lemma replay_events mode evs : rows_only mode = true → ∀ p, ia_ok (input_session (pstate p)) →
  backfilling_finished p = false → Forall (λ c, ia_supports c = true) (omap event_change evs) →
  ∃ sent s', rewind_entries mode evs = Ok sent ∧
    handle_entries p sent = Ok (with_pstate p (with_session (pstate p) s')) ∧ ia_ok s' ∧
    map fst (ia_log s') = changes (pstate p) ++ omap event_change evs ∧ ia_time s' = ia_time (input_session (pstate p)).
Proof.
  intros Hm. induction evs as [|e evs IH]; intros p Hok Hb Hsup.
  { exists [], (input_session (pstate p)). rewrite app_nil_r. split_and!; try done. by destruct p as [[]]. }
  destruct (event_change e) as [c|] eqn:He.
  - simpl in Hsup. rewrite He in Hsup. apply Forall_cons in Hsup as [Hc Hsup].
    destruct (ia_change_ok _ _ Hok Hc) as (s1 & E1 & Hok1 & Hl1 & Ht1).
    destruct (IH (with_pstate p (with_session (pstate p) s1)) Hok1 Hb Hsup) as (sent & s2 & Hr & Hh & Hok2 & Hl2 & Ht2).
    exists (EnSnapshot e :: sent), s2. split_and!.
    + simpl. rewrite Hr. by destruct e.
    + rewrite handle_entries_cons, (on_event _ _ _ _ Hb He E1). apply Hh.
    + done.
    + rewrite Hl2. unfold changes. simpl. rewrite He. by rewrite Hl1, map_app, <- app_assoc.
    + by rewrite Ht2.
  - simpl in Hsup. rewrite He in Hsup. destruct (IH p Hok Hb Hsup) as (sent & s2 & Hr & Hh & ?).
    exists sent, s2. simpl. rewrite He, Hr. split_and!; [|done|tauto..]. destruct e; try done. by destruct mode.
Qed.

Lemma time_ok_next x : time_ok x → less_equal (ia_time (input_session x)) (next_timestamp unix_timestamp_ms x) = true.
Proof. intros [-> _]. apply next_timestamp_ge. Qed.

Abbreviation apply_entry := (apply_entry unix_timestamp_ms instant_now).
Lemma commit_data x offset : on_parsed_data x offset [PeAdvanceTime] = apply_entry (with_logged x []) PAdvanceTime None.
Proof.
  change (on_parsed_data x offset [PeAdvanceTime]) with
    (y ← apply_entry (with_logged x []) PAdvanceTime None; Ok y).
  by destruct (apply_entry (with_logged x []) PAdvanceTime None).
Qed.
Lemma commit_apply x y t key : advance_time x = Ok (y, t) → connector_monitor y = Some monitor_new →
  ∃ m, apply_entry x PAdvanceTime key =
    Ok (write_event (with_monitor y (Some m)) (AdvanceTime t (current_frontier (connector y)))).
Proof.
  intros E Hm. unfold Connector.apply_entry. rewrite E. simpl. rewrite Hm.
  assert (∃ m, monitor_commit (instant_now (ticks y)) monitor_new = Ok m) as [m ->] by (eexists; unfold monitor_commit; simpl; reflexivity).
  by exists m.
Qed.

(** The end of the rewind: the frontier is restored and everything is sent. *)
Lemma sentinel_ok p f : ia_ok (input_session (pstate p)) → time_ok (pstate p) → backfilling_finished p = false →
  in_u64 (unix_timestamp_ms (ticks (pstate p))) = true → connector_monitor (pstate p) = Some monitor_new →
  ∃ p2, handle_input_entry p (EnRewindFinishSentinel f) = Ok p2 ∧ backfilling_finished p2 = true ∧
    current_frontier (connector (pstate p2)) = f ∧ changes (pstate p2) = changes (pstate p) ∧
    concat (map snd (ia_sent (input_session (pstate p2)))) = ia_log (input_session (pstate p2)).
Proof.
  intros Hok Ht Hb Hu Hm.
  set (x1 := with_logged (with_connector (pstate p) (set_current_frontier (connector (pstate p)) f)) []).
  destruct (advance_time_ok unix_timestamp_ms x1 Hok Hu (time_ok_next (pstate p) Ht))
    as (s' & E & Hok' & Hlog & _ & Hsent & _).
  destruct (commit_apply _ _ _ None E Hm) as (m & Ha).
  unfold Connector.handle_input_entry. rewrite Hb. cbv iota zeta. rewrite commit_data.
  change (with_logged _ []) with x1. rewrite Ha.
  eexists; split; [reflexivity|]. split_and!; [done|done| |done]. unfold changes. simpl. by rewrite Hlog.
Qed.

(** C38: A restart from its record reproduces what a connector has handed to the
    dataflow. A new connector that replays the record ends, after the sentinel of the
    rewind, with the same changes in the same order, all of them sent, and reads on from
    the restored frontier. The recorded connector started without changes, with an empty
    record and no backfilling, and the mode is one that does not replay times (not
    RealtimeReplay or SpeedrunReplay); all recorded rows have the right number of
    columns; the new connector is fresh, with its clock in 64 bits. *)
Theorem restart_reproduces_changes p0 es p evs p1 mode f :
  ia_ok (input_session (pstate p0)) → changes (pstate p0) = [] → backfilling_finished p0 = true →
  snapshot_writer (pstate p0) = Some [] → conn_steps p0 es p → snapshot_writer (pstate p) = Some evs →
  Forall (λ e, arity_ok (num_columns (connector (pstate p0))) e = true) evs →
  rows_only mode = true →
  ia_ok (input_session (pstate p1)) → time_ok (pstate p1) → changes (pstate p1) = [] →
  backfilling_finished p1 = false → connector_monitor (pstate p1) = Some monitor_new →
  in_u64 (unix_timestamp_ms (ticks (pstate p1))) = true →
  ∃ sent p2, rewind_entries mode evs = Ok sent ∧
    handle_entries p1 (sent ++ [EnRewindFinishSentinel f]) = Ok p2 ∧ backfilling_finished p2 = true ∧
    current_frontier (connector (pstate p2)) = f ∧ changes (pstate p2) = changes (pstate p) ∧
    concat (map snd (ia_sent (input_session (pstate p2)))) = ia_log (input_session (pstate p2)).
Proof.
  intros Hok0 Hc0 Hb0 Hw0 Hs Hw Ha Hm Hok1 Ht1 Hc1 Hb1 Hm1 Hu1.
  destruct (conn_steps_recorded _ _ _ Hok0 Hb0 Hs) as (evs' & [_ Hw' Hch Hsup _] & _).
  rewrite Hw, Hw0 in Hw'. injection Hw' as <-. rewrite applied_changes_arity in Hch, Hsup by done.
  destruct (replay_events mode evs Hm p1 Hok1 Hb1 Hsup) as (sent & s' & Hr & Hh & Hok' & Hl & Ht').
  destruct (sentinel_ok (with_pstate p1 (with_session (pstate p1) s')) f) as (p2 & E & ? & ? & Hc2 & ?); try done.
  { destruct Ht1 as [Ht He]. split; simpl; [by rewrite Ht'|done]. }
  exists sent, p2. split; [done|]. rewrite (handle_entries_app _ _ _ _ Hh), handle_entries_cons, E.
  split_and!; try done. rewrite Hc2. unfold changes at 1. simpl. by rewrite Hl, Hc1, Hch, Hc0.
Qed.

(** ** Times *)

Definition is_replayed_time (e : Entry RC Meta) : bool :=
  match e with EnSnapshot (AdvanceTime _ _) => true | _ => false end.
Definition time_grows x y : Prop :=
  ia_ok (input_session y) ∧ time_ok y ∧
  less_equal (current_timestamp (connector x)) (current_timestamp (connector y)) = true.
Lemma effect_time x y evs : effect x y evs → time_ok x → time_grows x y.
Proof. intros [] Ht. unfold time_grows. tauto. Qed.
Lemma time_grows_refl x y : ia_ok (input_session x) → time_ok x → input_session y = input_session x →
  connector y = connector x → time_grows x y.
Proof. intros Hok [] Hs Hc. unfold time_grows, time_ok. by rewrite Hs, Hc. Qed.
Lemma change_time p c s' : ia_ok (input_session (pstate p)) → time_ok (pstate p) →
  ia_change (input_session (pstate p)) c = Ok s' → time_grows (pstate p) (with_session (pstate p) s').
Proof.
  intros Hok [Ht He] Hc. destruct (ia_change_inv _ _ _ Hok Hc) as (_ & Hok' & _ & Ht').
  unfold time_grows, time_ok. simpl. rewrite Ht'. auto.
Qed.
Lemma conn_step_time p es p' : ia_ok (input_session (pstate p)) → time_ok (pstate p) →
  Forall (λ e, is_replayed_time e = false) es → conn_step p es p' → time_grows (pstate p) (pstate p').
Proof.
  intros Hok Ht Hes Hs. destruct Hs as [p e p' He Hh|p x next _ _ Hd|p next|p ev _ Hev|p Hw|p|p t f s1 s2 s3 E1 E2 E3].
  - destruct e as [[k vs|k vs|k vs|t f|]|f|[|m|allowed|c o]]; simpl in Hh; try done;
      try (destruct (backfilling_finished p); [done|]); try done.
    1-3: apply bind_ok in Hh as (x & Hx & [= <-]); apply bind_ok in Hx as (s' & Hc & [= <-]).
    + by apply (change_time p (ChInsert k (VTuple vs)) s').
    + by apply (change_time p (ChRemove k (VTuple vs)) s').
    + by apply (change_time p (ChUpsert k (VTuple <$> vs)) s').
    + apply bind_ok in Hh as (x & Hd & [= <-]).
      destruct (commit_chunk (with_connector (pstate p) (set_current_frontier (connector (pstate p)) f)) x Hok Hd) as (evs & Hef & _).
      destruct (effect_time _ _ _ Hef Ht) as (? & ? & Hle). by split_and!.
    + injection Hh as <-. by apply time_grows_refl.
    + apply bind_ok in Hh as (x & Hx & [= <-]). destruct allowed; [|injection Hx as <-; by apply time_grows_refl].
      destruct (commit_chunk _ _ Hok Hx) as (evs & Hef & _). by eapply effect_time.
    + destruct (parse (parser p) c) as [[entries|err|?] q]; [| |done].
      * apply bind_ok in Hh as (x & Hx & Hh).
        destruct (on_parsed_data_effect _ _ _ _ _ _ _ Hok Hx) as (evs & Hef & _).
        pose proof (effect_time _ _ _ Hef Ht) as Hg.
        destruct (snapshot_writer (pstate p)); [destruct (backfilling_finished p); [|done]|]; by injection Hh as <-.
      * injection Hh as <-. unfold log_parse_error. simpl. by destruct (skip_all_errors _); apply time_grows_refl.
  - destruct (commit_chunk _ _ Hok Hd) as (evs & Hef & _). by eapply effect_time.
  - by apply time_grows_refl.
  - by apply time_grows_refl.
  - by apply time_grows_refl.
  - by apply time_grows_refl.
  - by apply Forall_cons in Hes as [? _].
Qed.

(** As long as no recorded time is replayed, the session stays exactly at the
    connector's time, which is even and never decreases, however the clock
    moves; a commit then always succeeds for a clock that fits 64 bits, moves the
    session to the larger of its time and the clock rounded down to an even
    number, and leaves nothing unsent. *)
Theorem session_time_follows_clock p es p' :
  ia_ok (input_session (pstate p)) → time_ok (pstate p) → Forall (λ e, is_replayed_time e = false) es →
  conn_steps p es p' →
  time_grows (pstate p) (pstate p') ∧
  (in_u64 (unix_timestamp_ms (ticks (pstate p'))) = true →
   ∃ y t, advance_time (pstate p') = Ok (y, t) ∧
     Z.of_N (ts_0 t) = Z.max (Z.of_N (ts_0 (current_timestamp (connector (pstate p')))))
                             (unix_timestamp_ms (ticks (pstate p')) / 2 * 2) ∧
     ia_time (input_session y) = t ∧ ia_epoch (input_session y) = t ∧
     concat (map snd (ia_sent (input_session y))) = ia_log (input_session (pstate p'))).
Proof.
  intros Hok Ht Hes Hs.
  assert (Hg : time_grows (pstate p) (pstate p')).
  { induction Hs as [p|p l p1 es p2 Hs _ IH]; [by apply time_grows_refl|].
    apply Forall_app in Hes as [Hl Hes]. destruct (conn_step_time _ _ _ Hok Ht Hl Hs) as (Hok1 & Ht1 & Hle1).
    destruct (IH Hok1 Ht1 Hes) as (? & ? & ?). split_and!; try done. by eapply Timestamp_le_trans. }
  split; [done|]. intros Hu. destruct Hg as (Hok' & Ht' & _).
  destruct (advance_time_ok unix_timestamp_ms _ Hok' Hu (time_ok_next _ Ht')) as (s' & E & _ & Hlog & Hti & Hsent & Hep).
  eexists _, _. split; [exact E|]. simpl. split_and!; try done; [|by rewrite Hsent].
  apply in_u64_spec in Hu. unfold next_timestamp. simpl.
  destruct (N.leb_spec (ts_0 (current_timestamp (connector (pstate p'))))
    (Z.to_N (unix_timestamp_ms (ticks (pstate p')) / 2 * 2))); simpl; lia.
Qed.
End poller.

(** ** Frontiers *)

Definition offset_position (v : OffsetValue) : Z :=
  match v with
  | KafkaOffset n | FilePosition n _ _ | S3ObjectPosition n _ _ | PythonEntrySequentialId n => n
  | OvEmpty => 0
  end.
Definition same_kind (a b : OffsetValue) : Prop :=
  match a, b with
  | KafkaOffset _, KafkaOffset _ | FilePosition _ _ _, FilePosition _ _ _
  | S3ObjectPosition _ _ _, S3ObjectPosition _ _ _
  | PythonEntrySequentialId _, PythonEntrySequentialId _ | OvEmpty, OvEmpty => True
  | _, _ => False
  end.
Lemma merge_offset_value_spec a b : same_kind a b →
  (merge_offset_value a b = a ∨ merge_offset_value a b = b) ∧
  offset_position a ≤ offset_position (merge_offset_value a b) ∧
  offset_position b ≤ offset_position (merge_offset_value a b).
Proof.
  intros Hk. destruct a as [m|m ? ?|m ? ?|m|], b as [n|n ? ?|n ? ?|n|]; try done; simpl;
    try (split; [by left|lia]); destruct (Z.ltb_spec m n); simpl; split; auto; lia.
Qed.

Definition merge_lookup (a b : option OffsetValue) : option OffsetValue :=
  match a, b with Some a, Some b => Some (merge_offset_value a b) | None, b => b | a, None => a end.
Lemma lookup_advance_offset a k v k' :
  get_offset (advance_offset a k v) k' = if decide (k = k') then Some v else get_offset a k'.
Proof.
  unfold get_offset, advance_offset. simpl.
  destruct (decide (k = k')) as [->|]; [by rewrite lookup_insert_eq|by rewrite lookup_insert_ne].
Qed.
Lemma lookup_merge_two_frontiers l r k :
  get_offset (merge_two_frontiers l r) k = merge_lookup (get_offset l k) (get_offset r k).
Proof.
  unfold merge_two_frontiers. change (get_offset r k) with (antichain r !! k).
  pose proof (NoDup_fst_map_to_list (antichain r)) as Hnd.
  assert (Hl : ∀ v, antichain r !! k = Some v ↔ (k, v) ∈ map_to_list (antichain r))
    by (intros; by rewrite elem_of_map_to_list).
  revert Hl. generalize (antichain r !! k) as o. revert l Hnd.
  induction (map_to_list (antichain r)) as [|[k0 v0] kvs IH]; intros l Hnd o Hl; simpl.
  - destruct o as [v|]; [destruct (Hl v) as [Hv _]; by specialize (Hv eq_refl); apply elem_of_nil in Hv|].
    by destruct (get_offset l k).
  - apply NoDup_cons in Hnd as [Hn Hnd].
    set (v' := match get_offset l k0 with Some a => merge_offset_value a v0 | None => v0 end).
    assert (Hst : match get_offset l k0 with
                  | Some a => advance_offset l k0 (merge_offset_value a v0)
                  | None => advance_offset l k0 v0 end = advance_offset l k0 v')
      by (unfold v'; by destruct (get_offset l k0)).
    rewrite Hst. destruct (decide (k0 = k)) as [->|Hne].
    + rewrite (IH _ Hnd None).
      * rewrite lookup_advance_offset, decide_True by done.
        assert (o = Some v0) as -> by (apply Hl; apply list_elem_of_here).
        unfold v'. by destruct (get_offset l k).
      * intros v. split; [done|]. intros Hv. destruct Hn. apply list_elem_of_fmap. by exists (k, v).
    + rewrite (IH _ Hnd o); [by rewrite lookup_advance_offset, decide_False|].
      intros v. rewrite Hl, elem_of_cons. split; [|by right]. by intros [[=]|].
Qed.

Definition frontiers_furthest (k : OffsetKey) (fs : list OffsetAntichain) (o : option OffsetValue) : Prop :=
  match o with
  | Some v => Exists (λ f, get_offset f k = Some v) fs ∧
      ∀ f a, f ∈ fs → get_offset f k = Some a → offset_position a ≤ offset_position v
  | None => ∀ f, f ∈ fs → get_offset f k = None
  end.
Definition one_kind (k : OffsetKey) (fs : list OffsetAntichain) : Prop :=
  ∀ f g a b, f ∈ fs → g ∈ fs → get_offset f k = Some a → get_offset g k = Some b → same_kind a b.
Lemma fold_merge_furthest k fs : ∀ f0, one_kind k (f0 :: fs) →
  frontiers_furthest k (f0 :: fs) (get_offset (foldl merge_two_frontiers f0 fs) k).
Proof.
  induction fs as [|f fs IH]; intros f0 Hk; simpl.
  - destruct (get_offset f0 k) as [v|] eqn:Hv; simpl.
    + split; [by left|]. intros g a ->%list_elem_of_singleton. rewrite Hv. intros [= ->]. lia.
    + by intros g ->%list_elem_of_singleton.
  - pose proof (lookup_merge_two_frontiers f0 f k) as Hm.
    assert (H0 : f0 ∈ f0 :: f :: fs) by apply list_elem_of_here.
    assert (H1 : f ∈ f0 :: f :: fs) by (apply list_elem_of_further, list_elem_of_here).
    assert (Hin : ∀ v, get_offset (merge_two_frontiers f0 f) k = Some v →
      (get_offset f0 k = Some v ∨ get_offset f k = Some v) ∧
      (∀ g a, g = f0 ∨ g = f → get_offset g k = Some a → offset_position a ≤ offset_position v)).
    { intros v. rewrite Hm. destruct (get_offset f0 k) as [a|] eqn:Ea, (get_offset f k) as [b|] eqn:Eb; simpl;
        intros [= <-].
      - destruct (merge_offset_value_spec a b (Hk _ _ _ _ H0 H1 Ea Eb)) as (Hor & Ha & Hb).
        split; [destruct Hor as [-> | ->]; auto|]. intros g c [-> | ->] Hc; congruence.
      - split; [by left|]. intros g c [-> | ->] Hc; [|congruence]. assert (a = c) by congruence. subst. lia.
      - split; [by right|]. intros g c [-> | ->] Hc; [congruence|]. assert (b = c) by congruence. subst. lia. }
    assert (Hk' : one_kind k (merge_two_frontiers f0 f :: fs)).
    { assert (Hrep : ∀ g a, g ∈ merge_two_frontiers f0 f :: fs → get_offset g k = Some a →
        ∃ g', g' ∈ f0 :: f :: fs ∧ get_offset g' k = Some a).
      { intros g a [-> | Hg]%elem_of_cons Ha; [|exists g; split; [by do 2 apply list_elem_of_further|done]].
        destruct (Hin _ Ha) as [[?|?] _]; eauto. }
      intros g g' a b Hg Hg' Ha Hb. destruct (Hrep _ _ Hg Ha) as (? & ? & ?), (Hrep _ _ Hg' Hb) as (? & ? & ?). eauto. }
    specialize (IH _ Hk'). destruct (get_offset (foldl _ _ fs) k) as [v|]; simpl in *.
    + destruct IH as [Hex Hle]. split.
      * apply Exists_cons in Hex as [Hv|Hex]; [|by do 2 right].
        destruct (Hin _ Hv) as [[?|?] _]; [by left|by right; left].
      * assert (Hfirst : ∀ g a, g = f0 ∨ g = f → get_offset g k = Some a → offset_position a ≤ offset_position v).
        { intros g a Hg Ha. destruct (get_offset (merge_two_frontiers f0 f) k) as [u|] eqn:Hu.
          - destruct (Hin _ eq_refl) as [_ Hmax]. etrans; [by eapply Hmax|]. eapply Hle; [|done]. apply list_elem_of_here.
          - destruct Hg as [-> | ->]; rewrite Ha in Hm; simpl in Hm; [by destruct (get_offset f k)|by destruct (get_offset f0 k)]. }
        intros g a [-> | [-> | Hg]%elem_of_cons]%elem_of_cons Ha; [by eapply Hfirst; [left|]|by eapply Hfirst; [right|]|].
        eapply Hle; [|done]. by apply list_elem_of_further.
    + assert (get_offset (merge_two_frontiers f0 f) k = None) as Hn by (apply IH, list_elem_of_here).
      rewrite Hn in Hm.
      intros g [-> | [-> | Hg]%elem_of_cons]%elem_of_cons; [| |by apply IH, list_elem_of_further];
        by destruct (get_offset f0 k), (get_offset f k).
Qed.

Section frontier_for.
Context {R : Type} `{ReadSnapshotEvent R}.
(** The frontiers that the readers end with. *)
Definition final_frontiers (fuel : nat) (readers : list (SnapshotReader R)) : option (list OffsetAntichain) :=
  mapM (λ r, (λ er, last_frontier (snd er)) <$> read_to_end fuel r) readers.
Lemma frontier_for_fold fuel readers : ∀ f0,
  frontier_for fuel f0 readers = foldl merge_two_frontiers f0 <$> final_frontiers fuel readers.
Proof.
  unfold final_frontiers. induction readers as [|r readers IH]; intros f0; simpl; [done|].
  destruct (read_to_end fuel r) as [[es r']|]; simpl; [|done]. rewrite IH.
  by destruct (mapM _ readers).
Qed.

(** The frontier from which a source resumes holds, for every key that some
    snapshot knows, the furthest of the offsets that the snapshots of all
    workers end with, and nothing else. *)
Theorem frontier_for_furthest fuel readers fs f k :
  final_frontiers fuel readers = Some fs → one_kind k fs →
  frontier_for fuel OffsetAntichain_new readers = Some f →
  frontiers_furthest k fs (get_offset f k).
Proof.
  intros Hfs Hk Hf. rewrite frontier_for_fold, Hfs in Hf. injection Hf as <-.
  destruct fs as [|f0 fs]; simpl.
  { assert (get_offset OffsetAntichain_new k = None) as -> by apply lookup_empty. by intros ? ?%elem_of_nil. }
  assert (Hm : ∀ k', get_offset (merge_two_frontiers OffsetAntichain_new f0) k' = get_offset f0 k').
  { intros k'. rewrite lookup_merge_two_frontiers. unfold get_offset at 1. simpl. by rewrite lookup_empty. }
  assert (merge_two_frontiers OffsetAntichain_new f0 = f0) as ->; [|by apply fold_merge_furthest].
  destruct (merge_two_frontiers _ f0) as [m], f0 as [m0]. f_equal. apply map_eq, Hm.
Qed.
End frontier_for.

(** ** A concrete connector *)

Module ConcreteConnector.
#[export] Instance profile : Profile := true.
#[export] Instance capacity : AtCapacity NativeRecord := λ s, Nat.leb 2 (length (buffer s)).
(** A parser whose contexts are the entries themselves. *)
#[export] Instance echo : Parser (list ParsedEventWithErrors) unit unit := {|
  parse q c := (Ok (if existsb is_advance_time c then [PeAdvanceTime] else c), q);
  on_new_source_started q _ := q
|}.
Definition clock (n : nat) : Z := 1001 + 10 * Z.of_nat n.
Definition one_key (_ : option (list Value)) (_ : option Offset) : outcome unit Key := Ok (mk_Key 7).
Definition start (backfilled : bool) (writer : option (list Event)) : PollerState InputSession unit :=
  mk_PollerState
    (mk_ConnectorState (Connector_new None 1 false) ia_new writer (Some monitor_new) [] 0)
    tt backfilled true None.
Definition row (n : Z) : Entry (list ParsedEventWithErrors) unit :=
  EnRealtime (RrData [PeInsert None [Ok (VInt n)]] (OkEmpty, PythonEntrySequentialId n)).
Definition commit : Entry (list ParsedEventWithErrors) unit := EnRealtime (RrFinishedSource true).
Definition after (p : PollerState InputSession unit) (es : list (Entry (list ParsedEventWithErrors) unit))
    : PollerState InputSession unit :=
  match handle_entries clock clock one_key p es with Ok p => p | _ => p end.
Definition wide_row : Entry (list ParsedEventWithErrors) unit :=
  EnRealtime (RrData [PeInsert None [Ok (VInt 1); Ok (VInt 2)]] EMPTY_OFFSET).

Lemma echo_uniform : uniform_parser (P := unit) (RC := list ParsedEventWithErrors) (Meta := unit).
Proof.
  intros q c es q' [= <- <-] Hin. destruct (existsb is_advance_time c) eqn:E; [by repeat constructor|].
  assert (existsb is_advance_time c = true); [|congruence].
  apply existsb_exists. exists PeAdvanceTime. split; [by apply list_elem_of_In|done].
Qed.
Lemma start_ok b w : ia_ok (input_session (pstate (start b w))).
Proof. apply ia_ok_new. Qed.
Lemma start_time_ok b w : time_ok (pstate (start b w)).
Proof. split; [done|]. by exists 0%N. Qed.
End ConcreteConnector.
Import ConcreteConnector.

Lemma handled_steps {S P RC Meta} `{InputAdaptor S, Profile, Parser RC Meta P} ut ik vk es : ∀ (p p' : PollerState S P),
  forallb (λ e, match e with EnRealtime RrFinished | EnSnapshot (AdvanceTime _ _) => false | _ => true end) es = true →
  handle_entries ut ik vk p es = Ok p' → conn_steps ut ik vk p es p'.
Proof.
  induction es as [|e es IH]; intros p p' Hes Hh; [injection Hh as <-; constructor|].
  apply andb_true_iff in Hes as [He Hes]. rewrite handle_entries_cons in Hh.
  apply bind_ok in Hh as (p1 & E1 & Hh). apply (steps_cons _ _ _ p [e] p1); [|by apply IH].
  apply step_entry; [|done]. by destruct e as [[]| |[]].
Qed.

Lemma poll_refines_steps_witness :
  match poll clock clock one_key Persisting (λ _, true) (start true (Some [])) 0 [row 1; commit; row 2] false with
  | Ok (p', rest, flow) =>
      ∃ consumed, [row 1; commit; row 2] = consumed ++ rest ∧
        conn_steps clock clock one_key (start true (Some [])) consumed p' ∧
        (length consumed <= N.to_nat 99999)%nat ∧
        (stopped p' 0 false 0 consumed rest flow ∨
         (consumed = [] ∧ p' = start true (Some []) ∧ flow = Continue (Some 0) ∧ Persisting = SpeedrunReplay ∧
          backfilling_finished (start true (Some [])) = false ∧
          true = true))
  | _ => False
  end.
Proof.
  destruct (poll _ _ _ _ _ _ _ _ _) as [[[p' rest] flow]|?|?] eqn:E;
    [|vm_compute in E; discriminate E|vm_compute in E; discriminate E].
  exact (poll_refines_steps clock clock one_key Persisting (λ _, true) _ _ _ _ _ _ _ E).
Defined.

Lemma recorded_time_is_consistent_cut_witness :
  ∃ es1 es2 p1 evs0, [row 1; commit; row 2] = es1 ++ es2 ∧
    conn_steps clock clock one_key (start true (Some [])) es1 p1 ∧
    conn_steps clock clock one_key p1 es2 (after (start true (Some [])) [row 1; commit; row 2]) ∧
    advance_offset OffsetAntichain_new OkEmpty (PythonEntrySequentialId 1) =
      snd (foldl (read_entry (P := unit)) (read_state (start true (Some []))) es1) ∧
    recorded (pstate (start true (Some []))) (pstate p1) evs0 ∧
    data_events evs0 = data_events [Insert (mk_Key 7) [VInt 1]].
Proof.
  apply (recorded_time_is_consistent_cut clock clock one_key _ _ _ [] [Insert (mk_Key 7) [VInt 1]]
    (mk_Timestamp 1000) _ [Insert (mk_Key 7) [VInt 2]] echo_uniform (start_ok _ _)); try reflexivity.
  apply handled_steps; vm_compute; reflexivity.
Defined.

Lemma restart_reproduces_changes_witness :
  ∃ sent p2, rewind_entries Persisting [Insert (mk_Key 7) [VInt 1]; AdvanceTime (mk_Timestamp 1000)
        (advance_offset OffsetAntichain_new OkEmpty (PythonEntrySequentialId 1))] = Ok sent ∧
    handle_entries clock clock one_key (start false (Some [])) (sent ++ [EnRewindFinishSentinel OffsetAntichain_new]) = Ok p2 ∧
    backfilling_finished p2 = true ∧ current_frontier (connector (pstate p2)) = OffsetAntichain_new ∧
    changes (pstate p2) = changes (pstate (after (start true (Some [])) [row 1; commit])) ∧
    concat (map snd (ia_sent (input_session (pstate p2)))) = ia_log (input_session (pstate p2)).
Proof.
  apply (restart_reproduces_changes clock clock one_key (start true (Some [])) [row 1; commit]
    (after (start true (Some [])) [row 1; commit]) _ (start false (Some [])) Persisting OffsetAntichain_new);
    try apply start_ok; try apply start_time_ok; try (vm_compute; reflexivity).
  - apply handled_steps; vm_compute; reflexivity.
  - repeat constructor.
Defined.

Lemma session_time_follows_clock_witness :
  time_grows (pstate (start true None)) (pstate (after (start true None) [row 1; commit])) ∧
  (in_u64 (clock 1) = true →
   ∃ y t, advance_time clock (pstate (after (start true None) [row 1; commit])) = Ok (y, t) ∧
     Z.of_N (ts_0 t) = Z.max 1000 (clock 1 / 2 * 2) ∧
     ia_time (input_session y) = t ∧ ia_epoch (input_session y) = t ∧
     concat (map snd (ia_sent (input_session y))) =
       ia_log (input_session (pstate (after (start true None) [row 1; commit])))).
Proof.
  apply (session_time_follows_clock clock clock one_key (start true None) [row 1; commit]
    (after (start true None) [row 1; commit]) (start_ok _ _) (start_time_ok _ _)).
  - repeat constructor.
  - apply handled_steps; vm_compute; reflexivity.
Defined.

Definition mock_reader (n : Z) : SnapshotReader MockSnapshotReader :=
  mk_SnapshotReader (mk_MockSnapshotReader
    [AdvanceTime (mk_Timestamp 2) (advance_offset OffsetAntichain_new (OkKafka "t" 0) (KafkaOffset n))])
    Done 0 OffsetAntichain_new false.
Lemma frontier_for_furthest_witness :
  match frontier_for 3 OffsetAntichain_new [mock_reader 4; mock_reader 9; mock_reader 5],
        final_frontiers 3 [mock_reader 4; mock_reader 9; mock_reader 5] with
  | Some f, Some fs => frontiers_furthest (OkKafka "t" 0) fs (get_offset f (OkKafka "t" 0)) ∧
      get_offset f (OkKafka "t" 0) = Some (KafkaOffset 9)
  | _, _ => False
  end.
Proof.
  destruct (frontier_for _ _ _) as [f|] eqn:E; [|vm_compute in E; discriminate E].
  destruct (final_frontiers _ _) as [fs|] eqn:Efs; [|vm_compute in Efs; discriminate Efs].
  split; [|vm_compute in E; injection E as <-; reflexivity].
  apply (frontier_for_furthest 3 _ fs f _ Efs); [|exact E].
  intros g g' a b Hg Hg' Ha Hb. vm_compute in Efs. injection Efs as <-.
  repeat (apply elem_of_cons in Hg as [-> | Hg]); [..|by apply elem_of_nil in Hg];
    vm_compute in Ha; injection Ha as <-;
    repeat (apply elem_of_cons in Hg' as [-> | Hg']); try (by apply elem_of_nil in Hg');
    vm_compute in Hb; injection Hb as <-; exact I.
Defined.

(** ** Divergences *)

(** A row with the wrong number of columns is skipped by the run that reads it,
    but it is recorded first: the replay applies it. *)
Theorem wrong_arity_is_replayed :
  let p := after (start true (Some [])) [wide_row] in
  changes (pstate p) = [] ∧ snapshot_writer (pstate p) = Some [Insert (mk_Key 7) [VInt 1; VInt 2]] ∧
  changes (pstate (after (start false (Some [])) [EnSnapshot (Insert (mk_Key 7) [VInt 1; VInt 2])])) =
    [ChInsert (mk_Key 7) (VTuple [VInt 1; VInt 2])].
Proof. vm_compute. done. Qed.

(** After a replayed time that the clock has not reached, the end of the rewind
    panics, although [advance_time] means to tolerate a clock that is behind. *)
Theorem replayed_time_ahead_panics :
  match poll clock clock one_key Batch (λ _, true) (start false None) 0
          [EnSnapshot (AdvanceTime (mk_Timestamp 5000) OffsetAntichain_new)] false with
  | Ok (p, [], Continue _) =>
      match poll clock clock one_key Batch (λ _, true) p 0 [EnRewindFinishSentinel OffsetAntichain_new] false with
      | Panic _ => True
      | _ => False
      end
  | _ => False
  end.
Proof. vm_compute. exact I. Qed.
