(* ===== verification/PrevNext.v ===== *)
(** The sorting index (src/engine/dataflow/operators/prev_next.rs, with
    [key_val_total_weight] and [SortingBatchBuilder] of utils.rs): the incremental
    maintenance of prev/next pointers between the present keys of each instance.

    A trace is the sorted list of its keys, each with its values and their updates;
    a cursor is a position in this list (the suffix that starts at the current
    key).  The input trace and the batch have the unit value, so a key carries its
    updates directly.  Differences are integers ([R] of the source is any abelian
    group; the engine uses [isize]). *)
From Stdlib Require Import ZArith Lia Bool.
From stdpp Require Import base list strings.
From S2P Require Import Prelude Order.
Open Scope Z_scope.

(** ** Traces *)

Abbreviation Updates T := (list (T * Z)).
Abbreviation InputTrace K T := (list (K * Updates T)).
Abbreviation Pointers K := (option K * option K)%type.
Abbreviation OutputTrace K T := (list (K * list (Pointers K * Updates T))).
Abbreviation Builder K T := (list (K * Pointers K * T * Z)).

Section prev_next.
Context {K T : Type} `{Ord K, Ord T}.
Context (instance_filter : K → K → bool).

(** ** Cursors *)

(** [key_val_total_weight]: [None] when there are no updates. *)
Definition key_val_total_weight (us : Updates T) : option Z :=
  foldl (λ ret u, match ret with None => Some (snd u) | Some val => Some (val + snd u) end) None us.
Definition key_val_has_zero_weight (us : Updates T) : bool :=
  match key_val_total_weight us with None => true | Some w => w =? 0 end.
(** The same over all values of a key. *)
Definition key_has_zero_weight (vals : list (Pointers K * Updates T)) : bool :=
  match
    foldl (λ sum v,
      match sum, key_val_total_weight (snd v) with
      | _, None => sum
      | None, Some val => Some val
      | Some val1, Some val2 => Some (val1 + val2)
      end) None vals
  with None => true | Some w => w =? 0 end.

(** [rewind_keys] and [seek_key]: the suffix from the first key not below [key]. *)
Fixpoint move_to_key_or_upper_bound {V} (storage : list (K * V)) (key : K) : list (K * V) :=
  match storage with
  | [] => []
  | (k, v) :: rest => if ord_ltb k key then move_to_key_or_upper_bound rest key else storage
  end.
(** [rewind_keys] and [seek_smaller_eq_key]: the keys up to the last one not
    above [key], the last first. *)
Definition move_to_key_or_lower_bound {V} (storage : list (K * V)) (key : K) : list (K * V) :=
  rev (List.filter (λ kv, ord_leb (fst kv) key) storage).
Definition key_present {V} (storage : list (K * V)) (key : K) : bool :=
  match move_to_key_or_upper_bound storage key with (k, _) :: _ => ord_eqb k key | [] => false end.
(** The value at the cursor after [rewind_zero_weight_val_forward]. *)
Fixpoint rewind_zero_weight_val_forward (vals : list (Pointers K * Updates T)) : option (Pointers K * Updates T) :=
  match vals with
  | [] => None
  | v :: rest => if key_val_has_zero_weight (snd v) then rewind_zero_weight_val_forward rest else Some v
  end.
(** The cursor of the batch skips keys of weight zero. *)
Fixpoint rewind_zero_weight_key_forward (batch : InputTrace K T) : InputTrace K T :=
  match batch with
  | [] => []
  | (k, us) :: rest => if key_val_has_zero_weight us then rewind_zero_weight_key_forward rest else batch
  end.

(** Value and weight of the output at [key]: the value of the key at which a
    seek ends. *)
Definition output_val (output : OutputTrace K T) (key : K) : outcome unit (Pointers K * Z) :=
  match move_to_key_or_upper_bound output key with
  | [] => Panic "debug_assert!(self.key_valid(storage))"
  | (_, vals) :: _ =>
      match rewind_zero_weight_val_forward vals with
      | None => Panic "debug_assert!(self.val_valid(storage))"
      | Some (val, us) => w ← unwrap (key_val_total_weight us); Ok (val, w)
      end
  end.
Definition input_weight (input : InputTrace K T) (key : K) : outcome unit Z :=
  match move_to_key_or_upper_bound input key with
  | [] => Panic "called `Option::unwrap()` on a `None` value"
  | (_, us) :: _ => unwrap (key_val_total_weight us)
  end.

(** ** Building the batch of the output *)

Definition push_insert_replace (output : OutputTrace K T) (key : K) (val : Pointers K) (time : T) (diff : Z)
    (b : Builder K T) : outcome unit (Builder K T) :=
  b ← match move_to_key_or_upper_bound output key with
      | (k, vals) :: _ =>
          if ord_eqb k key && negb (key_has_zero_weight vals) then
            ' (old_val, old_weight) ← output_val output key;
            Ok (b ++ [(key, old_val, time, - old_weight)])
          else Ok b
      | [] => Ok b
      end;
  Ok (b ++ [(key, val, time, diff)]).
Definition push_prev_replace (output : OutputTrace K T) (key : K) (new_prev : option K) (time : T) (b : Builder K T)
    : outcome unit (Builder K T) :=
  ' (val, weight) ← output_val output key;
  Ok (b ++ [(key, val, time, - weight); (key, (new_prev, snd val), time, weight)]).

(** ** Neighbours in the input *)

Definition other_instance_to_none (instance_filter : K → bool) (maybe_key : option K) : option K :=
  match maybe_key with Some k => if instance_filter k then Some k else None | None => None end.
Fixpoint first_non_zero (l : InputTrace K T) : option K :=
  match l with
  | [] => None
  | (k, us) :: rest => if key_val_has_zero_weight us then first_non_zero rest else Some k
  end.
Definition find_non_zero_prev (input : InputTrace K T) (key : K) : option K :=
  first_non_zero (tail (move_to_key_or_lower_bound input key)).

(** The largest time of the updates at a position. *)
Definition max_curr_time (us : Updates T) : option T :=
  foldl (λ m u, match m with
                | None => Some (fst u)
                | Some t => if ord_ltb t (fst u) then Some (fst u) else m
                end) None us.
(** [std::cmp::max]. *)
Definition time_max (a b : T) : T := match cmp a b with Gt => a | _ => b end.
Definition max_seen (max_seen_time max_curr_time : option T) : option T :=
  match max_seen_time, max_curr_time with
  | None, o | o, None => o
  | Some a, Some b => Some (time_max a b)
  end.

(** The loop of [process_to_non_zero_next]: [input] and [batch] are the suffixes
    at the cursors; gives the key that the input stops at. *)
Fixpoint process_loop (in_instance : K → bool) (output : OutputTrace K T) (input batch : InputTrace K T)
    (max_seen_time : option T) (b : Builder K T) : outcome unit (option K * option T * InputTrace K T * Builder K T) :=
  match input with
  | [] => Ok (None, max_seen_time, batch, b)
  | (key, us) :: input' =>
      if in_instance key && key_val_has_zero_weight us then
        match batch with
        | (batch_key, batch_us) :: batch' =>
            if in_instance batch_key && ord_eqb batch_key key then
              if key_present output batch_key then
                ' (val, _) ← output_val output batch_key;
                let max_seen_time := max_seen max_seen_time (max_curr_time us) in
                t ← unwrap max_seen_time;
                w ← unwrap (key_val_total_weight batch_us);
                process_loop in_instance output input' (rewind_zero_weight_key_forward batch') max_seen_time
                  (b ++ [(batch_key, val, t, w)])
              else Panic "internal sort error - deleting non existing key"
            else process_loop in_instance output input' batch max_seen_time b
        | [] => process_loop in_instance output input' batch max_seen_time b
        end
      else Ok (Some key, max_seen_time, batch, b)
  end.
Definition process_to_non_zero_next (in_instance : K → bool) (input : InputTrace K T) (output : OutputTrace K T)
    (batch : InputTrace K T) (b : Builder K T) (key : K) (time : T)
    : outcome unit (option K * option T * InputTrace K T * Builder K T) :=
  let at_key := move_to_key_or_upper_bound input key in
  let input' := match at_key with (k, _) :: rest => if ord_eqb key k then rest else at_key | [] => [] end in
  process_loop in_instance output input' (rewind_zero_weight_key_forward (tail batch)) (Some time) b.

Record Neighbours := mk_Neighbours {
  nb_prev_prev : option K; nb_prev : option K; nb_next : option K;
  nb_max_time : option T; nb_batch : InputTrace K T; nb_builder : Builder K T
}.
Definition get_non_zero_prev_next (in_instance : K → bool) (input : InputTrace K T) (output : OutputTrace K T)
    (batch : InputTrace K T) (b : Builder K T) (key : K) (time : T) : outcome unit Neighbours :=
  let prev := find_non_zero_prev input key in
  let prev_prev := match prev with Some p => find_non_zero_prev input p | None => None end in
  ' (next, max_seen_time, batch, b) ← process_to_non_zero_next in_instance input output batch b key time;
  Ok (mk_Neighbours (other_instance_to_none in_instance prev_prev) (other_instance_to_none in_instance prev)
        (other_instance_to_none in_instance next) max_seen_time batch b).

(** ** The carried entry *)

Record CarryEntry := mk_CarryEntry {
  carry_key : option K; carry_prev : option K; carry_next : option K; carry_time : option T
}.
Definition make_empty : CarryEntry := mk_CarryEntry None None None None.
Definition is_empty (c : CarryEntry) : bool :=
  match c with mk_CarryEntry None None None None => true | _ => false end.
Definition replace_next (c : CarryEntry) (next : option K) : CarryEntry :=
  mk_CarryEntry (carry_key c) (carry_prev c) next (carry_time c).
Definition replace_time (c : CarryEntry) (time : option T) : CarryEntry :=
  mk_CarryEntry (carry_key c) (carry_prev c) (carry_next c) time.

Definition opt_eqb (a b : option K) : bool :=
  match a, b with Some a, Some b => ord_eqb a b | None, None => true | _, _ => false end.
(** [Option]'s [lt]: [None] is below every [Some]. *)
Definition opt_ltb (a b : option K) : bool :=
  match a, b with Some a, Some b => ord_ltb a b | None, Some _ => true | _, None => false end.

(** Pushes the entry itself, if it has a key. *)
Definition push_carry (input : InputTrace K T) (output : OutputTrace K T) (c : CarryEntry) (b : Builder K T)
    : outcome unit (Builder K T) :=
  match carry_key c with
  | None => Ok b
  | Some key =>
      weight ← input_weight input key;
      time ← unwrap (carry_time c);
      push_insert_replace output key (carry_prev c, carry_next c) time weight b
  end.
(** The deletion of the old entry of [key]. *)
Definition push_delete (output : OutputTrace K T) (key : K) (time : T) (b : Builder K T) : outcome unit (Builder K T) :=
  ' (val, weight) ← output_val output key; Ok (b ++ [(key, val, time, - weight)]).

Definition handle_delete (in_instance : K → bool) (input : InputTrace K T) (output : OutputTrace K T)
    (batch : InputTrace K T) (b : Builder K T) (key : K) (time : T) (carry_entry : CarryEntry)
    : outcome unit (CarryEntry * InputTrace K T * Builder K T) :=
  n ← get_non_zero_prev_next in_instance input output batch b key time;
  let adjusted_time := match nb_max_time n with None => time | Some skipped => time_max time skipped end in
  let batch := nb_batch n in
  match nb_prev n with
  | Some prev =>
      b ← push_delete output key time (nb_builder n);
      let carry_entry :=
        if is_empty carry_entry
        then mk_CarryEntry (Some prev) (nb_prev_prev n) (Some key) (Some time) else carry_entry in
      if opt_eqb (Some prev) (carry_key carry_entry) then
        Ok (replace_time (replace_next carry_entry (nb_next n)) (Some adjusted_time), batch, b)
      else
        b ← (if is_empty carry_entry then Ok b
             else
               b ← push_carry input output carry_entry b;
               carry_next_key ← unwrap (carry_next carry_entry);
               if ord_ltb carry_next_key prev
               then push_prev_replace output carry_next_key (carry_key carry_entry) time b else Ok b);
        Ok (mk_CarryEntry (Some prev) (nb_prev_prev n) (nb_next n) (Some adjusted_time), batch, b)
  | None =>
      match carry_key carry_entry with
      | Some _ => Panic "sort internal error: predecessor of entry to delete is none"
      | None =>
          b ← push_delete output key time (nb_builder n);
          Ok (mk_CarryEntry None None (nb_next n) (Some time), batch, b)
      end
  end.

Definition handle_insert (in_instance : K → bool) (input : InputTrace K T) (output : OutputTrace K T)
    (batch : InputTrace K T) (b : Builder K T) (key : K) (time : T) (carry_entry : CarryEntry)
    : outcome unit (CarryEntry * InputTrace K T * Builder K T) :=
  n ← get_non_zero_prev_next in_instance input output batch b key time;
  b ← match nb_prev n with
      | Some prev =>
          b ← (if match carry_key carry_entry with Some _ => true | None => false end &&
                  negb (opt_eqb (carry_key carry_entry) (Some prev))
               then push_carry input output carry_entry (nb_builder n) else Ok (nb_builder n));
          b ← (if match carry_next carry_entry with Some _ => true | None => false end &&
                  opt_ltb (carry_next carry_entry) (Some prev)
               then
                 carry_next_key ← unwrap (carry_next carry_entry);
                 carry_time ← unwrap (carry_time carry_entry);
                 push_prev_replace output carry_next_key (carry_key carry_entry) carry_time b
               else Ok b);
          weight ← input_weight input prev;
          push_insert_replace output prev (nb_prev_prev n, Some key) time weight b
      | None =>
          match carry_key carry_entry with
          | Some _ => Panic "sort internal error: predecessor of entry to insert is none, but carry is some"
          | None => Ok (nb_builder n)
          end
      end;
  Ok (mk_CarryEntry (Some key) (nb_prev n) (nb_next n) (Some time), nb_batch n, b).

(** ** One instance, and the batch *)

(** The loop of [handle_one_instance]; every iteration takes a key off the
    batch, which [fuel] bounds. *)
Fixpoint instance_loop (fuel : nat) (in_instance : K → bool) (input : InputTrace K T) (output : OutputTrace K T)
    (batch : InputTrace K T) (b : Builder K T) (carry_entry : CarryEntry)
    : outcome unit (CarryEntry * InputTrace K T * Builder K T) :=
  match fuel, batch with
  | S fuel, (key, _) :: _ =>
      if in_instance key then
        let at_key := move_to_key_or_upper_bound input key in
        let is_weight_zero :=
          match at_key with (k, us) :: _ => negb (ord_eqb k key) || key_val_has_zero_weight us | [] => true end in
        time ← unwrap (match at_key with (_, us) :: _ => max_curr_time us | [] => None end);
        ' (carry_entry, batch, b) ←
          (if is_weight_zero then handle_delete in_instance input output batch b key time carry_entry
           else handle_insert in_instance input output batch b key time carry_entry);
        instance_loop fuel in_instance input output batch b carry_entry
      else Ok (carry_entry, batch, b)
  | _, _ => Ok (carry_entry, batch, b)
  end.
(** What [handle_one_instance] does with the last carried entry. *)
Definition finish_instance (input : InputTrace K T) (output : OutputTrace K T) (c : CarryEntry) (b : Builder K T)
    : outcome unit (Builder K T) :=
  if is_empty c then Ok b
  else
    b ← push_carry input output c b;
    match carry_next c with
    | Some key_to_fix => time ← unwrap (carry_time c); push_prev_replace output key_to_fix (carry_key c) time b
    | None => Ok b
    end.
Definition handle_one_instance (input : InputTrace K T) (output : OutputTrace K T) (batch : InputTrace K T) (b : Builder K T)
    : outcome unit (InputTrace K T * Builder K T) :=
  match batch with
  | [] => Panic "debug_assert!(self.key_valid(storage))"
  | (instance_representant, _) :: _ =>
      let in_instance := instance_filter instance_representant in
      ' (c, batch, b) ← instance_loop (length batch) in_instance input output batch b make_empty;
      b ← finish_instance input output c b;
      Ok (batch, b)
  end.
Fixpoint batch_loop (fuel : nat) (input : InputTrace K T) (output : OutputTrace K T) (batch : InputTrace K T) (b : Builder K T)
    : outcome unit (Builder K T) :=
  match fuel, batch with
  | S fuel, _ :: _ => ' (batch, b) ← handle_one_instance input output batch b; batch_loop fuel input output batch b
  | _, _ => Ok b
  end.
(** The operator's logic on the merged batches that arrived, given the input
    trace that already holds them and the output trace: the updates of the output
    batch, before they are sorted. *)
Definition add_prev_next_pointers (input : InputTrace K T) (output : OutputTrace K T) (batch : InputTrace K T)
    : outcome unit (Builder K T) :=
  batch_loop (length batch) input output (rewind_zero_weight_key_forward batch) [].
(** [SortingBatchBuilder::done]: sorts by key, value and time. *)
Definition sorting_batch_done (buff : Builder K T) : Builder K T := sort_by (λ a b, cmp (fst a) (fst b)) buff.
End prev_next.
