(* ===== verification/PrevNextProps.v ===== *)
(** Correctness of the sorting index: the updates that the operator emits turn
    the pointers of the keys present before a batch into those of the keys present
    after it, whatever the batch inserts and deletes. *)
From Stdlib Require Import ZArith Lia Bool.
From stdpp Require Import base list sets sorting strings.
From S2P Require Import Prelude Order PrevNext.
Open Scope Z_scope.

(** ** Weighted collections *)

Section total.
Context {K : Type} `{EqDecision K}.
Abbreviation Entry := (K * (option K * option K) * Z)%type.

(** The weight of a pair of a key and its pointers. *)
Fixpoint total (es : list Entry) (k : K) (v : option K * option K) : Z :=
  match es with
  | [] => 0
  | (k', v', w) :: es => (if decide (k' = k ∧ v' = v) then w else 0) + total es k v
  end.
Definition same_total (a b : list Entry) : Prop := ∀ k v, total a k v = total b k v.
Global Instance same_total_equiv : Equivalence same_total.
Proof.
  split; [by intros ? ??|intros ?? E ??; by rewrite E|intros ??? E1 E2 ??; by rewrite E1].
Qed.
Lemma total_app a b k v : total (a ++ b) k v = total a k v + total b k v.
Proof. induction a as [|[[k' v'] w] a IH]; simpl; [done|]. rewrite IH. lia. Qed.
Global Instance app_same_total : Proper (same_total ==> same_total ==> same_total) app.
Proof. intros a a' Ha b b' Hb k v. by rewrite !total_app, Ha, Hb. Qed.
Global Instance perm_same_total : subrelation (≡ₚ) same_total.
Proof.
  intros a b Hp k v. induction Hp as [|[[??]?] ? ? ? IH|[[??]?] [[??]?] ?|]; simpl; lia.
Qed.

Definition neg (l : list (K * (option K * option K))) : list Entry := map (λ kv, (kv, -1)) l.
Definition pos (l : list (K * (option K * option K))) : list Entry := map (λ kv, (kv, 1)) l.
Lemma neg_pos l : same_total (neg l ++ pos l) [].
Proof.
  intros k v. rewrite total_app. induction l as [|[k' v'] l IH]; simpl in *; [done|].
  destruct (decide (k' = k ∧ v' = v)); lia.
Qed.
Lemma neg_app a b : neg (a ++ b) = neg a ++ neg b.
Proof. apply map_app. Qed.
Lemma pos_app a b : pos (a ++ b) = pos a ++ pos b.
Proof. apply map_app. Qed.
End total.

(** ** Linked lists *)

Section lnk.
Context {K : Type} `{EqDecision K}.
Implicit Types (u v : list K) (p n : option K).

Definition hd_or u n : option K := match u with [] => n | x :: _ => Some x end.
Definition last_or p u : option K := match last u with Some x => Some x | None => p end.
(** The keys [u] with their neighbours, between [p] and [n]. *)
Fixpoint lnk p u n : list (K * (option K * option K)) :=
  match u with [] => [] | a :: u => (a, (p, hd_or u n)) :: lnk (Some a) u n end.
Lemma hd_or_app u v n : hd_or (u ++ v) n = hd_or u (hd_or v n).
Proof. by destruct u. Qed.
Lemma last_or_snoc p u a : last_or p (u ++ [a]) = Some a.
Proof. unfold last_or. by rewrite last_snoc. Qed.
Lemma last_or_app p u v : last_or p (u ++ v) = last_or (last_or p u) v.
Proof. unfold last_or. rewrite last_app. by destruct (last v). Qed.
Lemma last_or_cons p a u : last_or p (a :: u) = last_or (Some a) u.
Proof. unfold last_or. rewrite last_cons. by destruct (last u). Qed.
Lemma lnk_app p u v n : lnk p (u ++ v) n = lnk p u (hd_or v n) ++ lnk (last_or p u) v n.
Proof.
  revert p. induction u as [|a u IH]; intros p; simpl; [done|].
  rewrite hd_or_app, IH. by rewrite last_or_cons.
Qed.

(** Changing the neighbours of a block changes its ends only. *)
Lemma relink_one p0 p1 a n0 n1 :
  same_total (neg (lnk p0 [a] n0) ++ pos (lnk p1 [a] n1)) [(a, (p0, n0), -1); (a, (p1, n1), 1)].
Proof. done. Qed.
Lemma relink_many p0 p1 a m z n0 n1 :
  let h := hd_or (m ++ [z]) n0 in let g := last_or (Some a) m in
  same_total (neg (lnk p0 (a :: m ++ [z]) n0) ++ pos (lnk p1 (a :: m ++ [z]) n1))
    ([(a, (p0, h), -1); (a, (p1, h), 1)] ++ [(z, (g, n0), -1); (z, (g, n1), 1)]).
Proof.
  intros h g. simpl. rewrite !lnk_app. simpl.
  assert (Hh : hd_or (m ++ [z]) n1 = h) by (unfold h; by destruct m). rewrite Hh. fold h g.
  rewrite neg_app, pos_app. set (l := lnk (Some a) m (Some z)).
  trans ([(a, (p0, h), -1); (a, (p1, h), 1)] ++ [(z, (g, n0), -1); (z, (g, n1), 1)] ++ (neg l ++ pos l)).
  - apply perm_same_total. simpl. solve_Permutation.
  - by rewrite neg_pos, app_nil_r.
Qed.
End lnk.

(** ** Cursors *)

Section cursors.
Context {K T : Type} `{OrdLaws K, EqDecision K}.
Context (cmp_eq : ∀ a b : K, cmp a b = Eq → a = b).
Implicit Types (k : K).

Definition klt (a b : K) : Prop := cmp a b = Lt.
Lemma klt_irrefl a : ¬ klt a a.
Proof. unfold klt. by rewrite cmp_refl. Qed.
Lemma klt_trans a b c : klt a b → klt b c → klt a c.
Proof. intros Hab Hbc. eapply cmp_lt_le_trans; [done|]. unfold ord_le. by rewrite Hbc. Qed.
Lemma klt_gt a b : klt a b → cmp b a = Gt.
Proof. unfold klt. intros E. by rewrite cmp_antisym, E. Qed.
Lemma klt_ne a b : klt a b → a ≠ b.
Proof. intros E ->. by apply klt_irrefl in E. Qed.
Lemma ord_eqb_key (a b : K) : ord_eqb a b = bool_decide (a = b).
Proof.
  unfold ord_eqb. destruct (cmp a b) eqn:E; case_bool_decide as He; subst; try done;
    rewrite ?cmp_refl in E; try done. by apply cmp_eq in E.
Qed.
Lemma opt_eqb_key (a b : option K) : opt_eqb a b = bool_decide (a = b).
Proof.
  destruct a as [a|], b as [b|]; simpl; try done. rewrite ord_eqb_key.
  case_bool_decide; case_bool_decide; try done; congruence.
Qed.

Definition sorted_keys {V} (l : list (K * V)) : Prop := StronglySorted klt (map fst l).
Lemma sorted_keys_split {V} (L R : list (K * V)) k v : sorted_keys (L ++ (k, v) :: R) →
  Forall (λ x, klt (fst x) k) L ∧ Forall (λ x, klt k (fst x)) R.
Proof.
  unfold sorted_keys. induction L as [|[k0 v0] L IH]; simpl; intros Hs; inversion Hs as [|?? Hs' Hf]; subst.
  - split; [constructor|]. by rewrite List.Forall_map in Hf.
  - destruct (IH Hs') as [HL HR]. split; [|done]. constructor; [|done]. simpl.
    rewrite map_app in Hf. apply Forall_app in Hf as [_ Hf]. by apply Forall_cons in Hf as [? _].
Qed.
Lemma seek_split {V} (L R : list (K * V)) k v : Forall (λ x, klt (fst x) k) L →
  move_to_key_or_upper_bound (L ++ (k, v) :: R) k = (k, v) :: R.
Proof.
  induction 1 as [|[k0 v0] L Hk _ IH]; simpl in *.
  - unfold ord_ltb. by rewrite cmp_refl.
  - unfold ord_ltb. by rewrite Hk.
Qed.
Lemma lower_split {V} (L R : list (K * V)) k v : Forall (λ x, klt (fst x) k) L → Forall (λ x, klt k (fst x)) R →
  move_to_key_or_lower_bound (L ++ (k, v) :: R) k = (k, v) :: rev L.
Proof.
  intros HL HR. unfold move_to_key_or_lower_bound. rewrite List.filter_app. simpl.
  unfold ord_leb at 2. rewrite cmp_refl.
  assert (List.filter (λ kv, ord_leb (fst kv) k) R = []) as ->.
  { induction HR as [|[k0 v0] R Hk _ IH]; simpl in *; [done|]. unfold ord_leb at 1. by rewrite (klt_gt _ _ Hk). }
  assert (List.filter (λ kv, ord_leb (fst kv) k) L = L) as ->.
  { induction HL as [|[k0 v0] L Hk _ IH]; simpl in *; [done|]. unfold ord_leb at 1. rewrite Hk. by f_equal. }
  by rewrite rev_app_distr.
Qed.
Lemma klt_nodup (l : list K) : StronglySorted klt l → NoDup l.
Proof.
  induction 1 as [|k l Hs IH Hf]; constructor; [|done].
  rewrite Forall_forall in Hf. intros Hin. by eapply klt_irrefl, (Hf k).
Qed.
Lemma sorted_filter (P : K → bool) (l : list K) : StronglySorted klt l → StronglySorted klt (List.filter P l).
Proof.
  induction 1 as [|k l Hl IH Hfa]; simpl; [constructor|]. destruct (P k); [|done]. constructor; [done|].
  rewrite Forall_forall in Hfa |- *. intros x [Hx _]%list_elem_of_In%filter_In. by apply Hfa, list_elem_of_In.
Qed.
(** A seek to an absent key ends elsewhere. *)
Lemma seek_absent {V} (l : list (K * V)) k : k ∉ map fst l →
  match move_to_key_or_upper_bound l k with (k', _) :: _ => k' ≠ k | [] => True end.
Proof.
  induction l as [|[k0 v0] l IH]; simpl; [done|]. intros Hk. apply not_elem_of_cons in Hk as [Hne Hk].
  destruct (ord_ltb k0 k); [by apply IH|congruence].
Qed.

(** ** Weights of a trace *)

Abbreviation Entry := (K * (option K * option K) * Z)%type.
Implicit Types (output : OutputTrace K T).
Definition flatten output : list Entry :=
  flat_map (λ kv, flat_map (λ v, map (λ u, (fst kv, fst v, snd u)) (snd v)) (snd kv)) output.
Definition strip (b : Builder K T) : list Entry := map (λ u, let '(k, v, t, w) := u in (k, v, w)) b.
Lemma strip_app b1 b2 : strip (b1 ++ b2) = strip b1 ++ strip b2.
Proof. apply map_app. Qed.

Definition weight (us : Updates T) : Z := match key_val_total_weight us with Some w => w | None => 0 end.
Lemma total_weight_fold (us : Updates T) ret :
  foldl (λ ret u, match ret with None => Some (snd u) | Some val => Some (val + snd u) end) ret us =
  match ret, us with None, [] => None
  | _, _ => Some (match ret with Some r => r | None => 0 end + foldr (λ u s, snd u + s) 0 us) end.
Proof.
  revert ret. induction us as [|[t w] us IH]; intros ret; simpl; [destruct ret; f_equal; lia|].
  rewrite IH. destruct ret as [r|]; simpl; destruct us; simpl; f_equal; lia.
Qed.
Lemma weight_sum us : weight us = foldr (λ u s, snd u + s) 0 us.
Proof. unfold weight, key_val_total_weight. rewrite total_weight_fold. by destruct us. Qed.
Lemma zero_weight_spec us : key_val_has_zero_weight us = (weight us =? 0).
Proof. unfold key_val_has_zero_weight, weight. by destruct (key_val_total_weight us). Qed.
Lemma key_zero_fold (vals : list (Pointers K * Updates T)) sum :
  match
    foldl (λ sum v, match sum, key_val_total_weight (snd v) with
      | _, None => sum | None, Some val => Some val | Some val1, Some val2 => Some (val1 + val2) end) sum vals
  with None => 0 | Some w => w end =
  match sum with None => 0 | Some w => w end + foldr (λ v s, weight (snd v) + s) 0 vals.
Proof.
  revert sum. induction vals as [|[p us] vals IH]; intros sum; simpl; [lia|].
  rewrite IH. unfold weight at 2. destruct sum, (key_val_total_weight us); lia.
Qed.
Lemma key_zero_spec (vals : list (Pointers K * Updates T)) :
  key_has_zero_weight vals = (foldr (λ v s, weight (snd v) + s) 0 vals =? 0).
Proof.
  unfold key_has_zero_weight. pose proof (key_zero_fold vals None) as Hf. rewrite Z.add_0_l in Hf. rewrite <- Hf.
  by destruct (foldl _ None vals).
Qed.

Lemma total_flatten_vals k k' (vals : list (Pointers K * Updates T)) v :
  total (flat_map (λ v, map (λ u, (k', fst v, snd u)) (snd v)) vals) k v =
  if decide (k' = k) then foldr (λ w s, (if decide (fst w = v) then weight (snd w) else 0) + s) 0 vals else 0.
Proof.
  induction vals as [|[p us] vals IH]; simpl; [by destruct (decide (k' = k))|]. rewrite total_app, IH.
  assert (Hm : total (map (λ u, (k', p, snd u)) us) k v = if decide (k' = k ∧ p = v) then weight us else 0).
  { rewrite weight_sum. clear. induction us as [|[t w] us IH]; simpl; [by destruct (decide _)|].
    rewrite IH. destruct (decide (k' = k ∧ p = v)); lia. }
  rewrite Hm. destruct (decide (k' = k)), (decide (p = v)), (decide (k' = k ∧ p = v)); naive_solver lia.
Qed.
Lemma total_flatten_absent output k v : k ∉ map fst output → total (flatten output) k v = 0.
Proof.
  induction output as [|[k' vals] output IH]; simpl; [done|]. intros [Hne Hk]%not_elem_of_cons.
  rewrite total_app, total_flatten_vals, IH by done. by rewrite decide_False by congruence.
Qed.
Lemma total_flatten_present output L R k vals v : output = L ++ (k, vals) :: R → sorted_keys output →
  total (flatten output) k v = foldr (λ w s, (if decide (fst w = v) then weight (snd w) else 0) + s) 0 vals.
Proof.
  intros -> Hs. destruct (sorted_keys_split _ _ _ _ Hs) as [HL HR].
  unfold flatten. rewrite flat_map_app. simpl. rewrite !total_app, total_flatten_vals, decide_True by done.
  fold (flatten L) (flatten R). rewrite !total_flatten_absent; [lia|..].
  - intros ([k' ?] & -> & Hin)%list_elem_of_fmap. rewrite Forall_forall in HR. by eapply klt_irrefl, (HR _ Hin).
  - intros ([k' ?] & -> & Hin)%list_elem_of_fmap. rewrite Forall_forall in HL. by eapply klt_irrefl, (HL _ Hin).
Qed.

(** ** Reading the output trace *)

(** At [k] the output holds [v] once and nothing else, or nothing at all. *)
Definition holds output k (o : option (Pointers K)) : Prop :=
  ∀ v, total (flatten output) k v = match o with Some p => if decide (p = v) then 1 else 0 | None => 0 end.
Definition output_wf output : Prop := sorted_keys output ∧ Forall (λ kv, NoDup (map fst (snd kv))) output.

Lemma output_split output k : k ∈ map fst output → ∃ L vals R, output = L ++ (k, vals) :: R.
Proof. intros ([k' vals] & -> & (L & R & ->)%list_elem_of_split)%list_elem_of_fmap. by eexists _, _, _. Qed.
Abbreviation Vals := (list (Pointers K * Updates T)).
Definition val_weight (vals : Vals) v : Z :=
  foldr (λ w s, (if decide (fst w = v) then weight (snd w) else 0) + s) 0 vals.
Definition key_weight (vals : Vals) : Z := foldr (λ v s, weight (snd v) + s) 0 vals.
Lemma val_weight_absent vals v : v ∉ map fst vals → val_weight vals v = 0.
Proof.
  induction vals as [|[q us] vals IH]; simpl; [done|]. intros [Hne Hv]%not_elem_of_cons.
  rewrite decide_False, IH by (done || congruence). done.
Qed.
(** Weights of the first value and of the others. *)
Lemma val_weight_cons q us vals v : q ∉ map fst vals →
  val_weight ((q, us) :: vals) v = if decide (q = v) then weight us else val_weight vals v.
Proof.
  intros Hq. simpl. destruct (decide (q = v)) as [->|]; [|done]. rewrite val_weight_absent by done. lia.
Qed.
Lemma no_value vals : NoDup (map fst vals) → (∀ v, val_weight vals v = 0) → key_weight vals = 0.
Proof.
  induction vals as [|[q us] vals IH]; [done|]. intros [Hq Hnd]%NoDup_cons Hv.
  setoid_rewrite val_weight_cons in Hv; [|done]. simpl.
  pose proof (Hv q) as Hvq. rewrite decide_True in Hvq by done.
  rewrite IH; [lia|done|]. intros v. specialize (Hv v).
  destruct (decide (q = v)) as [->|]; [by apply val_weight_absent|done].
Qed.
Lemma single_value vals p : NoDup (map fst vals) → (∀ v, val_weight vals v = if decide (p = v) then 1 else 0) →
  (∃ us, rewind_zero_weight_val_forward vals = Some (p, us) ∧ weight us = 1) ∧ key_weight vals = 1.
Proof.
  induction vals as [|[q us] vals IH]; intros Hnd Hv; [specialize (Hv p); by rewrite decide_True in Hv|].
  apply NoDup_cons in Hnd as [Hq Hnd]. setoid_rewrite val_weight_cons in Hv; [|done].
  pose proof (Hv q) as Hvq. rewrite decide_True in Hvq by done. simpl. rewrite zero_weight_spec, Hvq.
  destruct (decide (p = q)) as [->|Hpq]; simpl.
  - split; [by exists us|]. rewrite no_value; [done..|]. intros v. specialize (Hv v).
    destruct (decide (q = v)) as [->|]; [by apply val_weight_absent|done].
  - apply IH; [done|]. intros v. specialize (Hv v). destruct (decide (q = v)) as [->|]; [|done].
    rewrite val_weight_absent by done. by rewrite decide_False.
Qed.

(** What the cursor of the output reads at [k]. *)
Lemma read_present output k p : output_wf output → holds output k (Some p) →
  output_val output k = Ok (p, 1) ∧
  ∃ vals R, move_to_key_or_upper_bound output k = (k, vals) :: R ∧ key_has_zero_weight vals = false.
Proof.
  intros [Hs Hnd] Hh. destruct (decide (k ∈ map fst output)) as [Hin|Hin].
  2: { specialize (Hh p). rewrite total_flatten_absent, decide_True in Hh by done. done. }
  destruct (output_split _ _ Hin) as (L & vals & R & Ho).
  assert (Hvals : NoDup (map fst vals)).
  { rewrite Ho in Hnd. by apply Forall_app in Hnd as [_ [? _]%Forall_cons]. }
  destruct (single_value vals p Hvals) as ((us & Hrw & Hw) & Hk).
  { intros v. unfold val_weight. rewrite <- (total_flatten_present _ _ _ _ _ _ Ho Hs). apply Hh. }
  assert (Hseek : move_to_key_or_upper_bound output k = (k, vals) :: R).
  { rewrite Ho. apply seek_split. rewrite Ho in Hs. by apply sorted_keys_split in Hs as [? _]. }
  split.
  - unfold output_val. rewrite Hseek, Hrw. unfold weight in Hw.
    destruct (key_val_total_weight us); [by subst|done].
  - exists vals, R. split; [done|]. rewrite key_zero_spec. fold (key_weight vals). by rewrite Hk.
Qed.
Lemma read_absent output k : output_wf output → holds output k None →
  match move_to_key_or_upper_bound output k with
  | (k', vals) :: _ => k' ≠ k ∨ key_has_zero_weight vals = true
  | [] => True
  end.
Proof.
  intros [Hs Hnd] Hh. destruct (decide (k ∈ map fst output)) as [Hin|Hin].
  2: { pose proof (seek_absent _ _ Hin). destruct (move_to_key_or_upper_bound output k) as [|[]]; auto. }
  destruct (output_split _ _ Hin) as (L & vals & R & Ho).
  rewrite Ho, seek_split; [|rewrite Ho in Hs; by apply sorted_keys_split in Hs as [? _]].
  right. rewrite key_zero_spec. fold (key_weight vals). rewrite no_value; [done|..].
  - rewrite Ho in Hnd. by apply Forall_app in Hnd as [_ [? _]%Forall_cons].
  - intros v. unfold val_weight. rewrite <- (total_flatten_present _ _ _ _ _ _ Ho Hs). apply Hh.
Qed.
End cursors.

(** ** One instance *)

Section instance.
Context {K T : Type} `{OrdLaws K, Ord T, EqDecision K}.
Context (cmp_eq : ∀ a b : K, cmp a b = Eq → a = b).
(** The input is the block [I] of the instance [i] with other keys around it;
    [bef] and [aft] say which keys are present before and after the batch. *)
Context (A I C : InputTrace K T) (i bef aft : K → bool) (output : OutputTrace K T).
Context (p0 : K → Pointers K) (Pt : T → Prop).
Abbreviation keys := (map (@fst K (Updates T))).
Implicit Types (X Y Z U M N : InputTrace K T) (b : Builder K T).
Definition flt (P : K → bool) (X : InputTrace K T) : list K := List.filter P (keys X).
Definition changed (k : K) : bool := xorb (bef k) (aft k).

Context (Hsorted : sorted_keys (A ++ I ++ C)).
Context (HiI : ∀ k, k ∈ keys I → i k = true) (HiA : ∀ k, k ∈ keys A → i k = false)
  (HiC : ∀ k, k ∈ keys C → i k = false).
Context (Hcell : ∀ k us, (k, us) ∈ A ++ I ++ C → key_val_total_weight us = Some (if aft k then 1 else 0)).
Context (Hwf : output_wf output)
  (Hholds : ∀ k, k ∈ keys I → holds output k (if bef k then Some (p0 k) else None)).
Context (Hp0 : ∀ X k us Y, I = X ++ (k, us) :: Y → p0 k = (last_or None (flt bef X), hd_or (flt bef Y) None)).
Context (Htime : ∀ k us, (k, us) ∈ I → changed k = true → ∃ t, max_curr_time us = Some t ∧ Pt t)
  (Hmax : ∀ t1 t2, Pt t1 → Pt t2 → Pt (time_max t1 t2)).

Lemma flt_app P X Y : flt P (X ++ Y) = flt P X ++ flt P Y.
Proof. unfold flt. by rewrite map_app, List.filter_app. Qed.
Lemma flt_cons P k us Y : flt P ((k, us) :: Y) = if P k then k :: flt P Y else flt P Y.
Proof. done. Qed.
Lemma flt_one P k us : flt P [(k, us)] = if P k then [k] else [].
Proof. done. Qed.
Lemma zero_iff k us : (k, us) ∈ A ++ I ++ C → key_val_has_zero_weight us = negb (aft k).
Proof. intros Hk. unfold key_val_has_zero_weight. rewrite (Hcell _ _ Hk). by destruct (aft k). Qed.

(** *** The batch *)

(** The rest of the batch holds the changed keys among [ks]. *)
Definition brel (batch : InputTrace K T) (ks : list K) : Prop :=
  map (λ ku, (fst ku, key_val_total_weight (snd ku)))
      (List.filter (λ ku, negb (key_val_has_zero_weight (snd ku))) batch) =
  map (λ k, (k, Some (if aft k then 1 else -1))) (List.filter changed ks).
Definition norm (batch : InputTrace K T) : Prop :=
  match batch with (_, us) :: _ => key_val_has_zero_weight us = false | [] => True end.
Lemma rewind_norm batch : norm (rewind_zero_weight_key_forward batch).
Proof. induction batch as [|[k us] batch IH]; simpl; [done|]. by destruct (key_val_has_zero_weight us) eqn:E. Qed.
Lemma brel_rewind batch ks : brel batch ks → brel (rewind_zero_weight_key_forward batch) ks.
Proof.
  unfold brel. intros <-. induction batch as [|[k us] batch IH]; simpl; [done|].
  destruct (key_val_has_zero_weight us) eqn:E; simpl; [done|]. by rewrite E.
Qed.
Lemma brel_unchanged batch ks1 ks2 : List.filter changed ks1 = [] → brel batch (ks1 ++ ks2) → brel batch ks2.
Proof. unfold brel. rewrite List.filter_app. by intros ->. Qed.
Lemma brel_changed batch k ks : changed k = true → norm batch → brel batch (k :: ks) →
  ∃ us batch', batch = (k, us) :: batch' ∧ key_val_total_weight us = Some (if aft k then 1 else -1) ∧ brel batch' ks.
Proof.
  unfold brel. intros Hk Hn Hb. simpl in Hb. rewrite Hk in Hb. destruct batch as [|[k' us] batch]; [done|].
  simpl in *. rewrite Hn in Hb. simpl in Hb. injection Hb as -> Hw Hb. by exists us, batch.
Qed.
Lemma brel_head k us batch ks : norm ((k, us) :: batch) → brel ((k, us) :: batch) ks →
  ∃ ks1 ks2, ks = ks1 ++ k :: ks2 ∧ List.filter changed ks1 = [] ∧ changed k = true.
Proof.
  unfold brel. simpl. intros ->. simpl. induction ks as [|k' ks IH]; simpl; [done|].
  destruct (changed k') eqn:Hk'.
  - intros [= <- _ _]. by exists [], ks.
  - intros Hb. destruct (IH Hb) as (U & Y & -> & HU & Hk). exists (k' :: U), Y. simpl. by rewrite Hk'.
Qed.

(** *** What is pushed *)

Definition time_of (u : K * Pointers K * T * Z) : T := snd (fst u).
(** [b2] extends [b1] by updates with totals [L] at times in [Pt]. *)
Definition extends (b1 b2 : Builder K T) (L : list (K * Pointers K * Z)) : Prop :=
  ∃ e, b2 = b1 ++ e ∧ same_total (strip e) L ∧ Forall (λ u, Pt (time_of u)) e.
Lemma extends_refl b : extends b b [].
Proof. exists []. split_and!; [by rewrite app_nil_r|done|constructor]. Qed.
Lemma extends_trans b1 b2 b3 L1 L2 : extends b1 b2 L1 → extends b2 b3 L2 → extends b1 b3 (L1 ++ L2).
Proof.
  intros (e1 & -> & HL1 & Hf1) (e2 & -> & HL2 & Hf2). exists (e1 ++ e2).
  split_and!; [by rewrite app_assoc|by rewrite strip_app, HL1, HL2|by apply Forall_app].
Qed.
Global Instance extends_proper b1 b2 : Proper (same_total ==> iff) (extends b1 b2).
Proof. intros L L' E. split; intros (e & ? & HL & ?); exists e; split_and!; try done; by rewrite HL. Qed.

Definition removal (k : K) : list (K * Pointers K * Z) := if bef k then [(k, p0 k, -1)] else [].
Lemma push_insert_replace_ok k v t w b : k ∈ keys I → Pt t → w = 1 →
  ∃ b', push_insert_replace output k v t w b = Ok b' ∧ extends b b' (removal k ++ [(k, v, 1)]).
Proof.
  intros Hk Ht ->. unfold push_insert_replace, removal. specialize (Hholds k Hk).
  destruct (bef k) eqn:Hb.
  - destruct (read_present _ _ _ Hwf Hholds) as (Hv & vals & R & -> & ->).
    rewrite (ord_eqb_key cmp_eq), bool_decide_true by done. simpl. rewrite Hv. simpl.
    eexists. split; [done|]. exists [(k, p0 k, t, -1); (k, v, t, 1)]. split_and!; [by rewrite <- app_assoc|done|].
    by repeat constructor.
  - pose proof (read_absent _ _ Hwf Hholds) as Ha.
    exists (b ++ [(k, v, t, 1)]). split.
    + destruct (move_to_key_or_upper_bound output k) as [|[k' vals] R]; [done|].
      rewrite (ord_eqb_key cmp_eq). destruct Ha as [Hne| ->]; [rewrite bool_decide_false by done|rewrite andb_false_r]; done.
    + exists [(k, v, t, 1)]. split_and!; [done|done|by repeat constructor].
Qed.
Lemma output_val_ok k : k ∈ keys I → bef k = true → output_val output k = Ok (p0 k, 1) ∧ key_present output k = true.
Proof.
  intros Hk Hb. specialize (Hholds k Hk). rewrite Hb in Hholds.
  destruct (read_present _ _ _ Hwf Hholds) as (Hv & vals & R & E & _). split; [done|].
  unfold key_present. rewrite E. by rewrite (ord_eqb_key cmp_eq), bool_decide_true.
Qed.
Lemma push_prev_replace_ok k np t b : k ∈ keys I → bef k = true → Pt t →
  ∃ b', push_prev_replace output k np t b = Ok b' ∧
    extends b b' [(k, p0 k, -1); (k, (np, snd (p0 k)), 1)].
Proof.
  intros Hk Hb Ht. unfold push_prev_replace. rewrite (proj1 (output_val_ok _ Hk Hb)). simpl.
  eexists. split; [done|]. eexists. split_and!; [done|done|by repeat constructor].
Qed.
Lemma push_delete_ok k t b : k ∈ keys I → bef k = true → Pt t →
  ∃ b', push_delete output k t b = Ok b' ∧ extends b b' [(k, p0 k, -1)].
Proof.
  intros Hk Hb Ht. unfold push_delete. rewrite (proj1 (output_val_ok _ Hk Hb)). simpl.
  eexists. split; [done|]. eexists. split_and!; [done|done|by repeat constructor].
Qed.

(** *** Neighbours *)

Lemma input_split X k us Y : I = X ++ (k, us) :: Y →
  A ++ I ++ C = (A ++ X) ++ (k, us) :: (Y ++ C) ∧
  Forall (λ x, klt (fst x) k) (A ++ X) ∧ Forall (λ x, klt k (fst x)) (Y ++ C).
Proof.
  intros ->. assert (E : A ++ (X ++ (k, us) :: Y) ++ C = (A ++ X) ++ (k, us) :: (Y ++ C)) by by rewrite <- !app_assoc.
  split; [done|]. pose proof Hsorted as Hs. rewrite E in Hs. by apply sorted_keys_split in Hs.
Qed.
Lemma first_non_zero_last M : (∀ ku, ku ∈ M → ku ∈ A ++ I ++ C) → first_non_zero (rev M) = last (flt aft M).
Proof.
  induction M as [|[k us] M IH] using rev_ind; intros HM; [done|].
  rewrite rev_app_distr, flt_app. simpl. rewrite (zero_iff k us) by (apply HM; set_solver).
  rewrite flt_one. destruct (aft k); simpl; [by rewrite last_snoc|].
  rewrite app_nil_r. apply IH. intros ku ?. apply HM. set_solver.
Qed.
Lemma find_prev M k us R : A ++ I ++ C = M ++ (k, us) :: R → find_non_zero_prev (A ++ I ++ C) k = last (flt aft M).
Proof.
  intros E. unfold find_non_zero_prev. pose proof Hsorted as Hs. rewrite E in Hs |- *.
  apply sorted_keys_split in Hs as [HM HR]. rewrite lower_split by done. simpl.
  apply first_non_zero_last. rewrite E. set_solver.
Qed.
Lemma filter_prev M X : M = A ++ X → (∀ k, k ∈ keys X → k ∈ keys I) →
  other_instance_to_none i (last (flt aft M)) = last_or None (flt aft X).
Proof.
  intros -> HX. rewrite flt_app. unfold last_or. rewrite last_app.
  destruct (last (flt aft X)) as [x|] eqn:E; simpl.
  - rewrite HiI; [done|]. apply HX. apply last_Some_elem_of in E. unfold flt in E.
    by apply list_elem_of_In, filter_In in E as [E%list_elem_of_In _].
  - destruct (last (flt aft A)) as [a|] eqn:Ea; simpl; [|done]. rewrite HiA; [done|].
    apply last_Some_elem_of in Ea. unfold flt in Ea. by apply list_elem_of_In, filter_In in Ea as [Ea%list_elem_of_In _].
Qed.
(** The key before the last one. *)
Lemma split_last P X p : last (flt P X) = Some p →
  ∃ M us N, X = M ++ (p, us) :: N ∧ flt P N = [] ∧ flt P X = flt P M ++ [p].
Proof.
  induction X as [|[k us] X IH] using rev_ind; [done|]. rewrite flt_app, flt_one.
  destruct (P k) eqn:HP; simpl.
  - rewrite last_snoc. intros [= <-]. exists X, us, []. by rewrite ?flt_app.
  - rewrite app_nil_r. intros Hl. destruct (IH Hl) as (M & us' & N & -> & HN & E).
    exists M, us', (N ++ [(k, us)]). rewrite <- app_assoc. split_and!; [done| |done].
    by rewrite flt_app, HN, flt_one, HP.
Qed.

Lemma keys_in X Y k : I = X ++ Y → k ∈ keys X ∨ k ∈ keys Y → k ∈ keys I.
Proof. intros ->. rewrite map_app, elem_of_app. done. Qed.
Lemma flt_in P X k : k ∈ flt P X → k ∈ keys X ∧ P k = true.
Proof. unfold flt. by intros [?%list_elem_of_In ?]%list_elem_of_In%filter_In. Qed.
Lemma keys_elem X k us Y : k ∈ keys (X ++ (k, us) :: Y).
Proof. rewrite map_app. apply elem_of_app. right. apply list_elem_of_here. Qed.

Definition prev_of X : option K := last_or None (flt aft X).
Definition prev_prev_of X : option K := last_or None (removelast (flt aft X)).
Lemma prev_ok X k us Y : I = X ++ (k, us) :: Y →
  other_instance_to_none i (find_non_zero_prev (A ++ I ++ C) k) = prev_of X ∧
  other_instance_to_none i (match find_non_zero_prev (A ++ I ++ C) k with
    | Some p => find_non_zero_prev (A ++ I ++ C) p | None => None end) = prev_prev_of X.
Proof.
  intros HI. destruct (input_split _ _ _ _ HI) as (E & _).
  rewrite (find_prev _ _ _ _ E).
  assert (HX : ∀ x, x ∈ keys X → x ∈ keys I) by (intros; eapply keys_in; [done|by left]).
  split; [by apply (filter_prev (A ++ X) X)|]. unfold prev_prev_of. rewrite flt_app, last_app.
  destruct (last (flt aft X)) as [p|] eqn:Hl.
  - destruct (split_last _ _ _ Hl) as (M & us' & N & -> & HN & EX).
    rewrite (find_prev (A ++ M) p us' (N ++ (k, us) :: Y ++ C)); [|by rewrite HI, <- !app_assoc].
    rewrite EX, removelast_last. apply (filter_prev (A ++ M) M); [done|].
    intros x Hx. apply HX. rewrite map_app. set_solver.
  - apply last_None in Hl. rewrite Hl. simpl. destruct (last (flt aft A)) as [p|] eqn:Ha; [|done].
    destruct (split_last _ _ _ Ha) as (M & us' & N & EA & HN & EX).
    rewrite (find_prev M p us' (N ++ I ++ C)); [|by rewrite EA, <- !app_assoc].
    destruct (last (flt aft M)) as [q|] eqn:Hq; [|done]. simpl. rewrite HiA; [done|].
    apply last_Some_elem_of, flt_in in Hq as [Hq _]. rewrite EA, map_app. set_solver.
Qed.

Definition live_head Y : Prop := match Y with [] => True | (k, _) :: _ => aft k = true end.
Definition next_of Y : option K := hd_or (flt aft Y) None.
Definition removals X : list (K * Pointers K * Z) := neg (map (λ k, (k, p0 k)) (flt bef X)).
Lemma removals_app X Y : removals (X ++ Y) = removals X ++ removals Y.
Proof. unfold removals. by rewrite flt_app, map_app, neg_app. Qed.
Lemma removals_one k us : removals [(k, us)] = removal k.
Proof. unfold removals, removal. rewrite flt_one. by destruct (bef k). Qed.

Lemma keys_nodup X k us Y : I = X ++ (k, us) :: Y → (k ∉ keys X) ∧ (k ∉ keys (Y ++ C)).
Proof.
  intros HI. destruct (input_split _ _ _ _ HI) as (_ & HX & HY). apply Forall_app in HX as [_ HX].
  rewrite Forall_forall in HX, HY. split; intros ([k' us'] & -> & Hin)%list_elem_of_fmap.
  - by eapply klt_irrefl, (HX _ Hin).
  - by eapply klt_irrefl, (HY _ Hin).
Qed.

(** The deleted keys after the current one, up to the next present key. *)
Lemma process_loop_ok Y : ∀ X batch m b, I = X ++ Y → brel batch (keys (Y ++ C)) → norm batch → Pt m →
  ∃ stop m' batch' b' Z Y', process_loop i output (Y ++ C) batch (Some m) b = Ok (stop, Some m', batch', b') ∧
    Y = Z ++ Y' ∧ flt aft Z = [] ∧ live_head Y' ∧ other_instance_to_none i stop = next_of Y' ∧
    brel batch' (keys (Y' ++ C)) ∧ norm batch' ∧ Pt m' ∧ extends b b' (removals Z).
Proof.
  induction Y as [|[k us] Y IH]; intros X batch m b HI Hb Hn Hm.
  { exists (match C with (k, _) :: _ => Some k | [] => None end), m, batch, b, [], [].
    split_and!; try done; [|destruct C as [|[k us] C']; simpl; [done|]|apply extends_refl].
    - simpl. destruct C as [|[k us] C']; simpl; [done|]. by rewrite HiC by apply list_elem_of_here.
    - by rewrite HiC by apply list_elem_of_here. }
  assert (Hk : k ∈ keys I) by (rewrite HI; apply keys_elem).
  assert (Hz : key_val_has_zero_weight us = negb (aft k)) by (apply zero_iff; rewrite HI; set_solver).
  assert (HI' : I = (X ++ [(k, us)]) ++ Y) by by rewrite <- app_assoc.
  simpl. rewrite (HiI _ Hk), Hz. simpl. destruct (aft k) eqn:Ha; simpl.
  { exists (Some k), m, batch, b, [], ((k, us) :: Y). unfold next_of. simpl. rewrite (HiI _ Hk), flt_cons, Ha.
    split_and!; try done. apply extends_refl. }
  destruct (changed k) eqn:Hc.
  - assert (Hbef : bef k = true) by (unfold changed in Hc; rewrite Ha in Hc; by destruct (bef k)).
    destruct (brel_changed batch k (keys (Y ++ C)) Hc Hn Hb) as (bus & batch' & -> & Hw & Hb').
    rewrite (HiI _ Hk), (ord_eqb_key cmp_eq), bool_decide_true by done. simpl.
    destruct (output_val_ok _ Hk Hbef) as [Hv Hpres]. rewrite Hpres, Hv. simpl.
    destruct (Htime k us) as (t & Ht & HPt); [rewrite HI; set_solver|done|]. rewrite Ht, Hw, Ha. simpl.
    destruct (IH (X ++ [(k, us)]) (rewind_zero_weight_key_forward batch') (time_max m t)
      (b ++ [(k, p0 k, time_max m t, -1)]) HI' (brel_rewind _ _ Hb') (rewind_norm _) (Hmax _ _ Hm HPt))
      as (stop & m' & batch2 & b' & Z & Y' & Hp & -> & HZ & Hl & Hst & Hb2 & Hn2 & Hm' & He).
    exists stop, m', batch2, b', ((k, us) :: Z), Y'. rewrite Hp.
    split_and!; try done; [by rewrite flt_cons, Ha|].
    change ((k, us) :: Z) with ([(k, us)] ++ Z). rewrite removals_app, removals_one. eapply extends_trans; [|done].
    unfold removal. rewrite Hbef. eexists. split_and!; [done|done|]. repeat constructor. by apply Hmax.
  - assert (Hbef : bef k = false) by (unfold changed in Hc; rewrite Ha in Hc; by destruct (bef k)).
    assert (Hb' : brel batch (keys (Y ++ C))).
    { apply (brel_unchanged batch [k]); [simpl; by rewrite Hc|done]. }
    destruct (IH (X ++ [(k, us)]) batch m b HI' Hb' Hn Hm)
      as (stop & m' & batch2 & b' & Z & Y' & Hp & -> & HZ & Hl & Hst & Hb2 & Hn2 & Hm' & He).
    exists stop, m', batch2, b', ((k, us) :: Z), Y'. split_and!; try done.
    + destruct batch as [|[bk bus] batch]; [done|]. destruct (brel_head _ _ _ _ Hn Hb') as (U & W & HU & _).
      rewrite (ord_eqb_key cmp_eq), bool_decide_false; [by rewrite andb_false_r|].
      intros ->. destruct (keys_nodup _ _ _ _ HI) as [_ Hnin]. apply Hnin. rewrite HU. set_solver.
    + by rewrite flt_cons, Ha.
    + change ((k, us) :: Z) with ([(k, us)] ++ Z). rewrite removals_app, removals_one.
      unfold removal. by rewrite Hbef.
Qed.
Lemma neighbours_ok X k us Y bus batch b t : I = X ++ (k, us) :: Y → brel batch (keys (Y ++ C)) → Pt t →
  ∃ n Z Y' m, get_non_zero_prev_next i (A ++ I ++ C) output ((k, bus) :: batch) b k t = Ok n ∧
    Y = Z ++ Y' ∧ flt aft Z = [] ∧ live_head Y' ∧
    nb_prev n = prev_of X ∧ nb_prev_prev n = prev_prev_of X ∧ nb_next n = next_of Y' ∧
    nb_max_time n = Some m ∧ Pt m ∧ brel (nb_batch n) (keys (Y' ++ C)) ∧ norm (nb_batch n) ∧
    extends b (nb_builder n) (removals Z).
Proof.
  intros HI Hb Ht. destruct (prev_ok _ _ _ _ HI) as [Hprev Hpp]. destruct (input_split _ _ _ _ HI) as (E & HX & _).
  assert (HI' : I = (X ++ [(k, us)]) ++ Y) by by rewrite <- app_assoc.
  destruct (process_loop_ok Y _ _ t b HI' (brel_rewind _ _ Hb) (rewind_norm _) Ht)
    as (stop & m & batch' & b' & Z & Y' & Hp & HY & HZ & Hl & Hst & Hb' & Hn' & Hm & He).
  eexists (mk_Neighbours _ _ _ (Some m) batch' b'), Z, Y', m. split.
  - unfold get_non_zero_prev_next, process_to_non_zero_next. 
    assert (move_to_key_or_upper_bound (A ++ I ++ C) k = (k, us) :: Y ++ C) as -> by (rewrite E; by apply seek_split).
    rewrite (ord_eqb_key cmp_eq), bool_decide_true by done. simpl tail. rewrite Hp. simpl. done.
  - split_and!; done.
Qed.

(** *** The carried entry *)

(** What is to be pushed up to [X], when the next present key is [n]. *)
Definition goal X (n : option K) : list (K * Pointers K * Z) := removals X ++ pos (lnk None (flt aft X) n).
(** The part of it about the last present key, which the carried entry holds. *)
Definition pending X (n : option K) : list (K * Pointers K * Z) :=
  match last (flt aft X) with None => [] | Some c => removal c ++ [(c, (prev_prev_of X, n), 1)] end.

Inductive loop_inv X Y (b0 b : Builder K T) (c : CarryEntry) : Prop :=
| inv_start : X = [] → c = make_empty → b = b0 → loop_inv X Y b0 b c
| inv_carry t L : c = mk_CarryEntry (prev_of X) (prev_prev_of X) (next_of Y) (Some t) → Pt t → live_head Y →
    extends b0 b L → same_total (L ++ pending X (next_of Y)) (goal X (next_of Y)) → loop_inv X Y b0 b c.

Lemma weight_live k : k ∈ keys I → aft k = true → input_weight (A ++ I ++ C) k = Ok 1.
Proof.
  intros ([k' us] & -> & Hk)%list_elem_of_fmap Ha. simpl in Ha |- *.
  apply list_elem_of_split in Hk as (X & Y & HI). destruct (input_split _ _ _ _ HI) as (E & HX & _).
  unfold input_weight. rewrite E, seek_split by done. rewrite (Hcell k' us), Ha; [done|]. rewrite E. set_solver.
Qed.
Lemma last_in X c : last (flt aft X) = Some c → c ∈ keys X ∧ aft c = true.
Proof. intros Hl%last_Some_elem_of. by apply flt_in. Qed.
Lemma push_carry_ok X Y n t b : I = X ++ Y → Pt t →
  ∃ b', push_carry (A ++ I ++ C) output (mk_CarryEntry (prev_of X) (prev_prev_of X) n (Some t)) b = Ok b' ∧
    extends b b' (pending X n).
Proof.
  intros HI Ht. unfold push_carry, pending. simpl. unfold prev_of, last_or.
  destruct (last (flt aft X)) as [c|] eqn:Hl; [|exists b; split; [done|apply extends_refl]].
  destruct (last_in _ _ Hl) as [Hc Hac]. assert (c ∈ keys I) by (eapply keys_in; [done|by left]).
  rewrite weight_live by done. simpl. by apply push_insert_replace_ok.
Qed.

(** Unchanged keys after [X]: the old pointers form a linked list. *)
Lemma old_pointers X U Y : I = X ++ U ++ Y →
  map (λ k, (k, p0 k)) (flt bef U) = lnk (last_or None (flt bef X)) (flt bef U) (hd_or (flt bef Y) None).
Proof.
  revert X. induction U as [|[k us] U IH]; intros X HI; [done|].
  assert (HI' : I = (X ++ [(k, us)]) ++ U ++ Y) by by rewrite <- app_assoc.
  rewrite flt_cons. pose proof (IH _ HI') as IH'. rewrite flt_app, flt_one in IH'.
  destruct (bef k) eqn:Hb; [|by rewrite app_nil_r in IH'].
  simpl. rewrite IH', last_or_snoc. f_equal. rewrite (Hp0 X k us (U ++ Y) HI). f_equal.
  by rewrite flt_app, hd_or_app.
Qed.
Lemma unchanged_flt U : flt changed U = [] → flt bef U = flt aft U.
Proof.
  unfold flt. induction U as [|[k us] U IH]; simpl; [done|]. unfold changed at 1.
  destruct (bef k), (aft k); simpl; try done; intros HU; by rewrite (IH HU).
Qed.

(** The fix of the previous pointer of the first unchanged key. *)
Definition fix_first X (u : list K) : list (K * Pointers K * Z) :=
  match u with
  | a :: _ :: _ => [(a, p0 a, -1); (a, (prev_of X, snd (p0 a)), 1)]
  | _ => []
  end.
Lemma prev_of_app X U : prev_of (X ++ U) = last_or (prev_of X) (flt aft U).
Proof. unfold prev_of. by rewrite flt_app, last_or_app. Qed.
Lemma prev_prev_snoc X U u z : flt aft U = u ++ [z] → prev_prev_of (X ++ U) = last_or (prev_of X) u.
Proof. intros HU. unfold prev_prev_of. by rewrite flt_app, HU, app_assoc, removelast_last, last_or_app. Qed.
(** Passing the unchanged keys [U]: their old and new pointers differ at the first
    and at the last one only. *)
Lemma pass_unchanged X U Y n : I = X ++ U ++ Y → flt changed U = [] →
  same_total (removals U ++ pos (lnk (prev_of X) (flt aft U) n))
    (fix_first X (flt aft U) ++ match flt aft U with [] => [] | _ => pending (X ++ U) n end).
Proof.
  intros HI HU. pose proof (old_pointers _ _ _ HI) as Hold. unfold removals. rewrite Hold.
  rewrite (unchanged_flt _ HU) in *.
  destruct (flt aft U) as [|a u] eqn:Hu; [done|].
  assert (Hb : ∀ k, k ∈ a :: u → bef k = true).
  { intros k Hk. rewrite <- Hu, <- (unchanged_flt _ HU) in Hk. by apply flt_in in Hk as [_ ?]. }
  assert (Hl : last (flt aft (X ++ U)) = last (a :: u)) by (rewrite flt_app, Hu, last_app; by destruct (last (a :: u)) eqn:E; [|apply last_None in E]).
  destruct u as [|z u _] using rev_ind.
  - rewrite relink_one. unfold pending, removal. rewrite Hl. simpl. rewrite Hb by apply list_elem_of_here.
    rewrite (prev_prev_snoc X U [] a Hu). simpl in Hold. injection Hold as ->. done.
  - rewrite relink_many. unfold pending, removal. rewrite Hl.
    assert (last (a :: u ++ [z]) = Some z) as -> by apply (last_snoc z (a :: u)).
    rewrite Hb by set_solver. rewrite (prev_prev_snoc X U (a :: u) z Hu).
    simpl in Hold. rewrite lnk_app, map_app in Hold. injection Hold as Ha Hold.
    apply app_inj_tail in Hold as [_ [= Hz]]. rewrite Hz, last_or_cons. unfold fix_first.
    destruct u; simpl in *; by rewrite Ha.
Qed.

Lemma flt_sorted P X U Y : I = X ++ U ++ Y → StronglySorted klt (flt P U).
Proof.
  intros HI. pose proof Hsorted as Hs. unfold sorted_keys in Hs. rewrite HI, !map_app in Hs.
  apply StronglySorted_app_1_r, StronglySorted_app_1_l, StronglySorted_app_1_r, StronglySorted_app_1_l in Hs.
  by apply sorted_filter.
Qed.
(** The test that decides about the fix. *)
Lemma fix_test X U Y a u z : I = X ++ U ++ Y → flt aft U = a :: u → last (a :: u) = Some z →
  ord_ltb a z = match u with [] => false | _ => true end.
Proof.
  intros HI Hu Hz. pose proof (flt_sorted aft _ _ _ HI) as Hs. rewrite Hu in Hs. unfold ord_ltb.
  destruct u as [|a' u]; [injection Hz as <-; by rewrite cmp_refl|].
  inversion Hs as [|?? _ Hf]; subst. rewrite last_cons_cons in Hz. apply last_Some_elem_of in Hz.
  rewrite Forall_forall in Hf. by rewrite (Hf z Hz).
Qed.
Lemma fix_step X U Y a u z t b : I = X ++ U ++ Y → flt changed U = [] → flt aft U = a :: u →
  last (a :: u) = Some z → Pt t →
  ∃ b', (if ord_ltb a z then push_prev_replace output a (prev_of X) t b else Ok b) = Ok b' ∧
    extends b b' (fix_first X (a :: u)).
Proof.
  intros HI HU Hu Hz Ht. rewrite (fix_test _ _ _ _ _ _ HI Hu Hz).
  destruct u as [|a' u]; [exists b; split; [done|apply extends_refl]|].
  assert (Ha : a ∈ flt bef U) by (rewrite (unchanged_flt _ HU), Hu; apply list_elem_of_here).
  apply flt_in in Ha as [Ha Hb]. apply push_prev_replace_ok; [|done..]. rewrite HI, !map_app. set_solver.
Qed.

(** The goals of a step. *)
Lemma goal_unchanged X U Y n L : I = X ++ U ++ Y → flt changed U = [] →
  same_total (L ++ pending X (hd_or (flt aft U) n)) (goal X (hd_or (flt aft U) n)) →
  same_total
    (L ++ match flt aft U with [] => [] | _ => pending X (hd_or (flt aft U) n) end ++ fix_first X (flt aft U) ++ pending (X ++ U) n)
    (goal (X ++ U) n).
Proof.
  intros HI HU Hg. unfold goal. rewrite removals_app, flt_app, lnk_app, pos_app.
  trans ((removals X ++ pos (lnk None (flt aft X) (hd_or (flt aft U) n))) ++
         (removals U ++ pos (lnk (prev_of X) (flt aft U) n))); [|apply perm_same_total; solve_Permutation].
  rewrite (pass_unchanged X U Y n HI HU). fold (goal X (hd_or (flt aft U) n)). rewrite <- Hg.
  destruct (flt aft U) eqn:E; simpl.
  - assert (pending (X ++ U) n = pending X n) as ->; [|by rewrite app_nil_r].
    unfold pending, prev_prev_of. by rewrite flt_app, E, app_nil_r.
  - apply perm_same_total. solve_Permutation.
Qed.
Lemma goal_insert X k us Z n : aft k = true → bef k = false → flt aft Z = [] →
  same_total (goal X (Some k) ++ removals Z ++ pending (X ++ (k, us) :: Z) n) (goal (X ++ (k, us) :: Z) n).
Proof.
  intros Ha Hb HZ. change ((k, us) :: Z) with ([(k, us)] ++ Z). unfold goal.
  rewrite !removals_app, removals_one. unfold removal. rewrite Hb.
  assert (Hf : flt aft (X ++ [(k, us)] ++ Z) = flt aft X ++ [k]) by (by rewrite !flt_app, HZ, app_nil_r, flt_one, Ha).
  rewrite Hf, lnk_app, pos_app. unfold pending, prev_prev_of. rewrite Hf, last_snoc, removelast_last.
  unfold removal. rewrite Hb. apply perm_same_total. simpl. unfold prev_of. solve_Permutation.
Qed.
Lemma goal_delete X k us Z n : aft k = false → bef k = true → flt aft Z = [] →
  same_total (goal X n ++ (k, p0 k, -1) :: removals Z) (goal (X ++ (k, us) :: Z) n) ∧
  pending (X ++ (k, us) :: Z) n = pending X n ∧ prev_of (X ++ (k, us) :: Z) = prev_of X ∧
  prev_prev_of (X ++ (k, us) :: Z) = prev_prev_of X.
Proof.
  intros Ha Hb HZ. change ((k, us) :: Z) with ([(k, us)] ++ Z).
  assert (Hf : flt aft (X ++ [(k, us)] ++ Z) = flt aft X) by (by rewrite !flt_app, HZ, flt_one, Ha, !app_nil_r).
  unfold goal, pending, prev_of, prev_prev_of. rewrite Hf. split_and!; try done.
  rewrite !removals_app, removals_one. unfold removal. rewrite Hb. apply perm_same_total. solve_Permutation.
Qed.

(** *** One key of the batch *)

Lemma prev_some X p : prev_of X = Some p → last (flt aft X) = Some p.
Proof. unfold prev_of, last_or. by destruct (last (flt aft X)). Qed.
(** The entry of the predecessor, with its final neighbours. *)
Lemma push_prev_ok X Y p n t b : I = X ++ Y → prev_of X = Some p → Pt t →
  ∃ b', (weight ← input_weight (A ++ I ++ C) p;
         push_insert_replace output p (prev_prev_of X, n) t weight b) = Ok b' ∧ extends b b' (pending X n).
Proof.
  intros HI Hp Ht. apply prev_some in Hp. unfold pending. rewrite Hp. destruct (last_in _ _ Hp) as [Hc Ha].
  assert (p ∈ keys I) by (eapply keys_in; [done|by left]). rewrite weight_live by done. simpl.
  by apply push_insert_replace_ok.
Qed.
Lemma prev_none_flt X : prev_of X = None → flt aft X = [] ∧ ∀ n, pending X n = [].
Proof.
  unfold prev_of, last_or, pending. destruct (last (flt aft X)) as [p|] eqn:E; [done|]. intros _. split; [|done].
  by apply last_None.
Qed.
(** With a carried entry, the next present key heads the unchanged ones. *)
Lemma carried_unchanged U k us Y : live_head (U ++ (k, us) :: Y) →
  (U = [] ∧ aft k = true) ∨ ∃ a u, flt aft U = a :: u.
Proof.
  destruct U as [|[a au] U]; simpl; [by left|]. intros Ha. right. rewrite flt_cons, Ha. eauto.
Qed.
Lemma prev_ne X Y a u : I = X ++ Y → a ∈ keys Y → prev_of X ≠ Some a ∧ (prev_of X = Some u → klt u a).
Proof.
  intros HI Ha. assert (Hlt : ∀ x, x ∈ keys X → klt x a).
  { intros x Hx. pose proof Hsorted as Hs. unfold sorted_keys in Hs. rewrite HI, !map_app in Hs.
    apply StronglySorted_app_1_r, StronglySorted_app_1_l in Hs. by eapply StronglySorted_app_1_elem_of. }
  split; [intros Hp|intros Hp; apply Hlt]; apply prev_some, last_in in Hp as [Hp _]; [|done].
  by eapply klt_irrefl, Hlt.
Qed.

Lemma fix_first_nil U Y : I = U ++ Y → flt changed U = [] → same_total (fix_first [] (flt aft U)) [].
Proof.
  intros HI HU. pose proof (old_pointers [] U Y HI) as Hold. rewrite (unchanged_flt _ HU) in Hold.
  unfold fix_first. destruct (flt aft U) as [|a [|b u]]; [done..|]. simpl in Hold. injection Hold as Ha _ _.
  rewrite Ha. simpl. intros k v. simpl. destruct (decide _); lia.
Qed.

Lemma carry_not_empty X Y (t : T) : is_empty (mk_CarryEntry (prev_of X) (prev_prev_of X) (next_of Y) (Some t)) = false.
Proof. simpl. by destruct (prev_of X), (prev_prev_of X), (next_of Y). Qed.
(** What is pushed about [X] before the next changed key [k] is handled. *)
Definition flushed X U (c : CarryEntry (K:=K) (T:=T)) : list (K * Pointers K * Z) :=
  if is_empty c then []
  else match flt aft U with [] => [] | a :: u => pending X (Some a) ++ fix_first X (a :: u) end.
Lemma inv_flushed X U k us Y b0 b c : I = X ++ U ++ (k, us) :: Y → flt changed U = [] →
  loop_inv X (U ++ (k, us) :: Y) b0 b c →
  ∃ L, extends b0 b L ∧
    ∀ n, (flt aft U = [] → is_empty c = false → n = Some k) →
      same_total (L ++ flushed X U c ++ pending (X ++ U) n) (goal (X ++ U) n).
Proof.
  intros HI HU [-> -> ->|t L -> Ht Hl HL Hg].
  - exists []. split; [apply extends_refl|]. intros n _. rewrite <- (goal_unchanged [] U _ n [] HI HU) by done.
    rewrite (fix_first_nil U _ HI HU). by destruct (flt aft U).
  - exists L. split; [done|]. intros n Hn. unfold flushed.
    pose proof (carry_not_empty X (U ++ (k, us) :: Y) t) as Hemp. rewrite Hemp.
    rewrite <- (goal_unchanged X U _ n L HI HU).
    + destruct (flt aft U); simpl; by rewrite <- ?app_assoc.
    + destruct (carried_unchanged _ _ _ _ Hl) as [[-> Ha]|(a & u & Hu)].
      * rewrite (Hn eq_refl Hemp). unfold next_of in Hg. simpl in Hg. by rewrite flt_cons, Ha in Hg.
      * unfold next_of in Hg. by rewrite flt_app, Hu in *.
Qed.
(** Pushing the carried entry and fixing the key after it. *)
Lemma flush_ok X U Y a u p t t' b : I = X ++ U ++ Y → flt changed U = [] → flt aft U = a :: u →
  last (a :: u) = Some p → Pt t → Pt t' →
  ∃ b', (b ← push_carry (A ++ I ++ C) output (mk_CarryEntry (prev_of X) (prev_prev_of X) (Some a) (Some t)) b;
         if ord_ltb a p then push_prev_replace output a (prev_of X) t' b else Ok b) = Ok b' ∧
    extends b b' (pending X (Some a) ++ fix_first X (a :: u)).
Proof.
  intros HI HU Hu Hp Ht Ht'. destruct (push_carry_ok X _ (Some a) t b HI Ht) as (b1 & -> & He1). simpl.
  destruct (fix_step X U Y a u p t' b1 HI HU Hu Hp Ht') as (b2 & -> & He2).
  exists b2. split; [done|by eapply extends_trans].
Qed.

Lemma insert_flush X U k us Y b0 b c p b1 : I = X ++ U ++ (k, us) :: Y → flt changed U = [] →
  loop_inv X (U ++ (k, us) :: Y) b0 b c → prev_of (X ++ U) = Some p → aft k = true →
  ∃ b2, (b ← (if match carry_key c with Some _ => true | None => false end && negb (opt_eqb (carry_key c) (Some p))
              then push_carry (A ++ I ++ C) output c b1 else Ok b1);
         if match carry_next c with Some _ => true | None => false end && opt_ltb (carry_next c) (Some p)
         then carry_next_key ← unwrap (carry_next c); carry_time ← unwrap (carry_time c);
              push_prev_replace output carry_next_key (carry_key c) carry_time b
         else Ok b) = Ok b2 ∧ extends b1 b2 (flushed X U c).
Proof.
  intros HI HU Hinv Hp Hk. unfold flushed. destruct Hinv as [-> -> ->|t L -> Ht Hl HL Hg].
  { exists b1. split; [done|apply extends_refl]. }
  rewrite carry_not_empty. simpl carry_key. simpl carry_next. simpl carry_time.
  destruct (carried_unchanged _ _ _ _ Hl) as [[-> _]|(a & u & Hu)].
  - rewrite app_nil_r in Hp. rewrite Hp, (opt_eqb_key cmp_eq), bool_decide_true by done. simpl.
    unfold next_of. simpl. rewrite flt_cons, Hk. simpl.
    assert (ord_ltb k p = false) as ->; [|exists b1; split; [done|apply extends_refl]].
    destruct (prev_ne X _ k p HI) as [_ Hlt]; [apply (keys_elem [])|]. unfold ord_ltb. by rewrite (klt_gt _ _ (Hlt Hp)).
  - rewrite Hu. rewrite prev_of_app, Hu in Hp. unfold last_or in Hp.
    destruct (last (a :: u)) as [z|] eqn:Hz; [|by apply last_None in Hz]. injection Hp as <-.
    assert (Hnext : next_of (U ++ (k, us) :: Y) = Some a) by (unfold next_of; by rewrite flt_app, Hu).
    rewrite Hnext. simpl. destruct (flush_ok X U _ a u z t t b1 HI HU Hu Hz Ht Ht) as (b2 & E & He).
    exists b2. split; [|done]. rewrite <- E.
    assert (Hz' : z ∈ keys (U ++ (k, us) :: Y)).
    { rewrite map_app. apply elem_of_app. left. apply last_Some_elem_of in Hz. rewrite <- Hu in Hz. by apply flt_in in Hz as [? _]. }
    destruct (prev_ne X _ z z HI Hz') as [Hne _].
    destruct (prev_of X) as [x|] eqn:Hx; [|done]. simpl.
    rewrite (ord_eqb_key cmp_eq), bool_decide_false by congruence. done.
Qed.
Lemma handle_insert_ok X U k us Y b0 b c bus batch t :
  I = X ++ U ++ (k, us) :: Y → flt changed U = [] → aft k = true → bef k = false →
  loop_inv X (U ++ (k, us) :: Y) b0 b c → brel batch (keys (Y ++ C)) → Pt t →
  ∃ c' batch' b' Z Y',
    handle_insert i (A ++ I ++ C) output ((k, bus) :: batch) b k t c = Ok (c', batch', b') ∧ Y = Z ++ Y' ∧
    brel batch' (keys (Y' ++ C)) ∧ norm batch' ∧ loop_inv ((X ++ U) ++ (k, us) :: Z) Y' b0 b' c'.
Proof.
  intros HI HU Ha Hb Hinv Hbr Ht. assert (HI1 : I = (X ++ U) ++ (k, us) :: Y) by by rewrite <- app_assoc.
  destruct (neighbours_ok _ _ _ _ bus batch b t HI1 Hbr Ht)
    as (n & Z & Y' & m & Hn & HY & HZ & Hl & Hprev & Hpp & Hnext & _ & _ & Hbr' & Hnorm & He).
  destruct (inv_flushed _ _ _ _ _ _ _ _ HI HU Hinv) as (L & HL & Hg). specialize (Hg (Some k) (λ _ _, eq_refl)).
  unfold handle_insert. rewrite Hn. simpl. rewrite Hprev, Hpp.
  assert (Hpush : ∃ b', (match prev_of (X ++ U) with
      | Some prev =>
          b ← (if match carry_key c with Some _ => true | None => false end &&
                  negb (opt_eqb (carry_key c) (Some prev))
               then push_carry (A ++ I ++ C) output c (nb_builder n) else Ok (nb_builder n));
          b ← (if match carry_next c with Some _ => true | None => false end && opt_ltb (carry_next c) (Some prev)
               then carry_next_key ← unwrap (carry_next c); carry_time ← unwrap (carry_time c);
                    push_prev_replace output carry_next_key (carry_key c) carry_time b
               else Ok b);
          weight ← input_weight (A ++ I ++ C) prev;
          push_insert_replace output prev (prev_prev_of (X ++ U), Some k) t weight b
      | None => match carry_key c with
                | Some _ => Panic "sort internal error: predecessor of entry to insert is none, but carry is some"
                | None => Ok (nb_builder n) end
      end) = Ok b' ∧ extends (nb_builder n) b' (flushed X U c ++ pending (X ++ U) (Some k))).
  { destruct (prev_of (X ++ U)) as [p|] eqn:Hp.
    - destruct (insert_flush _ _ _ _ _ _ _ _ p (nb_builder n) HI HU Hinv Hp Ha) as (b2 & E2 & He2).
      destruct (push_prev_ok _ _ p (Some k) t b2 HI1 Hp Ht) as (b3 & E3 & He3). exists b3.
      split; [|by eapply extends_trans]. apply bind_ok in E2 as (b' & -> & E2). simpl. by rewrite E2.
    - exists (nb_builder n). destruct (prev_none_flt _ Hp) as [Hf Hpend]. rewrite Hpend, app_nil_r.
      rewrite flt_app in Hf. apply app_eq_nil in Hf as [HfX HfU].
      assert (flushed X U c = []) as -> by (unfold flushed; rewrite HfU; by destruct (is_empty c)).
      split; [|apply extends_refl]. destruct Hinv as [_ -> _|? ? -> _ _ _ _]; [done|].
      simpl. unfold prev_of, last_or. by rewrite HfX. }
  destruct Hpush as (b' & -> & He'). simpl. eexists _, _, b', Z, Y'. split; [done|]. split_and!; try done.
  apply (inv_carry _ _ _ _ _ t (L ++ removals Z ++ flushed X U c ++ pending (X ++ U) (Some k))); try done.
  - rewrite Hnext. f_equal; [by unfold prev_of; rewrite flt_app, flt_cons, Ha, HZ, last_or_snoc|].
    unfold prev_prev_of. rewrite flt_app, flt_cons, Ha, HZ, removelast_last. done.
  - eapply extends_trans; [done|]. by eapply extends_trans.
  - rewrite <- (goal_insert (X ++ U) k us Z (next_of Y') Ha Hb HZ), <- Hg. apply perm_same_total. solve_Permutation.
Qed.
(** Passing the carried entry on to the predecessor of a deleted key. *)
Lemma delete_flush X U k us Y b0 b c p pp n t ta b1 : I = X ++ U ++ (k, us) :: Y → flt changed U = [] →
  loop_inv X (U ++ (k, us) :: Y) b0 b c → prev_of (X ++ U) = Some p → aft k = false → Pt t →
  ∃ b2, (let c := if is_empty c then mk_CarryEntry (Some p) pp (Some k) (Some t) else c in
         if opt_eqb (Some p) (carry_key c) then Ok (replace_time (replace_next c n) (Some ta), b1)
         else
           b ← (if is_empty c then Ok b1
                else
                  b ← push_carry (A ++ I ++ C) output c b1;
                  carry_next_key ← unwrap (carry_next c);
                  if ord_ltb carry_next_key p then push_prev_replace output carry_next_key (carry_key c) t b else Ok b);
           Ok (mk_CarryEntry (Some p) pp n (Some ta), b)) = Ok (mk_CarryEntry (Some p) pp n (Some ta), b2) ∧
    extends b1 b2 (flushed X U c).
Proof.
  intros HI HU Hinv Hp Hk Ht. unfold flushed. destruct Hinv as [-> -> ->|t0 L -> Ht0 Hl HL Hg].
  { exists b1. simpl. rewrite (ord_eqb_key cmp_eq), bool_decide_true by done. split; [done|apply extends_refl]. }
  rewrite carry_not_empty. cbv zeta match. rewrite carry_not_empty. simpl carry_key. simpl carry_next.
  destruct (carried_unchanged _ _ _ _ Hl) as [[_ Ha]|(a & u & Hu)]; [by rewrite Hk in Ha|].
  rewrite Hu. rewrite prev_of_app, Hu in Hp. unfold last_or in Hp.
  destruct (last (a :: u)) as [z|] eqn:Hz; [|by apply last_None in Hz]. injection Hp as <-.
  assert (Hz' : z ∈ keys (U ++ (k, us) :: Y)).
  { rewrite map_app. apply elem_of_app. left. apply last_Some_elem_of in Hz. rewrite <- Hu in Hz. by apply flt_in in Hz as [? _]. }
  destruct (prev_ne X _ z z HI Hz') as [Hne _].
  rewrite (opt_eqb_key cmp_eq), bool_decide_false by congruence.
  assert (Hnext : next_of (U ++ (k, us) :: Y) = Some a) by (unfold next_of; by rewrite flt_app, Hu).
  rewrite Hnext. simpl. destruct (flush_ok X U _ a u z t0 t b1 HI HU Hu Hz Ht0 Ht) as (b2 & E & He).
  exists b2. split; [|done]. apply bind_ok in E as (b3 & -> & E). simpl. by rewrite E.
Qed.
Lemma handle_delete_ok X U k us Y b0 b c bus batch t :
  I = X ++ U ++ (k, us) :: Y → flt changed U = [] → aft k = false → bef k = true →
  loop_inv X (U ++ (k, us) :: Y) b0 b c → brel batch (keys (Y ++ C)) → Pt t →
  ∃ c' batch' b' Z Y',
    handle_delete i (A ++ I ++ C) output ((k, bus) :: batch) b k t c = Ok (c', batch', b') ∧ Y = Z ++ Y' ∧
    brel batch' (keys (Y' ++ C)) ∧ norm batch' ∧ loop_inv ((X ++ U) ++ (k, us) :: Z) Y' b0 b' c'.
Proof.
  intros HI HU Ha Hb Hinv Hbr Ht. assert (HI1 : I = (X ++ U) ++ (k, us) :: Y) by by rewrite <- app_assoc.
  assert (Hk : k ∈ keys I) by (rewrite HI1; apply keys_elem).
  destruct (neighbours_ok _ _ _ _ bus batch b t HI1 Hbr Ht)
    as (n & Z & Y' & m & Hn & HY & HZ & Hl & Hprev & Hpp & Hnext & Hm & HPm & Hbr' & Hnorm & He).
  destruct (inv_flushed _ _ _ _ _ _ _ _ HI HU Hinv) as (L & HL & Hg). specialize (Hg (next_of Y')).
  destruct (goal_delete (X ++ U) k us Z (next_of Y') Ha Hb HZ) as (Hgoal & Hpend & Hpr & Hprpr).
  unfold handle_delete. rewrite Hn. cbn [mbind outcome_bind]. cbv zeta. rewrite Hprev, Hpp, Hnext, Hm.
  destruct (push_delete_ok k t (nb_builder n) Hk Hb Ht) as (b1 & E1 & He1).
  assert (Hpush : ∃ b' t', (match prev_of (X ++ U) with
      | Some prev =>
          b ← push_delete output k t (nb_builder n);
          let c := if is_empty c then mk_CarryEntry (Some prev) (prev_prev_of (X ++ U)) (Some k) (Some t) else c in
          if opt_eqb (Some prev) (carry_key c) then
            Ok (replace_time (replace_next c (next_of Y')) (Some (time_max t m)), nb_batch n, b)
          else
            b ← (if is_empty c then Ok b
                 else
                   b ← push_carry (A ++ I ++ C) output c b;
                   carry_next_key ← unwrap (carry_next c);
                   if ord_ltb carry_next_key prev then push_prev_replace output carry_next_key (carry_key c) t b else Ok b);
            Ok (mk_CarryEntry (Some prev) (prev_prev_of (X ++ U)) (next_of Y') (Some (time_max t m)), nb_batch n, b)
      | None =>
          match carry_key c with
          | Some _ => Panic "sort internal error: predecessor of entry to delete is none"
          | None => b ← push_delete output k t (nb_builder n);
                    Ok (mk_CarryEntry None None (next_of Y') (Some t), nb_batch n, b)
          end
      end) = Ok (mk_CarryEntry (prev_of (X ++ U)) (prev_prev_of (X ++ U)) (next_of Y') (Some t'), nb_batch n, b') ∧ Pt t' ∧
      extends b1 b' (flushed X U c)).
  { destruct (prev_of (X ++ U)) as [p|] eqn:Hp.
    - destruct (delete_flush _ _ _ _ _ _ _ _ p (prev_prev_of (X ++ U)) (next_of Y') t (time_max t m) b1 HI HU Hinv Hp Ha Ht)
        as (b2 & E2 & He2).
      exists b2, (time_max t m). split; [|split; [by apply Hmax|done]]. rewrite E1. cbn [mbind outcome_bind]. cbv zeta in E2 |- *.
      destruct (opt_eqb _ _); [congruence|].
      apply bind_ok in E2 as (b' & -> & E2). simpl. congruence.
    - exists b1, t. destruct (prev_none_flt _ Hp) as [Hf _].
      assert (prev_prev_of (X ++ U) = None) as -> by (unfold prev_prev_of; by rewrite Hf).
      rewrite flt_app in Hf. apply app_eq_nil in Hf as [HfX HfU].
      assert (flushed X U c = []) as -> by (unfold flushed; rewrite HfU; by destruct (is_empty c)).
      split; [|split; [done|apply extends_refl]].
      assert (carry_key c = None) as ->; [|by rewrite E1].
      destruct Hinv as [_ -> _|? ? -> _ _ _ _]; [done|]. simpl. unfold prev_of, last_or. by rewrite HfX. }
  destruct Hpush as (b' & t' & E & Ht' & He'). cbv zeta in E. eexists _, _, b', Z, Y'. split; [exact E|]. split_and!; try done.
  apply (inv_carry _ _ _ _ _ t' (L ++ removals Z ++ [(k, p0 k, -1)] ++ flushed X U c)); try done.
  - by rewrite Hpr, Hprpr.
  - eapply extends_trans; [done|]. eapply extends_trans; [done|]. by eapply extends_trans.
  - rewrite Hpend, <- Hgoal, <- Hg; [apply perm_same_total; solve_Permutation|].
    intros HfU Hne. exfalso. destruct Hinv as [_ -> _|? ? _ _ Hlv _ _]; [done|].
    destruct (carried_unchanged _ _ _ _ Hlv) as [[_ Hk1]|(a & u & Hu)]; [by rewrite Ha in Hk1|by rewrite HfU in Hu].
Qed.

(** *** The whole instance *)

Lemma brel_length batch ks : brel batch ks → (length (List.filter changed ks) ≤ length batch)%nat.
Proof.
  intros Hb. apply (f_equal length) in Hb. rewrite !length_map in Hb. rewrite <- Hb.
  apply List.filter_length_le.
Qed.
Lemma brel_nil batch ks : norm batch → brel batch ks → List.filter changed ks = [] → batch = [].
Proof. unfold brel. intros Hn Hb Hk. rewrite Hk in Hb. destruct batch as [|[k us] batch]; [done|]. simpl in *. by rewrite Hn in Hb. Qed.
Lemma flt_changed Y P : List.filter P (keys Y) = flt P Y.
Proof. done. Qed.

(** The next key of the batch is in the instance, or the instance is done. *)
Lemma next_changed X Y k bus batch : I = X ++ Y → norm ((k, bus) :: batch) → brel ((k, bus) :: batch) (keys (Y ++ C)) →
  (i k = false ∧ flt changed Y = []) ∨
  (i k = true ∧ changed k = true ∧ ∃ U us Y', Y = U ++ (k, us) :: Y' ∧ flt changed U = [] ∧ brel batch (keys (Y' ++ C))).
Proof.
  intros HI Hn Hb. destruct (brel_head _ _ _ _ Hn Hb) as (ks1 & ks2 & Hks & HU & Hk).
  apply map_eq_app in Hks as (M & N & HM & <- & HN). destruct N as [|[k' us] N]; [done|]. injection HN as -> <-.
  apply app_eq_inv in HM as [([|[k' us'] Y'] & -> & HC)|(V & -> & HC)].
  - left. split; [apply HiC; simpl in HC; rewrite <- HC; apply list_elem_of_here|by rewrite app_nil_r].
  - right. injection HC as <- <- ->. assert (k ∈ keys I) by (rewrite HI, app_assoc; apply keys_elem).
    split; [by apply HiI|]. split; [done|]. exists M, us, Y'. split_and!; try done.
    rewrite <- app_assoc, map_app in Hb. apply brel_unchanged in Hb; [|done].
    apply brel_changed in Hb as (us' & batch' & [= _ <-] & _ & ?); done.
  - left. split; [apply HiC; rewrite HC, map_app; set_solver|].
    rewrite map_app, List.filter_app in HU. by apply app_eq_nil in HU as [? _].
Qed.
Lemma instance_loop_ok fuel : ∀ X Y b0 b c batch, I = X ++ Y → brel batch (keys (Y ++ C)) → norm batch →
  (length (List.filter changed (keys (Y ++ C))) ≤ fuel)%nat → loop_inv X Y b0 b c →
  ∃ X' Y' c' batch' b', instance_loop fuel i (A ++ I ++ C) output batch b c = Ok (c', batch', b') ∧
    I = X' ++ Y' ∧ flt changed Y' = [] ∧ brel batch' (keys C) ∧ norm batch' ∧ loop_inv X' Y' b0 b' c'.
Proof.
  induction fuel as [|fuel IH]; intros X Y b0 b c batch HI Hb Hn Hf Hinv.
  - assert (Hnil : List.filter changed (keys (Y ++ C)) = []) by (destruct (List.filter _ _); simpl in *; [done|lia]).
    exists X, Y, c, batch, b. split_and!; try done.
    + rewrite map_app, List.filter_app in Hnil. by apply app_eq_nil in Hnil as [? _].
    + apply (brel_unchanged _ (keys Y)); [|by rewrite <- map_app].
      rewrite map_app, List.filter_app in Hnil. by apply app_eq_nil in Hnil as [? _].
  - destruct batch as [|[k bus] batch].
    { exists X, Y, c, [], b. pose proof Hb as Hnil. unfold brel in Hnil. simpl in Hnil. symmetry in Hnil.
      apply map_eq_nil in Hnil. rewrite map_app, List.filter_app in Hnil. apply app_eq_nil in Hnil as [HY HC].
      split_and!; try done. unfold brel. by rewrite HC. }
    simpl. destruct (next_changed _ _ _ _ _ HI Hn Hb) as [[Hi HY]|(Hi & Hc & U & us & Y' & -> & HU & Hb')]; rewrite Hi.
    { exists X, Y, c, ((k, bus) :: batch), b. split_and!; try done.
      apply (brel_unchanged _ (keys Y)); [done|by rewrite <- map_app]. }
    assert (HI1 : I = (X ++ U) ++ (k, us) :: Y') by by rewrite <- app_assoc.
    destruct (input_split _ _ _ _ HI1) as (E & HX & _).
    assert (move_to_key_or_upper_bound (A ++ I ++ C) k = (k, us) :: Y' ++ C) as -> by (rewrite E; by apply seek_split).
    destruct (Htime k us) as (t & -> & Ht); [rewrite HI1; set_solver|done|].
    rewrite (ord_eqb_key cmp_eq), bool_decide_true, (zero_iff k us) by (done || (rewrite E; set_solver)). simpl.
    assert (Hstep : ∃ c' batch' b' Z Y1,
      (if negb (aft k) then handle_delete i (A ++ I ++ C) output ((k, bus) :: batch) b k t c
       else handle_insert i (A ++ I ++ C) output ((k, bus) :: batch) b k t c) = Ok (c', batch', b') ∧ Y' = Z ++ Y1 ∧
      brel batch' (keys (Y1 ++ C)) ∧ norm batch' ∧ loop_inv ((X ++ U) ++ (k, us) :: Z) Y1 b0 b' c').
    { unfold changed in Hc. destruct (aft k) eqn:Ha, (bef k) eqn:Hbf; try done; simpl.
      - by apply handle_insert_ok.
      - by apply handle_delete_ok. }
    destruct Hstep as (c' & batch' & b' & Z & Y1 & -> & -> & Hb1 & Hn1 & Hinv1). simpl.
    apply (IH ((X ++ U) ++ (k, us) :: Z) Y1); try done; [by rewrite HI1, <- !app_assoc|].
    revert Hf. rewrite <- !app_assoc, !map_app. simpl. rewrite map_app, !List.filter_app. simpl. rewrite Hc.
    rewrite !List.filter_app, !length_app. simpl. rewrite !length_app. lia.
Qed.
(** Moving the predecessor of a block of unchanged keys. *)
Lemma relink_unchanged X Y a u : I = X ++ Y → flt changed Y = [] → flt aft Y = a :: u →
  same_total (removals Y ++ pos (lnk (prev_of X) (flt aft Y) None))
    [(a, p0 a, -1); (a, (prev_of X, snd (p0 a)), 1)].
Proof.
  intros HI HY Hu. pose proof (old_pointers X Y []) as Hold. rewrite app_nil_r in Hold. specialize (Hold HI).
  unfold removals. rewrite Hold, (unchanged_flt _ HY), Hu. rewrite (unchanged_flt _ HY), Hu in Hold.
  simpl in Hold |- *. injection Hold as Ha _. rewrite Ha. simpl.
  set (l := lnk (Some a) u None). trans ([(a, p0 a, -1); (a, (prev_of X, snd (p0 a)), 1)] ++ (neg l ++ pos l)).
  - rewrite Ha. apply perm_same_total. simpl. solve_Permutation.
  - by rewrite neg_pos, app_nil_r, Ha.
Qed.
Lemma finish_ok X Y b0 b c : I = X ++ Y → flt changed Y = [] → loop_inv X Y b0 b c →
  ∃ b', finish_instance (A ++ I ++ C) output c b = Ok b' ∧ extends b0 b' (goal I None).
Proof.
  intros HI HY [-> -> ->|t L -> Ht Hl HL Hg]; unfold finish_instance.
  - exists b0. split; [done|]. simpl in HI. subst Y. unfold goal, removals.
    pose proof (old_pointers [] I []) as Hold. rewrite app_nil_r in Hold. rewrite Hold by done.
    rewrite (unchanged_flt _ HY). simpl. rewrite neg_pos. apply extends_refl.
  - rewrite carry_not_empty. destruct (push_carry_ok X Y (next_of Y) t b HI Ht) as (b1 & -> & He1). simpl.
    assert (HgI : goal I None = removals X ++ removals Y ++ pos (lnk None (flt aft X) (next_of Y)) ++
                    pos (lnk (prev_of X) (flt aft Y) None)).
    { unfold goal. by rewrite HI, removals_app, flt_app, lnk_app, pos_app, <- !app_assoc. }
    destruct (next_of Y) as [a|] eqn:Hnext; unfold next_of in Hnext.
    + destruct (flt aft Y) as [|a' u] eqn:Hu; [done|]. injection Hnext as ->.
      assert (Ha : a ∈ flt bef Y) by (rewrite (unchanged_flt _ HY), Hu; apply list_elem_of_here).
      apply flt_in in Ha as [Hin Hb]. assert (a ∈ keys I) by (eapply keys_in; [done|by right]).
      destruct (push_prev_replace_ok a (prev_of X) t b1) as (b2 & -> & He2); [done..|].
      exists b2. split; [done|]. rewrite HgI.
      assert (E : same_total ((L ++ pending X (Some a)) ++ [(a, p0 a, -1); (a, (prev_of X, snd (p0 a)), 1)])
        (removals X ++ removals Y ++ pos (lnk None (flt aft X) (Some a)) ++ pos (lnk (prev_of X) (a :: u) None))).
      { rewrite Hg, <- (relink_unchanged X Y a u HI HY Hu), Hu. unfold goal. apply perm_same_total. solve_Permutation. }
      rewrite <- E. eapply extends_trans; [|done]. by eapply extends_trans.
    + exists b1. split; [done|]. rewrite HgI.
      destruct (flt aft Y) as [|] eqn:Hu; [|done].
      assert (removals Y = []) as -> by (unfold removals; by rewrite (unchanged_flt _ HY), Hu).
      simpl. rewrite app_nil_r. fold (goal X None). rewrite <- Hg. by eapply extends_trans.
Qed.
Lemma handle_one_instance_ok (f : K → K → bool) k us batch b : f k = i →
  brel ((k, us) :: batch) (keys (I ++ C)) → norm ((k, us) :: batch) →
  ∃ batch' b', handle_one_instance f (A ++ I ++ C) output ((k, us) :: batch) b = Ok (batch', b') ∧
    brel batch' (keys C) ∧ norm batch' ∧ extends b b' (goal I None).
Proof.
  intros Hf Hb Hn. unfold handle_one_instance. rewrite Hf.
  destruct (instance_loop_ok (length ((k, us) :: batch)) [] I b b make_empty _ eq_refl Hb Hn)
    as (X & Y & c & batch' & b' & -> & HI & HY & Hb' & Hn' & Hinv).
  { by apply brel_length. }
  { by apply inv_start. }
  cbn [mbind outcome_bind]. destruct (finish_ok _ _ _ _ _ HI HY Hinv) as (b2 & -> & He).
  by exists batch', b2.
Qed.
End instance.

(** ** The whole batch *)

Section batch.
Context {K T : Type} `{OrdLaws K, Ord T, EqDecision K}.
Context (cmp_eq : ∀ a b : K, cmp a b = Eq → a = b).
(** The instances: an equivalence whose classes are convex. *)
Context (f : K → K → bool).
Abbreviation keys := (map (@fst K (Updates T))).
Implicit Types (X M R input batch : InputTrace K T).

Definition instances : Prop :=
  (∀ a, f a a = true) ∧ (∀ a b, f a b = true → f b a = true) ∧
  (∀ a b c, f a b = true → f b c = true → f a c = true) ∧
  (∀ a b c, klt a b → klt b c → f a c = true → f a b = true).

(** The neighbours of [k] among the keys [ks] of its instance. *)
Definition pointers (ks : list K) (k : K) : Pointers K :=
  (last (List.filter (λ x, f k x && ord_ltb x k) ks), head (List.filter (λ x, f k x && ord_ltb k x) ks)).
Definition linked (ks : list K) : list (K * Pointers K) := map (λ k, (k, pointers ks k)) ks.

Definition weight_at X (k : K) : Z :=
  foldr (λ ku s, (if decide (fst ku = k) then weight (snd ku) else 0) + s) 0 X.
(** The keys present after a batch, and before it. *)
Definition after input (k : K) : bool := weight_at input k =? 1.
Definition before input batch (k : K) : bool := weight_at input k - weight_at batch k =? 1.
(** The operator's invariant when a batch arrives: keys are present at most once
    before and after it, and the output links those present before. *)
Record consistent input (output : OutputTrace K T) batch : Prop := {
  con_input : sorted_keys input;
  con_batch : sorted_keys batch;
  con_output : output_wf output;
  con_cell : ∀ k us, (k, us) ∈ input → us ≠ [] ∧ (weight us = 0 ∨ weight us = 1) ∧
    (weight us - weight_at batch k = 0 ∨ weight us - weight_at batch k = 1);
  con_keys : ∀ k us, (k, us) ∈ batch → weight us ≠ 0 → k ∈ keys input;
  con_linked : same_total (flatten output) (pos (linked (List.filter (before input batch) (keys input))))
}.

(** *** Lists *)

Lemma sorted_nodup X : sorted_keys X → NoDup (keys X).
Proof. apply klt_nodup. Qed.
Lemma weight_at_in X k us : sorted_keys X → (k, us) ∈ X → weight_at X k = weight us.
Proof.
  intros Hs%sorted_nodup. induction X as [|[k' us'] X IH]; [by intros ?%elem_of_nil|].
  simpl in *. apply NoDup_cons in Hs as [Hnin Hs]. intros [[= -> ->]|Hin]%elem_of_cons.
  - rewrite decide_True by done. assert (weight_at X k' = 0) as ->; [|lia]. clear -Hnin.
    induction X as [|[k us] X IH]; simpl in *; [done|]. apply not_elem_of_cons in Hnin as [Hne Hnin].
    rewrite decide_False, IH by (done || congruence). done.
  - rewrite decide_False, IH by (done || (intros ->; apply Hnin, list_elem_of_fmap; by exists (k, us))). done.
Qed.
Lemma total_pos_map (g : K → Pointers K) (l : list K) k v : NoDup l →
  total (pos (map (λ x, (x, g x)) l)) k v = if decide (k ∈ l ∧ g k = v) then 1 else 0.
Proof.
  induction 1 as [|x l Hx Hnd IH]; [destruct (decide (k ∈ [] ∧ g k = v)) as [[?%elem_of_nil _]|]; done|simpl].
  change (map _ (map _ l)) with (pos (map (λ x, (x, g x)) l)). rewrite IH.
  destruct (decide (x = k ∧ g x = v)) as [[-> <-]|Hne], (decide (k ∈ l ∧ _)) as [[? ?]|Hl],
    (decide (_ ∈ _ :: l ∧ _)) as [[?%elem_of_cons ?]|Hxl]; rewrite ?elem_of_cons in *; naive_solver lia.
Qed.
(** A convex predicate holds on one block of a sorted trace. *)
Lemma convex_block (P : K → bool) R : sorted_keys R →
  (∀ a b c, klt a b → klt b c → P a = true → P c = true → P b = true) →
  ∃ M I C, R = M ++ I ++ C ∧ (∀ k, k ∈ keys M → P k = false) ∧ (∀ k, k ∈ keys I → P k = true) ∧
    (∀ k, k ∈ keys C → P k = false).
Proof.
  intros Hs HP. induction R as [|[k us] R IH].
  { exists [], [], []. split_and!; [done|..]; by intros k ?%elem_of_nil. }
  inversion Hs as [|?? Hs' Hf]; subst. destruct (IH Hs') as (M & I & C & -> & HM & HI & HC). clear IH.
  destruct (P k) eqn:Hk.
  - destruct M as [|[m mu] M].
    + exists [], ((k, us) :: I), C. split_and!; [done| | |done]; simpl; [by intros ? ?%elem_of_nil|].
      by intros ? [->|?]%elem_of_cons; [|apply HI].
    + destruct I as [|[j ju] I].
      * exists [], [(k, us)], (((m, mu) :: M) ++ C). split_and!; [done|by intros ? ?%elem_of_nil|..].
        -- intros x Hx. simpl in Hx. apply list_elem_of_singleton in Hx. by subst.
        -- intros x Hx. rewrite map_app in Hx. apply elem_of_app in Hx as [?|?]; auto.
      * exfalso. simpl in Hs', Hf. assert (klt k m) by (by apply Forall_cons in Hf as [? _]).
        assert (klt m j).
        { inversion Hs' as [|?? _ Hf']; subst. rewrite Forall_forall in Hf'. apply Hf'. rewrite map_app. set_solver. }
        assert (Hm : P m = true) by (eapply (HP k m j); [done|done|done|apply HI; apply list_elem_of_here]).
        rewrite (HM m) in Hm; [done|apply list_elem_of_here].
  - exists ((k, us) :: M), I, C. split_and!; [done| |done|done]. simpl. by intros ? [->|?]%elem_of_cons; [|apply HM].
Qed.
Lemma filter_none (P : K → bool) (l : list K) : (∀ x, x ∈ l → P x = false) → List.filter P l = [].
Proof.
  intros HP. induction l as [|x l IH]; simpl; [done|]. rewrite HP by apply list_elem_of_here. apply IH.
  intros y Hy. apply HP. by apply list_elem_of_further.
Qed.
Lemma filter_all (P : K → bool) (l : list K) : (∀ x, x ∈ l → P x = true) → List.filter P l = l.
Proof.
  intros HP. induction l as [|x l IH]; simpl; [done|]. rewrite HP by apply list_elem_of_here. f_equal. apply IH.
  intros y Hy. apply HP. by apply list_elem_of_further.
Qed.

(** *** Pointers and blocks *)

Context (Hf : instances).
Lemma inst_refl a : f a a = true. Proof. destruct Hf as (Hr & _). apply Hr. Qed.
Lemma inst_sym a b : f a b = true → f b a = true. Proof. destruct Hf as (_ & Hs & _). apply Hs. Qed.
Lemma inst_trans a b c : f a b = true → f b c = true → f a c = true. Proof. destruct Hf as (_ & _ & Ht & _). apply Ht. Qed.
Lemma inst_convex k a b c : klt a b → klt b c → f k a = true → f k c = true → f k b = true.
Proof.
  intros Hab Hbc Ha Hc. destruct Hf as (_ & _ & _ & Hconv).
  apply (inst_trans k a b Ha), (Hconv a b c Hab Hbc), (inst_trans a k c); [by apply inst_sym|done].
Qed.
Lemma pointers_block (P : K → bool) A X k us Y C input : input = A ++ (X ++ (k, us) :: Y) ++ C → sorted_keys input →
  (∀ x, x ∈ keys (X ++ (k, us) :: Y) → f k x = true) → (∀ x, x ∈ keys A → f k x = false) → (∀ x, x ∈ keys C → f k x = false) →
  pointers (List.filter P (keys input)) k = (last_or None (flt P X), hd_or (flt P Y) None).
Proof.
  intros -> Hs HI HA HC. unfold pointers.
  assert (Hff : ∀ Q R : K → bool, ∀ l, List.filter Q (List.filter R l) = List.filter (λ x, R x && Q x) l).
  { intros Q R l. induction l as [|x l IH]; simpl; [done|]. destruct (R x); simpl; [destruct (Q x)|]; by rewrite IH. }
  assert (Hn : ∀ Q : K → bool, ∀ l, (∀ x, x ∈ l → f k x = false) → List.filter (λ x, P x && (f k x && Q x)) l = []).
  { intros Q l Hl. apply filter_none. intros x Hx. rewrite Hl by done. by rewrite andb_false_r. }
  assert (E : A ++ (X ++ (k, us) :: Y) ++ C = (A ++ X) ++ (k, us) :: (Y ++ C)) by by rewrite <- !app_assoc.
  rewrite E in Hs. destruct (sorted_keys_split _ _ _ _ Hs) as [HlX%Forall_app HlY%Forall_app].
  destruct HlX as [_ HlX], HlY as [HlY _]. rewrite Forall_forall in HlX, HlY.
  assert (Hin : ∀ (Q : K → bool) c Z, (∀ x, x ∈ keys Z → f k x = true ∧ Q x = c) →
    List.filter (λ x, P x && (f k x && Q x)) (keys Z) = if c then flt P Z else []).
  { intros Q c Z HZ. unfold flt. induction (keys Z) as [|x l IH]; simpl; [by destruct c|].
    destruct (HZ x (list_elem_of_here _ _)) as [-> ->]. rewrite IH by (intros; apply HZ; by apply list_elem_of_further).
    by destruct c, (P x). }
  assert (HfX : ∀ x, x ∈ keys X → f k x = true ∧ klt x k).
  { intros x Hx. split; [apply HI; rewrite map_app; set_solver|].
    apply list_elem_of_fmap in Hx as ([x' ?] & -> & Hx). by apply (HlX _ Hx). }
  assert (HfY : ∀ x, x ∈ keys Y → f k x = true ∧ klt k x).
  { intros x Hx. split; [apply HI; rewrite map_app; set_solver|].
    apply list_elem_of_fmap in Hx as ([x' ?] & -> & Hx). by apply (HlY _ Hx). }
  rewrite !Hff, !map_app, !List.filter_app. simpl. rewrite !(Hn _ (keys A) HA), !(Hn _ (keys C) HC).
  assert (ord_ltb k k = false) as -> by (unfold ord_ltb; by rewrite cmp_refl).
  rewrite !andb_false_r. f_equal.
  - rewrite (Hin _ true X), (Hin _ false Y); [simpl; rewrite !app_nil_r; unfold last_or; by destruct (last (flt P X))|..]; intros x Hx; unfold ord_ltb.
    + destruct (HfY _ Hx) as [-> Hlt]. by rewrite (klt_gt _ _ Hlt).
    + destruct (HfX _ Hx) as [-> Hlt]. by rewrite Hlt.
  - rewrite (Hin _ false X), (Hin _ true Y); [simpl; rewrite ?app_nil_r; by destruct (flt P Y)|..]; intros x Hx; unfold ord_ltb.
    + destruct (HfY _ Hx) as [-> Hlt]. by rewrite Hlt.
    + destruct (HfX _ Hx) as [-> Hlt]. by rewrite (klt_gt _ _ Hlt).
Qed.

(** *** One batch *)

Context (input batch0 : InputTrace K T) (output : OutputTrace K T) (Hcon : consistent input output batch0).
Abbreviation bef := (before input batch0).
Abbreviation aft := (after input).
Abbreviation ptrs P k := (pointers (List.filter P (keys input)) k).
(** The times that updates may have: the largest ones at changed keys. *)
Definition changed_time (t : T) : Prop :=
  ∃ k us, (k, us) ∈ input ∧ bef k ≠ aft k ∧ max_curr_time us = Some t.
(** What is to be pushed about the keys of [X]. *)
Definition delta X : list (K * Pointers K * Z) :=
  neg (map (λ k, (k, ptrs bef k)) (flt bef X)) ++ pos (map (λ k, (k, ptrs aft k)) (flt aft X)).

Lemma delta_app X Y : same_total (delta (X ++ Y)) (delta X ++ delta Y).
Proof. unfold delta. rewrite !flt_app, !map_app, neg_app, pos_app. apply perm_same_total. solve_Permutation. Qed.
Lemma total_weight_some (us : Updates T) : us ≠ [] → key_val_total_weight us = Some (weight us).
Proof. intros Hus. unfold weight. destruct us as [|u us]; [done|]. unfold key_val_total_weight. by rewrite total_weight_fold. Qed.
Lemma cell k us : (k, us) ∈ input → key_val_total_weight us = Some (if aft k then 1 else 0) ∧
  weight_at input k - weight_at batch0 k = if bef k then 1 else 0.
Proof.
  intros Hin. destruct (con_cell _ _ _ Hcon _ _ Hin) as (Hne & Hw & Hw').
  rewrite total_weight_some by done. unfold after, before.
  rewrite (weight_at_in _ _ _ (con_input _ _ _ Hcon) Hin).
  split; [f_equal; by destruct Hw as [-> | ->]|by destruct Hw' as [-> | ->]].
Qed.
Lemma batch_cell k us : (k, us) ∈ batch0 → weight us ≠ 0 →
  k ∈ keys input ∧ bef k ≠ aft k ∧ key_val_total_weight us = Some (if aft k then 1 else -1).
Proof.
  intros Hin Hw. pose proof (con_keys _ _ _ Hcon _ _ Hin Hw) as Hk. split; [done|].
  apply list_elem_of_fmap in Hk as ([k' us'] & -> & Hk). simpl in *.
  destruct (cell _ _ Hk) as [Ha Hb]. rewrite (weight_at_in _ _ _ (con_input _ _ _ Hcon) Hk) in Hb.
  rewrite (weight_at_in _ _ _ (con_batch _ _ _ Hcon) Hin) in Hb. unfold weight at 1 in Hb. rewrite Ha in Hb.
  rewrite total_weight_some by (by intros ->).
  destruct (aft k'), (bef k'); split; try done; f_equal; lia.
Qed.
Lemma batch_present k : k ∈ keys input → bef k ≠ aft k → ∃ us, (k, us) ∈ batch0 ∧ weight us ≠ 0.
Proof.
  intros ([k' us'] & -> & Hk)%list_elem_of_fmap Hc. simpl in *. destruct (cell _ _ Hk) as [Ha Hb].
  rewrite (weight_at_in _ _ _ (con_input _ _ _ Hcon) Hk) in Hb. unfold weight at 1 in Hb. rewrite Ha in Hb.
  destruct (decide (k' ∈ keys batch0)) as [Hin|Hnin].
  - apply list_elem_of_fmap in Hin as ([k us] & -> & Hin). simpl in *. exists us. split; [done|].
    rewrite (weight_at_in _ _ _ (con_batch _ _ _ Hcon) Hin) in Hb. destruct (bef k), (aft k); done || lia.
  - assert (weight_at batch0 k' = 0) as E; [|rewrite E in Hb; destruct (bef k'), (aft k'); done || lia].
    clear -Hnin. induction batch0 as [|[k us] X IH]; simpl in *; [done|].
    apply not_elem_of_cons in Hnin as [Hne Hnin]. rewrite decide_False, IH by (done || congruence). done.
Qed.
Lemma xorb_ne (a b : bool) : xorb a b = true ↔ a ≠ b.
Proof. by destruct a, b. Qed.
Lemma sorted_ext (l1 l2 : list K) : StronglySorted klt l1 → StronglySorted klt l2 → (∀ x, x ∈ l1 ↔ x ∈ l2) → l1 = l2.
Proof.
  intros H1s H2s Hext. eapply StronglySorted_unique_strong; [|done..|apply NoDup_Permutation; [by apply klt_nodup..|done]].
  intros x1 x2 _ _ Hlt1 Hlt2. exfalso. by eapply klt_irrefl, klt_trans.
Qed.
(** The batch holds the changed keys in order. *)
Lemma batch_brel : brel bef aft batch0 (keys input).
Proof.
  unfold brel. 
  assert (E : map fst (List.filter (λ ku, negb (key_val_has_zero_weight (snd ku))) batch0) =
              List.filter (changed bef aft) (keys input)).
  { apply sorted_ext.
    - pose proof (con_batch _ _ _ Hcon) as Hs. unfold sorted_keys in Hs. clear -Hs.
      induction batch0 as [|[k us] X IH]; simpl in *; [constructor|]. inversion Hs as [|?? Hs' Hfa]; subst.
      destruct (negb _); simpl; [|by apply IH]. constructor; [by apply IH|].
      rewrite Forall_forall in Hfa |- *. intros x (ku & -> & Hku)%list_elem_of_fmap.
      apply Hfa, list_elem_of_fmap. exists ku. split; [done|].
      by apply list_elem_of_In, filter_In in Hku as [?%list_elem_of_In _].
    - apply sorted_filter, (con_input _ _ _ Hcon).
    - intros x. rewrite list_elem_of_fmap. setoid_rewrite list_elem_of_In. setoid_rewrite filter_In.
      setoid_rewrite <- list_elem_of_In. unfold changed. rewrite xorb_ne. split.
      + intros ([k us] & -> & Hin & Hz). simpl in *. rewrite zero_weight_spec in Hz.
        destruct (batch_cell k us Hin) as (? & ? & _); [lia|done].
      + intros [Hin Hc]. destruct (batch_present x Hin Hc) as (us & Hus & Hw). exists (x, us).
        split_and!; try done. simpl. rewrite zero_weight_spec. lia. }
  rewrite <- E, map_map. apply map_ext_in. intros [k us] [Hin Hz]%filter_In. simpl in *. f_equal.
  rewrite zero_weight_spec in Hz. apply (batch_cell k us); [by apply list_elem_of_In|lia].
Qed.

(** *** The blocks of a batch *)

Lemma filter_filter_ext (Q P1 P2 : K → bool) (l : list K) : (∀ x, x ∈ l → Q x = true → P1 x = P2 x) →
  List.filter Q (List.filter P1 l) = List.filter Q (List.filter P2 l).
Proof.
  intros Hl. induction l as [|x l IH]; simpl; [done|].
  assert (IH' := IH (λ y Hy, Hl y (list_elem_of_further _ _ _ Hy))). clear IH.
  specialize (Hl x (list_elem_of_here _ _)). destruct (Q x) eqn:HQ.
  - rewrite Hl by done. destruct (P2 x); simpl; by rewrite ?HQ, IH'.
  - destruct (P1 x), (P2 x); simpl; by rewrite ?HQ, IH'.
Qed.
Definition closed X : Prop := ∀ k x, k ∈ keys X → x ∈ keys input → f k x = true → x ∈ keys X.
Lemma delta_unchanged M : closed M → flt (changed bef aft) M = [] → same_total (delta M) [].
Proof.
  intros Hcl HM. assert (Hch : ∀ x, x ∈ keys M → bef x = aft x).
  { intros x Hx. destruct (decide (bef x = aft x)) as [?|Hne%xorb_ne]; [done|].
    assert (x ∈ flt (changed bef aft) M) as Hin by (apply list_elem_of_In, filter_In; by rewrite <- list_elem_of_In).
    rewrite HM in Hin. by apply elem_of_nil in Hin. }
  unfold delta. rewrite (unchanged_flt bef aft M HM).
  assert (map (λ k, (k, ptrs bef k)) (flt aft M) = map (λ k, (k, ptrs aft k)) (flt aft M)) as ->; [|apply neg_pos].
  apply map_ext_in. intros k [Hk%list_elem_of_In _]%filter_In. f_equal. unfold pointers.
  f_equal; [f_equal|f_equal]; apply filter_filter_ext; intros x Hx [Hfx _]%andb_prop; apply Hch; by eapply Hcl.
Qed.
Lemma output_holds k : k ∈ keys input → holds output k (if bef k then Some (ptrs bef k) else None).
Proof.
  intros Hk v. rewrite (con_linked _ _ _ Hcon). unfold linked. rewrite (total_pos_map (pointers _)).
  2: { apply klt_nodup, sorted_filter, (con_input _ _ _ Hcon). }
  assert (E : k ∈ List.filter bef (keys input) ↔ bef k = true).
  { rewrite list_elem_of_In, filter_In, <- list_elem_of_In. naive_solver. }
  destruct (decide (k ∈ _ ∧ _)) as [[Hb%E Hv]|Hn].
  - rewrite Hb. by rewrite decide_True.
  - destruct (bef k) eqn:Hb; [|done]. rewrite decide_False; [done|]. intros Hv. apply Hn. by rewrite E.
Qed.
Lemma time_max_changed t1 t2 : changed_time t1 → changed_time t2 → changed_time (time_max t1 t2).
Proof. intros Ht1 Ht2. unfold time_max. by destruct (cmp t1 t2). Qed.
Lemma changed_time_in k us : (k, us) ∈ input → changed bef aft k = true → ∃ t, max_curr_time us = Some t ∧ changed_time t.
Proof.
  intros Hin Hc%xorb_ne. destruct (con_cell _ _ _ Hcon _ _ Hin) as (Hne & _).
  assert (∃ t, max_curr_time us = Some t) as [t Ht].
  { destruct us as [|[t w] us]; [done|]. unfold max_curr_time. simpl. clear. revert t.
    induction us as [|[t' w'] us IH]; intros t; simpl; [by eexists|]. destruct (ord_ltb _ _); apply IH. }
  exists t. split; [done|]. by exists k, us.
Qed.

(** The block of the instance of [k]. *)
Lemma block_delta A M I C k us batch b : input = A ++ M ++ I ++ C → k ∈ keys I →
  (∀ x, x ∈ keys I → f k x = true) → (∀ x, x ∈ keys (A ++ M) → f k x = false) → (∀ x, x ∈ keys C → f k x = false) →
  brel bef aft ((k, us) :: batch) (keys (I ++ C)) → norm ((k, us) :: batch) →
  ∃ batch' b', handle_one_instance f input output ((k, us) :: batch) b = Ok (batch', b') ∧
    brel bef aft batch' (keys C) ∧ norm batch' ∧ extends changed_time b b' (delta I).
Proof.
  intros Hin Hk HI HA HC Hb Hn. assert (E : input = (A ++ M) ++ I ++ C) by by rewrite <- app_assoc.
  pose proof (con_input _ _ _ Hcon) as Hs.
  assert (Hp : ∀ P X k' us' Y, I = X ++ (k', us') :: Y → ptrs P k' = (last_or None (flt P X), hd_or (flt P Y) None)).
  { intros P X k' us' Y HIX. assert (Hk' : f k' k = true).
    { apply inst_sym, HI. rewrite HIX. apply keys_elem. }
    apply (pointers_block P (A ++ M) X k' us' Y C input); [by rewrite <- HIX|done|rewrite <- HIX|..]; intros x Hx.
    - eapply inst_trans; [done|]. by apply HI.
    - destruct (f k' x) eqn:Hx'; [|done]. rewrite <- (HA x Hx). symmetry. eapply inst_trans; [by apply inst_sym|done].
    - destruct (f k' x) eqn:Hx'; [|done]. rewrite <- (HC x Hx). symmetry. eapply inst_trans; [by apply inst_sym|done]. }
  rewrite E in Hs.
  destruct (handle_one_instance_ok cmp_eq (A ++ M) I C (f k) bef aft output (λ k, ptrs bef k) changed_time Hs HI HA HC
    ltac:(intros k' us' ?; apply cell; by rewrite E) (con_output _ _ _ Hcon)
    ltac:(intros k' ?; apply output_holds; rewrite E, !map_app; set_solver) ltac:(apply Hp)
    ltac:(intros k' us' ?; apply changed_time_in; rewrite E; set_solver) time_max_changed
    f k us batch b eq_refl Hb Hn) as (batch' & b' & Hh & Hb' & Hn' & He).
  rewrite <- E in Hh. exists batch', b'. split_and!; [done..|]. unfold goal, removals in He. unfold delta.
  pose proof (old_pointers I aft (λ k, ptrs aft k) (Hp aft) [] I []) as Hold. rewrite app_nil_r in Hold.
  assert (E2 : map (λ k, (k, ptrs aft k)) (flt aft I) = lnk None (flt aft I) None) by by apply Hold.
  by rewrite <- E2 in He.
Qed.
(** The first block of the rest of the trace that the batch changes. *)
Lemma first_block A R k us batch : input = A ++ R → closed R → brel bef aft ((k, us) :: batch) (keys R) →
  norm ((k, us) :: batch) →
  ∃ M I C, R = M ++ I ++ C ∧ closed M ∧ closed C ∧ flt (changed bef aft) M = [] ∧ k ∈ keys I ∧ changed bef aft k = true ∧
    (∀ x, x ∈ keys I → f k x = true) ∧ (∀ x, x ∈ keys (A ++ M) → f k x = false) ∧ (∀ x, x ∈ keys C → f k x = false).
Proof.
  intros Hin Hcl Hb Hn. destruct (brel_head bef aft _ _ _ _ Hn Hb) as (ks1 & ks2 & Hks & HU & Hk).
  pose proof (con_input _ _ _ Hcon) as Hs. rewrite Hin in Hs. unfold sorted_keys in Hs. rewrite map_app in Hs.
  apply StronglySorted_app in Hs as (HAR & _ & HsR).
  destruct (convex_block (f k) R HsR (inst_convex k)) as (M & I & C & HR & HfM & HfI & HfC).
  assert (HkR : k ∈ keys R) by (rewrite Hks; set_solver).
  assert (HxR : ∀ x, x ∈ keys R ↔ x ∈ keys M ∨ x ∈ keys I ∨ x ∈ keys C) by (intros x; by rewrite HR, !map_app, !elem_of_app).
  assert (HkI : k ∈ keys I).
  { pose proof (inst_refl k) as Hkk. apply HxR in HkR as [Hx|[Hx|Hx]]; [by rewrite HfM in Hkk|done|by rewrite HfC in Hkk]. }
  rewrite HR, !map_app in HsR. apply StronglySorted_app in HsR as (HMR & _ & (HIC & _)%StronglySorted_app).
  assert (HMk : ∀ x, x ∈ keys M → klt x k) by (intros x Hx; apply HMR; [done|set_solver]).
  assert (HkC : ∀ x, x ∈ keys C → klt k x) by (intros x Hx; by apply HIC).
  assert (Hconv : ∀ a c, klt a k → klt k c → f a c = true → f k a = true).
  { intros a c Ha Hc Hac. apply inst_sym. destruct Hf as (_ & _ & _ & Hcv). by apply (Hcv a k c). }
  assert (HinR : ∀ a x, a ∈ keys R → x ∈ keys input → f a x = true → x ∈ keys R) by exact Hcl.
  assert (Hfk : ∀ a x, f a x = true → f k x = true → f k a = true).
  { intros a x Hax Hkx. apply (inst_trans k x a Hkx), inst_sym, Hax. }
  exists M, I, C. split_and!; try done.
  - intros a x Ha Hx Hax. destruct (proj1 (HxR x)) as [?|[HxI|HxC]]; [apply (HinR a); [apply HxR; by left|done..]|done| |].
    + specialize (Hfk a x Hax (HfI x HxI)). by rewrite HfM in Hfk.
    + specialize (Hconv a x (HMk a Ha) (HkC x HxC) Hax). by rewrite HfM in Hconv.
  - intros a x Ha Hx Hax. destruct (proj1 (HxR x)) as [HxM|[HxI|?]]; [apply (HinR a); [apply HxR; by right; right|done..]| | |done].
    + specialize (Hconv x a (HMk x HxM) (HkC a Ha) (inst_sym a x Hax)). by rewrite HfM in Hconv.
    + specialize (Hfk a x Hax (HfI x HxI)). by rewrite HfC in Hfk.
  - rewrite HR, map_app in Hks. apply app_eq_inv in Hks as [([|k' l] & HM & Hl)|(l & -> & _)].
    + unfold flt. by rewrite HM, app_nil_r.
    + exfalso. injection Hl as <- _. apply (klt_irrefl k), HMk. rewrite HM. set_solver.
    + rewrite List.filter_app in HU. by apply app_eq_nil in HU as [? _].
  - intros x Hx. rewrite map_app in Hx. apply elem_of_app in Hx as [HxA|HxM]; [|by apply HfM].
    destruct (f k x) eqn:Hkx; [|done]. exfalso. eapply (klt_irrefl x), HAR; [done|].
    apply (HinR k); [done|rewrite Hin, map_app; set_solver|done].
Qed.
Lemma batch_loop_ok fuel : ∀ A R batch b, input = A ++ R → closed R → brel bef aft batch (keys R) → norm batch →
  (length (List.filter (changed bef aft) (keys R)) ≤ fuel)%nat →
  ∃ b', batch_loop f fuel input output batch b = Ok b' ∧ extends changed_time b b' (delta R).
Proof.
  assert (Hstop : ∀ R b, closed R → List.filter (changed bef aft) (keys R) = [] →
    ∃ b', Ok (E := unit) b = Ok b' ∧ extends changed_time b b' (delta R)).
  { intros R b Hcl HR. exists b. split; [done|]. rewrite delta_unchanged by done. apply extends_refl. }
  induction fuel as [|fuel IH]; intros A R batch b Hin Hcl Hb Hn Hfuel.
  { apply Hstop; [done|]. by destruct (List.filter _ _); simpl in *; [|lia]. }
  destruct batch as [|[k us] batch].
  { apply Hstop; [done|]. unfold brel in Hb. simpl in Hb. symmetry in Hb. by apply map_eq_nil in Hb. }
  destruct (first_block _ _ _ _ _ Hin Hcl Hb Hn) as (M & I & C & -> & HclM & HclC & HM & HkI & Hk & HfI & HfA & HfC).
  rewrite map_app in Hb. apply brel_unchanged in Hb; [|done].
  destruct (block_delta A M I C k us batch b Hin HkI HfI HfA HfC Hb Hn) as (batch' & b1 & E1 & Hb1 & Hn1 & He1).
  destruct (IH (A ++ M ++ I) C batch' b1) as (b2 & E2 & He2); [by rewrite Hin, <- !app_assoc|done..| |].
  { assert (HI : (1 ≤ length (List.filter (changed bef aft) (keys I)))%nat).
    { assert (k ∈ List.filter (changed bef aft) (keys I)) as Hin' by (apply list_elem_of_In, filter_In; by rewrite <- list_elem_of_In).
      destruct (List.filter _ (keys I)); [by apply elem_of_nil in Hin'|simpl; lia]. }
    rewrite !map_app, !List.filter_app, !length_app in Hfuel. lia. }
  exists b2. cbn [batch_loop]. rewrite E1. cbn [mbind outcome_bind]. split; [done|].
  rewrite !delta_app, (delta_unchanged M HclM HM). simpl. by eapply extends_trans.
Qed.
End batch.

(** ** The operator *)

(** C9: the incremental index is the index.  Whatever a batch inserts and deletes
    in whichever instances, the operator does not panic, and its updates turn the
    output, which links each key present before the batch to its neighbours in its
    instance, into the output that links each key present after it, with weight
    one each and nothing else; every update carries the largest time of a key that
    the batch changed. *)
Theorem sort_index_correct {K T : Type} `{OrdLaws K, Ord T, EqDecision K} (f : K → K → bool)
    (input batch : InputTrace K T) (output : OutputTrace K T)
    (cmp_eq : ∀ a b : K, cmp a b = Eq → a = b) (Hf : instances f) (Hcon : consistent f input output batch) :
  ∃ b, add_prev_next_pointers f input output batch = Ok b ∧
    same_total (flatten output ++ strip (sorting_batch_done b))
      (pos (linked f (List.filter (after input) (map fst input)))) ∧
    Forall (λ u, changed_time input batch (time_of u)) (sorting_batch_done b).
Proof.
  pose proof (batch_brel f input batch output Hcon) as Hb.
  destruct (batch_loop_ok cmp_eq f Hf input batch output Hcon (length batch) [] input
    (rewind_zero_weight_key_forward batch) []) as (b & Hr & e & He & Htot & Htimes);
    [done|by intros ? ? ? ? _|by apply brel_rewind|apply rewind_norm|by eapply brel_length|].
  simpl in He. subst e. exists b. split; [done|].
  assert (Hperm : sorting_batch_done b ≡ₚ b) by apply sort_by_perm. split; [|by rewrite Hperm].
  assert (E : same_total (strip (sorting_batch_done b)) (strip b)) by (by apply perm_same_total, Permutation_map).
  rewrite E, (con_linked _ _ _ _ Hcon), Htot. unfold delta, linked, flt. rewrite app_assoc.
  set (l := map _ (List.filter (before input batch) (map fst input))).
  assert (same_total (pos l ++ neg l) []) as ->; [|done].
  trans (neg l ++ pos l); [apply perm_same_total; solve_Permutation|apply neg_pos].
Qed.

(** Two instances, of keys with the same tens digit; the batch deletes 12 and 25,
    inserts 14 and 22, and inserts 16 and deletes it again. *)
Definition ex_filter (a b : Z) : bool := a / 10 =? b / 10.
Definition ex_input : InputTrace Z Z :=
  [(11, [(0, 1)]); (12, [(0, 1); (2, -1)]); (13, [(0, 1)]); (14, [(2, 1)]); (16, [(2, 1); (4, -1)]); (22, [(2, 1)]);
   (25, [(0, 1); (2, -1)])].
Definition ex_batch : InputTrace Z Z :=
  [(12, [(2, -1)]); (14, [(2, 1)]); (16, [(2, 1); (4, -1)]); (22, [(2, 1)]); (25, [(2, -1)])].
Definition ex_output : OutputTrace Z Z :=
  [(11, [((None, Some 12), [(0, 1)])]); (12, [((Some 11, Some 13), [(0, 1)])]); (13, [((Some 12, None), [(0, 1)])]);
   (25, [((None, None), [(0, 1)])])].
Lemma sort_index_correct_witness :
  instances ex_filter ∧ consistent ex_filter ex_input ex_output ex_batch ∧
  ∃ b, add_prev_next_pointers ex_filter ex_input ex_output ex_batch = Ok b ∧
    same_total (flatten ex_output ++ strip (sorting_batch_done b))
      (pos [(11, (None, Some 13)); (13, (Some 11, Some 14)); (14, (Some 13, None)); (22, (None, None))]) ∧
    Forall (λ u, changed_time ex_input ex_batch (time_of u)) (sorting_batch_done b).
Proof.
  assert (Hi : instances ex_filter).
  { unfold instances, ex_filter, klt, cmp, Z_ord. split_and!; intros *; rewrite ?Z.eqb_eq; try congruence.
    intros Hab Hbc E. change (a < b) in Hab. change (b < c) in Hbc.
    assert (a / 10 <= b / 10 <= c / 10) by (split; apply Z.div_le_mono; lia). lia. }
  assert (Hc : consistent ex_filter ex_input ex_output ex_batch).
  { split.
    - by repeat constructor.
    - by repeat constructor.
    - split; [by repeat constructor|]. repeat constructor; simpl; by intros ?%elem_of_nil.
    - intros k us Hin. repeat (apply elem_of_cons in Hin as [[= -> ->]|Hin]; [vm_compute; intuition done|]).
      by apply elem_of_nil in Hin.
    - intros k us Hin _. repeat (apply elem_of_cons in Hin as [[= -> ->]|Hin]; [vm_compute; set_solver|]).
      by apply elem_of_nil in Hin.
    - intros k v. vm_compute. done. }
  split; [done|]. split; [done|].
  exact (sort_index_correct ex_filter ex_input ex_batch ex_output Z.compare_eq Hi Hc).
Defined.
