(* ===== verification/Gradual.v ===== *)
(** Gradual broadcast (src/engine/dataflow/operators/gradual_broadcast.rs, with its
    use in dataflow.rs): every row of a table gets the lower or the upper bound of a
    bucket, the upper one for the share of the keys that the position of a value
    between the bounds asks for, so that a moving value updates few rows.

    The table is a trace, as in [PrevNext.v]: the sorted list of its keys with their
    values and the updates of each.  Differences are integers. *)
From Stdlib Require Import ZArith Lia Bool SpecFloat.
From stdpp Require Import base list strings.
From S2P Require Import Prelude Order Float Data Value PrevNext.
Open Scope Z_scope.

(** ** The bucket *)

Record ApxToBroadcast (Sc : Type) := mk_Apx { lower : Sc; value : Sc; upper : Sc }.
Arguments mk_Apx {Sc} lower value upper.
Arguments lower {Sc} a.
Arguments value {Sc} a.
Arguments upper {Sc} a.
Definition from_triplet {Sc} (triplet : Sc * Sc * Sc) : ApxToBroadcast Sc :=
  let '(l, v, u) := triplet in mk_Apx l v u.
Definition to_upper_bound {Sc} (a : ApxToBroadcast Sc) : ApxToBroadcast Sc := mk_Apx (lower a) (upper a) (upper a).
Definition to_lower_bound {Sc} (a : ApxToBroadcast Sc) : ApxToBroadcast Sc := mk_Apx (lower a) (lower a) (upper a).

Class HasMaxValue (K : Type) := max_value : K.
(** What [V2: Sub + Div] with [V2::Output: Scale<K>] gives the operator. *)
Class Scale (K Sc : Type) := {
  quotient : Type;
  sub : Sc → Sc → Sc;
  div : Sc → Sc → quotient;
  scale : quotient → K → K
}.

Global Instance Key_max_value : HasMaxValue Key := mk_Key (2 ^ 128 - 1).
(** [f as u128]: towards zero, saturating, NaN to 0. *)
Definition f64_as_u128 (x : f64) : Z :=
  match x with
  | S754_nan | S754_zero _ => 0
  | S754_infinity s => if s then 0 else 2 ^ 128 - 1
  | S754_finite s m e => Z.max 0 (Z.min (2 ^ 128 - 1) (cond_Zopp s (Z.shiftl (Zpos m) e)))
  end.
Global Instance OrderedFloat_scale : Scale Key f64 := {|
  quotient := f64;
  sub := f64_sub;
  div := f64_div;
  scale factor number := mk_Key (f64_as_u128 (f64_mul factor (f64_of_int (key_0 number))))
|}.

Section gradual.
Context {K V T Sc K2 : Type} `{Ord K, Ord T, Ord Sc, Ord K2, HasMaxValue K, !Scale K Sc}.

Definition get_threshold (triplet : ApxToBroadcast Sc) (range : K) : K :=
  scale (div (sub (value triplet) (lower triplet)) (sub (upper triplet) (lower triplet))) range.

(** ** The rows of a range of keys *)

Abbreviation Storage := (list (K * list (V * list (T * Z)))).
Abbreviation Output := (list ((K * (V * Sc)) * T * Z)).

(** The value a row gets. *)
Definition broadcast_value (triplet : ApxToBroadcast Sc) (threshold key : K) : Sc :=
  if ord_ltb key threshold then upper triplet else lower triplet.
Fixpoint keys_up_to (to : option K) (storage : Storage) : Storage :=
  match storage with
  | [] => []
  | (key, vals) :: rest =>
      if match to with Some to => negb (ord_ltb key to) | None => false end then []
      else (key, vals) :: keys_up_to to rest
  end.
Definition apply_to_fragment (input_storage : Storage) (triplet : ApxToBroadcast Sc) (from to : option K) (negate : bool)
    (time : option T) : Output :=
  let threshold := get_threshold triplet max_value in
  let start := match from with Some from => move_to_key_or_upper_bound input_storage from | None => input_storage end in
  flat_map (λ kv : K * list (V * list (T * Z)),
      let key := fst kv in
      flat_map (λ vu : V * list (T * Z),
          let data := (fst vu, broadcast_value triplet threshold key) in
          map (λ tr : T * Z,
              let t := match time with Some time => time | None => fst tr end in
              let r := if negate then - snd tr else snd tr in
              ((key, data), t, r)) (snd vu))
        (snd kv))
    (keys_up_to to start).
Definition replace_in_fragment (input_storage : Storage) (old_triplet new_triplet : ApxToBroadcast Sc) (from to : option K)
    (time : option T) : Output :=
  apply_to_fragment input_storage old_triplet from to true time ++
  apply_to_fragment input_storage new_triplet from to false time.

(** ** The new triplet *)

Abbreviation Message := (list ((K2 * (Sc * Sc * Sc)) * T * Z)).
Abbreviation TMap := (list ((K2 * (Sc * Sc * Sc)) * (T * Z))).

(** [PartialEq] of the triplets, with the equality of the scalars. *)
Definition triplet_eqb (a b : ApxToBroadcast Sc) : bool :=
  ord_eqb (lower a) (lower b) && ord_eqb (value a) (value b) && ord_eqb (upper a) (upper b).
(** [BTreeMap] as the sorted list of its entries; [insert] at a present key
    keeps the key. *)
Fixpoint tmap_add (kv : K2 * (Sc * Sc * Sc)) (t : T) (r : Z) (tmap : TMap) : TMap :=
  match tmap with
  | [] => [(kv, (t, r))]
  | (kv0, (time, aggregate)) :: rest =>
      match cmp kv kv0 with
      | Eq => (kv0, (time_max t time, aggregate + r)) :: rest
      | Lt => (kv, (t, r)) :: tmap
      | Gt => (kv0, (time, aggregate)) :: tmap_add kv t r rest
      end
  end.
Definition input_tmap (input : Message) : TMap :=
  foldl (λ tmap u, let '(kv, t, r) := u in tmap_add kv t r tmap) [] input.
Definition get_new_triplet_from_input_vec (current : option (ApxToBroadcast Sc)) (input : Message)
    : outcome unit (option (T * ApxToBroadcast Sc)) :=
  let non_zero := List.filter (λ e : (K2 * (Sc * Sc * Sc)) * (T * Z), negb (snd (snd e) =? 0)) (input_tmap input) in
  if (2 <? length non_zero)%nat then Panic "Gradual broadcast sees inconsistent stream"
  else
    match non_zero with
    | [] => Ok None
    | ((_, received_triplet), (retrieved_time, _)) :: rest =>
        let is_current :=
          match current with Some c => triplet_eqb c (from_triplet received_triplet) | None => false end in
        match rest with
        | [((_, second_triplet), (second_time, _))] =>
            if is_current then Ok (Some (second_time, from_triplet second_triplet))
            else Ok (Some (retrieved_time, from_triplet received_triplet))
        | _ => Ok (Some (retrieved_time, from_triplet received_triplet))
        end
    end.

(** ** The operator *)

(** [std::cmp::min] and [max] on keys. *)
Definition key_min (a b : K) : K := match cmp a b with Gt => b | _ => a end.
Definition key_max (a b : K) : K := match cmp a b with Gt => a | _ => b end.

(** The variables of the operator's closure. *)
Record State := mk_State { old_triplet : option (ApxToBroadcast Sc); triplet : option (ApxToBroadcast Sc) }.
Definition initial_state : State := mk_State None None.

(** A batch of the table: it gets the current triplet. *)
Definition process_batch (st : State) (batch : Storage) : Output :=
  match triplet st with
  | Some triplet => apply_to_fragment batch triplet None None false None
  | None => []
  end.
(** What a change of the bucket asks for before the new triplet is applied:
    whether to redo everything, the triplet that the table then follows, and the
    updates that make it follow this triplet. *)
Definition move_bucket (storage : Storage) (time : T) (otr tr : ApxToBroadcast Sc)
    : bool * ApxToBroadcast Sc * Output :=
  if negb (ord_eqb (lower otr) (lower tr)) || negb (ord_eqb (upper otr) (upper tr)) then
    if negb (ord_eqb (lower otr) (upper tr)) && negb (ord_eqb (lower tr) (upper otr)) then (true, otr, [])
    else
      let '(fake_triplet, old_triplet_replacement) :=
        if ord_eqb (lower otr) (upper tr) then (to_lower_bound otr, to_upper_bound tr)
        else (to_upper_bound otr, to_lower_bound tr) in
      let threshold1 := get_threshold fake_triplet max_value in
      let threshold2 := get_threshold otr max_value in
      (false, old_triplet_replacement,
        replace_in_fragment storage otr fake_triplet (Some (key_min threshold1 threshold2))
          (Some (key_max threshold1 threshold2)) (Some time))
  else (false, otr, []).
Definition process_message (storage : Storage) (st : State) (input2_buffer : Message) : outcome unit (State * Output) :=
  processed ← get_new_triplet_from_input_vec (triplet st) input2_buffer;
  match processed with
  | None => Ok (mk_State (triplet st) (triplet st), [])
  | Some (time, tr) =>
      match triplet st with
      | Some otr =>
          let '(redo, old_triplet, out) := move_bucket storage time otr tr in
          let st := mk_State (Some old_triplet) (Some tr) in
          if redo then Ok (st, out ++ replace_in_fragment storage old_triplet tr None None (Some time))
          else
            let threshold := get_threshold tr max_value in
            let old_threshold := get_threshold old_triplet max_value in
            Ok (st, out ++
              replace_in_fragment storage old_triplet tr (Some (key_min old_threshold threshold))
                (Some (key_max old_threshold threshold)) (Some time))
      | None => Ok (mk_State None (Some tr), apply_to_fragment storage tr None None false (Some time))
      end
  end.
Fixpoint process_messages (storage : Storage) (st : State) (messages : list Message) : outcome unit (State * Output) :=
  match messages with
  | [] => Ok (st, [])
  | input2_buffer :: messages =>
      ' (st, out) ← process_message storage st input2_buffer;
      ' (st, outs) ← process_messages storage st messages;
      Ok (st, out ++ outs)
  end.

(** An activation: the batches of the table, the trace that holds them and all
    the earlier ones, and the messages of the value stream. *)
Record Activation := mk_Activation { act_batches : list Storage; act_storage : Storage; act_messages : list Message }.
Definition activate (st : State) (a : Activation) : outcome unit (State * Output) :=
  let out := flat_map (process_batch st) (act_batches a) in
  ' (st, outs) ← process_messages (act_storage a) st (act_messages a);
  Ok (st, out ++ outs).
Fixpoint gradual_broadcast_core (st : State) (activations : list Activation) : outcome unit (State * Output) :=
  match activations with
  | [] => Ok (st, [])
  | a :: activations =>
      ' (st, out) ← activate st a;
      ' (st, outs) ← gradual_broadcast_core st activations;
      Ok (st, out ++ outs)
  end.
End gradual.
