(* ===== verification/GradualProps.v ===== *)
(** Correctness of gradual broadcast: whatever rows and values arrive in whatever
    order, the accumulated output gives every row of the table the value that the
    current triplet assigns to its key. *)
From Stdlib Require Import ZArith Lia Bool SpecFloat.
From stdpp Require Import base list sets sorting strings.
From S2P Require Import Prelude Order Float Data Value Weights PrevNext Gradual.
Open Scope Z_scope.

(** ** What the scalars promise *)

(** The buckets on which the operator relies: a value at the lower bound selects no
    key, a value at the upper bound every key below the largest one, unless the
    bounds are equal and the selection does not matter. *)
Class ScaleLaws (K Sc : Type) `{Ord K, Ord Sc, HasMaxValue K, !Scale K Sc} := {
  key_ok : K → Prop;
  bucket_ok : Sc → Sc → bool;
  to_lower_bound_spec (a : ApxToBroadcast Sc) : bucket_ok (lower a) (upper a) = true →
    cmp (lower a) (upper a) = Eq ∨
    ∀ k, key_ok k → ord_ltb k (get_threshold (to_lower_bound a) max_value) = false;
  to_upper_bound_spec (a : ApxToBroadcast Sc) : bucket_ok (lower a) (upper a) = true →
    cmp (lower a) (upper a) = Eq ∨
    ∀ k, key_ok k → ord_ltb k (get_threshold (to_upper_bound a) max_value) = true
}.

(** *** Floats *)

(** Bounds that are equal, or have a difference that is finite and not zero. *)
Definition f64_bucket_ok (l u : f64) : bool :=
  ord_eqb l u || match f64_sub u l with S754_finite _ _ _ => true | _ => false end.
(** Every key but the largest one. *)
Definition proper_key (k : Key) : Prop := 0 ≤ key_0 k < 2 ^ 128 - 1.

Lemma f64_div_self s m e : f64_div (S754_finite s m e) (S754_finite s m e) = f64_one.
Proof.
  assert (SFdiv_core_binary 53 1024 (Zpos m) e (Zpos m) e = (2 ^ 53, -53, loc_Exact)) as E.
  { unfold SFdiv_core_binary. rewrite !Z.sub_diag. change (Z.min (fexp 53 1024 0) 0) with (-53).
    change (0 - -53) with 53. cbv iota. rewrite Z.shiftl_mul_pow2 by lia.
    destruct (Z.div_eucl (Zpos m * 2 ^ 53) (Zpos m)) as [q r] eqn:Hqr.
    assert (q = Zpos m * 2 ^ 53 / Zpos m) as -> by (unfold Z.div; by rewrite Hqr).
    assert (r = (Zpos m * 2 ^ 53) mod Zpos m) as -> by (unfold Z.modulo; by rewrite Hqr).
    rewrite Z.mul_comm, Z.mod_mul, Z.div_mul by lia. unfold new_location. by destruct (Z.even _). }
  unfold f64_div, SFdiv. rewrite E, xorb_nilpotent. reflexivity.
Qed.
Lemma f64_sub_self l : match l with S754_infinity _ | S754_nan => False | _ => True end → ∃ s, f64_sub l l = S754_zero s.
Proof.
  destruct l as [[]|s| |s m e]; simpl; try done; try by eexists.
  intros _. unfold f64_sub, SFsub. rewrite Z.sub_diag. by eexists.
Qed.
Lemma f64_finite_difference u l s m e : f64_sub u l = S754_finite s m e →
  match l with S754_infinity _ | S754_nan => False | _ => True end.
Proof. by destruct u as [[]|[]| |? ? ?], l as [[]|[]| |? ? ?]. Qed.

Global Program Instance OrderedFloat_scale_laws : ScaleLaws Key f64 := {|
  key_ok := proper_key;
  bucket_ok := f64_bucket_ok
|}.
Next Obligation.
  intros [l v u]. simpl. unfold f64_bucket_ok. rewrite orb_true_iff. intros [He|Hd].
  { left. unfold ord_eqb in He. by destruct (cmp l u). }
  right. intros [k] Hk. unfold proper_key in Hk. simpl in Hk.
  destruct (f64_sub u l) as [| | |s m e] eqn:E; try done.
  destruct (f64_sub_self l) as [s' Hl]; [by eapply f64_finite_difference|].
  unfold get_threshold. cbn [sub div scale lower value upper to_lower_bound to_upper_bound OrderedFloat_scale]. rewrite Hl. simpl. unfold ord_ltb, cmp, Key_ord, cmp, Z_ord. simpl.
  destruct (k ?= 0) eqn:Hc; [done| |done]. change (k < 0) in Hc. lia.
Qed.
Next Obligation.
  intros [l v u]. simpl. unfold f64_bucket_ok. rewrite orb_true_iff. intros [He|Hd].
  { left. unfold ord_eqb in He. by destruct (cmp l u). }
  right. intros [k] Hk. unfold proper_key in Hk. simpl in Hk.
  destruct (f64_sub u l) as [| | |s m e] eqn:E; try done.
  unfold get_threshold. cbn [sub div scale lower value upper to_lower_bound to_upper_bound OrderedFloat_scale]. rewrite f64_div_self.
  set (M := f64_as_u128 _). assert (M = 2 ^ 128 - 1) as -> by by vm_compute.
  unfold ord_ltb, cmp, Key_ord, cmp, Z_ord. simpl key_0.
  destruct (k ?= 2 ^ 128 - 1) eqn:Hc; [|done|].
  - apply Z.compare_eq in Hc. lia.
  - apply Z.compare_gt_iff in Hc. lia.
Qed.

(** ** What the fragments add up to *)

Section props.
Context {K V T Sc K2 : Type} `{OrdLaws K, Ord T, OrdLaws Sc, OrdLaws K2, HasMaxValue K, !Scale K Sc, !ScaleLaws K Sc}.
Abbreviation Storage := (list (K * list (V * list (T * Z)))).
Abbreviation Output := (list ((K * (V * Sc)) * T * Z)).
Abbreviation Rows := (list ((K * V) * Z)).
Abbreviation Apx := (ApxToBroadcast Sc).
Implicit Types (storage batch : Storage) (out : Output) (tr otr : Apx) (k : K) (from to : option K)
  (f : K * (V * Sc) → Z).

(** The rows of a trace with their differences, and what an output adds up to. *)
Definition rows_of_vals k (vals : list (V * list (T * Z))) : Rows :=
  flat_map (λ vu, map (λ u, ((k, fst vu), snd u)) (snd vu)) vals.
Definition rows storage : Rows := flat_map (λ kv, rows_of_vals (fst kv) (snd kv)) storage.
Definition strip_times out : list ((K * (V * Sc)) * Z) := map (λ o, (fst (fst o), snd o)) out.
Lemma strip_times_app out1 out2 : strip_times (out1 ++ out2) = strip_times out1 ++ strip_times out2.
Proof. apply map_app. Qed.
Lemma rows_keys storage kv w : (kv, w) ∈ rows storage → fst kv ∈ map fst storage.
Proof.
  unfold rows. intros ([k vals] & Hin & Hrow)%list_elem_of_In%in_flat_map.
  apply in_flat_map in Hrow as ([v us] & _ & (u & [= <- <-] & _)%in_map_iff).
  apply list_elem_of_In, in_map_iff. by exists (k, vals).
Qed.

(** Same record, up to equality of the scalars. *)
Definition same_cell (a b : K * (V * Sc)) : Prop :=
  fst a = fst b ∧ fst (snd a) = fst (snd b) ∧ cmp (snd (snd a)) (snd (snd b)) = Eq.
(** The table that follows [tr]. *)
Definition cell tr (kv : K * V) : K * (V * Sc) :=
  (fst kv, (snd kv, broadcast_value tr (get_threshold tr max_value) (fst kv))).
Definition broadcast tr (data : Rows) : list ((K * (V * Sc)) * Z) := map (λ e, (cell tr (fst e), snd e)) data.

Definition in_fragment from to k : bool :=
  match from with Some a => negb (ord_ltb k a) | None => true end &&
  match to with Some b => ord_ltb k b | None => true end.
Definition sorted_storage storage : Prop := StronglySorted (λ a b, cmp a b = Lt) (map fst storage).

Lemma ord_ltb_trans (a b c : K) : ord_ltb a b = true → ord_ltb b c = true → ord_ltb a c = true.
Proof.
  unfold ord_ltb. destruct (cmp a b) eqn:Eab, (cmp b c) eqn:Ebc; try done. intros _ _.
  rewrite (cmp_lt_le_trans a b c); [done|done|]. unfold ord_le. by rewrite Ebc.
Qed.
Lemma keys_up_to_filter to storage : sorted_storage storage →
  keys_up_to to storage = List.filter (λ kv, match to with Some b => ord_ltb (fst kv) b | None => true end) storage.
Proof.
  unfold sorted_storage. induction storage as [|[k vals] storage IH]; simpl; [done|].
  intros [Hs Hf]%StronglySorted_inv. destruct to as [b|]; simpl in *; [|by rewrite IH].
  destruct (ord_ltb k b) eqn:Hkb; simpl; [by rewrite IH|].
  assert (List.filter (λ kv, ord_ltb (fst kv) b) storage = []) as ->; [|done].
  clear IH Hs. induction storage as [|[k' vals'] storage IH]; simpl in *; [done|].
  apply Forall_cons in Hf as [Hk' Hf]. destruct (ord_ltb k' b) eqn:Hb; [|by apply IH].
  rewrite (ord_ltb_trans k k' b) in Hkb; [done| |done]. unfold ord_ltb. by rewrite Hk'.
Qed.
Lemma seek_filter a storage : sorted_storage storage →
  move_to_key_or_upper_bound storage a = List.filter (λ kv, negb (ord_ltb (fst kv) a)) storage.
Proof.
  unfold sorted_storage. induction storage as [|[k vals] storage IH]; simpl; [done|].
  intros [Hs Hf]%StronglySorted_inv. destruct (ord_ltb k a) eqn:Hka; simpl; [by apply IH|].
  f_equal. clear IH Hs. induction storage as [|[k' vals'] storage IH]; simpl in *; [done|].
  apply Forall_cons in Hf as [Hk' Hf]. destruct (ord_ltb k' a) eqn:Ha; simpl.
  - rewrite (ord_ltb_trans k k' a) in Hka; [done| |done]. unfold ord_ltb. by rewrite Hk'.
  - f_equal. by apply IH.
Qed.
Lemma sorted_storage_filter (P : K * list (V * list (T * Z)) → bool) storage :
  sorted_storage storage → sorted_storage (List.filter P storage).
Proof.
  unfold sorted_storage. induction storage as [|kv storage IH]; simpl; [done|].
  intros [Hs Hf]%StronglySorted_inv. destruct (P kv); simpl; [|by apply IH]. constructor; [by apply IH|].
  rewrite Forall_forall in Hf |- *. intros x (kv' & -> & Hin)%list_elem_of_fmap. apply Hf.
  apply list_elem_of_fmap. exists kv'. split; [done|].
  by apply list_elem_of_In, filter_In in Hin as [?%list_elem_of_In _].
Qed.
Lemma fragment_filter from to storage : sorted_storage storage ∨ (from = None ∧ to = None) →
  keys_up_to to (match from with Some a => move_to_key_or_upper_bound storage a | None => storage end) =
  List.filter (λ kv, in_fragment from to (fst kv)) storage.
Proof.
  intros [Hs|[-> ->]].
  - assert (E : ∀ P Q : K * list (V * list (T * Z)) → bool,
      List.filter P (List.filter Q storage) = List.filter (λ kv, Q kv && P kv) storage).
    { intros P Q. clear. induction storage as [|kv storage IH]; simpl; [done|].
      destruct (Q kv); simpl; [destruct (P kv); by rewrite IH|done]. }
    unfold in_fragment. destruct from as [a|].
    + rewrite seek_filter by done. rewrite keys_up_to_filter by by apply sorted_storage_filter. apply E.
    + by rewrite keys_up_to_filter.
  - unfold in_fragment. simpl. induction storage as [|[k vals] storage IH]; simpl; [done|]. by f_equal.
Qed.

Definition sign (negate : bool) : Z := if negate then -1 else 1.
Lemma apply_to_fragment_sum f storage tr from to negate time :
  sorted_storage storage ∨ (from = None ∧ to = None) →
  wsum f (strip_times (apply_to_fragment storage tr from to negate time)) =
  sign negate * wsum (λ kv, if in_fragment from to (fst kv) then f (cell tr kv) else 0) (rows storage).
Proof.
  intros Hs. unfold apply_to_fragment. rewrite (fragment_filter from to storage Hs). clear Hs.
  induction storage as [|[k vals] storage IH]; [simpl; lia|].
  unfold rows. cbn [flat_map List.filter fst snd]. fold (rows storage).
  rewrite wsum_app, Z.mul_add_distr_l, <- IH. destruct (in_fragment from to k) eqn:Hin.
  - cbn [flat_map fst snd]. rewrite strip_times_app, wsum_app. f_equal. unfold rows_of_vals. clear -Hin.
    induction vals as [|[v us] vals IHv]; [simpl; lia|]. cbn [flat_map fst snd].
    rewrite strip_times_app, !wsum_app, IHv, Z.mul_add_distr_l. f_equal. clear IHv.
    induction us as [|[t r] us IHu]; simpl in *; [lia|]. rewrite IHu, Hin. destruct negate; simpl; unfold cell; simpl; lia.
  - set (S0 := wsum _ (rows_of_vals k vals)). assert (S0 = 0) as ->; [|by rewrite Z.mul_0_r].
    apply wsum_zero. intros [[k' v'] w] Hrow. left. simpl.
    assert (k' = k) as ->; [|by rewrite Hin].
    apply list_elem_of_In, in_flat_map in Hrow as (vu & _ & Hrow). apply in_map_iff in Hrow as (tr' & E & _). by injection E.
Qed.

(** Replacing a triplet, in a fragment outside which it selects the same. *)
Lemma replace_in_fragment_sum f storage otr tr from to time :
  sorted_storage storage ∨ (from = None ∧ to = None) →
  (∀ kv w, (kv, w) ∈ rows storage → in_fragment from to (fst kv) = false → f (cell otr kv) = f (cell tr kv)) →
  wsum f (broadcast otr (rows storage)) + wsum f (strip_times (replace_in_fragment storage otr tr from to time)) =
  wsum f (broadcast tr (rows storage)).
Proof.
  intros Hs Hout. unfold replace_in_fragment, broadcast.
  rewrite strip_times_app, wsum_app, !apply_to_fragment_sum, !wsum_fmap by done. simpl.
  assert (wsum (λ x, f (cell tr x)) (rows storage) =
    wsum (λ x, f (cell otr x)) (rows storage) +
      (wsum (λ x, if in_fragment from to (fst x) then f (cell tr x) else 0) (rows storage) -
       wsum (λ x, if in_fragment from to (fst x) then f (cell otr x) else 0) (rows storage))) as ->; [|lia].
  rewrite <- wsum_minus, <- wsum_plus. apply wsum_ext. intros [kv w] Hin. simpl.
  destruct (in_fragment from to (fst kv)) eqn:E; [lia|]. rewrite (Hout kv w Hin E). lia.
Qed.

(** ** Moving between triplets *)

Definition same_bucket tr1 tr2 : Prop := cmp (lower tr1) (lower tr2) = Eq ∧ cmp (upper tr1) (upper tr2) = Eq.
Definition bucket_good tr : Prop := bucket_ok (lower tr) (upper tr) = true.
Definition keys_ok storage : Prop := Forall key_ok (map fst storage).

Lemma ord_eqb_true {A} `{Ord A} (a b : A) : ord_eqb a b = true ↔ cmp a b = Eq.
Proof. unfold ord_eqb. by destruct (cmp a b). Qed.
Lemma cmp_eq_sym {A} `{OrdLaws A} (a b : A) : cmp a b = Eq → cmp b a = Eq.
Proof. intros E. by rewrite cmp_antisym, E. Qed.
Lemma key_min_spec a b k : ord_ltb k (key_min a b) = true → ord_ltb k a = true ∧ ord_ltb k b = true.
Proof.
  unfold key_min, ord_ltb. destruct (cmp k (match cmp a b with Gt => b | _ => a end)) eqn:Hk; try done. intros _.
  destruct (cmp a b) eqn:E; (split; [try by rewrite Hk|try by rewrite Hk]).
  - by rewrite <- (cmp_eq_r a b k E), Hk.
  - rewrite (cmp_lt_le_trans k a b); [done|done|]. unfold ord_le. by rewrite E.
  - rewrite (cmp_lt_le_trans k b a); [done|done|]. unfold ord_le. rewrite cmp_antisym, E. done.
Qed.
Lemma key_max_spec a b k : ord_ltb k (key_max a b) = false → ord_ltb k a = false ∧ ord_ltb k b = false.
Proof.
  intros Hk. assert (Hn : ord_ltb k a = true ∨ ord_ltb k b = true → ord_ltb k (key_max a b) = true).
  { unfold key_max, ord_ltb. intros Hab. destruct (cmp a b) eqn:E.
    - rewrite (cmp_eq_r _ _ k E) in Hab. by destruct Hab.
    - destruct Hab as [Ha|]; [|done]. destruct (cmp k a) eqn:Hka; try done.
      rewrite (cmp_lt_le_trans k a b); [done|done|]. unfold ord_le. by rewrite E.
    - destruct Hab as [|Hb]; [done|]. destruct (cmp k b) eqn:Hkb; try done.
      rewrite (cmp_lt_le_trans k b a); [done|done|]. unfold ord_le. by rewrite cmp_antisym, E. }
  destruct (ord_ltb k a) eqn:Ha, (ord_ltb k b) eqn:Hb; try done; by rewrite Hn in Hk by auto.
Qed.
(** Outside the fragment between their thresholds, triplets of one bucket agree. *)
Lemma same_bucket_outside otr tr kv : same_bucket otr tr →
  let a := get_threshold otr max_value in let b := get_threshold tr max_value in
  in_fragment (Some (key_min a b)) (Some (key_max a b)) (fst kv) = false → same_cell (cell otr kv) (cell tr kv).
Proof.
  intros [Hl Hu] a b Hout. unfold same_cell, cell, broadcast_value. simpl. fold a b. split_and!; [done..|].
  unfold in_fragment in Hout. destruct (ord_ltb (fst kv) (key_min a b)) eqn:Hmin; simpl in Hout.
  - apply key_min_spec in Hmin as [-> ->]. done.
  - apply key_max_spec in Hout as [-> ->]. done.
Qed.
Lemma same_bucket_sym otr tr : same_bucket otr tr → same_bucket tr otr.
Proof. intros [? ?]. split; by apply cmp_eq_sym. Qed.

(** A triplet at a bound of its bucket gives this bound to every row. *)
Lemma lower_bound_cell tr kv : bucket_good tr → key_ok (fst kv) →
  cmp (snd (snd (cell (to_lower_bound tr) kv))) (lower tr) = Eq.
Proof.
  intros Hb Hk. unfold cell, broadcast_value. simpl. destruct (to_lower_bound_spec tr Hb) as [E|E].
  - destruct (ord_ltb _ _); [by apply cmp_eq_sym|apply cmp_refl].
  - rewrite E by done. apply cmp_refl.
Qed.
Lemma upper_bound_cell tr kv : bucket_good tr → key_ok (fst kv) →
  cmp (snd (snd (cell (to_upper_bound tr) kv))) (upper tr) = Eq.
Proof.
  intros Hb Hk. unfold cell, broadcast_value. simpl. destruct (to_upper_bound_spec tr Hb) as [E|E].
  - destruct (ord_ltb _ _); [apply cmp_refl|done].
  - rewrite E by done. apply cmp_refl.
Qed.
Lemma cmp_eq_trans3 (a b c d : Sc) : cmp a b = Eq → cmp b c = Eq → cmp d c = Eq → cmp a d = Eq.
Proof.
  intros E1 E2 E3. change (ord_eq a b) in E1. change (ord_eq b c) in E2. change (ord_eq d c) in E3.
  change (ord_eq a d). by rewrite E1, E2, <- E3.
Qed.

Lemma replace_same_bucket f storage otr tr time : Proper (same_cell ==> eq) f → sorted_storage storage →
  same_bucket otr tr →
  let a := get_threshold otr max_value in let b := get_threshold tr max_value in
  wsum f (broadcast otr (rows storage)) +
    wsum f (strip_times (replace_in_fragment storage otr tr (Some (key_min a b)) (Some (key_max a b)) time)) =
  wsum f (broadcast tr (rows storage)).
Proof.
  intros Hf Hs Hb a b. apply replace_in_fragment_sum; [by left|]. intros kv w _ Hout. by apply Hf, same_bucket_outside.
Qed.
Lemma broadcast_ext f storage tr1 tr2 : Proper (same_cell ==> eq) f → keys_ok storage →
  (∀ kv, key_ok (fst kv) → same_cell (cell tr1 kv) (cell tr2 kv)) →
  wsum f (broadcast tr1 (rows storage)) = wsum f (broadcast tr2 (rows storage)).
Proof.
  intros Hf Hk Hcell. unfold broadcast. rewrite !wsum_fmap. apply wsum_ext. intros [kv w] Hin. apply Hf, Hcell.
  unfold keys_ok in Hk. rewrite Forall_forall in Hk. eapply Hk, rows_keys, Hin.
Qed.
(** [min] and [max] with the arguments exchanged select the same fragment. *)
Lemma in_fragment_swap a b k :
  in_fragment (Some (key_min a b)) (Some (key_max a b)) k = in_fragment (Some (key_min b a)) (Some (key_max b a)) k.
Proof.
  unfold in_fragment, key_min, key_max, ord_ltb. rewrite (cmp_antisym a b).
  destruct (cmp a b) eqn:E; simpl; try done. by rewrite !(cmp_eq_r _ _ k E).
Qed.

Lemma replace_same_bucket_swapped f storage otr tr time : Proper (same_cell ==> eq) f → sorted_storage storage →
  same_bucket otr tr →
  let a := get_threshold tr max_value in let b := get_threshold otr max_value in
  wsum f (broadcast otr (rows storage)) +
    wsum f (strip_times (replace_in_fragment storage otr tr (Some (key_min a b)) (Some (key_max a b)) time)) =
  wsum f (broadcast tr (rows storage)).
Proof.
  intros Hf Hs Hb a b. apply replace_in_fragment_sum; [by left|]. intros kv w _ Hout.
  rewrite in_fragment_swap in Hout. by apply Hf, same_bucket_outside.
Qed.

Lemma lower_bucket tr : same_bucket tr (to_lower_bound tr).
Proof. split; apply cmp_refl. Qed.
Lemma upper_bucket tr : same_bucket tr (to_upper_bound tr).
Proof. split; apply cmp_refl. Qed.
(** A bucket is left at the bound where the next one is entered. *)
Lemma adjacent_cell otr tr kv : bucket_good otr → bucket_good tr → key_ok (fst kv) → cmp (lower otr) (upper tr) = Eq →
  same_cell (cell (to_lower_bound otr) kv) (cell (to_upper_bound tr) kv).
Proof.
  intros Ho Ht Hk E. split_and!; [done..|]. eapply cmp_eq_trans3; [by apply lower_bound_cell|exact E|by apply upper_bound_cell].
Qed.
Lemma move_bucket_sum f storage time otr tr redo old out : Proper (same_cell ==> eq) f → sorted_storage storage →
  keys_ok storage → bucket_good otr → bucket_good tr → move_bucket storage time otr tr = (redo, old, out) →
  wsum f (broadcast otr (rows storage)) + wsum f (strip_times out) = wsum f (broadcast old (rows storage)) ∧
  (redo = false → same_bucket old tr).
Proof.
  intros Hf Hs Hk Hgo Hg. unfold move_bucket.
  destruct (negb (ord_eqb (lower otr) (lower tr)) || _) eqn:Hmove.
  2: { intros [= <- <- <-]. simpl. rewrite Z.add_0_r. split; [done|]. intros _.
       apply orb_false_iff in Hmove as [Hl%negb_false_iff Hu%negb_false_iff]. apply ord_eqb_true in Hl, Hu. done. }
  clear Hmove. destruct (ord_eqb (lower otr) (upper tr)) eqn:Elu; simpl.
  - intros [= <- <- <-]. apply ord_eqb_true in Elu.
    rewrite replace_same_bucket_swapped; [|done..|apply lower_bucket].
    split; [|intros _; split; apply cmp_refl]. apply broadcast_ext; [done..|]. intros kv Hkv. by apply adjacent_cell.
  - destruct (ord_eqb (lower tr) (upper otr)) eqn:Eul; simpl.
    + intros [= <- <- <-]. apply ord_eqb_true in Eul.
      rewrite replace_same_bucket_swapped; [|done..|apply upper_bucket].
      split; [|intros _; split; apply cmp_refl]. apply broadcast_ext; [done..|]. intros kv Hkv.
      destruct (adjacent_cell tr otr kv Hg Hgo Hkv Eul) as (E1 & E2 & E3). split_and!; [done..|]. by apply cmp_eq_sym.
    + intros [= <- <- <-]. simpl. by rewrite Z.add_0_r.
Qed.

(** ** The triplet that a message brings *)

Abbreviation KV2 := (K2 * (Sc * Sc * Sc))%type.
Abbreviation Message := (list (KV2 * T * Z)).
Implicit Types (msg : Message) (cur new : option KV2) (g : KV2 → Z).

Definition present cur : list (KV2 * Z) := match cur with Some x => [(x, 1)] | None => [] end.
Definition changes msg : list (KV2 * Z) := map (λ u, (fst (fst u), snd u)) msg.
(** The message replaces the row of the value table. *)
Definition value_update cur msg new : Prop := weq ord_eq (changes msg) (present new ++ wneg (present cur)).

Definition entry_weights (m : list (KV2 * (T * Z))) : list (KV2 * Z) := map (λ e, (fst e, snd (snd e))) m.
Definition sorted_tmap (m : list (KV2 * (T * Z))) : Prop := StronglySorted (λ a b, cmp a b = Lt) (map fst m).

Lemma tmap_add_keys (kv : KV2) (t : T) r m x : x ∈ map fst (tmap_add kv t r m) → x = kv ∨ x ∈ map fst m.
Proof.
  induction m as [|[kv0 [t0 r0]] m IH]; simpl; [set_solver|]. destruct (cmp kv kv0); simpl; set_solver.
Qed.
Lemma tmap_add_sorted (kv : KV2) (t : T) r m : sorted_tmap m → sorted_tmap (tmap_add kv t r m).
Proof.
  unfold sorted_tmap. induction m as [|[kv0 [t0 r0]] m IH]; simpl; [repeat constructor|].
  intros Hs. pose proof (StronglySorted_inv Hs) as [Hs' Hf]. destruct (cmp kv kv0) eqn:E; simpl; [done| |].
  - constructor; [done|]. constructor; [done|]. rewrite Forall_forall in Hf |- *. intros x Hx.
    eapply cmp_lt_le_trans; [done|]. unfold ord_le. by rewrite Hf.
  - constructor; [by apply IH|]. rewrite Forall_forall in Hf |- *. intros x [->|Hx]%tmap_add_keys; [|by apply Hf].
    by rewrite cmp_antisym, E.
Qed.
Lemma tmap_add_sum g (kv : KV2) (t : T) r m : Proper (ord_eq ==> eq) g →
  wsum g (entry_weights (tmap_add kv t r m)) = g kv * r + wsum g (entry_weights m).
Proof.
  intros Hg. induction m as [|[kv0 [t0 r0]] m IH]; simpl; [lia|].
  destruct (cmp kv kv0) eqn:E; simpl; [|lia|rewrite IH; lia]. rewrite (Hg kv kv0 E). lia.
Qed.
Lemma input_tmap_spec msg : sorted_tmap (input_tmap msg) ∧ weq ord_eq (entry_weights (input_tmap msg)) (changes msg) ∧
  ∀ x, x ∈ map fst (input_tmap msg) → x ∈ map (λ u, fst (fst u)) msg.
Proof.
  unfold input_tmap. induction msg as [|[[kv t] r] msg IH] using rev_ind; [split_and!; [constructor|done|set_solver]|].
  destruct IH as (IHs & IHw & IHk). rewrite foldl_app. simpl. split_and!.
  - by apply tmap_add_sorted.
  - intros g Hg. rewrite tmap_add_sum, (IHw g Hg) by done. unfold changes. rewrite map_app, wsum_app. simpl. lia.
  - intros x [->|Hx]%tmap_add_keys; rewrite map_app; [set_solver|]. apply elem_of_app. left. by apply IHk.
Qed.

(** The entries whose differences do not cancel out. *)
Definition non_zero msg : list (KV2 * (T * Z)) :=
  List.filter (λ e : KV2 * (T * Z), negb (snd (snd e) =? 0)) (input_tmap msg).
Definition is_key (x y : KV2) : Z := Z.b2z (ord_eqb x y).
Global Instance is_key_proper (x : KV2) : Proper (ord_eq ==> eq) (is_key x).
Proof. intros y z E. unfold is_key, ord_eqb. by rewrite (cmp_eq_r _ _ x E). Qed.
Lemma entry_weight_zero (m : list (KV2 * (T * Z))) x : (∀ e, e ∈ m → cmp x (fst e) ≠ Eq) →
  wsum (is_key x) (entry_weights m) = 0.
Proof.
  intros Hm. apply wsum_zero. intros e' (e & -> & Hin)%list_elem_of_fmap. left. simpl. unfold is_key, ord_eqb.
  specialize (Hm e Hin). by destruct (cmp x (fst e)).
Qed.
Lemma entry_weight (m : list (KV2 * (T * Z))) e : sorted_tmap m → e ∈ m →
  wsum (is_key (fst e)) (entry_weights m) = snd (snd e).
Proof.
  unfold sorted_tmap. induction m as [|e0 m IH]; simpl; [by intros _ ?%elem_of_nil|].
  intros [Hs Hf]%StronglySorted_inv. rewrite Forall_forall in Hf. intros [->|Hin]%elem_of_cons.
  - rewrite entry_weight_zero; [unfold is_key, ord_eqb; rewrite cmp_refl; simpl; lia|].
    intros e Hin. rewrite (Hf (fst e)); [done|]. apply list_elem_of_fmap. by exists e.
  - rewrite IH by done. assert (E : cmp (fst e0) (fst e) = Lt).
    { apply Hf, list_elem_of_fmap. by exists e. }
    unfold is_key, ord_eqb. by rewrite cmp_antisym, E.
Qed.
Lemma non_zero_spec msg : sorted_tmap (non_zero msg) ∧
  (∀ g, wsum g (entry_weights (non_zero msg)) = wsum g (entry_weights (input_tmap msg))) ∧
  ∀ e, e ∈ non_zero msg → snd (snd e) ≠ 0 ∧ fst e ∈ map (λ u, fst (fst u)) msg.
Proof.
  destruct (input_tmap_spec msg) as (Hs & _ & Hk). unfold non_zero, sorted_tmap in *. split_and!.
  - revert Hs. generalize (input_tmap msg). intros m. induction m as [|e m IH]; simpl; [done|].
    intros [Hs Hf]%StronglySorted_inv. destruct (negb _); simpl; [|by apply IH]. constructor; [by apply IH|].
    rewrite Forall_forall in Hf |- *. intros x (e' & -> & Hin)%list_elem_of_fmap. apply Hf, list_elem_of_fmap.
    exists e'. split; [done|]. by apply list_elem_of_In, filter_In in Hin as [?%list_elem_of_In _].
  - intros g. generalize (input_tmap msg). intros m. induction m as [|e m IH]; simpl; [done|].
    destruct (Z.eqb_spec (snd (snd e)) 0) as [E|]; simpl; rewrite IH; [rewrite E|]; lia.
  - intros e [Hin Hnz]%list_elem_of_In%filter_In. split; [lia|]. apply Hk, list_elem_of_fmap.
    exists e. split; [done|]. by apply list_elem_of_In.
Qed.

Definition opt_is (cur : option KV2) (x : KV2) : Prop := match cur with Some c => cmp x c = Eq | None => False end.
(** What is left of a message that replaces a row: the old row and the new one. *)
Lemma non_zero_rows cur msg new : value_update cur msg new →
  (∀ e, e ∈ non_zero msg → opt_is cur (fst e) ∨ opt_is new (fst e)) ∧
  (∀ n, new = Some n → ¬ opt_is cur n → ∃ e, e ∈ non_zero msg ∧ cmp n (fst e) = Eq).
Proof.
  intros Hv. destruct (input_tmap_spec msg) as (_ & Hw & _). destruct (non_zero_spec msg) as (Hs & Hnz & He).
  assert (E : ∀ x, wsum (is_key x) (entry_weights (non_zero msg)) =
    wsum (is_key x) (present new) - wsum (is_key x) (present cur)).
  { intros x. rewrite Hnz, (Hw _ _), (Hv _ _), wsum_app, wsum_wneg. lia. }
  assert (Hp : ∀ o x, wsum (is_key x) (present o) ≠ 0 → opt_is o x).
  { intros [y|] x; simpl; [|done]. unfold is_key, ord_eqb. by destruct (cmp x y). }
  split.
  - intros e Hin. specialize (E (fst e)). rewrite entry_weight in E by done. destruct (He e Hin) as [Hne _].
    destruct (Z.eq_dec (wsum (is_key (fst e)) (present cur)) 0); [right; apply Hp; lia|left; by apply Hp].
  - intros n -> Hcur. specialize (E n).
    assert (E1 : wsum (is_key n) (present (Some n)) = 1) by (simpl; unfold is_key, ord_eqb; by rewrite cmp_refl).
    assert (E0 : wsum (is_key n) (present cur) = 0).
    { destruct (Z.eq_dec (wsum (is_key n) (present cur)) 0) as [|Hn]; [done|]. by apply Hp in Hn. }
    rewrite E1, E0 in E. clear -E. unfold entry_weights in E.
    induction (non_zero msg) as [|e m IH]; simpl in E; [done|]. destruct (cmp n (fst e)) eqn:Ee.
    { exists e. split; [by constructor|done]. }
    all: destruct IH as (e' & Hin & He'); [revert E; unfold is_key at 1, ord_eqb; by rewrite Ee|].
    all: exists e'; split; [by constructor|done].
Qed.

Definition same_triplet tr1 tr2 : Prop := triplet_eqb tr1 tr2 = true.
Lemma same_triplet_cmp (a b : KV2) : cmp a b = Eq → same_triplet (from_triplet (snd a)) (from_triplet (snd b)).
Proof.
  destruct a as [i [[l v] u]], b as [j [[l' v'] u']]. rewrite pair_cmp_eq. intros [_ E]. simpl in E.
  apply pair_cmp_eq in E as [E Eu]. apply pair_cmp_eq in E as [El Ev]. simpl in *.
  unfold same_triplet, triplet_eqb. simpl. unfold ord_eqb. by rewrite El, Ev, Eu.
Qed.
Lemma same_triplet_spec tr1 tr2 : same_triplet tr1 tr2 ↔
  cmp (lower tr1) (lower tr2) = Eq ∧ cmp (value tr1) (value tr2) = Eq ∧ cmp (upper tr1) (upper tr2) = Eq.
Proof. unfold same_triplet, triplet_eqb. rewrite !andb_true_iff, !ord_eqb_true. tauto. Qed.
Global Instance same_triplet_equivalence : Equivalence same_triplet.
Proof.
  split.
  - intros a. apply same_triplet_spec. by rewrite !cmp_refl.
  - intros a b (E1 & E2 & E3)%same_triplet_spec. apply same_triplet_spec. split_and!; by apply cmp_eq_sym.
  - intros a b c (E1 & E2 & E3)%same_triplet_spec (F1 & F2 & F3)%same_triplet_spec. apply same_triplet_spec.
    change (ord_eq (lower a) (lower b)) in E1. change (ord_eq (value a) (value b)) in E2.
    change (ord_eq (upper a) (upper b)) in E3. split_and!; [change (ord_eq (lower a) (lower c))|
      change (ord_eq (value a) (value c))|change (ord_eq (upper a) (upper c))]; by etrans.
Qed.

(** The operator's triplet follows the value table. *)
Definition follows (current : option Apx) (cur : option KV2) : Prop :=
  match cur with Some x => ∃ c, current = Some c ∧ same_triplet c (from_triplet (snd x)) | None => True end.

Lemma two_classes msg cur new e1 e2 e3 rest : value_update cur msg new → non_zero msg = e1 :: e2 :: e3 :: rest → False.
Proof.
  intros Hv E. destruct (non_zero_rows cur msg new Hv) as [Hr _]. destruct (non_zero_spec msg) as (Hs & _ & _).
  rewrite E in *. unfold sorted_tmap in Hs. simpl in Hs. apply StronglySorted_inv in Hs as [Hs Hf1].
  apply StronglySorted_inv in Hs as [_ Hf2]. apply Forall_cons in Hf1 as [L12 [L13 _]%Forall_cons].
  apply Forall_cons in Hf2 as [L23 _].
  assert (Hn : ∀ o (a b : KV2), opt_is o a → opt_is o b → cmp a b = Lt → False).
  { intros [o|]; simpl; [|done]. intros a b Ea Eb L. rewrite (cmp_eq_l a o b Ea), cmp_antisym, Eb in L. done. }
  destruct (Hr e1) as [P1|P1], (Hr e2) as [P2|P2], (Hr e3) as [P3|P3];
    try (by repeat constructor); eauto using Hn.
Qed.
Lemma follows_same current cur x : follows current cur → opt_is cur x →
  ∃ c, current = Some c ∧ same_triplet c (from_triplet (snd x)).
Proof.
  destruct cur as [c|]; simpl; [|done]. intros (tr & -> & Htr) E. exists tr. split; [done|].
  rewrite Htr. by apply same_triplet_cmp, cmp_eq_sym.
Qed.
(** Every row left is the new one or the one followed, and the new one is left or
    followed. *)
Definition entry_triplet (e : KV2 * (T * Z)) : Apx := from_triplet (snd (fst e)).
Definition is_followed (current : option Apx) tr : Prop := ∃ c, current = Some c ∧ same_triplet c tr.
Lemma rows_left current cur msg n : value_update cur msg (Some n) → follows current cur →
  let tn := from_triplet (snd n) in
  (∀ e, e ∈ non_zero msg → same_triplet (entry_triplet e) tn ∨ is_followed current (entry_triplet e)) ∧
  (is_followed current tn ∨ ∃ e, e ∈ non_zero msg ∧ same_triplet (entry_triplet e) tn).
Proof.
  intros Hv Hc tn. destruct (non_zero_rows cur msg (Some n) Hv) as [Hr Hnew]. split.
  - intros e He. destruct (Hr e He) as [P|P]; [right; by eapply follows_same|left].
    by apply (same_triplet_cmp (fst e) n).
  - assert (opt_is cur n ∨ ¬ opt_is cur n) as [P|P].
    { destruct cur as [c|]; simpl; [|by right; intros []]. by destruct (cmp n c); [left|right..]. }
    + left. by eapply follows_same.
    + right. destruct (Hnew n eq_refl P) as (e & He & E). exists e. split; [done|]. symmetry.
      by apply (same_triplet_cmp n (fst e)).
Qed.
Lemma is_followed_same current tr1 tr2 : is_followed current tr1 → is_followed current tr2 → same_triplet tr1 tr2.
Proof. intros (c & -> & E1) (c' & [= <-] & E2). by rewrite <- E1. Qed.
Lemma get_new_triplet_correct current cur msg new : value_update cur msg new → follows current cur →
  ∃ r, get_new_triplet_from_input_vec current msg = Ok r ∧
    match r with
    | Some (_, tr) => follows (Some tr) new ∧ ∃ x, x ∈ map (λ u, fst (fst u)) msg ∧ tr = from_triplet (snd x)
    | None => follows current new
    end.
Proof.
  intros Hv Hc. destruct (non_zero_spec msg) as (_ & _ & Hin).
  assert (Hbad := λ e1 e2 e3 rest, two_classes msg cur new e1 e2 e3 rest Hv).
  assert (Hrows := λ n (En : new = Some n), rows_left current cur msg n (eq_rect _ (value_update cur msg) Hv _ En) Hc).
  assert (Hchosen : ∀ e, e ∈ non_zero msg →
    (∀ n, new = Some n → same_triplet (entry_triplet e) (from_triplet (snd n))) →
    follows (Some (entry_triplet e)) new ∧ ∃ x, x ∈ map (λ u, fst (fst u)) msg ∧ entry_triplet e = from_triplet (snd x)).
  { intros e He Hn. split; [|exists (fst e); split; [by apply Hin|done]].
    destruct new as [n|]; [|done]. eexists. split; [done|]. by apply Hn. }
  unfold get_new_triplet_from_input_vec. fold (non_zero msg).
  destruct (non_zero msg) as [|e1 [|e2 [|e3 rest]]] eqn:E; [..|by destruct (Hbad _ _ _ _ eq_refl)].
  - eexists. split; [done|]. destruct new as [n|]; [|done].
    destruct (Hrows n eq_refl) as [_ [P|(e & []%elem_of_nil & _)]]. exact P.
  - specialize (Hchosen e1 (list_elem_of_here _ _)). destruct e1 as [[i1 t1] [time1 r1]] eqn:E1. rewrite <- E1 in *.
    eexists. split; [done|]. change (from_triplet t1) with (entry_triplet ((i1, t1), (time1, r1))). rewrite <- E1.
    apply Hchosen. intros n Hn. destruct (Hrows n Hn) as [Hd He].
    destruct (Hd e1 (list_elem_of_here _ _)) as [|Pe]; [done|].
    destruct He as [P|(e & ->%list_elem_of_singleton & He)]; [by eapply is_followed_same|done].
  - pose proof (Hchosen e1 ltac:(set_solver)) as Hc1. pose proof (Hchosen e2 ltac:(set_solver)) as Hc2.
    assert (Hfirst : match current with Some c => triplet_eqb c (entry_triplet e1) | None => false end = true ↔
      is_followed current (entry_triplet e1)).
    { unfold is_followed, same_triplet. destruct current; naive_solver. }
    destruct e1 as [[i1 t1] [time1 r1]] eqn:E1, e2 as [[i2 t2] [time2 r2]] eqn:E2. rewrite <- E1, <- E2 in *.
    change (from_triplet t1) with (entry_triplet ((i1, t1), (time1, r1))).
    change (from_triplet t2) with (entry_triplet ((i2, t2), (time2, r2))). rewrite <- E1, <- E2.
    cbn [length Nat.ltb Nat.leb]. destruct (match current with Some _ => _ | None => _ end).
    + pose proof (proj1 Hfirst eq_refl) as Hcur. eexists. split; [done|]. apply Hc2. intros n Hn. destruct (Hrows n Hn) as [Hd He].
      destruct (Hd e2) as [|Pe]; [set_solver|done|]. destruct He as [P|(e & He & Hs)]; [by eapply is_followed_same|].
      apply elem_of_cons in He as [->|He]; [|by apply list_elem_of_singleton in He as ->]. rewrite <- Hs. by eapply is_followed_same.
    + eexists. split; [done|]. apply Hc1. intros n Hn. destruct (Hrows n Hn) as [Hd _].
      destruct (Hd e1) as [|Pe]; [set_solver|done|]. by apply (proj2 Hfirst) in Pe.
Qed.

(** ** The operator *)

(** A message replaces the row of the value table, by a triplet with a usable
    bucket. *)
Definition good_message cur msg new : Prop :=
  value_update cur msg new ∧ Forall (λ u, bucket_good (from_triplet (snd (fst (fst u))))) msg.
Inductive good_messages : option KV2 → list Message → option KV2 → Prop :=
| good_nil cur : good_messages cur [] cur
| good_cons cur msg new msgs last : good_message cur msg new → good_messages new msgs last →
    good_messages cur (msg :: msgs) last.

(** What the operator maintains: its output is the table with the values of its
    triplet. *)
Record follows_state (st : @State Sc) cur : Prop := {
  state_follows : follows (triplet st) cur;
  state_good : ∀ tr, triplet st = Some tr → bucket_good tr
}.
Definition expected (st : @State Sc) (data : Rows) : list ((K * (V * Sc)) * Z) :=
  match triplet st with Some tr => broadcast tr data | None => [] end.

Lemma process_message_ok storage st cur msg new : sorted_storage storage → keys_ok storage → good_message cur msg new →
  follows_state st cur →
  ∃ st' out, process_message storage st msg = Ok (st', out) ∧ follows_state st' new ∧
    weq same_cell (expected st (rows storage) ++ strip_times out) (expected st' (rows storage)).
Proof.
  intros Hs Hk [Hv Hgood] [Hfol Hst]. unfold process_message.
  destruct (get_new_triplet_correct (triplet st) cur msg new Hv Hfol) as ([[time tr]|] & -> & Hr); cbn [mbind outcome_bind].
  2: { eexists _, _. split; [done|]. split; [done|]. unfold expected. simpl. by rewrite app_nil_r. }
  destruct Hr as (Hfol' & x & Hx & Htr).
  assert (Hg : bucket_good tr).
  { apply list_elem_of_fmap in Hx as (u & -> & Hu). rewrite Forall_forall in Hgood. rewrite Htr. by apply Hgood. }
  unfold expected. destruct (triplet st) as [otr|] eqn:Eo.
  - destruct (move_bucket storage time otr tr) as [[redo old] out] eqn:Em.
    assert (Hm := λ f Hf, move_bucket_sum f storage time otr tr redo old out Hf Hs Hk (Hst otr eq_refl) Hg Em).
    destruct redo; (eexists _, _; split; [done|]); (split; [split; [done|by intros ? [= <-]]|]); intros f Hf;
      destruct (Hm f Hf) as [E Hb]; rewrite strip_times_app, !wsum_app, Z.add_assoc, E; simpl.
    + apply replace_in_fragment_sum; [by right|done].
    + apply replace_same_bucket; [done..|by apply Hb].
  - eexists _, _. split; [done|]. split; [split; [done|by intros ? [= <-]]|]. intros f Hf. simpl.
    rewrite apply_to_fragment_sum by by right. unfold broadcast. rewrite wsum_fmap. simpl. lia.
Qed.
Lemma process_messages_ok storage cur msgs last : sorted_storage storage → keys_ok storage →
  good_messages cur msgs last → ∀ st, follows_state st cur →
  ∃ st' out, process_messages storage st msgs = Ok (st', out) ∧ follows_state st' last ∧
    weq same_cell (expected st (rows storage) ++ strip_times out) (expected st' (rows storage)).
Proof.
  intros Hs Hk. induction 1 as [cur|cur msg new msgs last Hm _ IH]; intros st Hst; simpl.
  - eexists _, _. split; [done|]. split; [done|]. by rewrite app_nil_r.
  - destruct (process_message_ok storage st cur msg new Hs Hk Hm Hst) as (st1 & out1 & -> & Hst1 & E1).
    destruct (IH st1 Hst1) as (st2 & out2 & E & Hst2 & E2). cbn [mbind outcome_bind]. rewrite E.
    eexists _, _. split; [done|]. split; [done|]. by rewrite strip_times_app, app_assoc, E1.
Qed.

(** A batch gets the values of the triplet. *)
Lemma process_batches_sum f (st : @State Sc) batches : wsum f (strip_times (flat_map (process_batch st) batches)) =
  wsum f (expected st (flat_map rows batches)).
Proof.
  unfold expected. destruct (triplet st) as [tr|] eqn:E.
  - induction batches as [|b bs IH]; simpl; [done|]. unfold broadcast in *. rewrite strip_times_app, map_app, !wsum_app, IH.
    unfold process_batch. rewrite E, apply_to_fragment_sum by by right. rewrite !wsum_fmap. simpl. lia.
  - assert (flat_map (process_batch st) batches = []) as ->; [|done].
    induction batches as [|b bs IH]; simpl; [done|]. rewrite IH. unfold process_batch. by rewrite E.
Qed.

(** The activations of the operator: the storage holds the rows of all batches, the
    messages go from one row of the value table to the next. *)
Inductive history : list (@Activation K V T Sc K2) → Rows → option KV2 → Prop :=
| history_nil : history [] [] None
| history_snoc activations a data cur new : history activations data cur →
    sorted_storage (act_storage a) → keys_ok (act_storage a) →
    weq eq (rows (act_storage a)) (data ++ flat_map rows (act_batches a)) →
    good_messages cur (act_messages a) new →
    history (activations ++ [a]) (data ++ flat_map rows (act_batches a)) new.

Lemma core_app (st : @State Sc) (as1 as2 : list (@Activation K V T Sc K2)) : gradual_broadcast_core st (as1 ++ as2) =
  ' (st, out) ← gradual_broadcast_core st as1;
  ' (st, outs) ← gradual_broadcast_core st as2; Ok (st, out ++ outs).
Proof.
  revert st. induction as1 as [|a as1 IH]; intros st; simpl.
  - by destruct (gradual_broadcast_core st as2) as [[? ?]| |].
  - destruct (activate st a) as [[st1 out1]| |]; cbn [mbind outcome_bind]; [|done..]. rewrite IH.
    destruct (gradual_broadcast_core st1 as1) as [[st2 out2]| |]; cbn [mbind outcome_bind]; [|done..].
    destruct (gradual_broadcast_core st2 as2) as [[st3 out3]| |]; cbn [mbind outcome_bind]; [|done..].
    by rewrite app_assoc.
Qed.
Lemma expected_weq (st : @State Sc) (a b : Rows) : weq eq a b → weq same_cell (expected st a) (expected st b).
Proof.
  intros E f Hf. unfold expected. destruct (triplet st) as [tr|]; [|done]. unfold broadcast. rewrite !wsum_fmap.
  apply E. by intros ? ? ->.
Qed.
Lemma expected_app (st : @State Sc) (a b : Rows) : expected st (a ++ b) = expected st a ++ expected st b.
Proof. unfold expected. destruct (triplet st); [apply map_app|done]. Qed.
End props.

(** C30: Gradual broadcast, however little it updates, is a broadcast. Whatever rows are
    inserted and deleted and however the value moves, within its bucket, to an adjacent
    bucket or anywhere, the operator does not panic; it keeps the triplet that is the
    present row of the value table, and its accumulated output holds every row of the
    input with the upper bound if its key is below the threshold of this triplet, with
    the lower bound otherwise, and nothing else. No row has the largest key; the bounds
    of a triplet are equal or have a finite difference that is not zero; and each
    message replaces at most one row of the value table by at most one row. *)
Theorem gradual_broadcast_correct {K V T Sc K2 : Type} `{OrdLaws K, Ord T, OrdLaws Sc, OrdLaws K2, HasMaxValue K,
    !Scale K Sc, !ScaleLaws K Sc} (activations : list (@Activation K V T Sc K2)) (data : list ((K * V) * Z))
    (cur : option (K2 * (Sc * Sc * Sc))) (Hh : history activations data cur) :
  ∃ st out, gradual_broadcast_core initial_state activations = Ok (st, out) ∧ follows (triplet st) cur ∧
    weq same_cell (strip_times out) (expected st data).
Proof.
  assert (∃ st out, gradual_broadcast_core initial_state activations = Ok (st, out) ∧ follows_state st cur ∧
    weq same_cell (strip_times out) (expected st data)) as (st & out & E & [Hf _] & Ho); [|by exists st, out].
  induction Hh as [|activations a data cur new _ IH Hs Hk Hd Hm].
  { eexists _, _. split; [done|]. split; [by split|done]. }
  destruct IH as (st & out & E & Hst & Ho). rewrite core_app, E. cbn [mbind outcome_bind gradual_broadcast_core].
  unfold activate.
  destruct (process_messages_ok (act_storage a) cur (act_messages a) new Hs Hk Hm st Hst) as (st' & out' & -> & Hst' & Ho').
  cbn [mbind outcome_bind]. eexists _, _. split; [done|]. split; [done|]. rewrite app_nil_r, !strip_times_app, Ho.
  assert (E1 : weq same_cell (strip_times (flat_map (process_batch st) (act_batches a))) (expected st (flat_map rows (act_batches a))))
    by (intros f _; apply process_batches_sum).
  rewrite E1, app_assoc, <- expected_app. rewrite <- (expected_weq st _ _ Hd), Ho'. by apply expected_weq.
Qed.

(** Rows below and above the thresholds; the value moves within the bucket from 1 to
    2, to the adjacent bucket from 2 to 3 together with a change of the rows, and to
    the bucket from 8 to 9. *)
Definition ex_message (a b : f64 * f64 * f64) (t : Z) : list (Z * (f64 * f64 * f64) * Z * Z) :=
  [((7, a), t, -1); ((7, b), t, 1)].
Definition ex_f (z : Z) : f64 := f64_of_int z.
Definition ex_t1 : f64 * f64 * f64 := (ex_f 1, ex_f 1, ex_f 2).
Definition ex_t2 : f64 * f64 * f64 := (ex_f 2, ex_f 3, ex_f 3).
Definition ex_t3 : f64 * f64 * f64 := (ex_f 8, ex_f 9, ex_f 9).
Definition ex_a1 : @Activation Key Z Z f64 Z :=
  mk_Activation [[(mk_Key 10, [(5, [(0, 1)])])]] [(mk_Key 10, [(5, [(0, 1)])])] [[((7, ex_t1), 0, 1)]].
Definition ex_a2 : @Activation Key Z Z f64 Z :=
  mk_Activation [[(mk_Key 10, [(5, [(2, -1)])]); (mk_Key 12, [(6, [(2, 1)])])]]
     [(mk_Key 10, [(5, [(0, 1); (2, -1)])]); (mk_Key 12, [(6, [(2, 1)])])]
     [ex_message ex_t1 ex_t2 2; ex_message ex_t2 ex_t3 4].
Definition ex_activations : list (@Activation Key Z Z f64 Z) := [ex_a1; ex_a2].
Definition ex_rows : list ((Key * Z) * Z) := [(mk_Key 10, 5, 1); (mk_Key 10, 5, -1); (mk_Key 12, 6, 1)].
Lemma gradual_broadcast_correct_witness :
  history ex_activations ex_rows (Some (7, ex_t3)) ∧
  ∃ st out, gradual_broadcast_core initial_state ex_activations = Ok (st, out) ∧
    follows (triplet st) (Some (7, ex_t3)) ∧ weq same_cell (strip_times out) (expected st ex_rows).
Proof.
  assert (Hh : history ex_activations ex_rows (Some (7, ex_t3))).
  { apply (history_snoc [ex_a1] ex_a2 [(mk_Key 10, 5, 1)] (Some (7, ex_t1))).
    - apply (history_snoc [] ex_a1 [] None); [constructor|by repeat constructor|by repeat constructor|done|].
      apply (good_cons _ _ (Some (7, ex_t1))); [|apply good_nil]. split; [intros f Hf; simpl; lia|by repeat constructor].
    - by repeat constructor.
    - by repeat constructor.
    - intros f Hf. simpl. lia.
    - apply (good_cons _ _ (Some (7, ex_t2))); [|apply (good_cons _ _ (Some (7, ex_t3))); [|apply good_nil]]; (split; [intros f Hf; simpl; lia|by repeat constructor]). }
  split; [exact Hh|]. exact (gradual_broadcast_correct ex_activations ex_rows (Some (7, ex_t3)) Hh).
Defined.

(** The largest key is outside every fragment between two thresholds: when the
    bucket moves to an adjacent one it keeps the bound of the old bucket. *)
Example largest_key_keeps_old_value :
  ∃ st out, gradual_broadcast_core initial_state
    [mk_Activation [[(mk_Key (2 ^ 128 - 1), [(5, [(0, 1)])])]] [(mk_Key (2 ^ 128 - 1), [(5, [(0, 1)])])]
       [[((7, ex_t1), 0, 1)]; ex_message ex_t1 ex_t2 2]] = Ok (st, out) ∧
    triplet st = Some (from_triplet ex_t2) ∧ out = [((mk_Key (2 ^ 128 - 1), (5, ex_f 1)), 0, 1)].
Proof. vm_compute. eexists _, _. split; [reflexivity|]. done. Qed.

(** A message that only deletes the former row makes its triplet current again. *)
Example deletion_becomes_current :
  get_new_triplet_from_input_vec (Some (from_triplet ex_t2)) [((7, ex_t1), 2, -1)] = Ok (Some (2, from_triplet ex_t1)).
Proof. reflexivity. Qed.
