(* ===== verification/DataFormat.v ===== *)
(** Parsers and formatters (src/connectors/data_format.rs, with [ReaderContext] and
    [ValuesMap] of data_storage.rs): from the raw data of a reader to parsed events,
    and from the rows of an output table to payloads.  Every parser is an instance
    of the interface [Parser] of Connector.v.

    Text is its UTF-8 bytes, the separator of a DSV file included.  serde_json is a
    parameter; [Index] and [get] of a JSON value go through [json_get_key].  The
    metadata of a source is its JSON value. *)
From Stdlib Require Import ZArith Lia Bool Ascii.
From stdpp Require Import base list strings gmap.
From S2P Require Import Prelude Order Float Text Data Externals Value Time Expression Timestamp Connector.
Open Scope Z_scope.

(** [column_count] and [session_type] of [trait Parser]. *)
Class ParserInfo (P : Type) := { column_count : P → nat; session_type : P → SessionType }.

(** ** serde_json: parsing, pointers and numbers *)

Class SerdeJsonText := {
  json_from_str : string → option JsonValue;            (* [from_str], [None] for an error *)
  json_pointer : JsonValue → string → option JsonValue; (* [Value::pointer] *)
  (* the text of a map that is serialized entry by entry *)
  json_entries_to_string : list (string * JsonValue) → string;
  num_from_i64 : Z → JsonNumber;
  num_from_u64 : Z → JsonNumber;
  num_from_f64 : f64 → option JsonNumber;               (* [None] for NaN and infinities *)
  num_as_u64 : JsonNumber → option Z;
  num_as_i64 : JsonNumber → option Z;
  num_as_f64 : JsonNumber → option f64
}.
Definition f64_is_finite (f : f64) : bool :=
  match f with SpecFloat.S754_infinity _ | SpecFloat.S754_nan => false | _ => true end.
Class SerdeJsonTextLaws `{SerdeJsonText} : Prop := {
  num_as_u64_i64 : ∀ n, in_i64 n = true → num_as_u64 (num_from_i64 n) = if 0 <=? n then Some n else None;
  num_as_i64_i64 : ∀ n, in_i64 n = true → num_as_i64 (num_from_i64 n) = Some n;
  num_f64_finite : ∀ f, f64_is_finite f = true → is_Some (num_from_f64 f);
  num_as_f64_f64 : ∀ f n, num_from_f64 f = Some n →
    num_as_u64 n = None ∧ num_as_i64 n = None ∧ num_as_f64 n = Some f
}.

(** ** Text *)

Definition bytes_to_string (bs : list Z) : string := string_of_bytes (map Z.to_N bs).
Definition prepare_plaintext_string (bytes : list Z) : DynResult string :=
  if utf8_valid bytes then Ok (trim (bytes_to_string bytes)) else Err (OtherParser Utf8DecodeFailed).

(** [str::split] on a non-empty pattern; every step consumes a character, so the
    length bounds the steps. *)
Fixpoint split_str_go (fuel : nat) (sep s : string) : list string :=
  match fuel with
  | O => [""%string]
  | S fuel =>
      match prefix_drop sep s with
      | Some rest => ""%string :: split_str_go fuel sep rest
      | None =>
          match s with
          | EmptyString => [""%string]
          | String c s => match split_str_go fuel sep s with
                          | [] => [String c ""]
                          | p :: ps => String c p :: ps
                          end
          end
      end
  end.
Definition split_str (sep s : string) : list string := split_str_go (S (String.length s)) sep s.
Definition ascii_lower (c : ascii) : ascii :=
  let n := N_of_ascii c in if ((65 <=? n) && (n <=? 90))%N then ascii_of_N (n + 32) else c.
Definition to_ascii_lowercase (s : string) : string :=
  String.string_of_list_ascii (map ascii_lower (String.list_ascii_of_string s)).

(** ** Contexts and schemas *)

Definition COMMIT_LITERAL : string := "*COMMIT*".
(** Its quotes are written as apostrophes. *)
Definition DEBEZIUM_EMPTY_KEY_PAYLOAD : string :=
  String.string_of_list_ascii (map (λ c, if (c =? "'")%char then ascii_of_N 34 else c)
    (String.list_ascii_of_string "{'payload': {'before': {}, 'after': {}}}")).
Definition METADATA_FIELD_NAME : string := "_metadata".
Definition SPECIAL_FIELD_NAME : string := "_pw_special".

Definition ValuesMap : Type := gmap string Value.
Inductive ReaderContext :=
| RawBytes (event : DataEventType) (raw_bytes : list Z)
| TokenizedEntries (event : DataEventType) (tokenized_entries : list string)
| KeyValue (key value : option (list Z))
| Diff (event : DataEventType) (key : option (list Value)) (values : ValuesMap).
Definition is_special (m : ValuesMap) (value : string) : bool :=
  Nat.eqb (size m) 1 && match m !! SPECIAL_FIELD_NAME with Some v => Value_eqb v (VString value) | None => false end.

Record InnerSchemaField := mk_InnerSchemaField { isf_type : CompoundType; isf_default : option Value }.
Definition inner_schema_field_new (t : Type_) (optional : bool) (default : option Value) : InnerSchemaField :=
  mk_InnerSchemaField (mk_CompoundType t optional) default.
(** [#[derive(Default)]] of [CompoundType] and [InnerSchemaField]. *)
Definition compound_type_default : CompoundType := mk_CompoundType TAny false.
Definition inner_schema_field_default : InnerSchemaField := mk_InnerSchemaField compound_type_default None.
Abbreviation Schema := (gmap string InnerSchemaField).

Definition maybe_add_field_name (err : DataError) (field_name : string) : DataError :=
  match err with
  | IncorrectType value type_ => OtherParser (FieldIncorrectType value field_name type_)
  | err => err
  end.

(** [is_commit_literal]. *)
Definition is_commit_literal (value : DynResult Value) : bool :=
  match value with
  | Ok (VString s) => (s =? COMMIT_LITERAL)%string
  | Ok (VBytes bs) => bool_decide (bs = string_bytes COMMIT_LITERAL)
  | _ => false
  end.

Section formats.
Context `{Profile, XxHash, Python, SerdeJson, Chrono, Ndarray, RustText, SerdeJsonText}.

(** ** Values and JSON *)

Definition json_index (j : JsonValue) (k : string) : JsonValue := default JNull (json_get_key j k).

(** [tuple.push(f(item)?)] for each item. *)
Definition collect_options {E A B} (f : A → outcome E (option B)) : list A → outcome E (option (list B)) :=
  fix go l :=
    match l with
    | [] => Ok (Some [])
    | x :: l => match f x with
                | Ok (Some y) => match go l with
                                 | Ok ys => Ok (cons y <$> ys)
                                 | Err e => Err e
                                 | Panic p => Panic p
                                 end
                | Ok None => Ok None
                | Err e => Err e
                | Panic p => Panic p
                end
    end.
(** [None] when the value holds an object. *)
Fixpoint parse_value_from_json (value : JsonValue) : outcome DataError (option Value) :=
  match value with
  | JNull => Ok (Some VNone)
  | JString s => Ok (Some (VString s))
  | JNumber v =>
      match num_as_u64 v with
      | Some parsed_u64 =>
          if in_i64 parsed_u64 then Ok (Some (VInt parsed_u64))
          else Panic "called `Result::unwrap()` on an `Err` value: TryFromIntError(())"
      | None =>
          match num_as_i64 v with
          | Some parsed_i64 => Ok (Some (VInt parsed_i64))
          | None => Ok (VFloat <$> num_as_f64 v)
          end
      end
  | JBool v => Ok (Some (VBool v))
  | JArray v =>
      match collect_options parse_value_from_json v with
      | Ok tuple => Ok (VTuple <$> tuple)
      | Err e => Err e
      | Panic p => Panic p
      end
  | JObject _ => Ok None
  end.

Definition json_of_f64 (f : f64) : JsonValue := from_option JNumber JNull (num_from_f64 f).
Definition json_of_i64 (i : Z) : JsonValue := JNumber (num_from_i64 i).
Definition display_expect {E A} (m : DynResult A) : outcome E A :=
  match m with Ok a => Ok a | Err _ => Panic "a Display implementation returned an error unexpectedly" | Panic p => Panic p end.
Fixpoint serialize_value_to_json (value : Value) : outcome FormatterError JsonValue :=
  match value with
  | VNone => Ok JNull
  | VInt i => Ok (json_of_i64 i)
  | VFloat f => Ok (json_of_f64 f)
  | VBool b => Ok (JBool b)
  | VString s => Ok (JString s)
  | VPointer p => Ok (JString (key_display p))
  | VTuple t =>
      match try_collect serialize_value_to_json t with
      | Ok items => Ok (JArray items)
      | Err e => Err e
      | Panic p => Panic p
      end
  | VBytes b => Ok (JArray (map json_of_i64 b))
  | VIntArray a => Ok (JArray (map json_of_i64 (elements (handle_data a))))
  | VFloatArray a => Ok (JArray (map json_of_f64 (elements (handle_data a))))
  | VDateTimeNaive dt => s ← display_expect (naive_display dt); Ok (JString s)
  | VDateTimeUtc dt => s ← display_expect (utc_display dt); Ok (JString s)
  | VDuration d => n ← display_expect (Time.nanoseconds d); Ok (json_of_i64 n)
  | VJson j => Ok (handle_data j)
  | VError => Err ErrorValueNonJsonSerializable
  | VPyObjectWrapper _ => Err (TypeNonJsonSerializable TPyObjectWrapper)
  end.

(** [InnerSchemaField::adjust_value]. *)
Definition adjust_value (self : InnerSchemaField) (name : string) (value : option Value) : DynResult Value :=
  match value with
  | Some value =>
      if decide (type_ (isf_type self) = TJson) then
        j ← map_err OtherFormatter (serialize_value_to_json value); Ok (value_from_json j)
      else map_err (λ err, maybe_add_field_name err name) (convert_value (isf_type self) value)
  | None => ok_or (isf_default self) (OtherParser (NoDefault name))
  end.

(** ** DSV *)

Definition parse_bool_advanced (raw_value : string) : option bool :=
  let raw_value_lowercase := to_ascii_lowercase (trim raw_value) in
  if existsb (String.eqb raw_value_lowercase) ["true"; "yes"; "on"; "1"; "t"; "y"] then Some true
  else if existsb (String.eqb raw_value_lowercase) ["false"; "no"; "off"; "0"; "f"; "n"] then Some false
  else None.

Definition parse_with_type (raw_value : string) (schema : InnerSchemaField) (field_name : string) : DynResult Value :=
  let main_type := type_ (isf_type schema) in
  let not_satisfied (error : string) := OtherParser (SchemaNotSatisfied field_name raw_value (isf_type schema) error) in
  let parsed :=
    match main_type with
    | TAny | TString => Ok (VString raw_value)
    | TBool => b ← ok_or (parse_bool_advanced raw_value) (not_satisfied "AdvancedBoolParseError"); Ok (VBool b)
    | TInt => i ← ok_or (parse_i64 raw_value) (not_satisfied "ParseIntError"); Ok (VInt i)
    | TFloat => f ← ok_or (f64_parse raw_value) (not_satisfied "ParseFloatError"); Ok (VFloat f)
    | TJson => j ← ok_or (json_from_str raw_value) (not_satisfied "serde_json::Error"); Ok (value_from_json j)
    | _ => Err (OtherParser (UnparsableType (isf_type schema)))
    end in
  match isf_default schema with
  | Some default =>
      if (raw_value =? "")%string && negb (bool_decide (main_type = TAny ∨ main_type = TString)) then Ok default
      else parsed
  | None => parsed
  end.

Record DsvSettings := mk_DsvSettings {
  key_column_names : option (list string); value_column_names : list string; separator : string
}.
Inductive DsvColumnIndex := DciIndex (index : nat) | DciMetadata.
Record DsvParser := mk_DsvParser {
  settings : DsvSettings; dp_schema : Schema; header : list string;
  dp_metadata_column_value : Value;
  key_column_indices : option (list DsvColumnIndex);
  value_column_indices : list DsvColumnIndex;
  indexed_schema : gmap nat InnerSchemaField;
  dsv_header_read : bool
}.
Definition dsv_parser_new (settings : DsvSettings) (schema : Schema) : DsvParser :=
  mk_DsvParser settings schema [] VNone None [] ∅ false.

Definition enumerate {A} (l : list A) : list (nat * A) := zip (seq 0 (length l)) l.
(** The loop over [sought_names]: the positions at which a name is sought, and
    the number of metadata fields. *)
Definition request_names (sought_names : list string) : gmap string (list nat) * nat :=
  foldl (λ '(requested_indices, found) '(index, field),
    if (field =? METADATA_FIELD_NAME)%string then (requested_indices, S found)
    else match requested_indices !! field with
         | Some indices => (<[field := indices ++ [index]]> requested_indices, found)
         | None => (<[field := [index]]> requested_indices, found)
         end) (∅, O) (enumerate sought_names).
(** The loop over [tokenized_entries]. *)
Definition assign_indices (requested_indices : gmap string (list nat)) (tokenized_entries : list string)
    (column_indices : list DsvColumnIndex) (found : nat) : list DsvColumnIndex * nat :=
  foldl (λ '(column_indices, found) '(index, value),
    match requested_indices !! value with
    | Some indices =>
        foldl (λ '(column_indices, found) requested_index,
          (<[requested_index := DciIndex index]> column_indices, S found)) (column_indices, found) indices
    | None => (column_indices, found)
    end) (column_indices, found) (enumerate tokenized_entries).
Definition column_indices_by_names (tokenized_entries sought_names : list string) : DynResult (list DsvColumnIndex) :=
  let (requested_indices, value_indices_found) := request_names sought_names in
  let (column_indices, value_indices_found) :=
    assign_indices requested_indices tokenized_entries (replicate (length sought_names) DciMetadata)
      value_indices_found in
  if Nat.eqb value_indices_found (length sought_names) then Ok column_indices
  else Err (OtherParser (FieldsNotFoundInHeader tokenized_entries sought_names)).

Definition index_schema (schema : Schema) (tokenized_entries : list string) : gmap nat InnerSchemaField :=
  foldl (λ indexed_schema '(index, item),
    match schema !! item with
    | Some schema_item => <[index := schema_item]> indexed_schema
    | None => indexed_schema
    end) ∅ (enumerate tokenized_entries).
(** An error after the key columns leaves their indices changed. *)
Definition parse_dsv_header (self : DsvParser) (tokenized_entries : list string) : DynResult unit * DsvParser :=
  match
    match key_column_names (settings self) with
    | Some names => indices ← column_indices_by_names tokenized_entries names; Ok (Some indices)
    | None => Ok None
    end
  with
  | Ok key_indices =>
      match column_indices_by_names tokenized_entries (value_column_names (settings self)) with
      | Ok value_indices =>
          (Ok tt, mk_DsvParser (settings self) (dp_schema self) tokenized_entries (dp_metadata_column_value self)
             key_indices value_indices (index_schema (dp_schema self) tokenized_entries) true)
      | Err e =>
          (Err e, mk_DsvParser (settings self) (dp_schema self) (header self) (dp_metadata_column_value self)
             key_indices (value_column_indices self) (indexed_schema self) (dsv_header_read self))
      | Panic p => (Panic p, self)
      end
  | Err e => (Err e, self)
  | Panic p => (Panic p, self)
  end.

Definition value_by_index (self : DsvParser) (tokens : list string) (index : DsvColumnIndex)
    : outcome DataError (DynResult Value) :=
  match index with
  | DciIndex index =>
      let schema_item := default inner_schema_field_default (indexed_schema self !! index) in
      token ← unwrap (tokens !! index);
      name ← unwrap (header self !! index);
      Ok (parse_with_type token schema_item name)
  | DciMetadata => Ok (Ok (dp_metadata_column_value self))
  end.
Definition values_by_indices (self : DsvParser) (tokens : list string) (indices : list DsvColumnIndex)
    : outcome DataError ValueFieldsWithErrors :=
  try_collect (value_by_index self tokens) indices.

Definition has_index (n : nat) (index : DsvColumnIndex) : bool :=
  match index with DciIndex index => Nat.ltb index n | DciMetadata => true end.
Definition parse_tokenized_entries (self : DsvParser) (event : DataEventType) (tokens : list string)
    : DynResult (list ParsedEventWithErrors) * DsvParser :=
  if match tokens with [line] => (line =? COMMIT_LITERAL)%string | _ => false end then (Ok [PeAdvanceTime], self)
  else if negb (dsv_header_read self) then
    let (r, self) := parse_dsv_header self tokens in (r ← r; Ok [], self)
  else
    let line_has_enough_tokens :=
      forallb (has_index (length tokens)) (default [] (key_column_indices self)) &&
      forallb (has_index (length tokens)) (value_column_indices self) in
    if line_has_enough_tokens then
      (key ← match key_column_indices self with
             | Some indices => values ← values_by_indices self tokens indices; Ok (Some (try_collect id values))
             | None => Ok None
             end;
       parsed_tokens ← values_by_indices self tokens (value_column_indices self);
       match event with
       | DeInsert => Ok [PeInsert key parsed_tokens]
       | DeDelete => Ok [PeDelete key parsed_tokens]
       | DeUpsert => Panic "readers can't send upserts to DsvParser"
       end, self)
    else (Err (OtherParser (UnexpectedNumberOfCsvTokens (length tokens))), self).
Definition parse_bytes_simple (self : DsvParser) (event : DataEventType) (raw_bytes : list Z)
    : DynResult (list ParsedEventWithErrors) * DsvParser :=
  match prepare_plaintext_string raw_bytes with
  | Ok line =>
      if (line =? "")%string then (Ok [], self)
      else if (line =? COMMIT_LITERAL)%string then (Ok [PeAdvanceTime], self)
      else parse_tokenized_entries self event (split_str (separator (settings self)) line)
  | Err e => (Err e, self)
  | Panic p => (Panic p, self)
  end.
Definition dsv_parse (self : DsvParser) (data : ReaderContext) : DynResult (list ParsedEventWithErrors) * DsvParser :=
  match data with
  | RawBytes event raw_bytes => parse_bytes_simple self event raw_bytes
  | TokenizedEntries event tokenized_entries => parse_tokenized_entries self event tokenized_entries
  | KeyValue _ (Some bytes) => parse_bytes_simple self DeInsert bytes
  | KeyValue _ None => (Err (OtherParser EmptyKafkaPayload), self)
  | Diff _ _ _ => (Err (OtherParser UnsupportedReaderContext), self)
  end.
Definition dsv_on_new_source_started (self : DsvParser) (metadata : option JsonValue) : DsvParser :=
  mk_DsvParser (settings self) (dp_schema self) (header self)
    (from_option value_from_json (dp_metadata_column_value self) metadata)
    (key_column_indices self) (value_column_indices self) (indexed_schema self) false.
#[export] Instance DsvParser_Parser : Parser ReaderContext JsonValue DsvParser :=
  {| parse := dsv_parse; on_new_source_started := dsv_on_new_source_started |}.
#[export] Instance DsvParser_ParserInfo : ParserInfo DsvParser :=
  {| column_count self := length (value_column_names (settings self)); session_type _ := Native |}.

(** ** Identity *)

Record IdentityParser := mk_IdentityParser {
  ip_value_fields : list string; parse_utf8 : bool; ip_metadata_column_value : Value; ip_session_type : SessionType
}.
Definition prepare_bytes (self : IdentityParser) (bytes : list Z) : DynResult Value :=
  if parse_utf8 self then s ← prepare_plaintext_string bytes; Ok (VString s) else Ok (VBytes bytes).
(** The loop over the fields; [metadata] and [value] are taken once. *)
Fixpoint identity_fields (metadata_column_value : Value) (fields : list string) (metadata : bool)
    (value : option (DynResult Value)) : outcome DataError ValueFieldsWithErrors :=
  match fields with
  | [] => Ok []
  | field :: fields =>
      if (field =? METADATA_FIELD_NAME)%string then
        if metadata then
          vs ← identity_fields metadata_column_value fields false value; Ok (Ok metadata_column_value :: vs)
        else Panic "metadata column should be used exactly once in IdentityParser"
      else
        match value with
        | Some v => vs ← identity_fields metadata_column_value fields metadata None; Ok (v :: vs)
        | None => Panic "value column should be used exactly once in IdentityParser"
        end
  end.
Definition dyn_panic {A} (m : outcome unit A) : DynResult A :=
  match m with Ok a => Ok a | Err _ => Panic "unreachable" | Panic p => Panic p end.
Definition identity_event (self : IdentityParser) (event : DataEventType) (key : KeyFieldsWithErrors)
    (value : DynResult Value) : DynResult (list ParsedEventWithErrors) :=
  if is_commit_literal value then Ok [PeAdvanceTime]
  else
    values ← identity_fields (ip_metadata_column_value self) (ip_value_fields self) true (Some value);
    e ← dyn_panic (parsed_event_new (ip_session_type self) event key values);
    Ok [e].
Definition identity_parse (self : IdentityParser) (data : ReaderContext)
    : DynResult (list ParsedEventWithErrors) * IdentityParser :=
  (match data with
   | RawBytes event raw_bytes => identity_event self event None (prepare_bytes self raw_bytes)
   | KeyValue key (Some bytes) =>
       identity_event self DeInsert ((λ bytes, k ← prepare_bytes self bytes; Ok [k]) <$> key) (prepare_bytes self bytes)
   | KeyValue _ None => Err (OtherParser EmptyKafkaPayload)
   | Diff _ _ _ | TokenizedEntries _ _ => Err (OtherParser UnsupportedReaderContext)
   end, self).
#[export] Instance IdentityParser_Parser : Parser ReaderContext JsonValue IdentityParser :=
  {| parse := identity_parse;
     on_new_source_started self metadata :=
       mk_IdentityParser (ip_value_fields self) (parse_utf8 self)
         (from_option value_from_json (ip_metadata_column_value self) metadata) (ip_session_type self) |}.
#[export] Instance IdentityParser_ParserInfo : ParserInfo IdentityParser :=
  {| column_count self := length (ip_value_fields self); session_type := ip_session_type |}.

(** ** Fields of a JSON value *)

(** The loop body of [values_by_names_from_json]. *)
Definition value_by_name_from_json (payload : JsonValue) (column_paths : gmap string string)
    (field_absence_is_error : bool) (schema : Schema) (metadata_column_value : Value) (value_field : string)
    : outcome DataError (DynResult Value) :=
  let schema_item := schema !! value_field in
  let dtype := from_option isf_type compound_type_default schema_item in
  let from_json (value : JsonValue) : outcome DataError (DynResult Value) :=
    if decide (type_ dtype = TJson) then Ok (Ok (value_from_json value))
    else
      parsed ← parse_value_from_json value;
      Ok (map_err (λ err, maybe_add_field_name err value_field)
            (v ← ok_or parsed (OtherParser (FailedToParseFromJson value_field value dtype)); convert_value dtype v)) in
  let absent (path : option string) : outcome DataError (DynResult Value) :=
    Ok (match schema_item ≫= isf_default with
        | Some default => Ok default
        | None => if field_absence_is_error then Err (OtherParser (FailedToExtractJsonField value_field path payload))
                  else Ok VNone
        end) in
  if (value_field =? METADATA_FIELD_NAME)%string then Ok (Ok metadata_column_value)
  else
    match column_paths !! value_field with
    | Some path => match json_pointer payload path with Some value => from_json value | None => absent (Some path) end
    | None =>
        match json_get_key payload value_field with
        | Some _ => from_json (json_index payload value_field)
        | None => absent None
        end
    end.
Definition values_by_names_from_json (payload : JsonValue) (field_names : list string) (column_paths : gmap string string)
    (field_absence_is_error : bool) (schema : Schema) (metadata_column_value : Value)
    : outcome DataError ValueFieldsWithErrors :=
  try_collect (value_by_name_from_json payload column_paths field_absence_is_error schema metadata_column_value) field_names.
(** The key of the named fields, [None] without names. *)
Definition key_by_names (key_field_names : option (list string)) (values : list string → outcome DataError ValueFieldsWithErrors)
    : outcome DataError KeyFieldsWithErrors :=
  match key_field_names with
  | Some names => vs ← values names; Ok (Some (try_collect id vs))
  | None => Ok None
  end.

(** ** Debezium *)

Inductive DebeziumDBType := Postgres | MongoDB.
Record DebeziumMessageParser := mk_DebeziumMessageParser {
  dbz_key_field_names : option (list string); dbz_value_field_names : list string;
  dbz_separator : string; db_type : DebeziumDBType
}.
Definition standard_separator : string := "        ".
Definition debezium_values (payload : JsonValue) (names : list string) : outcome DataError ValueFieldsWithErrors :=
  values_by_names_from_json payload names ∅ true ∅ VNone.
Definition parse_event (self : DebeziumMessageParser) (key value : JsonValue) (event : DataEventType)
    : DynResult ParsedEventWithErrors :=
  prepared_value ←
    match value with
    | JString serialized_json => ok_or (json_from_str serialized_json) (OtherParser (FailedToParseJson serialized_json))
    | _ => Ok value
    end;
  key ← key_by_names (dbz_key_field_names self) (debezium_values key);
  parsed_values ← debezium_values prepared_value (dbz_value_field_names self);
  Ok (match event with
      | DeInsert => PeInsert key parsed_values
      | DeDelete => PeDelete key parsed_values
      | DeUpsert => PeUpsert key (Some parsed_values)
      end).
Definition parse_read_or_create (self : DebeziumMessageParser) (key value : JsonValue) : DynResult (list ParsedEventWithErrors) :=
  event ← match db_type self with
          | Postgres => parse_event self key (json_index value "after") DeInsert
          | MongoDB => parse_event self key (json_index value "after") DeUpsert
          end;
  Ok [event].
Definition parse_delete (self : DebeziumMessageParser) (key value : JsonValue) : DynResult (list ParsedEventWithErrors) :=
  event ← match db_type self with
          | Postgres => parse_event self key (json_index value "before") DeDelete
          | MongoDB => key ← key_by_names (dbz_key_field_names self) (debezium_values key); Ok (PeUpsert key None)
          end;
  Ok [event].
Definition parse_update (self : DebeziumMessageParser) (key value : JsonValue) : DynResult (list ParsedEventWithErrors) :=
  match db_type self with
  | Postgres =>
      event_before ← parse_event self key (json_index value "before") DeDelete;
      event_after ← parse_event self key (json_index value "after") DeInsert;
      Ok [event_before; event_after]
  | MongoDB =>
      event_after ← parse_event self key (json_index value "after") DeUpsert;
      Ok [event_after]
  end.
(** The first [match] of [parse]: the texts of the key and of the value. *)
Definition debezium_texts (self : DebeziumMessageParser) (data : ReaderContext) : DynResult (string * string) :=
  match data with
  | RawBytes DeInsert raw_bytes =>
      line ← prepare_plaintext_string raw_bytes;
      match split_str (dbz_separator self) (trim line) with
      | [k; v] => Ok (k, v)
      | key_and_value => Err (OtherParser (KeyValueTokensIncorrect (length key_and_value)))
      end
  | RawBytes _ _ => Panic "assertion `left == right` failed"
  | KeyValue k v =>
      key ← match k with
            | Some bytes => prepare_plaintext_string bytes
            | None => match dbz_key_field_names self with
                      | Some _ => Err (OtherParser EmptyKafkaPayload)
                      | None => Ok DEBEZIUM_EMPTY_KEY_PAYLOAD
                      end
            end;
      value ← match v with
              | Some bytes => prepare_plaintext_string bytes
              | None => Err (OtherParser EmptyKafkaPayload)
              end;
      Ok (key, value)
  | Diff _ _ _ | TokenizedEntries _ _ => Err (OtherParser UnsupportedReaderContext)
  end.
Definition debezium_operation (self : DebeziumMessageParser) (key payload : JsonValue) : DynResult (list ParsedEventWithErrors) :=
  match json_index payload "op" with
  | JString op =>
      if ((op =? "r") || (op =? "c"))%string then parse_read_or_create self key payload
      else if (op =? "u")%string then parse_update self key payload
      else if (op =? "d")%string then parse_delete self key payload
      else Err (OtherParser (UnsupportedDebeziumOperation op))
  | _ => Err (OtherParser (DebeziumFormatViolated OperationFieldMissing))
  end.
Definition debezium_parse (self : DebeziumMessageParser) (data : ReaderContext)
    : DynResult (list ParsedEventWithErrors) * DebeziumMessageParser :=
  (' (raw_key_change, raw_value_change) ← debezium_texts self data;
   match json_from_str raw_value_change with
   | None => Err (OtherParser (FailedToParseJson raw_value_change))
   | Some (JObject payload_value) =>
       match json_from_str raw_key_change with
       | None => Err (OtherParser (FailedToParseJson raw_key_change))
       | Some change_key =>
           match json_get_key (JObject payload_value) "payload" with
           | None => Err (OtherParser (DebeziumFormatViolated NoPayloadAtTopLevel))
           | Some payload => debezium_operation self (json_index change_key "payload") payload
           end
       end
   | Some JNull => Ok []
   | Some _ => Err (OtherParser (DebeziumFormatViolated IncorrectJsonRoot))
   end, self).
Definition debezium_session_type (self : DebeziumMessageParser) : SessionType :=
  match db_type self with Postgres => Native | MongoDB => UpsertType end.
#[export] Instance DebeziumMessageParser_Parser : Parser ReaderContext JsonValue DebeziumMessageParser :=
  {| parse := debezium_parse; on_new_source_started self _ := self |}.
#[export] Instance DebeziumMessageParser_ParserInfo : ParserInfo DebeziumMessageParser :=
  {| column_count self := length (dbz_value_field_names self); session_type := debezium_session_type |}.

(** ** JSON lines *)

Record JsonLinesParser := mk_JsonLinesParser {
  jl_key_field_names : option (list string); jl_value_field_names : list string;
  jl_column_paths : gmap string string; jl_field_absence_is_error : bool; jl_schema : Schema;
  jl_metadata_column_value : Value; jl_session_type : SessionType
}.
Definition json_lines_event (self : JsonLinesParser) (data_event : DataEventType) (line : string)
    : DynResult (list ParsedEventWithErrors) :=
  if (line =? "")%string then Ok []
  else if (line =? COMMIT_LITERAL)%string then Ok [PeAdvanceTime]
  else
    payload ← ok_or (json_from_str line) (OtherParser (FailedToParseJson line));
    let values names := values_by_names_from_json payload names (jl_column_paths self)
                          (jl_field_absence_is_error self) (jl_schema self) (jl_metadata_column_value self) in
    key ← key_by_names (jl_key_field_names self) values;
    values ← values (jl_value_field_names self);
    event ← dyn_panic (parsed_event_new (jl_session_type self) data_event key values);
    Ok [event].
Definition json_lines_parse (self : JsonLinesParser) (data : ReaderContext)
    : DynResult (list ParsedEventWithErrors) * JsonLinesParser :=
  (match data with
   | RawBytes event line => line ← prepare_plaintext_string line; json_lines_event self event line
   | KeyValue _ (Some line) => line ← prepare_plaintext_string line; json_lines_event self DeInsert line
   | KeyValue _ None => Err (OtherParser EmptyKafkaPayload)
   | Diff _ _ _ | TokenizedEntries _ _ => Err (OtherParser UnsupportedReaderContext)
   end, self).
#[export] Instance JsonLinesParser_Parser : Parser ReaderContext JsonValue JsonLinesParser :=
  {| parse := json_lines_parse;
     on_new_source_started self metadata :=
       mk_JsonLinesParser (jl_key_field_names self) (jl_value_field_names self) (jl_column_paths self)
         (jl_field_absence_is_error self) (jl_schema self)
         (from_option value_from_json (jl_metadata_column_value self) metadata) (jl_session_type self) |}.
#[export] Instance JsonLinesParser_ParserInfo : ParserInfo JsonLinesParser :=
  {| column_count self := length (jl_value_field_names self); session_type := jl_session_type |}.

(** ** Transparent *)

Record TransparentParser := mk_TransparentParser {
  tp_key_field_names : option (list string); tp_value_field_names : list string;
  tp_schema : Schema; tp_session_type : SessionType
}.
(** A panic ends the call, an error is the field's. *)
Definition field_result {E A} (m : outcome E A) : outcome E (outcome E A) :=
  match m with Panic p => Panic p | r => Ok r end.
Definition adjusted_value (self : TransparentParser) (values : ValuesMap) (name : string) : DynResult Value :=
  match tp_schema self !! name with
  | Some item => adjust_value item name (values !! name)
  | None => Panic "there should be an entry in the schema for name"
  end.
Definition transparent_parse (self : TransparentParser) (data : ReaderContext)
    : DynResult (list ParsedEventWithErrors) * TransparentParser :=
  (match data with
   | Diff data_event key values =>
       if is_special values COMMIT_LITERAL then Ok [PeAdvanceTime]
       else
         (* the argument of [or] is evaluated in any case *)
         named_key ← match tp_key_field_names self with
                     | Some names => k ← field_result (try_collect (adjusted_value self values) names); Ok (Some k)
                     | None => Ok None
                     end;
         let key := match key with Some key => Some (Ok key) | None => named_key end in
         values ← try_collect (λ name, field_result (adjusted_value self values name)) (tp_value_field_names self);
         event ← dyn_panic (parsed_event_new (tp_session_type self) data_event key values);
         Ok [event]
   | _ => Err (OtherParser UnsupportedReaderContext)
   end, self).
#[export] Instance TransparentParser_Parser : Parser ReaderContext JsonValue TransparentParser :=
  {| parse := transparent_parse; on_new_source_started self _ := self |}.
#[export] Instance TransparentParser_ParserInfo : ParserInfo TransparentParser :=
  {| column_count self := length (tp_value_field_names self); session_type := tp_session_type |}.

(** ** Formatters *)

Record FormatterContext := mk_FormatterContext {
  payloads : list (list Z); fc_key : Key; fc_values : list Value; fc_time : Timestamp; fc_diff : Z
}.
Definition new_single_payload (payload : list Z) (key : Key) (values : list Value) (time : Timestamp) (diff : Z)
    : FormatterContext := mk_FormatterContext [payload] key values time diff.
(** [trait Formatter]. *)
Class Formatter (F : Type) := {
  format : F → Key → list Value → Timestamp → Z → outcome FormatterError FormatterContext * F
}.

Record DsvFormatter := mk_DsvFormatter { df_settings : DsvSettings; dsv_header_written : bool }.
Definition dsv_formatter_new (settings : DsvSettings) : DsvFormatter := mk_DsvFormatter settings false.
Definition dsv_format (self : DsvFormatter) (key : Key) (values : list Value) (time : Timestamp) (diff : Z)
    : outcome FormatterError FormatterContext * DsvFormatter :=
  let names := value_column_names (df_settings self) in
  let sep := separator (df_settings self) in
  if negb (Nat.eqb (length values) (length names)) then (Err ColumnsValuesCountMismatch, self)
  else
    let header := if dsv_header_written self then [] else [string_bytes (Text.join sep (names ++ ["time"%string; "diff"%string]))] in
    (line ← try_collect (λ v, display_expect (value_display v)) values;
     let line := string_bytes (Text.join sep (line ++ [timestamp_to_string time; int_to_string diff])) in
     Ok (mk_FormatterContext (header ++ [line]) key [] time diff),
     mk_DsvFormatter (df_settings self) true).
#[export] Instance DsvFormatter_Formatter : Formatter DsvFormatter := {| format := dsv_format |}.

Record SingleColumnFormatter := mk_SingleColumnFormatter { value_field_index : nat }.
Definition single_column_format (self : SingleColumnFormatter) (key : Key) (values : list Value) (time : Timestamp) (diff : Z)
    : outcome FormatterError FormatterContext :=
  v ← ok_or (values !! value_field_index self) IncorrectColumnIndex;
  payload ← match v with
            | VBytes bytes => Ok bytes
            | VString string => Ok (string_bytes string)
            | _ => Err UnsupportedValueType
            end;
  Ok (new_single_payload payload key values time diff).
#[export] Instance SingleColumnFormatter_Formatter : Formatter SingleColumnFormatter :=
  {| format self key values time diff := (single_column_format self key values time diff, self) |}.

Definition newline : string := String (ascii_of_N 10) EmptyString.
Definition concat_strings (l : list string) : string := Text.join "" l.
(** [$1,$2,...]. *)
Definition placeholders (n : nat) : string :=
  Text.join "," (map (λ x, String "$" (int_to_string (Z.of_nat x))) (seq 1 n)).

Record PsqlUpdatesFormatter := mk_PsqlUpdatesFormatter { pu_table_name : string; pu_value_field_names : list string }.
Definition psql_updates_format (self : PsqlUpdatesFormatter) (key : Key) (values : list Value) (time : Timestamp) (diff : Z)
    : outcome FormatterError FormatterContext :=
  if negb (Nat.eqb (length values) (length (pu_value_field_names self))) then Err ColumnsValuesCountMismatch
  else
    Ok (new_single_payload (string_bytes (concat_strings
      ["INSERT INTO "; pu_table_name self; " ("; Text.join "," (pu_value_field_names self); ",time,diff) VALUES (";
       placeholders (length values); ","; timestamp_to_string time; ","; int_to_string diff; ")"; newline]%string))
      key values time diff).
#[export] Instance PsqlUpdatesFormatter_Formatter : Formatter PsqlUpdatesFormatter :=
  {| format self key values time diff := (psql_updates_format self key values time diff, self) |}.

Inductive PsqlSnapshotFormatterError := RepeatedValueField (s : string) | UnknownKey (s : string).
Record PsqlSnapshotFormatter := mk_PsqlSnapshotFormatter {
  ps_table_name : string; ps_key_field_names : list string; ps_value_field_names : list string;
  key_field_positions : list nat; value_field_positions : list nat
}.
(** The two loops of [PsqlSnapshotFormatter::new]. *)
Fixpoint index_fields (fields : list (nat * string)) (field_positions : gmap string nat)
    : outcome PsqlSnapshotFormatterError (gmap string nat) :=
  match fields with
  | [] => Ok field_positions
  | (index, field_name) :: fields =>
      match field_positions !! field_name with
      | Some _ => Err (RepeatedValueField field_name)
      | None => index_fields fields (<[field_name := index]> field_positions)
      end
  end.
Fixpoint remove_keys (key_field_names : list string) (field_positions : gmap string nat) (key_field_positions : list nat)
    : outcome PsqlSnapshotFormatterError (gmap string nat * list nat) :=
  match key_field_names with
  | [] => Ok (field_positions, key_field_positions)
  | key_field_name :: key_field_names =>
      position ← ok_or (field_positions !! key_field_name) (UnknownKey key_field_name);
      remove_keys key_field_names (delete key_field_name field_positions) (key_field_positions ++ [position])
  end.
Definition sort_unstable (l : list nat) : list nat := sort_by Nat.compare l.
Definition psql_snapshot_new (table_name : string) (key_field_names value_field_names : list string)
    : outcome PsqlSnapshotFormatterError PsqlSnapshotFormatter :=
  field_positions ← index_fields (enumerate value_field_names) ∅;
  ' (field_positions, key_field_positions) ← remove_keys key_field_names field_positions [];
  let value_field_positions := map snd (map_to_list field_positions) in
  Ok (mk_PsqlSnapshotFormatter table_name key_field_names value_field_names
        (sort_unstable key_field_positions) (sort_unstable value_field_positions)).
Definition psql_snapshot_format (self : PsqlSnapshotFormatter) (key : Key) (values : list Value) (time : Timestamp) (diff : Z)
    : outcome FormatterError FormatterContext :=
  if negb (Nat.eqb (length values) (length (ps_value_field_names self))) then Err ColumnsValuesCountMismatch
  else
    let table_name := ps_table_name self in
    let time_text := timestamp_to_string time in
    let diff_text := int_to_string diff in
    let placeholder position := String "$" (int_to_string (Z.of_nat (position + 1))) in
    update_condition ← try_collect (λ position, name ← unwrap (ps_value_field_names self !! position);
        Ok (concat_strings [table_name; "."; name; "="; placeholder position]%string)) (key_field_positions self);
    update_pairs ← try_collect (λ position, name ← unwrap (ps_value_field_names self !! position);
        Ok (concat_strings [name; "="; placeholder position]%string)) (value_field_positions self);
    Ok (new_single_payload (string_bytes (concat_strings
      ["INSERT INTO "; table_name; " ("; Text.join "," (ps_value_field_names self); ",time,diff) VALUES (";
       placeholders (length values); ","; time_text; ","; diff_text; ") ON CONFLICT (";
       Text.join "," (ps_key_field_names self); ") DO UPDATE SET "; Text.join "," update_pairs; ",time="; time_text; ",diff="; diff_text;
       " WHERE "; Text.join " AND " update_condition; " AND ("; table_name; ".time<"; time_text; " OR ("; table_name; ".time=";
       time_text; " AND "; table_name; ".diff=-1))"; newline]%string))
      key values time diff).
#[export] Instance PsqlSnapshotFormatter_Formatter : Formatter PsqlSnapshotFormatter :=
  {| format self key values time diff := (psql_snapshot_format self key values time diff, self) |}.

Record JsonLinesFormatter := mk_JsonLinesFormatter { jf_value_field_names : list string }.
Definition json_lines_format (self : JsonLinesFormatter) (key : Key) (values : list Value) (time : Timestamp) (diff : Z)
    : outcome FormatterError FormatterContext :=
  entries ← try_collect (λ '(name, value), j ← serialize_value_to_json value; Ok (name, j))
              (zip (jf_value_field_names self) values);
  let entries := entries ++ [("diff"%string, json_of_i64 diff); ("time"%string, JNumber (num_from_u64 (Z.of_N (ts_0 time))))] in
  Ok (new_single_payload (string_bytes (json_entries_to_string entries)) key [] time diff).
#[export] Instance JsonLinesFormatter_Formatter : Formatter JsonLinesFormatter :=
  {| format self key values time diff := (json_lines_format self key values time diff, self) |}.

Inductive NullFormatter := mk_NullFormatter.
#[export] Instance NullFormatter_Formatter : Formatter NullFormatter :=
  {| format self key _ time diff := (Ok (mk_FormatterContext [] key [] time diff), self) |}.
Inductive IdentityFormatter := mk_IdentityFormatter.
#[export] Instance IdentityFormatter_Formatter : Formatter IdentityFormatter :=
  {| format self key values time diff := (Ok (new_single_payload [] key values time diff), self) |}.
End formats.
