(* ===== verification/DataFormatProps.v ===== *)
(** Correctness of the parsers and formatters: columns are found by their names,
    rows survive printing and parsing, JSON keeps the values it can represent,
    updates of a table arrive as changes. *)
From Stdlib Require Import ZArith Lia Bool Ascii.
From stdpp Require Import base list strings gmap.
From S2P Require Import Prelude Order Float Text Data Externals Instances Value Time Expression Timestamp Connector DataFormat.
Open Scope Z_scope.

(** ** Lists *)

Lemma enumerate_snoc {A} (l : list A) x : enumerate (l ++ [x]) = enumerate l ++ [(length l, x)].
Proof.
  unfold enumerate. rewrite length_app, seq_app. simpl. rewrite zip_with_app by (by rewrite length_seq). done.
Qed.
Definition count_in (P : string → bool) (l : list string) : nat := length (List.filter P l).
Lemma count_in_app P l1 l2 : count_in P (l1 ++ l2) = (count_in P l1 + count_in P l2)%nat.
Proof. unfold count_in. by rewrite List.filter_app, length_app. Qed.
Lemma count_in_one P x : count_in P [x] = if P x then 1%nat else 0%nat.
Proof. unfold count_in. simpl. by destruct (P x). Qed.
Lemma count_in_le P l : (count_in P l ≤ length l)%nat.
Proof. apply List.filter_length_le. Qed.
Lemma count_in_all P l : count_in P l = length l ↔ Forall (λ x, P x = true) l.
Proof.
  induction l as [|x l IH]; [done|]. unfold count_in in *. pose proof (count_in_le P l). unfold count_in in *.
  simpl. destruct (P x) eqn:Hx; simpl; rewrite Forall_cons, <- IH; [naive_solver lia|]. rewrite Hx. naive_solver lia.
Qed.
(** The positions of [f]. *)
Definition positions (f : string) (l : list string) : list nat :=
  List.filter (λ i, bool_decide (l !! i = Some f)) (seq 0 (length l)).
Lemma positions_snoc f l x : positions f (l ++ [x]) = positions f l ++ (if decide (x = f) then [length l] else []).
Proof.
  unfold positions. rewrite length_app, seq_app, List.filter_app. simpl. f_equal.
  - apply List.filter_ext_in. intros i Hi%in_seq. rewrite lookup_app_l by lia. done.
  - rewrite list_lookup_middle by lia. case_bool_decide; case_decide; congruence || done.
Qed.
Lemma positions_in f l i : i ∈ positions f l ↔ l !! i = Some f.
Proof.
  unfold positions. rewrite list_elem_of_In, filter_In, in_seq, bool_decide_eq_true. split; [by intros [_ ?]|].
  intros Hi. split; [|done]. apply lookup_lt_Some in Hi. lia.
Qed.
Lemma positions_count f l : length (positions f l) = count_in (λ x, bool_decide (x = f)) l.
Proof.
  induction l as [|x l IH] using rev_ind; [done|]. rewrite positions_snoc, length_app, count_in_app, IH. f_equal.
  unfold count_in. simpl. case_decide; case_bool_decide; done.
Qed.

(** ** Columns by name *)

Implicit Types (header names : list string).

Lemma request_names_spec names : let '(m, found) := request_names names in
  (∀ f, m !! f = if decide (f = METADATA_FIELD_NAME ∨ positions f names = []) then None else Some (positions f names)) ∧
  found = count_in (λ x, bool_decide (x = METADATA_FIELD_NAME)) names.
Proof.
  unfold request_names. induction names as [|x names IH] using rev_ind.
  { split; [|done]. intros f. simpl. case_decide; [done|]. naive_solver. }
  rewrite enumerate_snoc, foldl_app. destruct (foldl _ _ _) as [m found]. destruct IH as [IH ->].
  rewrite count_in_app, count_in_one. simpl.
  destruct (String.eqb_spec x METADATA_FIELD_NAME) as [->|Hx].
  - rewrite bool_decide_true by done. split; [|simpl; lia]. intros f. rewrite IH, positions_snoc.
    destruct (decide (METADATA_FIELD_NAME = f)) as [->|]; [by rewrite !decide_True by (by left)|by rewrite app_nil_r].
  - rewrite bool_decide_false by done.
    assert (Hm : ∀ ps, ps = positions x names ++ [length names] →
      ∀ f, <[x := ps]> m !! f = if decide (f = METADATA_FIELD_NAME ∨ positions f (names ++ [x]) = []) then None
                              else Some (positions f (names ++ [x]))).
    { intros ps -> f. rewrite positions_snoc. destruct (decide (x = f)) as [<-|Hf].
      - rewrite lookup_insert_eq, decide_False; [done|]. intros [?|[]%app_nil]; done.
      - by rewrite lookup_insert_ne, IH, app_nil_r by done. }
    rewrite IH. destruct (decide (x = METADATA_FIELD_NAME ∨ positions x names = [])) as [[?|Hnil]|Hne]; [done| |].
    + split; [|simpl; lia]. apply Hm. by rewrite Hnil.
    + split; [|simpl; lia]. by apply Hm.
Qed.

(** What the column sought as [name] is assigned from the header [header]. *)
Definition assigned header (name : string) : DsvColumnIndex :=
  if decide (name = METADATA_FIELD_NAME) then DciMetadata else from_option DciIndex DciMetadata (last (positions name header)).
(** How often the header mentions what is sought. *)
Definition mentions header names : nat :=
  sum_list_with (λ v, if decide (v = METADATA_FIELD_NAME) then O else length (positions v names)) header.

Lemma set_indices (indices : list nat) (j : nat) cols found :
  let '(cols', found') := foldl (λ '(cs, n) i, (<[i := DciIndex j]> cs, S n)) (cols, found) indices in
  found' = (found + length indices)%nat ∧ length cols' = length cols ∧
  ∀ i, cols' !! i = if decide (i ∈ indices ∧ i < length cols)%nat then Some (DciIndex j) else cols !! i.
Proof.
  induction indices as [|k indices IH] using rev_ind.
  { split_and!; [simpl; lia|done|]. intros i. destruct (decide (i ∈ [] ∧ _)) as [[?%elem_of_nil _]|]; done. }
  rewrite foldl_app. destruct (foldl _ _ _) as [cols' found']. destruct IH as (-> & Hl & IH). simpl.
  rewrite length_insert, length_app. split_and!; [simpl; lia|done|]. intros i.
  destruct (decide (i = k)) as [->|Hne].
  - destruct (decide (k < length cols)%nat).
    + rewrite list_lookup_insert_eq by lia. rewrite decide_True; [done|]. split; [|done].
      apply elem_of_app. right. apply list_elem_of_here.
    + rewrite list_insert_ge, IH, !decide_False by (lia || naive_solver). done.
  - rewrite list_lookup_insert_ne, IH by done. apply decide_ext. rewrite elem_of_app, list_elem_of_singleton. naive_solver.
Qed.

Lemma assign_spec names header : let '(m, found) := request_names names in
  let '(cols, found') := assign_indices m header (replicate (length names) DciMetadata) found in
  cols = map (assigned header) names ∧ found' = (found + mentions header names)%nat.
Proof.
  pose proof (request_names_spec names) as Hreq. destruct (request_names names) as [m found]. destruct Hreq as [Hm _].
  unfold assign_indices. induction header as [|v header IH] using rev_ind.
  { simpl. split; [|unfold mentions; simpl; lia]. apply list_eq. intros i. rewrite list_lookup_fmap.
    destruct (names !! i) as [x|] eqn:Hx; simpl.
    - rewrite lookup_replicate_2 by (by apply lookup_lt_Some in Hx). unfold assigned. by case_decide.
    - apply lookup_replicate_None. by apply lookup_ge_None in Hx. }
  rewrite enumerate_snoc, foldl_app. destruct (foldl _ _ (enumerate header)) as [cols found']. destruct IH as [-> ->].
  unfold mentions. rewrite sum_list_with_app. simpl. rewrite Hm.
  assert (Hother : ∀ x, x ≠ v → assigned (header ++ [v]) x = assigned header x).
  { intros x Hx. unfold assigned. by rewrite positions_snoc, (decide_False (P := v = x)), app_nil_r by done. }
  destruct (decide (v = METADATA_FIELD_NAME ∨ positions v names = [])) as [Hv|Hv].
  - split; [|destruct (decide (v = METADATA_FIELD_NAME)), Hv as [?|Hv]; try done; rewrite ?Hv; simpl; lia].
    apply list_eq. intros i. rewrite !list_lookup_fmap. destruct (names !! i) as [x|] eqn:Hx; [|done]. simpl. f_equal.
    destruct (decide (x = v)) as [->|]; [|by rewrite Hother]. destruct Hv as [->|Hv].
    + unfold assigned. by rewrite !decide_True.
    + apply positions_in in Hx. rewrite Hv in Hx. by apply elem_of_nil in Hx.
  - pose proof (set_indices (positions v names) (length header) (map (assigned header) names)
      (found + sum_list_with (λ v0, if decide (v0 = METADATA_FIELD_NAME) then O else length (positions v0 names)) header)) as Hset.
    destruct (foldl (λ '(cs, n) i, _) _ (positions v names)) as [cols' found'']. destruct Hset as (-> & Hlen & Hcols).
    split; [|rewrite decide_False by naive_solver; lia].
    apply list_eq. intros i. rewrite Hcols, !list_lookup_fmap, length_map.
    destruct (decide (i ∈ positions v names ∧ _)) as [[Hi%positions_in _]|Hi].
    + rewrite Hi. simpl. f_equal. unfold assigned. rewrite decide_False by naive_solver.
      by rewrite positions_snoc, decide_True, last_snoc by done.
    + destruct (names !! i) as [x|] eqn:Hx; [|done]. simpl. rewrite Hother; [done|]. intros ->. apply Hi.
      split; [by apply positions_in|by apply lookup_lt_Some in Hx].
Qed.
(** The indices are those of the last occurrences, and they are accepted when the
    mentions and the metadata fields are as many as the names. *)
Lemma column_indices_spec header names : column_indices_by_names header names =
  if decide (count_in (λ x, bool_decide (x = METADATA_FIELD_NAME)) names + mentions header names = length names)%nat
  then Ok (map (assigned header) names) else Err (OtherParser (FieldsNotFoundInHeader header names)).
Proof.
  unfold column_indices_by_names. pose proof (assign_spec names header) as Ha. pose proof (request_names_spec names) as Hr.
  destruct (request_names names) as [m found]. destruct Hr as [_ ->].
  destruct (assign_indices _ _ _ _) as [cols found']. destruct Ha as [-> ->].
  case_decide as Hd; [by rewrite Hd, Nat.eqb_refl|]. by apply Nat.eqb_neq in Hd as ->.
Qed.

Lemma count_in_or P Q R l : (∀ x, R x = P x || Q x) → (∀ x, P x && Q x = false) →
  count_in R l = (count_in P l + count_in Q l)%nat.
Proof.
  intros HR HPQ. induction l as [|x l IH]; [done|]. unfold count_in in *. simpl. specialize (HPQ x). rewrite HR.
  destruct (P x), (Q x); simpl in *; done || lia.
Qed.
Lemma count_in_none P l : (∀ x, P x = false) → count_in P l = O.
Proof. intros HP. induction l as [|x l IH]; [done|]. unfold count_in in *. simpl. by rewrite HP. Qed.
Definition in_header header (x : string) : bool := bool_decide (x ≠ METADATA_FIELD_NAME ∧ x ∈ header).
Lemma mentions_nodup header names : NoDup header → mentions header names = count_in (in_header header) names.
Proof.
  unfold mentions. induction 1 as [|v header Hv _ IH].
  { symmetry. apply count_in_none. intros x. apply bool_decide_eq_false. by intros [_ ?%elem_of_nil]. }
  simpl. rewrite IH. rewrite (count_in_or (λ x, bool_decide (x ≠ METADATA_FIELD_NAME ∧ x = v)) (in_header header)
    (in_header (v :: header))).
  - f_equal. case_decide as Hm.
    + symmetry. apply count_in_none. intros x. apply bool_decide_eq_false. naive_solver.
    + rewrite positions_count. unfold count_in. f_equal. apply List.filter_ext. intros x.
      apply bool_decide_ext. naive_solver.
  - intros x. unfold in_header. rewrite <- bool_decide_or. apply bool_decide_ext. rewrite elem_of_cons. naive_solver.
  - intros x. unfold in_header. rewrite <- bool_decide_and. apply bool_decide_eq_false. naive_solver.
Qed.

Lemma accepted_iff header names : NoDup header →
  (count_in (λ x, bool_decide (x = METADATA_FIELD_NAME)) names + mentions header names)%nat = length names ↔
  Forall (λ x, x = METADATA_FIELD_NAME ∨ x ∈ header) names.
Proof.
  intros Hnd. rewrite mentions_nodup by done.
  rewrite <- (count_in_or (λ x, bool_decide (x = METADATA_FIELD_NAME)) (in_header header)
    (λ x, bool_decide (x = METADATA_FIELD_NAME ∨ x ∈ header))).
  - rewrite count_in_all. apply Forall_proper; [|done]. intros x. apply bool_decide_eq_true.
  - intros x. unfold in_header. rewrite <- bool_decide_or. apply bool_decide_ext.
    destruct (decide (x = METADATA_FIELD_NAME)); naive_solver.
  - intros x. unfold in_header. rewrite <- bool_decide_and. apply bool_decide_eq_false. naive_solver.
Qed.

(** The columns of a DSV file are found by their names.  When the header
    repeats no name, the columns are accepted exactly when each name is in the
    header or names the metadata, and each of them gets the position of its own
    name. *)
Theorem header_columns_found header names (Hnd : NoDup header) :
  match column_indices_by_names header names with
  | Ok columns =>
      Forall2 (λ name column, match column with
        | DciIndex j => name ≠ METADATA_FIELD_NAME ∧ header !! j = Some name
        | DciMetadata => name = METADATA_FIELD_NAME
        end) names columns
  | Err e => e = OtherParser (FieldsNotFoundInHeader header names) ∧
      Exists (λ name, name ≠ METADATA_FIELD_NAME ∧ name ∉ header) names
  | Panic _ => False
  end.
Proof.
  rewrite column_indices_spec. case_decide as Hall; rewrite accepted_iff, Forall_forall in Hall by done.
  - apply Forall2_fmap_r, Forall_Forall2_diag, Forall_forall. intros x Hx%Hall.
    simpl. unfold assigned. destruct (decide (x = METADATA_FIELD_NAME)) as [Hm|Hm]; [exact Hm|]. destruct Hx as [?|[j Hj]%list_elem_of_lookup]; [done|].
    apply positions_in in Hj. destruct (last (positions x header)) as [k|] eqn:Hl; simpl.
    + split; [done|]. by apply positions_in, last_Some_elem_of.
    + apply last_None in Hl. rewrite Hl in Hj. by apply elem_of_nil in Hj.
  - split; [done|]. destruct (decide (Exists (λ x, x ≠ METADATA_FIELD_NAME ∧ x ∉ header) names)) as [|Hn]; [done|].
    exfalso. apply Hall. intros x Hx.
    destruct (decide (x = METADATA_FIELD_NAME)); [by left|]. destruct (decide (x ∈ header)); [by right|].
    exfalso. apply Hn, Exists_exists. eauto.
Qed.
Lemma header_columns_found_witness :
  column_indices_by_names ["b"; "a"; "c"]%string ["a"; "_metadata"; "b"; "a"]%string =
    Ok [DciIndex 1; DciMetadata; DciIndex 0; DciIndex 1] ∧
  NoDup ["b"; "a"; "c"]%string ∧
  match column_indices_by_names ["b"; "a"; "c"]%string ["a"; "d"]%string with
  | Ok columns => Forall2 (λ name column, match column with
        | DciIndex j => name ≠ METADATA_FIELD_NAME ∧ ["b"; "a"; "c"]%string !! j = Some name
        | DciMetadata => name = METADATA_FIELD_NAME
        end) ["a"; "d"]%string columns
  | Err e => e = OtherParser (FieldsNotFoundInHeader ["b"; "a"; "c"]%string ["a"; "d"]%string) ∧
      Exists (λ name, name ≠ METADATA_FIELD_NAME ∧ name ∉ ["b"; "a"; "c"]%string) ["a"; "d"]%string
  | Panic _ => False
  end.
Proof.
  assert (Hnd : NoDup ["b"; "a"; "c"]%string) by (apply (bool_decide_unpack (NoDup _)); vm_compute; done).
  split; [by vm_compute|]. split; [done|]. exact (header_columns_found _ ["a"; "d"]%string Hnd).
Defined.
(** A header that repeats a sought name makes up for a missing one, whose column
    then holds the metadata. *)
Lemma repeated_column_hides_missing :
  column_indices_by_names ["a"; "a"]%string ["a"; "b"]%string = Ok [DciIndex 1; DciMetadata].
Proof. by vm_compute. Qed.

(** ** JSON *)

Section json.
Context `{Profile, XxHash, Python, SerdeJson, Chrono, Ndarray, RustText, SerdeJsonTextLaws}.

(** The values that JSON represents: no dates, bytes, arrays, pointers or
    nested JSON, which come back as texts, numbers or tuples. *)
Fixpoint json_faithful (v : Value) : bool :=
  match v with
  | VNone | VBool _ | VString _ => true
  | VInt i => in_i64 i
  | VFloat f => f64_is_finite f
  | VTuple vals => forallb json_faithful vals
  | _ => false
  end.

(** C15: serializing a value to JSON and parsing it gives it back, for every
    value made of nothing, booleans, 64-bit integers, finite floats, strings and
    tuples of these. *)
Theorem json_value_roundtrip (v : Value) (Hv : json_faithful v = true) :
  ∃ j, serialize_value_to_json v = Ok j ∧ parse_value_from_json j = Ok (Some v).
Proof.
  induction v as [vals IH|v Hother] using Value_nested_ind.
  - assert (Hvals : ∃ js, try_collect serialize_value_to_json vals = Ok js ∧
      collect_options parse_value_from_json js = Ok (Some vals)).
    { simpl in Hv. induction IH as [|v vals Hvj _ IHl]; [by exists []|].
      simpl in Hv. apply andb_prop in Hv as [Hv Hvs]. destruct (Hvj Hv) as (j & Hs & Hp).
      destruct (IHl Hvs) as (js & Hss & Hps). exists (j :: js). simpl. by rewrite Hs, Hss, Hp, Hps. }
    destruct Hvals as (js & Hs & Hp). exists (JArray js). simpl. by rewrite Hs, Hp.
  - destruct v; simpl in Hv; try done; try (eexists; split; [done|]; done).
    + exists (json_of_i64 i). split; [done|]. simpl. rewrite num_as_u64_i64 by done.
      destruct (Z.leb_spec 0 i); [by rewrite Hv|]. by rewrite num_as_i64_i64.
    + destruct (num_f64_finite f Hv) as [n Hn]. exists (JNumber n). simpl. unfold json_of_f64. rewrite Hn.
      destruct (num_as_f64_f64 _ _ Hn) as (Hu & Hi & Hf). by rewrite Hu, Hi, Hf.
    + by destruct (Hother vals).
Qed.

(** Integers that the parser accepts: those it converts to [i64] with [unwrap]. *)
Fixpoint json_ints_fit (j : JsonValue) : bool :=
  match j with
  | JNumber n => match num_as_u64 n with Some u => in_i64 u | None => true end
  | JArray l => forallb json_ints_fit l
  | _ => true
  end.
Fixpoint json_depth (j : JsonValue) : nat :=
  match j with
  | JArray l => S (foldr (λ j d, Nat.max (json_depth j) d) O l)
  | _ => O
  end.
Lemma json_array_ind (P : JsonValue → Prop) :
  (∀ l, Forall P l → P (JArray l)) → (∀ j, (∀ l, j ≠ JArray l) → P j) → ∀ j, P j.
Proof.
  intros Ha Ho j. remember (json_depth j) as d eqn:Hd. revert j Hd.
  induction d as [d IH] using lt_wf_ind. intros j ->. destruct j; try (by apply Ho).
  apply Ha, Forall_forall. intros j Hj. apply (IH (json_depth j)); [|done]. simpl. clear -Hj.
  induction l as [|x l IHl]; [by apply elem_of_nil in Hj|]. simpl. apply elem_of_cons in Hj as [->|Hj]; [lia|].
  specialize (IHl Hj). lia.
Qed.
(** Parsing a JSON value never fails with an error, and aborts only at an
    integer of [2^63] or more. *)
Lemma parse_value_total j : json_ints_fit j = true → ∃ o, parse_value_from_json j = Ok o.
Proof.
  induction j as [l IH|j Hother] using json_array_ind.
  - intros Hl. simpl in Hl. assert (∃ o, collect_options parse_value_from_json l = Ok o) as [o Ho].
    { induction IH as [|j l Hj _ IHl]; [by eexists|]. simpl in Hl. apply andb_prop in Hl as [Hl Hls].
      destruct (Hj Hl) as [o Ho], (IHl Hls) as [os Hos]. simpl. rewrite Ho. destruct o; [rewrite Hos|]; by eexists. }
    simpl. rewrite Ho. by eexists.
  - intros Hj. destruct j; simpl in *; try (by eexists); [|by destruct (Hother l)].
    destruct (num_as_u64 n); [rewrite Hj; by eexists|]. destruct (num_as_i64 n); by eexists.
Qed.
Lemma parse_big_integer_panics n u : num_as_u64 n = Some u → in_i64 u = false →
  ∃ msg, parse_value_from_json (JNumber n) = Panic msg.
Proof. intros Hu Hn. simpl. rewrite Hu, Hn. by eexists. Qed.
End json.

(** ** White space and UTF-8 *)

(** Bytes of ASCII characters that are not white space. *)
Definition plain (b : N) : bool := ((b <? 128) && negb ((9 <=? b) && (b <=? 13)) && negb (b =? 32))%N.
Lemma whitespace_plain b bs : plain b = true → whitespace_len (b :: bs) = O.
Proof.
  unfold plain. intros Hb. destruct b as [|p]; [done|].
  do 7 (destruct p as [p|p|]; try done).
  all: exfalso; revert Hb; clear; destruct p; done.
Qed.
Definition last_high (bs : list N) (n : nat) : Prop := match drop (n - 1) bs with b :: _ => (128 <= b)%N | [] => False end.
Lemma whitespace_len_high bs : let n := whitespace_len bs in (n <= 1)%nat ∨ last_high bs n.
Proof.
  unfold whitespace_len, last_high. simpl.
  repeat (case_match; [..]; try (left; (reflexivity || lia))); simplify_eq/=; try (left; lia); right; simpl; try lia.
  all: match goal with H : _ = true |- _ => revert H end; rewrite ?orb_true_iff, ?andb_true_iff, ?N.leb_le, ?N.eqb_eq. all: intros Hc; repeat destruct Hc as [Hc|Hc]; subst; done || (destruct Hc as [Hc _]; exact Hc).
Qed.
Lemma whitespace_end_plain bs b : plain b = true → whitespace_len_end (bs ++ [b]) = O.
Proof.
  intros Hb. assert (Hb' : (b < 128)%N) by (unfold plain in Hb; rewrite !andb_true_iff, N.ltb_lt in Hb; tauto). unfold whitespace_len_end. rewrite length_app. simpl.
  assert (Hone : whitespace_len (drop (length bs + 1 - 1) (bs ++ [b])) = O).
  { rewrite Nat.add_sub, drop_app_length. by apply whitespace_plain. }
  rewrite Hone. simpl.
  assert (Hne : ∀ k, (2 ≤ k)%nat → whitespace_len (drop (length bs + 1 - k) (bs ++ [b])) ≠ k).
  { intros k Hk Hlen. pose proof (whitespace_len_high (drop (length bs + 1 - k) (bs ++ [b]))) as Hh. simpl in Hh.
    rewrite Hlen in Hh. destruct Hh as [?|Hh]; [lia|]. unfold last_high in Hh. rewrite drop_drop in Hh.
    destruct (decide (length bs + 1 - k + (k - 1) = length bs)%nat) as [E|E].
    - rewrite E, drop_app_length in Hh. lia.
    - rewrite drop_ge in Hh; [done|]. rewrite length_app. simpl. lia. }
  pose proof (Hne 2%nat ltac:(lia)) as H2. apply Nat.eqb_neq in H2 as ->.
  pose proof (Hne 3%nat ltac:(lia)) as H3. by apply Nat.eqb_neq in H3 as ->.
Qed.
Lemma bytes_of_string_of s : string_of_bytes (bytes_of_string s) = s.
Proof.
  unfold string_of_bytes, bytes_of_string. rewrite map_map.
  rewrite (map_ext _ id) by (intros; apply ascii_N_embedding). rewrite map_id. apply String.string_of_list_ascii_of_string.
Qed.
Lemma trim_id s : whitespace_len (bytes_of_string s) = O → whitespace_len_end (bytes_of_string s) = O → trim s = s.
Proof.
  intros Hs He. unfold trim. 
  assert (Hst : ∀ n, trim_start_bytes n (bytes_of_string s) = bytes_of_string s) by (intros [|n]; simpl; by rewrite ?Hs).
  assert (Het : ∀ n, trim_end_bytes n (bytes_of_string s) = bytes_of_string s) by (intros [|n]; simpl; by rewrite ?He).
  rewrite Hst, Het. apply bytes_of_string_of.
Qed.
Lemma string_bytes_id s : bytes_to_string (string_bytes s) = s.
Proof.
  unfold bytes_to_string, string_bytes. rewrite map_map.
  rewrite (map_ext _ N_of_ascii) by (intros; lia). apply bytes_of_string_of.
Qed.
Lemma string_bytes_app a b : string_bytes (a +:+ b) = string_bytes a ++ string_bytes b.
Proof. unfold string_bytes. induction a as [|c a IH]; [done|]. simpl. by f_equal. Qed.
Lemma bytes_of_string_app a b : bytes_of_string (a +:+ b) = bytes_of_string a ++ bytes_of_string b.
Proof. unfold bytes_of_string. induction a as [|c a IH]; [done|]. simpl. by f_equal. Qed.
Lemma utf8_valid_app_n n : ∀ a b, (length a ≤ n)%nat → utf8_valid a = true → utf8_valid b = true → utf8_valid (a ++ b) = true.
Proof.
  induction n as [|n IH]; intros [|x0 a] b Hn Ha Hb; simpl in Hn; try done; [lia|]. simpl in *.
  destruct (in_range 0 127 x0); [apply IH; done || lia|]. destruct a as [|x1 a]; [done|]. simpl in *.
  destruct (in_range 194 223 x0); [apply andb_prop in Ha as [-> Ha]; apply IH; done || lia|].
  destruct a as [|x2 a]; [done|]. simpl in *.
  destruct (in_range 224 239 x0); [apply andb_prop in Ha as [-> Ha]; apply IH; done || lia|].
  destruct a as [|x3 a]; [done|]. simpl in *. apply andb_prop in Ha as [-> Ha]. apply IH; done || lia.
Qed.
Lemma utf8_valid_app a b : utf8_valid a = true → utf8_valid b = true → utf8_valid (a ++ b) = true.
Proof. by apply (utf8_valid_app_n (length a)). Qed.

(** ** Splitting what was joined *)

Lemma split_str_char sep s : split_str (String sep EmptyString) s = split_on sep s.
Proof.
  unfold split_str. assert (∀ n, (String.length s < n)%nat → split_str_go n (String sep "") s = split_on sep s) as Hn; [|apply Hn; lia].
  induction s as [|c s IH]; intros [|n] Hn; simpl in *; try lia; [done|].
  rewrite (Ascii.eqb_sym sep c). destruct (c =? sep)%char; [by rewrite IH by lia|]. rewrite IH by lia. done.
Qed.
Definition no_char (sep : ascii) (s : string) : bool := string_forall (λ c, negb (c =? sep)%char) s.
Lemma split_join sep l : l ≠ [] → forallb (no_char sep) l = true → split_on sep (Text.join (String sep EmptyString) l) = l.
Proof.
  induction l as [|s l IH]; [done|]. intros _ Hl. simpl in Hl. apply andb_prop in Hl as [Hs Hl].
  destruct l as [|s' l]; [by apply split_on_none|]. 
  change (Text.join (String sep "") (s :: s' :: l)) with (s +:+ String sep (Text.join (String sep "") (s' :: l))).
  rewrite split_on_app by done. f_equal. by apply IH.
Qed.
Lemma utf8_valid_join sep l : utf8_valid (string_bytes sep) = true → Forall (λ s, utf8_valid (string_bytes s) = true) l →
  utf8_valid (string_bytes (Text.join sep l)) = true.
Proof.
  intros Hsep. induction 1 as [|s l Hs Hl IH]; [done|]. destruct l as [|s' l]; [done|].
  change (Text.join sep (s :: s' :: l)) with (s +:+ (sep +:+ Text.join sep (s' :: l))).
  rewrite !string_bytes_app. by repeat apply utf8_valid_app.
Qed.

(** Texts of ASCII characters other than white space. *)
Definition plain_text (s : string) : bool := string_forall (λ c, plain (N_of_ascii c)) s.
Definition starts_plain (s : string) : bool := match s with EmptyString => true | String c _ => plain (N_of_ascii c) end.
Lemma plain_text_bytes s : plain_text s = true → Forall (λ b, plain b = true) (bytes_of_string s).
Proof.
  unfold bytes_of_string. induction s as [|c s IH]; simpl; [constructor|]. intros [Hc Hs]%andb_prop.
  constructor; [done|by apply IH].
Qed.
Lemma plain_text_starts s : plain_text s = true → starts_plain s = true.
Proof. destruct s; simpl; [done|]. by intros [? _]%andb_prop. Qed.
Lemma plain_text_utf8 s : plain_text s = true → utf8_valid (string_bytes s) = true.
Proof.
  unfold string_bytes. induction s as [|c s IH]; simpl; [done|]. intros [Hc Hs]%andb_prop.
  unfold plain in Hc. rewrite !andb_true_iff, N.ltb_lt in Hc. destruct Hc as [[Hc _] _].
  unfold in_range at 1. replace (_ && _) with true by lia. by apply IH.
Qed.
Lemma join_snoc sep l x : Text.join sep (l ++ [x]) = match l with [] => x | _ => Text.join sep l +:+ sep +:+ x end.
Proof.
  induction l as [|s l IH]; [done|]. destruct l as [|s' l]; [done|].
  change (Text.join sep ((s :: s' :: l) ++ [x])) with (s +:+ sep +:+ Text.join sep ((s' :: l) ++ [x])). rewrite IH.
  change (Text.join sep (s :: s' :: l)) with (s +:+ sep +:+ Text.join sep (s' :: l)).
  assert (Ha : ∀ a b c : string, (a +:+ b) +:+ c = a +:+ (b +:+ c)).
  { intros a b c. induction a as [|d a IHa]; [done|]. exact (f_equal (String d) IHa). }
  by rewrite !Ha.
Qed.

(** A line of cells reads back as its cells. *)
Section line.
Context (sep : ascii) (Hsep : plain (N_of_ascii sep) = true).
Abbreviation sep_text := (String sep EmptyString).
Lemma line_start l : starts_plain (hd ""%string l) = true → whitespace_len (bytes_of_string (Text.join sep_text l)) = O.
Proof.
  intros Hl. destruct l as [|s l]; [done|]. destruct l as [|s' l].
  - destruct s as [|c s]; [done|]. by apply whitespace_plain.
  - change (Text.join sep_text (s :: s' :: l)) with (s +:+ sep_text +:+ Text.join sep_text (s' :: l)).
    rewrite !bytes_of_string_app. destruct s as [|c s]; by apply whitespace_plain.
Qed.
Lemma line_end l x : plain_text x = true → x ≠ ""%string →
  whitespace_len_end (bytes_of_string (Text.join sep_text (l ++ [x]))) = O.
Proof.
  intros Hx Hne. rewrite join_snoc.
  assert (∃ bs b, bytes_of_string x = bs ++ [b] ∧ plain b = true) as (bs & b & Hb & Hp).
  { apply plain_text_bytes in Hx. destruct (bytes_of_string x) as [|b bs _] eqn:E using rev_ind.
    - destruct x; [done|by unfold bytes_of_string in E].
    - apply Forall_app in Hx as [_ [Hx _]%Forall_cons]. by exists bs, b. }
  destruct l as [|s l]; [rewrite Hb; by apply whitespace_end_plain|].
  rewrite !bytes_of_string_app, Hb, !app_assoc. by apply whitespace_end_plain.
Qed.
Lemma line_reads l x : starts_plain (hd x l) = true → Forall (λ s, utf8_valid (string_bytes s) = true) l →
  plain_text x = true → x ≠ ""%string → forallb (no_char sep) (l ++ [x]) = true →
  prepare_plaintext_string (string_bytes (Text.join sep_text (l ++ [x]))) = Ok (Text.join sep_text (l ++ [x])) ∧
  split_str sep_text (Text.join sep_text (l ++ [x])) = l ++ [x].
Proof.
  intros Hs Hu Hx Hne Hc. split; [|rewrite split_str_char; apply split_join; [by destruct l|done]].
  unfold prepare_plaintext_string. rewrite utf8_valid_join; [|apply plain_text_utf8; unfold plain_text; cbn [string_forall]; by rewrite Hsep|].
  2: { apply Forall_app. split; [done|]. constructor; [by apply plain_text_utf8|constructor]. }
  rewrite string_bytes_id, trim_id; [done|apply line_start; by destruct l|by apply line_end].
Qed.
End line.

(** ** DSV round trip *)

Section payloads.
Context `{Formatter F} {Meta P : Type} `{Parser ReaderContext Meta P}.
Abbreviation Row := (Key * list Value * Timestamp * Z)%type.
(** The payloads of the rows, one after the other. *)
Fixpoint format_rows (f : F) (rows : list Row) : outcome FormatterError (list (list Z)) :=
  match rows with
  | [] => Ok []
  | (key, values, time, diff) :: rows =>
      let (r, f) := format f key values time diff in
      c ← r; ps ← format_rows f rows; Ok (payloads c ++ ps)
  end.
(** The events of the payloads, each an insertion. *)
Fixpoint parse_payloads (p : P) (ps : list (list Z)) : DynResult (list ParsedEventWithErrors) :=
  match ps with
  | [] => Ok []
  | payload :: ps =>
      let (r, p) := parse p (RawBytes DeInsert payload) in
      events ← r; rest ← parse_payloads p ps; Ok (events ++ rest)
  end.
End payloads.

Section dsv.
Context `{Profile, XxHash, Python, SerdeJson, Chrono, Ndarray, RustText, SerdeJsonText}.

(** Separators that occur in no printed cell and not in the commit literal. *)
Definition separator_ok (sep : ascii) : bool :=
  plain (N_of_ascii sep) && no_char sep "-0123456789TrueFalsetimediff*COMMIT*".
Definition cell_ok (t : Type_) (v : Value) : bool :=
  match t, v with TInt, VInt i => in_i64 i | TBool, VBool _ => true | _, _ => false end.
Record dsv_columns (sep : ascii) (names : list string) (types : list Type_) (schema : Schema) : Prop := {
  dc_separator : separator_ok sep = true;
  dc_header : NoDup (names ++ ["time"; "diff"]%string);
  dc_metadata : METADATA_FIELD_NAME ∉ names;
  dc_names : Forall (λ name, utf8_valid (string_bytes name) = true ∧ no_char sep name = true) names;
  dc_start : starts_plain (hd ""%string names) = true;
  dc_schema : Forall2 (λ name t, type_ <$> (isf_type <$> schema !! name) = Some t) names types
}.

Lemma no_char_sub (sep : ascii) (big small : string) : no_char sep big = true →
  string_forall (λ c, negb (no_char c big)) small = true → no_char sep small = true.
Proof.
  unfold no_char. intros Hbig. induction small as [|c small IH]; simpl; [done|]. intros [Hc Hs]%andb_prop.
  rewrite IH by done. rewrite andb_true_r, negb_true_iff. destruct (Ascii.eqb_spec c sep) as [->|]; [|done].
  by rewrite Hbig in Hc.
Qed.
Section cells.
Context (sep : ascii) (Hsep : separator_ok sep = true).
Lemma sep_plain : plain (N_of_ascii sep) = true.
Proof. unfold separator_ok in Hsep. by apply andb_prop in Hsep as [? _]. Qed.
Lemma sep_not_in s : string_forall (λ c, negb (no_char c "-0123456789TrueFalsetimediff*COMMIT*")) s = true → no_char sep s = true.
Proof. apply no_char_sub. unfold separator_ok in Hsep. by apply andb_prop in Hsep as [_ ?]. Qed.
(** Digits are characters of printed cells, and plain. *)
Lemma digit_cell c : is_digit c = true → negb (no_char c "-0123456789TrueFalsetimediff*COMMIT*") = true ∧ plain (N_of_ascii c) = true.
Proof. by destruct c as [[] [] [] [] [] [] [] []]. Qed.
Lemma int_cell n : no_char sep (int_to_string n) = true ∧ plain_text (int_to_string n) = true ∧ int_to_string n ≠ ""%string.
Proof.
  assert (Hdec : ∀ m, string_forall is_digit (dec_nat (dec_fuel m) m "") = true) by (intros; by apply dec_nat_digits).
  assert (Hne : ∀ m, dec_nat (dec_fuel m) m "" ≠ ""%string) by (intros; apply dec_nat_nonempty; right; unfold dec_fuel; lia).
  assert (Hd : ∀ m, string_forall (λ c, negb (no_char c "-0123456789TrueFalsetimediff*COMMIT*")) (dec_nat (dec_fuel m) m "") = true ∧
                    plain_text (dec_nat (dec_fuel m) m "") = true).
  { intros m. split; (eapply string_forall_impl; [|apply Hdec]); intros c Hc; by apply digit_cell in Hc as [? ?]. }
  unfold int_to_string. destruct (n <? 0).
  - split_and!; [|cbn; apply (Hd (- n))|done]. apply sep_not_in. cbn. apply (Hd (- n)).
  - split_and!; [apply sep_not_in, Hd|apply Hd|apply Hne].
Qed.
Lemma value_cell t v : cell_ok t v = true → ∃ s, value_display v = Ok s ∧ no_char sep s = true ∧ plain_text s = true ∧ s ≠ ""%string ∧
  ∀ item name, type_ (isf_type item) = t → parse_with_type s item name = Ok v.
Proof.
  destruct t, v; try done; simpl.
  - intros _. destruct b; (eexists; split; [done|]; split; [by apply sep_not_in|]; split_and!; [done|done|];
      intros item name Ht; unfold parse_with_type; rewrite Ht; simpl; by destruct (isf_default item)).
  - intros Hi. destruct (int_cell i) as (Hc & Hp & Hne). eexists. split; [done|]. split_and!; try done.
    intros item name Ht. unfold parse_with_type. rewrite Ht.
    apply in_i64_spec in Hi. unfold parse_i64. rewrite parse_int_to_string; [|unfold I64_MIN, I64_MAX in *; lia|by left]. simpl.
    apply String.eqb_neq in Hne as ->. by destruct (isf_default item).
Qed.
Lemma row_cells types values : Forall2 (λ t v, cell_ok t v = true) types values →
  ∃ cells, try_collect (λ v, display_expect (E := FormatterError) (value_display v)) values = Ok cells ∧
    Forall2 (λ '(t, v) s, no_char sep s = true ∧ plain_text s = true ∧
      ∀ item name, type_ (isf_type item) = t → parse_with_type s item name = Ok v) (zip types values) cells.
Proof.
  induction 1 as [|t v types values Hv _ IH]; [exists []; split; [done|constructor]|].
  destruct (value_cell t v Hv) as (s & Hs & Hc & Hp & _ & Hparse), IH as (cells & Hcs & Hall).
  exists (s :: cells). simpl. rewrite Hs. simpl. rewrite Hcs. split; [done|]. by constructor.
Qed.
End cells.

Section table.
Context (sep : ascii) (names : list string) (types : list Type_) (schema : Schema) (Hc : dsv_columns sep names types schema).
Abbreviation sep_text := (String sep EmptyString).
Definition dsv_settings : DsvSettings := mk_DsvSettings None names sep_text.
Definition dsv_header : list string := names ++ ["time"; "diff"]%string.
(** The parser once it has read the header. *)
Definition dsv_ready : DsvParser :=
  mk_DsvParser dsv_settings schema dsv_header VNone None (map (assigned dsv_header) names)
    (index_schema schema dsv_header) true.

Lemma line_not_special line l x : split_str sep_text line = l ++ [x] → l ≠ [] → line ≠ ""%string ∧ line ≠ COMMIT_LITERAL.
Proof.
  intros Hl Hne. assert (Hnone : ∀ s, no_char sep s = true → split_str sep_text s ≠ l ++ [x]).
  { intros s Hs. rewrite split_str_char, split_on_none by done. destruct l as [|a [|b l]]; done. }
  split; intros ->; (eapply Hnone; [|exact Hl]); [done|]. by apply sep_not_in; [apply Hc|].
Qed.
Lemma line_parses p l x : separator (settings p) = sep_text → l ≠ [] → starts_plain (hd x l) = true →
  Forall (λ s, utf8_valid (string_bytes s) = true) l → plain_text x = true → x ≠ ""%string →
  forallb (no_char sep) (l ++ [x]) = true →
  dsv_parse p (RawBytes DeInsert (string_bytes (Text.join sep_text (l ++ [x])))) = parse_tokenized_entries p DeInsert (l ++ [x]).
Proof.
  intros Hp Hne Hs Hu Hx Hxne Hch.
  destruct (line_reads sep (sep_plain sep (dc_separator _ _ _ _ Hc)) l x Hs Hu Hx Hxne Hch) as [Hread Hsplit].
  destruct (line_not_special _ _ _ Hsplit Hne) as [Hl1%String.eqb_neq Hl2%String.eqb_neq].
  simpl. unfold parse_bytes_simple. by rewrite Hread, Hl1, Hl2, Hp, Hsplit.
Qed.

Lemma header_mentions : column_indices_by_names dsv_header names = Ok (map (assigned dsv_header) names).
Proof.
  rewrite column_indices_spec. rewrite decide_True; [done|]. apply accepted_iff; [apply (dc_header _ _ _ _ Hc)|].
  apply Forall_forall. intros x Hx. right. unfold dsv_header. apply elem_of_app. by left.
Qed.
Lemma assigned_header i name : names !! i = Some name → assigned dsv_header name = DciIndex i.
Proof.
  intros Hi. unfold assigned. rewrite decide_False.
  2: { intros ->. apply (dc_metadata _ _ _ _ Hc). by eapply list_elem_of_lookup_2. }
  assert (Hin : dsv_header !! i = Some name) by (unfold dsv_header; by apply lookup_app_l_Some).
  destruct (last (positions name dsv_header)) as [j|] eqn:Hl; simpl.
  - apply last_Some_elem_of, positions_in in Hl. f_equal. eapply NoDup_lookup; [apply (dc_header _ _ _ _ Hc)|done|done].
  - apply last_None in Hl. apply positions_in in Hin. rewrite Hl in Hin. by apply elem_of_nil in Hin.
Qed.
Lemma index_schema_spec l i : index_schema schema l !! i = l !! i ≫= λ name, schema !! name.
Proof.
  unfold index_schema. induction l as [|x l IH] using rev_ind; [done|]. rewrite enumerate_snoc, foldl_app. simpl.
  assert (Hsnoc : (l ++ [x]) !! i = if decide (i = length l) then Some x else l !! i).
  { case_decide as Hi; [subst; by rewrite list_lookup_middle|]. destruct (decide (i < length l)%nat); [by rewrite lookup_app_l by lia|].
    rewrite !lookup_ge_None_2; rewrite ?length_app; simpl; done || lia. }
  rewrite Hsnoc. destruct (schema !! x) as [item|] eqn:Hx.
  - case_decide as Hi; [subst; simpl; by rewrite lookup_insert_eq, Hx|]. by rewrite lookup_insert_ne, IH by done.
  - rewrite IH. case_decide as Hi; [|done]. subst. rewrite lookup_ge_None_2 by lia. simpl. by rewrite Hx.
Qed.
Lemma header_parses :
  dsv_parse (dsv_parser_new dsv_settings schema) (RawBytes DeInsert (string_bytes (Text.join sep_text dsv_header))) =
  (Ok [], dsv_ready).
Proof.
  assert (Hsplit : dsv_header = (names ++ ["time"%string]) ++ ["diff"%string]) by (unfold dsv_header; by rewrite <- app_assoc).
  assert (Hnames := dc_names _ _ _ _ Hc). assert (Hsep := dc_separator _ _ _ _ Hc).
  rewrite Hsplit at 1. rewrite line_parses; try done.
  - rewrite <- Hsplit. unfold parse_tokenized_entries.
    assert (match dsv_header with [line] => (line =? COMMIT_LITERAL)%string | _ => false end = false) as ->.
    { unfold dsv_header. by destruct names as [|? [|? ?]]. }
    simpl. unfold parse_dsv_header. simpl.
    by rewrite header_mentions.
  - by destruct names.
  - pose proof (dc_start _ _ _ _ Hc). by destruct names.
  - apply Forall_app. split; [|by repeat constructor]. eapply Forall_impl; [done|]. by intros ? [? _].
  - rewrite <- Hsplit. unfold dsv_header. rewrite forallb_app. apply andb_true_intro. split.
    + apply forallb_forall. intros x Hx%list_elem_of_In. rewrite Forall_forall in Hnames. by apply Hnames.
    + simpl. rewrite !sep_not_in by done. done.
Qed.

Lemma header_plain_cells : ∀ x, x ∈ ["time"; "diff"]%string → no_char sep x = true ∧ plain_text x = true ∧ x ≠ ""%string.
Proof.
  intros x Hx. pose proof (dc_separator _ _ _ _ Hc) as Hsep.
  repeat (apply elem_of_cons in Hx as [->|Hx]; [split_and!; [by apply sep_not_in|done|done]|]). by apply elem_of_nil in Hx.
Qed.
Lemma row_parses values cells x y : Forall2 (λ t v, cell_ok t v = true) types values →
  Forall2 (λ '(t, v) s, no_char sep s = true ∧ plain_text s = true ∧
      ∀ item name, type_ (isf_type item) = t → parse_with_type s item name = Ok v) (zip types values) cells →
  parse_tokenized_entries dsv_ready DeInsert (cells ++ [x; y]) = (Ok [PeInsert None (map Ok values)], dsv_ready).
Proof.
  intros Hvalues Hcells. pose proof (dc_schema _ _ _ _ Hc) as Hschema.
  assert (Hlen : length cells = length names).
  { rewrite <- (Forall2_length _ _ _ Hcells), length_zip, (Forall2_length _ _ _ Hschema), (Forall2_length _ _ _ Hvalues). lia. }
  unfold parse_tokenized_entries.
  assert (match cells ++ [x; y] with [line] => (line =? COMMIT_LITERAL)%string | _ => false end = false) as ->.
  { by destruct cells as [|? [|? ?]]. }
  cbn [dsv_ready negb dsv_header_read key_column_indices value_column_indices default from_option forallb].
  assert (forallb (has_index (length (cells ++ [x; y]))) (map (assigned dsv_header) names) = true) as ->.
  { apply forallb_forall. intros c (name & <- & [i Hi]%list_elem_of_In%list_elem_of_lookup)%in_map_iff.
    rewrite (assigned_header i name Hi). simpl. apply Nat.ltb_lt. apply lookup_lt_Some in Hi. rewrite length_app. simpl. lia. }
  cbn [andb mbind outcome_bind].
  assert (values_by_indices dsv_ready (cells ++ [x; y]) (map (assigned dsv_header) names) = Ok (map Ok values)) as ->; [|done].
  unfold values_by_indices. apply try_collect_ok, Forall2_fmap, Forall2_same_length_lookup_2.
  { rewrite (Forall2_length _ _ _ Hschema). by apply Forall2_length in Hvalues. }
  intros i name v Hi Hv. rewrite (assigned_header i name Hi).
  destruct (Forall2_lookup_l _ _ _ _ _ Hschema Hi) as (t & Ht & Hitem).
  assert (Hz : zip types values !! i = Some (t, v)) by (apply lookup_zip_with_Some; eauto).
  destruct (Forall2_lookup_l _ _ _ _ _ Hcells Hz) as (s & Hs & _ & _ & Hparse).
  assert (Hh : dsv_header !! i = Some name) by by apply lookup_app_l_Some.
  unfold value_by_index. cbn [dsv_ready indexed_schema header]. rewrite index_schema_spec, Hh, (lookup_app_l_Some _ _ _ _ Hs). simpl.
  destruct (schema !! name) as [item|]; [|done]. simpl. injection Hitem as Hitem. by rewrite Hparse.
Qed.
(** A row, printed and read. *)
Lemma row_roundtrip f key values time diff : df_settings f = dsv_settings → Forall2 (λ t v, cell_ok t v = true) types values →
  ∃ line, dsv_format f key values time diff =
      (Ok (mk_FormatterContext ((if dsv_header_written f then [] else [string_bytes (Text.join sep_text dsv_header)]) ++ [line])
         key [] time diff), mk_DsvFormatter dsv_settings true) ∧
    dsv_parse dsv_ready (RawBytes DeInsert line) = (Ok [PeInsert None (map Ok values)], dsv_ready).
Proof.
  intros Hf Hvalues. pose proof (dc_separator _ _ _ _ Hc) as Hsep.
  destruct (row_cells sep Hsep types values Hvalues) as (cells & Hcells & Hall).
  exists (string_bytes (Text.join sep_text (cells ++ [timestamp_to_string time; int_to_string diff]))). split.
  - unfold dsv_format. rewrite Hf. simpl.
    assert (Nat.eqb (length values) (length names) = true) as ->.
    { apply Nat.eqb_eq. rewrite (Forall2_length _ _ _ (dc_schema _ _ _ _ Hc)). symmetry. by apply Forall2_length in Hvalues. }
    simpl. by rewrite Hcells.
  - destruct (int_cell sep Hsep (Z.of_N (ts_0 time))) as (Ht1 & Ht2 & Ht3), (int_cell sep Hsep diff) as (Hd1 & Hd2 & Hd3).
    assert (Hcs : Forall (λ s, no_char sep s = true ∧ plain_text s = true) cells).
    { clear -Hall. induction Hall as [|[t v] s tvs cells (? & ? & _) _ IH]; constructor; done. }
    change [timestamp_to_string time; int_to_string diff] with ([timestamp_to_string time] ++ [int_to_string diff]).
    rewrite app_assoc. rewrite line_parses; try done.
    + rewrite <- app_assoc. by apply row_parses.
    + by destruct cells.
    + destruct Hcs as [|s cells [_ Hp] _]; by apply plain_text_starts.
    + apply Forall_app. split; [|by repeat constructor; apply plain_text_utf8].
      eapply Forall_impl; [done|]. intros s [_ Hp]. by apply plain_text_utf8.
    + rewrite !forallb_app. simpl. unfold timestamp_to_string. rewrite Ht1, Hd1, !andb_true_r.
      apply forallb_forall. intros s Hs%list_elem_of_In. rewrite Forall_forall in Hcs. by apply Hcs.
Qed.
Lemma rows_roundtrip rows : Forall (λ '(key, values, time, diff), Forall2 (λ t v, cell_ok t v = true) types values) rows →
  ∀ f, df_settings f = dsv_settings → ∃ ps, format_rows f rows = Ok (match rows with [] => [] | _ =>
      (if dsv_header_written f then [] else [string_bytes (Text.join sep_text dsv_header)]) ++ ps end) ∧
    parse_payloads dsv_ready ps = Ok (map (λ '(key, values, time, diff), PeInsert None (map Ok values)) rows).
Proof.
  induction 1 as [|[[[key values] time] diff] rows Hrow _ IH]; intros f Hf; [by exists []|].
  destruct (row_roundtrip f key values time diff Hf Hrow) as (line & Hformat & Hparse).
  destruct (IH (mk_DsvFormatter dsv_settings true) eq_refl) as (ps & Hps & Hevents).
  exists (line :: match rows with [] => [] | _ => ps end). split.
  - simpl. rewrite Hformat. simpl. rewrite Hps. destruct rows; simpl; by rewrite <- ?app_assoc, ?app_nil_r.
  - cbn [parse_payloads parse DsvParser_Parser]. rewrite Hparse. cbn [mbind outcome_bind].
    destruct rows; [done|]. by rewrite Hevents.
Qed.
End table.

(** C26: A table of integers and booleans that is written as a DSV file and read back
    with the same settings gives its rows: the header, then each line in order, whatever
    the times and the differences, which become the two columns that the reader does not
    ask for. The separator is no whitespace and none of the characters that the
    formatter prints; the names of the columns are distinct, are not time, diff or
    _metadata, do not contain the separator, and the first starts with an ASCII
    character other than white space; the schema gives the columns their types. *)
Theorem dsv_roundtrip (sep : ascii) (names : list string) (types : list Type_) (schema : Schema)
    (rows : list (Key * list Value * Timestamp * Z)) (Hc : dsv_columns sep names types schema)
    (Hrows : Forall (λ '(key, values, time, diff), Forall2 (λ t v, cell_ok t v = true) types values) rows) :
  ∃ ps, format_rows (dsv_formatter_new (mk_DsvSettings None names (String sep EmptyString))) rows = Ok ps ∧
    parse_payloads (dsv_parser_new (mk_DsvSettings None names (String sep EmptyString)) schema) ps =
      Ok (map (λ '(key, values, time, diff), PeInsert None (map Ok values)) rows).
Proof.
  destruct (rows_roundtrip sep names types schema Hc rows Hrows (dsv_formatter_new (dsv_settings sep names)) eq_refl)
    as (ps & Hps & Hevents).
  eexists. split; [exact Hps|]. destruct rows as [|row rows]; [done|].
  cbn [dsv_formatter_new dsv_header_written app parse_payloads parse DsvParser_Parser].
  change (mk_DsvSettings None names (String sep EmptyString)) with (dsv_settings sep names).
  rewrite (header_parses sep names types schema Hc). cbn [mbind outcome_bind]. by rewrite Hevents.
Qed.
End dsv.

(** ** The contract of the parsers *)

(** An event that a session of type [st] accepts, with rows of [n] columns. *)
Definition event_fits (st : SessionType) (n : nat) (e : ParsedEventWithErrors) : Prop :=
  match e with
  | PeAdvanceTime => True
  | PeInsert _ values | PeDelete _ values => st = Native ∧ length values = n
  | PeUpsert _ values => st = UpsertType ∧ from_option (λ vs, length vs = n) True values
  end.
(** What the connector relies on: the events of a parser fit its session type and
    its column count, and neither changes. *)
Class ParserContract (RC Meta P : Type) `{Parser RC Meta P, ParserInfo P} := {
  parser_ok : P → Prop;
  parse_contract : ∀ p rc, parser_ok p → ∀ r p', parse p rc = (r, p') →
    parser_ok p' ∧ column_count p' = column_count p ∧ session_type p' = session_type p ∧
    ∀ events, r = Ok events → Forall (event_fits (session_type p) (column_count p)) events;
  source_contract : ∀ p m, parser_ok p →
    let p' := on_new_source_started p m in
    parser_ok p' ∧ column_count p' = column_count p ∧ session_type p' = session_type p
}.

Lemma try_collect_length {E A B} (f : A → outcome E B) l ys : try_collect f l = Ok ys → length ys = length l.
Proof. intros Hl%try_collect_ok. symmetry. by apply Forall2_length in Hl. Qed.
Lemma parsed_event_fits st de key values e : dyn_panic (parsed_event_new st de key values) = Ok e →
  event_fits st (length values) e.
Proof. destruct st, de; simpl; intros [= <-]; simpl; done. Qed.

Section contract.
Context `{Profile, XxHash, Python, SerdeJson, Chrono, Ndarray, RustText, SerdeJsonText}.

Definition dsv_ok (p : DsvParser) : Prop :=
  dsv_header_read p = true → length (value_column_indices p) = length (value_column_names (settings p)).
Lemma column_indices_length header names columns : column_indices_by_names header names = Ok columns →
  length columns = length names.
Proof. rewrite column_indices_spec. case_decide; intros [= <-]. by rewrite length_map. Qed.
Lemma dsv_header_contract p tokens r p' : dsv_ok p → parse_dsv_header p tokens = (r, p') →
  dsv_ok p' ∧ settings p' = settings p.
Proof.
  intros Hp. unfold parse_dsv_header.
  destruct (match key_column_names (settings p) with Some names => _ | None => _ end); try (by intros [= <- <-]).
  destruct (column_indices_by_names tokens (value_column_names (settings p))) as [cols| |] eqn:Hcols; intros [= <- <-]; try done.
  split; [|done]. intros _. simpl. by apply column_indices_length in Hcols.
Qed.
Lemma dsv_tokens_contract p event tokens r p' : dsv_ok p → parse_tokenized_entries p event tokens = (r, p') →
  dsv_ok p' ∧ settings p' = settings p ∧
  ∀ events, r = Ok events → Forall (event_fits Native (length (value_column_names (settings p)))) events.
Proof.
  intros Hp. unfold parse_tokenized_entries.
  destruct (match tokens with [line] => _ | _ => false end).
  { intros [= <- <-]. split_and!; [done..|]. intros events [= <-]. by repeat constructor. }
  destruct (dsv_header_read p) eqn:Hread; simpl.
  2: { destruct (parse_dsv_header p tokens) as [r0 p0] eqn:Hh. intros [= <- <-].
       destruct (dsv_header_contract _ _ _ _ Hp Hh) as [? ?]. split_and!; [done..|].
       intros events (a & _ & [= <-])%bind_ok. constructor. }
  destruct (_ && _); intros [= <- <-]; (split_and!; [done..|]); [|done].
  intros events (key & _ & (values & Hvalues & Hev)%bind_ok)%bind_ok. apply try_collect_length in Hvalues.
  rewrite (Hp Hread) in Hvalues. destruct event; simplify_eq; by repeat constructor.
Qed.
#[export] Program Instance DsvParser_contract : ParserContract ReaderContext JsonValue DsvParser := {| parser_ok := dsv_ok |}.
Next Obligation.
  intros p rc Hp r p' Hr. cbn [column_count session_type DsvParser_ParserInfo].
  assert (dsv_ok p' ∧ settings p' = settings p ∧
    ∀ events, r = Ok events → Forall (event_fits Native (length (value_column_names (settings p)))) events) as (? & Hs & ?);
    [|by rewrite Hs].
  assert (Hbytes : ∀ event bytes r p', parse_bytes_simple p event bytes = (r, p') → dsv_ok p' ∧ settings p' = settings p ∧
    ∀ events, r = Ok events → Forall (event_fits Native (length (value_column_names (settings p)))) events).
  { clear -Hp. intros event bytes r p'. unfold parse_bytes_simple.
    destruct (prepare_plaintext_string bytes) as [line| |]; try (intros [= <- <-]; done).
    destruct (line =? "")%string; [intros [= <- <-]; split_and!; [done..|]; intros ? [= <-]; constructor|].
    destruct (line =? COMMIT_LITERAL)%string; [intros [= <- <-]; split_and!; [done..|]; intros ? [= <-]; by repeat constructor|].
    by apply dsv_tokens_contract. }
  destruct rc as [event bytes|event tokens|key [value|]|]; simpl in Hr; try (injection Hr as <- <-; done).
  - by eapply Hbytes.
  - by eapply dsv_tokens_contract.
  - by eapply Hbytes.
Qed.
Next Obligation. by intros p m Hp. Qed.

Lemma identity_fields_length m fields : ∀ metadata value vs, identity_fields m fields metadata value = Ok vs →
  length vs = length fields.
Proof.
  induction fields as [|field fields IH]; intros metadata value vs; simpl; [by intros [= <-]|].
  destruct (field =? METADATA_FIELD_NAME)%string; [destruct metadata; [|done]|destruct value; [|done]];
    intros (ws & Hws%IH & [= <-])%bind_ok; simpl; by rewrite Hws.
Qed.
Lemma identity_event_fits p event key value events : identity_event p event key value = Ok events →
  Forall (event_fits (ip_session_type p) (length (ip_value_fields p))) events.
Proof.
  unfold identity_event. destruct (is_commit_literal value); [intros [= <-]; by repeat constructor|].
  intros (values & Hl%identity_fields_length & (e & He%parsed_event_fits & [= <-])%bind_ok)%bind_ok.
  rewrite Hl in He. by repeat constructor.
Qed.
#[export] Program Instance IdentityParser_contract : ParserContract ReaderContext JsonValue IdentityParser :=
  {| parser_ok _ := True |}.
Next Obligation.
  intros p rc _ r p' [= <- <-]. split_and!; [done..|]. intros events.
  destruct rc as [| |key [value|]|]; try done; apply identity_event_fits.
Qed.
Next Obligation. done. Qed.

Lemma debezium_event_fits p key value event e : parse_event p key value event = Ok e →
  match event with
  | DeUpsert => ∀ n, n = length (dbz_value_field_names p) → event_fits UpsertType n e
  | _ => event_fits Native (length (dbz_value_field_names p)) e
  end.
Proof.
  intros (pv & _ & (k & _ & (vs & Hvs%try_collect_length & [= <-])%bind_ok)%bind_ok)%bind_ok.
  destruct event; simpl; [done..|]. by intros n ->.
Qed.
Lemma debezium_operation_fits p key payload events : debezium_operation p key payload = Ok events →
  Forall (event_fits (debezium_session_type p) (length (dbz_value_field_names p))) events.
Proof.
  unfold debezium_operation. destruct (json_index payload "op"); try done.
  unfold debezium_session_type, parse_read_or_create, parse_update, parse_delete.
  destruct (_ || _)%string; [|destruct (_ =? "u")%string; [|destruct (_ =? "d")%string; [|done]]]; destruct (db_type p).
  - intros (e & He%debezium_event_fits & [= <-])%bind_ok. by repeat constructor.
  - intros (e & He%debezium_event_fits & [= <-])%bind_ok. repeat constructor. by apply He.
  - intros (e & He%debezium_event_fits & (e' & He'%debezium_event_fits & [= <-])%bind_ok)%bind_ok. by repeat constructor.
  - intros (e & He%debezium_event_fits & [= <-])%bind_ok. repeat constructor. by apply He.
  - intros (e & He%debezium_event_fits & [= <-])%bind_ok. by repeat constructor.
  - intros (e & (k & _ & [= <-])%bind_ok & [= <-])%bind_ok. by repeat constructor.
Qed.
#[export] Program Instance DebeziumMessageParser_contract : ParserContract ReaderContext JsonValue DebeziumMessageParser :=
  {| parser_ok _ := True |}.
Next Obligation.
  intros p rc _ r p' [= <- <-]. split_and!; [done..|]. intros events ([k v] & _ & Hr)%bind_ok.
  destruct (json_from_str v) as [[]|]; try done; [injection Hr as <-; constructor|].
  destruct (json_from_str k); [|done]. destruct (json_get_key _ _); [|done]. by apply debezium_operation_fits in Hr.
Qed.
Next Obligation. done. Qed.

Lemma json_lines_event_fits p event line events : json_lines_event p event line = Ok events →
  Forall (event_fits (jl_session_type p) (length (jl_value_field_names p))) events.
Proof.
  unfold json_lines_event. destruct (line =? "")%string; [intros [= <-]; constructor|].
  destruct (line =? COMMIT_LITERAL)%string; [intros [= <-]; by repeat constructor|].
  intros (payload & _ & (key & _ & (vs & Hvs%try_collect_length & (e & He%parsed_event_fits & [= <-])%bind_ok)%bind_ok)%bind_ok)%bind_ok.
  rewrite Hvs in He. by repeat constructor.
Qed.
#[export] Program Instance JsonLinesParser_contract : ParserContract ReaderContext JsonValue JsonLinesParser :=
  {| parser_ok _ := True |}.
Next Obligation.
  intros p rc _ r p' [= <- <-]. split_and!; [done..|]. intros events.
  destruct rc as [event bytes| |key [value|]|]; try done; intros (line & _ & Hl)%bind_ok; by apply json_lines_event_fits in Hl.
Qed.
Next Obligation. done. Qed.

#[export] Program Instance TransparentParser_contract : ParserContract ReaderContext JsonValue TransparentParser :=
  {| parser_ok _ := True |}.
Next Obligation.
  intros p rc _ r p' [= <- <-]. split_and!; [done..|]. intros events. destruct rc as [| | |event key values]; try done.
  destruct (is_special values COMMIT_LITERAL); [intros [= <-]; by repeat constructor|].
  intros (k & _ & (vs & Hvs%try_collect_length & (e & He%parsed_event_fits & [= <-])%bind_ok)%bind_ok)%bind_ok.
  rewrite Hvs in He. by repeat constructor.
Qed.
Next Obligation. done. Qed.
End contract.

Section client.
Context {RC Meta P : Type} `{ParserContract RC Meta P}.

(** A session of a source: new files, and contexts read from them. *)
Fixpoint run_parser (p : P) (inputs : list (option Meta + RC)) : list (DynResult (list ParsedEventWithErrors)) :=
  match inputs with
  | [] => []
  | inl m :: inputs => run_parser (on_new_source_started p m) inputs
  | inr rc :: inputs => let (r, p) := parse p rc in r :: run_parser p inputs
  end.
Lemma run_parser_fits inputs : ∀ p, parser_ok p →
  Forall (λ r, ∀ events, r = Ok events → Forall (event_fits (session_type p) (column_count p)) events) (run_parser p inputs).
Proof.
  induction inputs as [|[m|rc] inputs IH]; intros p Hp; simpl; [constructor|..].
  - destruct (source_contract p m Hp) as (Hp' & <- & <-). by apply IH.
  - destruct (parse p rc) as [r p'] eqn:Hr. destruct (parse_contract p rc Hp r p' Hr) as (Hp' & Hn & Hs & Hfit).
    constructor; [done|]. rewrite <- Hn, <- Hs. by apply IH.
Qed.

(** What the connector hands to the session, and to its snapshot. *)
Definition parsed_fits (st : SessionType) (n : nat) (e : ParsedEvent) : Prop :=
  match e with
  | PAdvanceTime => True
  | PInsert _ values | PDelete _ values => st = Native ∧ length values = n
  | PUpsert _ values => st = UpsertType ∧ from_option (λ vs, length vs = n) True values
  end.
Lemma remove_errors_fits st n (logic : ErrorRemovalLogic) e e' log :
  (∀ vs vs', fst (logic vs) = Ok vs' → length vs' = length vs) →
  event_fits st n e → remove_errors logic e = (Ok e', log) → parsed_fits st n e'.
Proof.
  intros Hlogic. destruct e as [|key vs|key [vs|]|key vs]; simpl; [by intros _ [= <- _]|..]; intros [-> Hn];
    (destruct (transpose_key key); [|done..]).
  3: by intros [= <- _].
  all: destruct (logic vs) as [r l] eqn:Hl; intros [= (vs' & -> & [= <-])%bind_ok _]; split; [done|]; simpl;
    rewrite <- Hn; apply (Hlogic vs vs'); by rewrite Hl.
Qed.

(** Whatever files are opened and contexts read, every event that the parser returns and
    that survives the removal of errors is of a kind that the session of its session
    type supports, with as many columns as the parser announces. *)
Definition emits_accepted (p : P) : Prop :=
  ∀ (inputs : list (option Meta + RC)) events event event' log, Ok events ∈ run_parser p inputs → event ∈ events →
    remove_errors skip_all_errors_logic event = (Ok event', log) ∨ remove_errors log_errors_logic event = (Ok event', log) →
    parsed_fits (session_type p) (column_count p) event'.
Lemma contract_emits_accepted p : parser_ok p → emits_accepted p.
Proof.
  intros Hp inputs events event event' log Hin Hev Hlogic. pose proof (run_parser_fits inputs p Hp) as Hrun.
  rewrite Forall_forall in Hrun. specialize (Hrun _ Hin _ eq_refl). rewrite Forall_forall in Hrun. specialize (Hrun _ Hev).
  destruct Hlogic as [Hl|Hl]; (eapply remove_errors_fits; [|exact Hrun|exact Hl]); intros vs vs' Hvs; by apply try_collect_length in Hvs.
Qed.
End client.

(** C33: All five parsers only emit what the connector and its session can take: the DSV
    parser as it is made from any settings, and the identity, Debezium, JSON lines and
    transparent parsers in any state. Whatever files are opened and contexts read, every
    event that such a parser returns and that survives the removal of errors is one that
    the session of the parser's session type supports, and its row has as many columns
    as the parser announces; so the connector never meets an unsupported change or a row
    of the wrong length. *)
Theorem parsed_events_are_accepted `{Profile, XxHash, Python, SerdeJson, Chrono, Ndarray, RustText, SerdeJsonText} :
  (∀ settings schema, emits_accepted (RC := ReaderContext) (Meta := JsonValue) (dsv_parser_new settings schema)) ∧
  (∀ p : IdentityParser, emits_accepted (RC := ReaderContext) (Meta := JsonValue) p) ∧
  (∀ p : DebeziumMessageParser, emits_accepted (RC := ReaderContext) (Meta := JsonValue) p) ∧
  (∀ p : JsonLinesParser, emits_accepted (RC := ReaderContext) (Meta := JsonValue) p) ∧
  (∀ p : TransparentParser, emits_accepted (RC := ReaderContext) (Meta := JsonValue) p).
Proof.
  split; [intros settings schema|split_and!; intros p]; (eapply contract_emits_accepted; try exact I).
  by intros [=].
Qed.

(** ** Examples *)

(** serde_json for the examples: numbers, and a table of texts. *)
Module ConcreteJsonText.
Definition json_texts : list (string * JsonValue) :=
  [("{key}"%string, JObject [("payload"%string, JObject [("id"%string, JNumber (JPosInt 7))])]);
   ("{update}"%string, JObject [("payload"%string, JObject
      [("op"%string, JString "u"); ("before"%string, JObject [("x"%string, JNumber (JPosInt 1))]);
       ("after"%string, JObject [("x"%string, JNumber (JPosInt 2))])])])].
#[export] Instance serde_json_text : SerdeJsonText := {|
  json_from_str s := snd <$> List.find (λ kv, (fst kv =? s)%string) json_texts;
  json_pointer j _ := Some j;
  json_entries_to_string _ := "{}"%string;
  num_from_i64 n := if n <? 0 then JNegInt n else JPosInt n;
  num_from_u64 n := JPosInt n;
  num_from_f64 f := if f64_is_finite f then Some (JFloat f) else None;
  num_as_u64 n := match n with JPosInt n => Some n | _ => None end;
  num_as_i64 n := match n with JPosInt n | JNegInt n => if in_i64 n then Some n else None | JFloat _ => None end;
  num_as_f64 n := match n with JPosInt n | JNegInt n => Some (f64_of_int n) | JFloat f => Some f end
|}.
#[export] Instance serde_json_text_laws : SerdeJsonTextLaws.
Proof.
  split; simpl.
  - intros n _. destruct (Z.ltb_spec n 0), (Z.leb_spec 0 n); done || lia.
  - intros n Hn. destruct (n <? 0); by rewrite Hn.
  - intros f Hf. rewrite Hf. by eexists.
  - intros f n. destruct (f64_is_finite f); by intros [= <-].
Qed.
#[export] Instance dev : Profile := true.
End ConcreteJsonText.
Import Concrete ConcreteJsonText.

Lemma json_value_roundtrip_witness :
  let v := VTuple [VInt (-3); VTuple [VNone; VString "x"]; VFloat f64_zero; VBool true] in
  json_faithful v = true ∧ ∃ j, serialize_value_to_json v = Ok j ∧ parse_value_from_json j = Ok (Some v).
Proof. split; [done|]. by apply (json_value_roundtrip (VTuple [VInt (-3); VTuple [VNone; VString "x"]; VFloat f64_zero; VBool true])). Defined.

Definition ex_schema : Schema :=
  {["a"%string := inner_schema_field_new TInt false None; "b"%string := inner_schema_field_new TBool false None]}.
Definition ex_rows : list (Key * list Value * Timestamp * Z) :=
  [(mk_Key 1, [VInt (-5); VBool true], mk_Timestamp 4, 1); (mk_Key 2, [VInt 10; VBool false], mk_Timestamp 6, -1)].
Lemma dsv_roundtrip_witness :
  dsv_columns "," ["a"; "b"]%string [TInt; TBool] ex_schema ∧
  ∃ ps, format_rows (dsv_formatter_new (mk_DsvSettings None ["a"; "b"]%string ",")) ex_rows = Ok ps ∧
    parse_payloads (dsv_parser_new (mk_DsvSettings None ["a"; "b"]%string ",") ex_schema) ps =
      Ok [PeInsert None [Ok (VInt (-5)); Ok (VBool true)]; PeInsert None [Ok (VInt 10); Ok (VBool false)]].
Proof.
  assert (Hc : dsv_columns "," ["a"; "b"]%string [TInt; TBool] ex_schema).
  { split; [done|apply (bool_decide_unpack (NoDup _)); vm_compute; done
      |apply (bool_decide_unpack (_ ∉ _)); vm_compute; done|by repeat constructor|done|by repeat constructor]. }
  split; [done|]. exact (dsv_roundtrip "," _ _ _ ex_rows Hc ltac:(repeat constructor)).
Defined.
Example debezium_update_events :
  let p := mk_DebeziumMessageParser None ["x"%string] standard_separator Postgres in
  let inputs : list (option JsonValue + ReaderContext) := [inr (KeyValue (Some (string_bytes "{key}")) (Some (string_bytes "{update}")))] in
  run_parser p inputs = [Ok [PeDelete None [Ok (VInt 1)]; PeInsert None [Ok (VInt 2)]]].
Proof. by vm_compute. Qed.

(** With a tab as the separator, trimming the line drops its empty first cell. *)
Lemma tab_drops_empty_cell :
  let p := dsv_parser_new (mk_DsvSettings None ["a"; "b"]%string (String "009" EmptyString)) ∅ in
  let tab := String "009" EmptyString in
  parse_payloads p [string_bytes ("a" +:+ tab +:+ "b"); string_bytes (tab +:+ "5")] =
    Err (OtherParser (UnexpectedNumberOfCsvTokens 1)).
Proof. by vm_compute. Qed.
(** When every column is in the key nothing is to be updated, and the statement
    has a comma too many. *)
Lemma psql_all_keys_statement :
  (f ← psql_snapshot_new "t" ["a"%string] ["a"%string];
   map_err (λ _, RepeatedValueField "") (psql_snapshot_format f (mk_Key 1) [VInt 1] (mk_Timestamp 2) 1)) =
  Ok (new_single_payload (string_bytes (concat_strings
    ["INSERT INTO t (a,time,diff) VALUES ($1,2,1) ON CONFLICT (a) DO UPDATE SET ,time=2,diff=1 WHERE t.a=$1 AND ";
     "(t.time<2 OR (t.time=2 AND t.diff=-1))"; newline]%string)) (mk_Key 1) [VInt 1] (mk_Timestamp 2) 1).
Proof. by vm_compute. Qed.
