(* ===== verification/Output.v ===== *)
(** The output of the dataflow (src/engine/dataflow/operators/output.rs, the mapping
    operators of operators.rs that keep deletions consistent, and the output
    connector of dataflow.rs): consolidated batches in the order of times, the cache
    of non-deterministic results, the thread that formats and writes the batches and
    reports the committed times to the persistence tracker. *)
From Stdlib Require Import ZArith Lia Bool.
From stdpp Require Import base list strings gmap.
From S2P Require Import Prelude Order Data Value Timestamp TimeColumn Persistence DataFormat Connector.
Open Scope Z_scope.

(** ** Consolidated batches *)

Record OutputBatch (T D : Type) := mk_OutputBatch { ob_time : T; ob_data : list (D * Z) }.
Arguments mk_OutputBatch {T D} ob_time ob_data.
Arguments ob_time {T D} o.
Arguments ob_data {T D} o.

(** [itertools::partition]: reorders a slice such that the elements that satisfy the
    predicate come first, both parts in any order. *)
Class Itertools := partition : ∀ {A : Type}, (A → bool) → list A → list A.
Class ItertoolsLaws `{Itertools} : Prop := {
  partition_perm A (p : A → bool) l : partition p l ≡ₚ l;
  partition_split A (p : A → bool) l : ∃ l1 l2, partition p l = l1 ++ l2 ∧
    Forall (λ x, p x = true) l1 ∧ Forall (λ x, p x = false) l2
}.

Section output.
Context {K V T D : Type} `{Itertools, Ord T}.

(** The batches given for the arranged batches of one invocation. *)
Definition consolidate_for_output_map (logic : K → V → D) (data : list (list (K * V * T * Z)))
    : list (OutputBatch T D) :=
  map (λ g, mk_OutputBatch (fst g) (partition (λ d, snd d <? 0) (snd g)))
    (batch_by_time data (λ key val _ diff, (logic key val, diff))).
End output.

(** ** Mapping with consistent deletions *)

Section consistent_deletions.
Context {K V V2 T L : Type} `{Countable K}.
(** The logic need not be deterministic: it may read and change a state [L]. *)
Context (logic : L → K * V → V2 * L).
Abbreviation Cache := (gmap K V2).

Definition map_consistent_row (st : L * Cache) (d : (K * V) * Z) : outcome unit (L * Cache * ((K * V2) * Z)) :=
  let '(l, cache) := st in let '((key, value), diff) := d in
  if diff <? 0 then
    match cache !! key with
    | None => Panic "result for negative diff should be stored"
    | Some result => Ok (l, delete key cache, ((key, result), diff))
    end
  else
    let '(result_value, l) := logic l (key, value) in
    Ok (l, <[key := result_value]> cache, ((key, result_value), diff)).
Fixpoint map_consistent_rows (st : L * Cache) (data : list ((K * V) * Z))
    : outcome unit (L * Cache * list ((K * V2) * Z)) :=
  match data with
  | [] => Ok (st, [])
  | d :: data =>
      ' (st, o) ← map_consistent_row st d;
      ' (st, os) ← map_consistent_rows st data;
      Ok (st, o :: os)
  end.
(** [map_named_with_consistent_deletions] on the output batches that arrive, the
    updates at the time of each. *)
Fixpoint map_named_with_consistent_deletions (st : L * Cache) (batches : list (OutputBatch T (K * V)))
    : outcome unit (L * Cache * list ((K * V2) * T * Z)) :=
  match batches with
  | [] => Ok (st, [])
  | batch :: batches =>
      ' (st, os) ← map_consistent_rows st (ob_data batch);
      ' (st, rest) ← map_named_with_consistent_deletions st batches;
      Ok (st, map (λ o, (fst o, ob_time batch, snd o)) os ++ rest)
  end.

(** The asynchronous version: all deletions of a batch take their results out of the
    cache when the futures are made; the results are stored when they are awaited,
    in the order of the batch. *)
Fixpoint async_make (cache : Cache) (data : list ((K * V) * Z)) : outcome unit (Cache * list ((K * V) * Z * option V2)) :=
  match data with
  | [] => Ok (cache, [])
  | ((key, value), diff) :: data =>
      ' (cache, maybe_result) ←
        (if diff <? 0 then
           match cache !! key with
           | None => Panic "result for negative diff should be stored"
           | Some result => Ok (delete key cache, Some result)
           end
         else Ok (cache, None));
      ' (cache, futures) ← async_make cache data;
      Ok (cache, ((key, value), diff, maybe_result) :: futures)
  end.
Fixpoint async_await (st : L * Cache) (futures : list ((K * V) * Z * option V2)) : outcome unit (L * Cache * list (V2 * Z)) :=
  match futures with
  | [] => Ok (st, [])
  | ((key, value), diff, maybe_result) :: futures =>
      let '(l, cache) := st in
      let '(result, l) := match maybe_result with Some result => (result, l) | None => logic l (key, value) end in
      cache ← (if 0 <? diff then
                 match cache !! key with
                 | Some _ => Panic "assertion failed: current.is_none()"
                 | None => Ok (<[key := result]> cache)
                 end
               else Ok cache);
      ' (st, rest) ← async_await (l, cache) futures;
      Ok (st, (result, diff) :: rest)
  end.
Fixpoint map_named_async_with_consistent_deletions (st : L * Cache) (batches : list (OutputBatch T (K * V)))
    : outcome unit (L * Cache * list (V2 * T * Z)) :=
  match batches with
  | [] => Ok (st, [])
  | batch :: batches =>
      ' (cache, futures) ← async_make (snd st) (ob_data batch);
      ' (st, os) ← async_await (fst st, cache) futures;
      ' (st, rest) ← map_named_async_with_consistent_deletions st batches;
      Ok (st, map (λ o, (fst o, ob_time batch, snd o)) os ++ rest)
  end.
End consistent_deletions.

(** ** The output connector *)

(** [trait Writer]; the errors of a writer are its own. *)
Class Writer (W E : Type) := {
  write : W → FormatterContext → outcome E unit * W;
  flush_writer : W → bool → outcome E unit * W;
  retriable : W → bool
}.
(** [DynError] of the output thread. *)
Inductive OutputError (E : Type) :=
| FormatFailed (e : FormatterError)
| WriteFailed (e : E).
Arguments FormatFailed {E} e.
Arguments WriteFailed {E} e.
Definition OUTPUT_RETRIES : nat := 5.
Definition ARTIFICIAL_TIME_ON_REWIND_START : Timestamp := mk_Timestamp 0.

(** [filter_out_errors]: rows without an [Error] cell. *)
Definition filter_out_errors (rows : list ((Key * list Value) * Z)) : list ((Key * list Value) * Z) :=
  List.filter (λ d : (Key * list Value) * Z, negb (row_contains_error (snd (fst d)))) rows.

(** A commit comes with what the clock and the flushes of the snapshots give to the
    tracker then. *)
Inductive OutputEvent :=
| OutputCommit (t : option Timestamp) (interval_elapsed : bool) (flushes : PersistentId → FlushResult)
| OutputBatch_ (batch : OutputBatch Timestamp (Key * list Value)).

Section connector.
Context {W E F B : Type} `{Writer W E, Formatter F, MetadataSerde, MetadataBackend B}.

Record OutputThread := mk_OutputThread {
  data_sink : W;
  data_formatter : F;
  worker_persistent_storage : option (WorkerPersistentStorage B)
}.
Abbreviation Sink := (W * F)%type.

(** The attempts of one entry, with those that are left: it is formatted again for
    every attempt. *)
Fixpoint write_attempts (remaining : nat) (key : Key) (values : list Value) (time : Timestamp) (diff : Z) (s : Sink)
    : outcome (OutputError E) unit * Sink :=
  match remaining with
  | O => (Ok tt, s)
  | S remaining =>
      let '(formatted, f) := format (snd s) key values time diff in
      match formatted with
      | Err e => (Err (FormatFailed e), (fst s, f))
      | Panic p => (Panic p, (fst s, f))
      | Ok formatted =>
          let '(write_result, w) := write (fst s) formatted in
          match write_result with
          | Ok _ => (Ok tt, (w, f))
          | Err e => if Nat.eqb remaining 0 then (Err (WriteFailed e), (w, f)) else write_attempts remaining key values time diff (w, f)
          | Panic p => (Panic p, (w, f))
          end
      end
  end.
Fixpoint write_entries (skip : bool) (time : Timestamp) (data : list ((Key * list Value) * Z)) (s : Sink)
    : outcome (OutputError E) unit * Sink :=
  match data with
  | [] => (Ok tt, s)
  | ((key, values), diff) :: data =>
      if skip then write_entries skip time data s
      else
        let retries := if retriable (fst s) then OUTPUT_RETRIES else 1%nat in
        let '(r, s) := write_attempts retries key values time diff s in
        match r with Ok _ => write_entries skip time data s | _ => (r, s) end
  end.
Definition output_batch (batch : OutputBatch Timestamp (Key * list Value)) (persistence : bool) (s : Sink)
    : outcome (OutputError E) unit * Sink :=
  let skip := (ts_0 (ob_time batch) =? ts_0 ARTIFICIAL_TIME_ON_REWIND_START)%N && persistence in
  let '(r, s) := write_entries skip (ob_time batch) (ob_data batch) s in
  match r with
  | Ok _ => let '(r, w) := flush_writer (fst s) false in (map_err WriteFailed r, (w, snd s))
  | _ => (r, s)
  end.

Definition commit_output_time (t : option Timestamp) (sink_id : option nat) (interval_elapsed : bool)
    (flushes : PersistentId → FlushResult) (storage : option (WorkerPersistentStorage B))
    : outcome (OutputError E) (option (WorkerPersistentStorage B)) :=
  match storage with
  | Some storage =>
      sink_id ← match sink_id with
                | Some sink_id => Ok sink_id
                | None => Panic "undefined sink_id while using persistent storage"
                end;
      match update_sink_finalized_time storage sink_id t interval_elapsed flushes with
      | Ok storage => Ok (Some storage)
      | Err _ => Panic "unreachable"
      | Panic p => Panic p
      end
  | None => Ok None
  end.

(** The loop of the output thread over the events of its channel, until the last
    commit or the end of the channel. *)
Fixpoint output_thread (sink_id : option nat) (events : list OutputEvent) (st : OutputThread)
    : outcome (OutputError E) unit * OutputThread :=
  match events with
  | [] => (Ok tt, st)
  | OutputBatch_ batch :: events =>
      let persistence := match worker_persistent_storage st with Some _ => true | None => false end in
      let '(r, (w, f)) := output_batch batch persistence (data_sink st, data_formatter st) in
      let st := mk_OutputThread w f (worker_persistent_storage st) in
      match r with Ok _ => output_thread sink_id events st | _ => (r, st) end
  | OutputCommit t interval_elapsed flushes :: events =>
      match commit_output_time t sink_id interval_elapsed flushes (worker_persistent_storage st) with
      | Ok storage =>
          let st := mk_OutputThread (data_sink st) (data_formatter st) storage in
          match t with
          | None =>
              let '(r, w) := flush_writer (data_sink st) true in
              (map_err WriteFailed r, mk_OutputThread w (data_formatter st) storage)
          | Some _ => output_thread sink_id events st
          end
      | Err e => (Err e, st)
      | Panic p => (Panic p, st)
      end
  end.
End connector.
Arguments OutputThread : clear implicits.
