(* ===== verification/OutputProps.v ===== *)
(** Properties of the output: results of a non-deterministic function are retracted
    exactly as they were emitted, and what is written, flushed and committed. *)
From Stdlib Require Import ZArith Lia Bool.
From stdpp Require Import base list sets strings gmap.
From S2P Require Import Prelude Order Text Data Instances Value Timestamp Weights TimeColumn Persistence PersistenceProps.
From S2P Require Import DataFormat DataFormatProps Connector Output.
Open Scope Z_scope.

(** ** Consolidated changes of a table *)

Section change.
Context {K V : Type} `{Countable K, EqDecision V}.
Implicit Types (m : gmap K V) (data : list ((K * V) * Z)).

Definition is_row (m : gmap K V) (kv : K * V) : Z := if decide (m !! fst kv = Some (snd kv)) then 1 else 0.
Definition record_weight data (kv : K * V) : Z := wsum (λ x, if decide (x = kv) then 1 else 0) data.
(** [data] is the consolidated difference of two tables with one row per key. *)
Record table_change m data m' : Prop := {
  change_nodup : NoDup (map fst data);
  change_nonzero : Forall (λ d, snd d ≠ 0) data;
  change_weight : ∀ kv, record_weight data kv = is_row m' kv - is_row m kv
}.
Lemma record_weight_absent data kv : kv ∉ map fst data → record_weight data kv = 0.
Proof.
  intros Hin. apply wsum_zero. intros [x w] Hx. left. simpl. rewrite decide_False; [done|]. intros ->.
  apply Hin, list_elem_of_fmap. by exists (kv, w).
Qed.
Lemma record_weight_present data kv w : NoDup (map fst data) → (kv, w) ∈ data → record_weight data kv = w.
Proof.
  unfold record_weight. induction data as [|[x w'] data IH]; simpl; [by intros _ ?%elem_of_nil|].
  intros [Hx Hnd]%NoDup_cons [[= -> ->]|Hin]%elem_of_cons.
  - rewrite decide_True by done. fold (record_weight data x). rewrite record_weight_absent by done. lia.
  - rewrite IH by done. rewrite decide_False; [lia|]. intros ->. apply Hx, list_elem_of_fmap. by exists (kv, w).
Qed.
Lemma table_change_perm m data data' m' : data ≡ₚ data' → table_change m data m' → table_change m data' m'.
Proof.
  intros Hp [Hn Hz Hw]. split; [by rewrite <- Hp|by rewrite <- Hp|]. intros kv. rewrite <- Hw.
  symmetry. by apply wsum_perm.
Qed.
Lemma change_entry m data m' k v w : table_change m data m' → (k, v, w) ∈ data →
  (w = -1 ∧ m !! k = Some v ∧ m' !! k ≠ Some v) ∨ (w = 1 ∧ m' !! k = Some v ∧ m !! k ≠ Some v).
Proof.
  intros [Hn Hz Hw] Hin. specialize (Hw (k, v)). rewrite (record_weight_present _ _ _ Hn Hin) in Hw.
  rewrite Forall_forall in Hz. specialize (Hz _ Hin). unfold is_row in Hw. simpl in *.
  destruct (decide (m' !! k = Some v)), (decide (m !! k = Some v)); [lia|by right|by left|lia].
Qed.
Lemma change_in m data m' k v : table_change m data m' → (m !! k = Some v ↔ m' !! k = Some v) ∨ (k, v) ∈ map fst data.
Proof.
  intros [_ _ Hw]. destruct (decide ((k, v) ∈ map fst data)) as [|Hin]; [by right|left].
  specialize (Hw (k, v)). rewrite record_weight_absent in Hw by done. unfold is_row in Hw. simpl in Hw.
  destruct (decide (m' !! k = Some v)), (decide (m !! k = Some v)); (done || lia).
Qed.

(** With the deletions first, it deletes rows of distinct present keys, then adds
    rows of distinct keys that are absent by then. *)
Definition row_keys data : list K := map (λ d, fst (fst d)) data.
Lemma unique_keys (rel : gmap K V) l : (∀ k v w, (k, v, w) ∈ l → rel !! k = Some v) → NoDup (map fst l) → NoDup (row_keys l).
Proof.
  induction l as [|[[k v] w] l IH]; intros Hl; simpl; [constructor|]. intros [Hk Hnd]%NoDup_cons. constructor.
  - intros ([[k' v'] w'] & E & Hin)%list_elem_of_fmap. simpl in E. subst k'. apply Hk, list_elem_of_fmap.
    exists (k, v', w'). split; [|done]. simpl. f_equal.
    assert (rel !! k = Some v) as Hv by (eapply Hl; by constructor).
    assert (rel !! k = Some v') as Hv' by (eapply Hl; by constructor). congruence.
  - apply IH; [|done]. intros ? ? ? ?. eapply Hl. by constructor.
Qed.
Lemma change_split m l1 l2 m' : table_change m (l1 ++ l2) m' →
  Forall (λ d, snd d < 0) l1 → Forall (λ d, 0 ≤ snd d) l2 →
  (Forall (λ d, snd d = -1) l1 ∧ NoDup (row_keys l1) ∧ list_to_set (row_keys l1) ⊆ dom m) ∧
  (Forall (λ d, snd d = 1) l2 ∧ NoDup (row_keys l2) ∧ list_to_set (row_keys l2) ## dom m ∖ list_to_set (row_keys l1)) ∧
  dom m' = dom m ∖ list_to_set (row_keys l1) ∪ list_to_set (row_keys l2).
Proof.
  intros Hc Hl1 Hl2. rewrite Forall_forall in Hl1, Hl2.
  assert (E1 : ∀ k v w, (k, v, w) ∈ l1 → w = -1 ∧ m !! k = Some v ∧ m' !! k ≠ Some v).
  { intros k v w Hin. specialize (Hl1 _ Hin). simpl in Hl1. destruct (change_entry _ _ _ k v w Hc); [set_solver|done|lia]. }
  assert (E2 : ∀ k v w, (k, v, w) ∈ l2 → w = 1 ∧ m' !! k = Some v ∧ m !! k ≠ Some v).
  { intros k v w Hin. specialize (Hl2 _ Hin). simpl in Hl2. destruct (change_entry _ _ _ k v w Hc); [set_solver|lia|done]. }
  pose proof (change_nodup _ _ _ Hc) as Hnd. rewrite map_app in Hnd. apply NoDup_app in Hnd as (Hn1 & _ & Hn2).
  assert (K1 : ∀ k, k ∈ row_keys l1 ↔ ∃ v w, (k, v, w) ∈ l1).
  { intros k. unfold row_keys. rewrite list_elem_of_fmap. split; [intros ([[? v] w] & -> & ?); by eexists _, _|].
    intros (v & w & ?). by exists (k, v, w). }
  assert (K2 : ∀ k, k ∈ row_keys l2 ↔ ∃ v w, (k, v, w) ∈ l2).
  { intros k. unfold row_keys. rewrite list_elem_of_fmap. split; [intros ([[? v] w] & -> & ?); by eexists _, _|].
    intros (v & w & ?). by exists (k, v, w). }
  (* a present key that the deletions leave alone keeps its row *)
  assert (Hkeep : ∀ k v, m !! k = Some v → k ∉ row_keys l1 → m' !! k = Some v).
  { intros k v Hm Hk. destruct (change_in m (l1 ++ l2) m' k v Hc) as [E|Hin]; [by apply E|].
    rewrite map_app in Hin. apply elem_of_app in Hin as [([kv w] & E & Hin)%list_elem_of_fmap|([kv w] & E & Hin)%list_elem_of_fmap];
      simpl in E; subst kv.
    - destruct Hk. apply K1. by eexists _, _.
    - by destruct (E2 k v w Hin) as (_ & _ & ?). }
  split; [|split].
  - split_and!.
    + apply Forall_forall. intros [[k v] w] Hin. by destruct (E1 k v w Hin).
    + eapply (unique_keys m); [|done]. intros k v w Hin. by destruct (E1 k v w Hin) as (_ & ? & _).
    + intros k Hk. apply elem_of_list_to_set, K1 in Hk as (v & w & Hin). apply elem_of_dom.
      destruct (E1 k v w Hin) as (_ & -> & _). by eexists.
  - split_and!.
    + apply Forall_forall. intros [[k v] w] Hin. by destruct (E2 k v w Hin).
    + eapply (unique_keys m'); [|done]. intros k v w Hin. by destruct (E2 k v w Hin) as (_ & ? & _).
    + intros k Hk [Hd Hn]%elem_of_difference. apply elem_of_list_to_set, K2 in Hk as (v & w & Hin).
      apply elem_of_dom in Hd as [v0 Hv0]. rewrite elem_of_list_to_set in Hn. destruct (E2 k v w Hin) as (_ & Hv & Hne).
      specialize (Hkeep k v0 Hv0 Hn). congruence.
  - apply set_eq. intros k. rewrite elem_of_union, elem_of_difference, !elem_of_list_to_set, !elem_of_dom.
    split.
    + intros [v Hv]. destruct (change_in m (l1 ++ l2) m' k v Hc) as [E|Hin].
      * apply E in Hv as Hm. left. split; [by eexists|]. intros (v1 & w1 & Hin)%K1.
        destruct (E1 k v1 w1 Hin) as (_ & Hm1 & Hm2). congruence.
      * rewrite map_app in Hin. apply elem_of_app in Hin as [([kv w] & E & Hin)%list_elem_of_fmap|([kv w] & E & Hin)%list_elem_of_fmap];
          simpl in E; subst kv; [by destruct (E1 k v w Hin) as (_ & _ & ?)|right; apply K2; by eexists _, _].
    + intros [[[v Hv] Hn]|(v & w & Hin)%K2]; [exists v; by apply Hkeep|].
      destruct (E2 k v w Hin) as (_ & Hv & _). by eexists.
Qed.
End change.

(** ** Mapping with consistent deletions *)

Section consistent_deletions.
Context {K V V2 T L : Type} `{Countable K, EqDecision V}.
Context (logic : L → K * V → V2 * L).
Implicit Types (cache : gmap K V2) (m : gmap K V) (l : L) (data : list ((K * V) * Z)).

(** The rows that a cache stands for. *)
Definition cached cache : list ((K * V2) * Z) := map (λ kv, (kv, 1)) (map_to_list cache).
Lemma cached_delete cache k r : cache !! k = Some r →
  weq eq (cached cache ++ [(k, r, -1)]) (cached (delete k cache)).
Proof.
  intros Hk f _. unfold cached. rewrite <- (map_to_list_delete cache k r Hk). rewrite wsum_app. simpl. lia.
Qed.
Lemma cached_insert cache k r : cache !! k = None → weq eq (cached cache ++ [(k, r, 1)]) (cached (<[k := r]> cache)).
Proof.
  intros Hk f _. unfold cached. rewrite (map_to_list_insert cache k r Hk). rewrite wsum_app. simpl. lia.
Qed.

Lemma map_rows_deletions l cache data : Forall (λ d, snd d = -1) data → NoDup (row_keys data) →
  list_to_set (row_keys data) ⊆ dom cache →
  ∃ cache' out, map_consistent_rows logic (l, cache) data = Ok ((l, cache'), out) ∧
    dom cache' = dom cache ∖ list_to_set (row_keys data) ∧ weq eq (cached cache ++ out) (cached cache').
Proof.
  revert cache. induction data as [|[[k v] w] data IH]; intros cache; simpl.
  { intros _ _ _. eexists _, _. split; [done|]. split; [set_solver|by rewrite app_nil_r]. }
  intros [Hw Hd]%Forall_cons [Hk Hnd]%NoDup_cons Hsub. simpl in *. subst w. change (-1 <? 0) with true. cbv iota.
  assert (is_Some (cache !! k)) as [r Hr] by (apply elem_of_dom; set_solver). rewrite Hr. cbn [mbind outcome_bind].
  destruct (IH (delete k cache) Hd Hnd) as (cache' & out & E & Hdom & Hw).
  { rewrite dom_delete_L. intros x Hx. rewrite elem_of_list_to_set in Hx. set_solver. }
  rewrite E. cbn [mbind outcome_bind]. eexists _, _. split; [done|]. split; [rewrite Hdom, dom_delete_L; set_solver|].
  change ((k, r, -1) :: out) with ([(k, r, -1)] ++ out). rewrite app_assoc, cached_delete by done. exact Hw.
Qed.
Lemma map_rows_insertions l cache data : Forall (λ d, snd d = 1) data → NoDup (row_keys data) →
  list_to_set (row_keys data) ## dom cache →
  ∃ l' cache' out, map_consistent_rows logic (l, cache) data = Ok ((l', cache'), out) ∧
    dom cache' = dom cache ∪ list_to_set (row_keys data) ∧ weq eq (cached cache ++ out) (cached cache').
Proof.
  revert l cache. induction data as [|[[k v] w] data IH]; intros l cache; simpl.
  { intros _ _ _. eexists _, _, _. split; [done|]. split; [set_solver|by rewrite app_nil_r]. }
  intros [Hw Hd]%Forall_cons [Hk Hnd]%NoDup_cons Hsub. simpl in *. subst w. change (1 <? 0) with false. cbv iota.
  assert (cache !! k = None) as Hr by (apply not_elem_of_dom; set_solver).
  destruct (logic l (k, v)) as [r l1]. cbn [mbind outcome_bind].
  destruct (IH l1 (<[k := r]> cache) Hd Hnd) as (l' & cache' & out & E & Hdom & Hw).
  { rewrite dom_insert_L. intros x Hx. rewrite elem_of_list_to_set in Hx. set_solver. }
  rewrite E. cbn [mbind outcome_bind]. eexists _, _, _. split; [done|]. split; [rewrite Hdom, dom_insert_L; set_solver|].
  change ((k, r, 1) :: out) with ([(k, r, 1)] ++ out). rewrite app_assoc, cached_insert by done. exact Hw.
Qed.
Lemma map_rows_app st data1 data2 : map_consistent_rows logic st (data1 ++ data2) =
  ' (st, os) ← map_consistent_rows logic st data1;
  ' (st, rest) ← map_consistent_rows logic st data2; Ok (st, os ++ rest).
Proof.
  revert st. induction data1 as [|d data1 IH]; intros st; simpl.
  - by destruct (map_consistent_rows logic st data2) as [[[? ?] ?]| |].
  - destruct (map_consistent_row logic st d) as [[[? ?] ?]| |]; cbn [mbind outcome_bind]; [|done..]. rewrite IH.
    destruct (map_consistent_rows logic _ data1) as [[[? ?] ?]| |]; cbn [mbind outcome_bind]; [|done..].
    by destruct (map_consistent_rows logic _ data2) as [[[? ?] ?]| |].
Qed.
(** A batch takes the cache from the keys of one table to those of the next. *)
Lemma map_batch_ok `{ItertoolsLaws} l cache m m' data : table_change m data m' → dom cache = dom m →
  ∃ l' cache' out, map_consistent_rows logic (l, cache) (partition (λ d, snd d <? 0) data) = Ok ((l', cache'), out) ∧
    dom cache' = dom m' ∧ weq eq (cached cache ++ out) (cached cache').
Proof.
  intros Hc Hdom. destruct (partition_split _ (λ d : (K * V) * Z, snd d <? 0) data) as (l1 & l2 & E & Hl1 & Hl2).
  apply (table_change_perm _ _ (l1 ++ l2)) in Hc; [|by rewrite <- E, partition_perm]. rewrite E.
  destruct (change_split m l1 l2 m' Hc) as ((W1 & N1 & D1) & (W2 & N2 & D2) & Dm').
  { eapply Forall_impl; [exact Hl1|]. simpl. intros ? ?. lia. }
  { eapply Forall_impl; [exact Hl2|]. simpl. intros ? ?. lia. }
  rewrite <- Hdom in *. rewrite map_rows_app.
  destruct (map_rows_deletions l cache l1 W1 N1 D1) as (cache1 & out1 & -> & Hd1 & Hw1). cbn [mbind outcome_bind].
  rewrite <- Hd1 in D2. destruct (map_rows_insertions l cache1 l2 W2 N2 D2) as (l' & cache2 & out2 & -> & Hd2 & Hw2).
  cbn [mbind outcome_bind]. eexists _, _, _. split; [done|]. split; [by rewrite Hd2, Hd1, Dm'|].
  by rewrite app_assoc, Hw1.
Qed.

(** The invocations of the operator: the updates of each time take the table from
    one content to the next. *)
Inductive table_stream `{Ord T} : gmap K V → list (T * list ((K * V) * Z)) → gmap K V → Prop :=
| stream_nil m : table_stream m [] m
| stream_cons m time data m1 rest m2 : table_change m data m1 → table_stream m1 rest m2 →
    table_stream m ((time, data) :: rest) m2.
Definition strip_time {A} (out : list (A * T * Z)) : list (A * Z) := map (λ o, (fst (fst o), snd o)) out.
Lemma strip_time_app {A} (out1 out2 : list (A * T * Z)) : strip_time (out1 ++ out2) = strip_time out1 ++ strip_time out2.
Proof. apply map_app. Qed.
Lemma strip_time_map {A} time (os : list (A * Z)) : strip_time (map (λ o, (fst o, time, snd o)) os) = os.
Proof. unfold strip_time. rewrite map_map. etrans; [|apply map_id]. apply map_ext. by intros []. Qed.
Lemma map_stream_ok `{ItertoolsLaws, Ord T} groups m m' : table_stream m groups m' → ∀ l cache, dom cache = dom m →
  ∃ l' cache' out, map_named_with_consistent_deletions logic (l, cache)
      (map (λ g, mk_OutputBatch (fst g) (partition (λ d, snd d <? 0) (snd g))) groups) = Ok ((l', cache'), out) ∧
    dom cache' = dom m' ∧ weq eq (cached cache ++ strip_time out) (cached cache').
Proof.
  induction 1 as [m|m time data m1 rest m2 Hc _ IH]; intros l cache Hdom; simpl.
  { eexists _, _, _. split; [done|]. split; [done|]. by rewrite app_nil_r. }
  destruct (map_batch_ok l cache m m1 data Hc Hdom) as (l1 & cache1 & out1 & -> & Hd1 & Hw1). cbn [mbind outcome_bind].
  destruct (IH l1 cache1 Hd1) as (l2 & cache2 & out2 & E & Hd2 & Hw2). rewrite E. cbn [mbind outcome_bind].
  eexists _, _, _. split; [done|]. split; [done|]. rewrite strip_time_app, strip_time_map, app_assoc, Hw1. done.
Qed.

(** The asynchronous version does the same to the cache; its results stand for the
    rows. *)
Lemma async_make_deletions cache data : Forall (λ d, snd d = -1) data → NoDup (row_keys data) →
  list_to_set (row_keys data) ⊆ dom cache →
  ∃ cache' futures, async_make cache data = Ok (cache', futures) ∧ dom cache' = dom cache ∖ list_to_set (row_keys data) ∧
    Forall (λ ft, snd (fst ft) = -1 ∧ is_Some (snd ft)) futures ∧
    ∀ f : V2 → Z, wsum (λ kv, f (snd kv)) (cached cache) =
      wsum (λ kv, f (snd kv)) (cached cache') + foldr (λ ft s, from_option f 0 (snd ft) + s) 0 futures.
Proof.
  revert cache. induction data as [|[[k v] w] data IH]; intros cache; simpl.
  { intros _ _ _. eexists _, _. split; [done|]. split_and!; [set_solver|done|]. intros f. simpl. lia. }
  intros [Hw Hd]%Forall_cons [Hk Hnd]%NoDup_cons Hsub. simpl in *. subst w. change (-1 <? 0) with true. cbv iota.
  assert (is_Some (cache !! k)) as [r Hr] by (apply elem_of_dom; set_solver). rewrite Hr. cbn [mbind outcome_bind].
  destruct (IH (delete k cache) Hd Hnd) as (cache' & futures & E & Hdom & Hf & Hw).
  { rewrite dom_delete_L. intros x Hx. rewrite elem_of_list_to_set in Hx. set_solver. }
  rewrite E. cbn [mbind outcome_bind]. eexists _, _. split; [done|]. split_and!.
  - rewrite Hdom, dom_delete_L. set_solver.
  - by constructor.
  - intros f. simpl. pose proof (cached_delete cache k r Hr (λ kv, f (snd kv)) _) as E1. rewrite wsum_app in E1.
    simpl in E1. specialize (Hw f). lia.
Qed.
Lemma async_make_insertions cache data : Forall (λ d, snd d = 1) data →
  async_make cache data = Ok (cache, map (λ d, (d, None)) data).
Proof.
  induction data as [|[[k v] w] data IH]; simpl; [done|]. intros [Hw Hd]%Forall_cons. simpl in Hw. subst w.
  change (1 <? 0) with false. cbn [mbind outcome_bind]. by rewrite IH.
Qed.
Lemma async_make_app cache data1 data2 : async_make cache (data1 ++ data2) =
  ' (cache, fs) ← async_make (V2 := V2) cache data1;
  ' (cache, rest) ← async_make cache data2; Ok (cache, fs ++ rest).
Proof.
  revert cache. induction data1 as [|[[k v] w] data1 IH]; intros cache; simpl.
  - by destruct (async_make cache data2) as [[? ?]| |].
  - destruct (if w <? 0 then _ else _) as [[? ?]| |]; cbn [mbind outcome_bind]; [|done..]. rewrite IH.
    destruct (async_make _ data1) as [[? ?]| |]; cbn [mbind outcome_bind]; [|done..].
    by destruct (async_make _ data2) as [[? ?]| |].
Qed.
Lemma async_await_app st fs1 fs2 : async_await logic st (fs1 ++ fs2) =
  ' (st, os) ← async_await logic st fs1;
  ' (st, rest) ← async_await logic st fs2; Ok (st, os ++ rest).
Proof.
  revert st. induction fs1 as [|[[[k v] w] r] fs1 IH]; intros [l cache]; simpl.
  - by destruct (async_await logic _ fs2) as [[[? ?] ?]| |].
  - destruct (match r with Some _ => _ | None => _ end) as [? ?]. destruct (if 0 <? w then _ else _); cbn [mbind outcome_bind]; [|done..].
    rewrite IH. destruct (async_await logic _ fs1) as [[[? ?] ?]| |]; cbn [mbind outcome_bind]; [|done..].
    by destruct (async_await logic _ fs2) as [[[? ?] ?]| |].
Qed.
Lemma async_await_deletions l cache futures : Forall (λ ft, snd (fst ft) = -1 ∧ is_Some (snd ft)) futures →
  ∃ out, async_await logic (l, cache) futures = Ok ((l, cache), out) ∧
    ∀ f : V2 → Z, wsum f out = - foldr (λ ft s, from_option f 0 (snd ft) + s) 0 futures.
Proof.
  induction futures as [|[[[k v] w] r] futures IH]; simpl; [intros _; by eexists|].
  intros [[Hw [r' Hr]] Hf]%Forall_cons. simpl in *. subst w r. change (0 <? -1) with false. cbv iota.
  cbn [mbind outcome_bind]. destruct (IH Hf) as (out & E & Hw). rewrite E. cbn [mbind outcome_bind].
  eexists. split; [done|]. intros f. simpl. rewrite Hw. lia.
Qed.
Lemma async_await_insertions l cache data : Forall (λ d, snd d = 1) data → NoDup (row_keys data) →
  list_to_set (row_keys data) ## dom cache →
  ∃ l' cache' out, async_await logic (l, cache) (map (λ d, (d, None)) data) = Ok ((l', cache'), out) ∧
    dom cache' = dom cache ∪ list_to_set (row_keys data) ∧
    ∀ f : V2 → Z, wsum (λ kv, f (snd kv)) (cached cache) + wsum f out = wsum (λ kv, f (snd kv)) (cached cache').
Proof.
  revert l cache. induction data as [|[[k v] w] data IH]; intros l cache; simpl.
  { intros _ _ _. eexists _, _, _. split; [done|]. split; [set_solver|]. intros f. simpl. lia. }
  intros [Hw Hd]%Forall_cons [Hk Hnd]%NoDup_cons Hsub. simpl in *. subst w. destruct (logic l (k, v)) as [r l1].
  change (0 <? 1) with true. cbv iota. assert (cache !! k = None) as Hr by (apply not_elem_of_dom; set_solver).
  rewrite Hr. cbn [mbind outcome_bind]. destruct (IH l1 (<[k := r]> cache) Hd Hnd) as (l' & cache' & out & E & Hdom & Hw).
  { rewrite dom_insert_L. intros x Hx. rewrite elem_of_list_to_set in Hx. set_solver. }
  rewrite E. cbn [mbind outcome_bind]. eexists _, _, _. split; [done|]. split; [rewrite Hdom, dom_insert_L; set_solver|].
  intros f. simpl. pose proof (cached_insert cache k r Hr (λ kv, f (snd kv)) _) as E1. rewrite wsum_app in E1.
  simpl in E1. specialize (Hw f). lia.
Qed.
Lemma async_stream_ok `{ItertoolsLaws, Ord T} groups m m' : table_stream m groups m' → ∀ l cache, dom cache = dom m →
  ∃ l' cache' out, map_named_async_with_consistent_deletions logic (l, cache)
      (map (λ g, mk_OutputBatch (fst g) (partition (λ d, snd d <? 0) (snd g))) groups) = Ok ((l', cache'), out) ∧
    dom cache' = dom m' ∧
    ∀ f : V2 → Z, wsum (λ kv, f (snd kv)) (cached cache) + wsum f (strip_time out) = wsum (λ kv, f (snd kv)) (cached cache').
Proof.
  induction 1 as [m|m time data m1 rest m2 Hc _ IH]; intros l cache Hdom; simpl.
  { eexists _, _, _. split; [done|]. split; [done|]. intros f. simpl. lia. }
  destruct (partition_split _ (λ d : (K * V) * Z, snd d <? 0) data) as (l1 & l2 & E & Hl1 & Hl2).
  apply (table_change_perm _ _ (l1 ++ l2)) in Hc; [|by rewrite <- E, partition_perm]. rewrite E.
  destruct (change_split m l1 l2 m1 Hc) as ((W1 & N1 & D1) & (W2 & N2 & D2) & Dm').
  { eapply Forall_impl; [exact Hl1|]. simpl. intros ? ?. lia. }
  { eapply Forall_impl; [exact Hl2|]. simpl. intros ? ?. lia. }
  rewrite <- Hdom in *. rewrite async_make_app.
  destruct (async_make_deletions cache l1 W1 N1 D1) as (cache1 & fs1 & E1 & Hd1 & Hf1 & Hw1). rewrite E1. cbn [mbind outcome_bind].
  rewrite async_make_insertions by done. cbn [mbind outcome_bind]. rewrite async_await_app.
  destruct (async_await_deletions l cache1 fs1 Hf1) as (out1 & E2 & Ho1). rewrite E2. cbn [mbind outcome_bind].
  rewrite <- Hd1 in D2. destruct (async_await_insertions l cache1 l2 W2 N2 D2) as (l' & cache2 & out2 & E3 & Hd2 & Hw2).
  rewrite E3. cbn [mbind outcome_bind]. destruct (IH l' cache2) as (l3 & cache3 & out3 & E4 & Hd3 & Hw3).
  { by rewrite Hd2, Hd1, Dm'. }
  rewrite E4. cbn [mbind outcome_bind]. eexists _, _, _. split; [done|]. split; [done|]. intros f.
  rewrite strip_time_app, strip_time_map, !wsum_app. specialize (Hw1 f). specialize (Ho1 f). specialize (Hw2 f). specialize (Hw3 f). lia.
Qed.
End consistent_deletions.

(** C29: deletions retract what was emitted, although the function need not be
    deterministic.  Whatever the arranged batches of the invocations, as long as the
    updates of each time take a table with one row per key to another one, neither
    version of the operator panics; the accumulated output of the synchronous one is
    a table with exactly the keys of the input and the results of the last call for
    each, and the accumulated results of the asynchronous one are those that its
    cache holds for these keys. *)
Theorem consistent_deletions_cancel {K V V2 T L : Type} `{Countable K, EqDecision V, ItertoolsLaws, Ord T}
    (logic : L → K * V → V2 * L) (l : L) (data : list (list (K * V * T * Z))) (m : gmap K V)
    (Hm : table_stream ∅ (batch_by_time data (λ key val _ diff, ((key, val), diff))) m) :
  let batches := consolidate_for_output_map (λ key val, (key, val)) data in
  (∃ l' cache out, map_named_with_consistent_deletions logic (l, ∅) batches = Ok ((l', cache), out) ∧
    dom cache = dom m ∧ weq eq (strip_time out) (cached cache)) ∧
  (∃ l' cache out, map_named_async_with_consistent_deletions logic (l, ∅) batches = Ok ((l', cache), out) ∧
    dom cache = dom m ∧ weq eq (strip_time out) (map (λ kv, (snd (fst kv), snd kv)) (cached cache))).
Proof.
  intros batches. split.
  - destruct (map_stream_ok logic _ _ _ Hm l ∅) as (l' & cache & out & E & Hd & Hw); [by rewrite !dom_empty_L|].
    exists l', cache, out. split; [exact E|]. split; [done|]. unfold cached in Hw at 1. by rewrite map_to_list_empty in Hw.
  - destruct (async_stream_ok logic _ _ _ Hm l ∅) as (l' & cache & out & E & Hd & Hw); [by rewrite !dom_empty_L|].
    exists l', cache, out. split; [exact E|]. split; [done|]. intros f _. specialize (Hw f). unfold cached in Hw at 1.
    rewrite map_to_list_empty in Hw. simpl in Hw. rewrite wsum_fmap. lia.
Qed.

(** A function whose results are numbered; two times, one that changes a row. *)
#[export] Instance filter_partition : Itertools := λ A p l, List.filter p l ++ List.filter (λ x, negb (p x)) l.
#[export] Instance filter_partition_laws : ItertoolsLaws.
Proof.
  split; intros A p l.
  - unfold partition, filter_partition. induction l as [|x l IH]; simpl; [done|]. destruct (p x); simpl; [by rewrite IH|].
    rewrite <- Permutation_middle. by rewrite IH.
  - eexists _, _. split; [done|]. split; apply List.Forall_forall; intros x [_ Hx]%filter_In; [done|]. by apply negb_true_iff.
Qed.
Definition ex_logic (l : Z) (kv : Z * Z) : Z * Z := (l, l + 1).
Definition ex_batches : list (list (Z * Z * Z * Z)) :=
  [[(7, 70, 0, 1); (8, 80, 0, 1)]; [(7, 70, 2, -1); (7, 71, 2, 1); (8, 80, 2, -1)]].
Lemma consistent_deletions_cancel_witness :
  table_stream ∅ (batch_by_time ex_batches (λ key val _ diff, ((key, val), diff))) (<[7 := 71]> (∅ : gmap Z Z)) ∧
  (∃ l' cache out, map_named_with_consistent_deletions ex_logic (0, ∅)
      (consolidate_for_output_map (λ key val, (key, val)) ex_batches) = Ok ((l', cache), out) ∧
    dom cache = dom (<[7 := 71]> (∅ : gmap Z Z)) ∧ weq eq (strip_time out) (cached cache)).
Proof.
  assert (Hs : table_stream ∅ (batch_by_time ex_batches (λ key val _ diff, ((key, val), diff))) (<[7 := 71]> (∅ : gmap Z Z))).
  { change (batch_by_time ex_batches _) with
      [(0, [((7, 70), 1); ((8, 80), 1)]); (2, [((7, 70), -1); ((7, 71), 1); ((8, 80), -1)])].
    apply (stream_cons _ _ _ (<[7 := 70]> (<[8 := 80]> ∅))); [|apply (stream_cons _ _ _ (<[7 := 71]> ∅)); [|constructor]];
      (split; [by apply (bool_decide_unpack _)|by repeat constructor|]).
    - intros [k v]. unfold record_weight, is_row. simpl.
      destruct (decide (k = 7)) as [->|]; [|destruct (decide (k = 8)) as [->|]];
        repeat case_decide; simplify_map_eq; lia.
    - intros [k v]. unfold record_weight, is_row. simpl.
      destruct (decide (k = 7)) as [->|]; [|destruct (decide (k = 8)) as [->|]];
        repeat case_decide; simplify_map_eq; lia. }
  split; [exact Hs|]. exact (proj1 (consistent_deletions_cancel ex_logic 0 ex_batches (<[7 := 71]> ∅) Hs)).
Defined.

(** ** The output thread *)

(** What the writers of external storages promise.  What is written is a list of items
    of the storage ([items]: those of an entry): a successful write adds those of its
    entry, a failed one that may be tried again adds nothing, and a successful flush
    makes everything written durable; nothing durable is lost. *)
Class WriterLaws (W E : Type) `{Writer W E} := {
  item : Type;
  items : FormatterContext → list item;
  written : W → list item;
  durable : W → list item;
  write_ok w c w' u : write w c = (Ok u, w') → written w' = written w ++ items c ∧ durable w `prefix_of` durable w';
  write_err w c w' e : retriable w = true → write w c = (Err e, w') → written w' = written w ∧ durable w `prefix_of` durable w';
  flush_ok w b w' u : flush_writer w b = (Ok u, w') → written w' = written w ∧ durable w' = written w;
  retriable_stable w c r w' : write w c = (r, w') → retriable w' = retriable w
}.

Section output_thread.
Context {W E F B : Type} `{WriterLaws W E, Formatter F, MetadataSerde, MetadataBackend B}.
Abbreviation Entry := ((Key * list Value) * Z)%type.
Implicit Types (s : W * F) (st : OutputThread W F B) (data : list Entry).

(** [c] is what formatting an entry gave. *)
Definition formatted_as (time : Timestamp) (d : Entry) (c : FormatterContext) : Prop :=
  ∃ f f', format f (fst (fst d)) (snd (fst d)) time (snd d) = (Ok c, f').
(** The items of entries. *)
Definition all_items (cs : list FormatterContext) : list item := concat (map items cs).
Lemma write_attempts_ok n key values time diff s s' : n = 0%nat ∨ retriable (fst s) = true →
  write_attempts (S n) key values time diff s = (Ok tt, s') →
  ∃ c, formatted_as time ((key, values), diff) c ∧ written (fst s') = written (fst s) ++ items c.
Proof.
  revert s. induction n as [|n IH]; intros [w f] Hretry; cbn [write_attempts fst snd];
    destruct (format f key values time diff) as [[c|?|?] f'] eqn:Ef; try done;
    destruct (write w c) as [[[]|e|?] w'] eqn:Ew; cbn [Nat.eqb]; try done.
  1, 2: intros [= <-]; exists c; (split; [by eexists _, _|]); by eapply write_ok.
  intros Hr. change (write_attempts (S n) key values time diff (w', f') = (Ok tt, s')) in Hr.
  destruct Hretry as [?|Hretry]; [done|]. cbn [fst] in Hretry.
  destruct (IH (w', f')) as (c' & Hc' & ->); [right; by rewrite <- Hretry; eapply retriable_stable|done|].
  exists c'. split; [done|]. simpl. by rewrite (proj1 (write_err _ _ _ _ Hretry Ew)).
Qed.
Lemma write_entries_ok time data s s' : write_entries false time data s = (Ok tt, s') →
  ∃ cs, Forall2 (formatted_as time) data cs ∧ written (fst s') = written (fst s) ++ all_items cs.
Proof.
  revert s. induction data as [|[[key values] diff] data IH]; intros s; cbn [write_entries].
  { intros [= <-]. exists []. by rewrite app_nil_r. }
  destruct (write_attempts _ key values time diff s) as [[[]|?|?] s1] eqn:Ea; try done.
  assert (∃ n, (if retriable (fst s) then OUTPUT_RETRIES else 1%nat) = S n ∧ (n = 0%nat ∨ retriable (fst s) = true)) as (n & Hn & Hretry)
    by (destruct (retriable _); by eexists _; auto).
  rewrite Hn in Ea. destruct (write_attempts_ok _ _ _ _ _ _ _ Hretry Ea) as (c & Hc & Hw). intros Hr.
  destruct (IH _ Hr) as (cs & Hcs & ->). exists (c :: cs). split; [by constructor|]. by rewrite Hw, <- app_assoc.
Qed.
Lemma write_entries_skip time data s : write_entries true time data s = (Ok tt, s).
Proof. induction data as [|[[key values] diff] data IH]; [done|]. exact IH. Qed.
Definition skipped (time : Timestamp) (persistence : bool) : bool := (ts_0 time =? 0)%N && persistence.
Lemma output_batch_ok batch persistence s s' : output_batch batch persistence s = (Ok tt, s') →
  ∃ cs, (if skipped (ob_time batch) persistence then cs = [] else Forall2 (formatted_as (ob_time batch)) (ob_data batch) cs) ∧
    written (fst s') = written (fst s) ++ all_items cs ∧ durable (fst s') = written (fst s').
Proof.
  unfold output_batch. change (ts_0 ARTIFICIAL_TIME_ON_REWIND_START) with 0%N. fold (skipped (ob_time batch) persistence).
  destruct (write_entries _ _ _ s) as [[[]|?|?] [w f]] eqn:Ew; try done. simpl.
  destruct (flush_writer w false) as [[[]|?|?] w'] eqn:Ef; try done. intros [= <-]. simpl.
  destruct (flush_ok _ _ _ _ Ef) as [Ewr Ed]. rewrite Ed, Ewr. destruct (skipped _ _).
  - rewrite write_entries_skip in Ew. injection Ew as ->. exists []. split; [done|]. by rewrite app_nil_r.
  - destruct (write_entries_ok _ _ _ _ Ew) as (cs & Hcs & Hw). exists cs. done.
Qed.

(** *** What is reported is durable *)

Definition delivered (w : W) (batch : OutputBatch Timestamp (Key * list Value)) : Prop :=
  ∃ before cs after, durable w = before ++ all_items cs ++ after ∧ Forall2 (formatted_as (ob_time batch)) (ob_data batch) cs.
Definition batches_of (events : list OutputEvent) : list (OutputBatch Timestamp (Key * list Value)) :=
  omap (λ ev, match ev with OutputBatch_ batch => Some batch | OutputCommit _ _ _ => None end) events.
(** The dataflow sends no batch of a time that it has committed. *)
Definition time_finished (t : option Timestamp) (time : Timestamp) : Prop :=
  match t with Some t => (ts_0 time < ts_0 t)%N | None => True end.
Definition in_order (events : list OutputEvent) : Prop :=
  ∀ before t elapsed flushes after, events = before ++ OutputCommit t elapsed flushes :: after →
    ∀ batch, batch ∈ batches_of after → ¬ time_finished t (ob_time batch).
Definition threshold_passed (threshold : TotalFrontier Timestamp) (time : Timestamp) : Prop :=
  match threshold with At t => (ts_0 time < ts_0 t)%N | Done => True end.

Lemma update_sink_times (w w' : WorkerPersistentStorage B) sink t elapsed flushes :
  update_sink_finalized_time w sink t elapsed flushes = Ok w' →
  sink_threshold_times w' = <[sink := match t with Some t => At t | None => Done end]> (sink_threshold_times w) ∧
  (sink < length (sink_threshold_times w))%nat.
Proof.
  unfold update_sink_finalized_time. destruct (Nat.ltb_spec sink (length (sink_threshold_times w))) as [Hl|]; [|done].
  destruct (iter_min _); [|done]. destruct (_ && _); [destruct (prepare _)|]; intros [= <-]; done.
Qed.

Lemma delivered_mono w w' batch : durable w `prefix_of` durable w' → delivered w batch → delivered w' batch.
Proof.
  intros [l Hl] (before & cs & after & Hd & Hcs). exists before, cs, (after ++ l). split; [|done].
  by rewrite Hl, Hd, <- !app_assoc.
Qed.

(** The state of the thread: the sink is flushed, every batch that the reported time
    has passed is durable. *)
Record thread_inv (sink : nat) (sent : list OutputEvent) st : Prop := {
  inv_flushed : durable (data_sink st) = written (data_sink st);
  inv_reported : ∃ w threshold, worker_persistent_storage st = Some w ∧
    sink_threshold_times w !! sink = Some threshold ∧
    ∀ batch, batch ∈ batches_of sent → threshold_passed threshold (ob_time batch) → ob_time batch ≠ mk_Timestamp 0 →
      delivered (data_sink st) batch
}.
(** Every batch is durable once it is processed. *)
Definition processed_delivered (events : list OutputEvent) st : Prop :=
  ∀ batch, batch ∈ batches_of events → ob_time batch ≠ mk_Timestamp 0 → delivered (data_sink st) batch.
Lemma batches_of_app es1 es2 : batches_of (es1 ++ es2) = batches_of es1 ++ batches_of es2.
Proof. apply omap_app. Qed.

Lemma output_thread_ok sink events : ∀ before after st st', in_order (before ++ events ++ after) →
  thread_inv sink (before ++ events ++ after) st → processed_delivered before st →
  output_thread (Some sink) events st = (Ok tt, st') → thread_inv sink (before ++ events ++ after) st'.
Proof.
  induction events as [|[t elapsed flushes|batch] events IH]; intros before after st st' Hord Hinv Hproc; cbn [output_thread].
  { by intros [= <-]. }
  - destruct Hinv as [Hf (w & threshold & Hs & Hth & Hrep)]. rewrite Hs. simpl.
    destruct (update_sink_finalized_time w sink t elapsed flushes) as [w'|?|?] eqn:Eu; try done.
    destruct (update_sink_times _ _ _ _ _ _ Eu) as [Ht Hlen].
    assert (Hinv' : thread_inv sink (before ++ OutputCommit t elapsed flushes :: events ++ after)
      (mk_OutputThread (data_sink st) (data_formatter st) (Some w'))).
    { split; [done|]. eexists w', _. split; [done|]. rewrite Ht, list_lookup_insert_eq by done. split; [done|].
      intros batch Hb Hpass Hne. simpl. rewrite batches_of_app in Hb. apply elem_of_app in Hb as [Hb|Hb]; [by apply Hproc|].
      exfalso. apply (Hord before t elapsed flushes (events ++ after) eq_refl batch Hb). by destruct t. }
    destruct t as [t|].
    + intros Hr. apply (IH (before ++ [OutputCommit (Some t) elapsed flushes]) after) in Hr;
        rewrite <- ?app_assoc in *; [done..|]. intros batch Hb Hne. apply Hproc; [|done].
      rewrite batches_of_app in Hb. simpl in Hb. by rewrite app_nil_r in Hb.
    + destruct (flush_writer (data_sink st) true) as [[[]|?|?] wr] eqn:Ef; try done. intros [= <-].
      destruct (flush_ok _ _ _ _ Ef) as [Ewr Ed]. destruct Hinv' as [_ (w1 & th1 & [= <-] & Hth1 & Hrep1)].
      split; [simpl; by rewrite Ed, Ewr|]. exists w', th1. split_and!; [done..|]. intros batch Hb Hpass Hne. simpl.
      eapply delivered_mono; [|by apply Hrep1]. simpl. by rewrite Ed, Hf.
  - destruct Hinv as [Hf (w & threshold & Hs & Hth & Hrep)]. rewrite Hs.
    destruct (output_batch batch true (data_sink st, data_formatter st)) as [[[]|?|?] [wr f]] eqn:Eb; try done.
    destruct (output_batch_ok _ _ _ _ Eb) as (cs & Hcs & Hw & Hd). simpl in Hw, Hd.
    assert (Hmono : durable (data_sink st) `prefix_of` durable wr) by (rewrite Hd, Hw, Hf; by apply prefix_app_r).
    intros Hr. apply (IH (before ++ [OutputBatch_ batch]) after) in Hr; rewrite <- ?app_assoc in *; [done..| |].
    + split; [done|]. exists w, threshold. split_and!; [done..|]. intros b Hb Hpass Hne. simpl.
      by eapply delivered_mono, Hrep.
    + intros b Hb Hne. simpl. rewrite batches_of_app in Hb. apply elem_of_app in Hb as [Hb|Hb].
      { by eapply delivered_mono, Hproc. }
      apply list_elem_of_singleton in Hb as ->. unfold skipped in Hcs.
      destruct (N.eqb_spec (ts_0 (ob_time batch)) 0) as [E0|]; simpl in Hcs; [destruct Hne; destruct (ob_time batch); simpl in *; by subst|].
      exists (written (data_sink st)), cs, []. split; [by rewrite app_nil_r, Hd, Hw|done].
Qed.

(** *** Retries *)

(** Whatever is written, the sink takes it within [n] attempts and is then ready
    again. *)
Fixpoint accepts (ready : W → Prop) (n : nat) (w : W) : Prop :=
  match n with
  | O => False
  | S n => ∀ c, ∃ r w', write w c = (r, w') ∧ ((r = Ok tt ∧ ready w') ∨ ((∃ e, r = Err e) ∧ accepts ready n w'))
  end.
Lemma write_attempts_accepts ready n key values time diff w f :
  (∀ f, ∃ c f', format f key values time diff = (Ok c, f')) → accepts ready n w →
  ∃ w' f', write_attempts n key values time diff (w, f) = (Ok tt, (w', f')) ∧ ready w'.
Proof.
  intros Hf. revert w f. induction n as [|n IH]; intros w f Ha; [done|]. cbn [write_attempts fst snd].
  destruct (Hf f) as (c & f1 & ->). destruct (Ha c) as (r & w1 & -> & [[-> Hr]|[[e ->] Ha1]]); [by eexists _, _|].
  destruct n as [|n]; [done|]. cbn [Nat.eqb]. by apply IH.
Qed.
Lemma write_entries_accepts ready skip time data w f :
  (∀ d, d ∈ data → ∀ f, ∃ c f', format f (fst (fst d)) (snd (fst d)) time (snd d) = (Ok c, f')) →
  (∀ w, ready w → accepts ready (if retriable w then OUTPUT_RETRIES else 1%nat) w) → ready w →
  ∃ w' f', write_entries skip time data (w, f) = (Ok tt, (w', f')) ∧ ready w'.
Proof.
  intros Hf Ha. revert w f. induction data as [|[[key values] diff] data IH]; intros w f Hr; [by eexists _, _|].
  cbn [write_entries]. assert (IH' := IH (λ d Hd, Hf d (list_elem_of_further _ _ _ Hd))).
  destruct skip; [by apply IH'|]. simpl fst.
  destruct (write_attempts_accepts ready _ key values time diff w f (Hf _ (list_elem_of_here _ _)) (Ha w Hr)) as (w1 & f1 & -> & Hr1).
  by apply IH'.
Qed.
End output_thread.

(** The thread's reported time, and what holds of the batches of times before it. *)
Definition reported {W F B : Type} `{MetadataBackend B} (sink : nat) (events : list OutputEvent) (st : OutputThread W F B)
    (durably : OutputBatch Timestamp (Key * list Value) → Prop) : Prop :=
  ∃ w threshold, worker_persistent_storage st = Some w ∧ sink_threshold_times w !! sink = Some threshold ∧
    ∀ batch, batch ∈ batches_of events → threshold_passed threshold (ob_time batch) → ob_time batch ≠ mk_Timestamp 0 → durably batch.
(** A thread that starts with a sink registered at time 0 runs, and ends without an error. *)
Definition thread_ran {W E F B : Type} `{Writer W E, Formatter F, MetadataSerde, MetadataBackend B} (sink : nat)
    (processed pending : list OutputEvent) (st st' : OutputThread W F B) : Prop :=
  (∃ w, worker_persistent_storage st = Some w ∧ sink_threshold_times w !! sink = Some (At (mk_Timestamp 0))) ∧
  in_order (processed ++ pending) ∧ output_thread (Some sink) processed st = (Ok tt, st').
(** For a writer that keeps its promises: every batch whose time the reported time has
    passed is durable. *)
Lemma thread_reports_delivered {W E F B : Type} `{WriterLaws W E, Formatter F, MetadataSerde, MetadataBackend B}
    (sink : nat) (processed pending : list OutputEvent) (st st' : OutputThread W F B) :
  durable (data_sink st) = written (data_sink st) → thread_ran sink processed pending st st' →
  reported sink (processed ++ pending) st' (delivered (data_sink st')).
Proof.
  intros Hflushed ((w & Hstorage & Hregistered) & Horder & Hrun).
  apply (output_thread_ok sink processed [] pending) in Hrun as [_ (w' & threshold & Hi)]; [by exists w', threshold|done| |].
  - split; [done|]. exists w, (At (mk_Timestamp 0)). split_and!; [done..|]. intros batch _ Hpass. simpl in Hpass. lia.
  - intros batch Hb. by apply elem_of_nil in Hb.
Qed.

(** A sink that recovers in time gets everything.  If every write of a ready
    sink succeeds within the retries and leaves it ready, a ready sink can be
    flushed, and the formatter accepts the entries, then a batch is written without
    an error: each entry exactly once, in order, and all of it is durable. *)
Theorem batch_is_delivered {W E F : Type} `{WriterLaws W E, Formatter F}
    (ready : W → Prop) (batch : OutputBatch Timestamp (Key * list Value)) (w : W) (f : F)
    (Hready : ready w) (Htime : ob_time batch ≠ mk_Timestamp 0)
    (Haccepts : ∀ w, ready w → accepts ready (if retriable w then OUTPUT_RETRIES else 1%nat) w)
    (Hflush : ∀ w, ready w → ∃ w', flush_writer w false = (Ok tt, w'))
    (Hformat : ∀ d, d ∈ ob_data batch → ∀ f, ∃ c f', format f (fst (fst d)) (snd (fst d)) (ob_time batch) (snd d) = (Ok c, f')) :
  ∃ w' f' cs, output_batch batch true (w, f) = (Ok tt, (w', f')) ∧ Forall2 (formatted_as (ob_time batch)) (ob_data batch) cs ∧
    written w' = written w ++ all_items cs ∧ durable w' = written w'.
Proof.
  assert (∃ w' f', output_batch batch true (w, f) = (Ok tt, (w', f'))) as (w' & f' & Hb).
  { unfold output_batch. set (skip := _ && _).
    destruct (write_entries_accepts ready skip (ob_time batch) (ob_data batch) w f Hformat Haccepts Hready) as (w1 & f1 & -> & Hr1).
    destruct (Hflush w1 Hr1) as [w2 Hw2]. simpl. rewrite Hw2. by eexists _, _. }
  destruct (output_batch_ok _ _ _ _ Hb) as (cs & Hcs & Hw & Hd). exists w', f', cs. split_and!; try done.
  unfold skipped in Hcs. destruct (N.eqb_spec (ts_0 (ob_time batch)) 0) as [E0|]; [|done].
  destruct Htime. destruct (ob_time batch). simpl in *. by subst.
Qed.

(** ** A sink that takes every third attempt *)

Section output_witnesses.
Import ConcreteMetadata.

Record FlakySink := mk_FlakySink { fs_written : list FormatterContext; fs_durable : list FormatterContext; fs_calls : nat }.
#[local] Instance FlakySink_Writer : Writer FlakySink unit := {|
  write w c :=
    if Nat.eqb (fs_calls w) 2 then (Ok tt, mk_FlakySink (fs_written w ++ [c]) (fs_durable w) 0)
    else (Err tt, mk_FlakySink (fs_written w) (fs_durable w) (S (fs_calls w)));
  flush_writer w _ := (Ok tt, mk_FlakySink (fs_written w) (fs_written w) (fs_calls w));
  retriable _ := true
|}.
#[local] Program Instance FlakySink_WriterLaws : WriterLaws FlakySink unit := {|
  item := FormatterContext; items c := [c]; written := fs_written; durable := fs_durable
|}.
Next Obligation. intros w c w' u. simpl. destruct (Nat.eqb _ 2); [|done]. by intros [= <- <-]. Qed.
Next Obligation. intros w c w' e _. simpl. destruct (Nat.eqb _ 2); [done|]. by intros [= <- <-]. Qed.
Next Obligation. intros w b w' u. simpl. by intros [= <- <-]. Qed.
Next Obligation. done. Qed.

Definition ex_sink : FlakySink := mk_FlakySink [] [] 0.
Definition ex_batch (time : N) : OutputBatch Timestamp (Key * list Value) :=
  mk_OutputBatch (mk_Timestamp time) [((mk_Key 1, [VInt 5]), -1); ((mk_Key 1, [VInt 6]), 1)].
Lemma batch_is_delivered_witness :
  ∃ w' f' cs, output_batch (ex_batch 10) true (ex_sink, mk_IdentityFormatter) = (Ok tt, (w', f')) ∧
    Forall2 (formatted_as (F := IdentityFormatter) (mk_Timestamp 10)) (ob_data (ex_batch 10)) cs ∧ fs_written w' = concat (map (λ c, [c]) cs).
Proof.
  destruct (batch_is_delivered (λ w, fs_calls w = 0%nat) (ex_batch 10) ex_sink mk_IdentityFormatter)
    as (w' & f' & cs & Hb & Hcs & Hw & _).
  - reflexivity.
  - discriminate.
  - intros w Hw. simpl. rewrite Hw. simpl. intros c1. eexists _, _. split; [reflexivity|]. right. split; [by eexists|].
    intros c2. eexists _, _. split; [reflexivity|]. right. split; [by eexists|].
    intros c3. eexists _, _. split; [reflexivity|]. by left.
  - intros w _. by eexists.
  - intros d _ f. by eexists _, _.
  - exists w', f', cs. done.
Defined.

(** The first attempt formats the header of a DSV output; the retry formats the entry
    again, without it, so the header is never written. *)
Import Concrete ConcreteJsonText.
Example retry_loses_header :
  match output_batch (mk_OutputBatch (mk_Timestamp 10) [((mk_Key 1, [VInt 5]), 1)]) true
      (ex_sink, dsv_formatter_new (mk_DsvSettings None ["a"%string] ",")) with
  | (Ok _, (w, _)) => map payloads (fs_written w) = [[string_bytes "5,10,1"]]
  | _ => False
  end.
Proof. vm_compute. reflexivity. Qed.
End output_witnesses.
