(* ===== verification/Table.v ===== *)
(** The table operators of the dataflow graph (src/engine/dataflow.rs, with the column
    paths of engine/graph.rs): filters, set operations, updates, indexing and joins.

    A table is a collection: the list of the updates of its rows, as they have
    accumulated at some time.  An operator is the function from the updates of its
    inputs to those of its output.  The collections' own operators are those of the
    vendored differential dataflow, by what they compute on accumulated updates;
    handles, properties, arrangements and names of operators are left out.  An error
    that is only logged leaves no trace here; with [terminate_on_error] logging
    panics. *)
From Stdlib Require Import ZArith Lia Bool Ascii.
From stdpp Require Import base list strings.
From S2P Require Import Prelude Order Float Text Data Externals Value Weights Expression Output.
Open Scope Z_scope.

(** ** Collections *)

Abbreviation Coll A := (list (A * Z)).

(** A closure of [map] or [flat_map] may panic. *)
Definition map_coll {A B} (logic : A → outcome unit B) (c : Coll A) : outcome unit (Coll B) :=
  try_collect (λ e, b ← logic (fst e); Ok (b, snd e)) c.
Definition flat_map_coll {A B} (logic : A → outcome unit (list B)) (c : Coll A) : outcome unit (Coll B) :=
  r ← try_collect (λ e, bs ← logic (fst e); Ok (map (λ b, (b, snd e)) bs)) c; Ok (concat r).

(** [consolidate]: sorts, merges the runs of equal records, drops the zeros. *)
Fixpoint merge_runs `{Ord A} (current : A * Z) (rest : Coll A) : Coll A :=
  match rest with
  | [] => if snd current =? 0 then [] else [current]
  | next :: rest =>
      if ord_eqb (fst current) (fst next) then merge_runs (fst current, snd current + snd next) rest
      else (if snd current =? 0 then [] else [current]) ++ merge_runs next rest
  end.
Definition consolidate `{Ord A} (c : Coll A) : Coll A :=
  match sort_by (λ x y, cmp (fst x) (fst y)) c with [] => [] | e :: es => merge_runs e es end.

(** [distinct]: every record with a weight, once. *)
Definition distinct `{Ord A} (c : Coll A) : Coll A := map (λ e, (fst e, 1)) (consolidate c).
(** [join_core]: the pairs of records with equal keys; their weights multiply. *)
Definition join_core {A B C} (left : Coll (Key * A)) (right : Coll (Key * B)) (result : Key → A → B → list C) : Coll C :=
  flat_map (λ l,
    flat_map (λ r,
      if decide (fst (fst l) = fst (fst r)) then
        map (λ c, (c, snd l * snd r)) (result (fst (fst l)) (snd (fst l)) (snd (fst r)))
      else []) right) left.
(** [reduce]: the logic gets the values of each key with their weights, sorted. *)
Fixpoint group_by_key {V} (c : Coll (Key * V)) : list (Key * list (V * Z)) :=
  match c with
  | [] => []
  | ((k, v), w) :: c =>
      match group_by_key c with
      | (k', vs) :: gs => if decide (k = k') then (k, (v, w) :: vs) :: gs else (k, [(v, w)]) :: (k', vs) :: gs
      | [] => [(k, [(v, w)])]
      end
  end.
Definition reduce {V O} `{Ord V} (logic : Key → list (V * Z) → outcome unit (list (O * Z))) (c : Coll (Key * V))
    : outcome unit (Coll (Key * O)) :=
  r ← try_collect (λ g, o ← logic (fst g) (snd g); Ok (map (λ e, ((fst g, fst e), snd e)) o)) (group_by_key (consolidate c));
  Ok (concat r).

(** ** Errors *)

Class ErrorMode := terminate_on_error : bool.
Definition log_error `{ErrorMode} (e : DataError) : outcome unit unit :=
  if terminate_on_error then Panic "error reported" else Ok tt.
(** [unwrap_with_reporter]. *)
Definition unwrap_with_reporter {E A} (m : outcome E A) : outcome unit A :=
  match m with Ok a => Ok a | Err _ => Panic "error reported" | Panic p => Panic p end.
Definition unwrap_or_log `{ErrorMode} {A} (m : DynResult A) (default : A) : outcome unit A :=
  match m with Ok a => Ok a | Err e => _ ← log_error e; Ok default | Panic p => Panic p end.

(** ** Column paths *)

Inductive ColumnPath :=
| PathKey
| ValuePath (path : list nat).
Inductive GraphError :=
| InvalidColumnPath (path : ColumnPath)
| ExtractFromValueNotSupportedForKey
| DifferentJoinConditionLengths
| BadJoinType
| BadIxKeyPolicy
| OtherError (e : DataError).

Section tables.
Context `{XxHash, Python, SerdeJson, Chrono, Ndarray, ErrorMode}.

Fixpoint extract_path (self : ColumnPath) (path : list nat) (value : Value) : outcome GraphError Value :=
  match path with
  | [] => Ok value
  | i :: path =>
      if Value_eqb value VNone || Value_eqb value VError then Ok value
      else
        t ← map_err OtherError (as_tuple value);
        value ← ok_or (t !! i) (InvalidColumnPath self);
        extract_path self path value
  end.
Definition extract (self : ColumnPath) (key : Key) (value : Value) : outcome GraphError Value :=
  match self with
  | PathKey => Ok (VPointer key)
  | ValuePath path => extract_path self path value
  end.
Fixpoint extract_path_from_value (self : ColumnPath) (path : list nat) (value : Value) : outcome GraphError Value :=
  match path with
  | [] => Ok value
  | i :: path =>
      t ← map_err OtherError (as_tuple value);
      value ← ok_or (t !! i) (InvalidColumnPath self);
      extract_path_from_value self path value
  end.
Definition extract_from_value (self : ColumnPath) (value : Value) : outcome GraphError Value :=
  match self with
  | PathKey => Err ExtractFromValueNotSupportedForKey
  | ValuePath path => extract_path_from_value self path value
  end.
Definition extract_all (paths : list ColumnPath) (key : Key) (values : Value) : outcome unit (list Value) :=
  unwrap_with_reporter (try_collect (λ path, extract path key values) paths).

Abbreviation Table := (Coll (Key * Value)).
Definition keys (t : Table) : Coll Key := map (λ e, (fst (fst e), snd e)) t.
Definition keys_arranged (t : Table) : Coll (Key * unit) := map (λ e, ((fst (fst e), tt), snd e)) t.

(** ** Rows *)

Definition extract_columns (t : Table) (column_paths : list ColumnPath) : outcome unit (Coll (Key * list Value)) :=
  map_coll (λ row, values ← extract_all column_paths (fst row) (snd row); Ok (fst row, values)) t.
Definition table_column (t : Table) (column_path : ColumnPath) : outcome unit Table :=
  map_coll (λ row, v ← unwrap_with_reporter (extract column_path (fst row) (snd row)); Ok (fst row, v)) t.
Definition flatten_table_storage (t : Table) (column_paths : list ColumnPath) : outcome unit Table :=
  map_coll (λ row,
    new_values ← try_collect (λ path,
      match extract path (fst row) (snd row) with Ok v => Ok v | Err _ => Ok VNone | Panic p => Panic p end) column_paths;
    Ok (fst row, VTuple new_values)) t.
Definition remove_errors_from_table (t : Table) (column_paths : list ColumnPath) : outcome unit Table :=
  c ← extract_columns t column_paths;
  Ok (map (λ e, ((fst (fst e), VTuple (snd (fst e))), snd e)) (filter_out_errors c)).

Definition filter_row (filtering_column_path : ColumnPath) (row : Key * Value) : outcome unit (list (Key * Value)) :=
  v ← unwrap_with_reporter (extract filtering_column_path (fst row) (snd row));
  v ← unwrap_or_log (map_err (λ _, ErrorInFilter) (into_result v)) (VBool false);
  b ← unwrap_with_reporter (as_bool v);
  Ok (if b : bool then [row] else []).
Definition filter_table (t : Table) (filtering_column_path : ColumnPath) : outcome unit Table :=
  flat_map_coll (filter_row filtering_column_path) t.
Definition remove_retractions_from_table (t : Table) : Table := List.filter (λ e, 0 <? snd e) t.

(** [replace_duplicates_with_error]: a key with anything but one row once. *)
Definition replace_duplicates_with_error (t : Table) (error_logic : Value → outcome unit Value) : outcome unit Table :=
  reduce (λ key input,
    match input with
    | [] => Panic "internal error: entered unreachable code"
    | [(value, w)] =>
        if w =? 1 then Ok [(value, 1)] else _ ← log_error (DuplicateKey key); res ← error_logic value; Ok [(res, 1)]
    | (value, _) :: _ => _ ← log_error (DuplicateKey key); res ← error_logic value; Ok [(res, 1)]
    end) t.
Definition reindex_row (reindexing_column_path : ColumnPath) (row : Key * Value) : outcome unit (list (Key * Value)) :=
  value ← unwrap_with_reporter (extract reindexing_column_path (fst row) (snd row));
  match value with
  | VError => _ ← log_error ErrorInReindex; Ok []
  | value => p ← unwrap_with_reporter (as_pointer value); Ok [(p, snd row)]
  end.
Definition reindex_table (ignore_asserts : bool) (t : Table) (reindexing_column_path : ColumnPath) : outcome unit Table :=
  new_values ← flat_map_coll (reindex_row reindexing_column_path) t;
  if ignore_asserts then Ok new_values else replace_duplicates_with_error new_values (λ _, Ok VError).
Definition concat_tables (ignore_asserts : bool) (tables : list Table) : outcome unit Table :=
  let result := concat tables in
  if ignore_asserts then Ok result else replace_duplicates_with_error result (λ _, Ok VError).

(** [s.chars()]: a character starts at every byte that is not a continuation. *)
Fixpoint chars_loop (s current : string) : list string :=
  match s with
  | EmptyString => [current]
  | String a s =>
      if (N.land (N_of_ascii a) 0xC0 =? 0x80)%N then chars_loop s (current +:+ String a EmptyString)
      else current :: chars_loop s (String a EmptyString)
  end.
Definition chars (s : string) : list string :=
  match s with EmptyString => [] | String a s => chars_loop s (String a EmptyString) end.
Definition flatten_ndarray {T} (of_scalar : T → Value) (of_array : ArrayD T → Value) (array : ArrayD T)
    : outcome unit (list Value) :=
  match shape array with
  | [_] => Ok (map of_scalar (elements array))
  | [] => Panic "ndarray: axis out of bounds"
  | n :: _ => Ok (map (λ i, of_array (index_axis0 _ array (Z.of_nat i))) (seq 0 (Z.to_nat n)))
  end.
Definition flatten_value (value : Value) : outcome unit (list Value) :=
  match value with
  | VIntArray a => flatten_ndarray VInt value_from_int_array (handle_data a)
  | VFloatArray a => flatten_ndarray VFloat value_from_float_array (handle_data a)
  | VTuple a => Ok a
  | VString s => Ok (map VString (chars s))
  | VJson j =>
      match handle_data j with
      | JArray a => Ok (map value_from_json a)
      | _ => unwrap_or_log (Err (ValueError "Pathway can't flatten this Json: {repr}")) []
      end
  | _ => unwrap_or_log (Err (ValueError "Pathway can't flatten this value {value:?}")) []
  end.
Definition flatten_row (flatten_column_path : ColumnPath) (row : Key * Value) : outcome unit (list (Key * Value)) :=
  value ← unwrap_with_reporter (extract flatten_column_path (fst row) (snd row));
  wrapped ← flatten_value value;
  try_collect (λ ie,
    k ← unwrap_with_reporter (for_values [VPointer (fst row); VInt (Z.of_nat (fst ie))]);
    Ok (with_shard_of k (fst row), VTuple [snd row; snd ie])) (zip (seq 0 (length wrapped)) wrapped).
Definition flatten_table (t : Table) (flatten_column_path : ColumnPath) : outcome unit Table :=
  flat_map_coll (flatten_row flatten_column_path) t.

(** ** Set operations *)

Definition intersect_tables (t : Table) (other_tables : list Table) : Table :=
  foldl (λ new_values other, join_core new_values (keys_arranged other) (λ k values _, [(k, values)])) t other_tables.
Definition subtract_table (left_table right_table : Table) : Table :=
  let intersection := join_core left_table (keys_arranged right_table) (λ k values _, [(k, values)]) in
  left_table ++ wneg intersection.
Definition assert_input_keys_match_output_keys (input_keys : Coll Key) (output_collection : Table) : outcome unit unit :=
  _ ← try_collect (λ e : Key * Z, log_error (if 0 <? snd e then KeyMissingInOutputTable (fst e) else KeyMissingInInputTable (fst e)))
        (consolidate (input_keys ++ wneg (keys output_collection)));
  Ok tt.
Definition first_of_tuple (v : Value) : outcome unit Value :=
  match v with
  | VTuple (v :: _) => Ok v
  | VTuple [] => Panic "index out of bounds"
  | _ => Panic "values should be a tuple"
  end.
Definition restrict_or_override_table_universe (ignore_asserts : bool) (original_table new_table : Table)
    (same_universes : bool) : outcome unit Table :=
  let result := join_core new_table original_table (λ key new_values orig_values, [(key, VTuple [new_values; orig_values])]) in
  covered ← map_coll (λ row, v ← first_of_tuple (snd row); Ok (fst row, v)) result;
  let leftover_values := new_table ++ wneg (distinct covered) in
  filled ← map_coll (λ row, _ ← log_error (KeyMissingInOutputTable (fst row)); Ok (fst row, VTuple [snd row; VError]))
             (consolidate leftover_values);
  let result := result ++ filled in
  _ ← (if negb ignore_asserts && same_universes then assert_input_keys_match_output_keys (keys original_table) result
       else Ok tt);
  Ok result.

(** ** Updates *)

Inductive MaybeUpdate (T : Type) := Original (v : T) | Update (v : T).
Arguments Original {T} v.
Arguments Update {T} v.
#[export] Instance MaybeUpdate_ord {T} `{Ord T} : Ord (MaybeUpdate T) := λ a b,
  match a, b with
  | Original a, Original b | Update a, Update b => cmp a b
  | Original _, Update _ => Lt
  | Update _, Original _ => Gt
  end.
Definition update_rows_arrange (t update : Table) : Coll (Key * MaybeUpdate Value) :=
  map (λ e, ((fst (fst e), Original (snd (fst e))), snd e)) t ++
  map (λ e, ((fst (fst e), Update (snd (fst e))), snd e)) update.
Definition update_rows_logic (_key : Key) (input : list (MaybeUpdate Value * Z)) : outcome unit (list (Value * Z)) :=
  match input with
  | [(Original original_values, 1)] => Ok [(original_values, 1)]
  | [(Update new_values, 1)] => Ok [(new_values, 1)]
  | [(Original _, 1); (Update new_values, 1)] => Ok [(new_values, 1)]
  | _ => Panic "unexpected counts in input"
  end.
Definition update_rows_table (t update : Table) : outcome unit Table := reduce update_rows_logic (update_rows_arrange t update).
Definition update_cells_logic (column_paths update_paths : list ColumnPath) (key : Key) (input : list (MaybeUpdate Value * Z))
    : outcome unit (list (Value * Z)) :=
  ' (original_values, selected_values, selected_paths) ←
    match input with
    | [(Original original_values, 1)] => Ok (original_values, original_values, column_paths)
    | [(Original original_values, 1); (Update new_values, 1)] => Ok (original_values, new_values, update_paths)
    | [(Update _, 1)] => Panic "updating a row that does not exist"
    | _ => Panic "unexpected counts in input"
    end;
  updates ← extract_all selected_paths key selected_values;
  Ok [(VTuple (original_values :: updates), 1)].
Definition update_cells_table (t update : Table) (column_paths update_paths : list ColumnPath) : outcome unit Table :=
  reduce (update_cells_logic column_paths update_paths) (update_rows_arrange t update).
End tables.
Arguments Original {T} v.
Arguments Update {T} v.
