(* ===== verification/TableProps.v ===== *)
(** The table operators compute what their names say, on tables in which every key
    has at most one row. *)
From Stdlib Require Import ZArith Lia Bool.
From stdpp Require Import base list sets sorting strings gmap.
From S2P Require Import Prelude Order Float Text Data Externals Instances Value Weights Expression Output Table.
Open Scope Z_scope.

(** ** Consolidated collections *)

Section consolidate.
Context {A : Type} `{OrdLaws A}.
Implicit Types (c rest : list (A * Z)) (current : A * Z) (f : A → Z).

Definition sorted_records c : Prop := StronglySorted (λ x y, cmp x y = Lt) (map fst c).

Lemma wsum_merge_runs f current rest : Proper (ord_eq ==> eq) f →
  wsum f (merge_runs current rest) = f (fst current) * snd current + wsum f rest.
Proof.
  intros Hf. revert current. induction rest as [|[y w'] rest IH]; intros [x w]; simpl.
  - destruct (Z.eqb_spec w 0); simpl; lia.
  - unfold ord_eqb. destruct (cmp x y) eqn:E; simpl.
    + rewrite IH. simpl. rewrite (Hf x y E). lia.
    + rewrite wsum_app, IH. destruct (Z.eqb_spec w 0); simpl; lia.
    + rewrite wsum_app, IH. destruct (Z.eqb_spec w 0); simpl; lia.
Qed.
Lemma consolidate_weq c : weq ord_eq (consolidate c) c.
Proof.
  intros f Hf. rewrite <- (wsum_perm f _ _ (sort_by_perm (λ x y, cmp (fst x) (fst y)) c)).
  unfold consolidate. destruct (sort_by _ c) as [|e es]; [done|]. by rewrite wsum_merge_runs.
Qed.

Lemma merge_runs_le current rest x : StronglySorted (λ x y, cmp x y ≠ Gt) (fst current :: map fst rest) →
  x ∈ map fst (merge_runs current rest) → cmp (fst current) x ≠ Gt.
Proof.
  revert current. induction rest as [|[y w'] rest IH]; intros [z w] Hs; simpl in *.
  { destruct (w =? 0); [by intros ?%elem_of_nil|]. intros ->%list_elem_of_singleton. by rewrite cmp_refl. }
  apply StronglySorted_inv in Hs as [Hs Hf]. apply Forall_cons in Hf as [Hzy Hf].
  assert (Hnext : x = z ∨ x ∈ map fst (merge_runs (y, w') rest) → cmp z x ≠ Gt).
  { intros [->|Hx]; [by rewrite cmp_refl|]. apply (cmp_trans z y x Hzy). by apply (IH (y, w') Hs). }
  unfold ord_eqb. destruct (cmp z y) eqn:E.
  - intros Hx. apply (IH (z, w + w')); [|done]. apply StronglySorted_inv in Hs as [Hs _]. by constructor.
  - intros Hx. apply Hnext. rewrite map_app in Hx. apply elem_of_app in Hx as [Hx|Hx]; [left|by right].
    destruct (w =? 0); [by apply elem_of_nil in Hx|by apply list_elem_of_singleton in Hx].
  - done.
Qed.
Lemma merge_runs_sorted current rest : StronglySorted (λ x y, cmp x y ≠ Gt) (fst current :: map fst rest) →
  sorted_records (merge_runs current rest) ∧ Forall (λ e, snd e ≠ 0) (merge_runs current rest).
Proof.
  revert current. induction rest as [|[y w'] rest IH]; intros [z w] Hs.
  { simpl. destruct (Z.eqb_spec w 0); split; repeat constructor. done. }
  pose proof (StronglySorted_inv Hs) as [Hs' Hf]. simpl in Hf. apply Forall_cons in Hf as [Hzy Hf]. simpl.
  unfold ord_eqb. destruct (cmp z y) eqn:E.
  - apply IH. simpl in Hs'. apply StronglySorted_inv in Hs' as [Hs' _]. by constructor.
  - destruct (IH (y, w') Hs') as [IHs IHz]. destruct (Z.eqb_spec w 0); [done|]. split; [|by constructor].
    unfold sorted_records. simpl. constructor; [exact IHs|]. apply Forall_forall. intros x Hx.
    eapply cmp_lt_le_trans; [exact E|]. by apply (merge_runs_le (y, w') rest).
  - done.
Qed.
Lemma sort_by_sorted {B} (c : list (A * B)) : StronglySorted (λ x y, cmp x y ≠ Gt) (map fst (sort_by (λ x y, cmp (fst x) (fst y)) c)).
Proof.
  unfold sort_by. induction c as [|e c IH]; simpl; [constructor|]. revert IH.
  generalize (foldr (sort_insert (λ x y : A * B, cmp (fst x) (fst y))) [] c). intros l. clear c.
  induction l as [|y l IHl]; simpl; intros Hs; [repeat constructor|].
  pose proof (StronglySorted_inv Hs) as [Hs' Hf]. destruct (cmp (fst e) (fst y)) eqn:E; simpl.
  1, 2: constructor; [done|]; constructor; [by rewrite E|]; eapply Forall_impl; [exact Hf|]; intros x Hx;
    apply (cmp_trans _ (fst y) _); [by rewrite E|done].
  constructor; [by apply IHl|]. apply Forall_forall. intros x (x' & -> & Hx)%list_elem_of_fmap.
  rewrite sort_insert_perm in Hx. apply elem_of_cons in Hx as [->|Hx].
  - rewrite cmp_antisym, E. done.
  - rewrite Forall_forall in Hf. apply Hf, list_elem_of_fmap. by exists x'.
Qed.
Lemma consolidate_spec c : sorted_records (consolidate c) ∧ Forall (λ e, snd e ≠ 0) (consolidate c).
Proof.
  unfold consolidate. pose proof (sort_by_sorted c) as Hs. destruct (sort_by _ c) as [|e es]; [repeat constructor|].
  by apply merge_runs_sorted.
Qed.

(** The weight of a record of a consolidated collection. *)
Lemma weight_at_absent c x : (∀ e, e ∈ c → cmp x (fst e) ≠ Eq) → weight_at c x = 0.
Proof.
  intros Hc. apply wsum_zero. intros e He. left. unfold ord_eqb. specialize (Hc e He). by destruct (cmp x (fst e)).
Qed.
Lemma weight_at_sorted c e : sorted_records c → e ∈ c → weight_at c (fst e) = snd e.
Proof.
  unfold sorted_records. induction c as [|[y w] c IH]; cbn [map fst]; [by intros _ ?%elem_of_nil|].
  intros [Hs Hf]%StronglySorted_inv. rewrite Forall_forall in Hf. rewrite weight_at_cons. intros [->|Hin]%elem_of_cons.
  - simpl. rewrite weight_at_absent; [unfold ord_eqb; rewrite cmp_refl; lia|].
    intros e He. rewrite (Hf (fst e)); [done|]. apply list_elem_of_fmap. by exists e.
  - rewrite IH by done. assert (E : cmp y (fst e) = Lt) by (apply Hf, list_elem_of_fmap; by exists e).
    unfold ord_eqb. by rewrite cmp_antisym, E.
Qed.
Lemma weight_at_present c x : weight_at c x ≠ 0 → ∃ e, e ∈ c ∧ cmp x (fst e) = Eq.
Proof.
  induction c as [|[y w] c IH]; [done|]. rewrite weight_at_cons. unfold ord_eqb. destruct (cmp x y) eqn:E.
  1: intros _; exists (y, w); (split; [by constructor|done]).
  all: intros Hw; destruct IH as (e & He & Hx); [lia|]; exists e; (split; [by constructor|done]).
Qed.
Lemma distinct_weight c x : weight_at (distinct c) x = if weight_at c x =? 0 then 0 else 1.
Proof.
  rewrite <- (weq_weight_at _ _ x (consolidate_weq c)). destruct (consolidate_spec c) as [Hs Hz].
  unfold distinct. revert Hs Hz. generalize (consolidate c). intros l Hs Hz.
  destruct (Z.eqb_spec (weight_at l x) 0) as [E|E].
  - apply weight_at_absent. intros e' (e & -> & He)%list_elem_of_fmap Hx. simpl in Hx.
    rewrite (weight_at_eq l x _ Hx), weight_at_sorted in E by done. rewrite Forall_forall in Hz. by apply (Hz e).
  - destruct (weight_at_present l x E) as (e & He & Hx). rewrite (weight_at_eq _ x _ Hx).
    apply (weight_at_sorted _ (fst e, 1)); [|apply list_elem_of_fmap; by exists e].
    unfold sorted_records in *. by rewrite map_map.
Qed.
(** Records that differ, each with a weight. *)
Lemma distinct_weq c items : weq ord_eq c items → (∀ e1 e2, e1 ∈ items → e2 ∈ items → cmp (fst e1) (fst e2) = Eq → e1 = e2) →
  NoDup items → weq ord_eq (distinct c) (map (λ e, (fst e, 1)) (List.filter (λ e, negb (snd e =? 0)) items)).
Proof.
  intros Hc Hd Hnd. apply weight_at_weq. intros x. rewrite distinct_weight, (weq_weight_at _ _ x Hc). clear Hc.
  induction items as [|[y w] items IH]; [done|]. apply NoDup_cons in Hnd as [Hy Hnd].
  assert (IH' := IH (λ e1 e2 H1' H2', Hd e1 e2 (list_elem_of_further _ _ _ H1') (list_elem_of_further _ _ _ H2')) Hnd). clear IH.
  rewrite weight_at_cons. cbn [List.filter snd]. unfold ord_eqb at 1. destruct (cmp x y) eqn:E.
  2, 3: rewrite Z.add_0_l, IH'; destruct (w =? 0); cbn [negb map fst]; [done|]; rewrite weight_at_cons; unfold ord_eqb; by rewrite E.
  assert (E0 : weight_at items x = 0).
  { apply weight_at_absent. intros e He Hx. apply Hy. rewrite <- (Hd (y, w) e) in He; [done| |by constructor|].
    - by constructor.
    - simpl. by rewrite <- (cmp_eq_l _ _ (fst e) E). }
  rewrite E0, Z.add_0_r in *. destruct (Z.eqb_spec w 0) as [->|]; cbn [negb map fst]; [by rewrite <- IH'|].
  rewrite weight_at_cons, <- IH'. unfold ord_eqb. by rewrite E.
Qed.
End consolidate.

(** ** Consolidated collections are canonical *)

Section canonical.
Context {A : Type} `{OrdLaws A}.
Implicit Types (c l : list (A * Z)).

Definition nonzero c : Prop := Forall (λ e, snd e ≠ 0) c.
Definition canonical c : Prop := sorted_records c ∧ nonzero c.
Definition same_records c1 c2 : Prop := Forall2 (λ e1 e2, cmp (fst e1) (fst e2) = Eq ∧ snd e1 = snd e2) c1 c2.

Lemma canonical_nil : canonical [].
Proof. split; constructor. Qed.
Lemma canonical_cons e c : canonical (e :: c) →
  canonical c ∧ snd e ≠ 0 ∧ ∀ e', e' ∈ c → cmp (fst e) (fst e') = Lt.
Proof.
  intros [Hs Hz]. unfold sorted_records in Hs. cbn [map] in Hs. apply StronglySorted_inv in Hs as [Hs Hf].
  apply Forall_cons in Hz as [Hz1 Hz]. repeat split; [done..|]. intros e' He. rewrite Forall_forall in Hf.
  apply Hf, list_elem_of_fmap. by exists e'.
Qed.
Lemma weight_at_head e c x : canonical (e :: c) →
  weight_at (e :: c) x = match cmp x (fst e) with Eq => snd e | Lt => 0 | Gt => weight_at c x end.
Proof.
  intros (_ & _ & Hlt)%canonical_cons. destruct e as [y w]. rewrite weight_at_cons. unfold ord_eqb.
  simpl in *. destruct (cmp x y) eqn:E; [| |lia]; rewrite (weight_at_absent c); [lia| |lia|].
  - intros e He. rewrite (cmp_eq_l _ _ _ E), (Hlt e He). done.
  - intros e He. assert (E' : cmp y (fst e) ≠ Gt) by (by rewrite (Hlt e He)).
    by rewrite (cmp_lt_le_trans _ _ _ E E').
Qed.
Lemma canonical_nil_iff c : canonical c → (∀ x, weight_at c x = 0) → c = [].
Proof.
  destruct c as [|e c]; [done|]. intros Hc Hw. specialize (Hw (fst e)).
  rewrite weight_at_head, cmp_refl in Hw by done. by apply canonical_cons in Hc as (_ & Hz & _).
Qed.
Lemma canonical_unique c1 c2 : canonical c1 → canonical c2 → (∀ x, weight_at c1 x = weight_at c2 x) → same_records c1 c2.
Proof.
  revert c2. induction c1 as [|e1 c1 IH]; intros c2 H1 H2 Hw.
  { assert (c2 = []) as -> by (apply canonical_nil_iff; [done|]; intros x; by rewrite <- Hw). constructor. }
  destruct c2 as [|e2 c2].
  { by assert (e1 :: c1 = []) by (by apply canonical_nil_iff). }
  pose proof (canonical_cons _ _ H1) as (H1' & Hz1 & Hl1). pose proof (canonical_cons _ _ H2) as (H2' & Hz2 & Hl2).
  assert (Hh : cmp (fst e1) (fst e2) = Eq).
  { pose proof (Hw (fst e1)) as Hw1. pose proof (Hw (fst e2)) as Hw2.
    rewrite !weight_at_head, !cmp_refl in Hw1, Hw2 by done. rewrite (cmp_antisym (fst e1) (fst e2)) in Hw2.
    by destruct (cmp (fst e1) (fst e2)). }
  constructor.
  - split; [done|]. pose proof (Hw (fst e1)) as Hw1. by rewrite !weight_at_head, cmp_refl, Hh in Hw1.
  - apply IH; [done..|]. intros x. specialize (Hw x). rewrite !weight_at_head, <- (cmp_eq_r _ _ x Hh) in Hw by done.
    destruct (cmp x (fst e1)) eqn:E; [| |done]; rewrite !weight_at_absent; try done; intros e He.
    + rewrite (cmp_eq_l _ _ _ E), (cmp_eq_l _ _ _ Hh), (Hl2 e He). done.
    + rewrite (cmp_eq_l _ _ _ E), (Hl1 e He). done.
    + rewrite (cmp_eq_r _ _ _ Hh) in E. assert (E' : cmp (fst e2) (fst e) ≠ Gt) by (by rewrite (Hl2 e He)).
      by rewrite (cmp_lt_le_trans _ _ _ E E').
    + assert (E' : cmp (fst e1) (fst e) ≠ Gt) by (by rewrite (Hl1 e He)). by rewrite (cmp_lt_le_trans _ _ _ E E').
Qed.
Lemma consolidate_canonical c : canonical (consolidate c).
Proof. apply consolidate_spec. Qed.
Lemma consolidate_weight c x : weight_at (consolidate c) x = weight_at c x.
Proof. apply weq_weight_at, consolidate_weq. Qed.
End canonical.

(** ** Groups *)

Section groups.
Context {V : Type} `{OrdLaws V}.
Implicit Types (k : Key) (vs : list (V * Z)) (gs : list (Key * list (V * Z))).

Definition group_rows k vs : list (Key * V * Z) := map (λ e, ((k, fst e), snd e)) vs.
Definition flat_groups gs : list (Key * V * Z) := flat_map (λ g, group_rows (fst g) (snd g)) gs.

Lemma flat_group_by_key (c : list (Key * V * Z)) : flat_groups (group_by_key c) = c.
Proof.
  induction c as [|[[k v] w] c IH]; [done|]. cbn [group_by_key].
  destruct (group_by_key c) as [|[k' vs] gs]; [by rewrite <- IH|].
  destruct (decide (k = k')) as [->|]; unfold flat_groups in *; simpl in *; by rewrite IH.
Qed.
Lemma weight_at_group k vs k' v : weight_at (group_rows k vs) (k', v) = if decide (k' = k) then weight_at vs v else 0.
Proof.
  induction vs as [|[y w] vs IH]; [by destruct (decide _)|]. cbn [group_rows map fst snd]. rewrite weight_at_cons.
  change (map _ vs) with (group_rows k vs). rewrite IH. unfold ord_eqb. rewrite pair_cmp. cbn [fst snd].
  destruct (decide (k' = k)) as [->|Hk].
  - rewrite cmp_refl. cbn [then_cmp]. by rewrite weight_at_cons.
  - destruct (cmp k' k) eqn:E; [|cbn; lia..].
    by apply Z_cmp_eq in E; destruct k, k'; simpl in E; subst.
Qed.
Lemma weight_at_app {A} `{OrdLaws A} (c1 c2 : list (A * Z)) x : weight_at (c1 ++ c2) x = weight_at c1 x + weight_at c2 x.
Proof. apply wsum_app. Qed.
Lemma weight_at_no_group gs k v : k ∉ map fst gs → weight_at (flat_groups gs) (k, v) = 0.
Proof.
  induction gs as [|[k' vs] gs IH]; [done|]. cbn [map fst]. intros [Hne Hk]%not_elem_of_cons.
  unfold flat_groups. cbn [flat_map fst snd]. rewrite weight_at_app, weight_at_group, decide_False by done. by apply IH.
Qed.
Lemma weight_at_in_group gs k vs v : NoDup (map fst gs) → (k, vs) ∈ gs → weight_at (flat_groups gs) (k, v) = weight_at vs v.
Proof.
  induction gs as [|[k' vs'] gs IH]; [by intros _ ?%elem_of_nil|]. cbn [map fst]. intros [Hk Hnd]%NoDup_cons.
  unfold flat_groups. cbn [flat_map fst snd]. rewrite weight_at_app, weight_at_group. fold (flat_groups gs).
  intros [[= -> ->]|Hin]%elem_of_cons.
  - rewrite decide_True, weight_at_no_group by done. lia.
  - rewrite decide_False, IH by (done || (intros ->; apply Hk, list_elem_of_fmap; by exists (k', vs))). lia.
Qed.

Lemma key_lt_ne k k' : cmp k k' = Lt → k ≠ k'.
Proof. intros Hk ->. by rewrite cmp_refl in Hk. Qed.
Lemma group_by_key_sorted (c : list (Key * V * Z)) : canonical c →
  StronglySorted (λ k k', cmp k k' = Lt) (map fst (group_by_key c)) ∧
  (∀ g, g ∈ group_by_key c → canonical (snd g) ∧ snd g ≠ []).
Proof.
  induction c as [|[[k v] w] c IH]; intros Hc.
  { split; [constructor|]. by intros g ?%elem_of_nil. }
  pose proof (canonical_cons _ _ Hc) as (Hc' & Hw & Hlt). destruct (IH Hc') as (Hs & Hg). clear IH.
  assert (Hin : ∀ k' v' w', (k', v', w') ∈ flat_groups (group_by_key c) → cmp (k, v) (k', v') = Lt).
  { intros k' v' w' Hin. rewrite flat_group_by_key in Hin. apply (Hlt _ Hin). }
  assert (H1 : canonical [(v, w)]) by (split; [repeat constructor|by constructor]).
  cbn [group_by_key fst snd]. destruct (group_by_key c) as [|[k' vs] gs].
  { split; [repeat constructor|]. by intros g ->%list_elem_of_singleton. }
  assert (Hhd : ∀ v' w', (v', w') ∈ vs → cmp (k, v) (k', v') = Lt).
  { intros v' w' Hv. apply (Hin k' v' w'). unfold flat_groups. cbn [flat_map fst snd]. apply elem_of_app. left.
    apply list_elem_of_fmap. by exists (v', w'). }
  destruct (Hg (k', vs)) as [[Hvs Hz] Hne]; [by constructor|]. cbn [snd] in *.
  destruct (decide (k = k')) as [->|Hk].
  - split; [done|]. intros g [->|Hgs]%elem_of_cons; [|apply Hg; by constructor]. cbn [snd]. split; [|done].
    split; [|by constructor]. unfold sorted_records in *. cbn [map fst]. constructor; [done|]. apply Forall_forall.
    intros v' ([v'' w''] & -> & Hv)%list_elem_of_fmap. specialize (Hhd v'' w'' Hv). rewrite pair_cmp in Hhd.
    cbn [fst snd] in *. by rewrite cmp_refl in Hhd.
  - assert (Hlt' : cmp k k' = Lt).
    { destruct vs as [|[v' w'] vs]; [done|]. specialize (Hhd v' w'). rewrite pair_cmp in Hhd. cbn [fst snd] in Hhd.
      destruct (cmp k k') eqn:E; [|done|]; [|by discriminate Hhd; constructor].
      apply Z_cmp_eq in E. destruct k, k'. simpl in E. by subst. }
    split; [|intros g [->|Hgs]%elem_of_cons; [done|by apply Hg]].
    cbn [map fst] in *. constructor; [done|]. apply StronglySorted_inv in Hs as [_ Hf]. constructor; [done|].
    eapply Forall_impl; [exact Hf|]. intros k2 H2. eapply cmp_lt_le_trans; [exact Hlt'|]. unfold ord_le. by rewrite H2.
Qed.
Lemma group_by_key_nodup (c : list (Key * V * Z)) : canonical c → NoDup (map fst (group_by_key c)).
Proof.
  intros [Hs _]%group_by_key_sorted. induction Hs as [|k ks Hs IH Hf]; constructor; [|done].
  intros Hin. rewrite Forall_forall in Hf. by apply (key_lt_ne k k (Hf k Hin)).
Qed.
End groups.

Lemma try_collect_total {E A B} (f : A → outcome E B) (P : A → B → Prop) l :
  (∀ x, x ∈ l → ∃ y, f x = Ok y ∧ P x y) → ∃ ys, try_collect f l = Ok ys ∧ Forall2 P l ys.
Proof.
  induction l as [|x l IH]; intros Hl; [exists []; by split|].
  destruct (Hl x) as (y & Hy & HP); [by constructor|].
  destruct IH as (ys & Hys & HF); [intros z Hz; apply Hl; by constructor|].
  exists (y :: ys). cbn. rewrite Hy. split; [|by constructor]. fold (try_collect f l). by rewrite Hys.
Qed.

(** What [reduce] computes: [group k] are the values of the key with their weights,
    [result k] what the logic makes of them. *)
Section reduce.
Context {V O : Type} `{OrdLaws V, OrdLaws O}.
Context (logic : Key → list (V * Z) → outcome unit (list (O * Z))).
Context (group : Key → list (V * Z)) (result : Key → list (O * Z)).

Lemma reduce_weight c :
  (∀ k, canonical (group k)) → (∀ k v, weight_at c (k, v) = weight_at (group k) v) →
  (∀ k vs, group k ≠ [] → same_records vs (group k) → ∃ o, logic k vs = Ok o ∧ weq ord_eq o (result k)) →
  (∀ k, group k = [] → result k = []) →
  ∃ out, reduce logic c = Ok out ∧ ∀ k o, weight_at out (k, o) = weight_at (result k) o.
Proof.
  intros Hcan Hw Hlogic Hnone. unfold reduce. pose proof (consolidate_canonical c) as Hc.
  assert (Hw' : ∀ k v, weight_at (consolidate c) (k, v) = weight_at (group k) v) by (intros; by rewrite consolidate_weight).
  revert Hc Hw'. generalize (consolidate c). intros c' Hc Hw'. pose proof (group_by_key_nodup c' Hc) as Hnd.
  pose proof (group_by_key_sorted c' Hc) as [_ Hg].
  assert (Hflat : ∀ k v, weight_at (flat_groups (group_by_key c')) (k, v) = weight_at (group k) v)
    by (intros; by rewrite flat_group_by_key).
  clear Hw' Hw. revert Hnd Hg Hflat. generalize (group_by_key c'). clear Hc. intros gs Hnd Hg Hflat.
  destruct (try_collect_total (λ g, o ← logic (fst g) (snd g); Ok (map (λ e, ((fst g, fst e), snd e)) o))
    (λ g rows, ∃ o, rows = group_rows (fst g) o ∧ weq ord_eq o (result (fst g))) gs) as (rs & Hrs & HF).
  { intros [k vs] Hin. cbn [fst snd]. destruct (Hg _ Hin) as [Hvs Hne]. cbn [snd] in *.
    assert (Hsame : same_records vs (group k)).
    { apply canonical_unique; [done..|]. intros v. rewrite <- Hflat. by erewrite weight_at_in_group. }
    destruct (Hlogic k vs) as (o & Ho & Hres); [|done|].
    { intros E. rewrite E in Hsame. by inversion Hsame; subst. }
    exists (group_rows k o). rewrite Ho. split; [done|]. by exists o. }
  rewrite Hrs. cbn. eexists. split; [done|]. intros k o.
  assert (Hout : ∃ gs', concat rs = flat_groups gs' ∧ map fst gs' = map fst gs ∧
    ∀ k vs, (k, vs) ∈ gs' → weq ord_eq vs (result k)).
  { clear -HF. induction HF as [|[k vs] rows gs rs (o & -> & Ho) _ (gs' & Hgs' & Hk & IH)].
    - exists []. split; [done|]. split; [done|]. by intros k vs ?%elem_of_nil.
    - exists ((k, o) :: gs'). unfold flat_groups. cbn [concat flat_map map fst snd] in *. rewrite Hgs', Hk.
      split; [done|]. split; [done|]. intros k' vs' [[= -> ->]|Hin]%elem_of_cons; [done|by apply IH]. }
  destruct Hout as (gs' & -> & Hk & Hres). destruct (decide (k ∈ map fst gs)) as [Hin|Hnin].
  - rewrite <- Hk in Hin. apply list_elem_of_fmap in Hin as ([k2 vs] & E & Hin). cbn [fst] in E. subst k2.
    rewrite (weight_at_in_group gs' k vs) by (done || by rewrite Hk). by apply weq_weight_at, Hres.
  - rewrite weight_at_no_group by (by rewrite Hk). rewrite (Hnone k); [done|]. apply canonical_nil_iff; [done|].
    intros v. rewrite <- Hflat. by apply weight_at_no_group.
Qed.
End reduce.

(** ** Tables that represent a map *)

Definition rows_of {A} (m : gmap Key A) : list (Key * A * Z) := map (λ kv, (kv, 1)) (map_to_list m).
Definition row_group {A} (o : option A) : list (A * Z) := match o with Some v => [(v, 1)] | None => [] end.
Definition represents {A} `{Ord A} (t : list (Key * A * Z)) (m : gmap Key A) : Prop := weq ord_eq t (rows_of m).

Lemma row_group_canonical {A} `{OrdLaws A} (o : option A) : canonical (row_group o).
Proof. destruct o; [|apply canonical_nil]. split; [repeat constructor|by constructor]. Qed.
Lemma rows_of_weight {A} `{OrdLaws A} (m : gmap Key A) k v : weight_at (rows_of m) (k, v) = weight_at (row_group (m !! k)) v.
Proof.
  assert (E : rows_of m = flat_groups (map (λ kv, (fst kv, [(snd kv, 1)])) (map_to_list m))).
  { unfold rows_of, flat_groups. induction (map_to_list m) as [|[k' v'] l IH]; simpl; [done|]. by rewrite IH. }
  rewrite E. destruct (m !! k) as [a|] eqn:Hk.
  - rewrite (weight_at_in_group _ k [(a, 1)]); [done| |].
    + rewrite map_map. apply NoDup_fst_map_to_list.
    + apply list_elem_of_fmap. exists (k, a). split; [done|]. by apply elem_of_map_to_list.
  - apply weight_at_no_group. rewrite map_map. intros ([k' a] & E' & Hin)%list_elem_of_fmap. cbn [fst] in E'. subst k'.
    apply elem_of_map_to_list in Hin. congruence.
Qed.
Lemma represents_weight {A} `{OrdLaws A} t (m : gmap Key A) : represents t m ↔ ∀ k v, weight_at t (k, v) = weight_at (row_group (m !! k)) v.
Proof.
  split.
  - intros Ht k v. by rewrite (weq_weight_at _ _ _ Ht), rows_of_weight.
  - intros Hw. apply weight_at_weq. intros [k v]. by rewrite Hw, rows_of_weight.
Qed.

(** Looking a key up in a list of rows. *)
Definition key_weight {A} (t : list (Key * A * Z)) (k : Key) : Z := wsum (λ x, if decide (k = fst x) then 1 else 0) t.

(** ** Set operations *)

Lemma wsum_cons {A} (f : A → Z) e es : wsum f (e :: es) = f (fst e) * snd e + wsum f es.
Proof. done. Qed.
Lemma wsum_records {A} (f : A → Z) w xs : wsum f (map (λ x, (x, w)) xs) = foldr (λ x s, f x + s) 0 xs * w.
Proof. induction xs as [|x xs IH]; [done|]. cbn [map foldr]. rewrite wsum_cons, IH. cbn [fst snd]. lia. Qed.
Lemma wsum_join_core {A B C} (f : C → Z) (l : list (Key * A * Z)) (r : list (Key * B * Z)) res :
  wsum f (join_core l r res) =
  wsum (λ x, wsum (λ y, if decide (fst x = fst y) then foldr (λ c s, f c + s) 0 (res (fst x) (snd x) (snd y)) else 0) r) l.
Proof.
  unfold join_core. induction l as [|[[k a] w] l IH]; cbn [flat_map]; [done|]. rewrite wsum_app, IH, wsum_cons.
  f_equal. clear IH. cbn [fst snd]. induction r as [|[[k' b] w'] r IH]; cbn [flat_map]; [cbn; lia|].
  rewrite wsum_app, IH, wsum_cons. cbn [fst snd]. rewrite Z.mul_add_distr_r. f_equal.
  destruct (decide (k = k')); [rewrite wsum_records; lia|done].
Qed.
Lemma wsum_keys_arranged f (t : list (Key * Value * Z)) : wsum f (keys_arranged t) = wsum (λ x, f (fst x, tt)) t.
Proof. apply (wsum_fmap f (λ x : Key * Value, (fst x, tt))). Qed.
Lemma semijoin_weight (l r : list (Key * Value * Z)) k v :
  weight_at (join_core l (keys_arranged r) (λ k values _, [(k, values)])) (k, v) = weight_at l (k, v) * key_weight r k.
Proof.
  unfold weight_at, weight_of. rewrite wsum_join_core, Z.mul_comm, <- wsum_scale. apply wsum_ext. intros [[k' a] w] _.
  cbn [fst snd]. rewrite wsum_keys_arranged. cbn [fst snd foldr]. unfold key_weight. rewrite Z.mul_comm, <- wsum_scale.
  apply wsum_ext. intros [[k2 b] w2] _. cbn [fst snd]. unfold ord_eqb. rewrite pair_cmp. cbn [fst snd].
  destruct (cmp k k') eqn:E; cbn [then_cmp Z.b2z].
  - assert (k = k') as -> by (apply Z_cmp_eq in E; destruct k, k'; simpl in E; by subst). destruct (decide (k' = k2)); lia.
  - destruct (decide (k' = k2)); lia.
  - destruct (decide (k' = k2)); lia.
Qed.
Lemma rows_of_insert {A} (m : gmap Key A) k v : m !! k = None → rows_of (<[k := v]> m) ≡ₚ ((k, v), 1) :: rows_of m.
Proof. intros Hk. unfold rows_of. by rewrite map_to_list_insert. Qed.
Lemma rows_of_key_weight {A} (m : gmap Key A) k : key_weight (rows_of m) k = match m !! k with Some _ => 1 | None => 0 end.
Proof.
  unfold key_weight. induction m as [|k' v m Hk' IH] using map_ind; [by rewrite lookup_empty|].
  rewrite rows_of_insert, wsum_cons, IH by done. cbn [fst]. destruct (decide (k = k')) as [->|].
  - by rewrite Hk', lookup_insert_eq.
  - by rewrite lookup_insert_ne.
Qed.
Lemma key_eq_iff (k k' : Key) : cmp k k' = Eq ↔ k = k'.
Proof.
  split; [|intros ->; apply cmp_refl]. destruct k as [a], k' as [b]. intros E%Z_cmp_eq. cbn in E. by subst.
Qed.
Lemma represents_key_weight {A} `{OrdLaws A} t (m : gmap Key A) k : represents t m → key_weight t k = match m !! k with Some _ => 1 | None => 0 end.
Proof.
  intros Ht. rewrite <- rows_of_key_weight. apply Ht. intros [k1 v1] [k2 v2] [E _]%pair_cmp_eq. cbn [fst] in *.
  apply key_eq_iff in E as ->. done.
Qed.

Lemma subtract_represents t m u mu : represents t m → represents u mu → represents (subtract_table t u) (m ∖ mu).
Proof.
  intros Ht Hu. apply represents_weight. intros k v. unfold subtract_table. rewrite weight_at_app.
  change (weight_at t (k, v) + wsum (λ y, Z.b2z (ord_eqb (k, v) y)) (wneg (join_core t (keys_arranged u) (λ k v _, [(k, v)]))) =
    weight_at (row_group ((m ∖ mu) !! k)) v).
  rewrite wsum_wneg. fold (weight_of ord_eqb (k, v) (join_core t (keys_arranged u) (λ k v _, [(k, v)]))).
  fold (weight_at (join_core t (keys_arranged u) (λ k v _, [(k, v)])) (k, v)).
  rewrite semijoin_weight, (represents_key_weight _ _ _ Hu), (proj1 (represents_weight t m) Ht), lookup_difference.
  destruct (mu !! k); [|cbn; lia]. cbn [row_group]. unfold weight_at at 3. cbn. lia.
Qed.
Lemma intersect_represents ts ms t m : represents t m → Forall2 represents ts ms →
  represents (intersect_tables t ts) (filter (λ kv, Forall (λ m', kv.1 ∈ dom m') ms) m).
Proof.
  intros Ht Hts. unfold intersect_tables. revert t m Ht. induction Hts as [|u mu ts ms Hu Hts IH]; intros t m Ht; cbn [foldl].
  - rewrite map_filter_id; [done|]. intros; constructor.
  - assert (E : filter (λ kv : Key * Value, Forall (λ m' : gmap Key Value, kv.1 ∈ dom m') (mu :: ms)) m =
      filter (λ kv : Key * Value, Forall (λ m' : gmap Key Value, kv.1 ∈ dom m') ms) (filter (λ kv, kv.1 ∈ dom mu) m)).
    { rewrite map_filter_filter. apply map_filter_ext. intros k v _. rewrite Forall_cons. tauto. }
    rewrite E. apply IH. apply represents_weight. intros k v.
    rewrite semijoin_weight, (represents_key_weight _ _ _ Hu), (proj1 (represents_weight t m) Ht).
    destruct (filter (λ kv : Key * Value, kv.1 ∈ dom mu) m !! k) as [a|] eqn:Hf.
    + apply map_lookup_filter_Some in Hf as [Hk Hdom]. cbn in Hdom. apply elem_of_dom in Hdom as [b Hb].
      rewrite Hb, Hk. lia.
    + apply map_lookup_filter_None in Hf. destruct (m !! k) as [a|] eqn:Hk; [|cbn; lia].
      destruct (mu !! k) as [b|] eqn:Hb; [|cbn; lia]. destruct Hf as [?|Hf]; [done|]. destruct (Hf a eq_refl).
      cbn. apply elem_of_dom. by exists b.
Qed.

(** ** Updates *)

#[export] Instance MaybeUpdate_ord_laws {T} `{OrdLaws T} : OrdLaws (MaybeUpdate T).
Proof.
  split.
  - intros [a|a] [b|b]; try done; exact (cmp_antisym a b).
  - intros [a|a] [b|b] [c|c]; try done; exact (cmp_trans a b c).
Qed.
Definition update_group (o u : option Value) : list (MaybeUpdate Value * Z) :=
  map (λ e, (Original (fst e), snd e)) (row_group o) ++ map (λ e, (Update (fst e), snd e)) (row_group u).
Lemma update_group_canonical o u : canonical (update_group o u).
Proof. destruct o, u; (split; [repeat constructor|repeat (constructor; [done|]); constructor]). Qed.
Lemma original_weight (c : list (Key * Value * Z)) k x :
  weight_at (map (λ e, ((fst (fst e), Original (snd (fst e))), snd e)) c) (k, x) =
  match x with Original v => weight_at c (k, v) | Update _ => 0 end.
Proof.
  unfold weight_at, weight_of. rewrite (wsum_fmap _ (λ x : Key * Value, (fst x, Original (snd x)))).
  destruct x as [v|v].
  - apply wsum_ext. intros [[k' a] w] _. cbn [fst snd]. unfold ord_eqb. rewrite !pair_cmp. done.
  - apply wsum_zero. intros [[k' a] w] _. left. cbn [fst snd]. unfold ord_eqb. rewrite pair_cmp. cbn [fst snd].
    by destruct (cmp k k').
Qed.
Lemma update_weight (c : list (Key * Value * Z)) k x :
  weight_at (map (λ e, ((fst (fst e), Update (snd (fst e))), snd e)) c) (k, x) =
  match x with Update v => weight_at c (k, v) | Original _ => 0 end.
Proof.
  unfold weight_at, weight_of. rewrite (wsum_fmap _ (λ x : Key * Value, (fst x, Update (snd x)))).
  destruct x as [v|v].
  - apply wsum_zero. intros [[k' a] w] _. left. cbn [fst snd]. unfold ord_eqb. rewrite pair_cmp. cbn [fst snd].
    by destruct (cmp k k').
  - apply wsum_ext. intros [[k' a] w] _. cbn [fst snd]. unfold ord_eqb. rewrite !pair_cmp. done.
Qed.
Lemma update_group_weight t m u mu k x : represents t m → represents u mu →
  weight_at (update_rows_arrange t u) (k, x) = weight_at (update_group (m !! k) (mu !! k)) x.
Proof.
  intros Ht Hu. unfold update_rows_arrange. rewrite weight_at_app, original_weight, update_weight.
  rewrite represents_weight in Ht, Hu. destruct x as [v|v]; rewrite ?Ht, ?Hu; unfold update_group; rewrite weight_at_app.
  - destruct (m !! k), (mu !! k); cbn; done.
  - destruct (m !! k), (mu !! k); cbn; try done; lia.
Qed.
Lemma same_records_singleton {A} `{Ord A} (c : list (A * Z)) x w : same_records c [(x, w)] → ∃ x', c = [(x', w)] ∧ cmp x' x = Eq.
Proof. intros Hc. inversion Hc as [|[x' w'] ? ? ? [Hx Hw] Hr]; subst. inversion Hr; subst. cbn in *. subst. eauto. Qed.
Lemma same_records_pair {A} `{Ord A} (c : list (A * Z)) x y w z : same_records c [(x, w); (y, z)] →
  ∃ x' y', c = [(x', w); (y', z)] ∧ cmp x' x = Eq ∧ cmp y' y = Eq.
Proof.
  intros Hc. inversion Hc as [|[x' w'] ? ? ? [Hx Hw] Hr]; subst. apply same_records_singleton in Hr as (y' & -> & Hy).
  cbn in *. subst. eauto.
Qed.
Lemma weq_singleton {A} `{OrdLaws A} (x y : A) w : cmp x y = Eq → weq ord_eq [(x, w)] [(y, w)].
Proof. intros E f Hf. cbn. by rewrite (Hf x y E). Qed.
Lemma update_rows_represents t m u mu : represents t m → represents u mu →
  ∃ out, update_rows_table t u = Ok out ∧ represents out (mu ∪ m).
Proof.
  intros Ht Hu. destruct (reduce_weight update_rows_logic (λ k, update_group (m !! k) (mu !! k))
    (λ k, row_group ((mu ∪ m) !! k)) (update_rows_arrange t u)) as (out & Hout & Hw).
  - intros k. apply update_group_canonical.
  - intros k v. by apply update_group_weight.
  - intros k vs Hne Hvs. rewrite lookup_union. destruct (m !! k) as [a|] eqn:Ha, (mu !! k) as [b|] eqn:Hb; cbn in Hne, Hvs |- *.
    + apply same_records_pair in Hvs as ([a'|a'] & [b'|b'] & -> & E1 & E2); try done.
      eexists. split; [done|]. by apply weq_singleton.
    + apply same_records_singleton in Hvs as ([a'|a'] & -> & E1); [|done]. eexists. split; [done|]. by apply weq_singleton.
    + apply same_records_singleton in Hvs as ([a'|a'] & -> & E1); [done|]. eexists. split; [done|]. by apply weq_singleton.
    + done.
  - intros k. rewrite lookup_union. by destruct (m !! k), (mu !! k).
  - exists out. split; [done|]. apply represents_weight. intros k v. apply Hw.
Qed.

(** ** Duplicated keys *)

Section deduplicate.
Context `{ErrorMode}.
Context (error_logic : Value → outcome unit Value) (error_value : Key → Value).
Implicit Types (items : list (Key * Value)).

(** Inserting row by row, a key seen again becomes an error. *)
Definition deduplicate items : gmap Key Value :=
  foldr (λ kv m, <[fst kv := match m !! fst kv with None => snd kv | Some _ => error_value (fst kv) end]> m) ∅ items.
Definition values_at {A} (items : list (Key * A)) (k : Key) : list A := omap (λ kv, if decide (k = fst kv) then Some (snd kv) else None) items.
Lemma values_at_cons {A} kv (items : list (Key * A)) k :
  values_at (kv :: items) k = if decide (k = fst kv) then snd kv :: values_at items k else values_at items k.
Proof. unfold values_at. cbn. by destruct (decide _). Qed.
Lemma lookup_deduplicate items k :
  deduplicate items !! k = match values_at items k with [] => None | [v] => Some v | _ => Some (error_value k) end.
Proof.
  induction items as [|[k' v] items IH]; [done|]. rewrite values_at_cons. cbn [deduplicate foldr fst snd].
  fold (deduplicate items). destruct (decide (k = k')) as [<-|].
  - rewrite lookup_insert_eq, IH. by destruct (values_at items k) as [|? []].
  - by rewrite lookup_insert_ne.
Qed.

Definition ones {A} (l : list A) : list (A * Z) := map (λ x, (x, 1)) l.
Lemma ones_weight {A} `{OrdLaws A} (items : list (Key * A)) k v : weight_at (ones items) (k, v) = weight_at (ones (values_at items k)) v.
Proof.
  induction items as [|[k' v'] items IH]; [done|]. rewrite values_at_cons. cbn [ones map fst snd]. rewrite weight_at_cons.
  fold (ones items). rewrite IH. unfold ord_eqb. rewrite pair_cmp. cbn [fst snd]. destruct (decide (k = k')) as [<-|Hk].
  - rewrite cmp_refl. cbn [then_cmp]. cbn [ones map]. by rewrite weight_at_cons.
  - destruct (cmp k k') eqn:E; [by apply key_eq_iff in E|cbn [then_cmp]; lia..].
Qed.
Lemma ones_total {A} (l : list A) : wsum (λ _, 1) (ones l) = Z.of_nat (length l).
Proof. induction l as [|x l IH]; [done|]. cbn [ones map]. rewrite wsum_cons. fold (ones l). rewrite IH. cbn [length snd]. lia. Qed.

(** The error that replaces the rows of a key depends only on the key. *)
Definition error_logic_spec items : Prop := ∀ k v v',
  (k, v) ∈ items → cmp v' v = Eq → ∃ r, error_logic v' = Ok r ∧ cmp r (error_value k) = Eq.
Lemma replace_duplicates_represents t items :
  terminate_on_error = false → weq ord_eq t (ones items) → error_logic_spec items →
  ∃ out, replace_duplicates_with_error t error_logic = Ok out ∧ represents out (deduplicate items).
Proof.
  intros Hterm Ht Herr. assert (Hlog : ∀ e, log_error e = Ok tt) by (intros; unfold log_error; by rewrite Hterm).
  unfold replace_duplicates_with_error. set (group k := consolidate (ones (values_at items k))).
  assert (Hw : ∀ k v, weight_at t (k, v) = weight_at (group k) v).
  { intros k v. unfold group. rewrite consolidate_weight, <- ones_weight. by apply weq_weight_at. }
  assert (Htotal : ∀ k, wsum (λ _, 1) (group k) = Z.of_nat (length (values_at items k))).
  { intros k. rewrite <- ones_total. apply consolidate_weq. by intros ???. }
  assert (Hmem : ∀ k e, e ∈ group k → ∃ v, (k, v) ∈ items ∧ cmp (fst e) v = Eq).
  { intros k e He. assert (Hne : weight_at (ones (values_at items k)) (fst e) ≠ 0).
    { rewrite <- consolidate_weight. fold (group k). destruct (consolidate_canonical (ones (values_at items k))) as [Hs Hz].
      rewrite weight_at_sorted by done. by apply (proj1 (Forall_forall _ _) Hz). }
    apply weight_at_present in Hne as ([v w] & Hin & Hv). exists v. split; [|done].
    apply list_elem_of_fmap in Hin as (v' & [= -> ->] & Hin). apply list_elem_of_omap in Hin as ([k' v2] & Hin & E).
    cbn in E. destruct (decide (k = k')) as [->|]; [|done]. by injection E as ->. }
  set (logic := λ key input, _). destruct (reduce_weight logic group (λ k, row_group (deduplicate items !! k)) t)
    as (out & Hout & Hres); [| |intros k vs Hne Hvs|intros k Hk|].
  - intros k. apply consolidate_canonical.
  - done.
  - rewrite lookup_deduplicate. pose proof (Htotal k) as Hlen. unfold same_records in Hvs.
    assert (Hdup : ∀ v w vs', vs = (v, w) :: vs' → (2 <= length (values_at items k))%nat →
      ∃ o, (_ ← log_error (DuplicateKey k); res ← error_logic v; Ok [(res, 1)]) = Ok o ∧
        weq ord_eq o [(error_value k, 1)]).
    { intros v w vs' -> _. inversion Hvs as [|? e ? ? [He _] Hr Ex Ey]; subst. cbn [fst] in He.
      destruct (Hmem k e) as (v0 & Hin & Hv0); [rewrite <- Ey; by constructor|].
      destruct (Herr k v0 v Hin) as (r & Hr' & Ecmp); [by rewrite (cmp_eq_l _ _ _ He)|].
      rewrite Hlog. cbn. rewrite Hr'. eexists. split; [done|]. by apply weq_singleton. }
    destruct (values_at items k) as [|v1 [|v2 vals]] eqn:Ev.
    + unfold group in Hne. by rewrite Ev in Hne.
    + assert (Eg : group k = [(v1, 1)]) by (unfold group; by rewrite Ev). rewrite Eg in Hvs.
      apply same_records_singleton in Hvs as (v' & -> & Ev'). unfold logic. cbn. eexists. split; [done|].
      by apply weq_singleton.
    + destruct vs as [|[v w] vs']; [by inversion Hvs; congruence|].
      specialize (Hdup v w vs' eq_refl ltac:(cbn; lia)). unfold logic. destruct vs' as [|]; [|done].
      destruct (Z.eqb_spec w 1) as [->|]; [|done]. exfalso.
      inversion Hvs as [|? e ? ? [_ He] Hr Ex Ey]; subst. inversion Hr; subst. rewrite <- Ey in Hlen.
      cbn in Hlen, He. lia.
  - rewrite lookup_deduplicate. pose proof (Htotal k) as Hlen. rewrite Hk in Hlen. cbn in Hlen.
    destruct (values_at items k); [done|cbn in Hlen; lia].
  - exists out. split; [exact Hout|]. by apply represents_weight.
Qed.
End deduplicate.

(** ** Closures that do not fail *)

Section pure.
Context {A B : Type}.
Implicit Types (c : list (A * Z)).

Lemma weq_eq_ord `{Ord A} c1 c2 : weq eq c1 c2 → weq ord_eq c1 c2.
Proof. intros Hc f _. apply Hc. by intros ?? ->. Qed.
Lemma map_coll_pure (logic : A → outcome unit B) (f : A → B) c : (∀ e, e ∈ c → logic (fst e) = Ok (f (fst e))) →
  map_coll logic c = Ok (map (λ e, (f (fst e), snd e)) c).
Proof.
  intros Hf. unfold map_coll. induction c as [|e c IH]; [done|]. cbn. rewrite Hf by constructor. cbn.
  fold (try_collect (λ e, b ← logic (fst e); Ok (b, snd e)) c). rewrite IH; [done|]. intros e' He'. apply Hf. by constructor.
Qed.
Definition flat_map_rows (f : A → list B) c : list (B * Z) := flat_map (λ e, map (λ b, (b, snd e)) (f (fst e))) c.
Lemma flat_map_coll_pure (logic : A → outcome unit (list B)) (f : A → list B) c :
  (∀ e, e ∈ c → logic (fst e) = Ok (f (fst e))) → flat_map_coll logic c = Ok (flat_map_rows f c).
Proof.
  intros Hf. unfold flat_map_coll, flat_map_rows.
  assert (E : try_collect (λ e, bs ← logic (fst e); Ok (map (λ b, (b, snd e)) bs)) c =
    Ok (map (λ e, map (λ b, (b, snd e)) (f (fst e))) c)).
  { induction c as [|e c IH]; [done|]. cbn. rewrite Hf by constructor. cbn. rewrite IH; [done|].
    intros e' He'. apply Hf. by constructor. }
  rewrite E. cbn. by rewrite flat_map_concat_map.
Qed.

Lemma weq_map (R : relation A) (S : relation B) (f : A → B) c1 c2 : Proper (R ==> S) f →
  weq R c1 c2 → weq S (map (λ e, (f (fst e), snd e)) c1) (map (λ e, (f (fst e), snd e)) c2).
Proof. intros Hf Hc g Hg. rewrite !wsum_fmap. apply Hc. intros x y Hxy. apply Hg. by apply Hf. Qed.
Lemma weq_flat_map (S : relation B) (f : A → list B) c1 c2 : weq eq c1 c2 → weq S (flat_map_rows f c1) (flat_map_rows f c2).
Proof. intros Hc g Hg. unfold flat_map_rows. rewrite !wsum_flat_map. apply Hc. by intros ?? ->. Qed.
Lemma flat_map_ones (f : A → list B) (l : list A) : flat_map_rows f (ones l) = ones (flat_map f l).
Proof.
  unfold flat_map_rows, ones. induction l as [|x l IH]; [done|]. cbn. by rewrite IH, map_app.
Qed.
Lemma map_ones (f : A → B) (l : list A) : map (λ e, (f (fst e), snd e)) (ones l) = ones (map f l).
Proof. unfold ones. by rewrite !map_map. Qed.
End pure.
Lemma rows_of_ones {A} (m : gmap Key A) : rows_of m = ones (map_to_list m).
Proof. done. Qed.

(** ** Restriction and override *)

Lemma wsum_rows_lookup {A} (g : A → Z) (m : gmap Key A) k :
  wsum (λ y, if decide (k = fst y) then g (snd y) else 0) (rows_of m) = match m !! k with Some b => g b | None => 0 end.
Proof.
  induction m as [|k' v m Hk' IH] using map_ind; [by rewrite lookup_empty|].
  rewrite rows_of_insert, wsum_cons, IH by done. cbn [fst snd]. destruct (decide (k = k')) as [->|].
  - rewrite Hk', lookup_insert_eq. lia.
  - by rewrite lookup_insert_ne.
Qed.
Lemma wsum_rows_imap {A B} f (h : Key → A → option B) m :
  wsum f (rows_of (map_imap h m)) = wsum (λ x, match h (fst x) (snd x) with Some b => f (fst x, b) | None => 0 end) (rows_of m).
Proof.
  induction m as [|k v m Hk IH] using map_ind; [by rewrite map_imap_empty|].
  rewrite map_imap_insert, rows_of_insert, wsum_cons by done. cbn [fst snd]. rewrite <- IH.
  assert (E : map_imap h m !! k = None) by (rewrite map_lookup_imap, Hk; done).
  destruct (h k v); [by rewrite rows_of_insert|]. by rewrite delete_id.
Qed.
Lemma join_core_weq {A B C} `{OrdLaws A, OrdLaws B} (S : relation C) (l l' : list (Key * A * Z)) (r r' : list (Key * B * Z)) res :
  weq ord_eq l l' → weq ord_eq r r' →
  (∀ k a a' b b', cmp a a' = Eq → cmp b b' = Eq → Forall2 S (res k a b) (res k a' b')) →
  weq S (join_core l r res) (join_core l' r' res).
Proof.
  intros Hl Hr Hres f Hf. rewrite !wsum_join_core.
  assert (Hsum : ∀ cs cs', Forall2 S cs cs' → foldr (λ c s, f c + s) 0 cs = foldr (λ c s, f c + s) 0 cs').
  { induction 1 as [|c c' cs cs' Hc _ IH]; [done|]. cbn. by rewrite IH, (Hf c c' Hc). }
  etrans; [apply Hl|].
  - intros [k a] [k' a'] [E1 E2]%pair_cmp_eq. cbn [fst snd] in *. apply key_eq_iff in E1 as ->. apply wsum_ext.
    intros [[k b] w] _. cbn [fst snd]. destruct (decide (k' = k)); [|done]. apply Hsum, Hres; [done|apply cmp_refl].
  - apply wsum_ext. intros [[k a] w] _. cbn [fst snd]. apply Hr. intros [k1 b] [k' b'] [E1 E2]%pair_cmp_eq.
    cbn [fst snd] in *. apply key_eq_iff in E1 as ->. destruct (decide (k = k')); [|done]. apply Hsum, Hres; [apply cmp_refl|done].
Qed.
Lemma map_join_core {A B C D} (f : C → D) (l : list (Key * A * Z)) (r : list (Key * B * Z)) res :
  weq eq (map (λ e, (f (fst e), snd e)) (join_core l r res)) (join_core l r (λ k a b, map f (res k a b))).
Proof.
  intros g _. rewrite wsum_fmap, !wsum_join_core. apply wsum_ext. intros [[k a] w] _. apply wsum_ext. intros [[k' b] w'] _.
  cbn [fst snd]. destruct (decide (k = k')); [|done]. induction (res k a b) as [|c cs IH]; [done|]. cbn. by rewrite IH.
Qed.
Lemma elem_of_join_core {A B C} (l : list (Key * A * Z)) (r : list (Key * B * Z)) (res : Key → A → B → list C) e :
  e ∈ join_core l r res → ∃ k a b w w', (k, a, w) ∈ l ∧ (k, b, w') ∈ r ∧ fst e ∈ res k a b.
Proof.
  unfold join_core. rewrite list_elem_of_In. intros ([[k a] w] & Hl & He)%in_flat_map.
  apply in_flat_map in He as ([[k' b] w'] & Hr & He). cbn [fst snd] in He. destruct (decide (k = k')) as [<-|]; [|done].
  apply list_elem_of_In in Hl, Hr, He. apply list_elem_of_fmap in He as (c & -> & Hc). by exists k, a, b, w, w'.
Qed.
Lemma value_tuple_eq (l l' : list Value) : Forall2 (λ v v', cmp v v' = Eq) l l' → cmp (VTuple l) (VTuple l') = Eq.
Proof. intros Hl. change (list_cmp Value_cmp l l' = Eq). by apply list_cmp_eq_Forall2. Qed.

Lemma represents_join {A B C} `{OrdLaws A, OrdLaws B, OrdLaws C} t (m : gmap Key A) u (mu : gmap Key B) (res : A → B → C) : represents t m → represents u mu →
  (∀ a a' b b', cmp a a' = Eq → cmp b b' = Eq → cmp (res a b) (res a' b') = Eq) →
  represents (join_core t u (λ k a b, [(k, res a b)])) (map_imap (λ k a, res a <$> mu !! k) m).
Proof.
  intros Ht Hu Hres. unfold represents. rewrite (join_core_weq ord_eq _ _ _ _ _ Ht Hu).
  - intros f _. rewrite wsum_join_core, wsum_rows_imap. apply wsum_ext. intros [[k a] w] _. cbn [fst snd foldr].
    etrans; [apply (wsum_rows_lookup (λ b, f (k, res a b) + 0))|]. destruct (mu !! k); cbn; lia.
  - intros k a a' b b' Ha Hb. constructor; [|done]. apply pair_cmp_eq. split; [apply cmp_refl|by apply Hres].
Qed.
Lemma represents_map {A B} `{OrdLaws A, OrdLaws B} t (m : gmap Key A) (h : Key → A → B) : represents t m →
  (∀ k v v', cmp v v' = Eq → cmp (h k v) (h k v') = Eq) →
  represents (map (λ e, ((fst (fst e), h (fst (fst e)) (snd (fst e))), snd e)) t) (map_imap (λ k v, Some (h k v)) m).
Proof.
  intros Ht Hh. unfold represents. etrans.
  - apply (weq_map ord_eq ord_eq (λ x, (fst x, h (fst x) (snd x)))); [|exact Ht].
    intros [k v] [k' v'] [E1 E2]%pair_cmp_eq. cbn [fst snd] in *. apply key_eq_iff in E1 as ->. apply pair_cmp_eq.
    split; [apply cmp_refl|by apply Hh].
  - intros f _. by rewrite (wsum_fmap f (λ x, (fst x, h (fst x) (snd x)))), wsum_rows_imap.
Qed.
Lemma distinct_represents {A} `{OrdLaws A} t (m : gmap Key A) : represents t m → represents (distinct t) m.
Proof.
  rewrite !represents_weight. intros Ht k v. rewrite distinct_weight, Ht.
  destruct (m !! k) as [a|]; [|done]. cbn [row_group]. rewrite weight_at_cons. unfold ord_eqb. by destruct (cmp v a).
Qed.
Lemma weight_at_neg {A} `{OrdLaws A} (c : list (A * Z)) x : weight_at (wneg c) x = - weight_at c x.
Proof. apply wsum_wneg. Qed.
Lemma row_group_diff (o p : option Value) v : p = None ∨ p = o →
  weight_at (row_group o) v - weight_at (row_group p) v = weight_at (row_group (match p with Some _ => None | None => o end)) v.
Proof. intros [->| ->]; [|destruct o]; cbn [row_group]; change (weight_at (@nil (Value * Z)) v) with 0; lia. Qed.

Lemma log_error_ok `{ErrorMode} e : terminate_on_error = false → log_error e = Ok tt.
Proof. intros Ht. unfold log_error. by rewrite Ht. Qed.
Lemma assert_keys_ok `{ErrorMode} ks t : terminate_on_error = false → assert_input_keys_match_output_keys ks t = Ok tt.
Proof.
  intros Ht. unfold assert_input_keys_match_output_keys.
  destruct (try_collect_total (λ e : Key * Z, log_error (if 0 <? snd e then KeyMissingInOutputTable (fst e) else KeyMissingInInputTable (fst e)))
    (λ _ _, True) (consolidate (ks ++ wneg (keys t)))) as (ys & Hys & _); [|by rewrite Hys].
  intros x _. exists tt. by rewrite log_error_ok.
Qed.
Lemma restrict_represents `{ErrorMode} ignore_asserts same t m u mu :
  terminate_on_error = false → represents t m → represents u mu →
  ∃ out, restrict_or_override_table_universe ignore_asserts t u same = Ok out ∧
    represents out (map_imap (λ k v, Some (VTuple [v; default VError (m !! k)])) mu).
Proof.
  intros Hterm Ht Hu. unfold restrict_or_override_table_universe.
  set (result := join_core u t _).
  assert (Hresult : represents result (map_imap (λ k v, (λ o, VTuple [v; o]) <$> m !! k) mu)).
  { apply represents_join; [done..|]. intros. apply value_tuple_eq. by repeat constructor. }
  set (first v := match v with VTuple (v :: _) => v | _ => VNone end).
  rewrite (map_coll_pure _ (λ row, (fst row, first (snd row)))).
  2: { intros e He. apply elem_of_join_core in He as (k & a & b & _ & _ & _ & _ & ->%list_elem_of_singleton). done. }
  cbn [mbind outcome_bind]. set (covered := map _ result).
  assert (Hcovered : represents covered (map_imap (λ k v, (λ _, v) <$> m !! k) mu)).
  { unfold covered, result, represents. etrans; [apply weq_eq_ord, (map_join_core (λ row : Key * Value, (fst row, first (snd row))))|].
    cbn [map fst snd first]. by apply (represents_join _ _ _ _ (λ v _, v)). }
  apply distinct_represents in Hcovered.
  assert (Hleft : represents (u ++ wneg (distinct covered)) (mu ∖ m)).
  { rewrite represents_weight in *. intros k v. rewrite weight_at_app, weight_at_neg, Hu, Hcovered, lookup_difference.
    rewrite map_lookup_imap, Z.add_opp_r, row_group_diff; [by destruct (m !! k), (mu !! k)|].
    destruct (m !! k), (mu !! k); cbn; auto. }
  set (leftover := consolidate _). assert (Hl : represents leftover (mu ∖ m)) by (unfold leftover, represents; by rewrite consolidate_weq).
  rewrite (map_coll_pure _ (λ row, (fst row, VTuple [snd row; VError]))) by (intros e _; by rewrite log_error_ok).
  cbn [mbind outcome_bind]. apply (represents_map _ _ (λ _ v, VTuple [v; VError])) in Hl.
  2: { intros. apply value_tuple_eq. by repeat constructor. }
  set (filled := map _ leftover) in *. exists (result ++ filled). split.
  - destruct (negb ignore_asserts && same); [by rewrite assert_keys_ok|done].
  - rewrite represents_weight in *. intros k v. rewrite weight_at_app, Hresult, Hl, !map_lookup_imap, lookup_difference.
    destruct (mu !! k) as [a|], (m !! k) as [b|]; cbn [mbind option_bind fmap option_fmap option_map default row_group from_option id];
      change (weight_at (@nil (Value * Z)) v) with 0; lia.
Qed.

(** ** The operators *)

(** C20: On tables with one row per key, however their rows were inserted and retracted,
    the operators on universes are the operations on maps: intersection keeps the rows
    whose keys are in every other table, subtraction those whose keys are not in the
    other, the update of rows is the right-biased union, and restriction or override
    pairs the new row with the old one, or with Error where there is none. None of them
    panics where errors are logged (terminate_on_error is off); in the default mode a
    restriction with a missing row panics. *)
Theorem universe_operations_are_map_operations `{ErrorMode} t m u mu others ms ignore_asserts same :
  terminate_on_error = false → represents t m → represents u mu → Forall2 represents others ms →
  represents (intersect_tables t others) (filter (λ kv, Forall (λ m', kv.1 ∈ dom m') ms) m) ∧
  represents (subtract_table t u) (m ∖ mu) ∧
  (∃ out, update_rows_table t u = Ok out ∧ represents out (mu ∪ m)) ∧
  (∃ out, restrict_or_override_table_universe ignore_asserts t u same = Ok out ∧
    represents out (map_imap (λ k v, Some (VTuple [v; default VError (m !! k)])) mu)).
Proof.
  intros Hterm Ht Hu Hothers. split; [by apply intersect_represents|]. split; [by apply subtract_represents|].
  split; [by apply update_rows_represents|by apply restrict_represents].
Qed.

Definition ex_key (k : Z) : Key := mk_Key k.
(** Row 2 was replaced, row 3 inserted and deleted. *)
Definition ex_table : list (Key * Value * Z) :=
  [(ex_key 1, VInt 10, 1); (ex_key 2, VInt 20, 1); (ex_key 3, VInt 30, 1); (ex_key 2, VInt 20, -1);
   (ex_key 2, VInt 21, 1); (ex_key 3, VInt 30, -1)].
Definition ex_map : gmap Key Value := {[ex_key 1 := VInt 10; ex_key 2 := VInt 21]}.
Definition ex_updates : list (Key * Value * Z) := [(ex_key 2, VInt 22, 1); (ex_key 4, VInt 40, 1)].
Definition ex_updates_map : gmap Key Value := {[ex_key 2 := VInt 22; ex_key 4 := VInt 40]}.
Lemma ex_table_eq : weq eq ex_table (rows_of ex_map).
Proof.
  assert (rows_of ex_map = [(ex_key 2, VInt 21, 1); (ex_key 1, VInt 10, 1)] ∨
    rows_of ex_map = [(ex_key 1, VInt 10, 1); (ex_key 2, VInt 21, 1)]) as [-> | ->] by (vm_compute; auto);
    intros f _; unfold wsum, ex_table; cbn [foldr fst snd]; lia.
Qed.
Lemma ex_updates_eq : weq eq ex_updates (rows_of ex_updates_map).
Proof.
  assert (rows_of ex_updates_map = [(ex_key 2, VInt 22, 1); (ex_key 4, VInt 40, 1)] ∨
    rows_of ex_updates_map = [(ex_key 4, VInt 40, 1); (ex_key 2, VInt 22, 1)]) as [-> | ->] by (vm_compute; auto);
    intros f _; unfold wsum, ex_updates; cbn [foldr fst snd]; lia.
Qed.
Lemma universe_operations_are_map_operations_witness :
  represents (subtract_table ex_table ex_updates) (ex_map ∖ ex_updates_map) ∧ ∃ out, @update_rows_table ex_table ex_updates = Ok out.
Proof.
  destruct (@universe_operations_are_map_operations false ex_table ex_map ex_updates ex_updates_map [ex_updates] [ex_updates_map] false true)
    as (_ & Hs & (out & Hout & _) & _).
  - reflexivity.
  - apply weq_eq_ord, ex_table_eq.
  - apply weq_eq_ord, ex_updates_eq.
  - repeat constructor. apply weq_eq_ord, ex_updates_eq.
  - split; [exact Hs|]. exists out. exact Hout.
Defined.

(** C31: Concatenating tables, or giving the rows of a table new keys (rows with an
    Error for a key are dropped), keeps the row of a key that occurs once and makes the
    row of a key that occurs more often Error, so that no key has two rows: where
    asserts are not ignored and errors are logged (terminate_on_error is off). With
    ignored asserts the code leaves the duplicates, and in the default mode it panics on
    them. *)
Theorem duplicate_keys_become_errors `{ErrorMode} : terminate_on_error = false →
  (∀ tables ms, Forall2 represents tables ms → ∃ out, concat_tables false tables = Ok out ∧
    represents out (deduplicate (λ _, VError) (concat (map map_to_list ms)))) ∧
  (∀ t m path (new_key : Key * Value → option Key), weq eq t (rows_of m) →
    (∀ e, e ∈ t → reindex_row path (fst e) = Ok (match new_key (fst e) with Some k => [(k, snd (fst e))] | None => [] end)) →
    ∃ out, reindex_table false t path = Ok out ∧
    represents out (deduplicate (λ _, VError) (omap (λ kv, k ← new_key kv; Some (k, snd kv)) (map_to_list m)))).
Proof.
  intros Hterm.
  assert (Hrepl : ∀ t items, weq ord_eq t (ones items) → ∃ out, replace_duplicates_with_error t (λ _, Ok VError) = Ok out ∧
    represents out (deduplicate (λ _, VError) items)).
  { intros t items Ht. apply replace_duplicates_represents; [done..|]. intros k v v' _ _. by exists VError. }
  split.
  - intros tables ms Hms. unfold concat_tables. apply Hrepl. induction Hms as [|t m ts ms Ht _ IH]; [done|].
    cbn [concat map]. unfold ones. rewrite map_app. by apply weq_app.
  - intros t m path new_key Ht Hrow. unfold reindex_table. set (f := λ x : Key * Value, match new_key x with Some k => [(k, snd x)] | None => [] end).
    rewrite (flat_map_coll_pure _ f _ Hrow). cbn [mbind outcome_bind].
    apply Hrepl, weq_eq_ord. etrans; [by apply (weq_flat_map eq f _ _ Ht)|]. rewrite rows_of_ones, flat_map_ones.
    assert (E : ∀ l, flat_map f l = omap (λ kv, k ← new_key kv; Some (k, snd kv)) l); [|by rewrite E]. unfold f.
    induction l as [|kv l IH]; [done|]. cbn. rewrite IH. by destruct (new_key kv).
Qed.
Definition ex_new_key (row : Key * Value) : option Key := match snd row with VTuple [VPointer p] => Some p | _ => None end.
Definition ex_pointers : list (Key * Value * Z) :=
  [(ex_key 1, VTuple [VPointer (ex_key 7)], 1); (ex_key 2, VTuple [VPointer (ex_key 8)], 1); (ex_key 3, VTuple [VPointer (ex_key 7)], 1);
   (ex_key 4, VTuple [VError], 1)].
Definition ex_pointers_map : gmap Key Value := list_to_map (map fst ex_pointers).
Lemma ex_pointers_eq : weq eq ex_pointers (rows_of ex_pointers_map).
Proof.
  apply weq_perm. unfold rows_of, ex_pointers_map. rewrite map_to_list_to_map; [done|].
  apply (bool_decide_unpack _). vm_compute. exact I.
Qed.
#[local] Instance ex_error_mode : ErrorMode := false.
Definition ex_reindexed : gmap Key Value :=
  deduplicate (λ _, VError) (omap (λ kv, k ← ex_new_key kv; Some (k, snd kv)) (map_to_list ex_pointers_map)).
Lemma duplicate_keys_become_errors_witness :
  (∃ out, reindex_table false ex_pointers (ValuePath [0%nat]) = Ok out ∧ represents out ex_reindexed) ∧
  ex_reindexed !! ex_key 7 = Some VError ∧ ex_reindexed !! ex_key 8 = Some (VTuple [VPointer (ex_key 8)]).
Proof.
  split.
  - apply (proj2 (duplicate_keys_become_errors eq_refl) ex_pointers ex_pointers_map (ValuePath [0%nat]) ex_new_key ex_pointers_eq).
    apply Forall_forall. repeat (constructor; [reflexivity|]). constructor.
  - split; vm_compute; reflexivity.
Defined.
