(* ===== verification/Join.v ===== *)
(** Indexing and joins (ix_table, join_tables and the rows of gradual_broadcast of
    src/engine/dataflow.rs, the policies of engine/graph.rs), on the collections of
    [Table.v]. *)
From Stdlib Require Import ZArith Lia Bool.
From stdpp Require Import base list strings.
From S2P Require Import Prelude Order Float Data Externals Value Weights Table.
Open Scope Z_scope.

Inductive JoinType := Inner | LeftOuter | RightOuter | FullOuter | LeftKeysSubset | LeftKeysFull.
Definition from_assign_left_right (assign_id left right : bool) : outcome GraphError JoinType :=
  match assign_id, left, right with
  | false, false, false => Ok Inner
  | true, false, false => Ok LeftKeysSubset
  | false, false, true => Ok RightOuter
  | false, true, false => Ok LeftOuter
  | true, true, false => Ok LeftKeysFull
  | false, true, true => Ok FullOuter
  | _, _, _ => Err BadJoinType
  end.
Inductive IxKeyPolicy := FailMissing | SkipMissing | ForwardNone.
Definition from_strict_optional (strict optional : bool) : outcome GraphError IxKeyPolicy :=
  match strict, optional with
  | false, false => Ok SkipMissing
  | false, true => Err BadIxKeyPolicy
  | true, false => Ok FailMissing
  | true, true => Ok ForwardNone
  end.

Section joins.
Context `{XxHash, Python, SerdeJson, Chrono, ErrorMode}.
Abbreviation Table := (Coll (Key * Value)).

(** ** Gradual broadcast: its rows *)

Definition trim_to_triplet (lower_path value_path upper_path : ColumnPath) (row : Key * Value)
    : outcome unit (Key * (f64 * f64 * f64)) :=
  let float path := v ← unwrap_with_reporter (extract path (fst row) (snd row)); unwrap_with_reporter (as_ordered_float v) in
  lower ← float lower_path;
  value ← float value_path;
  upper ← float upper_path;
  Ok (fst row, (lower, value, upper)).
Definition wrap_broadcast_result (row : Key * (Value * f64)) : Key * Value :=
  (fst row, VTuple [fst (snd row); VFloat (snd (snd row))]).

(** ** Indexing *)

Definition assert_collections_same_size {A B} (left : Coll A) (right : Coll B) : outcome unit unit :=
  _ ← try_collect (λ e : unit * Z, log_error ValueMissing)
        (let sum := foldr (λ e s, snd e + s) 0 right - foldr (λ e s, snd e + s) 0 left in
         if sum =? 0 then [] else [(tt, sum)]);
  Ok tt.
Definition ix_key (key_column_path : ColumnPath) (row : Key * Value) : outcome unit (Key * (Value * Value)) :=
  value ← unwrap_with_reporter (extract key_column_path (fst row) (snd row)); Ok (fst row, (snd row, value)).
Definition ix_pointer (policy : IxKeyPolicy) (row : Key * (Value * Value)) : outcome unit (list (Key * (Key * Value))) :=
  let '(key, (values, value)) := row in
  match policy with
  | FailMissing => pointer ← unwrap_with_reporter (as_pointer value); Ok [(pointer, (key, values))]
  | _ =>
      if Value_eqb value VNone then Ok []
      else pointer ← unwrap_with_reporter (as_pointer value); Ok [(pointer, (key, values))]
  end.
Definition ix_table (ignore_asserts : bool) (to_ix_table key_table : Table) (key_column_path : ColumnPath)
    (ix_key_policy : IxKeyPolicy) : outcome unit Table :=
  key_table_extracted ← map_coll (ix_key key_column_path) key_table;
  values_to_keys ← flat_map_coll (ix_pointer ix_key_policy) key_table_extracted;
  let new_table :=
    match ix_key_policy with
    | SkipMissing => join_core values_to_keys to_ix_table (λ _source_key kr to_ix_row, [(fst kr, to_ix_row)])
    | _ => join_core values_to_keys to_ix_table (λ _source_key kr to_ix_row, [(fst kr, VTuple [snd kr; to_ix_row])])
    end in
  new_table ← match ix_key_policy with
              | ForwardNone =>
                  none_keys ← flat_map_coll (λ row : Key * (Value * Value),
                    match snd (snd row) with
                    | VNone => Ok [(fst row, VTuple [fst (snd row); VNone])]
                    | _ => Ok []
                    end) key_table_extracted;
                  Ok (new_table ++ none_keys)
              | _ => Ok new_table
              end;
  _ ← (if negb ignore_asserts && match ix_key_policy with SkipMissing => false | _ => true end
       then assert_collections_same_size key_table new_table else Ok tt);
  Ok new_table.

(** ** Joins *)

Abbreviation KeyValues := (Key * Value)%type.
(** A join key is missing for a row with an error in its join columns. *)
Definition extract_join_key (key : Key) (values : Value) (column_paths : list ColumnPath) (shard_policy : ShardPolicy)
    : outcome unit (option Key) :=
  join_key_parts ← extract_all column_paths key values;
  match try_collect (λ v, map_err (λ _, ErrorInJoin) (into_result v)) join_key_parts with
  | Ok join_key_parts => join_key ← unwrap_with_reporter (generate_key shard_policy join_key_parts); Ok (Some join_key)
  | Err error => _ ← log_error error; Ok None
  | Panic p => Panic p
  end.
Definition with_join_key (t : Table) (column_paths : list ColumnPath) (shard_policy : ShardPolicy)
    : outcome unit (Coll (option Key * KeyValues)) :=
  map_coll (λ row, join_key ← extract_join_key (fst row) (snd row) column_paths shard_policy; Ok (join_key, row)) t.
Definition joined_rows (c : Coll (option Key * KeyValues)) : Coll (Key * KeyValues) :=
  flat_map (λ e, match fst (fst e) with Some join_key => [((join_key, snd (fst e)), snd e)] | None => [] end) c.

Definition left_right_key (join_type : JoinType) (join_key left_key right_key : Key) : outcome unit Key :=
  match join_type with
  | LeftKeysFull | LeftKeysSubset => Ok left_key
  | _ => k ← unwrap_with_reporter (for_values [VPointer left_key; VPointer right_key]); Ok (with_shard_of k join_key)
  end.
Definition left_right_row (join_type : JoinType) (row : Key * KeyValues * KeyValues) : outcome unit KeyValues :=
  let '(join_key, (left_key, left_values), (right_key, right_values)) := row in
  k ← left_right_key join_type join_key left_key right_key;
  Ok (k, VTuple [VPointer left_key; left_values; VPointer right_key; right_values]).
(** The rows of one side without a match: [distinct] takes those with one out. *)
Definition outer_rows (with_join_key : Coll (option Key * KeyValues)) (matched : Coll (Key * KeyValues))
    : Coll (option Key * KeyValues) :=
  with_join_key ++ map (λ e, ((Some (fst (fst e)), snd (fst e)), snd e)) (wneg (distinct matched)).
Definition left_outer_row (join_type : JoinType) (row : option Key * KeyValues) : outcome unit KeyValues :=
  let '(join_key, (left_key, left_values)) := row in
  result_key ← match join_type with
               | LeftKeysFull => Ok left_key
               | _ => k ← unwrap_with_reporter (for_values [VPointer left_key; VNone]);
                      Ok (with_shard_of k (default left_key join_key))
               end;
  Ok (result_key, VTuple [VPointer left_key; left_values; VNone; VNone]).
Definition right_outer_row (row : option Key * KeyValues) : outcome unit KeyValues :=
  let '(join_key, (right_key, right_values)) := row in
  k ← unwrap_with_reporter (for_values [VNone; VPointer right_key]);
  Ok (with_shard_of k (default right_key join_key), VTuple [VNone; VNone; VPointer right_key; right_values]).
(** What replaces the row of a left key with several matches. *)
Definition duplicated_left (value : Value) : outcome unit Value :=
  tuple ← unwrap_with_reporter (as_tuple value);
  left_key ← unwrap (tuple !! 0%nat);
  left_value ← unwrap (tuple !! 1%nat);
  Ok (VTuple [left_key; left_value; VError; VError]).

Definition has_left_outer (join_type : JoinType) : bool :=
  match join_type with LeftOuter | FullOuter | LeftKeysFull => true | _ => false end.
Definition has_right_outer (join_type : JoinType) : bool :=
  match join_type with RightOuter | FullOuter => true | _ => false end.
Definition keeps_left_keys (join_type : JoinType) : bool :=
  match join_type with LeftKeysFull | LeftKeysSubset => true | _ => false end.
Definition join_tables (left_table right_table : Table) (left_paths right_paths : list ColumnPath)
    (shard_policy : ShardPolicy) (join_type : JoinType) : outcome GraphError (outcome unit Table) :=
  if negb (Nat.eqb (length left_paths) (length right_paths)) then Err DifferentJoinConditionLengths
  else Ok (
    left_with_join_key ← with_join_key left_table left_paths shard_policy;
    right_with_join_key ← with_join_key right_table right_paths shard_policy;
    let join_left_right := join_core (joined_rows left_with_join_key) (joined_rows right_with_join_key)
      (λ join_key left_key right_key, [(join_key, left_key, right_key)]) in
    result_left_right ← map_coll (left_right_row join_type) join_left_right;
    result_left_right ←
      (if has_left_outer join_type then
         result_left_outer ← map_coll (left_outer_row join_type)
           (outer_rows left_with_join_key (map (λ e, ((fst (fst (fst e)), snd (fst (fst e))), snd e)) join_left_right));
         Ok (result_left_right ++ result_left_outer)
       else Ok result_left_right);
    result_left_right ←
      (if has_right_outer join_type then
         result_right_outer ← map_coll right_outer_row
           (outer_rows right_with_join_key (map (λ e, ((fst (fst (fst e)), snd (fst e)), snd e)) join_left_right));
         Ok (result_left_right ++ result_right_outer)
       else Ok result_left_right);
    if keeps_left_keys join_type then replace_duplicates_with_error result_left_right duplicated_left
    else Ok result_left_right).
End joins.
