(* ===== verification/JoinProps.v ===== *)
(** Indexing and joins against references on maps: a lookup, and the nested loops
    over the rows of both tables. *)
From Stdlib Require Import ZArith Lia Bool.
From stdpp Require Import base list sets sorting strings gmap.
From S2P Require Import Prelude Order Float Text Data Externals Instances Value Weights Expression Output Table TableProps Join.
Open Scope Z_scope.

(** ** Indexing *)

Section ix.
Context `{XxHash, Python, SerdeJson, Chrono, ErrorMode}.
Context (ptr : Key → Value → option Key).

(** The row of the result for a row of the table of keys. *)
Definition ix_row (policy : IxKeyPolicy) (mt : gmap Key Value) (k : Key) (v : Value) : option Value :=
  match ptr k v with
  | Some p => (λ r, match policy with SkipMissing => r | _ => VTuple [v; r] end) <$> mt !! p
  | None => match policy with ForwardNone => Some (VTuple [v; VNone]) | _ => None end
  end.
Definition ix_value (k : Key) (v : Value) : Value := match ptr k v with Some p => VPointer p | None => VNone end.

Lemma rows_of_total (m : gmap Key Value) : wsum (λ _, 1) (rows_of m) = Z.of_nat (size m).
Proof. rewrite rows_of_ones, ones_total. by rewrite length_map_to_list. Qed.
Lemma sum_weights {A} (c : list (A * Z)) : foldr (λ e s, snd e + s) 0 c = wsum (λ _, 1) c.
Proof. induction c as [|e c IH]; [done|]. cbn [foldr]. rewrite wsum_cons, IH. lia. Qed.
Lemma assert_same_size_ok {A B} (l : list (A * Z)) (r : list (B * Z)) :
  terminate_on_error = false ∨ wsum (λ _, 1) l = wsum (λ _, 1) r → assert_collections_same_size l r = Ok tt.
Proof.
  unfold assert_collections_same_size. rewrite !sum_weights. intros [Ht|Ht].
  - destruct (_ =? 0); cbn; [done|]. by rewrite log_error_ok.
  - rewrite Ht, Z.sub_diag. done.
Qed.

Definition ix_extracted (row : Key * Value) : Key * (Value * Value) := (fst row, (snd row, ix_value (fst row) (snd row))).
Definition ix_pointers (row : Key * (Value * Value)) : list (Key * (Key * Value)) :=
  match ptr (fst row) (fst (snd row)) with Some p => [(p, (fst row, fst (snd row)))] | None => [] end.
Definition ix_none_row (row : Key * (Value * Value)) : list (Key * Value) :=
  match snd (snd row) with VNone => [(fst row, VTuple [fst (snd row); VNone])] | _ => [] end.
Definition extracted_rows (key_table : list (Key * Value * Z)) := map (λ e, (ix_extracted (fst e), snd e)) key_table.

Lemma wsum_ix_pointers g key_table : wsum g (flat_map_rows ix_pointers (extracted_rows key_table)) =
  wsum (λ x, match ptr (fst x) (snd x) with Some p => g (p, (fst x, snd x)) | None => 0 end) key_table.
Proof.
  unfold flat_map_rows, extracted_rows. rewrite wsum_flat_map, (wsum_fmap _ ix_extracted). apply wsum_ext.
  intros [[k v] w] _. unfold ix_pointers. cbn [fst snd ix_extracted]. destruct (ptr k v); [|done]. cbn [foldr]. lia.
Qed.
Lemma wsum_ix_none f key_table : wsum f (flat_map_rows ix_none_row (extracted_rows key_table)) =
  wsum (λ x, match ptr (fst x) (snd x) with Some _ => 0 | None => f (fst x, VTuple [snd x; VNone]) end) key_table.
Proof.
  unfold flat_map_rows, extracted_rows. rewrite wsum_flat_map, (wsum_fmap _ ix_extracted). apply wsum_ext.
  intros [[k v] w] _. unfold ix_none_row, ix_value. cbn [fst snd ix_extracted].
  unfold ix_value. destruct (ptr k v); cbn [foldr fst snd]; [done|lia].
Qed.
Lemma wsum_ix_join f t m key_table mk (res : Key * Value → Value → Key * Value) :
  weq eq t (rows_of m) → weq eq key_table (rows_of mk) →
  wsum f (join_core (flat_map_rows ix_pointers (extracted_rows key_table)) t (λ _ kr r, [res kr r])) =
  wsum (λ x, match ptr (fst x) (snd x) with
    | Some p => match m !! p with Some r => f (res x r) | None => 0 end | None => 0 end) (rows_of mk).
Proof.
  intros Ht Hk. rewrite <- (Hk _ ltac:(by intros ?? ->)), wsum_join_core, wsum_ix_pointers. apply wsum_ext.
  intros [[k v] w] _. cbn [fst snd foldr]. destruct (ptr k v) as [p|]; [|done]. rewrite (Ht _ ltac:(by intros ?? ->)).
  rewrite (wsum_rows_lookup (λ r, f (res (k, v) r) + 0)). destruct (m !! p); [lia|done].
Qed.
(** What is asserted when sizes are compared: no row is missing. *)
Lemma ix_total policy m mk out : weq eq out (rows_of (map_imap (ix_row policy m) mk)) →
  (∀ k v, mk !! k = Some v → is_Some (ix_row policy m k v)) → wsum (λ _, 1) (rows_of mk) = wsum (λ _, 1) out.
Proof.
  intros Hout Hall. rewrite (Hout _ ltac:(by intros ?? ->)), wsum_rows_imap. apply wsum_ext.
  intros [[k v] w] Hin. cbn [fst snd]. unfold rows_of in Hin. apply list_elem_of_fmap in Hin as ([k' v'] & [= <- <- _] & Hin).
  apply elem_of_map_to_list in Hin. by destruct (Hall k v Hin) as [b ->].
Qed.
End ix.

(** ** Joins of collections *)

Section collections.
Context {A B C : Type}.
Implicit Types (l : list (Key * A * Z)) (r : list (Key * B * Z)).

Lemma wsum_swap {X Y} (g : X → Y → Z) (xs : list (X * Z)) (ys : list (Y * Z)) :
  wsum (λ x, wsum (g x) ys) xs = wsum (λ y, wsum (λ x, g x y) xs) ys.
Proof.
  induction xs as [|[x w] xs IH]; [symmetry; apply wsum_zero; by left|]. rewrite wsum_cons, IH. cbn [fst snd].
  rewrite Z.mul_comm, <- wsum_scale, <- wsum_plus. apply wsum_ext. intros y _. rewrite wsum_cons. cbn [fst snd]. lia.
Qed.
Lemma join_core_swap l r (res : Key → A → B → list C) : weq eq (join_core l r res) (join_core r l (λ k b a, res k a b)).
Proof.
  intros f _. rewrite !wsum_join_core, wsum_swap. apply wsum_ext. intros [[k b] w] _. apply wsum_ext.
  intros [[k' a] w'] _. cbn [fst snd]. destruct (decide (k' = k)) as [->|]; [by rewrite decide_True|by rewrite decide_False].
Qed.
Lemma join_core_weq_eq l l' r r' (res : Key → A → B → list C) : weq eq l l' → weq eq r r' →
  weq eq (join_core l r res) (join_core l' r' res).
Proof.
  intros Hl Hr f _. rewrite !wsum_join_core, (Hl _ ltac:(by intros ?? ->)). apply wsum_ext. intros x _. apply Hr. by intros ?? ->.
Qed.
Lemma wsum_ones {X} (f : X → Z) (xs : list X) : wsum f (ones xs) = foldr (λ x s, f x + s) 0 xs.
Proof. unfold ones. rewrite wsum_records. lia. Qed.
Lemma foldr_flat_map {X Y} (f : Y → Z) (g : X → list Y) (xs : list X) :
  foldr (λ y s, f y + s) 0 (flat_map g xs) = foldr (λ x s, foldr (λ y s, f y + s) 0 (g x) + s) 0 xs.
Proof.
  induction xs as [|x xs IH]; [done|]. cbn [flat_map foldr]. rewrite <- IH. induction (g x) as [|y ys IHy]; [done|]. cbn. lia.
Qed.
End collections.

Section rows.
Abbreviation KeyValues := (Key * Value)%type.
Implicit Types (ls rs : list KeyValues) (jl jr : KeyValues → option Key).

(** The rows of the other table with the join key. *)
Definition matches jr rs (join_key : Key) : list KeyValues := List.filter (λ r, bool_decide (jr r = Some join_key)) rs.
Definition unmatched jl jr rs (l : KeyValues) : bool :=
  match jl l with Some join_key => match matches jr rs join_key with [] => true | _ => false end | None => true end.
Definition keyed jl ls : list (option Key * KeyValues) := map (λ l, (jl l, l)) ls.

Lemma joined_rows_weq (c c' : list (option Key * KeyValues * Z)) : weq eq c c' → weq eq (joined_rows c) (joined_rows c').
Proof.
  intros Hc. set (f := λ row : option Key * KeyValues, match fst row with Some k => [(k, snd row)] | None => [] end).
  assert (E : ∀ c, joined_rows c = flat_map_rows f c).
  { clear. intros c. unfold joined_rows, flat_map_rows. apply flat_map_ext. intros [[[k|] row] w]; done. }
  rewrite !E. by apply weq_flat_map.
Qed.
(** A join of keyed rows visits the matches of every row. *)
Lemma wsum_join_rows {C} (f : C → Z) jl jr ls rs (res : Key → KeyValues → KeyValues → list C) :
  wsum f (join_core (joined_rows (ones (keyed jl ls))) (joined_rows (ones (keyed jr rs))) res) =
  foldr (λ l s, match jl l with
    | Some k => foldr (λ r s, foldr (λ c s, f c + s) 0 (res k l r) + s) 0 (matches jr rs k) | None => 0 end + s) 0 ls.
Proof.
  rewrite wsum_join_core. unfold keyed, ones. induction ls as [|l ls IH]; [done|]. cbn [map foldr]. rewrite <- IH. clear IH.
  unfold joined_rows at 2. cbn [flat_map fst snd]. fold (joined_rows (ones (keyed jl ls))). rewrite wsum_app.
  change (flat_map _ (map (λ x, (x, 1)) (map (λ l, (jl l, l)) ls))) with (joined_rows (map (λ x, (x, 1)) (map (λ l, (jl l, l)) ls))).
  f_equal. destruct (jl l) as [k|]; [|done]. rewrite wsum_cons. cbn [fst snd]. rewrite Z.mul_1_r.
  change (wsum _ []) with 0. rewrite Z.add_0_r. induction rs as [|r rs IH]; [done|]. cbn [map]. unfold joined_rows.
  cbn [flat_map fst snd]. rewrite wsum_app.
  change (flat_map _ (map (λ x, (x, 1)) (map (λ l, (jr l, l)) rs))) with (joined_rows (map (λ x, (x, 1)) (map (λ l, (jr l, l)) rs))).
  rewrite IH. unfold matches. cbn [List.filter]. destruct (jr r) as [k'|]; [|done].
  rewrite wsum_cons. cbn [fst snd]. change (wsum _ []) with 0.
  destruct (decide (k = k')) as [->|Hk]; [rewrite bool_decide_true by done|rewrite bool_decide_false by congruence]; cbn [foldr]; lia.
Qed.

Lemma NoDup_fst_eq ls l1 l2 : NoDup (map fst ls) → l1 ∈ ls → l2 ∈ ls → fst l1 = fst l2 → l1 = l2.
Proof.
  induction ls as [|l ls IH]; [by intros _ ?%elem_of_nil|]. cbn [map]. intros [Hn Hnd]%NoDup_cons.
  intros [->|H1]%elem_of_cons [->|H2]%elem_of_cons E; [done|..|by apply IH]; exfalso; apply Hn, list_elem_of_fmap; by eexists.
Qed.
Definition match_counts jl jr ls rs : list (Key * KeyValues * Z) :=
  omap (λ l, k ← jl l; Some ((k, l), Z.of_nat (length (matches jr rs k)))) ls.
Lemma elem_of_match_counts jl jr ls rs e : e ∈ match_counts jl jr ls rs →
  snd (fst e) ∈ ls ∧ jl (snd (fst e)) = Some (fst (fst e)) ∧ snd e = Z.of_nat (length (matches jr rs (fst (fst e)))).
Proof.
  intros (l & Hl & E)%list_elem_of_omap. destruct (jl l) as [k|] eqn:Hj; [|done]. cbn in E. by injection E as <-.
Qed.
Lemma match_counts_nodup jl jr ls rs : NoDup (map fst ls) → NoDup (match_counts jl jr ls rs).
Proof.
  induction ls as [|l ls IH]; [constructor|]. cbn [map]. intros [Hn Hnd]%NoDup_cons. unfold match_counts. cbn.
  fold (match_counts jl jr ls rs). destruct (jl l) as [k|]; cbn; [|by apply IH]. apply NoDup_cons. split; [|by apply IH].
  intros (Hl & _ & _)%elem_of_match_counts. cbn in Hl. apply Hn, list_elem_of_fmap. by eexists.
Qed.
Lemma matched_weq jl jr ls rs :
  weq eq (join_core (joined_rows (ones (keyed jl ls))) (joined_rows (ones (keyed jr rs))) (λ k l _, [(k, l)])) (match_counts jl jr ls rs).
Proof.
  intros f _. rewrite wsum_join_rows. unfold match_counts. induction ls as [|l ls IH]; [done|]. cbn [foldr] in IH |- *. rewrite IH.
  cbn [omap list_omap]. destruct (jl l) as [k|]; [|done]. cbn [mbind option_bind]. rewrite wsum_cons. cbn [fst snd]. f_equal.
  induction (matches jr rs k) as [|r ms IHm]; cbn [foldr length]; [lia|]. rewrite IHm. lia.
Qed.
Lemma outer_rows_weq jl jr ls rs c matched :
  weq eq c (ones (keyed jl ls)) → weq eq matched (match_counts jl jr ls rs) → NoDup (map fst ls) →
  weq ord_eq (outer_rows c matched) (ones (keyed jl (List.filter (unmatched jl jr rs) ls))).
Proof.
  intros Hc Hm Hnd. unfold outer_rows.
  assert (Hd : weq ord_eq (distinct matched) (map (λ e, (fst e, 1)) (List.filter (λ e, negb (snd e =? 0)) (match_counts jl jr ls rs)))).
  { apply distinct_weq; [by apply weq_eq_ord| |by apply match_counts_nodup].
    intros [[k1 l1] n1] [[k2 l2] n2] (H1 & E1 & N1)%elem_of_match_counts (H2 & E2 & N2)%elem_of_match_counts E.
    cbn [fst snd] in *. apply pair_cmp_eq in E as [_ [E _]%pair_cmp_eq]. cbn [fst snd] in E. apply key_eq_iff in E.
    assert (l1 = l2) as -> by (by apply (NoDup_fst_eq ls)). assert (k1 = k2) as -> by congruence. by subst. }
  intros f Hf. rewrite wsum_app, (wsum_fmap f (λ x : Key * KeyValues, (Some (fst x), snd x))), wsum_wneg.
  rewrite (Hc f ltac:(by intros ?? ->)), Hd.
  2: { intros [k1 l1] [k2 l2] [E1 E2]%pair_cmp_eq. apply Hf. apply pair_cmp_eq. split; [exact E1|exact E2]. }
  clear. unfold match_counts, keyed. rewrite !wsum_ones. unfold wsum. induction ls as [|l ls IH]; [done|].
  cbn [map foldr List.filter]. unfold unmatched at 1. cbn. destruct (jl l) as [k|] eqn:Hj; cbn [mbind option_bind].
  - cbn [List.filter snd]. destruct (matches jr rs k) as [|r ms]; cbn [length negb map foldr].
    + change (Z.of_nat 0 =? 0) with true. cbn [negb]. rewrite Hj. lia.
    + destruct (Z.eqb_spec (Z.of_nat (S (length ms))) 0); [lia|]. cbn [negb map foldr fst snd]. lia.
  - cbn [map foldr]. rewrite Hj. lia.
Qed.
End rows.

(** ** The reference join *)

Section join.
Context `{XxHash, Python, SerdeJson, Chrono, ErrorMode}.
Abbreviation KeyValues := (Key * Value)%type.
Implicit Types (ls rs : list KeyValues) (jl jr : KeyValues → option Key).

Definition the_key (values : list Value) : Key := match for_values values with Ok k => k | _ => mk_Key 0 end.
Definition pair_row (join_type : JoinType) (join_key : Key) (l r : KeyValues) : KeyValues :=
  (if keeps_left_keys join_type then fst l
   else with_shard_of (the_key [VPointer (fst l); VPointer (fst r)]) join_key,
   VTuple [VPointer (fst l); snd l; VPointer (fst r); snd r]).
Definition left_row (join_type : JoinType) (join_key : option Key) (l : KeyValues) : KeyValues :=
  (match join_type with
   | LeftKeysFull => fst l
   | _ => with_shard_of (the_key [VPointer (fst l); VNone]) (default (fst l) join_key)
   end, VTuple [VPointer (fst l); snd l; VNone; VNone]).
Definition right_row (join_key : option Key) (r : KeyValues) : KeyValues :=
  (with_shard_of (the_key [VNone; VPointer (fst r)]) (default (fst r) join_key), VTuple [VNone; VNone; VPointer (fst r); snd r]).

(** Nested loops, then the rows without a match. *)
Definition matching_rows jl jr ls rs : list (Key * KeyValues * KeyValues) :=
  flat_map (λ l, match jl l with Some k => map (λ r, (k, l, r)) (matches jr rs k) | None => [] end) ls.
Definition reference_join (join_type : JoinType) jl jr ls rs : list KeyValues :=
  map (λ x, pair_row join_type (fst (fst x)) (snd (fst x)) (snd x)) (matching_rows jl jr ls rs) ++
  (if has_left_outer join_type then map (λ l, left_row join_type (jl l) l) (List.filter (unmatched jl jr rs) ls) else []) ++
  (if has_right_outer join_type then map (λ r, right_row (jr r) r) (List.filter (unmatched jr jl ls) rs) else []).
(** What replaces the rows of a left row with several matches, when left keys are kept. *)
Definition ambiguous_row (ml : gmap Key Value) (k : Key) : Value := VTuple [VPointer k; default VNone (ml !! k); VError; VError].

Lemma left_right_row_ok jt x :
  left_right_row jt x = Ok (pair_row jt (fst (fst x)) (snd (fst x)) (snd x)).
Proof. destruct x as [[k [lk lv]] [rk rv]]. by destruct jt. Qed.
Lemma left_outer_row_ok jt x : left_outer_row jt x = Ok (left_row jt (fst x) (snd x)).
Proof. destruct x as [k [lk lv]]. by destruct jt. Qed.
Lemma right_outer_row_ok x : right_outer_row x = Ok (right_row (fst x) (snd x)).
Proof. by destruct x as [k [rk rv]]. Qed.
Lemma left_row_proper jt : Proper (ord_eq ==> ord_eq) (λ x : option Key * KeyValues, left_row jt (fst x) (snd x)).
Proof.
  intros [j1 [k1 v1]] [j2 [k2 v2]] [E1 [E2 E3]%pair_cmp_eq]%pair_cmp_eq. cbn [fst snd] in *.
  apply key_eq_iff in E2 as ->. assert (j1 = j2) as ->.
  { destruct j1, j2; try done. f_equal. by apply key_eq_iff. }
  apply pair_cmp_eq. split; [apply cmp_refl|]. apply value_tuple_eq. repeat constructor; [apply cmp_refl|done].
Qed.
Lemma right_row_proper : Proper (ord_eq ==> ord_eq) (λ x : option Key * KeyValues, right_row (fst x) (snd x)).
Proof.
  intros [j1 [k1 v1]] [j2 [k2 v2]] [E1 [E2 E3]%pair_cmp_eq]%pair_cmp_eq. cbn [fst snd] in *.
  apply key_eq_iff in E2 as ->. assert (j1 = j2) as ->.
  { destruct j1, j2; try done. f_equal. by apply key_eq_iff. }
  apply pair_cmp_eq. split; [apply cmp_refl|]. apply value_tuple_eq. repeat constructor; [apply cmp_refl|done].
Qed.

Lemma with_join_key_pure paths sp (j : KeyValues → option Key) (t : list (KeyValues * Z)) ls :
  (∀ e, e ∈ t → extract_join_key (fst (fst e)) (snd (fst e)) paths sp = Ok (j (fst e))) → weq eq t (ones ls) →
  ∃ c, with_join_key t paths sp = Ok c ∧ weq eq c (ones (keyed j ls)).
Proof.
  intros Hj Ht. unfold with_join_key. rewrite (map_coll_pure _ (λ row, (j row, row))).
  2: { intros [[k v] w] He. specialize (Hj _ He). cbn [fst snd] in *. by rewrite Hj. }
  eexists. split; [done|]. rewrite (weq_map eq eq (λ row, (j row, row)) _ _ ltac:(by intros ?? ->) Ht).
  by rewrite (map_ones (λ row, (j row, row))).
Qed.
Lemma map_outer (logic : option Key * KeyValues → outcome unit KeyValues) (f : option Key * KeyValues → KeyValues) jl jr ls rs c matched :
  (∀ x, logic x = Ok (f x)) → Proper (ord_eq ==> ord_eq) f → weq eq c (ones (keyed jl ls)) →
  weq eq matched (match_counts jl jr ls rs) → NoDup (map fst ls) →
  ∃ out, map_coll logic (outer_rows c matched) = Ok out ∧
    weq ord_eq out (ones (map (λ l, f (jl l, l)) (List.filter (unmatched jl jr rs) ls))).
Proof.
  intros Hlogic Hf Hc Hm Hnd. rewrite (map_coll_pure _ f) by (intros; apply Hlogic). eexists. split; [done|].
  etrans; [by apply (weq_map ord_eq ord_eq f); [done|apply outer_rows_weq]|]. rewrite map_ones. unfold keyed. by rewrite map_map.
Qed.

Section result.
Context (jl jr : KeyValues → option Key) (ls rs : list KeyValues) (cl cr : list (option Key * KeyValues * Z)).
Context (Hcl : weq eq cl (ones (keyed jl ls))) (Hcr : weq eq cr (ones (keyed jr rs))).
Let joined := join_core (joined_rows cl) (joined_rows cr) (λ join_key left_key right_key, [(join_key, left_key, right_key)]).

Lemma joined_matching : weq eq joined (ones (matching_rows jl jr ls rs)).
Proof.
  unfold joined. rewrite (join_core_weq_eq _ _ _ _ _ (joined_rows_weq _ _ Hcl) (joined_rows_weq _ _ Hcr)).
  intros f _. rewrite wsum_join_rows, wsum_ones. unfold matching_rows. rewrite foldr_flat_map. clear.
  induction ls as [|l ls' IH]; [done|]. cbn [foldr] in IH |- *. rewrite IH. f_equal. destruct (jl l) as [k|]; [|done].
  induction (matches jr rs k) as [|r ms IHm]; [done|]. cbn [map foldr] in *. rewrite IHm. lia.
Qed.
Lemma matched_left : weq eq (map (λ e, ((fst (fst (fst e)), snd (fst (fst e))), snd e)) joined) (match_counts jl jr ls rs).
Proof.
  unfold joined. etrans; [apply (map_join_core (λ x : Key * KeyValues * KeyValues, (fst (fst x), snd (fst x))))|].
  cbn [map fst snd]. etrans; [|apply matched_weq]. apply join_core_weq_eq; by apply joined_rows_weq.
Qed.
Lemma matched_right : weq eq (map (λ e, ((fst (fst (fst e)), snd (fst e)), snd e)) joined) (match_counts jr jl rs ls).
Proof.
  unfold joined. etrans; [apply (map_join_core (λ x : Key * KeyValues * KeyValues, (fst (fst x), snd x)))|].
  cbn [map fst snd]. etrans; [apply join_core_swap|]. etrans; [|apply matched_weq].
  apply join_core_weq_eq; by apply joined_rows_weq.
Qed.
End result.

Lemma keeps_left_right_outer jt : keeps_left_keys jt = true → has_right_outer jt = false.
Proof. by destruct jt. Qed.
Lemma reference_left_keys jt jl jr ls rs k v : keeps_left_keys jt = true → (k, v) ∈ reference_join jt jl jr ls rs →
  ∃ lv c d, (k, lv) ∈ ls ∧ v = VTuple [VPointer k; lv; c; d].
Proof.
  intros Hjt. unfold reference_join. rewrite keeps_left_right_outer, app_nil_r by done. intros [Hin|Hin]%elem_of_app.
  - apply list_elem_of_fmap in Hin as ([[jk l] r] & E & Hin). unfold pair_row in E. rewrite Hjt in E. cbn [fst snd] in E.
    injection E as -> ->. unfold matching_rows in Hin. rewrite list_elem_of_In in Hin.
    apply in_flat_map in Hin as (l' & Hl & Hin). apply list_elem_of_In in Hl.
    destruct (jl l') as [k'|]; [|done]. apply list_elem_of_In, list_elem_of_fmap in Hin as (r' & [= -> -> ->] & _).
    exists (snd l'), (VPointer (fst r')), (snd r'). by destruct l'.
  - destruct jt; try done; cbn [has_left_outer] in Hin; [by apply elem_of_nil in Hin|]. apply list_elem_of_fmap in Hin as (l & [= -> ->] & Hin).
    apply list_elem_of_In, filter_In in Hin as [Hin _]. exists (snd l), VNone, VNone. split; [|done].
    apply list_elem_of_In. by destruct l.
Qed.
Lemma duplicated_left_spec jt jl jr ml rs : keeps_left_keys jt = true →
  error_logic_spec duplicated_left (ambiguous_row ml) (reference_join jt jl jr (map_to_list ml) rs).
Proof.
  intros Hjt k v v' (lv & c & d & Hl & ->)%reference_left_keys E; [|done]. apply elem_of_map_to_list in Hl.
  destruct v'; try done. change (list_cmp Value_cmp vals [VPointer k; lv; c; d] = Eq) in E.
  apply list_cmp_eq_Forall2 in E. inversion E as [|a ? vals1 ? Ha E1]; subst. inversion E1 as [|b ? vals2 ? Hb _]; subst.
  exists (VTuple [a; b; VError; VError]). split; [done|]. unfold ambiguous_row. rewrite Hl. apply value_tuple_eq.
  repeat constructor; done.
Qed.

Lemma join_tables_spec tl tr ml mr lp rp sp jt jl jr :
  length lp = length rp → weq eq tl (rows_of ml) → weq eq tr (rows_of mr) →
  (∀ e, e ∈ tl → extract_join_key (fst (fst e)) (snd (fst e)) lp sp = Ok (jl (fst e))) →
  (∀ e, e ∈ tr → extract_join_key (fst (fst e)) (snd (fst e)) rp sp = Ok (jr (fst e))) →
  let reference := reference_join jt jl jr (map_to_list ml) (map_to_list mr) in
  ∃ c, weq ord_eq c (ones reference) ∧ join_tables tl tr lp rp sp jt =
    Ok (if keeps_left_keys jt then replace_duplicates_with_error c duplicated_left else Ok c).
Proof.
  intros Hlen Htl Htr Hjl Hjr. cbv zeta. unfold join_tables. rewrite Hlen, Nat.eqb_refl. cbn [negb].
  rewrite rows_of_ones in Htl, Htr.
  destruct (with_join_key_pure lp sp jl tl _ Hjl Htl) as (cl & -> & Hcl).
  destruct (with_join_key_pure rp sp jr tr _ Hjr Htr) as (cr & -> & Hcr). cbn [mbind outcome_bind].
  pose proof (joined_matching _ _ _ _ _ _ Hcl Hcr) as Hjoin. pose proof (matched_left _ _ _ _ _ _ Hcl Hcr) as Hml.
  pose proof (matched_right _ _ _ _ _ _ Hcl Hcr) as Hmr. cbv zeta in Hjoin, Hml, Hmr |- *.
  set (joined := join_core _ _ _) in *.
  set (pair := λ x : Key * KeyValues * KeyValues, pair_row jt (fst (fst x)) (snd (fst x)) (snd x)).
  rewrite (map_coll_pure _ pair) by (intros; apply left_right_row_ok). cbn [mbind outcome_bind].
  set (pairs := map (λ e, (pair (fst e), snd e)) joined).
  assert (Hpairs : weq ord_eq pairs (ones (map pair (matching_rows jl jr (map_to_list ml) (map_to_list mr))))).
  { apply weq_eq_ord. unfold pairs. rewrite <- map_ones. by apply (weq_map eq eq pair _ _ ltac:(by intros ?? ->)). }
  destruct (map_outer (left_outer_row jt) _ jl jr _ _ _ _ (left_outer_row_ok jt) (left_row_proper jt) Hcl Hml
    (NoDup_fst_map_to_list ml)) as (lo & Elo & Hlo).
  destruct (map_outer right_outer_row _ jr jl _ _ _ _ right_outer_row_ok right_row_proper Hcr Hmr
    (NoDup_fst_map_to_list mr)) as (ro & Ero & Hro).
  exists (pairs ++ (if has_left_outer jt then lo else []) ++ (if has_right_outer jt then ro else [])). split.
  - unfold reference_join, ones. rewrite !map_app. apply weq_app; [exact Hpairs|]. apply weq_app.
    + by destruct (has_left_outer jt).
    + by destruct (has_right_outer jt).
  - f_equal. destruct (has_left_outer jt), (has_right_outer jt); rewrite ?Elo, ?Ero; cbn [mbind outcome_bind];
      rewrite ?Ero; cbn [mbind outcome_bind]; rewrite ?app_nil_r, ?app_nil_l, <- ?app_assoc; done.
Qed.
End join.

(** ** The operators *)

Section claims.
Context `{XxHash, Python, SerdeJson, Chrono, ErrorMode}.

(** C12: Indexing is a lookup: every row of the table of keys gets the row that its
    pointer names, or None under the policy that forwards None, and the rows without one
    are dropped. The column of the keys holds a pointer, or None where the policy admits
    it (any other value, Error included, panics in every mode and is excluded here); and
    sizes are not asserted, or errors are logged, or every pointer names a row
    (otherwise the code panics). *)
Theorem ix_table_looks_up ignore_asserts policy path ptr t m key_table mk :
  weq eq t (rows_of m) → weq eq key_table (rows_of mk) →
  (∀ e, e ∈ key_table → extract path (fst (fst e)) (snd (fst e)) = Ok (ix_value ptr (fst (fst e)) (snd (fst e))) ∧
    (policy = FailMissing → is_Some (ptr (fst (fst e)) (snd (fst e))))) →
  ignore_asserts = true ∨ terminate_on_error = false ∨ (∀ k v, mk !! k = Some v → is_Some (ix_row ptr policy m k v)) →
  ∃ out, ix_table ignore_asserts t key_table path policy = Ok out ∧ weq eq out (rows_of (map_imap (ix_row ptr policy m) mk)).
Proof.
  intros Ht Hk Hptr Hassert. unfold ix_table. rewrite (map_coll_pure _ (ix_extracted ptr)).
  2: { intros [[k v] w] He. destruct (Hptr _ He) as [E _]. unfold ix_key. cbn [fst snd] in *. by rewrite E. }
  cbn [mbind outcome_bind]. fold (extracted_rows ptr key_table). rewrite (flat_map_coll_pure _ (ix_pointers ptr)).
  2: { intros e He. apply list_elem_of_fmap in He as ([[k v] w] & -> & He). cbn [fst snd]. destruct (Hptr _ He) as [_ Hf].
    unfold ix_pointer, ix_pointers, ix_extracted, ix_value. cbn [fst snd] in *. destruct (ptr k v) as [p|]; [by destruct policy|].
    destruct policy; [|done..]. by destruct (Hf eq_refl). }
  cbn [mbind outcome_bind]. cbv zeta.
  match goal with |- ∃ out, mbind _ ?rows = _ ∧ _ => assert (Hrows : ∃ out, rows = Ok out ∧
    weq eq out (rows_of (map_imap (ix_row ptr policy m) mk))) end.
  { destruct policy.
    1, 2: eexists; (split; [done|]); intros f _; rewrite (wsum_ix_join _ _ _ _ _ _ _ Ht Hk), wsum_rows_imap; apply wsum_ext;
      intros [[k v] w] _; unfold ix_row; cbn [fst snd]; destruct (ptr k v) as [p|]; [|done]; by destruct (m !! p).
    rewrite (flat_map_coll_pure _ ix_none_row) by (intros [[k [v x]] w] _; by destruct x). cbn [mbind outcome_bind].
    eexists. split; [done|]. intros f _.
    rewrite wsum_app, (wsum_ix_join _ _ _ _ _ _ (λ kr r, (fst kr, VTuple [snd kr; r])) Ht Hk), wsum_ix_none.
    rewrite (Hk _ ltac:(by intros ?? ->)), <- wsum_plus, wsum_rows_imap. apply wsum_ext. intros [[k v] w] _.
    unfold ix_row. cbn [fst snd]. destruct (ptr k v) as [p|]; [|lia]. destruct (m !! p); cbn; lia. }
  destruct Hrows as (out & -> & Hout). cbn [mbind outcome_bind]. exists out. split; [|done].
  destruct (negb ignore_asserts && _) eqn:Ea; [|done]. apply andb_prop in Ea as [Ei Ep].
  rewrite assert_same_size_ok; [done|]. destruct Hassert as [-> |[->|Hall]]; [done|by left|right].
  rewrite (Hk _ ltac:(by intros ?? ->)). by apply (ix_total ptr policy m).
Qed.

(** C8: A join of two tables, however their rows were inserted and retracted, has the
    rows of nested loops over the tables, each once: a row for every pair with equal
    join keys, a row for every row of an outer side that matches nothing or has no join
    key, under the keys the type of the join asks for. Where the left keys are kept,
    this is shown where errors are logged (terminate_on_error is off): a left row with
    several matches is then one row of Errors, while the code panics there in the
    default mode. Every row has values for its join columns, and both sides have equally
    many of them. *)
Theorem join_tables_is_nested_loops tl tr ml mr lp rp sp jt jl jr :
  length lp = length rp → weq eq tl (rows_of ml) → weq eq tr (rows_of mr) →
  (∀ e, e ∈ tl → extract_join_key (fst (fst e)) (snd (fst e)) lp sp = Ok (jl (fst e))) →
  (∀ e, e ∈ tr → extract_join_key (fst (fst e)) (snd (fst e)) rp sp = Ok (jr (fst e))) →
  let reference := reference_join jt jl jr (map_to_list ml) (map_to_list mr) in
  (keeps_left_keys jt = false → ∃ out, join_tables tl tr lp rp sp jt = Ok (Ok out) ∧ weq ord_eq out (ones reference)) ∧
  (keeps_left_keys jt = true → terminate_on_error = false →
    ∃ out, join_tables tl tr lp rp sp jt = Ok (Ok out) ∧ represents out (deduplicate (ambiguous_row ml) reference)).
Proof.
  intros Hlen Htl Htr Hjl Hjr reference.
  destruct (join_tables_spec tl tr ml mr lp rp sp jt jl jr) as (c & Hc & E); [done..|]. fold reference in Hc. rewrite E. split.
  - intros ->. by exists c.
  - intros Hjt Hterm. rewrite Hjt.
    destruct (replace_duplicates_represents duplicated_left (ambiguous_row ml) c reference) as (out & -> & Hout);
      [done|done|by apply duplicated_left_spec|]. by exists out.
Qed.
End claims.

(** *** Examples *)

Import Concrete.
#[local] Instance ex_errors : ErrorMode := false.
Definition ex_ptr (k : Key) (v : Value) : option Key := match v with VTuple [VPointer p] => Some p | _ => None end.
Definition ex_keys : list (Key * Value * Z) :=
  [(ex_key 5, VTuple [VPointer (ex_key 2)], 1); (ex_key 6, VTuple [VPointer (ex_key 3)], 1); (ex_key 7, VTuple [VNone], 1)].
Definition ex_keys_map : gmap Key Value := list_to_map (map fst ex_keys).
Lemma ex_keys_eq : weq eq ex_keys (rows_of ex_keys_map).
Proof.
  apply weq_perm. unfold rows_of, ex_keys_map. rewrite map_to_list_to_map; [done|].
  apply (bool_decide_unpack _). vm_compute. exact I.
Qed.
Lemma ix_table_looks_up_witness :
  (∃ out, ix_table false ex_table ex_keys (ValuePath [0%nat]) ForwardNone = Ok out ∧
    weq eq out (rows_of (map_imap (ix_row ex_ptr ForwardNone ex_map) ex_keys_map))) ∧
  map_imap (ix_row ex_ptr ForwardNone ex_map) ex_keys_map =
    {[ex_key 5 := VTuple [VTuple [VPointer (ex_key 2)]; VInt 21]; ex_key 7 := VTuple [VTuple [VNone]; VNone]]}.
Proof.
  split.
  - apply (ix_table_looks_up false ForwardNone (ValuePath [0%nat]) ex_ptr ex_table ex_map ex_keys ex_keys_map ex_table_eq ex_keys_eq).
    + apply Forall_forall. repeat (constructor; [split; [reflexivity|discriminate]|]). constructor.
    + right. left. reflexivity.
  - vm_compute. reflexivity.
Defined.

Definition ex_left : list (Key * Value * Z) :=
  [(ex_key 1, VTuple [VInt 10], 1); (ex_key 2, VTuple [VInt 11], 1); (ex_key 3, VTuple [VError], 1)].
Definition ex_right : list (Key * Value * Z) :=
  [(ex_key 5, VTuple [VInt 10], 1); (ex_key 6, VTuple [VInt 10], 1); (ex_key 7, VTuple [VInt 12], 1)].
Definition ex_left_map : gmap Key Value := list_to_map (map fst ex_left).
Definition ex_right_map : gmap Key Value := list_to_map (map fst ex_right).
Lemma ex_left_eq : weq eq ex_left (rows_of ex_left_map).
Proof.
  apply weq_perm. unfold rows_of, ex_left_map. rewrite map_to_list_to_map; [done|].
  apply (bool_decide_unpack _). vm_compute. exact I.
Qed.
Lemma ex_right_eq : weq eq ex_right (rows_of ex_right_map).
Proof.
  apply weq_perm. unfold rows_of, ex_right_map. rewrite map_to_list_to_map; [done|].
  apply (bool_decide_unpack _). vm_compute. exact I.
Qed.
Definition ex_join_key (row : Key * Value) : option Key :=
  match snd row with VTuple [VInt i] => Some (the_key [VInt i]) | _ => None end.
Definition ex_left_keys : gmap Key Value :=
  deduplicate (ambiguous_row ex_left_map) (reference_join LeftKeysFull ex_join_key ex_join_key (map_to_list ex_left_map) (map_to_list ex_right_map)).
Lemma join_tables_is_nested_loops_witness :
  (∃ out, join_tables ex_left ex_right [ValuePath [0%nat]] [ValuePath [0%nat]] WholeKey FullOuter = Ok (Ok out) ∧
    weq ord_eq out (ones (reference_join FullOuter ex_join_key ex_join_key (map_to_list ex_left_map) (map_to_list ex_right_map)))) ∧
  (∃ out, join_tables ex_left ex_right [ValuePath [0%nat]] [ValuePath [0%nat]] WholeKey LeftKeysFull = Ok (Ok out) ∧
    represents out ex_left_keys) ∧
  ex_left_keys !! ex_key 1 = Some (VTuple [VPointer (ex_key 1); VTuple [VInt 10]; VError; VError]) ∧
  ex_left_keys !! ex_key 2 = Some (VTuple [VPointer (ex_key 2); VTuple [VInt 11]; VNone; VNone]).
Proof.
  assert (Hl : ∀ e, e ∈ ex_left → extract_join_key (fst (fst e)) (snd (fst e)) [ValuePath [0%nat]] WholeKey = Ok (ex_join_key (fst e))).
  { apply Forall_forall. repeat (constructor; [vm_compute; reflexivity|]). constructor. }
  assert (Hr : ∀ e, e ∈ ex_right → extract_join_key (fst (fst e)) (snd (fst e)) [ValuePath [0%nat]] WholeKey = Ok (ex_join_key (fst e))).
  { apply Forall_forall. repeat (constructor; [vm_compute; reflexivity|]). constructor. }
  split; [|split; [|split; vm_compute; reflexivity]].
  - apply (proj1 (join_tables_is_nested_loops _ _ _ _ _ _ WholeKey FullOuter _ _ eq_refl ex_left_eq ex_right_eq Hl Hr)). reflexivity.
  - apply (proj2 (join_tables_is_nested_loops _ _ _ _ _ _ WholeKey LeftKeysFull _ _ eq_refl ex_left_eq ex_right_eq Hl Hr)); reflexivity.
Defined.
