(* ===== verification/Files.v ===== *)
(** The connectors of the file system (FilesystemScanner, FilesystemReader and
    CsvFilesystemReader of src/connectors/data_storage.rs, metadata.rs).

    The file system is a map from paths to entries; it is part of the state, since
    the scanner keeps copies of the files in a cache directory, and it may be another
    one at the next call, but does not change during a call.  A file that is open is
    read through a descriptor: what each [read] gets are the bytes the file has then,
    after those that were buffered before.  [read] is one turn of the loop of
    the source's [read]: it returns [None] where the source sleeps and looks again.
    Paths are normalized, with [/] between their components; glob patterns and CSV are
    those of the crates glob and csv, as parameters. *)
From Stdlib Require Import ZArith Lia Bool Ascii.
From stdpp Require Import base list strings gmap.
From S2P Require Import Prelude Effects Order Text Data Externals Value Timestamp Snapshot Connector DataFormat.
Open Scope Z_scope.

(** ** The file system *)

Inductive IoError := NotFound | OtherIo.
Record FileMeta := mk_FileMeta { fm_modified : option Z; fm_created : option Z; fm_owner : option string }.
Inductive FsEntry :=
| FsFile (contents : list Z) (meta : FileMeta)
| FsDirectory (meta : FileMeta)
| FsDenied.
(** Times are nanoseconds since the epoch.  [open_files]: what the files that were
    opened contain now, by descriptor, [None] where reading fails; a path may have got
    another file since, or none. *)
Record World := mk_World { files : gmap string FsEntry; clock : Z; open_files : list (option (list Z)) }.
Definition with_files (f : gmap string FsEntry) (w : World) : World := mk_World f (clock w) (open_files w).

Definition fs_metadata (w : World) (path : string) : outcome IoError FileMeta :=
  match files w !! path with
  | None => Err NotFound
  | Some FsDenied => Err OtherIo
  | Some (FsFile _ meta) | Some (FsDirectory meta) => Ok meta
  end.
Definition fs_modified (meta : FileMeta) : outcome IoError Z := ok_or (fm_modified meta) OtherIo.
Definition is_file (w : World) (path : string) : bool := match files w !! path with Some (FsFile _ _) => true | _ => false end.
Definition path_exists (w : World) (path : string) : bool := match fs_metadata w path with Ok _ => true | _ => false end.
Definition fs_contents (w : World) (path : string) : outcome IoError (list Z) :=
  match files w !! path with
  | None => Err NotFound
  | Some (FsFile contents _) => Ok contents
  | Some _ => Err OtherIo
  end.
(** [File::open]: a new descriptor. *)
Definition fs_open (w : World) (path : string) : outcome IoError (nat * World) :=
  contents ← fs_contents w path;
  Ok (length (open_files w), mk_World (files w) (clock w) (open_files w ++ [Some contents])).
Definition fs_read (w : World) (descriptor : nat) : option (list Z) := mjoin (open_files w !! descriptor).
Definition fs_copy (w : World) (from to : string) : outcome IoError World :=
  contents ← fs_contents w from;
  match files w !! to with
  | Some FsDenied | Some (FsDirectory _) => Err OtherIo
  | _ => Ok (with_files (<[to := FsFile contents (mk_FileMeta (Some (clock w)) (Some (clock w)) None)]> (files w)) w)
  end.
Definition fs_remove_file (w : World) (path : string) : outcome IoError World :=
  match files w !! path with
  | None => Err NotFound
  | Some (FsFile _ _) => Ok (with_files (delete path (files w)) w)
  | Some _ => Err OtherIo
  end.
(** [duration_since(UNIX_EPOCH)], in whole seconds. *)
Definition unix_secs (t : Z) : option Z := if 0 <=? t then Some (t / 1000000000) else None.
Definition expect_unix_secs {E} (t : Z) : outcome E Z :=
  match unix_secs t with Some s => Ok s | None => Panic "System time should be after the Unix epoch" end.
Definition path_join (root name : string) : string := root +:+ "/" +:+ name.
(** [Ord for Path]: by components. *)
Definition path_cmp (a b : string) : comparison := cmp (split_on "/" a) (split_on "/" b).

(** The crate glob: whether a pattern is valid, and the paths that match it (entries
    with errors are dropped). *)
Class Glob := {
  glob_valid : string → bool;
  glob_paths : World → string → list string
}.

(** ** Metadata of a source *)

Record SourceMetadata := mk_SourceMetadata {
  created_at : option Z;
  modified_at : option Z;
  owner : option string;
  sm_path : string;
  seen_at : Z
}.
Definition metadata_time_to_unix_timestamp (timestamp : option Z) : option Z := t ← timestamp; unix_secs t.
Definition current_unix_timestamp_secs {E} (w : World) : outcome E Z :=
  match unix_secs (clock w) with Some s => Ok s | None => Panic "Failed to get the current timestamp" end.
Definition from_fs_meta {E} (w : World) (path : string) (meta : FileMeta) : outcome E SourceMetadata :=
  seen ← current_unix_timestamp_secs w;
  Ok (mk_SourceMetadata (metadata_time_to_unix_timestamp (fm_created meta))
        (metadata_time_to_unix_timestamp (fm_modified meta)) (fm_owner meta) path seen).

Inductive ReaderError :=
| RdIo (e : IoError)
| RdGlobPattern
| RdCsv.
Definition io {A} (o : outcome IoError A) : outcome ReaderError A := map_err RdIo o.

(** ** The scanner *)

Inductive ConnectorMode := Static | Streaming.
Definition is_polling_enabled (m : ConnectorMode) : bool := match m with Static => false | Streaming => true end.
Definition are_deletions_enabled (m : ConnectorMode) : bool := match m with Static => false | Streaming => true end.

Inductive PosixScannerAction := ActRead (path : string) | ActDelete (path : string).
Record FilesystemScanner := mk_FilesystemScanner {
  path : string;
  cache_directory_path : option string;
  streaming_mode : ConnectorMode;
  object_pattern : string;
  known_files : gmap string Z;
  current_action : option PosixScannerAction;
  cached_modify_times : gmap string (option Z);
  next_file_for_insertion : option string;
  cached_metadata : gmap string (option SourceMetadata)
}.
Definition with_known_files (k : gmap string Z) (s : FilesystemScanner) : FilesystemScanner :=
  mk_FilesystemScanner (path s) (cache_directory_path s) (streaming_mode s) (object_pattern s) k (current_action s)
    (cached_modify_times s) (next_file_for_insertion s) (cached_metadata s).
Definition with_current_action (a : option PosixScannerAction) (s : FilesystemScanner) : FilesystemScanner :=
  mk_FilesystemScanner (path s) (cache_directory_path s) (streaming_mode s) (object_pattern s) (known_files s) a
    (cached_modify_times s) (next_file_for_insertion s) (cached_metadata s).
Definition with_cached_modify_times (c : gmap string (option Z)) (s : FilesystemScanner) : FilesystemScanner :=
  mk_FilesystemScanner (path s) (cache_directory_path s) (streaming_mode s) (object_pattern s) (known_files s) (current_action s)
    c (next_file_for_insertion s) (cached_metadata s).
Definition with_next_file_for_insertion (f : option string) (s : FilesystemScanner) : FilesystemScanner :=
  mk_FilesystemScanner (path s) (cache_directory_path s) (streaming_mode s) (object_pattern s) (known_files s) (current_action s)
    (cached_modify_times s) f (cached_metadata s).
Definition with_cached_metadata (m : gmap string (option SourceMetadata)) (s : FilesystemScanner) : FilesystemScanner :=
  mk_FilesystemScanner (path s) (cache_directory_path s) (streaming_mode s) (object_pattern s) (known_files s) (current_action s)
    (cached_modify_times s) (next_file_for_insertion s) m.

Section scanner.
Context `{XxHash, Glob}.

(** [cache_directory]: the directory made for the cache, where deletions need one. *)
Definition scanner_new (path cache_directory : string) (streaming_mode : ConnectorMode) (object_pattern : string)
    : outcome ReaderError FilesystemScanner :=
  if glob_valid path then
    Ok (mk_FilesystemScanner path (if are_deletions_enabled streaming_mode then Some cache_directory else None)
          streaming_mode object_pattern ∅ None ∅ None ∅)
  else Err RdGlobPattern.

Definition has_planned_insertion (s : FilesystemScanner) : bool :=
  match next_file_for_insertion s with Some _ => true | None => false end.
Definition data_event_type (s : FilesystemScanner) : option DataEventType :=
  match current_action s with Some (ActRead _) => Some DeInsert | Some (ActDelete _) => Some DeDelete | None => None end.
Definition cached_file_path (s : FilesystemScanner) (path : string) : option string :=
  (λ root, path_join root (int_to_string (digest128 (string_bytes path)))) <$> cache_directory_path s.
Definition current_file (s : FilesystemScanner) : option string :=
  match current_action s with
  | Some (ActRead path) => Some path
  | Some (ActDelete path) => cached_file_path s path
  | None => None
  end.
Definition current_offset_file (s : FilesystemScanner) : option string :=
  match current_action s with Some (ActRead path | ActDelete path) => Some path | None => None end.

Abbreviation Scan := (eff (FilesystemScanner * World) ReaderError).
Definition set_scanner (f : FilesystemScanner → FilesystemScanner) : Scan unit := modify (λ st, (f (fst st), snd st)).
Definition world : Scan World := gets snd.
Definition this : Scan FilesystemScanner := gets fst.
Definition change_world (f : World → outcome IoError World) : Scan unit :=
  λ st, match f (snd st) with
        | Ok w => (Ok tt, (fst st, w))
        | Err e => (Err (RdIo e), st)
        | Panic p => (Panic p, st)
        end.

Definition modify_time (entry : string) : Scan (option Z) :=
  s ← this; w ← world;
  let found := match fs_metadata w entry with Ok meta => fm_modified meta | _ => None end in
  if are_deletions_enabled (streaming_mode s) then mret found
  else
    match cached_modify_times s !! entry with
    | Some t => mret t
    | None => _ ← set_scanner (with_cached_modify_times (<[entry := found]> (cached_modify_times s))); mret found
    end.

Definition matching_files (w : World) (pattern : string) (entry : string) : outcome ReaderError (list string) :=
  if is_file w entry then Ok [entry]
  else if negb (utf8_valid (string_bytes entry)) then Ok []
  else
    let folder_scan_pattern := entry +:+ "/**/" +:+ pattern in
    if glob_valid folder_scan_pattern then Ok (List.filter (is_file w) (glob_paths w folder_scan_pattern))
    else Err RdGlobPattern.
Definition get_matching_file_paths : Scan (list string) :=
  s ← this; w ← world;
  if glob_valid (path s) then
    result ← lift (try_collect (matching_files w (object_pattern s)) (glob_paths w (path s)));
    mret (concat result)
  else lift (Err RdGlobPattern).

Definition initiate_file_insertion (new_file_name : string) : Scan (ReadResult ReaderContext SourceMetadata) :=
  w ← world;
  meta ← lift (io (fs_metadata w new_file_name));
  new_file_meta ← lift (from_fs_meta w new_file_name meta);
  modified ← lift (match modified_at new_file_meta with Some t => Ok t | None => current_unix_timestamp_secs w end);
  _ ← set_scanner (λ s, with_known_files (<[new_file_name := modified]> (known_files s))
        (with_cached_metadata (<[new_file_name := Some new_file_meta]> (cached_metadata s)) s));
  s ← this;
  _ ← match cached_file_path s new_file_name with
      | Some cached_path => change_world (λ w, fs_copy w new_file_name cached_path)
      | None => mret tt
      end;
  _ ← set_scanner (with_current_action (Some (ActRead new_file_name)));
  mret (RrNewSource (Some new_file_meta)).

(** Whether a known file is gone or was modified since. *)
Definition needs_deletion (w : World) (f : string * Z) : outcome ReaderError bool :=
  match fs_metadata w (fst f) with
  | Err NotFound => Ok true
  | Err OtherIo => Ok false
  | Panic p => Panic p
  | Ok meta =>
      match fm_modified meta with
      | Some t => modified_at_new ← expect_unix_secs t; Ok (negb (modified_at_new =? snd f))
      | None => Ok false
      end
  end.
Definition min_path (o : option string) (p : string) : option string :=
  match o with
  | None => Some p
  | Some other_path => match path_cmp other_path p with Gt => Some p | _ => o end
  end.
Fixpoint path_for_deletion (w : World) (known : list (string * Z)) (selected : option string) : outcome ReaderError (option string) :=
  match known with
  | [] => Ok selected
  | f :: known =>
      needed ← needs_deletion w f;
      path_for_deletion w known (if needed : bool then min_path selected (fst f) else selected)
  end.
Definition next_deletion_entry : Scan (option (ReadResult ReaderContext SourceMetadata)) :=
  s ← this; w ← world;
  selected ← lift (path_for_deletion w (map_to_list (known_files s)) None);
  match selected with
  | None => mret None
  | Some path =>
      match cached_metadata s !! path with
      | None => lift (Panic "inconsistency between known_files and cached_metadata")
      | Some old_metadata =>
          _ ← set_scanner (λ s,
                (if path_exists w path then with_next_file_for_insertion (Some path) else id)
                (with_current_action (Some (ActDelete path))
                (with_known_files (delete path (known_files s))
                (with_cached_metadata (delete path (cached_metadata s)) s))));
          mret (Some (RrNewSource old_metadata))
      end
  end.

(** The smallest of the candidates by time and path. *)
Definition earlier (o : option (string * Z)) (f : string * Z) : option (string * Z) :=
  match o with
  | None => Some f
  | Some (name, created_at) => match then_cmp (cmp created_at (snd f)) (path_cmp name (fst f)) with Gt => Some f | _ => o end
  end.
Fixpoint select_file (entries : list string) (selected : option (string * Z)) : Scan (option (string * Z)) :=
  match entries with
  | [] => mret selected
  | entry :: entries =>
      s ← this; w ← world;
      if negb (is_file w entry) || match known_files s !! entry with Some _ => true | None => false end then
        select_file entries selected
      else
        t ← modify_time entry;
        match t with
        | None => select_file entries selected
        | Some modify_time => select_file entries (earlier selected (entry, modify_time))
        end
  end.
Definition next_insertion_entry : Scan (option (ReadResult ReaderContext SourceMetadata)) :=
  matching_files ← get_matching_file_paths;
  selected_file ← select_file matching_files None;
  match selected_file with
  | Some (new_file_name, _) => r ← initiate_file_insertion new_file_name; mret (Some r)
  | None => mret None
  end.

Definition next_action_determined : Scan (option (ReadResult ReaderContext SourceMetadata)) :=
  s ← this;
  _ ← set_scanner (with_current_action None);
  _ ← match current_action s with
      | Some (ActDelete path) =>
          match cached_file_path s path with
          | Some cached_path => change_world (λ w, fs_remove_file w cached_path)
          | None => lift (Panic "in case of enabled deletions cache should exist")
          end
      | _ => mret tt
      end;
  w ← world;
  match next_file_for_insertion s with
  | Some next_file =>
      _ ← set_scanner (with_next_file_for_insertion None);
      if path_exists w next_file then r ← initiate_file_insertion next_file; mret (Some r)
      else mret (Some (RrFinishedSource true))
  | None =>
      next_for_deletion ← (if are_deletions_enabled (streaming_mode s) then next_deletion_entry else mret None);
      match next_for_deletion with
      | Some r => mret (Some r)
      | None => next_insertion_entry
      end
  end.

(** [seek_to_file]: marks the files that were read before. *)
Fixpoint mark_known (entries : list string) (target_modify_time : Z) (seek_file_path : string) : Scan unit :=
  match entries with
  | [] => mret tt
  | entry :: entries =>
      w ← world;
      if negb (is_file w entry) then mark_known entries target_modify_time seek_file_path
      else
        t ← modify_time entry;
        match t with
        | None => mark_known entries target_modify_time seek_file_path
        | Some modify_time =>
            match then_cmp (cmp modify_time target_modify_time) (path_cmp entry seek_file_path) with
            | Gt => mark_known entries target_modify_time seek_file_path
            | _ =>
                modify_timestamp ← lift (expect_unix_secs modify_time);
                _ ← set_scanner (λ s, with_known_files (<[entry := modify_timestamp]> (known_files s)) s);
                mark_known entries target_modify_time seek_file_path
            end
        end
  end.
Definition seek_to_file (seek_file_path : string) : Scan unit :=
  _ ← set_scanner (with_known_files ∅);
  w ← world;
  match fs_metadata w seek_file_path with
  | Err NotFound => mret tt
  | Err OtherIo => lift (Err (RdIo OtherIo))
  | Panic p => lift (Panic p)
  | Ok metadata =>
      target_modify_time ← lift (io (fs_modified metadata));
      matching_files ← get_matching_file_paths;
      _ ← mark_known matching_files target_modify_time seek_file_path;
      set_scanner (with_current_action (Some (ActRead seek_file_path)))
  end.
End scanner.

(** ** Reading bytes *)

Inductive ReadMethod := ByLine | Full.
Definition is_full (m : ReadMethod) : bool := match m with ByLine => false | Full => true end.
(** A [BufReader] on bytes in memory: the bytes left and their position. *)
Record BufReader := mk_BufReader { br_rest : list Z; stream_position : Z }.
Definition open_buf_reader (contents : list Z) : BufReader := mk_BufReader contents 0.
(** [read_until(b'\n')]: up to and with the delimiter. *)
Fixpoint split_line (bs : list Z) : list Z * list Z :=
  match bs with
  | [] => ([], [])
  | b :: bs => if b =? 10 then ([b], bs) else let '(line, rest) := split_line bs in (b :: line, rest)
  end.
Definition read_next_bytes (m : ReadMethod) (r : BufReader) : list Z * BufReader :=
  let '(line, rest) := match m with ByLine => split_line (br_rest r) | Full => (br_rest r, []) end in
  (line, mk_BufReader rest (stream_position r + Z.of_nat (length line))).

(** A [BufReader] on an open file: the descriptor and its position, and the bytes before
    it that were not consumed.  The operations take what the file contains now. *)
Record FileReader := mk_FileReader { fr_file : nat; fr_offset : nat; fr_buffer : list Z }.
Definition open_file_reader (file : nat) : FileReader := mk_FileReader file 0 [].
Definition seek_start (file : nat) (pos : Z) : FileReader := mk_FileReader file (Z.to_nat pos) [].
Definition file_position (r : FileReader) : Z := Z.of_nat (fr_offset r) - Z.of_nat (length (fr_buffer r)).
Definition BUFFER_SIZE : Z := 8192.
Definition fill_buf (contents : list Z) (r : FileReader) : FileReader :=
  match fr_buffer r with
  | [] =>
      let chunk := take (Z.to_nat BUFFER_SIZE) (drop (fr_offset r) contents) in
      mk_FileReader (fr_file r) (fr_offset r + length chunk) chunk
  | _ => r
  end.
Definition with_buffer (b : list Z) (r : FileReader) : FileReader := mk_FileReader (fr_file r) (fr_offset r) b.
Definition ends_line (line : list Z) : bool := bool_decide (last line = Some 10).
(** [fuel]: more than the bytes that are left. *)
Fixpoint read_until_newline (fuel : nat) (contents : list Z) (r : FileReader) : list Z * FileReader :=
  match fuel with
  | O => ([], r)
  | S fuel =>
      let r := fill_buf contents r in
      let '(line, rest) := split_line (fr_buffer r) in
      match fr_buffer r with
      | [] => ([], r)
      | _ =>
          if ends_line line then (line, with_buffer rest r)
          else let '(more, r) := read_until_newline fuel contents (with_buffer [] r) in (line ++ more, r)
      end
  end.
Definition bytes_left (contents : list Z) (r : FileReader) : list Z := fr_buffer r ++ drop (fr_offset r) contents.
Definition read_to_end (contents : list Z) (r : FileReader) : list Z * FileReader :=
  (bytes_left contents r, mk_FileReader (fr_file r) (fr_offset r + length (drop (fr_offset r) contents)) []).
Definition read_file_bytes (m : ReadMethod) (contents : list Z) (r : FileReader) : list Z * FileReader :=
  match m with
  | ByLine => read_until_newline (S (length (bytes_left contents r))) contents r
  | Full => read_to_end contents r
  end.

(** ** FilesystemReader *)

Record FilesystemReader := mk_FilesystemReader {
  read_method : ReadMethod;
  reader : option FileReader;
  filesystem_scanner : FilesystemScanner;
  total_entries_read : Z;
  deferred_read_result : option (ReadResult ReaderContext SourceMetadata)
}.
Definition with_reader (r : option FileReader) (s : FilesystemReader) : FilesystemReader :=
  mk_FilesystemReader (read_method s) r (filesystem_scanner s) (total_entries_read s) (deferred_read_result s).
Definition with_scanner (f : FilesystemScanner) (s : FilesystemReader) : FilesystemReader :=
  mk_FilesystemReader (read_method s) (reader s) f (total_entries_read s) (deferred_read_result s).
Definition with_entries_read (n : Z) (s : FilesystemReader) : FilesystemReader :=
  mk_FilesystemReader (read_method s) (reader s) (filesystem_scanner s) n (deferred_read_result s).
Definition with_deferred (d : option (ReadResult ReaderContext SourceMetadata)) (s : FilesystemReader) : FilesystemReader :=
  mk_FilesystemReader (read_method s) (reader s) (filesystem_scanner s) (total_entries_read s) d.

Section filesystem_reader.
Context `{XxHash, Glob, Profile}.
Abbreviation Read := (eff (FilesystemReader * World) ReaderError).
Abbreviation Result := (ReadResult ReaderContext SourceMetadata).

Definition filesystem_reader_new (path cache_directory : string) (streaming_mode : ConnectorMode) (read_method : ReadMethod)
    (object_pattern : string) : outcome ReaderError FilesystemReader :=
  scanner ← scanner_new path cache_directory streaming_mode object_pattern;
  Ok (mk_FilesystemReader read_method None scanner 0 None).

Definition set_reader (f : FilesystemReader → FilesystemReader) : Read unit := modify (λ st, (f (fst st), snd st)).
Definition scanning {A} (m : eff (FilesystemScanner * World) ReaderError A) : Read A :=
  zoom (λ st, (filesystem_scanner (fst st), snd st)) (λ t st, (with_scanner (fst t) (fst st), snd t)) m.
Definition finished_source (s : FilesystemScanner) : Result := RrFinishedSource (negb (has_planned_insertion s)).

(** [File::open], on the files of the state. *)
Definition open_file {S E} (wrap : IoError → E) (path : string) : eff (S * World) E nat :=
  λ st, match fs_open (snd st) path with
        | Ok (file, w) => (Ok file, (fst st, w))
        | Err e => (Err (wrap e), st)
        | Panic p => (Panic p, st)
        end.
(** The body of the loop when a file is open. *)
Definition read_entry (r : FileReader) : Read Result :=
  self ← gets fst;
  w ← gets snd;
  let scanner := filesystem_scanner self in
  contents ← lift (ok_or (fs_read w (fr_file r)) (RdIo OtherIo));
  let '(line, r) := read_file_bytes (read_method self) contents r in
  _ ← set_reader (with_reader (Some r));
  if (0 <? Z.of_nat (length line)) || is_full (read_method self) then
    n ← lift (u64_arith (total_entries_read self + 1));
    _ ← set_reader (with_entries_read n);
    file ← lift (unwrap (current_offset_file scanner));
    let offset := (OkEmpty, FilePosition n file (file_position r)) in
    event ← lift (match data_event_type scanner with Some e => Ok e | None => Panic "scanner action can't be empty" end);
    _ ← (if is_full (read_method self) then
           set_reader (λ s, with_reader None (with_deferred (Some (finished_source scanner)) s))
         else mret tt);
    mret (RrData (RawBytes event line) offset)
  else
    _ ← set_reader (with_reader None);
    mret (finished_source scanner).
Definition read : Read (option Result) :=
  self ← gets fst;
  match deferred_read_result self with
  | Some deferred => _ ← set_reader (with_deferred None); mret (Some deferred)
  | None =>
      match reader self with
      | Some r => result ← read_entry r; mret (Some result)
      | None =>
          next_read_result ← scanning next_action_determined;
          match next_read_result with
          | Some result =>
              self ← gets fst;
              _ ← match current_file (filesystem_scanner self) with
                  | Some selected_file =>
                      file ← open_file RdIo selected_file;
                      set_reader (with_reader (Some (open_file_reader file)))
                  | None => mret tt
                  end;
              mret (Some result)
          | None => mret (if is_polling_enabled (streaming_mode (filesystem_scanner self)) then None else Some RrFinished)
          end
      end
  end.
Definition seek (frontier : OffsetAntichain) : Read unit :=
  match get_offset frontier OkEmpty with
  | Some (FilePosition entries path bytes_offset) =>
      _ ← scanning (seek_to_file path);
      file ← open_file RdIo path;
      _ ← set_reader (with_reader (Some (seek_start file bytes_offset)));
      set_reader (with_entries_read entries)
  | _ => mret tt
  end.
End filesystem_reader.

(** ** CsvFilesystemReader *)

(** The crate csv: a reader, with the settings of a builder, on bytes in memory or on a
    file; records are returned with the reader after them.  The operations on a file take
    what the file contains now, [None] where reading fails. *)
Class Csv := {
  CsvBuilder : Type;
  CsvReader : Type;
  csv_flexible : CsvBuilder → CsvBuilder;
  csv_from_bytes : CsvBuilder → list Z → CsvReader;
  csv_read_record : CsvReader → outcome unit (option (list string)) * CsvReader;
  csv_position_byte : CsvReader → Z;
  CsvFile : Type;
  csv_from_file : CsvBuilder → CsvFile;
  csv_file_record : option (list Z) → CsvFile → outcome unit (option (list string)) * CsvFile;
  csv_file_position_byte : CsvFile → Z;
  csv_file_seek_byte : option (list Z) → CsvFile → Z → outcome unit CsvFile
}.

Section csv_reader.
Context `{XxHash, Glob, Csv, Profile}.

Record CsvFilesystemReader := mk_CsvFilesystemReader {
  parser_builder : CsvBuilder;
  csv_reader : option (nat * CsvFile);
  csv_scanner : FilesystemScanner;
  csv_entries_read : Z;
  csv_deferred : option (ReadResult ReaderContext SourceMetadata)
}.
Definition with_csv_builder (b : CsvBuilder) (s : CsvFilesystemReader) : CsvFilesystemReader :=
  mk_CsvFilesystemReader b (csv_reader s) (csv_scanner s) (csv_entries_read s) (csv_deferred s).
Definition with_csv_reader (r : option (nat * CsvFile)) (s : CsvFilesystemReader) : CsvFilesystemReader :=
  mk_CsvFilesystemReader (parser_builder s) r (csv_scanner s) (csv_entries_read s) (csv_deferred s).
Definition with_csv_scanner (f : FilesystemScanner) (s : CsvFilesystemReader) : CsvFilesystemReader :=
  mk_CsvFilesystemReader (parser_builder s) (csv_reader s) f (csv_entries_read s) (csv_deferred s).
Definition with_csv_entries_read (n : Z) (s : CsvFilesystemReader) : CsvFilesystemReader :=
  mk_CsvFilesystemReader (parser_builder s) (csv_reader s) (csv_scanner s) n (csv_deferred s).
Definition with_csv_deferred (d : option (ReadResult ReaderContext SourceMetadata)) (s : CsvFilesystemReader) : CsvFilesystemReader :=
  mk_CsvFilesystemReader (parser_builder s) (csv_reader s) (csv_scanner s) (csv_entries_read s) d.

Abbreviation Read := (eff (CsvFilesystemReader * World) ReaderError).
Abbreviation Result := (ReadResult ReaderContext SourceMetadata).

Definition csv_filesystem_reader_new (path cache_directory : string) (parser_builder : CsvBuilder) (streaming_mode : ConnectorMode)
    (object_pattern : string) : outcome ReaderError CsvFilesystemReader :=
  scanner ← scanner_new path cache_directory streaming_mode object_pattern;
  Ok (mk_CsvFilesystemReader parser_builder None scanner 0 None).

Definition set_csv (f : CsvFilesystemReader → CsvFilesystemReader) : Read unit := modify (λ st, (f (fst st), snd st)).
Definition csv_scanning {A} (m : eff (FilesystemScanner * World) ReaderError A) : Read A :=
  zoom (λ st, (csv_scanner (fst st), snd st)) (λ t st, (with_csv_scanner (fst t) (fst st), snd t)) m.
Definition csv_io {A} (o : outcome unit A) : Read A := lift (map_err (λ _, RdCsv) o).
(** A record from the open file. *)
Definition next_record (r : nat * CsvFile) : Read (option (list string) * Z) :=
  w ← gets snd;
  let '(record, csv) := csv_file_record (fs_read w (fst r)) (snd r) in
  _ ← set_csv (with_csv_reader (Some (fst r, csv)));
  record ← csv_io record;
  mret (record, csv_file_position_byte csv).
Definition csv_event (s : FilesystemScanner) : Read DataEventType :=
  lift (match data_event_type s with Some e => Ok e | None => Panic "scanner action can't be empty" end).
Definition csv_open (builder : CsvBuilder) (file : string) : Read unit :=
  descriptor ← open_file (λ _, RdCsv) file;
  set_csv (with_csv_reader (Some (descriptor, csv_from_file builder))).

(** Determines the next action and opens its file; [flexible]: whether the builder is
    made to accept records of different lengths. *)
Definition csv_next_source (flexible : bool) : Read (option Result) :=
  next_read_result ← csv_scanning next_action_determined;
  match next_read_result with
  | Some result =>
      self ← gets fst;
      _ ← match current_file (csv_scanner self) with
          | Some selected_file =>
              _ ← (if flexible then set_csv (with_csv_builder (csv_flexible (parser_builder self))) else mret tt);
              self ← gets fst;
              csv_open (parser_builder self) selected_file
          | None => mret tt
          end;
      mret (Some result)
  | None => mret None
  end.
Definition csv_read : Read (option Result) :=
  self ← gets fst;
  match csv_deferred self with
  | Some deferred => _ ← set_csv (with_csv_deferred None); mret (Some deferred)
  | None =>
      match csv_reader self with
      | Some r =>
          current_record ← next_record r;
          match current_record with
          | (Some record, position) =>
              n ← lift (u64_arith (csv_entries_read self + 1));
              _ ← set_csv (with_csv_entries_read n);
              file ← lift (unwrap (current_offset_file (csv_scanner self)));
              event ← csv_event (csv_scanner self);
              mret (Some (RrData (TokenizedEntries event record) (OkEmpty, FilePosition n file position)))
          | (None, _) =>
              next ← csv_next_source false;
              match next with
              | Some result => mret (Some result)
              | None =>
                  _ ← set_csv (with_csv_reader None);
                  self ← gets fst;
                  mret (Some (finished_source (csv_scanner self)))
              end
          end
      | None =>
          next ← csv_next_source true;
          match next with
          | Some result => mret (Some result)
          | None => mret (if is_polling_enabled (streaming_mode (csv_scanner self)) then None else Some RrFinished)
          end
      end
  end.
Definition csv_seek (frontier : OffsetAntichain) : Read unit :=
  match get_offset frontier OkEmpty with
  | Some (FilePosition entries path bytes_offset as offset_value) =>
      _ ← csv_scanning (seek_to_file path);
      _ ← set_csv (with_csv_entries_read entries);
      self ← gets fst;
      descriptor ← open_file (λ _, RdCsv) path;
      w ← gets snd;
      let contents := fs_read w descriptor in
      let r := csv_from_file (parser_builder self) in
      r ← (if 0 <? bytes_offset then
             let '(header_record, r) := csv_file_record contents r in
             header_record ← csv_io header_record;
             _ ← match header_record with
                 | Some record =>
                     event ← csv_event (csv_scanner self);
                     set_csv (with_csv_deferred (Some (RrData (TokenizedEntries event record) (OkEmpty, offset_value))))
                 | None => mret tt
                 end;
             mret r
           else mret r);
      r ← csv_io (csv_file_seek_byte contents r bytes_offset);
      set_csv (with_csv_reader (Some (descriptor, r)))
  | _ => mret tt
  end.
End csv_reader.
