(* ===== verification/FilesProps.v ===== *)
(** The file system reader: what it has sent downstream are the entries of the files it
    knows, whatever happens to the directory; a restart continues where the recorded
    offset points. *)
From Stdlib Require Import ZArith Lia Bool Ascii.
From stdpp Require Import base list strings gmap sets.
From S2P Require Import Prelude Effects Order Text Data Externals Instances Value Weights Timestamp Snapshot Connector DataFormat.
From S2P Require Import Table TableProps Files.
Open Scope Z_scope.

(** ** Inversion of computations with effects *)

Ltac eff_step :=
  match goal with
  | H : mbind _ _ _ = (Ok _, _) |- _ =>
      let a := fresh "a" in let s1 := fresh "st" in let H1 := fresh "Hm" in
      apply bind_eff_ok in H as (a & s1 & H1 & H)
  | H : lift _ _ = (Ok _, _) |- _ => apply lift_ok in H as [H ->]
  | H : gets _ _ = (Ok _, _) |- _ => injection H as <- <-
  | H : this _ = (Ok _, _) |- _ => injection H as <- <-
  | H : world _ = (Ok _, _) |- _ => injection H as <- <-
  | H : set_scanner _ _ = (Ok _, _) |- _ => injection H as <- <-
  | H : set_reader _ _ = (Ok _, _) |- _ => injection H as <- <-
  | H : modify _ _ = (Ok _, _) |- _ => injection H as <- <-
  | H : mret _ _ = (Ok _, _) |- _ => injection H as <- <-
  end.
(** Runs the first step of a computation. *)
Ltac eff_run := erewrite bind_eff by (reflexivity || eassumption); cbn [fst snd].
Ltac eff_inv := repeat (eff_step; cbn beta iota zeta in *); cbn [fst snd] in *.

(** ** Lines *)

Fixpoint lines (bs : list Z) : list (list Z) :=
  match bs with
  | [] => []
  | b :: bs =>
      if b =? 10 then [b] :: lines bs
      else match lines bs with [] => [[b]] | l :: ls => (b :: l) :: ls end
  end.
Definition entries (m : ReadMethod) (contents : list Z) : list (list Z) := match m with ByLine => lines contents | Full => [contents] end.

Lemma split_line_lines bs line rest : bs ≠ [] → split_line bs = (line, rest) → lines bs = line :: lines rest ∧ line ≠ [].
Proof.
  revert line rest. induction bs as [|b bs IH]; intros line rest Hne; [done|]. cbn [split_line lines].
  destruct (b =? 10); [by intros [= <- <-]|]. destruct bs as [|b' bs]; [by intros [= <- <-]|].
  destruct (split_line (b' :: bs)) as [line' rest'] eqn:E. intros [= <- <-].
  destruct (IH line' rest' ltac:(done) eq_refl) as [-> _]. done.
Qed.
Lemma read_next_bytes_entries m r line r' : read_next_bytes m r = (line, r') →
  stream_position r' = stream_position r + Z.of_nat (length line) ∧
  (if (0 <? Z.of_nat (length line)) || is_full m
   then entries m (br_rest r) = line :: (if is_full m then [] else entries m (br_rest r'))
   else entries m (br_rest r) = []).
Proof.
  unfold read_next_bytes. destruct m; cbn [is_full entries].
  - destruct (split_line (br_rest r)) as [l rest] eqn:E. intros [= <- <-]. cbn [stream_position br_rest]. split; [done|].
    rewrite orb_false_r. destruct (br_rest r) as [|b bs]; [by injection E as <- <-|].
    destruct (split_line_lines (b :: bs) l rest) as [-> Hl]; [done..|]. by destruct l.
  - intros [= <- <-]. rewrite orb_true_r. done.
Qed.

(** ** Files that are open *)

Lemma split_line_app bs line rest : split_line bs = (line, rest) → bs = line ++ rest.
Proof.
  revert line rest. induction bs as [|b bs IH]; intros line rest; cbn [split_line]; [by intros [= <- <-]|].
  destruct (b =? 10); [by intros [= <- <-]|]. destruct (split_line bs) as [l r]. intros [= <- <-]. cbn. f_equal. by apply IH.
Qed.
(** A line that starts in one chunk of bytes may end in the next one. *)
Lemma split_line_more a b line rest : split_line a = (line, rest) →
  split_line (a ++ b) = if decide (last line = Some 10) then (line, rest ++ b) else (line ++ fst (split_line b), snd (split_line b)).
Proof.
  revert line rest. induction a as [|x a IH]; intros line rest; cbn [split_line app]; [intros [= <- <-]; by destruct (split_line b)|].
  destruct (Z.eqb_spec x 10) as [->|Hx]; [by intros [= <- <-]|].
  destruct (split_line a) as [l r] eqn:E. intros [= <- <-]. rewrite (IH l r eq_refl). clear IH E.
  assert (last (x :: l) = Some 10 ↔ last l = Some 10) as Hl.
  { destruct l as [|y l]; [|done]. cbn. split; [by intros [= ?]|done]. }
  destruct (decide (last (x :: l) = Some 10)), (decide (last l = Some 10)); naive_solver.
Qed.
Lemma split_line_open bs line rest : split_line bs = (line, rest) → last line ≠ Some 10 → rest = [] ∧ line = bs.
Proof.
  revert line rest. induction bs as [|x bs IH]; intros line rest; cbn [split_line]; [by intros [= <- <-]|].
  destruct (Z.eqb_spec x 10) as [->|Hx]; [by intros [= <- <-]|].
  destruct (split_line bs) as [l r] eqn:E. intros [= <- <-] Hl. destruct (IH l r eq_refl) as [-> ->]; [|done].
  by destruct l.
Qed.
Lemma fill_buf_left c r : bytes_left c (fill_buf c r) = bytes_left c r ∧ file_position (fill_buf c r) = file_position r ∧
  fr_file (fill_buf c r) = fr_file r ∧ (fr_buffer (fill_buf c r) = [] → bytes_left c r = []).
Proof.
  unfold fill_buf, bytes_left, file_position. destruct (fr_buffer r) as [|b bs] eqn:Eb; [|by rewrite Eb].
  cbn [fr_buffer fr_offset fr_file]. rewrite <- (drop_drop c _ (fr_offset r)).
  assert (0 < Z.to_nat BUFFER_SIZE)%nat as Hpos by (unfold BUFFER_SIZE; lia). revert Hpos.
  generalize (Z.to_nat BUFFER_SIZE) as k. intros k Hpos. generalize (drop (fr_offset r) c) as l. intros l.
  split; [|split; [cbn; lia|split; [done|]]].
  - rewrite length_take. destruct (decide (k ≤ length l)%nat).
    + by rewrite Nat.min_l, take_drop by done.
    + by rewrite Nat.min_r, drop_all, app_nil_r, take_ge by lia.
  - destruct k, l; done || lia.
Qed.
Lemma read_until_newline_spec fuel c r line r' : read_until_newline fuel c r = (line, r') → (length (bytes_left c r) < fuel)%nat →
  split_line (bytes_left c r) = (line, bytes_left c r') ∧ fr_file r' = fr_file r ∧
  file_position r' = file_position r + Z.of_nat (length line).
Proof.
  revert r line r'. induction fuel as [|fuel IH]; intros r line r'; [lia|]. cbn [read_until_newline].
  destruct (fill_buf_left c r) as (Hleft & Hpos & Hfile & Hend). revert Hleft Hpos Hfile Hend.
  generalize (fill_buf c r) as f. intros f Hleft Hpos Hfile Hend.
  destruct (split_line (fr_buffer f)) as [l rest] eqn:Es. rewrite <- Hleft, <- Hpos, <- Hfile. unfold bytes_left at 1 2.
  pose proof (split_line_more _ (drop (fr_offset f) c) _ _ Es) as Hmore. pose proof (split_line_app _ _ _ Es) as Happ.
  pose proof (split_line_open _ _ _ Es) as Hopen.
  destruct (fr_buffer f) as [|b bs] eqn:Eb.
  { intros [= <- <-] _. rewrite Hleft, (Hend eq_refl). rewrite (Hend eq_refl) in Hleft. unfold bytes_left in Hleft.
    rewrite Eb in Hleft. cbn in Hleft |- *. rewrite Hleft. split; [done|]. split; [done|]. lia. }
  unfold ends_line. case_bool_decide as Hl.
  - intros [= <- <-] _. rewrite Hmore, decide_True by done. split; [done|]. split; [done|].
    unfold file_position. cbn [fr_offset fr_buffer with_buffer]. rewrite Eb, Happ, length_app. lia.
  - destruct (read_until_newline fuel c (with_buffer [] f)) as [more r2] eqn:Eread. intros [= <- <-] Hlen.
    rewrite length_app in Hlen. cbn [length] in Hlen.
    destruct (IH _ _ _ Eread) as (Hs & Hf & Hp); [unfold bytes_left; cbn; lia|]. unfold bytes_left at 1 in Hs. cbn in Hs.
    rewrite Hmore, decide_False, Hs by done. split; [done|]. split; [done|]. rewrite Hp. destruct (Hopen Hl) as [_ ->].
    unfold file_position. cbn [fr_offset fr_buffer with_buffer]. rewrite Eb, length_app. cbn [length]. lia.
Qed.
(** Reading a file that is open gives what reading the bytes that are left would. *)
Lemma read_file_bytes_spec m c r line r' : read_file_bytes m c r = (line, r') →
  read_next_bytes m (mk_BufReader (bytes_left c r) (file_position r)) = (line, mk_BufReader (bytes_left c r') (file_position r')) ∧
  fr_file r' = fr_file r.
Proof.
  unfold read_file_bytes, read_next_bytes. cbn [br_rest stream_position]. destruct m.
  - intros Hr. apply read_until_newline_spec in Hr as (-> & ? & ->); [done|lia].
  - unfold read_to_end. intros [= <- <-]. split; [|done]. do 2 f_equal.
    + unfold bytes_left. cbn [fr_buffer fr_offset app]. rewrite drop_ge; [done|]. rewrite length_drop. lia.
    + unfold bytes_left, file_position. cbn [fr_buffer fr_offset length]. rewrite length_app. lia.
Qed.

(** ** The scanner that polls a directory *)

Section tracking.
Context `{XxHash, Glob, Profile}.
(** The cache directory, the patterns of the source, the paths that can be found under the patterns, and the
    contents a file has had at each second at which it was modified. *)
Context (root src pattern : string) (m : ReadMethod) (U : string → Prop) (hist : string → Z → list Z).
Definition cpath (p : string) : string := path_join root (int_to_string (digest128 (string_bytes p))).
Context (glob_within : ∀ w g p, p ∈ glob_paths w g → is_file w p = true → U p).
Context (cache_apart : ∀ p q, U p → U q → p ≠ cpath q).
Context (cache_inj : ∀ p q, U p → U q → cpath p = cpath q → p = q).

(** Files outside of the cache have a modification time, and their contents change
    only together with it. *)
Definition world_ok (w : World) : Prop :=
  0 ≤ clock w ∧
  ∀ p c meta, U p → files w !! p = Some (FsFile c meta) →
    ∃ t, fm_modified meta = Some t ∧ 0 ≤ t ∧ c = hist p (t / 1000000000).

(** The files that the patterns select. *)
Definition watched (w : World) (p : string) : Prop :=
  is_file w p = true ∧ ∃ entry, entry ∈ glob_paths w src ∧
    (entry = p ∨ is_file w entry = false ∧ utf8_valid (string_bytes entry) = true ∧
                 p ∈ glob_paths w (entry +:+ "/**/" +:+ pattern)).

(** What the scanner knows: the contents of each file that was read and not deleted
    since, with a copy of it in the cache. *)
Record scan_inv (L : gmap string (list Z)) (s : FilesystemScanner) (w : World) : Prop := {
  si_path : path s = src;
  si_pattern : object_pattern s = pattern;
  si_mode : streaming_mode s = Streaming;
  si_cache : cache_directory_path s = Some root;
  si_within : ∀ p c, L !! p = Some c → U p;
  si_known : ∀ p, is_Some (known_files s !! p) ↔ is_Some (L !! p);
  si_hist : ∀ p t c, known_files s !! p = Some t → L !! p = Some c → c = hist p t;
  si_meta : ∀ p, is_Some (L !! p) → is_Some (cached_metadata s !! p);
  si_copy : ∀ p c, L !! p = Some c → ∃ meta, files w !! cpath p = Some (FsFile c meta);
  si_planned : ∀ p, next_file_for_insertion s = Some p → U p ∧ L !! p = None;
  si_deleting : ∀ p, current_action s = Some (ActDelete p) →
    U p ∧ L !! p = None ∧ ∃ c meta, files w !! cpath p = Some (FsFile c meta)
}.

Lemma is_file_iff w p : is_file w p = true ↔ ∃ c meta, files w !! p = Some (FsFile c meta).
Proof. unfold is_file. destruct (files w !! p) as [[]|]; naive_solver. Qed.
Lemma fs_metadata_file w p : is_file w p = true → ∃ meta, fs_metadata w p = Ok meta.
Proof. intros (c & meta & Hf)%is_file_iff. unfold fs_metadata. rewrite Hf. by eexists. Qed.
Lemma world_ok_meta w p meta : world_ok w → U p → is_file w p = true → fs_metadata w p = Ok meta →
  ∃ t c, fm_modified meta = Some t ∧ 0 ≤ t ∧ files w !! p = Some (FsFile c meta) ∧ c = hist p (t / 1000000000).
Proof.
  intros [_ Hw] HU (c & meta' & Hf)%is_file_iff. unfold fs_metadata. rewrite Hf. intros [= <-].
  destruct (Hw p c meta' HU Hf) as (t & ? & ? & ?). eauto 10.
Qed.

Lemma cached_file_path_eq s p : cache_directory_path s = Some root → cached_file_path s p = Some (cpath p).
Proof. unfold cached_file_path. by intros ->. Qed.

Lemma watched_within w p : watched w p → U p.
Proof. intros (Hf & entry & ? & [<-|(_ & _ & ?)]); eauto. Qed.

Lemma matching_files_spec w g entry ps : matching_files w g entry = Ok ps → ∀ p,
  p ∈ ps ↔ is_file w p = true ∧ (entry = p ∨ is_file w entry = false ∧ utf8_valid (string_bytes entry) = true ∧
                                 p ∈ glob_paths w (entry +:+ "/**/" +:+ g)).
Proof.
  unfold matching_files. intros Hm p. destruct (is_file w entry) eqn:Ef.
  - injection Hm as <-. rewrite list_elem_of_singleton. naive_solver.
  - destruct (utf8_valid _); cbn [negb] in Hm; 
      [|injection Hm as <-; split; [by intros ?%elem_of_nil|by intros [? [->|(_ & [=] & _)]]; congruence]].
    destruct (glob_valid _); [|done]. injection Hm as <-.
    rewrite list_elem_of_In, filter_In, <- list_elem_of_In. split; [intros [? ?]; by auto|].
    intros [Hp [->|(_ & _ & ?)]]; [congruence|done].
Qed.
Lemma get_matching_spec s w ps st : path s = src → object_pattern s = pattern → get_matching_file_paths (s, w) = (Ok ps, st) →
  st = (s, w) ∧ ∀ p, p ∈ ps ↔ watched w p.
Proof.
  unfold get_matching_file_paths. intros Hsrc Hpat Hg. eff_inv.
  destruct (glob_valid (path s)); [|by eff_inv]. eff_inv. split; [done|]. rewrite Hsrc, Hpat in Hm.
  apply try_collect_ok in Hm.
  intros p. unfold watched. rewrite list_elem_of_In, in_concat. split.
  - intros (l & Hl & Hp). apply list_elem_of_In, list_elem_of_lookup in Hl as [i Hi].
    destruct (Forall2_lookup_r _ _ _ _ _ Hm Hi) as (entry & He & Hps).
    apply list_elem_of_In in Hp. destruct (proj1 (matching_files_spec _ _ _ _ Hps p) Hp). split; [done|]. exists entry. by eauto using list_elem_of_lookup_2.
  - intros (Hf & entry & He & Hp). apply list_elem_of_lookup in He as [i Hi].
    destruct (Forall2_lookup_l _ _ _ _ _ Hm Hi) as (l & Hl & Hps). exists l.
    rewrite <- !list_elem_of_In. split; [by eapply list_elem_of_lookup_2|]. by apply (matching_files_spec _ _ _ _ Hps p).
Qed.

Lemma earlier_cases o f : earlier o f = Some f ∨ earlier o f = o.
Proof. unfold earlier. destruct o as [[name t]|]; [|by left]. destruct (then_cmp _ _); auto. Qed.
Lemma earlier_some o f : earlier o f ≠ None.
Proof. unfold earlier. destruct o as [[]|]; [by destruct (then_cmp _ _)|done]. Qed.
Lemma select_file_spec s w entries sel o st : streaming_mode s = Streaming →
  select_file entries sel (s, w) = (Ok o, st) →
  st = (s, w) ∧
  match o with
  | Some f => sel = Some f ∨ fst f ∈ entries ∧ is_file w (fst f) = true ∧ known_files s !! fst f = None
  | None => sel = None ∧ ∀ p, p ∈ entries → is_file w p = true → known_files s !! p = None →
                         ∃ meta, fs_metadata w p = Ok meta ∧ fm_modified meta = None
  end.
Proof.
  intros Hs. revert sel. induction entries as [|p entries IH]; intros sel; cbn [select_file].
  { intros Hg. eff_inv. split; [done|]. destruct sel; [by left|]. split; [done|by intros ? ?%elem_of_nil]. }
  unfold modify_time. intros Hg. do 4 eff_step. cbn [fst snd] in *.
  destruct (negb (is_file w p) || _) eqn:Eskip.
  { apply IH in Hg as [-> Ho]. split; [done|]. apply orb_true_iff in Eskip. destruct o as [f|].
    - rewrite elem_of_cons. tauto.
    - destruct Ho as [-> Ho]. split; [done|]. intros q [->|Hq]%elem_of_cons; [|by apply Ho]. intros Hf Hk.
      destruct Eskip as [Ef|Ef]; [by rewrite Hf in Ef|by rewrite Hk in Ef]. }
  apply orb_false_iff in Eskip as [Hf%negb_false_iff Hk].
  assert (known_files s !! p = None) as Hk' by (by destruct (known_files s !! p)).
  eff_inv. rewrite Hs in Hm. cbn [are_deletions_enabled] in Hm. eff_inv.
  destruct (fs_metadata w p) as [meta|e|e] eqn:Em.
  2,3: by destruct (fs_metadata_file w p Hf) as [? ?]; congruence.
  destruct (fm_modified meta) as [t|] eqn:Et; apply IH in Hg as [-> Ho]; (split; [done|]); destruct o as [f|].
  - rewrite elem_of_cons. destruct Ho as [Ho|?]; [|tauto]. destruct (earlier_cases sel (p, t)) as [E|E]; rewrite E in Ho.
    + injection Ho as <-. cbn [fst]. tauto.
    + by left.
  - by destruct (earlier_some _ _ (proj1 Ho)).
  - rewrite elem_of_cons. tauto.
  - destruct Ho as [-> Ho]. split; [done|]. intros q [->|Hq]%elem_of_cons; [by eauto|by apply Ho].
Qed.

Lemma path_for_deletion_spec w known sel o : path_for_deletion w known sel = Ok o →
  match o with
  | Some p => sel = Some p ∨ ∃ t, (p, t) ∈ known ∧ needs_deletion w (p, t) = Ok true
  | None => sel = None ∧ ∀ f, f ∈ known → needs_deletion w f = Ok false
  end.
Proof.
  revert sel. induction known as [|f known IH]; intros sel; cbn [path_for_deletion].
  { intros [= <-]. destruct sel; [by left|]. split; [done|by intros ? ?%elem_of_nil]. }
  intros ([] & En & Hp%IH)%bind_ok; destruct o as [p|].
  - destruct Hp as [Hp|(t & ? & ?)]; [|right; exists t; rewrite elem_of_cons; tauto].
    assert (p = fst f ∨ sel = Some p) as [->|?]; [|right; exists (snd f); rewrite <- surjective_pairing, elem_of_cons; tauto|tauto].
    unfold min_path in Hp. destruct sel as [q|]; [destruct (path_cmp q (fst f))|]; naive_solver.
  - exfalso. unfold min_path in Hp. destruct sel as [q|]; [destruct (path_cmp q (fst f))|]; naive_solver.
  - destruct Hp as [?|(t & ? & ?)]; [by left|]. right. exists t. rewrite elem_of_cons. tauto.
  - destruct Hp as [-> Hp]. split; [done|]. intros q [->|Hq]%elem_of_cons; [done|by apply Hp].
Qed.

(** Worlds that differ in the cache only. *)
Definition same_outside (w w' : World) : Prop := clock w' = clock w ∧ ∀ p, U p → files w' !! p = files w !! p.
Lemma same_outside_refl w : same_outside w w.
Proof. done. Qed.
Lemma same_outside_trans w1 w2 w3 : same_outside w1 w2 → same_outside w2 w3 → same_outside w1 w3.
Proof. intros [Hc1 Hf1] [Hc2 Hf2]. split; [congruence|]. intros p Hp. by rewrite Hf2, Hf1. Qed.
Lemma same_outside_ok w w' : same_outside w w' → world_ok w → world_ok w'.
Proof. intros [Hc Hf] [? Hw]. split; [by rewrite Hc|]. intros p c meta HU. rewrite (Hf p HU). by apply Hw. Qed.
Lemma same_outside_cache w p e : U p → same_outside w (with_files (<[cpath p := e]> (files w)) w).
Proof. intros HU. split; [done|]. intros q Hq. cbn [files with_files]. apply lookup_insert_ne. intros E. by apply (cache_apart q p). Qed.
Lemma same_outside_uncache w p : U p → same_outside w (with_files (delete (cpath p) (files w)) w).
Proof. intros HU. split; [done|]. intros q Hq. cbn [files with_files]. apply lookup_delete_ne. intros E. by apply (cache_apart q p). Qed.

Lemma fs_copy_ok w from to w' : fs_copy w from to = Ok w' →
  ∃ c meta meta', files w !! from = Some (FsFile c meta) ∧ w' = with_files (<[to := FsFile c meta']> (files w)) w.
Proof.
  unfold fs_copy, fs_contents. intros (c & Hc & Hw)%bind_ok. destruct (files w !! from) as [[c' meta| |]|]; try done.
  injection Hc as ->. destruct (files w !! to) as [[]|]; naive_solver.
Qed.
Lemma change_world_ok f (st : FilesystemScanner * World) u st' : change_world f st = (Ok u, st') ↔
  f (snd st) = Ok (snd st') ∧ fst st' = fst st.
Proof. unfold change_world. destruct st, st'. cbn [fst snd]. destruct (f w), u; naive_solver. Qed.
Lemma from_fs_meta_modified w p meta md : from_fs_meta w p meta = (Ok md : outcome ReaderError _) →
  modified_at md = t ← fm_modified meta; unix_secs t.
Proof. unfold from_fs_meta, current_unix_timestamp_secs. destruct (unix_secs (clock w)); [|done]. cbn. by intros [= <-]. Qed.
Lemma unix_secs_ok t : 0 ≤ t → unix_secs t = Some (t / 1000000000).
Proof. intros Ht. unfold unix_secs. by rewrite (proj2 (Z.leb_le 0 t)). Qed.

Definition idle (s : FilesystemScanner) : Prop := current_action s = None ∧ next_file_for_insertion s = None.

Lemma initiate_spec L s w p r s' w' : scan_inv L s w → world_ok w → idle s → U p → L !! p = None →
  initiate_file_insertion p (s, w) = (Ok r, (s', w')) →
  ∃ c meta, (∃ md, r = RrNewSource md) ∧ files w' !! p = Some (FsFile c meta) ∧ scan_inv (<[p := c]> L) s' w' ∧
    current_action s' = Some (ActRead p) ∧ same_outside w w'.
Proof.
  intros Hi Hw [Ha Hn] HU HL. unfold initiate_file_insertion. intros Hg. eff_inv.
  rewrite cached_file_path_eq in Hm5 by apply Hi. apply change_world_ok in Hm5 as [Hcopy Hfst]. cbn [fst snd] in *.
  subst w'. destruct st5 as [s1 w1]. cbn [fst snd] in *. subst s1.
  apply fs_copy_ok in Hcopy as (c & meta & meta' & Hf & ->).
  unfold fs_metadata in Hm0. rewrite Hf in Hm0. injection Hm0 as <-.
  destruct (proj2 Hw p c meta HU Hf) as (t & Ht & Hpos & Hc).
  rewrite (from_fs_meta_modified _ _ _ _ Hm1), Ht in Hm2. cbn in Hm2. rewrite unix_secs_ok in Hm2 by done. injection Hm2 as <-.
  exists c, meta. split; [by eexists|]. cbn [files with_files]. split; [|split; [|split; [done|by apply same_outside_cache]]].
  { rewrite lookup_insert_ne; [done|]. intros E. by apply (cache_apart p p). }
  destruct Hi as [? ? ? ? Hwi Hk Hh Hm Hcp Hpl Hd]. split; cbn; try done.
  - intros q d. destruct (decide (p = q)) as [<-|]; simplify_map_eq; eauto.
  - intros q. destruct (decide (p = q)) as [<-|]; simplify_map_eq; [done|apply Hk].
  - intros q u d. destruct (decide (p = q)) as [<-|]; simplify_map_eq; [naive_solver|apply Hh].
  - intros q. destruct (decide (p = q)) as [<-|]; simplify_map_eq; [done|apply Hm].
  - intros q d. destruct (decide (p = q)) as [<-|]; simplify_map_eq; [naive_solver|]. intros Hq.
    rewrite lookup_insert_ne; [by apply Hcp|]. intros E. apply cache_inj in E; eauto.
  - by rewrite Hn.
Qed.

Lemma next_deletion_spec L s w o s' w' : scan_inv L s w → idle s → next_deletion_entry (s, w) = (Ok o, (s', w')) →
  w' = w ∧
  match o with
  | None => s' = s ∧ ∀ p t, known_files s !! p = Some t → needs_deletion w (p, t) = Ok false
  | Some r => ∃ p c meta, (∃ md, r = RrNewSource md) ∧ L !! p = Some c ∧ files w !! cpath p = Some (FsFile c meta) ∧
                          scan_inv (delete p L) s' w ∧ current_action s' = Some (ActDelete p)
  end.
Proof.
  intros Hi [Ha Hn]. unfold next_deletion_entry. intros Hg. eff_inv.
  destruct (path_for_deletion w _ None) as [sel| |] eqn:Hsel; try done. rename select (Ok sel = _) into E. injection E as <-.
  apply path_for_deletion_spec in Hsel as Hm. destruct sel as [p|].
  2: { eff_inv. split; [done|]. split; [done|]. intros p t Hp. apply Hm. by apply elem_of_map_to_list. }
  destruct Hm as [?|(t & Ht%elem_of_map_to_list & Hneeds)]; [done|].
  destruct (cached_metadata s !! p) as [md|] eqn:Emd; [|by eff_inv]. eff_inv. split; [done|].
  destruct Hi as [? ? ? ? Hwi Hk Hh Hmd Hcp Hpl Hd]. destruct (proj1 (Hk p)) as [c Hc]; [by eexists|].
  destruct (Hcp p c Hc) as [meta Hcopy]. exists p, c, meta. split; [by eexists|]. split; [done|]. split; [done|].
  split; [|by destruct (path_exists w p)].
  assert (∀ q d, delete p L !! q = Some d → L !! q = Some d) as Hsub by (intros q d [_ ?]%lookup_delete_Some; done).
  assert (delete p L !! p = None) as Hgone by apply lookup_delete_eq.
  assert (U p) as HU by eauto.
  split; [by destruct (path_exists w p)..|eauto| | | |eauto| |].
  - intros q. replace (known_files _) with (delete p (known_files s)) by (by destruct (path_exists w p)).
    destruct (decide (p = q)) as [<-|]; simplify_map_eq; [by split; intros []|apply Hk].
  - intros q u d. replace (known_files _) with (delete p (known_files s)) by (by destruct (path_exists w p)).
    intros [_ ?]%lookup_delete_Some ?%Hsub. by apply Hh.
  - intros q. replace (cached_metadata _) with (delete p (cached_metadata s)) by (by destruct (path_exists w p)).
    destruct (decide (p = q)) as [<-|]; simplify_map_eq; [by intros []|apply Hmd].
  - intros q. destruct (path_exists w p); cbn; [|by rewrite Hn]. by intros [= <-].
  - intros q Hq. assert (q = p) as -> by (destruct (path_exists w p); naive_solver). by eauto 10.
Qed.

(** The end of the previous action: the copy of a deleted file is removed. *)
Lemma finish_action_spec L s w (u : unit) s' w' : scan_inv L s w → world_ok w →
  match current_action s with
  | Some (ActDelete path) =>
      match cached_file_path s path with
      | Some cached_path => change_world (λ w, fs_remove_file w cached_path)
      | None => lift (Panic "in case of enabled deletions cache should exist")
      end
  | _ => mret tt
  end (with_current_action None s, w) = (Ok u, (s', w')) →
  s' = with_current_action None s ∧ same_outside w w' ∧ scan_inv L s' w'.
Proof.
  intros Hi Hw Hg. assert (scan_inv L (with_current_action None s) w) as Hi0 by (destruct Hi; by split).
  destruct (current_action s) as [[p|p]|] eqn:Ea; [injection Hg as <- <- <-; by auto using same_outside_refl| |injection Hg as <- <- <-; by auto using same_outside_refl].
  rewrite cached_file_path_eq in Hg by apply Hi. apply change_world_ok in Hg as [Hr Hfst]. cbn [fst snd] in *. subst s'.
  split; [done|]. destruct (si_deleting _ _ _ Hi p Ea) as (HU & HL & _).
  unfold fs_remove_file in Hr. destruct (files w !! cpath p) as [[]|]; try done. injection Hr as <-.
  split; [by apply same_outside_uncache|]. destruct Hi0 as [? ? ? ? Hwi Hk Hh Hmd Hcp Hpl Hd]. split; cbn; try done.
  intros q d Hq. rewrite lookup_delete_ne; [by apply Hcp|]. intros E. apply cache_inj in E; [naive_solver|done|by eauto].
Qed.

(** Every file that the patterns select is known with its contents, and no known file
    is gone or has other contents. *)
Definition up_to_date (L : gmap string (list Z)) (w : World) : Prop :=
  (∀ p, watched w p → ∃ c meta, files w !! p = Some (FsFile c meta) ∧ L !! p = Some c) ∧
  (∀ p c, L !! p = Some c → match files w !! p with
                            | None => False
                            | Some (FsFile c' _) => c = c'
                            | Some _ => True
                            end).
Lemma needs_deletion_false L s w p t c : scan_inv L s w → world_ok w → known_files s !! p = Some t → L !! p = Some c →
  needs_deletion w (p, t) = Ok false →
  match files w !! p with None => False | Some (FsFile c' _) => c = c' | Some _ => True end.
Proof.
  intros Hi Hw Hk HL. unfold needs_deletion, fs_metadata. cbn [fst snd].
  destruct (files w !! p) as [[c' meta| |]|] eqn:Ef; try done.
  destruct (proj2 Hw p c' meta (si_within _ _ _ Hi _ _ HL) Ef) as (t' & -> & Ht' & ->). unfold expect_unix_secs.
  rewrite unix_secs_ok by done. cbn. intros [= Eq%negb_false_iff%Z.eqb_eq].
  rewrite Eq. by eapply si_hist.
Qed.
Lemma quiet_up_to_date L s w (ps : list string) : scan_inv L s w → world_ok w →
  (∀ p t, known_files s !! p = Some t → needs_deletion w (p, t) = Ok false) →
  (∀ p, p ∈ ps ↔ watched w p) →
  (∀ p, p ∈ ps → is_file w p = true → known_files s !! p = None → ∃ meta, fs_metadata w p = Ok meta ∧ fm_modified meta = None) →
  up_to_date L w.
Proof.
  intros Hi Hw Hdel Hps Hins.
  assert (∀ p c, L !! p = Some c → match files w !! p with None => False | Some (FsFile c' _) => c = c' | Some _ => True end) as Hcur.
  { intros p c HL. destruct (proj2 (si_known _ _ _ Hi p)) as [t Ht]; [by eexists|]. by eapply needs_deletion_false, Hdel. }
  split; [|done]. intros p Hp. pose proof (proj1 Hp) as Hf. destruct (proj1 (is_file_iff w p) Hf) as (c & meta & Ef).
  exists c, meta. split; [done|]. destruct (L !! p) as [c'|] eqn:HL.
  { specialize (Hcur p c' HL). rewrite Ef in Hcur. by rewrite Hcur. }
  destruct (Hins p) as (meta' & Hm & Hnone); [by apply Hps|done| |].
  { apply eq_None_not_Some. rewrite (si_known _ _ _ Hi). by rewrite HL; intros []. }
  assert (U p) as HU by by eapply watched_within.
  destruct (world_ok_meta w p meta' Hw HU Hf Hm) as (? & ? & ? & _). congruence.
Qed.

(** What the scanner decides to do next. *)
Definition acted (L L' : gmap string (list Z)) (o : option (ReadResult ReaderContext SourceMetadata))
    (s : FilesystemScanner) (w : World) : Prop :=
  match current_action s with
  | None => L' = L ∧ next_file_for_insertion s = None ∧ (o = None → up_to_date L' w) ∧ (∀ r, o = Some r → r = RrFinishedSource true)
  | Some (ActRead p) =>
      ∃ c meta md, L !! p = None ∧ L' = <[p := c]> L ∧ files w !! p = Some (FsFile c meta) ∧ o = Some (RrNewSource md)
  | Some (ActDelete p) =>
      ∃ c meta md, L !! p = Some c ∧ L' = delete p L ∧ files w !! cpath p = Some (FsFile c meta) ∧ o = Some (RrNewSource md)
  end.

Lemma initiate_acted L s w p r s' w' : scan_inv L s w → world_ok w → idle s → U p → L !! p = None →
  initiate_file_insertion p (s, w) = (Ok r, (s', w')) →
  ∃ L', scan_inv L' s' w' ∧ same_outside w w' ∧ acted L L' (Some r) s' w'.
Proof.
  intros Hi Hw Hidle HU HL Hg.
  destruct (initiate_spec L s w p r s' w' Hi Hw Hidle HU HL Hg) as (c & meta & [md ->] & Hf & Hi' & Ha & Ho).
  exists (<[p := c]> L). split; [done|]. split; [done|]. unfold acted. rewrite Ha. eauto 10.
Qed.
Lemma next_insertion_acted L s w o s' w' : scan_inv L s w → world_ok w → idle s →
  (∀ p t, known_files s !! p = Some t → needs_deletion w (p, t) = Ok false) →
  next_insertion_entry (s, w) = (Ok o, (s', w')) →
  ∃ L', scan_inv L' s' w' ∧ same_outside w w' ∧ acted L L' o s' w'.
Proof.
  intros Hi Hw Hidle Hdel. unfold next_insertion_entry. intros Hg.
  apply bind_eff_ok in Hg as (ps & st1 & Hmatch & Hg). apply get_matching_spec in Hmatch as [-> Hps]; [|apply Hi..].
  apply bind_eff_ok in Hg as (sel & st2 & Hsel & Hg).
  apply select_file_spec in Hsel as [-> Hsel]; [|apply Hi]. destruct sel as [[p t]|].
  - cbn [fst] in Hsel. destruct Hsel as [?|(Hp & Hf & Hk)]; [done|].
    apply bind_eff_ok in Hg as (r & st3 & Hinit & Hg). injection Hg as <- ->. eapply initiate_acted; try done.
    + by apply watched_within with w, Hps.
    + apply eq_None_not_Some. rewrite <- (si_known _ _ _ Hi), Hk. by intros [].
  - injection Hg as <- <- <-. exists L. split; [done|]. split; [done|]. unfold acted.
    destruct Hidle as [-> ->]. split; [done|]. split; [done|]. split; [|done]. intros _. destruct Hsel as [_ Hsel].
    by eapply quiet_up_to_date.
Qed.
Lemma next_action_spec L s w o s' w' : scan_inv L s w → world_ok w → next_action_determined (s, w) = (Ok o, (s', w')) →
  ∃ L', scan_inv L' s' w' ∧ same_outside w w' ∧ acted L L' o s' w'.
Proof.
  intros Hi Hw. unfold next_action_determined. intros Hg.
  eff_inv. destruct st1 as [s1 w1].
  apply (finish_action_spec L) in Hm1 as (-> & Ho1 & Hi1); [|done..]. cbn [fst snd] in *.
  assert (world_ok w1) as Hw1 by by eapply same_outside_ok.
  destruct (next_file_for_insertion s) as [p|] eqn:Ep.
  - eff_inv. destruct (si_planned _ _ _ Hi p Ep) as [HU HL].
    assert (scan_inv L (with_next_file_for_insertion None (with_current_action None s)) w1) as Hi2
      by (destruct Hi1; by split).
    destruct (path_exists w1 p).
    + apply bind_eff_ok in Hg as (r & st3 & Hinit & Hg). injection Hg as <- ->.
      destruct (initiate_acted L _ w1 p r s' w' Hi2) as (L' & ? & ? & ?); eauto using same_outside_trans.
      by split.
    + injection Hg as <- <- <-. exists L. split; [done|]. split; [done|]. unfold acted. cbn. naive_solver.
  - assert (idle (with_current_action None s)) as Hidle by by split.
    rewrite (si_mode _ _ _ Hi) in Hg. cbn [are_deletions_enabled] in Hg.
    apply bind_eff_ok in Hg as (d & [s2 w2] & Hdel & Hg).
    destruct (next_deletion_spec L _ w1 d s2 w2 Hi1 Hidle Hdel) as [-> Hd]. destruct d as [r|].
    + injection Hg as <- <- <-. destruct Hd as (p & c & meta & [md ->] & HL & Hcp & Hi2 & Ha).
      exists (delete p L). split; [done|]. split; [done|]. unfold acted. rewrite Ha. eauto 10.
    + destruct Hd as [-> Hd].
      destruct (next_insertion_acted L _ w1 o s' w' Hi1 Hw1 Hidle Hd Hg) as (L' & ? & ? & ?).
      exists L'. eauto using same_outside_trans.
Qed.

(** ** The reader *)

Definition weighted (k : Z) (ls : list (list Z)) : list (list Z * Z) := map (λ l, (l, k)) ls.
Definition event_weight (e : DataEventType) : Z := match e with DeDelete => -1 | _ => 1 end.
(** What a result adds to the collection that was sent downstream. *)
Definition emits (o : option (ReadResult ReaderContext SourceMetadata)) : list (list Z * Z) :=
  match o with Some (RrData (RawBytes e l) _) => [(l, event_weight e)] | _ => [] end.
(** The entries of the known files. *)
Definition loaded (L : gmap string (list Z)) : list (list Z * Z) :=
  flat_map (λ f, weighted 1 (entries m (snd f))) (map_to_list L).

Lemma loaded_insert L p c f : L !! p = None → wsum f (loaded (<[p := c]> L)) = wsum f (weighted 1 (entries m c)) + wsum f (loaded L).
Proof. intros HL. unfold loaded. rewrite (map_to_list_insert L p c HL). cbn [flat_map snd]. by rewrite wsum_app. Qed.
Lemma loaded_delete L p c f : L !! p = Some c → wsum f (loaded L) = wsum f (weighted 1 (entries m c)) + wsum f (loaded (delete p L)).
Proof. intros HL. rewrite <- (insert_delete_id L p c HL) at 1. apply loaded_insert, lookup_delete_eq. Qed.
Lemma wsum_weighted f k ls : wsum f (weighted k ls) = k * wsum f (weighted 1 ls).
Proof. unfold weighted. induction ls as [|l ls IH]; cbn [map]; [cbn; lia|]. rewrite !wsum_cons, IH. cbn [fst snd]. ring. Qed.

(** The bytes of an open file that were not read yet, and the entries that are still to be sent. *)
Definition unread (w : World) (fr : FileReader) : list Z := bytes_left (match fs_read w (fr_file fr) with Some c => c | None => [] end) fr.
Definition pending (r : FilesystemReader) (w : World) : list (list Z * Z) :=
  match reader r, data_event_type (filesystem_scanner r) with
  | Some fr, Some e => weighted (event_weight e) (entries m (unread w fr))
  | _, _ => []
  end.
Record read_inv (sent : list (list Z * Z)) (L : gmap string (list Z)) (r : FilesystemReader) (w : World) : Prop := {
  ri_scan : scan_inv L (filesystem_scanner r) w;
  ri_method : read_method r = m;
  ri_sent : weq eq (sent ++ pending r w) (loaded L);
  ri_reader : reader r ≠ None → deferred_read_result r = None ∧ current_action (filesystem_scanner r) ≠ None;
  ri_open : ∀ fr, reader r = Some fr → is_Some (fs_read w (fr_file fr));
  ri_deferred : ∀ d, deferred_read_result r = Some d → d = finished_source (filesystem_scanner r)
}.
(** Nothing of a file is missing, and no replaced file waits for its new version. *)
Definition complete (sent : list (list Z * Z)) (L : gmap string (list Z)) (r : FilesystemReader) : Prop :=
  weq eq sent (loaded L) ∧ next_file_for_insertion (filesystem_scanner r) = None.

Lemma finished_complete s : finished_source s = RrFinishedSource true → next_file_for_insertion s = None.
Proof. unfold finished_source, has_planned_insertion. by destruct (next_file_for_insertion s). Qed.
Lemma read_entry_spec sent L r w fr o r' w' : read_inv sent L r w → reader r = Some fr →
  read_entry fr (r, w) = (Ok o, (r', w')) →
  w' = w ∧ read_inv (sent ++ emits (Some o)) L r' w' ∧ (o = RrFinishedSource true → complete (sent ++ emits (Some o)) L r').
Proof.
  intros [Hs Hm' Hsent Hr Hopen Hd] Hfr. destruct (Hopen fr Hfr) as [c Hc].
  unfold pending in Hsent. rewrite Hfr in Hsent. unfold unread in Hsent. rewrite Hc in Hsent.
  unfold read_entry. intros Hg. eff_inv. rewrite Hc in Hm1. injection Hm1 as <-.
  destruct (read_file_bytes (read_method r) c fr) as [line fr'] eqn:Eread. apply read_file_bytes_spec in Eread as [Eread Hfile].
  destruct (read_next_bytes_entries _ _ _ _ Eread) as [_ Hent]. rewrite Hm' in Hent, Hg. cbn [br_rest] in Hent.
  assert (fs_read w (fr_file fr') = Some c) as Hc' by by rewrite Hfile.
  destruct ((0 <? Z.of_nat (length line)) || is_full m) eqn:Emore; eff_inv.
  - match goal with E : match data_event_type _ with Some _ => _ | None => _ end = Ok ?e |- _ =>
      assert (data_event_type (filesystem_scanner r) = Some e) as He by (destruct (data_event_type _); naive_solver) end.
    rewrite He, Hent in Hsent.
    destruct (is_full m) eqn:Efull; eff_inv; simplify_eq.
    all: split; [done|]; split; [split; cbn; try done|done].
    + unfold pending. cbn. by rewrite app_nil_r.
    + naive_solver.
    + unfold pending, unread. cbn. rewrite He, Hc', <- app_assoc. by cbn in Hsent.
    + intros _. apply Hr. by rewrite Hfr.
    + intros fr2 [= <-]. by rewrite Hc'.
  - rewrite Hent in Hsent. assert (weq eq sent (loaded L)) as Hall.
    { rewrite <- Hsent. destruct (data_event_type _); cbn; by rewrite app_nil_r. }
    simplify_eq. split; [done|]. cbn [emits finished_source]. rewrite app_nil_r. split; [split; cbn; try done|].
    + unfold pending. cbn. by rewrite app_nil_r.
    + intros Hcm. split; [done|]. by apply finished_complete.
Qed.

(** Opening a file. *)
Definition opened (w : World) (c : list Z) (fr : FileReader) (w' : World) : Prop :=
  files w' = files w ∧ clock w' = clock w ∧ fs_read w' (fr_file fr) = Some c ∧ bytes_left c fr = c.
Lemma open_file_ok {S} (r : S) w path c meta : files w !! path = Some (FsFile c meta) →
  ∃ file w', open_file RdIo path (r, w) = (Ok file, (r, w')) ∧ opened w c (open_file_reader file) w'.
Proof.
  intros Hf. eexists _, _. split; [unfold open_file, fs_open, fs_contents; cbn [snd]; by rewrite Hf|].
  split; [done|]. split; [done|]. split; [|done]. unfold fs_read. cbn. rewrite lookup_app_r, Nat.sub_diag by done. done.
Qed.
(** Opening the file of the action that was determined. *)
Lemma open_source_spec r file c meta (res : ReadResult ReaderContext SourceMetadata) w :
  current_file (filesystem_scanner r) = Some file → files w !! file = Some (FsFile c meta) →
  ∃ fr w', (self ← gets fst;
   _ ← match current_file (filesystem_scanner self) with
       | Some selected_file =>
           file ← open_file RdIo selected_file;
           set_reader (with_reader (Some (open_file_reader file)))
       | None => mret tt
       end;
   mret (Some res)) (r, w) = (Ok (Some res), (with_reader (Some fr) r, w')) ∧ opened w c fr w'.
Proof.
  intros Hfile Hf. destruct (open_file_ok r w file c meta Hf) as (fd & w' & Hopen & Hopened).
  exists (open_file_reader fd), w'. split; [|done]. eff_run. rewrite Hfile.
  erewrite bind_eff by (erewrite bind_eff by exact Hopen; reflexivity). done.
Qed.
Lemma scan_inv_files L s w w' : files w' = files w → scan_inv L s w → scan_inv L s w'.
Proof. intros Hf [? ? ? ? ? ? ? ? Hcp ? Hdel]. split; try done; by rewrite Hf. Qed.
Lemma opened_outside w c fr w' : opened w c fr w' → same_outside w w'.
Proof. intros (Hf & Hc & _). split; [done|]. by rewrite Hf. Qed.

Lemma read_spec sent L r w o r' w' : read_inv sent L r w → world_ok w → read (r, w) = (Ok o, (r', w')) →
  ∃ L', same_outside w w' ∧ read_inv (sent ++ emits o) L' r' w' ∧
    (o = None → complete (sent ++ emits o) L' r' ∧ up_to_date L' w') ∧
    (o = Some (RrFinishedSource true) → complete (sent ++ emits o) L' r').
Proof.
  intros Hi Hw. unfold read. intros Hg. eff_inv. destruct (deferred_read_result r) as [d|] eqn:Ed.
  { eff_inv. simplify_eq. destruct Hi as [Hs Hm' Hsent Hr Hopen Hd]. rewrite (Hd d Ed). exists L. split; [done|].
    change (emits (Some (finished_source _))) with ([] : list (list Z * Z)). rewrite app_nil_r. assert (reader r = None) as Hnone by (destruct (reader r); [|done]; by destruct Hr as [Hr _]; [|rewrite Hr in Ed]).
    split; [|split; [done|]].
    - by split.
    - intros Hc%(inj Some). split; [|by apply finished_complete]. unfold pending in Hsent.
      by rewrite Hnone, app_nil_r in Hsent. }
  destruct (reader r) as [br|] eqn:Ebr.
  { apply bind_eff_ok in Hg as (res & st1 & Hentry & Hg). injection Hg as <- ->.
    destruct (read_entry_spec sent L r w br res r' w' Hi Ebr Hentry) as (-> & ? & Hc). exists L.
    split; [done|]. split; [done|]. split; [done|]. intros E%(inj Some). by apply Hc. }
    unfold scanning, zoom in Hg. apply bind_eff_ok in Hg as (next & [r1 w1] & Hnext & Hg). cbn [fst snd] in Hnext.
  destruct (next_action_determined (filesystem_scanner r, w)) as [res [s1 w1']] eqn:Eact.
  injection Hnext as -> <- <-. destruct Hi as [Hs Hm' Hsent Hr Hopen0 Hd].
  destruct (next_action_spec L _ w next s1 w1' Hs Hw Eact) as (L' & Hs1 & Ho & Hact).
  assert (weq eq sent (loaded L)) as Hall by (unfold pending in Hsent; by rewrite Ebr, app_nil_r in Hsent).
  unfold acted in Hact. destruct (current_action s1) as [[p|p]|] eqn:Ea.
  - destruct Hact as (c & meta & md & HL & -> & Hf & ->).
    destruct (open_source_spec (with_scanner s1 r) p c meta (RrNewSource md) w1') as (fr & w2 & Hopen & Hopened);
      [by unfold current_file; cbn; rewrite Ea|done|]. rewrite Hopen in Hg. injection Hg as <- <- <-.
    exists (<[p := c]> L). split; [by eapply same_outside_trans, opened_outside|]. split; [|done].
    destruct Hopened as (Hfiles & _ & Hread & Hleft).
    split; cbn; rewrite ?Ed, ?Ea; try done; [by eapply scan_inv_files| |by intros ? [= <-]; rewrite Hread].
    unfold pending, unread, data_event_type. cbn. rewrite Ea, Hread, Hleft. intros f Hf'. cbn [event_weight]. rewrite app_nil_r, wsum_app, loaded_insert, (Hall f Hf') by done. lia.
  - destruct Hact as (c & meta & md & HL & -> & Hf & ->).
    destruct (open_source_spec (with_scanner s1 r) (cpath p) c meta (RrNewSource md) w1') as (fr & w2 & Hopen & Hopened);
      [unfold current_file; cbn; rewrite Ea; by apply cached_file_path_eq, Hs1|done|]. rewrite Hopen in Hg. injection Hg as <- <- <-.
    exists (delete p L). split; [by eapply same_outside_trans, opened_outside|]. split; [|done].
    destruct Hopened as (Hfiles & _ & Hread & Hleft).
    split; cbn; rewrite ?Ed, ?Ea; try done; [by eapply scan_inv_files| |by intros ? [= <-]; rewrite Hread].
    unfold pending, unread, data_event_type. cbn. rewrite Ea, Hread, Hleft. intros f Hf'. cbn [event_weight]. rewrite app_nil_r, wsum_app, wsum_weighted, (Hall f Hf'), (loaded_delete L p c) by done. lia.
  - destruct Hact as (-> & Hn & Hup & Hsome). exists L.
    assert (r' = with_scanner s1 r ∧ w' = w1' ∧ o = next) as (-> & -> & ->).
    { destruct next as [res|].
      - apply bind_eff_ok in Hg as (self & st & Hself & Hg). injection Hself as <- <-. cbn [fst filesystem_scanner with_scanner] in Hg.
        unfold current_file in Hg. rewrite Ea in Hg. eff_inv. by simplify_eq.
      - injection Hg as <- <- <-. by rewrite (si_mode _ _ _ Hs). }
    split; [done|]. assert (emits next = []) as ->
      by (destruct next; [by rewrite (Hsome _ eq_refl)|done]).
    rewrite app_nil_r. split; [|split; [intros E; split; [by split|by apply Hup]|by split]].
    split; cbn; rewrite ?Ed, ?Ebr; try done. unfold pending. cbn. by rewrite Ebr, app_nil_r.
Qed.

(** What happens over time: calls of [read], and changes of the directory. *)
Inductive run : list (list Z * Z) → FilesystemReader → World → Prop :=
| run_start r w : filesystem_reader_new src root Streaming m pattern = Ok r → world_ok w → run [] r w
| run_read sent r w o r' w' : run sent r w → read (r, w) = (Ok o, (r', w')) → run (sent ++ emits o) r' w'
| run_change sent r w w' : run sent r w → world_ok w' → (∀ p, U p → files w' !! cpath p = files w !! cpath p) →
    (∀ fr, reader r = Some fr → fs_read w' (fr_file fr) = fs_read w (fr_file fr)) → run sent r w'.

Lemma run_inv sent r w : run sent r w → world_ok w ∧ ∃ L, read_inv sent L r w.
Proof.
  induction 1 as [r w Hnew Hw|sent r w o r' w' _ [Hw [L Hi]] Hread|sent r w w' _ [Hw [L Hi]] Hw' Hcache Hkept].
  - split; [done|]. exists ∅. unfold filesystem_reader_new, scanner_new in Hnew. destruct (glob_valid src); [|done].
    injection Hnew as <-. split; cbn; try done. split; cbn; try done.
    all: intros p; rewrite ?lookup_empty; try done; by split; intros [].
  - destruct (read_spec sent L r w o r' w' Hi Hw Hread) as (L' & Ho & ? & _). split; [by eapply same_outside_ok|by exists L'].
  - split; [done|]. exists L. destruct Hi as [Hs ? Hsent ? Hopen ?]. split; try done.
    + destruct Hs as [? ? ? ? Hwi ? ? ? Hcp ? Hdel]. split; try done.
      * intros p c HL. rewrite Hcache by eauto. eauto.
      * intros p Ha. destruct (Hdel p Ha) as (? & ? & ?). by rewrite Hcache.
    + unfold pending, unread in *. destruct (reader r) as [fr|]; [|done]. by rewrite Hkept.
    + intros fr Hfr. rewrite Hkept by done. by apply Hopen.
Qed.


(** ** Catching up *)

Section catch_up.
(** The files are ordinary ones, and are not in the way of the copies in the cache;
    the patterns are valid and do not look into the cache. *)
Definition plain (w : World) : Prop :=
  ∀ p, U p → match files w !! p with None | Some (FsFile _ _) => True | _ => False end ∧
             match files w !! cpath p with None | Some (FsFile _ _) => True | _ => False end.
Context (glob_outside : ∀ w w' g, same_outside w w' → glob_paths w' g = glob_paths w g).
Context (src_valid : glob_valid src = true).
Context (nested_valid : ∀ w entry, entry ∈ glob_paths w src → glob_valid (entry +:+ "/**/" +:+ pattern) = true).
Context (wraps : overflow_checks = false).

Lemma matching_files_total w entry : entry ∈ glob_paths w src → ∃ ps, matching_files w pattern entry = Ok ps.
Proof.
  intros He. unfold matching_files. destruct (is_file w entry); [by eexists|]. destruct (utf8_valid _); [|by eexists].
  rewrite (nested_valid w entry He). by eexists.
Qed.
Lemma get_matching_total s w : path s = src → object_pattern s = pattern → ∃ ps, get_matching_file_paths (s, w) = (Ok ps, (s, w)).
Proof.
  intros Hsrc Hpat. unfold get_matching_file_paths.
  destruct (try_collect_total (matching_files w pattern) (λ _ _, True) (glob_paths w src)) as (pss & Hpss & _).
  { intros entry He. destruct (matching_files_total w entry He) as [ps Hps]. by exists ps. }
  exists (concat pss). do 2 eff_run. rewrite Hsrc, Hpat, src_valid. unfold lift at 1. rewrite Hpss. by eff_run.
Qed.
Lemma select_file_total s w entries sel : streaming_mode s = Streaming → ∃ o, select_file entries sel (s, w) = (Ok o, (s, w)).
Proof.
  intros Hs. revert sel. induction entries as [|p entries IH]; intros sel; cbn [select_file]; [by eexists|]. do 2 eff_run.
  destruct (negb (is_file w p) || _); [apply IH|]. assert (modify_time p (s, w) =
    (Ok (match fs_metadata w p with Ok meta => fm_modified meta | _ => None end), (s, w))) as Ht.
  { unfold modify_time. do 2 eff_run. by rewrite Hs. }
  eff_run. destruct (fs_metadata w p) as [meta| |]; [destruct (fm_modified meta)|..]; apply IH.
Qed.

(** Whether a known file waits for its deletion. *)
Definition stale (w : World) (f : string * Z) : bool := match needs_deletion w f with Ok b => b | _ => false end.
Lemma needs_deletion_total w p t : world_ok w → plain w → U p → needs_deletion w (p, t) = Ok (stale w (p, t)).
Proof.
  intros Hw Hp HU. unfold stale, needs_deletion, fs_metadata. cbn [fst snd]. destruct (Hp p HU) as [Hf _].
  destruct (files w !! p) as [[c meta| |]|] eqn:Ef; [|done..].
  destruct (proj2 Hw p c meta HU Ef) as (u & -> & Hu & _). unfold expect_unix_secs. by rewrite unix_secs_ok.
Qed.
Lemma path_for_deletion_total w known sel : world_ok w → plain w → (∀ f, f ∈ known → U (fst f)) →
  ∃ o, path_for_deletion w known sel = Ok o.
Proof.
  intros Hw Hp. revert sel. induction known as [|[p t] known IH]; intros sel Hk; cbn [path_for_deletion]; [by eexists|].
  rewrite needs_deletion_total by (try done; by apply (Hk (p, t)); constructor). cbn [mbind outcome_bind].
  apply IH. intros f Hf. apply Hk. by constructor.
Qed.
Lemma from_fs_meta_total w p meta : 0 ≤ clock w → ∃ md, ∀ E, from_fs_meta w p meta = (Ok md : outcome E _).
Proof. intros Hc. eexists. intros E. unfold from_fs_meta, current_unix_timestamp_secs. by rewrite unix_secs_ok. Qed.
Lemma fs_copy_total w from to c meta : files w !! from = Some (FsFile c meta) →
  match files w !! to with None | Some (FsFile _ _) => True | _ => False end → ∃ w', fs_copy w from to = Ok w'.
Proof. intros Hf Hto. unfold fs_copy, fs_contents. rewrite Hf. cbn. destruct (files w !! to) as [[]|]; try done; by eexists. Qed.
Lemma fs_copy_plain w p w' : U p → plain w → fs_copy w p (cpath p) = Ok w' → plain w'.
Proof.
  intros HU Hp (c & meta & meta' & _ & ->)%fs_copy_ok q Hq. destruct (Hp q Hq) as [? ?]. cbn [files with_files].
  split; [rewrite lookup_insert_ne by (intros ?; by apply (cache_apart q p))|destruct (decide (cpath p = cpath q)) as [->|];
    [rewrite lookup_insert_eq|rewrite lookup_insert_ne by done]]; done.
Qed.
Lemma initiate_total L s w p : scan_inv L s w → world_ok w → plain w → U p → path_exists w p = true →
  ∃ md t w', initiate_file_insertion p (s, w) = (Ok (RrNewSource (Some md)),
    (with_current_action (Some (ActRead p)) (with_known_files (<[p := t]> (known_files s))
       (with_cached_metadata (<[p := Some md]> (cached_metadata s)) s)), w')) ∧ stale w (p, t) = false ∧ plain w'.
Proof.
  intros Hi Hw Hp HU Hex. unfold path_exists, fs_metadata in Hex. destruct (Hp p HU) as [Hfile Hcache].
  destruct (files w !! p) as [[c meta| |]|] eqn:Ef; try done. clear Hex Hfile.
  destruct (proj2 Hw p c meta HU Ef) as (t & Ht & Hpos & _). destruct (from_fs_meta_total w p meta (proj1 Hw)) as [md Hmd].
  assert (fs_metadata w p = Ok meta) as Hm by (unfold fs_metadata; by rewrite Ef).
  assert (modified_at md = Some (t / 1000000000)) as Hmod.
  { rewrite (from_fs_meta_modified w p meta md (Hmd ReaderError)), Ht. cbn. by apply unix_secs_ok. }
  destruct (fs_copy_total w p (cpath p) c meta Ef Hcache) as [w' Hcopy].
  exists md, (t / 1000000000), w'. split.
  - unfold initiate_file_insertion. do 4 (eff_run; rewrite ?Hm, ?Hmd, ?Hmod).
    do 2 eff_run. rewrite cached_file_path_eq by (cbn; apply Hi).
    assert (∀ s1 : FilesystemScanner, change_world (λ w, fs_copy w p (cpath p)) (s1, w) = (Ok tt, (s1, w'))) as Hch.
    { intros s1. unfold change_world. cbn [fst snd]. by rewrite Hcopy. }
    rewrite (bind_eff _ _ _ _ _ (Hch _)). by eff_run.
  - split; [|by eapply fs_copy_plain]. unfold stale, needs_deletion. cbn [fst snd]. rewrite Hm, Ht. unfold expect_unix_secs. rewrite unix_secs_ok by done.
    cbn. by rewrite Z.eqb_refl.
Qed.

(** Changes of the cache do not matter. *)
Lemma stale_outside w w' f : same_outside w w' → U (fst f) → stale w' f = stale w f.
Proof. intros [_ Hf] HU. unfold stale, needs_deletion, fs_metadata. by rewrite Hf. Qed.
Lemma is_file_outside w w' p : same_outside w w' → U p → is_file w' p = is_file w p.
Proof. intros [_ Hf] HU. unfold is_file. by rewrite Hf. Qed.
Lemma same_outside_sym w w' : same_outside w w' → same_outside w' w.
Proof. intros [Hc Hf]. split; [done|]. intros p HU. by rewrite Hf. Qed.
Lemma watched_outside w w' p : same_outside w w' → watched w p → watched w' p.
Proof.
  intros Ho Hp. pose proof (watched_within _ _ Hp) as HU. destruct Hp as (Hf & e & He & Hsel).
  split; [by rewrite (is_file_outside w w')|]. exists e. rewrite !(glob_outside w w' _ Ho). split; [done|].
  destruct Hsel as [|(Hdir & ? & ?)]; [by left|right]. split; [|done].
  destruct (is_file w' e) eqn:Ef'; [|done]. rewrite (is_file_outside w w') in Ef'; [congruence|done|].
  eapply (glob_within w' src); [by rewrite (glob_outside w w')|done].
Qed.

(** The calls of [read] until it waits. *)
Fixpoint poll (fuel : nat) (st : FilesystemReader * World)
    : option (list (ReadResult ReaderContext SourceMetadata) * (FilesystemReader * World)) :=
  match fuel with
  | O => None
  | S fuel =>
      match read st with
      | (Ok None, st) => Some ([], st)
      | (Ok (Some result), st) =>
          match poll fuel st with Some (results, st) => Some (result :: results, st) | None => None end
      | _ => None
      end
  end.
Definition sent_by (results : list (ReadResult ReaderContext SourceMetadata)) : list (list Z * Z) :=
  flat_map (λ result, emits (Some result)) results.

Section unchanged.
(** The actions that are left while the files stay as in [w0], where the patterns
    select [W]. *)
Context (w0 : World) (W : list string) (W_watched : ∀ p, p ∈ W ↔ watched w0 p) (W_nodup : NoDup W).
Definition unknown (k : gmap string Z) (p : string) : bool := match k !! p with Some _ => false | None => true end.
Definition work (s : FilesystemScanner) : nat :=
  3 * length (List.filter (stale w0) (map_to_list (known_files s)))
  + (if has_planned_insertion s then 1 else 0) + length (List.filter (unknown (known_files s)) W).

Lemma filter_length_mono {A} (f g : A → bool) (l : list A) : (∀ x, x ∈ l → f x = true → g x = true) →
  (length (List.filter f l) ≤ length (List.filter g l))%nat.
Proof.
  induction l as [|x l IH]; intros Hfg; cbn; [done|]. assert (length (List.filter f l) ≤ length (List.filter g l))%nat as IH'.
  { apply IH. intros y Hy. apply Hfg. by constructor. }
  destruct (f x) eqn:Ef; [rewrite (Hfg x) by (done || by constructor)|destruct (g x)]; cbn; lia.
Qed.
(** Changing a predicate at one element of a list without duplicates. *)
Lemma filter_length_one (f g : string → bool) l p : NoDup l → (∀ x, x ∈ l → x ≠ p → f x = g x) →
  (length (List.filter f l) ≤ S (length (List.filter g l)))%nat ∧
  (p ∈ l → f p = true → g p = false → length (List.filter f l) = S (length (List.filter g l))).
Proof.
  induction 1 as [|x l Hx Hnd IH]; intros Hfg; [split; [cbn; lia|by intros ?%elem_of_nil]|].
  destruct IH as [IH1 IH2]; [intros y Hy; apply Hfg; by constructor|].
  destruct (decide (x = p)) as [->|Hne].
  - assert (length (List.filter f l) = length (List.filter g l)) as Heq.
    { assert (∀ y, y ∈ l → f y = g y) as Hsame by (intros y Hy; apply Hfg; [by constructor|by intros ->]).
      apply Nat.le_antisymm; apply filter_length_mono; intros y Hy; by rewrite Hsame. }
    cbn. split; [destruct (f p), (g p); cbn; lia|]. intros _ -> ->. cbn. lia.
  - cbn. rewrite (Hfg x) by (done || constructor). split; [destruct (g x); cbn; lia|].
    intros Hp%elem_of_cons ? ?. destruct Hp as [->|Hp]; [done|]. destruct (g x); cbn; rewrite IH2 by done; done.
Qed.

Lemma unknown_insert (k : gmap string Z) p t :
  (length (List.filter (unknown (<[p := t]> k)) W) ≤ length (List.filter (unknown k) W))%nat ∧
  (p ∈ W → k !! p = None → length (List.filter (unknown k) W) = S (length (List.filter (unknown (<[p := t]> k)) W))).
Proof.
  split.
  - apply filter_length_mono. intros q _. unfold unknown. destruct (decide (p = q)) as [<-|]; by simplify_map_eq.
  - intros Hp Hn. apply filter_length_one with p; try done.
    + intros q _ Hq. unfold unknown. by rewrite lookup_insert_ne.
    + unfold unknown. by rewrite Hn.
    + unfold unknown. by rewrite lookup_insert_eq.
Qed.
Lemma unknown_delete (k : gmap string Z) p :
  (length (List.filter (unknown (delete p k)) W) ≤ S (length (List.filter (unknown k) W)))%nat.
Proof. apply filter_length_one with p; [done|]. intros q _ Hq. unfold unknown. by rewrite lookup_delete_ne. Qed.
Lemma filter_length_perm {A} (f : A → bool) l l' : l ≡ₚ l' → length (List.filter f l) = length (List.filter f l').
Proof.
  induction 1 as [|x l l' _ IH|x y l|l1 l2 l3 _ IH1 _ IH2]; cbn; [done| | |congruence].
  - destruct (f x); cbn; congruence.
  - by destruct (f x), (f y).
Qed.
Lemma stale_insert (k : gmap string Z) p t : k !! p = None → stale w0 (p, t) = false →
  length (List.filter (stale w0) (map_to_list (<[p := t]> k))) = length (List.filter (stale w0) (map_to_list k)).
Proof. intros Hk Hs. rewrite (filter_length_perm _ _ _ (map_to_list_insert k p t Hk)). cbn. by rewrite Hs. Qed.
Lemma stale_delete (k : gmap string Z) p t : k !! p = Some t → stale w0 (p, t) = true →
  length (List.filter (stale w0) (map_to_list k)) = S (length (List.filter (stale w0) (map_to_list (delete p k)))).
Proof. intros Hk Hs. rewrite <- (filter_length_perm _ _ _ (map_to_list_delete k p t Hk)). cbn. by rewrite Hs. Qed.

Lemma finish_action_total L s w : scan_inv L s w → ∃ w',
  match current_action s with
  | Some (ActDelete path) =>
      match cached_file_path s path with
      | Some cached_path => change_world (λ w, fs_remove_file w cached_path)
      | None => lift (Panic "in case of enabled deletions cache should exist")
      end
  | _ => mret tt
  end (with_current_action None s, w) = (Ok tt : outcome ReaderError unit, (with_current_action None s, w')) ∧
  (plain w → plain w').
Proof.
  intros Hi. destruct (current_action s) as [[p|p]|] eqn:Ea; [by exists w| |by exists w].
  rewrite cached_file_path_eq by apply Hi. destruct (si_deleting _ _ _ Hi p Ea) as (HU & _ & c & meta & Hf).
  exists (with_files (delete (cpath p) (files w)) w). split.
  - unfold change_world, fs_remove_file. cbn [fst snd]. by rewrite Hf.
  - intros Hp q Hq. destruct (Hp q Hq) as [? ?]. cbn [files with_files].
    split; [rewrite lookup_delete_ne by (intros ?; by apply (cache_apart q p))|destruct (decide (cpath p = cpath q)) as [->|];
      [rewrite lookup_delete_eq|rewrite lookup_delete_ne by done]]; done.
Qed.

Lemma initiate_work L s w p : scan_inv L s w → world_ok w → plain w → same_outside w0 w →
  U p → L !! p = None → path_exists w p = true → next_file_for_insertion s = None →
  ∃ r s' w', initiate_file_insertion p (s, w) = (Ok r, (s', w')) ∧ plain w' ∧
    (work s' ≤ work s)%nat ∧ (p ∈ W → (work s' < work s)%nat).
Proof.
  intros Hi Hw Hp Ho HU HL Hex Hn. destruct (initiate_total L s w p Hi Hw Hp HU Hex) as (md & t & w' & Hinit & Hst & Hp').
  assert (known_files s !! p = None) as Hk.
  { apply eq_None_not_Some. rewrite (si_known _ _ _ Hi), HL. by intros []. }
  rewrite (stale_outside w0 w (p, t) Ho HU) in Hst. destruct (unknown_insert (known_files s) p t) as [Hle Hlt].
  eexists _, _, w'. split; [exact Hinit|]. split; [done|]. unfold work, has_planned_insertion. cbn.
  rewrite stale_insert, Hn by done. split; [lia|]. intros HpW. rewrite (Hlt HpW Hk). lia.
Qed.
Lemma next_deletion_work L s w : scan_inv L s w → world_ok w → plain w → same_outside w0 w → next_file_for_insertion s = None →
  ∃ o s', next_deletion_entry (s, w) = (Ok o, (s', w)) ∧ (o = None ∨ (work s' < work s)%nat).
Proof.
  intros Hi Hw Hp Ho Hn. unfold next_deletion_entry. do 2 eff_run.
  destruct (path_for_deletion_total w (map_to_list (known_files s)) None Hw Hp) as [sel Hsel].
  { intros [p t] Ht%elem_of_map_to_list. destruct (proj1 (si_known _ _ _ Hi p)) as [c Hc]; [by eexists|]. by eapply si_within. }
  rewrite Hsel. eff_run. apply path_for_deletion_spec in Hsel. destruct sel as [p|]; [|by eexists _, s; auto].
  destruct Hsel as [?|(t & Ht%elem_of_map_to_list & Hneeds)]; [done|].
  destruct (proj1 (si_known _ _ _ Hi p)) as [c Hc]; [by eexists|].
  destruct (si_meta _ _ _ Hi p) as [md Hmd]; [by eexists|]. rewrite Hmd. eff_run.
  eexists _, _. split; [done|]. right. unfold work, has_planned_insertion.
  assert (stale w0 (p, t) = true) as Hst.
  { rewrite <- (stale_outside w0 w (p, t) Ho (si_within _ _ _ Hi p c Hc)). unfold stale. by rewrite Hneeds. }
  rewrite (stale_delete _ p t Ht Hst), Hn. pose proof (unknown_delete (known_files s) p).
  destruct (path_exists w p); cbn; rewrite ?Hn; lia.
Qed.
Lemma next_insertion_work L s w : scan_inv L s w → world_ok w → plain w → same_outside w0 w → next_file_for_insertion s = None →
  ∃ o s' w', next_insertion_entry (s, w) = (Ok o, (s', w')) ∧ plain w' ∧ (o = None ∨ (work s' < work s)%nat).
Proof.
  intros Hi Hw Hp Ho Hn. unfold next_insertion_entry.
  destruct (get_matching_total s w (si_path _ _ _ Hi) (si_pattern _ _ _ Hi)) as [ps Hps]. eff_run.
  destruct (get_matching_spec s w ps _ (si_path _ _ _ Hi) (si_pattern _ _ _ Hi) Hps) as [_ Hwatched].
  destruct (select_file_total s w ps None (si_mode _ _ _ Hi)) as [sel Hsel]. eff_run.
  destruct (select_file_spec s w ps None sel _ (si_mode _ _ _ Hi) Hsel) as [_ Hs]. destruct sel as [[p t]|]; [|by eauto 10].
  destruct Hs as [?|(Hin & Hf & Hk)]; [done|]. cbn [fst] in *. apply Hwatched in Hin as Hwa.
  assert (L !! p = None) as HL by (apply eq_None_not_Some; rewrite <- (si_known _ _ _ Hi), Hk; by intros []).
  assert (path_exists w p = true) as Hex.
  { unfold path_exists. by destruct (fs_metadata_file w p Hf) as [? ->]. }
  destruct (initiate_work L s w p Hi Hw Hp Ho (watched_within _ _ Hwa) HL Hex Hn) as (r & s' & w' & Hinit & Hp' & _ & Hlt).
  eff_run. eexists _, s', w'. split; [done|]. split; [done|]. right. apply Hlt, W_watched.
  by eapply watched_outside; [apply same_outside_sym|].
Qed.
Lemma next_action_work L s w : scan_inv L s w → world_ok w → plain w → same_outside w0 w →
  ∃ o s' w', next_action_determined (s, w) = (Ok o, (s', w')) ∧ plain w' ∧ (o = None ∨ (work s' < work s)%nat).
Proof.
  intros Hi Hw Hp Ho. destruct (finish_action_total L s w Hi) as (w1 & Hfin & Hp1). specialize (Hp1 Hp).
  destruct (finish_action_spec L s w tt _ w1 Hi Hw Hfin) as (_ & Ho1 & Hi1).
  assert (world_ok w1) as Hw1 by by eapply same_outside_ok. assert (same_outside w0 w1) as Ho2 by by eapply same_outside_trans.
  unfold next_action_determined. do 3 eff_run. eff_run. destruct (next_file_for_insertion s) as [p|] eqn:Ep.
  - eff_run. destruct (si_planned _ _ _ Hi p Ep) as [HU HL].
    assert (scan_inv L (with_next_file_for_insertion None (with_current_action None s)) w1) as Hi2
      by (destruct Hi1; by split).
    assert (work (with_next_file_for_insertion None (with_current_action None s)) < work s)%nat as Hlt.
    { unfold work, has_planned_insertion. cbn. rewrite Ep. lia. }
    destruct (path_exists w1 p) eqn:Hex; [|by eauto 10].
    destruct (initiate_work L _ w1 p Hi2 Hw1 Hp1 Ho2 HU HL Hex eq_refl) as (r & s' & w' & Hinit & Hp' & Hle & _).
    eff_run. eexists _, s', w'. split; [done|]. split; [done|]. right. lia.
  - rewrite (si_mode _ _ _ Hi). cbn [are_deletions_enabled].
    assert (work (with_current_action None s) = work s) as Hsame by done. rewrite <- Hsame.
    destruct (next_deletion_work L _ w1 Hi1 Hw1 Hp1 Ho2 Ep) as (d & s' & Hdel & Hd). eff_run.
    destruct d as [r|]; [by destruct Hd; eauto 10|].
    destruct (next_deletion_spec L _ w1 None s' w1 Hi1 (conj eq_refl Ep) Hdel) as (_ & -> & _).
    by apply (next_insertion_work L).
Qed.

(** The calls of [read] that are left until the open file is read. *)
Definition left_to_read (r : FilesystemReader) (w : World) : nat :=
  (match reader r with Some fr => 2 + length (unread w fr) | None => 0 end)
  + (match deferred_read_result r with Some _ => 1 | None => 0 end).

Lemma read_next_bytes_shorter br line br' : read_next_bytes m br = (line, br') → (0 <? Z.of_nat (length line)) = true →
  (length (br_rest br') < length (br_rest br))%nat.
Proof.
  unfold read_next_bytes. intros Hr Hl%Z.ltb_lt. destruct m; [|injection Hr as <- <-; cbn; lia].
  destruct (split_line (br_rest br)) as [l rest] eqn:E. injection Hr as <- <-. apply split_line_app in E as ->.
  cbn. rewrite length_app. lia.
Qed.
Lemma u64_arith_wraps z : ∃ n, ∀ E, u64_arith z = (Ok n : outcome E Z).
Proof. unfold u64_arith. rewrite wraps. destruct (in_u64 z); by eexists. Qed.
Lemma read_entry_total sent L r w fr : read_inv sent L r w → reader r = Some fr →
  ∃ res r', read_entry fr (r, w) = (Ok res, (r', w)) ∧ filesystem_scanner r' = filesystem_scanner r ∧
            (left_to_read r' w < left_to_read r w)%nat.
Proof.
  intros [Hs Hm' _ Hr Hopen _] Hfr. destruct Hr as [Hd Ha]; [by rewrite Hfr|]. destruct (Hopen fr Hfr) as [c Hc].
  unfold read_entry. do 2 eff_run. rewrite Hm', Hc. eff_run.
  destruct (read_file_bytes m c fr) as [line fr'] eqn:Eread. apply read_file_bytes_spec in Eread as [Eread Hfile]. eff_run.
  destruct (u64_arith_wraps (total_entries_read r + 1)) as [n Hn].
  assert (∃ file e, current_offset_file (filesystem_scanner r) = Some file ∧ data_event_type (filesystem_scanner r) = Some e)
    as (file & e & Hcur & He).
  { unfold current_offset_file, data_event_type. destruct (current_action _) as [[p|p]|]; by eauto. }
  unfold left_to_read. rewrite Hfr, Hd. destruct ((0 <? Z.of_nat (length line)) || is_full m) eqn:Emore.
  - rewrite Hn, Hcur, He. do 4 eff_run. destruct (is_full m) eqn:Efull.
    + eff_run. eexists _, _. split; [done|]. split; [done|]. cbn. lia.
    + eff_run. eexists _, _. split; [done|]. split; [done|]. cbn. rewrite Hd. unfold unread. rewrite Hfile, Hc.
      apply read_next_bytes_shorter in Eread; [cbn in Eread; lia|]. by rewrite orb_false_r in Emore.
  - eff_run. eexists _, _. split; [done|]. split; [done|]. cbn. rewrite Hd. lia.
Qed.
Definition work_left (r : FilesystemReader) : nat := work (filesystem_scanner r).
Lemma read_total sent L r w : read_inv sent L r w → world_ok w → plain w → same_outside w0 w →
  ∃ o r' w', read (r, w) = (Ok o, (r', w')) ∧ plain w' ∧
    (o = None ∨ work_left r' < work_left r ∨ work_left r' = work_left r ∧ left_to_read r' w' < left_to_read r w)%nat.
Proof.
  intros Hi Hw Hp Ho. unfold read. eff_run. destruct (deferred_read_result r) as [d|] eqn:Ed.
  { eff_run. eexists _, _, w. split; [done|]. split; [done|]. right. right. unfold left_to_read. rewrite Ed. cbn. lia. }
  destruct (reader r) as [br|] eqn:Ebr.
  { destruct (read_entry_total sent L r w br Hi Ebr) as (res & r' & Hres & Hs & Hlt). eff_run. eexists _, r', w.
    split; [done|]. split; [done|]. right. right. unfold work_left. by rewrite Hs. }
  pose proof (ri_scan _ _ _ _ Hi) as Hs.
  destruct (next_action_work L _ w Hs Hw Hp Ho) as (next & s1 & w1 & Hact & Hp1 & Hless).
  destruct (next_action_spec L _ w next s1 w1 Hs Hw Hact) as (L' & Hs1 & Ho1 & Hacted).
  assert (scanning next_action_determined (r, w) = (Ok next, (with_scanner s1 r, w1))) as Hscan.
  { unfold scanning, zoom. cbn [fst snd]. by rewrite Hact. }
  eff_run. destruct next as [res|].
  2: { rewrite (si_mode _ _ _ Hs). by eexists None, _, w1; auto. }
  destruct Hless as [|Hless]; [done|]. eff_run. cbn [filesystem_scanner with_scanner].
  destruct (current_file s1) as [file|] eqn:Efile; [|by eff_run; eexists _, _, w1; auto].
  assert (∃ c meta, files w1 !! file = Some (FsFile c meta)) as (c & meta & Hf).
  { unfold acted in Hacted. unfold current_file in Efile. destruct (current_action s1) as [[p|p]|] eqn:Ea; [| |done].
    - injection Efile as ->. destruct Hacted as (c & meta & md & _ & _ & Hf & _). by exists c, meta.
    - rewrite cached_file_path_eq in Efile by apply Hs1. injection Efile as <-.
      destruct Hacted as (c & meta & md & _ & _ & Hf & _). by exists c, meta. }
  destruct (open_file_ok (with_scanner s1 r) w1 file c meta Hf) as (fd & w2 & Hfd & Hopened & _).
  eexists _, _, w2. split; [erewrite bind_eff by (erewrite bind_eff by exact Hfd; reflexivity); done|].
  split; [unfold plain; by rewrite Hopened|]. by auto.
Qed.

Lemma poll_total sent L r w : read_inv sent L r w → world_ok w → plain w → same_outside w0 w →
  ∃ fuel results r' w' L', poll fuel (r, w) = Some (results, (r', w')) ∧ same_outside w0 w' ∧
    complete (sent ++ sent_by results) L' r' ∧ up_to_date L' w'.
Proof.
  remember (work_left r) as n eqn:Hn. revert sent L r w Hn.
  induction n as [n IHn] using lt_wf_ind. intros sent L r w Hn.
  remember (left_to_read r w) as k eqn:Hk. revert sent L r w Hn Hk.
  induction k as [k IHk] using lt_wf_ind. intros sent L r w -> -> Hi Hw Hp Ho.
  destruct (read_total sent L r w Hi Hw Hp Ho) as (o & r1 & w1 & Hread & Hp1 & Hless).
  destruct (read_spec sent L r w o r1 w1 Hi Hw Hread) as (L1 & Ho1 & Hi1 & Hwait & _).
  destruct o as [res|].
  - destruct Hless as [|Hless]; [done|].
    assert (∃ fuel results r' w' L', poll fuel (r1, w1) = Some (results, (r', w')) ∧ same_outside w0 w' ∧
      complete ((sent ++ emits (Some res)) ++ sent_by results) L' r' ∧ up_to_date L' w')
      as (fuel & results & r' & w' & L' & Hpoll & ? & Hc & ?).
    { assert (world_ok w1) by by eapply same_outside_ok. assert (same_outside w0 w1) by by eapply same_outside_trans.
      destruct Hless as [Hlt|[Heq Hlt]]; [by eapply IHn|]. by eapply IHk. }
    exists (S fuel), (res :: results), r', w', L'. cbn [poll]. rewrite Hread, Hpoll. split; [done|]. split; [done|].
    cbn [sent_by flat_map]. by rewrite <- app_assoc in Hc.
  - exists 1%nat, [], r1, w1, L1. cbn [poll]. rewrite Hread. split; [done|]. split; [by eapply same_outside_trans|].
    by apply Hwait.
Qed.
End unchanged.

End catch_up.

Lemma run_poll fuel sent r w results r' w' : run sent r w → poll fuel (r, w) = Some (results, (r', w')) →
  run (sent ++ sent_by results) r' w'.
Proof.
  revert sent r w results. induction fuel as [|fuel IH]; intros sent r w results Hrun; cbn [poll]; [done|].
  destruct (read (r, w)) as [[[res|]|e|e] [r1 w1]] eqn:Eread; try done.
  - destruct (poll fuel (r1, w1)) as [[results1 st]|] eqn:Epoll; [|done]. intros [= <- ->].
    pose proof (run_read _ _ _ _ _ _ Hrun Eread) as Hrun1. specialize (IH _ _ _ _ Hrun1 Epoll).
    by rewrite <- app_assoc in IH.
  - intros [= <- <- <-]. exact (run_read _ _ _ _ _ _ Hrun Eread).
Qed.
End tracking.

(** ** A directory with two files *)

Module Sample.
Import Concrete.
#[export] Instance release : Profile := false.
(** The pattern [d/*] and the files [d/a] and [d/b]. *)
#[export] Instance glob : Glob := {|
  glob_valid _ := true;
  glob_paths w g :=
    if String.eqb g "d/*" then List.filter (λ p, bool_decide (is_Some (files w !! p))) ["d/a"; "d/b"]%string else []
|}.
Definition inside (p : string) : Prop := p = "d/a"%string ∨ p = "d/b"%string.
(** The text of a file is the second of its modification, on two lines. *)
Definition text (p : string) (t : Z) : list Z := [t; 10; t; 10].
Definition file (t : Z) : FsEntry := FsFile (text "" t) (mk_FileMeta (Some (t * 1000000000)) None None).
Definition world1 : World := mk_World {[ "d/a"%string := file 1 ]} 1000000000 [].
Definition reader0 (m : ReadMethod) : FilesystemReader :=
  mk_FilesystemReader m None (mk_FilesystemScanner "d/*" (Some "cache"%string) Streaming "*" ∅ None ∅ None ∅) 0 None.
Definition polled1 : list (ReadResult ReaderContext SourceMetadata) * (FilesystemReader * World) :=
  default ([], (reader0 ByLine, world1)) (poll 10 (reader0 ByLine, world1)).
(** Then [d/a] is replaced and [d/b] appears. *)
Definition world2 : World :=
  mk_World (<["d/a"%string := file 2]> (<["d/b"%string := file 1]> (files (snd (snd polled1))))) 2000000000
    (open_files (snd (snd polled1))).

Example polled1_entries : sent_by (fst polled1) = [([1; 10], 1); ([1; 10], 1)].
Proof. vm_compute. reflexivity. Qed.
Example polled2_entries :
  (λ r, sent_by (fst r)) <$> poll 20 (fst (snd polled1), world2) =
  Some [([1; 10], -1); ([1; 10], -1); ([2; 10], 1); ([2; 10], 1); ([1; 10], 1); ([1; 10], 1)].
Proof. vm_compute. reflexivity. Qed.

Lemma glob_within_sample w g p : p ∈ glob_paths w g → is_file w p = true → inside p.
Proof.
  unfold inside. cbn. destruct (String.eqb g "d/*"); [|by intros ?%elem_of_nil]. intros Hp _.
  destruct (bool_decide _), (bool_decide _); rewrite ?elem_of_cons, ?elem_of_nil in Hp; tauto.
Qed.
Lemma cache_apart_sample p q : inside p → inside q → p ≠ cpath "cache" q.
Proof. by intros [->| ->] [->| ->]. Qed.
Lemma cache_inj_sample p q : inside p → inside q → cpath "cache" p = cpath "cache" q → p = q.
Proof. intros [->| ->] [->| ->]; [done| | |done]; vm_compute; discriminate. Qed.
Lemma world1_ok : world_ok inside text world1.
Proof.
  split; [done|]. intros p c meta [->| ->]; [|done]. intros [= <- <-]. by exists 1000000000.
Qed.
Lemma world2_ok : world_ok inside text world2.
Proof.
  split; [done|]. unfold world2. cbn [files with_files].
  intros p c meta [->| ->]; simplify_map_eq; intros [= <- <-]; [by exists 2000000000|by exists 1000000000].
Qed.
Lemma polled1_run : run "cache" "d/*" "*" ByLine inside text (sent_by (fst polled1)) (fst (snd polled1)) (snd (snd polled1)).
Proof.
  rewrite <- (app_nil_l (sent_by _)). apply (run_poll _ _ _ _ _ _ 10 _ (reader0 ByLine) world1).
  - apply run_start; [done|apply world1_ok].
  - vm_compute. reflexivity.
Qed.
Lemma polled2_run : run "cache" "d/*" "*" ByLine inside text (sent_by (fst polled1)) (fst (snd polled1)) world2.
Proof.
  eapply run_change; [apply polled1_run|apply world2_ok| |by vm_compute]. intros p Hp. unfold world2. cbn [files with_files].
  rewrite !lookup_insert_ne; [done|..]; intros E; by destruct (cache_apart_sample _ _ (or_introl eq_refl) Hp E)
    || by destruct (cache_apart_sample _ _ (or_intror eq_refl) Hp E).
Qed.
Lemma glob_outside_sample w w' g : same_outside inside w w' → glob_paths w' g = glob_paths w g.
Proof. intros [_ Hf]. cbn. by rewrite (Hf "d/a"%string (or_introl eq_refl)), (Hf "d/b"%string (or_intror eq_refl)). Qed.
Lemma world2_plain : plain "cache" inside world2.
Proof. intros p [->| ->]; vm_compute; by split. Qed.

(** A file that is written in place while it is open: what was sent of it is not what its
    copy in the cache holds, so that its deletion does not take it back. *)
Definition written_while_open : option (list (list Z * Z)) :=
  match read (reader0 ByLine, world1) with
  | (Ok _, (r, w)) =>
      (λ polled, sent_by (fst polled)) <$>
        poll 20 (r, mk_World (<["d/a"%string := file 2]> (files w)) 2000000000 [Some (text "" 2)])
  | _ => None
  end.
Example written_while_open_entries : written_while_open =
  Some [([2; 10], 1); ([2; 10], 1); ([1; 10], -1); ([1; 10], -1); ([2; 10], 1); ([2; 10], 1)].
Proof. vm_compute. reflexivity. Qed.

(** A reader of whole files that continues at the end of the file it had read sends an
    empty entry. *)
Definition static_reader : FilesystemReader :=
  mk_FilesystemReader Full None (mk_FilesystemScanner "d/*" None Static "*" ∅ None ∅ None ∅) 0 None.
Definition seek_and_read (r : FilesystemReader) (position : Z) : outcome ReaderError (option (ReadResult ReaderContext SourceMetadata)) :=
  fst ((_ ← seek (advance_offset OffsetAntichain_new OkEmpty (FilePosition 1 "d/a" position)); read) (r, world1)).
Example restart_of_full_reader :
  seek_and_read static_reader 4 = Ok (Some (RrData (RawBytes DeInsert []) (OkEmpty, FilePosition 2 "d/a" 4))).
Proof. vm_compute. reflexivity. Qed.
(** A polling reader that continues from an offset panics when the file has changed. *)
Example restart_of_polling_reader :
  fst ((_ ← seek (advance_offset OffsetAntichain_new OkEmpty (FilePosition 2 "d/a" 4)); _ ← read;
        _ ← modify (λ st, (fst st, mk_World {["d/a"%string := file 2]} 2000000000 (open_files (snd st)))); read) (reader0 ByLine, world1))
  = Panic "inconsistency between known_files and cached_metadata".
Proof. vm_compute. reflexivity. Qed.
End Sample.

Import Concrete Sample.

