(* ===== verification/Readers.v ===== *)
(** The connectors of Kafka, Python, S3 and Sqlite (KafkaReader, PythonReader,
    S3Scanner, S3CsvReader, S3GenericReader and SqliteReader of
    src/connectors/data_storage.rs).

    The services are parameters: a Kafka consumer and a Python subject are states with
    the calls the readers make, a bucket and a database are what they answer at the
    time of a call, and may be others at the next one.  As in [Files], a [read] is one
    turn of the loop of the source's [read], and gives [None] where the source goes on
    with the loop (after it slept, or at once for Kafka). *)
From Stdlib Require Import ZArith Lia Bool Ascii.
From stdpp Require Import base list strings gmap.
From S2P Require Import Prelude Effects Order Float Text Data Externals Value Timestamp Snapshot Connector DataFormat Files.
Open Scope Z_scope.

(** [ReadError]; the errors of a library are not told apart, but for their origin. *)
Inductive StorageError :=
| SeIo
| SeKafka
| SeCsv
| SeS3 (command : S3CommandName)
| SeSqlite
| SePy
| SeNoObjectsToRead.
Abbreviation Result := (ReadResult ReaderContext SourceMetadata).
(** [Reader::max_allowed_consecutive_errors]: of the trait, and of [KafkaReader]. *)
Definition max_allowed_consecutive_errors (kafka : bool) : nat := if kafka then 32 else 0.

(** ** Kafka *)

Record KafkaMessage := mk_KafkaMessage {
  km_key : option (list Z);
  km_payload : option (list Z);
  km_topic : string;
  km_partition : Z;
  km_offset : Z
}.
(** [BaseConsumer]. *)
Class KafkaConsumer (C : Type) := {
  consumer_poll : C → outcome unit KafkaMessage * C;
  consumer_seek : C → string → Z → Z → outcome unit unit * C
}.

Record KafkaReader (C : Type) := mk_KafkaReader {
  consumer : C;
  topic : string;
  positions_for_seek : gmap Z Z
}.
Arguments mk_KafkaReader {C} consumer topic positions_for_seek.
Arguments consumer {C} k.
Arguments topic {C} k.
Arguments positions_for_seek {C} k.

Section kafka.
Context {C : Type} `{KafkaConsumer C, Profile}.
Abbreviation Read := (eff (KafkaReader C) StorageError).

Definition kafka_reader_new (consumer : C) (topic : string) : KafkaReader C := mk_KafkaReader consumer topic ∅.
Definition with_consumer (c : C) (r : KafkaReader C) : KafkaReader C := mk_KafkaReader c (topic r) (positions_for_seek r).
Definition with_positions (p : gmap Z Z) (r : KafkaReader C) : KafkaReader C := mk_KafkaReader (consumer r) (topic r) p.

Definition kafka_poll : Read KafkaMessage :=
  self ← gets id;
  let '(r, c) := consumer_poll (consumer self) in
  _ ← modify (with_consumer c);
  lift (map_err (λ _, SeKafka) r).
(** An error of the seek is only logged. *)
Definition kafka_seek_consumer (topic : string) (partition offset : Z) : Read unit :=
  self ← gets id;
  modify (with_consumer (snd (consumer_seek (consumer self) topic partition offset))).
Definition kafka_read : Read (option Result) :=
  kafka_message ← kafka_poll;
  self ← gets id;
  let partition := km_partition kafka_message in
  match positions_for_seek self !! partition with
  | Some last_read_offset =>
      if km_offset kafka_message <=? last_read_offset then
        o ← lift (i64_arith (last_read_offset + 1));
        _ ← kafka_seek_consumer (km_topic kafka_message) partition o;
        mret None
      else
        _ ← modify (with_positions (delete partition (positions_for_seek self)));
        mret (Some (RrData (KeyValue (km_key kafka_message) (km_payload kafka_message))
                      (OkKafka (topic self) partition, KafkaOffset (km_offset kafka_message))))
  | None =>
      mret (Some (RrData (KeyValue (km_key kafka_message) (km_payload kafka_message))
                    (OkKafka (topic self) partition, KafkaOffset (km_offset kafka_message))))
  end.
(** [seek]: the positions are only noted; offsets of another kind or topic are skipped. *)
Definition kafka_position (topic : string) (o : Offset) (positions : gmap Z Z) : gmap Z Z :=
  match snd o with
  | KafkaOffset position =>
      match fst o with
      | OkKafka t partition => if (t =? topic)%string then <[partition := position]> positions else positions
      | OkEmpty => positions
      end
  | _ => positions
  end.
Definition kafka_seek (frontier : OffsetAntichain) (r : KafkaReader C) : KafkaReader C :=
  with_positions (foldr (kafka_position (topic r)) (positions_for_seek r) (map_to_list (antichain frontier))) r.
End kafka.

(** ** Python *)

(** [PythonSubject]. *)
Class PythonSubject (P : Type) := {
  subject_start : P → outcome unit unit * P;
  subject_read : P → outcome unit (DataEventType * option Value * ValuesMap) * P;
  subject_end : P → outcome unit unit * P;
  deletions_enabled : P → bool
}.
Record PythonReader (P : Type) := mk_PythonReader {
  subject : P;
  py_entries_read : Z;
  is_initialized : bool;
  is_finished : bool
}.
Arguments mk_PythonReader {P} subject py_entries_read is_initialized is_finished.
Arguments subject {P} p.
Arguments py_entries_read {P} p.
Arguments is_initialized {P} p.
Arguments is_finished {P} p.
Definition FINISH_LITERAL : string := "*FINISH*".

Section python.
Context {P : Type} `{PythonSubject P, Profile}.
Abbreviation Read := (eff (PythonReader P) StorageError).

Definition python_reader_build (subject : P) : PythonReader P := mk_PythonReader subject 0 false false.
Definition with_subject (s : P) (r : PythonReader P) : PythonReader P :=
  mk_PythonReader s (py_entries_read r) (is_initialized r) (is_finished r).
Definition py_call {A} (f : P → outcome unit A * P) : Read A :=
  self ← gets id;
  let '(r, s) := f (subject self) in
  _ ← modify (with_subject s);
  lift (map_err (λ _, SePy) r).
Definition is_insert (e : DataEventType) : bool := match e with DeInsert => true | _ => false end.
Definition python_seek (frontier : OffsetAntichain) (r : PythonReader P) : PythonReader P :=
  match get_offset frontier OkEmpty with
  | Some (PythonEntrySequentialId offset_value) =>
      mk_PythonReader (subject r) offset_value (is_initialized r) (is_finished r)
  | _ => r
  end.
Definition python_start : Read unit :=
  self ← gets id;
  if is_initialized self then mret tt
  else
    _ ← py_call subject_start;
    modify (λ r, mk_PythonReader (subject r) (py_entries_read r) true (is_finished r)).
Definition python_read : Read Result :=
  _ ← python_start;
  self ← gets id;
  if is_finished self then mret RrFinished
  else
    '(event, key, values) ← py_call subject_read;
    self ← gets id;
    if negb (is_insert event) && negb (deletions_enabled (subject self)) then lift (Err SePy)
    else if is_special values FINISH_LITERAL then
      _ ← modify (λ r, mk_PythonReader (subject r) (py_entries_read r) (is_initialized r) true);
      _ ← py_call subject_end;
      mret RrFinished
    else
      n ← lift (u64_arith (py_entries_read self + 1));
      _ ← modify (λ r, mk_PythonReader (subject r) n (is_initialized r) (is_finished r));
      mret (RrData (Diff event ((λ k, [k]) <$> key) values) (OkEmpty, PythonEntrySequentialId n)).
End python.

(** ** S3: the scanner *)

Record S3Object := mk_S3Object { s3_key : string; s3_last_modified : string }.
(** What the service answers: the pages of a listing; the bytes of an object that come
    through before the status code or an error. *)
Record S3Bucket := mk_S3Bucket {
  s3_list : string → outcome unit (list (list S3Object));
  s3_get : string → list Z * outcome unit Z
}.
(** [chrono::DateTime::parse_from_rfc3339], as the instant. *)
Class Rfc3339 := parse_from_rfc3339 : string → option Z.

(** [loader_result]: what joining the thread that fetches the object gives. *)
Record CurrentlyProcessedS3Object := mk_CurrentlyProcessedS3Object {
  loader_result : outcome StorageError unit;
  cpo_path : string
}.
Record S3Scanner := mk_S3Scanner {
  objects_prefix : string;
  current_object : option CurrentlyProcessedS3Object;
  processed_objects : gset string
}.
Definition with_current_object (o : option CurrentlyProcessedS3Object) (s : S3Scanner) : S3Scanner :=
  mk_S3Scanner (objects_prefix s) o (processed_objects s).
Definition with_processed_objects (p : gset string) (s : S3Scanner) : S3Scanner :=
  mk_S3Scanner (objects_prefix s) (current_object s) p.

Section s3_scanner.
Context `{Rfc3339}.

Definition list_objects (bucket : S3Bucket) (prefix : string) : outcome StorageError (list (list S3Object)) :=
  map_err (λ _, SeS3 ListObjectsV2) (s3_list bucket prefix).
Definition s3_scanner_new (bucket : S3Bucket) (objects_prefix : string) : outcome StorageError S3Scanner :=
  object_lists ← list_objects bucket objects_prefix;
  if existsb (λ l, negb (Nat.eqb (length l) 0)) object_lists then Ok (mk_S3Scanner objects_prefix None ∅)
  else Err SeNoObjectsToRead.
Definition stream_object_from_path_and_bucket (object_path : string) (bucket : S3Bucket)
    : CurrentlyProcessedS3Object * list Z :=
  let '(contents, code) := s3_get bucket object_path in
  (mk_CurrentlyProcessedS3Object
     (match code with
      | Ok code => if code =? 200 then Ok tt else Err (SeS3 GetObject)
      | Err _ => Err (SeS3 GetObject)
      | Panic p => Panic p
      end) object_path, contents).

Abbreviation Scan := (eff (S3Scanner * S3Bucket) StorageError).
Definition set_s3 (f : S3Scanner → S3Scanner) : Scan unit := modify (λ st, (f (fst st), snd st)).
Definition stream_object_from_path (object_path : string) : Scan (list Z) :=
  bucket ← gets snd;
  let '(current, pipe_reader) := stream_object_from_path_and_bucket object_path bucket in
  _ ← set_s3 (with_current_object (Some current));
  mret pipe_reader.

(** The smallest candidate by modification time and key. *)
Definition earlier_object (selected : option (Z * string)) (o : Z * string) : option (Z * string) :=
  match selected with
  | Some s => match then_cmp (cmp (fst s) (fst o)) (cmp (snd s) (snd o)) with Gt => Some o | _ => selected end
  | None => Some o
  end.
Definition select_object (processed : gset string) (selected : option (Z * string)) (object : S3Object) : option (Z * string) :=
  if bool_decide (s3_key object ∈ processed) then selected
  else match parse_from_rfc3339 (s3_last_modified object) with
       | Some last_modified => earlier_object selected (last_modified, s3_key object)
       | None => selected
       end.
Definition stream_next_object : Scan (option (list Z)) :=
  self ← gets fst;
  _ ← set_s3 (with_current_object None);
  _ ← lift (match current_object self with Some state => loader_result state | None => Ok tt end);
  bucket ← gets snd;
  object_lists ← lift (list_objects bucket (objects_prefix self));
  match fold_left (select_object (processed_objects self)) (concat object_lists) None with
  | Some (_, selected_object_name) =>
      pipe_reader ← stream_object_from_path selected_object_name;
      _ ← set_s3 (λ s, with_processed_objects ({[selected_object_name]} ∪ processed_objects s) s);
      mret (Some pipe_reader)
  | None => mret None
  end.

(** [seek_to_object]: the objects before the given one, and that one, were read. *)
Definition threshold_time (path : string) (t : option Z) (object : S3Object) : option Z :=
  if (s3_key object =? path)%string then
    match parse_from_rfc3339 (s3_last_modified object) with Some last_modified => Some last_modified | None => t end
  else t.
Definition mark_processed (threshold : Z) (path : string) (processed : gset string) (object : S3Object) : gset string :=
  match parse_from_rfc3339 (s3_last_modified object) with
  | Some last_modified =>
      match then_cmp (cmp last_modified threshold) (cmp (s3_key object) path) with
      | Lt => {[s3_key object]} ∪ processed
      | _ => processed
      end
  | None => processed
  end.
Definition seek_to_object (path : string) : Scan unit :=
  _ ← set_s3 (with_processed_objects ∅);
  self ← gets fst;
  bucket ← gets snd;
  object_lists ← lift (list_objects bucket (objects_prefix self));
  match fold_left (threshold_time path) (concat object_lists) None with
  | Some threshold_modification_time =>
      set_s3 (with_processed_objects
        ({[path]} ∪ fold_left (mark_processed threshold_modification_time path) (concat object_lists) ∅))
  | None => set_s3 (with_processed_objects ∅)
  end.
Definition expect_current_object_path (s : S3Scanner) : outcome StorageError string :=
  match current_object s with Some o => Ok (cpo_path o) | None => Panic "current object should be present" end.
End s3_scanner.

(** ** S3GenericReader *)

Record S3GenericReader := mk_S3GenericReader {
  s3_scanner : S3Scanner;
  poll_new_objects : bool;
  s3_read_method : ReadMethod;
  s3_reader : option BufReader;
  s3_entries_read : Z;
  current_bytes_read : Z;
  s3_deferred : option Result
}.
Definition with_s3_scanner (x : S3Scanner) (r : S3GenericReader) : S3GenericReader :=
  mk_S3GenericReader x (poll_new_objects r) (s3_read_method r) (s3_reader r) (s3_entries_read r) (current_bytes_read r) (s3_deferred r).
Definition with_s3_reader (x : option BufReader) (r : S3GenericReader) : S3GenericReader :=
  mk_S3GenericReader (s3_scanner r) (poll_new_objects r) (s3_read_method r) x (s3_entries_read r) (current_bytes_read r) (s3_deferred r).
(** [total_entries_read] and [current_bytes_read]. *)
Definition with_s3_counts (n bytes : Z) (r : S3GenericReader) : S3GenericReader :=
  mk_S3GenericReader (s3_scanner r) (poll_new_objects r) (s3_read_method r) (s3_reader r) n bytes (s3_deferred r).
Definition with_s3_deferred (x : option Result) (r : S3GenericReader) : S3GenericReader :=
  mk_S3GenericReader (s3_scanner r) (poll_new_objects r) (s3_read_method r) (s3_reader r) (s3_entries_read r) (current_bytes_read r) x.

Section s3_generic.
Context `{Rfc3339, Profile}.
Abbreviation Read := (eff (S3GenericReader * S3Bucket) StorageError).

Definition s3_generic_new (bucket : S3Bucket) (objects_prefix : string) (poll_new_objects : bool) (read_method : ReadMethod)
    : outcome StorageError S3GenericReader :=
  scanner ← s3_scanner_new bucket objects_prefix;
  Ok (mk_S3GenericReader scanner poll_new_objects read_method None 0 0 None).
Definition set_generic (f : S3GenericReader → S3GenericReader) : Read unit := modify (λ st, (f (fst st), snd st)).
Definition generic_scanning {A} (m : eff (S3Scanner * S3Bucket) StorageError A) : Read A :=
  zoom (λ st, (s3_scanner (fst st), snd st)) (λ t st, (with_s3_scanner (fst t) (fst st), snd t)) m.
Definition s3_stream_next : Read bool :=
  next ← generic_scanning stream_next_object;
  match next with
  | Some pipe_reader =>
      _ ← set_generic (λ r, with_s3_reader (Some (open_buf_reader pipe_reader)) (with_s3_counts (s3_entries_read r) 0 r));
      mret true
  | None => mret false
  end.
(** The next object, or the end of the turn. *)
Definition s3_next_source : Read (option Result) :=
  streamed ← s3_stream_next;
  self ← gets fst;
  mret (if (streamed : bool) then Some (RrNewSource None) else if poll_new_objects self then None else Some RrFinished).
Definition s3_generic_read : Read (option Result) :=
  self ← gets fst;
  match s3_deferred self with
  | Some deferred => _ ← set_generic (with_s3_deferred None); mret (Some deferred)
  | None =>
      match s3_reader self with
      | Some r =>
          let '(line, r) := read_next_bytes (s3_read_method self) r in
          let len := Z.of_nat (length line) in
          _ ← set_generic (with_s3_reader (Some r));
          if (0 <? len) || is_full (s3_read_method self) then
            n ← lift (u64_arith (s3_entries_read self + 1));
            bytes ← lift (u64_arith (current_bytes_read self + len));
            _ ← set_generic (with_s3_counts n bytes);
            path ← lift (expect_current_object_path (s3_scanner self));
            _ ← (if is_full (s3_read_method self) then
                   set_generic (λ r, with_s3_reader None (with_s3_deferred (Some (RrFinishedSource true)) r))
                 else mret tt);
            mret (Some (RrData (RawBytes DeInsert line) (OkEmpty, S3ObjectPosition n path bytes)))
          else s3_next_source
      | None => s3_next_source
      end
  end.

(** The loop of [seek]; [fuel]: more than the bytes left, of which each turn takes one. *)
Fixpoint skip_bytes (fuel : nat) (m : ReadMethod) (r : BufReader) (bytes_read bytes_offset : Z) : outcome StorageError (BufReader * Z) :=
  match fuel with
  | O => Ok (r, bytes_read)
  | S fuel =>
      if bytes_read <? bytes_offset then
        let '(line, r) := read_next_bytes m r in
        if Nat.eqb (length line) 0 then Ok (r, bytes_read)
        else
          bytes_read ← u64_arith (bytes_read + Z.of_nat (length line));
          skip_bytes fuel m r bytes_read bytes_offset
      else Ok (r, bytes_read)
  end.
Definition s3_generic_seek (frontier : OffsetAntichain) : Read unit :=
  match get_offset frontier OkEmpty with
  | Some (S3ObjectPosition entries path bytes_offset) =>
      _ ← generic_scanning (seek_to_object path);
      pipe_reader ← generic_scanning (stream_object_from_path path);
      self ← gets fst;
      '(r, bytes_read) ← lift (skip_bytes (S (length pipe_reader)) (s3_read_method self) (open_buf_reader pipe_reader) 0 bytes_offset);
      _ ← (if (bytes_read =? bytes_offset) then mret tt
           else lift (t ← u64_arith (bytes_offset + 1); if bytes_read =? t then Ok tt else _ ← u64_arith (bytes_offset + 2); Ok tt));
      set_generic (λ s, with_s3_reader (Some r) (with_s3_counts entries bytes_read s))
  | _ => mret tt
  end.
End s3_generic.

(** ** S3CsvReader *)

(** [csv::Reader::read_byte_record]: whether there was a record. *)
Class CsvByteRecords `{Csv} := csv_read_byte_record : CsvReader → outcome unit bool * CsvReader.

Section s3_csv.
Context `{Rfc3339, Csv, !CsvByteRecords, Profile}.

Record S3CsvReader := mk_S3CsvReader {
  s3c_scanner : S3Scanner;
  s3c_poll_new_objects : bool;
  s3c_parser_builder : CsvBuilder;
  s3c_csv_reader : option CsvReader;
  s3c_deferred : option Result;
  s3c_entries_read : Z
}.
Definition with_s3c_scanner (x : S3Scanner) (r : S3CsvReader) : S3CsvReader :=
  mk_S3CsvReader x (s3c_poll_new_objects r) (s3c_parser_builder r) (s3c_csv_reader r) (s3c_deferred r) (s3c_entries_read r).
Definition with_s3c_csv_reader (x : option CsvReader) (r : S3CsvReader) : S3CsvReader :=
  mk_S3CsvReader (s3c_scanner r) (s3c_poll_new_objects r) (s3c_parser_builder r) x (s3c_deferred r) (s3c_entries_read r).
Definition with_s3c_deferred (x : option Result) (r : S3CsvReader) : S3CsvReader :=
  mk_S3CsvReader (s3c_scanner r) (s3c_poll_new_objects r) (s3c_parser_builder r) (s3c_csv_reader r) x (s3c_entries_read r).
Definition with_s3c_entries_read (n : Z) (r : S3CsvReader) : S3CsvReader :=
  mk_S3CsvReader (s3c_scanner r) (s3c_poll_new_objects r) (s3c_parser_builder r) (s3c_csv_reader r) (s3c_deferred r) n.

Abbreviation Read := (eff (S3CsvReader * S3Bucket) StorageError).
Definition s3_csv_new (bucket : S3Bucket) (objects_prefix : string) (parser_builder : CsvBuilder) (poll_new_objects : bool)
    : outcome StorageError S3CsvReader :=
  scanner ← s3_scanner_new bucket objects_prefix;
  Ok (mk_S3CsvReader scanner poll_new_objects parser_builder None None 0).
Definition set_s3c (f : S3CsvReader → S3CsvReader) : Read unit := modify (λ st, (f (fst st), snd st)).
Definition s3c_scanning {A} (m : eff (S3Scanner * S3Bucket) StorageError A) : Read A :=
  zoom (λ st, (s3c_scanner (fst st), snd st)) (λ t st, (with_s3c_scanner (fst t) (fst st), snd t)) m.
Definition s3c_stream_next : Read bool :=
  next ← s3c_scanning stream_next_object;
  match next with
  | Some pipe_reader =>
      _ ← set_s3c (λ r, with_s3c_csv_reader (Some (csv_from_bytes (s3c_parser_builder r) pipe_reader)) r);
      mret true
  | None => mret false
  end.
Definition s3c_next_source : Read (option Result) :=
  streamed ← s3c_stream_next;
  self ← gets fst;
  mret (if (streamed : bool) then Some (RrNewSource None) else if s3c_poll_new_objects self then None else Some RrFinished).
Definition s3_csv_read : Read (option Result) :=
  self ← gets fst;
  match s3c_deferred self with
  | Some deferred => _ ← set_s3c (with_s3c_deferred None); mret (Some deferred)
  | None =>
      match s3c_csv_reader self with
      | Some r =>
          let '(record, r) := csv_read_record r in
          _ ← set_s3c (with_s3c_csv_reader (Some r));
          record ← lift (map_err (λ _, SeCsv) record);
          match record with
          | Some current_record =>
              n ← lift (u64_arith (s3c_entries_read self + 1));
              _ ← set_s3c (with_s3c_entries_read n);
              path ← lift (expect_current_object_path (s3c_scanner self));
              mret (Some (RrData (TokenizedEntries DeInsert current_record) (OkEmpty, S3ObjectPosition n path (csv_position_byte r))))
          | None => s3c_next_source
          end
      | None => s3c_next_source
      end
  end.

(** The loop of [seek]; [fuel]: the bytes up to the offset, of which each record takes one. *)
Fixpoint skip_records (fuel : nat) (r : CsvReader) (current_offset bytes_offset : Z) : outcome StorageError (CsvReader * Z) :=
  match fuel with
  | O => Ok (r, current_offset)
  | S fuel =>
      if current_offset <? bytes_offset then
        let '(record, r) := csv_read_byte_record r in
        record ← map_err (λ _, SeCsv) record;
        if (record : bool) then skip_records fuel r (csv_position_byte r) bytes_offset else Ok (r, current_offset)
      else Ok (r, current_offset)
  end.
Definition s3_csv_seek (frontier : OffsetAntichain) : Read unit :=
  match get_offset frontier OkEmpty with
  | Some (S3ObjectPosition entries path bytes_offset) =>
      _ ← s3c_scanning (seek_to_object path);
      pipe_reader ← s3c_scanning (stream_object_from_path path);
      self ← gets fst;
      let csv_reader := csv_from_bytes (s3c_parser_builder self) pipe_reader in
      start ← (if 0 <? bytes_offset then
                 let '(header_record, csv_reader) := csv_read_record csv_reader in
                 header_record ← lift (map_err (λ _, SeCsv) header_record);
                 match header_record with
                 | Some header =>
                     _ ← set_s3c (with_s3c_deferred
                           (Some (RrData (TokenizedEntries DeInsert header) (OkEmpty, S3ObjectPosition entries path bytes_offset))));
                     mret (Some (csv_reader, csv_position_byte csv_reader))
                 | None => mret None
                 end
               else mret (Some (csv_reader, 0)));
      match start with
      | Some (csv_reader, current_offset) =>
          '(csv_reader, _) ← lift (skip_records (Z.to_nat (bytes_offset - current_offset)) csv_reader current_offset bytes_offset);
          set_s3c (λ r, with_s3c_csv_reader (Some csv_reader) (with_s3c_entries_read entries r))
      | None => mret tt
      end
  | _ => mret tt
  end.
End s3_csv.

(** ** Sqlite *)

Inductive SqliteValue := SqNull | SqInteger (i : Z) | SqReal (f : f64) | SqText (bs : list Z) | SqBlob (bs : list Z).
(** A connection: the data version, and the rows of a query, each with its cells, or
    the error met instead. *)
Record SqliteConnection := mk_SqliteConnection {
  data_version : Z;
  sqlite_query : string → outcome unit (list (outcome unit (list SqliteValue)))
}.
(** [FromSqlite for Value] and [for i64]. *)
Definition column_result (v : SqliteValue) : outcome StorageError Value :=
  match v with
  | SqNull => Ok VNone
  | SqInteger val => Ok (VInt val)
  | SqReal val => Ok (VFloat val)
  | SqText val => if utf8_valid val then Ok (VString (bytes_to_string val)) else Err SeSqlite
  | SqBlob val => Ok (VBytes val)
  end.
Definition column_i64 (v : SqliteValue) : outcome StorageError Z := match v with SqInteger i => Ok i | _ => Err SeSqlite end.
Definition row_get {A} (from : SqliteValue → outcome StorageError A) (row : list SqliteValue) (idx : nat) : outcome StorageError A :=
  match nth_error row idx with Some v => from v | None => Err SeSqlite end.

Record SqliteReader := mk_SqliteReader {
  table_name : string;
  column_names : list string;
  last_saved_data_version : option Z;
  stored_state : gmap Z ValuesMap;
  queued_updates : list Result
}.
Definition sqlite_reader_new (table_name : string) (column_names : list string) : SqliteReader :=
  mk_SqliteReader table_name column_names None ∅ [].
Definition sqlite_diff (event : DataEventType) (rowid : Z) (values : ValuesMap) : Result :=
  RrData (Diff event (Some [VInt rowid]) values) EMPTY_OFFSET.
(** [PartialEq] of [HashMap]. *)
Definition values_map_eqb (a b : ValuesMap) : bool :=
  Nat.eqb (size a) (size b) &&
  forallb (λ kv : string * Value, match b !! fst kv with Some v => Value_eqb (snd kv) v | None => false end) (map_to_list a).

Abbreviation Load := (eff SqliteReader StorageError).
Definition with_state (s : gmap Z ValuesMap) (r : SqliteReader) : SqliteReader :=
  mk_SqliteReader (table_name r) (column_names r) (last_saved_data_version r) s (queued_updates r).
Definition with_queue (q : list Result) (r : SqliteReader) : SqliteReader :=
  mk_SqliteReader (table_name r) (column_names r) (last_saved_data_version r) (stored_state r) q.
Definition with_version (v : option Z) (r : SqliteReader) : SqliteReader :=
  mk_SqliteReader (table_name r) (column_names r) v (stored_state r) (queued_updates r).
Definition push_updates (us : list Result) (r : SqliteReader) : SqliteReader := with_queue (queued_updates r ++ us) r.

Fixpoint row_values (row : list SqliteValue) (column_idx : nat) (names : list string) (values : ValuesMap) : outcome StorageError ValuesMap :=
  match names with
  | [] => Ok values
  | column_name :: names =>
      v ← row_get column_result row column_idx;
      row_values row (S column_idx) names (<[column_name := v]> values)
  end.
Definition parse_row (names : list string) (row : list SqliteValue) : outcome StorageError (Z * ValuesMap) :=
  rowid ← row_get column_i64 row (length names);
  values ← row_values row 0 names ∅;
  Ok (rowid, values).
Definition update_row (rowid : Z) (values : ValuesMap) (r : SqliteReader) : SqliteReader :=
  match stored_state r !! rowid with
  | Some current_values =>
      if values_map_eqb current_values values then r
      else with_state (<[rowid := values]> (stored_state r))
             (push_updates [sqlite_diff DeDelete rowid current_values; sqlite_diff DeInsert rowid values] r)
  | None => with_state (<[rowid := values]> (stored_state r)) (push_updates [sqlite_diff DeInsert rowid values] r)
  end.
(** The loop on the rows; returns their ids. *)
Fixpoint load_rows (rows : list (outcome unit (list SqliteValue))) (present_rowids : gset Z) : Load (gset Z) :=
  match rows with
  | [] => mret present_rowids
  | row :: rows =>
      row ← lift (map_err (λ _, SeSqlite) row);
      self ← gets id;
      '(rowid, values) ← lift (parse_row (column_names self) row);
      _ ← modify (update_row rowid values);
      load_rows rows ({[rowid]} ∪ present_rowids)
  end.
(** [retain]: the rows that are not there any more, in the order of the map. *)
Definition remove_row (present_rowids : gset Z) (r : SqliteReader) (kv : Z * ValuesMap) : SqliteReader :=
  if bool_decide (fst kv ∈ present_rowids) then r
  else with_state (delete (fst kv) (stored_state r)) (push_updates [sqlite_diff DeDelete (fst kv) (snd kv)] r).
Definition retain_rows (present_rowids : gset Z) (r : SqliteReader) : SqliteReader :=
  fold_left (remove_row present_rowids) (map_to_list (stored_state r)) r.
Definition finish_updates (r : SqliteReader) : SqliteReader :=
  match queued_updates r with [] => r | _ => push_updates [RrFinishedSource true] r end.
Definition select_query (r : SqliteReader) : string :=
  "SELECT " +:+ Text.join "," (column_names r) +:+ ",_rowid_ FROM " +:+ table_name r.
Definition load_table (connection : SqliteConnection) : Load unit :=
  self ← gets id;
  rows ← lift (map_err (λ _, SeSqlite) (sqlite_query connection (select_query self)));
  present_rowids ← load_rows rows ∅;
  modify (λ r, finish_updates (retain_rows present_rowids r)).
Definition sqlite_read (connection : SqliteConnection) : Load (option Result) :=
  self ← gets id;
  match queued_updates self with
  | queued_update :: queue => _ ← modify (with_queue queue); mret (Some queued_update)
  | [] =>
      let current_data_version := data_version connection in
      if bool_decide (last_saved_data_version self = Some current_data_version) then mret None
      else
        _ ← load_table connection;
        _ ← modify (with_version (Some current_data_version));
        mret (Some (RrNewSource None))
  end.
Definition sqlite_seek : Load unit :=
  lift (Panic "seek is not supported for Sqlite source: persistent history of changes unavailable").
