(* ===== verification/ReadersProps.v ===== *)
(** The connectors of Kafka, S3 and Sqlite: what they send is what the service holds,
    and a restart continues where the recorded offsets point. *)
From Stdlib Require Import ZArith Lia Bool Ascii.
From stdpp Require Import base list strings gmap sets.
From S2P Require Import Prelude Effects Order Text Data Externals Instances Value Timestamp Snapshot Connector DataFormat.
From S2P Require Import Files FilesProps Readers.
Open Scope Z_scope.

Ltac eff_split :=
  match goal with
  | H : modify _ _ = (Ok _, _) |- _ => injection H as <- <-
  | _ => eff_step
  end.

(** ** Sqlite *)

(** What a result makes of the collection sent so far: a deletion is of a row that is
    there, an insertion of a row id that is not. *)
Inductive applies : gmap Z ValuesMap → list Result → gmap Z ValuesMap → Prop :=
| applies_nil view : applies view [] view
| applies_insert view rowid values rs view' :
    view !! rowid = None → applies (<[rowid := values]> view) rs view' →
    applies view (sqlite_diff DeInsert rowid values :: rs) view'
| applies_delete view rowid values rs view' :
    view !! rowid = Some values → applies (delete rowid view) rs view' →
    applies view (sqlite_diff DeDelete rowid values :: rs) view'
| applies_new_source view meta rs view' : applies view rs view' → applies view (RrNewSource meta :: rs) view'
| applies_finished_source view allowed rs view' : applies view rs view' → applies view (RrFinishedSource allowed :: rs) view'.
#[local] Hint Constructors applies : core.
Lemma applies_app view rs view1 rs' view' : applies view rs view1 → applies view1 rs' view' → applies view (rs ++ rs') view'.
Proof. induction 1; simpl; auto. Qed.
(** The first result of a queue may be sent. *)
Lemma applies_cons view r rs view' : applies view (r :: rs) view' → ∃ view1, applies view [r] view1 ∧ applies view1 rs view'.
Proof. inversion 1; subst; eauto. Qed.

Definition read_row (names : list string) (row : outcome unit (list SqliteValue)) : outcome StorageError (Z * ValuesMap) :=
  row ← map_err (λ _, SeSqlite) row; parse_row names row.
(** The rows of a table, the last one of a row id counting. *)
Definition table_rows (names : list string) (connection : SqliteConnection) (query : string) : outcome StorageError (gmap Z ValuesMap) :=
  rows ← map_err (λ _, SeSqlite) (sqlite_query connection query);
  rows ← try_collect (read_row names) rows;
  Ok (fold_left (λ t kv, <[fst kv := snd kv]> t) rows ∅).
(** The same row ids, with equal values. *)
Definition same_rows (a b : gmap Z ValuesMap) : Prop :=
  ∀ rowid, match a !! rowid, b !! rowid with
           | Some x, Some y => values_map_eqb x y = true
           | None, None => True
           | _, _ => False
           end.

(** What is queued turns the collection of what was sent into the stored state. *)
Definition reflects (r : SqliteReader) (view : gmap Z ValuesMap) : Prop :=
  applies view (queued_updates r) (stored_state r).
Lemma reflects_push us state r view : reflects r view → applies (stored_state r) us state →
  reflects (with_state state (push_updates us r)) view.
Proof. unfold reflects. intros Hr Hus. by eapply applies_app. Qed.

Lemma update_row_reflects rowid values r view : reflects r view → reflects (update_row rowid values r) view.
Proof.
  intros Hr. unfold update_row. destruct (stored_state r !! rowid) as [cur|] eqn:Hcur.
  - destruct (values_map_eqb cur values); [done|]. apply reflects_push; [done|]. apply applies_delete; [done|].
    apply applies_insert; [apply lookup_delete_eq|]. rewrite insert_delete_eq. done.
  - apply reflects_push; [done|]. by apply applies_insert.
Qed.
Lemma load_rows_reflects rows present r view o r' :
  load_rows rows present r = (o, r') → reflects r view → reflects r' view.
Proof.
  revert present r. induction rows as [|row rows IH]; intros present r; cbn [load_rows].
  { by intros [= <- <-]. }
  unfold mbind, eff_bind, lift, gets, modify. destruct (map_err _ row) as [cells|e|p]; [|by intros [= <- <-]..].
  simpl. destruct (parse_row (column_names r) cells) as [[rowid values]|e|p]; [|by intros [= <- <-]..].
  intros Hl Hr. by eapply IH, update_row_reflects.
Qed.
Lemma retain_rows_spec present r :
  (∀ view, reflects r view → reflects (retain_rows present r) view) ∧
  (∀ rowid, stored_state (retain_rows present r) !! rowid = if bool_decide (rowid ∈ present) then stored_state r !! rowid else None).
Proof.
  unfold retain_rows.
  assert (Hl : ∀ kv, kv ∈ map_to_list (stored_state r) → stored_state r !! fst kv = Some (snd kv))
    by (intros []; apply elem_of_map_to_list).
  assert (Hd : ∀ rowid, rowid ∉ (map_to_list (stored_state r)).*1 → stored_state r !! rowid = None).
  { intros rowid Hn. apply eq_None_not_Some. intros [v Hv]. apply Hn, list_elem_of_fmap.
    exists (rowid, v). split; [done|]. by apply elem_of_map_to_list. }
  pose proof (NoDup_fst_map_to_list (stored_state r)) as Hnd. revert r Hl Hd Hnd.
  enough (Hall : ∀ l r, (∀ kv, kv ∈ l → stored_state r !! fst kv = Some (snd kv)) →
    (∀ rowid, rowid ∉ present → rowid ∉ l.*1 → stored_state r !! rowid = None) → NoDup l.*1 →
    (∀ view, reflects r view → reflects (fold_left (remove_row present) l r) view) ∧
    (∀ rowid, stored_state (fold_left (remove_row present) l r) !! rowid =
       if bool_decide (rowid ∈ present) then stored_state r !! rowid else None)).
  { intros r Hl Hd Hnd. apply Hall; auto. }
  induction l as [|[k v] l IH]; intros r Hl Hd Hnd; cbn [fold_left].
  { split; [done|]. intros rowid. case_bool_decide; [done|]. apply Hd; [done|]. apply not_elem_of_nil. }
  apply NoDup_cons in Hnd as [Hk Hnd]. unfold remove_row at 2 4. cbn [fst snd]. case_bool_decide as Hp.
  - apply IH; [|intros rowid Hp' Hn'; apply Hd; [done|]; intros [->|]%elem_of_cons; done|done].
    intros kv Hkv. apply Hl. by right.
  - assert (Hkv : stored_state r !! k = Some v) by (apply (Hl (k, v)); by left).
    set (r1 := with_state _ _). destruct (IH r1) as [Hr Hs]; [| |done|].
    + intros kv Hin. unfold r1. simpl. rewrite lookup_delete_ne; [apply Hl; by right|].
      intros ->. apply Hk, list_elem_of_fmap. by exists kv.
    + intros rowid Hp' Hn. unfold r1. simpl. destruct (decide (rowid = k)) as [->|Hne]; [apply lookup_delete_eq|].
      rewrite lookup_delete_ne by done. apply Hd; [done|]. intros [?|?]%elem_of_cons; done.
    + split.
      * intros view Hv. apply Hr, reflects_push; [done|]. by apply applies_delete.
      * intros rowid. rewrite Hs. case_bool_decide; [|done]. unfold r1. simpl. by rewrite lookup_delete_ne by (by intros ->).
Qed.
Lemma finish_updates_reflects r view : reflects r view → reflects (finish_updates r) view.
Proof.
  unfold reflects, finish_updates. intros Hr. destruct (queued_updates r) eqn:Hq; [by rewrite Hq|].
  simpl. rewrite Hq. eapply applies_app; eauto.
Qed.
Lemma load_table_reflects c r view o r' : load_table c r = (o, r') → reflects r view → reflects r' view.
Proof.
  unfold load_table, mbind, eff_bind, gets, lift, modify. intros Hl Hr.
  destruct (map_err _ _) as [rows|e|p]; [|by injection Hl as <- <-..]. simpl in Hl.
  destruct (load_rows rows ∅ r) as [[present|e|p] r1] eqn:Hrows; injection Hl as <- <-;
    (eapply load_rows_reflects in Hrows; [|exact Hr]); [|done..].
  by apply finish_updates_reflects, retain_rows_spec.
Qed.

Lemma values_map_eqb_refl m : values_map_eqb m m = true.
Proof.
  unfold values_map_eqb. rewrite Nat.eqb_refl. apply forallb_forall. intros [k v] Hkv%list_elem_of_In%elem_of_map_to_list.
  simpl. unfold ValuesMap in *. rewrite Hkv. apply Value_eqb_cmp, cmp_refl.
Qed.
(** The stored state holds the rows of [t] read so far. *)
Definition covers (r : SqliteReader) (present : gset Z) (t : gmap Z ValuesMap) : Prop :=
  ∀ rowid, if bool_decide (rowid ∈ present)
           then ∃ x y, stored_state r !! rowid = Some x ∧ t !! rowid = Some y ∧ values_map_eqb x y = true
           else t !! rowid = None.
Lemma update_row_covers rowid values r present t : covers r present t →
  covers (update_row rowid values r) ({[rowid]} ∪ present) (<[rowid := values]> t).
Proof.
  intros Hc id. specialize (Hc id). destruct (decide (id = rowid)) as [->|Hne].
  - rewrite bool_decide_true by set_solver. rewrite lookup_insert_eq. unfold update_row.
    destruct (stored_state r !! rowid) as [cur|] eqn:Hcur.
    + destruct (values_map_eqb cur values) eqn:He; [by exists cur, values|]. exists values, values. simpl.
      rewrite lookup_insert_eq. auto using values_map_eqb_refl.
    + exists values, values. simpl. rewrite lookup_insert_eq. auto using values_map_eqb_refl.
  - rewrite lookup_insert_ne by done.
    assert (Hs : stored_state (update_row rowid values r) !! id = stored_state r !! id).
    { unfold update_row. destruct (stored_state r !! rowid); [destruct (values_map_eqb _ _); [done|]|];
        simpl; by apply lookup_insert_ne. }
    rewrite Hs. case_bool_decide as Hp; case_bool_decide as Hp'; try done; exfalso; set_solver.
Qed.
Lemma update_row_names rowid values r : column_names (update_row rowid values r) = column_names r.
Proof. unfold update_row. destruct (stored_state r !! rowid); [destruct (values_map_eqb _ _)|]; done. Qed.
Lemma load_rows_fresh rows kvs r present t :
  try_collect (read_row (column_names r)) rows = Ok kvs → covers r present t →
  ∃ present' r', load_rows rows present r = (Ok present', r') ∧
    covers r' present' (fold_left (λ t kv, <[fst kv := snd kv]> t) kvs t).
Proof.
  revert kvs r present t. induction rows as [|row rows IH]; intros kvs r present t Hrows Hc.
  { injection Hrows as <-. by exists present, r. }
  apply try_collect_ok in Hrows. inversion Hrows as [|? [rowid values] ? kvs' Hrow Hrest]; subst.
  unfold read_row in Hrow. destruct (map_err _ row) as [cells|e|p] eqn:Hcells; [|done..]. cbn [mbind outcome_bind] in Hrow.
  destruct (IH kvs' (update_row rowid values r) ({[rowid]} ∪ present) (<[rowid := values]> t)) as (present' & r' & Hl & Hc').
  - rewrite update_row_names. by apply try_collect_ok.
  - by apply update_row_covers.
  - exists present', r'. split; [|done]. cbn [load_rows]. unfold mbind, eff_bind, lift, gets, modify. rewrite Hcells. simpl.
    by rewrite Hrow.
Qed.
Lemma load_table_fresh c r t :
  table_rows (column_names r) c (select_query r) = Ok t →
  ∃ r', load_table c r = (Ok tt, r') ∧ same_rows (stored_state r') t ∧
    (queued_updates r' = [] ∨ ∃ us, queued_updates r' = us ++ [RrFinishedSource true]).
Proof.
  unfold table_rows, load_table. intros Ht. destruct (map_err _ _) as [rows|e|p] eqn:Hq; [|done..].
  cbn [mbind outcome_bind] in Ht.
  destruct (try_collect _ rows) as [kvs|e|p] eqn:Hrows; [|done..]. injection Ht as <-.
  destruct (load_rows_fresh rows kvs r ∅ ∅) as (present & r1 & Hl & Hc); [done| |].
  { intros id. by rewrite bool_decide_false by set_solver. }
  exists (finish_updates (retain_rows present r1)). split.
  { unfold mbind, eff_bind, gets, lift, modify. simpl. rewrite Hq, Hl. done. }
  pose proof (proj2 (retain_rows_spec present r1)) as Hs. split.
  - intros id. specialize (Hc id). specialize (Hs id).
    assert (stored_state (finish_updates (retain_rows present r1)) = stored_state (retain_rows present r1)) as ->
      by (unfold finish_updates; by destruct (queued_updates _)).
    rewrite Hs. case_bool_decide; [|by rewrite Hc]. destruct Hc as (x & y & -> & -> & He). done.
  - unfold finish_updates. destruct (queued_updates (retain_rows present r1)) eqn:He; [by left|]. right. simpl. eauto.
Qed.

(** Turns of the reader, each with the database as it is then: the results sent. *)
Fixpoint sqlite_run (connections : list SqliteConnection) (r : SqliteReader) : list Result * SqliteReader :=
  match connections with
  | [] => ([], r)
  | c :: connections =>
      let '(o, r) := sqlite_read c r in
      let '(results, r) := sqlite_run connections r in
      (match o with Ok (Some result) => result :: results | _ => results end, r)
  end.
Lemma sqlite_read_reflects c r o r' view : sqlite_read c r = (o, r') → reflects r view →
  match o with
  | Ok (Some result) => ∃ view', applies view [result] view' ∧ reflects r' view'
  | _ => reflects r' view
  end.
Proof.
  unfold sqlite_read, mbind, eff_bind, gets, modify. cbn [id]. intros Hrun Hr. unfold reflects in Hr.
  destruct (queued_updates r) as [|u us] eqn:Hq; [|by injection Hrun as <- <-; apply applies_cons].
  case_bool_decide; [by injection Hrun as <- <-; unfold reflects; rewrite Hq|].
  assert (Hr' : reflects r view) by (unfold reflects; by rewrite Hq).
  destruct (load_table c r) as [[[]|e|p] r1] eqn:Hl; injection Hrun as <- <-;
    (eapply load_table_reflects in Hl; [|exact Hr']); [|done..]. exists view. auto.
Qed.
Lemma sqlite_run_reflects cs r results r' view : sqlite_run cs r = (results, r') → reflects r view →
  ∃ view', applies view results view' ∧ reflects r' view'.
Proof.
  revert r results view. induction cs as [|c cs IH]; intros r results view; cbn [sqlite_run].
  { intros [= <- <-]. eauto. }
  destruct (sqlite_read c r) as [o r1] eqn:Hread, (sqlite_run cs r1) as [rs r2] eqn:Hrun. intros [= <- <-] Hr.
  eapply sqlite_read_reflects in Hread; [|done].
  destruct o as [[result|]|e|p]; try by eapply IH. destruct Hread as (view1 & Happ & Hr1).
  destruct (IH _ _ _ Hrun Hr1) as (view' & Happ' & Hr'). exists view'. split; [|done].
  by apply (applies_app _ [result] view1).
Qed.
Lemma sqlite_drain cs r us : queued_updates r = us → length cs = length us →
  sqlite_run cs r = (us, with_queue [] r).
Proof.
  revert cs r. induction us as [|u us IH]; intros [|c cs] r Hq; try done.
  - intros _. destruct r; simpl in *. by subst.
  - intros [= Hlen]. cbn [sqlite_run]. unfold sqlite_read, mbind, eff_bind, gets, modify. simpl. rewrite Hq. simpl.
    rewrite (IH cs (with_queue us r)) by done. done.
Qed.


Module Database.
Definition rows (l : list (Z * string)) : list (outcome unit (list SqliteValue)) :=
  map (λ r : Z * string, Ok [SqText (string_bytes (snd r)); SqInteger (fst r)]) l.
Definition connection (version : Z) (l : list (Z * string)) : SqliteConnection :=
  mk_SqliteConnection version (λ q, if (q =? "SELECT name,_rowid_ FROM people")%string then Ok (rows l) else Err tt).
Definition before : list SqliteConnection := repeat (connection 1 [(1, "ada"); (2, "eve")]%string) 4.
Definition after : SqliteConnection := connection 2 [(2, "bob"); (3, "eve")]%string.
(** Another table changed. *)
Definition unrelated : SqliteConnection := connection 2 [(1, "ada"); (2, "eve")]%string.
Definition reader : SqliteReader := snd (sqlite_run before (sqlite_reader_new "people" ["name"%string])).
End Database.

(** The updates between the two versions. *)
Example updates_between_versions :
  fst (sqlite_run (replicate 6 Database.after) Database.reader) =
  [RrNewSource None;
   sqlite_diff DeDelete 2 {[ "name"%string := VString "eve" ]}; sqlite_diff DeInsert 2 {[ "name"%string := VString "bob" ]};
   sqlite_diff DeInsert 3 {[ "name"%string := VString "eve" ]}; sqlite_diff DeDelete 1 {[ "name"%string := VString "ada" ]};
   RrFinishedSource true].
Proof. vm_compute. reflexivity. Qed.
(** When another table of the database changed, [NewSource] is sent alone: nothing
    allows commits after it. *)
Example unrelated_change :
  fst (sqlite_run (replicate 10 Database.unrelated) Database.reader) = [RrNewSource None].
Proof. vm_compute. reflexivity. Qed.

(** ** Kafka *)

Section kafka.
Context {C : Type} `{KafkaConsumer C, Profile}.

(** Turns of the reader: what the consumer gave and what the reader made of it. *)
Fixpoint kafka_turns (n : nat) (r : KafkaReader C) : list (outcome unit KafkaMessage * outcome StorageError (option Result)) :=
  match n with
  | O => []
  | S n => let '(o, r') := kafka_read r in (fst (consumer_poll (consumer r)), o) :: kafka_turns n r'
  end.
(** The offset up to which a partition was read. *)
Definition recorded (frontier : OffsetAntichain) (topic : string) (partition : Z) : option Z :=
  match get_offset frontier (OkKafka topic partition) with Some (KafkaOffset p) => Some p | _ => None end.
Definition unread (read_to : Z → option Z) (m : KafkaMessage) : bool :=
  match read_to (km_partition m) with Some p => p <? km_offset m | None => true end.
Definition kafka_data (topic : string) (m : KafkaMessage) : Result :=
  RrData (KeyValue (km_key m) (km_payload m)) (OkKafka topic (km_partition m), KafkaOffset (km_offset m)).
(** A partition delivers no message up to [read_to] after one behind it. *)
Definition in_partition_order (read_to : Z → option Z) (trace : list (outcome unit KafkaMessage)) : Prop :=
  ∀ i j m m', (i < j)%nat → trace !! i = Some (Ok m) → trace !! j = Some (Ok m') →
  km_partition m = km_partition m' → unread read_to m = true → unread read_to m' = true.

Lemma kafka_positions topic l partition : NoDup l.*1 →
  foldr (kafka_position topic) ∅ l !! partition =
  match (list_to_map l : gmap OffsetKey OffsetValue) !! OkKafka topic partition with Some (KafkaOffset p) => Some p | _ => None end.
Proof.
  induction l as [|[k v] l IH]; [done|]. intros [Hk Hnd]%NoDup_cons. cbn [foldr]. specialize (IH Hnd).
  unfold kafka_position at 1. cbn [fst snd list_to_map foldr uncurry]. cbn [fst] in Hk.
  destruct (decide (k = OkKafka topic partition)) as [->|Hne].
  - rewrite lookup_insert_eq. rewrite String.eqb_refl. rewrite (not_elem_of_list_to_map_1 _ _ Hk) in IH.
    destruct v; [by rewrite lookup_insert_eq|done..].
  - rewrite lookup_insert_ne by done. rewrite <- IH. destruct v; [|done..]. destruct k as [t p|]; [|done].
    destruct (String.eqb_spec t topic) as [->|]; [|done]. apply lookup_insert_ne. by intros ->.
Qed.

(** A position to skip to is the recorded one; a partition without one delivers only
    unread messages. *)
Definition pending (read_to : Z → option Z) (r : KafkaReader C) (trace : list (outcome unit KafkaMessage)) : Prop :=
  ∀ partition, match positions_for_seek r !! partition with
               | Some p => read_to partition = Some p
               | None => ∀ i m, trace !! i = Some (Ok m) → km_partition m = partition → unread read_to m = true
               end.
Definition kafka_result (read_to : Z → option Z) (topic : string) (polled : outcome unit KafkaMessage)
    : outcome StorageError (option Result) :=
  match polled with
  | Ok m => Ok (if unread read_to m then Some (kafka_data topic m) else None)
  | Err _ => Err SeKafka
  | Panic p => Panic p
  end.
Lemma kafka_read_spec read_to r polled c o r' rest :
  consumer_poll (consumer r) = (polled, c) → kafka_read r = (o, r') →
  (∀ partition p, read_to partition = Some p → in_i64 (p + 1) = true) →
  in_partition_order read_to (polled :: rest) → pending read_to r (polled :: rest) →
  o = kafka_result read_to (topic r) polled ∧ topic r' = topic r ∧ pending read_to r' rest.
Proof.
  intros Hpoll Hread Hin Hord Hp.
  assert (Htail : ∀ r1, positions_for_seek r1 = positions_for_seek r → pending read_to r1 rest).
  { intros r1 Hr1 q. rewrite Hr1. specialize (Hp q). destruct (_ !! q); [done|]. intros i m Hi. by apply (Hp (S i)). }
  unfold kafka_read, kafka_poll in Hread. unfold mbind, eff_bind, gets, lift, modify, id in Hread. rewrite Hpoll in Hread.
  destruct polled as [m|e|p]; [|injection Hread as <- <-; by auto..]. cbn [map_err] in Hread.
  change (positions_for_seek (with_consumer c r)) with (positions_for_seek r) in Hread.
  assert (Hm := Hp (km_partition m)). unfold kafka_result, kafka_data.
  destruct (positions_for_seek r !! km_partition m) as [p|] eqn:Hpos.
  - assert (Hu : unread read_to m = (p <? km_offset m)) by (unfold unread; by rewrite Hm).
    destruct (Z.leb_spec (km_offset m) p).
    + rewrite (i64_arith_exact _ (Hin _ _ Hm)) in Hread. cbn in Hread. injection Hread as <- <-.
      rewrite Hu. rewrite (proj2 (Z.ltb_ge _ _)) by done. split_and!; [done..|]. by apply Htail.
    + injection Hread as <- <-. rewrite Hu, (proj2 (Z.ltb_lt _ _)) by done. split_and!; [done..|].
      intros q. cbn [positions_for_seek with_positions]. destruct (decide (q = km_partition m)) as [->|Hne].
      * cbn. rewrite lookup_delete_eq. intros i m' Hi Hq. apply (Hord 0%nat (S i) m m'); [lia|done..|].
        rewrite Hu. by apply Z.ltb_lt.
      * cbn. rewrite lookup_delete_ne by done. specialize (Hp q). destruct (_ !! q); [done|]. intros i m' Hi. by apply (Hp (S i)).
  - injection Hread as <- <-. rewrite (Hm 0%nat m) by done. split_and!; [done..|]. by apply Htail.
Qed.
Lemma kafka_turns_spec read_to n r :
  (∀ partition p, read_to partition = Some p → in_i64 (p + 1) = true) →
  in_partition_order read_to (kafka_turns n r).*1 → pending read_to r (kafka_turns n r).*1 →
  (kafka_turns n r).*2 = kafka_result read_to (topic r) <$> (kafka_turns n r).*1.
Proof.
  intros Hin. revert r. induction n as [|n IH]; intros r; cbn [kafka_turns]; [done|].
  destruct (consumer_poll (consumer r)) as [polled c] eqn:Hpoll, (kafka_read r) as [o r'] eqn:Hread.
  cbn [fmap list_fmap fst snd]. intros Hord Hp.
  destruct (kafka_read_spec _ _ _ _ _ _ _ Hpoll Hread Hin Hord Hp) as (-> & Ht & Hp'). f_equal.
  rewrite <- Ht. apply IH; [|done]. intros i j m m' Hij Hi Hj. apply (Hord (S i) (S j)); [lia|done..].
Qed.

(** A Kafka reader that is restarted from recorded offsets sends each message behind
    them, with its own offset, and none that is covered by them, however the consumer
    interleaves the partitions and wherever in a partition it starts - as long as, in
    a partition, nothing recorded is delivered after something that is not.  The
    results of the turns are a function of what the consumer delivers. *)
Theorem kafka_reader_resumes (frontier : OffsetAntichain) (c : C) (topic : string) (n : nat) :
  (∀ partition p, recorded frontier topic partition = Some p → in_i64 (p + 1) = true) →
  let turns := kafka_turns n (kafka_seek frontier (kafka_reader_new c topic)) in
  in_partition_order (recorded frontier topic) turns.*1 →
  turns.*2 = kafka_result (recorded frontier topic) topic <$> turns.*1.
Proof.
  intros Hin turns Hord. apply kafka_turns_spec; [done..|]. intros q.
  unfold kafka_seek, kafka_reader_new. cbn [positions_for_seek with_positions].
  assert (Hpos := kafka_positions topic (map_to_list (antichain frontier)) q (NoDup_fst_map_to_list _)).
  rewrite list_to_map_to_list in Hpos. fold (get_offset frontier (OkKafka topic q)) in Hpos.
  fold (recorded frontier topic q) in Hpos. cbn. rewrite Hpos. destruct (recorded frontier topic q) eqn:Hq; [done|].
  intros i m _ Hm. unfold unread. by rewrite Hm, Hq.
Qed.
End kafka.

(** A topic with two partitions: the messages that are still to come, and whether the
    seek of a partition worked. *)
Module Broker.
#[local] Instance profile : Profile := true.
Definition message (partition offset : Z) : KafkaMessage := mk_KafkaMessage None (Some [offset]) "logs" partition offset.
#[local] Instance consumer : KafkaConsumer (list KafkaMessage) := {
  consumer_poll c := match c with m :: c => (Ok m, c) | [] => (Err tt, []) end;
  consumer_seek c t partition offset :=
    (Ok tt, List.filter (λ m, negb (km_partition m =? partition) || (offset <=? km_offset m)) c)
}.
Definition frontier : OffsetAntichain := mk_OffsetAntichain {[ OkKafka "logs" 0 := KafkaOffset 2 ]}.
Definition log : list KafkaMessage :=
  [message 0 0; message 1 7; message 0 1; message 0 2; message 0 3; message 1 8; message 0 4].
Definition turns := kafka_turns (H := consumer) 6 (kafka_seek frontier (kafka_reader_new log "logs")).
End Broker.
Lemma kafka_reader_resumes_witness :
  Broker.turns.*2 = kafka_result (recorded Broker.frontier "logs") "logs" <$> Broker.turns.*1 ∧
  omap (λ o : outcome StorageError (option Result), match o with Ok (Some (RrData _ (_, KafkaOffset p))) => Some p | _ => None end)
    Broker.turns.*2 = [7; 3; 8; 4].
Proof.
  split; [|by vm_compute]. apply (kafka_reader_resumes (H := Broker.consumer) (H0 := Broker.profile)).
  - intros q p. unfold recorded, get_offset. simpl. intros Hp. assert (q = 0 ∧ p = 2) as [-> ->]; [|done].
    destruct (decide (q = 0)) as [->|Hne]; [by injection Hp as <-|].
    rewrite lookup_singleton_ne in Hp by (intros [=]; by subst). done.
  - intros i j m m' Hij Hi Hj Hq Hu. vm_compute in Hi, Hj.
    do 6 (destruct j as [|j]; [try (injection Hj as <-);
      try (do 6 (destruct i as [|i]; [try (injection Hi as <-); try done; try lia|])); try done|]); try done.
Defined.
