(* ===== verification/S3Props.v ===== *)
(** The S3 connector: it reads the objects of a bucket in the order of their times, each
    one to its end, and a restart sends exactly the entries behind the recorded
    offset. *)
From Stdlib Require Import ZArith Lia Bool Ascii.
From stdpp Require Import base list sorting strings gmap sets.
From S2P Require Import Prelude Effects Order Text Data Externals Instances Value Timestamp Snapshot Connector DataFormat.
From S2P Require Import Session ConnectorProps Files FilesProps Readers.
Open Scope Z_scope.

Lemma filter_Forall {A} (P : A → Prop) `{∀ x, Decision (P x)} l : Forall P l → filter P l = l.
Proof. induction 1 as [|x l Hx _ IH]; [done|]. by rewrite filter_cons, decide_True, IH. Qed.
Lemma filter_Forall_not {A} (P : A → Prop) `{∀ x, Decision (P x)} l : Forall (λ x, ¬ P x) l → filter P l = [].
Proof. induction 1 as [|x l Hx _ IH]; [done|]. by rewrite filter_cons, decide_False, IH. Qed.

(** ** The objects that are still to be read *)

Section candidates.
Context `{Rfc3339}.

(** The objects with a readable modification time, that were not processed. *)
Definition candidate (processed : gset string) (object : S3Object) : option (Z * string) :=
  if bool_decide (s3_key object ∈ processed) then None
  else (λ t, (t, s3_key object)) <$> parse_from_rfc3339 (s3_last_modified object).
Definition candidates (processed : gset string) (objects : list S3Object) : list (Z * string) :=
  omap (candidate processed) objects.
(** What is left to be read, in order. *)
Definition still_to_read (processed : gset string) (objects : list S3Object) (l : list (Z * string)) : Prop :=
  candidates processed objects ≡ₚ l ∧ StronglySorted ord_le l.

Lemma select_candidates processed objects selected :
  fold_left (select_object processed) objects selected = fold_left earlier_object (candidates processed objects) selected.
Proof.
  revert selected. induction objects as [|o objects IH]; intros selected; [done|]. cbn [fold_left]. rewrite IH.
  unfold candidates, candidate, select_object. cbn [omap list_omap].
  case_bool_decide; [done|]. by destruct (parse_from_rfc3339 _).
Qed.
Lemma earlier_object_min l x : (∀ y, y ∈ l → ord_le x y) →
  fold_left earlier_object l (Some x) = Some x.
Proof.
  intros Hx. induction l as [|y l IH]; [done|]. cbn [fold_left earlier_object].
  change (then_cmp _ _) with (cmp x y). assert (Hxy : ord_le x y) by (apply Hx; left).
  unfold ord_le in Hxy. destruct (cmp x y); [|..]; try (apply IH; intros z Hz; apply Hx; by right). done.
Qed.
Lemma time_key_eq (x y : Z * string) : cmp x y = Eq → x = y.
Proof. intros [Ht Hk]%pair_cmp_eq. apply Z_cmp_eq in Ht. apply string_cmp_eq in Hk. destruct x, y. simpl in *. by subst. Qed.
Lemma earlier_object_select l s x : x ∈ s :: l → (∀ y, y ∈ s :: l → ord_le x y) → fold_left earlier_object l (Some s) = Some x.
Proof.
  revert s. induction l as [|y l IH]; intros s Hin Hx; cbn [fold_left].
  { apply list_elem_of_singleton in Hin as ->. done. }
  unfold earlier_object at 2. change (then_cmp _ _) with (cmp s y).
  assert (Hs : ord_le x s) by (apply Hx; left). assert (Hy : ord_le x y) by (apply Hx; right; left).
  destruct (cmp s y) eqn:Hsy.
  - apply time_key_eq in Hsy as <-. apply IH; [|intros z Hz; apply Hx; set_solver]. set_solver.
  - apply IH; [|intros z Hz; apply Hx; set_solver]. apply elem_of_cons in Hin as [->|[->|?]%elem_of_cons]; [by left| |by right].
    exfalso. unfold ord_le in Hs. rewrite (cmp_antisym s y), Hsy in Hs. done.
  - apply IH; [|intros z Hz; apply Hx; set_solver]. apply elem_of_cons in Hin as [->|?]; [|done].
    exfalso. unfold ord_le in Hy. by rewrite Hsy in Hy.
Qed.
Lemma select_still_to_read processed objects l : still_to_read processed objects l →
  fold_left (select_object processed) objects None = head l.
Proof.
  intros [Hperm Hsorted]. rewrite select_candidates. destruct l as [|x l].
  { apply Permutation_nil_r in Hperm as ->. done. }
  destruct (candidates processed objects) as [|s cs] eqn:Hc; [by apply Permutation_nil_l in Hperm|].
  cbn [fold_left earlier_object]. apply earlier_object_select.
  - rewrite Hperm. left.
  - intros y. rewrite Hperm. apply StronglySorted_inv in Hsorted as [_ Hall]. rewrite Forall_forall in Hall.
    intros [->|Hy]%elem_of_cons; [unfold ord_le; by rewrite cmp_refl|by apply Hall].
Qed.

Lemma candidates_keys processed objects : NoDup (s3_key <$> objects) → NoDup (candidates processed objects).*2.
Proof.
  intros Hnd. eapply sublist_NoDup; [exact Hnd|]. clear Hnd. induction objects as [|o objects IH]; [constructor|].
  unfold candidates in *. cbn [omap list_omap fmap list_fmap]. unfold candidate at 1.
  case_bool_decide; [by apply sublist_cons|]. destruct (parse_from_rfc3339 _); cbn.
  { by apply sublist_skip. } by apply sublist_cons.
Qed.
Lemma same_key {A B} (l : list (A * B)) x y : NoDup l.*2 → x ∈ l → y ∈ l → snd x = snd y → x = y.
Proof.
  intros Hnd [i Hi]%list_elem_of_lookup [j Hj]%list_elem_of_lookup Heq.
  assert (i = j) as ->; [|congruence]. apply (NoDup_lookup l.*2 i j (snd x)); [done|by rewrite list_lookup_fmap, Hi|].
  by rewrite list_lookup_fmap, Hj, Heq.
Qed.
Lemma candidate_union (processed processed' : gset string) o :
  candidate (processed' ∪ processed) o =
  (c ← candidate processed o; if decide (snd c ∈ processed') then None else Some c).
Proof.
  unfold candidate. destruct (decide (s3_key o ∈ processed)); [by rewrite !bool_decide_true by set_solver|].
  rewrite (bool_decide_false (_ ∈ processed)) by done.
  destruct (parse_from_rfc3339 _); cbn; [|by case_bool_decide]. destruct (decide (s3_key o ∈ processed')).
  - by rewrite bool_decide_true by set_solver.
  - by rewrite bool_decide_false by set_solver.
Qed.
Lemma candidates_filter (processed processed' : gset string) objects :
  candidates (processed' ∪ processed) objects = filter (λ c, snd c ∉ processed') (candidates processed objects).
Proof.
  unfold candidates. induction objects as [|o objects IH]; [done|]. cbn [omap list_omap].
  rewrite candidate_union. destruct (candidate processed o) as [c|]; [|exact IH]. cbn [mbind option_bind].
  rewrite filter_cons. destruct (decide (snd c ∈ processed')) as [Hin|Hn].
  - rewrite decide_False by (intros Hn; by apply Hn). exact IH.
  - rewrite decide_True by done. f_equal. exact IH.
Qed.
(** After some of the objects were processed, the others are left. *)
Lemma still_to_read_split processed processed' objects l1 l2 :
  still_to_read processed objects (l1 ++ l2) → Forall (λ c, snd c ∈ processed') l1 → Forall (λ c, snd c ∉ processed') l2 →
  still_to_read (processed' ∪ processed) objects l2.
Proof.
  intros [Hperm Hsorted] H1 H2. split.
  - rewrite candidates_filter, Hperm, filter_app, (filter_Forall _ l2) by done.
    rewrite filter_Forall_not; [done|]. eapply Forall_impl; [exact H1|]. cbn. auto.
  - by apply StronglySorted_app_1_r in Hsorted.
Qed.
End candidates.

(** ** What a bucket holds *)

(** The results for the entries of an object; [n]: the entries read before, [bytes]: the
    bytes of the object read before. *)
Fixpoint entry_results (key : string) (n bytes : Z) (es : list (list Z)) : list Result :=
  match es with
  | [] => []
  | e :: es =>
      let bytes := bytes + Z.of_nat (length e) in
      RrData (RawBytes DeInsert e) (OkEmpty, S3ObjectPosition (n + 1) key bytes) :: entry_results key (n + 1) bytes es
  end.
Definition source_end (m : ReadMethod) : list Result := if is_full m then [RrFinishedSource true] else [].
Fixpoint bucket_results (m : ReadMethod) (contents : string → list Z) (n : Z) (l : list (Z * string)) : list Result :=
  match l with
  | [] => []
  | (_, key) :: l =>
      let es := entries m (contents key) in
      RrNewSource None :: entry_results key n 0 es ++ source_end m ++ bucket_results m contents (n + Z.of_nat (length es)) l
  end.
(** The counters of the offsets are 64-bit. *)
Definition offset_fits (r : Result) : Prop :=
  match r with RrData _ (_, S3ObjectPosition n _ bytes) => in_u64 n = true ∧ in_u64 bytes = true | _ => True end.

Section s3.
Context `{Rfc3339, Profile}.

(** Turns of the reader as long as they give results. *)
Fixpoint s3_run (bucket : S3Bucket) (n : nat) (r : S3GenericReader) : list Result * S3GenericReader :=
  match n with
  | O => ([], r)
  | S n =>
      match s3_generic_read (r, bucket) with
      | (Ok (Some result), (r, _)) => let '(results, r) := s3_run bucket n r in (result :: results, r)
      | (_, (r, _)) => ([], r)
      end
  end.
Lemma s3_run_step bucket n r result r1 results r2 :
  s3_generic_read (r, bucket) = (Ok (Some result), (r1, bucket)) → s3_run bucket n r1 = (results, r2) →
  s3_run bucket (S n) r = (result :: results, r2).
Proof. intros Hread Hrun. cbn [s3_run]. by rewrite Hread, Hrun. Qed.

Lemma s3_run_app bucket n1 n2 r rs1 r1 rs2 r2 :
  s3_run bucket n1 r = (rs1, r1) → length rs1 = n1 → s3_run bucket n2 r1 = (rs2, r2) →
  s3_run bucket (n1 + n2) r = (rs1 ++ rs2, r2).
Proof.
  revert r rs1. induction n1 as [|n1 IH]; intros r rs1; cbn [s3_run Nat.add].
  { intros [= <- <-] _ H2. done. }
  destruct (s3_generic_read (r, bucket)) as [[[result|]|e|p] [r' b']]; try by intros [= <- <-].
  destruct (s3_run bucket n1 r') as [results r''] eqn:Hrun. intros [= <- <-] [= Hlen] H2.
  by rewrite (IH r' results Hrun Hlen H2).
Qed.

Context (prefix : string) (poll : bool) (m : ReadMethod) (bucket : S3Bucket) (pages : list (list S3Object)).
Abbreviation objects := (concat pages).
Definition contents (key : string) : list Z := fst (s3_get bucket key).
Context (Hlist : s3_list bucket prefix = Ok pages).
Context (Hget : ∀ o, o ∈ objects → snd (s3_get bucket (s3_key o)) = Ok 200).
Context (Hkeys : NoDup (s3_key <$> objects)).

(** A reader between two turns, with nothing deferred. *)
Definition reader_at (n bytes : Z) (br : option BufReader) (current : option CurrentlyProcessedS3Object) (processed : gset string)
    : S3GenericReader :=
  mk_S3GenericReader (mk_S3Scanner prefix current processed) poll m br n bytes None.
Definition loaded (key : string) : CurrentlyProcessedS3Object := mk_CurrentlyProcessedS3Object (Ok tt) key.
Definition joined (current : option CurrentlyProcessedS3Object) : Prop :=
  match current with Some o => loader_result o = Ok tt | None => True end.

Lemma stream_loaded o : o ∈ objects →
  stream_object_from_path_and_bucket (s3_key o) bucket = (loaded (s3_key o), contents (s3_key o)).
Proof.
  intros Ho. unfold stream_object_from_path_and_bucket, contents, loaded. specialize (Hget o Ho).
  destruct (s3_get bucket (s3_key o)) as [bs code]. simpl in *. by subst.
Qed.
Lemma candidate_object processed t key : (t, key) ∈ candidates processed objects → ∃ o, o ∈ objects ∧ s3_key o = key.
Proof.
  intros (o & Ho & Hc)%list_elem_of_omap. exists o. split; [done|]. unfold candidate in Hc. case_bool_decide; [done|].
  destruct (parse_from_rfc3339 _); [|done]. by injection Hc.
Qed.
(** The turn that goes on to the next object. *)
Lemma next_source_spec n bytes br current processed t key l :
  joined current → still_to_read processed objects ((t, key) :: l) →
  s3_next_source (reader_at n bytes br current processed, bucket) =
  (Ok (Some (RrNewSource None)),
   (reader_at n 0 (Some (open_buf_reader (contents key))) (Some (loaded key)) ({[key]} ∪ processed), bucket)).
Proof.
  intros Hj Hl. destruct (candidate_object processed t key) as (o & Ho & <-); [rewrite (proj1 Hl); left|].
  unfold s3_next_source, s3_stream_next, generic_scanning, zoom, stream_next_object, stream_object_from_path,
    list_objects, mbind, eff_bind, gets, lift, set_s3, set_generic, modify. cbn.
  assert (match current with Some state => loader_result state | None => Ok tt end = (Ok tt : outcome StorageError unit)) as ->
    by (by destruct current).
  cbn. rewrite Hlist. cbn. rewrite (select_still_to_read _ _ _ Hl). cbn. by rewrite stream_loaded.
Qed.
Lemma no_next_source_spec n bytes br current processed :
  joined current → still_to_read processed objects [] →
  s3_next_source (reader_at n bytes br current processed, bucket) =
  (Ok (if poll then None else Some RrFinished), (reader_at n bytes br None processed, bucket)).
Proof.
  intros Hj Hl. unfold s3_next_source, s3_stream_next, generic_scanning, zoom, stream_next_object,
    list_objects, mbind, eff_bind, gets, lift, set_s3, set_generic, modify. cbn.
  assert (match current with Some state => loader_result state | None => Ok tt end = (Ok tt : outcome StorageError unit)) as ->
    by (by destruct current).
  cbn. rewrite Hlist. cbn. rewrite (select_still_to_read _ _ _ Hl). cbn. by destruct poll.
Qed.
Lemma still_to_read_next processed t key l :
  still_to_read processed objects ((t, key) :: l) → still_to_read ({[key]} ∪ processed) objects l.
Proof.
  intros Hl. assert (Hnd := candidates_keys processed objects Hkeys). rewrite (proj1 Hl) in Hnd.
  apply NoDup_cons in Hnd as [Hk _]. apply (still_to_read_split _ _ _ [(t, key)]); [done|..].
  - constructor; [by apply elem_of_singleton|constructor].
  - apply Forall_forall. intros c Hc Heq%elem_of_singleton. apply Hk, list_elem_of_fmap. eauto.
Qed.

(** The open object is read to its end, or none is open. *)
Definition at_end (br : option BufReader) : Prop :=
  match br with Some r => m = ByLine ∧ br_rest r = [] | None => True end.
Lemma read_at_end n bytes br current processed : at_end br →
  s3_generic_read (reader_at n bytes br current processed, bucket) =
  s3_next_source (reader_at n bytes br current processed, bucket).
Proof.
  destruct br as [[rest pos]|]; [|done]. intros [Hm Hrest]. cbn in Hrest. subst rest. unfold reader_at. rewrite Hm.
  unfold s3_generic_read, mbind, eff_bind, gets, set_generic, modify. cbn. by rewrite (Z.add_0_r pos : pos + Z.of_nat 0 = pos).
Qed.
Lemma read_s3_entry_spec n bytes rest pos key processed e es :
  entries m rest = e :: es → offset_fits (RrData (RawBytes DeInsert e) (OkEmpty, S3ObjectPosition (n + 1) key (bytes + Z.of_nat (length e)))) →
  ∃ br', s3_generic_read (reader_at n bytes (Some (mk_BufReader rest pos)) (Some (loaded key)) processed, bucket) =
    (Ok (Some (RrData (RawBytes DeInsert e) (OkEmpty, S3ObjectPosition (n + 1) key (bytes + Z.of_nat (length e))))),
     (let r := reader_at (n + 1) (bytes + Z.of_nat (length e)) br' (Some (loaded key)) processed in
      if is_full m then with_s3_deferred (Some (RrFinishedSource true)) r else r, bucket)) ∧
    if is_full m then br' = None ∧ es = [] else ∃ r, br' = Some r ∧ entries m (br_rest r) = es.
Proof.
  intros Hes [Hn Hb].
  destruct (read_next_bytes m (mk_BufReader rest pos)) as [line r] eqn:Hread.
  destruct (read_next_bytes_entries _ _ _ _ Hread) as [_ Hentries]. cbn [br_rest] in Hentries.
  destruct ((0 <? Z.of_nat (length line)) || is_full m) eqn:Hdata; [|by rewrite Hes in Hentries].
  rewrite Hes in Hentries. injection Hentries as -> ->.
  exists (if is_full m then None else Some r). split.
  - unfold s3_generic_read, mbind, eff_bind, gets, lift, set_generic, modify. cbn. rewrite Hread. cbn.
    rewrite Hdata. cbn. unfold u64_arith. rewrite Hn, Hb. cbn. by destruct (is_full m).
  - destruct (is_full m); [done|]. eauto.
Qed.
(** The entries of an open object that are left. *)
Lemma run_entries n bytes rest pos key processed :
  Forall offset_fits (entry_results key n bytes (entries m rest)) →
  let results := entry_results key n bytes (entries m rest) ++ source_end m in
  ∃ bytes' br', s3_run bucket (length results) (reader_at n bytes (Some (mk_BufReader rest pos)) (Some (loaded key)) processed) =
    (results, reader_at (n + Z.of_nat (length (entries m rest))) bytes' br' (Some (loaded key)) processed) ∧ at_end br'.
Proof.
  intros Hfits. cbn zeta. remember (entries m rest) as es eqn:Hes. symmetry in Hes.
  revert n bytes rest pos Hes Hfits. induction es as [|e es IH]; intros n bytes rest pos Hes Hfits.
  - assert (Hm : m = ByLine) by (destruct m; done). exists bytes, (Some (mk_BufReader rest pos)).
    unfold source_end. rewrite Hm in *. cbn. rewrite Z.add_0_r. split_and!; [done..|].
    destruct rest as [|b rest]; [done|]. cbn in Hes. destruct (b =? 10); [done|]. by destruct (lines rest).
  - cbn [entry_results] in Hfits. apply Forall_cons in Hfits as [Hfit Hfits].
    destruct (read_s3_entry_spec n bytes rest pos key processed e es Hes Hfit) as (br' & Hread & Hbr).
    destruct (is_full m) eqn:Hfull.
    + destruct Hbr as [-> ->]. unfold source_end. rewrite Hfull. cbn [entry_results app length].
      eexists _, None. split; [|done]. eapply s3_run_step; [exact Hread|]. cbn. reflexivity.
    + destruct Hbr as ([rest' pos'] & -> & Hes').
      destruct (IH (n + 1) (bytes + Z.of_nat (length e)) rest' pos' Hes' Hfits) as (bytes' & br'' & Hrun & Hend).
      exists bytes', br''. split; [|done]. cbn [entry_results app length]. eapply s3_run_step; [exact Hread|].
      etrans; [exact Hrun|]. do 2 f_equal. cbn [length]. lia.
Qed.
Lemma run_bucket l n bytes br current processed :
  at_end br → joined current → still_to_read processed objects l → Forall offset_fits (bucket_results m contents n l) →
  let results := bucket_results m contents n l in
  ∃ n' bytes' br' current' processed', s3_run bucket (length results) (reader_at n bytes br current processed) =
    (results, reader_at n' bytes' br' current' processed') ∧ at_end br' ∧ joined current' ∧ still_to_read processed' objects [].
Proof.
  revert n bytes br current processed. induction l as [|[t key] l IH]; intros n bytes br current processed Hend Hj Hl Hfits.
  { cbn. eauto 10. }
  cbn [bucket_results] in *. apply Forall_cons in Hfits as [_ [Hfits1 [_ Hfits2]%Forall_app]%Forall_app].
  destruct (run_entries n 0 (contents key) 0 key ({[key]} ∪ processed) Hfits1) as (bytes1 & br1 & Hrun1 & Hend1).
  destruct (IH (n + Z.of_nat (length (entries m (contents key)))) bytes1 br1 (Some (loaded key)) ({[key]} ∪ processed))
    as (n' & bytes' & br' & current' & processed' & Hrun & Hrest); [done|done|by eapply still_to_read_next|done|].
  exists n', bytes', br', current', processed'. split; [|done]. cbn [length]. eapply s3_run_step.
  - rewrite read_at_end by done. by eapply next_source_spec.
  - rewrite app_assoc, length_app. eapply s3_run_app; [exact Hrun1|done|exact Hrun].
Qed.

(** ** Seeking *)

Lemma threshold_other path t l : path ∉ s3_key <$> l → fold_left (threshold_time path) l t = t.
Proof.
  induction l as [|o l IH]; [done|]. rewrite fmap_cons, not_elem_of_cons. intros [Hne Hl]. cbn [fold_left].
  unfold threshold_time at 2. destruct (String.eqb_spec (s3_key o) path); [congruence|]. by apply IH.
Qed.
Lemma threshold_time_spec t path : (t, path) ∈ candidates ∅ objects →
  fold_left (threshold_time path) objects None = Some t.
Proof.
  intros (o & Ho & Hc)%list_elem_of_omap. unfold candidate in Hc. rewrite bool_decide_false in Hc by set_solver.
  destruct (parse_from_rfc3339 _) as [t'|] eqn:Ht; [|done]. injection Hc as -> <-.
  apply list_elem_of_split in Ho as (l1 & l2 & Hsplit). assert (Hnd := Hkeys). rewrite Hsplit in Hnd |- *.
  rewrite fmap_app, fmap_cons in Hnd. apply NoDup_app in Hnd as (_ & _ & [Hn2 _]%NoDup_cons).
  rewrite fold_left_app. cbn [fold_left]. unfold threshold_time at 2. rewrite String.eqb_refl, Ht. by apply threshold_other.
Qed.
Lemma mark_processed_spec t path key l processed :
  key ∈ fold_left (mark_processed t path) l processed ↔
  key ∈ processed ∨ ∃ c, c ∈ candidates ∅ l ∧ snd c = key ∧ cmp c (t, path) = Lt.
Proof.
  revert processed. induction l as [|o l IH]; intros processed; cbn [fold_left].
  { split; [by left|]. intros [?|(c & Hc & _)]; [done|]. by apply elem_of_nil in Hc. }
  rewrite IH. unfold candidates. cbn [omap list_omap]. unfold mark_processed, candidate at 2.
  rewrite (bool_decide_false (_ ∈ ∅)) by set_solver.
  destruct (parse_from_rfc3339 _) as [t'|]; cbn [fmap option_fmap option_map]; [|done].
  change (then_cmp (cmp t' t) (cmp (s3_key o) path)) with (cmp (t', s3_key o) (t, path)).
  setoid_rewrite elem_of_cons. destruct (cmp (t', s3_key o) (t, path)) eqn:Hc; [naive_solver congruence| |naive_solver congruence].
  rewrite elem_of_union, elem_of_singleton. split.
  - intros [[->|?]|(c & ? & ? & ?)]; [right; exists (t', s3_key o)|by left|right; exists c]; auto.
  - intros [?|(c & [->|?] & ? & ?)]; [by left; right|by left; left|by right; exists c].
Qed.
Lemma seek_to_object_spec n bytes br current processed l1 t path l2 :
  still_to_read ∅ objects (l1 ++ (t, path) :: l2) →
  ∃ processed', generic_scanning (seek_to_object path) (reader_at n bytes br current processed, bucket) =
    (Ok tt, (reader_at n bytes br current processed', bucket)) ∧ still_to_read processed' objects l2.
Proof.
  intros Hl. set (marked := fold_left (mark_processed t path) objects ∅).
  assert (Hin : (t, path) ∈ candidates ∅ objects) by (rewrite (proj1 Hl), elem_of_app; right; left).
  exists (({[path]} ∪ marked) ∪ ∅). split.
  { unfold generic_scanning, zoom, seek_to_object, list_objects, mbind, eff_bind, gets, lift, set_s3, modify. cbn.
    rewrite Hlist. cbn. rewrite (threshold_time_spec t path Hin). cbn. by rewrite (right_id_L ∅ (∪)). }
  assert (Hnd := candidates_keys ∅ objects Hkeys). rewrite (proj1 Hl) in Hnd.
  assert (Hsort := proj2 Hl). apply StronglySorted_app in Hsort as (H12 & _ & [_ H2]%StronglySorted_inv).
  rewrite fmap_app, fmap_cons in Hnd. apply NoDup_app in Hnd as (_ & Hn1 & [Hn2 _]%NoDup_cons). cbn [snd] in Hn1, Hn2.
  replace (l1 ++ (t, path) :: l2) with ((l1 ++ [(t, path)]) ++ l2) in Hl by by rewrite <- app_assoc.
  eapply still_to_read_split; [exact Hl|..].
  - apply Forall_app. split; [|constructor; [|done]; cbn; set_solver]. apply Forall_forall. intros c Hc.
    apply elem_of_union. right. apply mark_processed_spec. right. exists c. split_and!; [|done|].
    + rewrite (proj1 Hl), !elem_of_app. auto.
    + assert (Hle : ord_le c (t, path)) by (apply H12; [done|left]). unfold ord_le in Hle.
      destruct (cmp c (t, path)) eqn:Hcmp; [|done..]. apply time_key_eq in Hcmp as ->. exfalso.
      apply (Hn1 path); [|left]. apply list_elem_of_fmap. by exists (t, path).
  - apply Forall_forall. intros c Hc [Heq%elem_of_singleton|Hm]%elem_of_union.
    + apply Hn2, list_elem_of_fmap. by exists c.
    + apply mark_processed_spec in Hm as [Hm|(c' & Hc' & Hkey & Hlt)]; [set_solver|].
      assert (c' = c) as ->.
      { eapply same_key; [apply candidates_keys, Hkeys|exact Hc'| |done]. rewrite (proj1 Hl), !elem_of_app. auto. }
      rewrite Forall_forall in H2. specialize (H2 c Hc). unfold ord_le in H2. by rewrite (cmp_antisym c (t, path)), Hlt in H2.
Qed.
End s3.
Definition total (es : list (list Z)) : Z := Z.of_nat (length (concat es)).
Lemma total_entries_app es es' : total (es ++ es') = total es + total es'.
Proof. unfold total. rewrite concat_app, length_app. lia. Qed.
Lemma total_cons e es : total (e :: es) = Z.of_nat (length e) + total es.
Proof. unfold total. cbn [concat]. rewrite length_app. lia. Qed.

(** Reading lines up to an offset that ends one of them. *)
Lemma skip_lines `{Profile} fuel rest pos es1 es2 bytes :
  lines rest = es1 ++ es2 → (length rest < fuel)%nat → 0 ≤ bytes → in_u64 (bytes + total es1) = true →
  ∃ r, skip_bytes fuel ByLine (mk_BufReader rest pos) bytes (bytes + total es1) = Ok (r, bytes + total es1) ∧ lines (br_rest r) = es2.
Proof.
  revert fuel rest pos bytes. induction es1 as [|e es1 IH]; intros fuel rest pos bytes Hes Hfuel Hb Hin; destruct fuel as [|fuel]; try lia.
  - unfold total. cbn. rewrite Z.add_0_r, Z.ltb_irrefl. eauto.
  - rewrite total_cons in *. cbn [skip_bytes]. assert (Hne : rest ≠ []) by (by intros ->).
    destruct (split_line rest) as [line rest'] eqn:Hsplit. destruct (split_line_lines _ _ _ Hne Hsplit) as [Hlines Hline].
    rewrite Hlines in Hes. injection Hes as -> Hes. assert (Hlen := f_equal length (split_line_app _ _ _ Hsplit)).
    rewrite length_app in Hlen. assert (0 < length e)%nat by (by destruct e; cbn; [|lia]).
    assert (0 ≤ total es1) by (unfold total; lia).
    rewrite (proj2 (Z.ltb_lt _ _)) by lia.
    assert (read_next_bytes ByLine (mk_BufReader rest pos) = (e, mk_BufReader rest' (pos + Z.of_nat (length e)))) as ->
      by (unfold read_next_bytes; cbn [br_rest]; by rewrite Hsplit).
    rewrite (proj2 (Nat.eqb_neq _ _)) by lia.
    assert (u64_arith (E := StorageError) (bytes + Z.of_nat (length e)) = Ok (bytes + Z.of_nat (length e))) as ->.
    { unfold u64_arith. assert (in_u64 (bytes + Z.of_nat (length e)) = true) as ->; [|done].
      unfold in_u64, U64_MAX in *. apply andb_true_iff in Hin as [?%Z.leb_le ?%Z.leb_le]. apply andb_true_iff. split; apply Z.leb_le; lia. }
    cbn [mbind outcome_bind]. rewrite Z.add_assoc in Hin |- *. apply IH; [done|lia..|done].
Qed.

(** The fuel of the loops of [seek] is enough: they stop at the offset or behind it, or
    where nothing is left to be read. *)
Lemma skip_bytes_stops `{Profile} fuel m r bytes bytes_offset r' bytes' :
  skip_bytes fuel m r bytes bytes_offset = Ok (r', bytes') → (length (br_rest r) < fuel)%nat →
  bytes_offset ≤ bytes' ∨ br_rest r' = [].
Proof.
  revert r bytes. induction fuel as [|fuel IH]; intros [rest pos] bytes; [lia|]. cbn [skip_bytes br_rest].
  destruct (Z.ltb_spec bytes bytes_offset); [|intros [= <- <-]; by left].
  unfold read_next_bytes. cbn [br_rest stream_position]. destruct m.
  - destruct (split_line rest) as [line rest'] eqn:Hs. assert (Hlen := split_line_app _ _ _ Hs).
    destruct (Nat.eqb_spec (length line) 0) as [Hl|Hl].
    + intros [= <- <-] _. right. cbn. destruct rest as [|b rest]; [by injection Hs as _ <-|].
      destruct (split_line_lines (b :: rest) line rest' ltac:(done) Hs) as [_ Hne]. by destruct line.
    + intros (b & _ & Hskip)%bind_ok Hf. eapply IH; [exact Hskip|]. cbn. subst rest. rewrite length_app in Hf. lia.
  - destruct (Nat.eqb_spec (length rest) 0) as [Hl|Hl].
    + intros [= <- <-] _. by right.
    + intros (b & _ & Hskip)%bind_ok Hf. eapply IH; [exact Hskip|]. cbn. lia.
Qed.
Lemma skip_records_stops `{Csv, !CsvByteRecords} fuel r offset bytes_offset r' offset' :
  (∀ r r', csv_read_byte_record r = (Ok true, r') → csv_position_byte r < csv_position_byte r') →
  offset ≤ csv_position_byte r → bytes_offset - offset ≤ Z.of_nat fuel →
  skip_records fuel r offset bytes_offset = Ok (r', offset') →
  bytes_offset ≤ offset' ∨ ∃ r0, csv_read_byte_record r0 = (Ok false, r').
Proof.
  intros Hgrows. revert r offset. induction fuel as [|fuel IH]; intros r offset Hpos Hf; cbn [skip_records].
  { intros [= <- <-]. left. lia. }
  destruct (Z.ltb_spec offset bytes_offset); [|intros [= <- <-]; by left].
  destruct (csv_read_byte_record r) as [[[]|e|p] r1] eqn:Hr; cbn; [|intros [= <- <-]; right; by exists r|done..].
  apply IH; [done|]. specialize (Hgrows _ _ Hr). lia.
Qed.

(** An entry among those of an object, and among those of the bucket. *)
Lemma entry_results_split key n bytes es before rc off after :
  entry_results key n bytes es = before ++ RrData rc off :: after →
  ∃ es1 es2, es = es1 ++ es2 ∧ off = (OkEmpty, S3ObjectPosition (n + Z.of_nat (length es1)) key (bytes + total es1)) ∧
    after = entry_results key (n + Z.of_nat (length es1)) (bytes + total es1) es2.
Proof.
  revert n bytes before. induction es as [|e es IH]; intros n bytes before; [by destruct before|]. cbn [entry_results].
  destruct before as [|r before]; cbn [app]; intros [= H1 H2].
  - exists [e], es. rewrite total_cons. unfold total. cbn. rewrite Z.add_0_r. subst. done.
  - apply IH in H2 as (es1 & es2 & -> & -> & ->). exists (e :: es1), es2. rewrite total_cons. cbn [length app].
    replace (n + Z.of_nat (S (length es1))) with (n + 1 + Z.of_nat (length es1)) by lia.
    by rewrite !Z.add_assoc.
Qed.
Lemma bucket_results_split contents n l before rc off after :
  bucket_results ByLine contents n l = before ++ RrData rc off :: after →
  ∃ l1 t key l2 es1 es2 n', l = l1 ++ (t, key) :: l2 ∧ lines (contents key) = es1 ++ es2 ∧
    off = (OkEmpty, S3ObjectPosition n' key (total es1)) ∧
    after = entry_results key n' (total es1) es2 ++ bucket_results ByLine contents (n' + Z.of_nat (length es2)) l2.
Proof.
  revert n before. induction l as [|[t key] l IH]; intros n before; [by destruct before|]. cbn [bucket_results entries source_end is_full app].
  destruct before as [|r before]; cbn [app]; intros [= H1 H2].
  assert (Hlater : ∀ before', bucket_results ByLine contents (n + Z.of_nat (length (lines (contents key)))) l = before' ++ RrData rc off :: after →
    ∃ l1 t' key' l2 es1 es2 n', (t, key) :: l = l1 ++ (t', key') :: l2 ∧ lines (contents key') = es1 ++ es2 ∧
    off = (OkEmpty, S3ObjectPosition n' key' (total es1)) ∧
    after = entry_results key' n' (total es1) es2 ++ bucket_results ByLine contents (n' + Z.of_nat (length es2)) l2).
  { intros before' Hb. apply IH in Hb as (l1 & t' & key' & l2 & es1 & es2 & n' & -> & Hrest).
    by exists ((t, key) :: l1), t', key', l2, es1, es2, n'. }
  apply app_eq_inv in H2 as [([|r' k] & Hk & Hafter)|(k & Hk & Hrest)].
  - by apply (Hlater []).
  - injection Hafter as <- ->. apply entry_results_split in Hk as (es1 & es2 & Hes & -> & ->).
    exists [], t, key, l, es1, es2, (n + Z.of_nat (length es1)). split_and!; [done..|].
    rewrite Hes, length_app. do 2 f_equal. lia.
  - by eapply Hlater.
Qed.

Section bucket.
Context `{Rfc3339, Profile}.
Context (prefix : string) (poll : bool) (bucket : S3Bucket) (pages : list (list S3Object)).
Abbreviation objects := (concat pages).
Context (Hlist : s3_list bucket prefix = Ok pages).
Context (Hget : ∀ o, o ∈ objects → snd (s3_get bucket (s3_key o)) = Ok 200).
Context (Hkeys : NoDup (s3_key <$> objects)).
(** The objects with a readable time, in the order of their times and keys. *)
Definition in_time_order : list (Z * string) := sort (candidates ∅ objects).
(** The reader sends the given results, and then has nothing to send. *)
Definition sends_exactly (r : S3GenericReader) (results : list Result) : Prop :=
  ∃ r' r'', s3_run bucket (length results) r = (results, r') ∧
    s3_generic_read (r', bucket) = (Ok (if poll then None else Some RrFinished), (r'', bucket)).

Lemma all_to_read : still_to_read ∅ objects in_time_order.
Proof. split; [symmetry; apply sort_by_perm|apply sort_sorted]. Qed.
Lemma sends_bucket m n bytes br current processed l :
  at_end m br → joined current → still_to_read processed objects l →
  Forall offset_fits (bucket_results m (contents bucket) n l) →
  sends_exactly (reader_at prefix poll m n bytes br current processed) (bucket_results m (contents bucket) n l).
Proof.
  intros Hend Hj Hl Hfits.
  destruct (run_bucket prefix poll m bucket pages Hlist Hget Hkeys l n bytes br current processed Hend Hj Hl Hfits)
    as (n' & bytes' & br' & current' & processed' & Hrun & Hend' & Hj' & Hl').
  eexists _, _. split; [exact Hrun|]. rewrite read_at_end by done. by eapply no_next_source_spec.
Qed.

Lemma seek_spec l1 t key l2 es1 es2 n' :
  still_to_read ∅ objects (l1 ++ (t, key) :: l2) → lines (contents bucket key) = es1 ++ es2 →
  in_u64 (total es1) = true →
  ∃ br processed, s3_generic_seek (advance_offset OffsetAntichain_new OkEmpty (S3ObjectPosition n' key (total es1)))
      (reader_at prefix poll ByLine 0 0 None None ∅, bucket) =
    (Ok tt, (reader_at prefix poll ByLine n' (total es1) (Some br) (Some (loaded key)) processed, bucket)) ∧
  lines (br_rest br) = es2 ∧ still_to_read processed objects l2.
Proof.
  intros Hl Hes Hin.
  destruct (seek_to_object_spec prefix poll ByLine bucket pages Hlist Hget Hkeys 0 0 None None ∅ l1 t key l2 Hl)
    as (processed & Hseek & Hrest).
  destruct (skip_lines (S (length (contents bucket key))) (contents bucket key) 0 es1 es2 0 Hes) as (br & Hskip & Hbr); [lia..|done|].
  rewrite Z.add_0_l in Hskip. exists br, processed. split_and!; [|done..]. unfold s3_generic_seek, get_offset.
  cbn [antichain advance_offset]. rewrite lookup_insert_eq. rewrite (bind_eff _ _ _ _ _ Hseek).
  destruct (candidate_object pages ∅ t key) as (o & Ho & <-); [rewrite (proj1 Hl), elem_of_app; right; left|].
  unfold stream_object_from_path, generic_scanning, zoom, mbind, eff_bind, gets, lift, set_s3, set_generic, modify.
  cbn -[skip_bytes]. rewrite (stream_loaded bucket pages Hget) by done. cbn -[skip_bytes].
  unfold open_buf_reader. rewrite Hskip. cbn. by rewrite Z.eqb_refl.
Qed.

(** C10: The S3 reader by lines sends the objects of a bucket in the order of their
    times and keys: for each one NewSource and its entries, all of them, with the
    offsets behind them. When it is restarted from the offset of an entry, it sends
    exactly what followed that entry: none is lost and none repeated. The bucket stays
    as it is, lists each object once and answers the listing and the request of every
    object; the counts of entries and bytes fit in 64 bits; objects without a readable
    time are skipped. (Reading whole objects is left out: there the restart repeats an
    object's end as an empty entry.) *)
Theorem s3_reader_resumes r results :
  s3_generic_new bucket prefix poll ByLine = Ok r →
  results = bucket_results ByLine (contents bucket) 0 in_time_order → Forall offset_fits results →
  sends_exactly r results ∧
  ∀ before rc off after, results = before ++ RrData rc off :: after →
  ∃ r', s3_generic_seek (advance_offset OffsetAntichain_new (fst off) (snd off)) (r, bucket) = (Ok tt, (r', bucket)) ∧
    sends_exactly r' after.
Proof.
  unfold s3_generic_new, s3_scanner_new, list_objects. rewrite Hlist. cbn. destruct (existsb _ pages); [|done].
  intros [= <-] -> Hfits. change (mk_S3GenericReader _ _ _ _ _ _ _) with (reader_at prefix poll ByLine 0 0 None None ∅).
  split; [apply sends_bucket; [done..|apply all_to_read|done]|].
  intros before rc off after Hsplit. rewrite Hsplit in Hfits. apply Forall_app in Hfits as [_ [Hoff Hafter]%Forall_cons].
  apply bucket_results_split in Hsplit as (l1 & t & key & l2 & es1 & es2 & n' & Hl & Hes & -> & ->).
  assert (Hall := all_to_read). rewrite Hl in Hall.
  destruct (seek_spec l1 t key l2 es1 es2 n' Hall Hes (proj2 Hoff)) as (br & processed & Hseek & Hbr & Hrest).
  eexists. split; [exact Hseek|]. rewrite <- Hbr in Hafter |- *. apply Forall_app in Hafter as [Hf1 Hf2].
  destruct br as [rest pos]. cbn [br_rest] in *.
  destruct (run_entries prefix poll ByLine bucket n' (total es1) rest pos key processed Hf1) as (bytes1 & br1 & Hrun1 & Hend1).
  cbn [source_end is_full] in Hrun1. rewrite app_nil_r in Hrun1.
  destruct (sends_bucket ByLine (n' + Z.of_nat (length (lines rest))) bytes1 br1 (Some (loaded key)) processed l2)
    as (r' & r'' & Hrun2 & Hlast); [done..|].
  exists r', r''. split; [|done]. rewrite length_app. eapply s3_run_app; [exact Hrun1|done|exact Hrun2].
Qed.
End bucket.

(** ** Commits *)

(** A result that leaves the permission to commit as it is, or takes it back. *)
Definition allows_no_commit (r : Result) : Prop := match r with RrFinishedSource _ => False | _ => True end.

Section no_commit.
Context `{Rfc3339, Profile}.

(** The bucket may change between the turns. *)
Fixpoint s3_turns (buckets : list S3Bucket) (r : S3GenericReader) : list (outcome StorageError (option Result)) :=
  match buckets with
  | [] => []
  | bucket :: buckets => let '(o, (r, _)) := s3_generic_read (r, bucket) in o :: s3_turns buckets r
  end.
Definition sent (os : list (outcome StorageError (option Result))) : list Result :=
  omap (λ o, match o with Ok (Some r) => Some r | _ => None end) os.

Lemma next_source_no_commit r bucket o r' bucket' : s3_next_source (r, bucket) = (o, (r', bucket')) →
  (∀ result, o = Ok (Some result) → allows_no_commit result) ∧ s3_read_method r' = s3_read_method r ∧ s3_deferred r' = s3_deferred r.
Proof.
  unfold s3_next_source, s3_stream_next, generic_scanning, zoom, mbind, eff_bind, gets, set_generic, modify. cbn.
  destruct (stream_next_object _) as [[[bs|]|e|p] [x b]]; cbn; intros [= <- <- <-]; split; try done.
  - by intros result [= <-].
  - intros result. destruct (poll_new_objects r); [done|]. by intros [= <-].
Qed.
Lemma read_no_commit r bucket o r' bucket' :
  s3_read_method r = ByLine → s3_deferred r = None → s3_generic_read (r, bucket) = (o, (r', bucket')) →
  (∀ result, o = Ok (Some result) → allows_no_commit result) ∧ s3_read_method r' = ByLine ∧ s3_deferred r' = None.
Proof.
  intros Hm Hd. unfold s3_generic_read. unfold mbind at 1, eff_bind at 1, gets. cbn [fst]. rewrite Hd.
  destruct (s3_reader r) as [br|]; [|intros Hn; apply next_source_no_commit in Hn as (? & -> & ->); done].
  rewrite Hm. destruct (read_next_bytes ByLine br) as [line br'].
  unfold mbind at 1, eff_bind at 1, set_generic, modify. cbn [fst snd is_full]. rewrite orb_false_r.
  destruct (0 <? _); [|intros Hn; apply next_source_no_commit in Hn as (? & -> & ->); done].
  unfold mbind, eff_bind, lift, mret, eff_ret. destruct (u64_arith _) as [n|e|p]; [|by intros [= <- <- <-]..].
  destruct (u64_arith _) as [bytes|e|p]; [|by intros [= <- <- <-]..].
  destruct (expect_current_object_path _) as [path|e|p]; [|by intros [= <- <- <-]..].
  intros [= <- <- <-]. split; [|done]. by intros result [= <-].
Qed.
Lemma turns_no_commit buckets r : s3_read_method r = ByLine → s3_deferred r = None →
  Forall allows_no_commit (sent (s3_turns buckets r)).
Proof.
  revert r. induction buckets as [|bucket buckets IH]; intros r Hm Hd; cbn [s3_turns]; [constructor|].
  destruct (s3_generic_read (r, bucket)) as [o [r' b']] eqn:Hread.
  destruct (read_no_commit _ _ _ _ _ Hm Hd Hread) as (Ho & Hm' & Hd'). cbn [sent omap list_omap].
  destruct o as [[result|]|e|p]; [constructor; [by apply Ho|]|..]; by apply IH.
Qed.
End no_commit.

Section poller.
Context {S P : Type} `{InputAdaptor S, Profile, Rfc3339} `{!Parser ReaderContext SourceMetadata P}.
Context (unix_timestamp_ms instant_now : nat → Z).
Context (values_to_key : option (list Value) → option Offset → outcome unit Key).

Lemma entry_no_commit (p p' : PollerState S P) result :
  handle_input_entry unix_timestamp_ms instant_now values_to_key p (EnRealtime result) = Ok p' → allows_no_commit result →
  commit_allowed p = false → commit_allowed p' = false.
Proof.
  intros Hh Hr Hp. destruct result as [|metadata|allowed|context offset]; [| |done|]; cbn [handle_input_entry] in Hh.
  - by injection Hh as <-.
  - by injection Hh as <-.
  - destruct (parse (parser p) context) as [[parsed|e|m] parser']; [|by injection Hh as <-|done].
    apply bind_ok in Hh as (x & _ & Hh). destruct (snapshot_writer (pstate p)); [|by injection Hh as <-].
    cbn [backfilling_finished] in Hh. destruct (backfilling_finished p); [|done]. by injection Hh as <-.
Qed.
Lemma entries_no_commit (p p' : PollerState S P) results : Forall allows_no_commit results →
  handle_entries unix_timestamp_ms instant_now values_to_key p (map EnRealtime results) = Ok p' →
  commit_allowed p = false → commit_allowed p' = false.
Proof.
  intros Hall. revert p. induction Hall as [|result results Hr _ IH]; intros p; cbn [map].
  { by intros [= <-]. }
  rewrite handle_entries_cons. intros (p1 & Hp1 & Hh)%bind_ok Hp. eapply IH; [exact Hh|]. by eapply entry_no_commit.
Qed.

(** Once an S3 reader that reads by lines has begun with an object, the connector makes
    no commit by its clock any more: whatever the bucket holds at each turn, the reader
    sends no [FinishedSource], the permission to commit that [NewSource] took back
    never returns, and the time of the input session stays where it is. *)
Theorem s3_lines_block_commits (buckets : list S3Bucket) (r : S3GenericReader) (p p' p'' : PollerState S P) (now : Z) :
  s3_read_method r = ByLine → s3_deferred r = None →
  handle_entries unix_timestamp_ms instant_now values_to_key p
    (map EnRealtime (RrNewSource None :: sent (s3_turns buckets r))) = Ok p' →
  maybe_commit unix_timestamp_ms instant_now values_to_key p' now = Ok p'' → pstate p'' = pstate p'.
Proof.
  intros Hm Hd. cbn [map]. rewrite handle_entries_cons. intros (p1 & Hp1 & Hh)%bind_ok.
  assert (Hallowed : commit_allowed p1 = false) by (by injection Hp1 as <-).
  apply entries_no_commit in Hh; [|by apply turns_no_commit|done]. unfold maybe_commit.
  destruct (next_commit_at p') as [t|]; [|by intros [= <-]]. destruct (t <=? now); [|by intros [= <-]].
  rewrite Hh, andb_false_r. cbn. intros (d & _ & (n & _ & [= <-])%bind_ok)%bind_ok. done.
Qed.
End poller.

(** ** A bucket *)

Module Bucket.
#[export] Instance profile : Profile := true.
(** Times are as long as their text. *)
#[export] Instance rfc3339 : Rfc3339 := λ s, if (s =? "")%string then None else Some (Z.of_nat (String.length s)).
Definition objects : list (string * string * string) :=
  [("data/b", "--", "3"); ("data/c", "", "lost"); ("data/a", "--", "1"); ("data/d", "-", "0")]%string.
Definition text (key : string) : list Z :=
  if (key =? "data/a")%string then [49; 10; 50; 10] else if (key =? "data/b")%string then [51] else [].
Definition pages : list (list S3Object) := [map (λ o : string * string * string, mk_S3Object (fst (fst o)) (snd (fst o))) objects; []].
Definition bucket : S3Bucket := mk_S3Bucket (λ prefix, if (prefix =? "data/")%string then Ok pages else Err tt) (λ key, (text key, Ok 200)).
Definition reader (m : ReadMethod) : S3GenericReader := mk_S3GenericReader (mk_S3Scanner "data/" None ∅) false m None 0 0 None.
Definition entry (n : Z) (key : string) (e : list Z) (bytes : Z) : Result :=
  RrData (RawBytes DeInsert e) (OkEmpty, S3ObjectPosition n key bytes).
End Bucket.
Import Bucket.

Definition bucket_results_sample : list Result :=
  [RrNewSource None; RrNewSource None; entry 1 "data/a" [49; 10] 2; entry 2 "data/a" [50; 10] 4; RrNewSource None;
   entry 3 "data/b" [51] 1].
Lemma sample_results : bucket_results ByLine (contents bucket) 0 (in_time_order pages) = bucket_results_sample.
Proof. vm_compute. reflexivity. Qed.
Lemma s3_reader_resumes_witness :
  sends_exactly false bucket (reader ByLine) bucket_results_sample ∧
  ∃ r', s3_generic_seek (advance_offset OffsetAntichain_new OkEmpty (S3ObjectPosition 1 "data/a" 2)) (reader ByLine, bucket) =
    (Ok tt, (r', bucket)) ∧
    sends_exactly false bucket r' [entry 2 "data/a" [50; 10] 4; RrNewSource None; entry 3 "data/b" [51] 1].
Proof.
  destruct (s3_reader_resumes "data/" false bucket pages) with (r := reader ByLine) (results := bucket_results_sample)
    as [Hall Hresume].
  - reflexivity.
  - intros o Ho. vm_compute in Ho. reflexivity.
  - by apply (bool_decide_unpack _); vm_compute.
  - reflexivity.
  - symmetry. apply sample_results.
  - repeat constructor.
  - split; [exact Hall|].
    apply (Hresume [RrNewSource None; RrNewSource None] (RawBytes DeInsert [49; 10]) (OkEmpty, S3ObjectPosition 1 "data/a" 2)).
    reflexivity.
Defined.
(** A restart of a reader that takes objects whole: the object that was read is sent
    again, as an entry without bytes. *)
Example restart_of_full_s3_reader :
  let '(r, b) := snd (s3_generic_seek (mk_OffsetAntichain {[ OkEmpty := S3ObjectPosition 1 "data/d" 0 ]}) (reader Full, bucket)) in
  fst (s3_run bucket 3 r) = [entry 2 "data/d" [] 0; RrFinishedSource true; RrNewSource None].
Proof. vm_compute. reflexivity. Qed.

Import ConcreteConnector.
#[local] Instance lengths : Parser ReaderContext SourceMetadata unit := {|
  parse q c := (Ok match c with RawBytes _ bs => [PeInsert None [Ok (VInt (Z.of_nat (length bs)))]] | _ => [] end, q);
  on_new_source_started q _ := q
|}.
(** A connector that commits each 10 nanoseconds. *)
Definition committing : PollerState InputSession unit :=
  mk_PollerState (mk_ConnectorState (Connector_new (Some 10) 1 false) ia_new None None [] 0) tt true true (Some 5).
Definition entries_sent : list (Entry ReaderContext SourceMetadata) :=
  map EnRealtime (RrNewSource None :: sent (s3_turns (repeat bucket 7) (reader ByLine))).
Definition after_reading : PollerState InputSession unit :=
  match handle_entries clock clock one_key committing entries_sent with Ok p => p | _ => committing end.
Lemma after_reading_ok : handle_entries clock clock one_key committing entries_sent = Ok after_reading.
Proof. vm_compute. reflexivity. Qed.
Lemma s3_lines_block_commits_witness : ∃ p'',
  maybe_commit clock clock one_key after_reading 100 = Ok p'' ∧
  pstate p'' = pstate after_reading ∧ next_commit_at p'' = Some 15 ∧ pstate after_reading ≠ pstate committing.
Proof.
  destruct (maybe_commit clock clock one_key after_reading 100) as [p''|e|m] eqn:Hm; [|by vm_compute in Hm..].
  exists p''. split_and!; [done| | |by vm_compute].
  - exact (s3_lines_block_commits clock clock one_key (repeat bucket 7) (reader ByLine) committing after_reading p'' 100
      eq_refl eq_refl after_reading_ok Hm).
  - vm_compute in Hm. by injection Hm as <-.
Defined.
