(* ===== verification/Writers.v ===== *)
(** The writers of outputs (FileWriter, PsqlWriter, KafkaWriter, ElasticSearchWriter,
    NullWriter and DeltaTableWriter of src/connectors/data_storage.rs).

    The services are parameters: a file, a connection to a database, a producer, a
    client and a table are states with the calls that the writers make.  A call that
    fails leaves a state behind as well. *)
From Stdlib Require Import ZArith Lia Bool Ascii Floats.SpecFloat.
From stdpp Require Import base list strings gmap.
From S2P Require Import Prelude Effects Order Float Text Data Externals Value Time Timestamp Snapshot Expression DataFormat Output.
From S2P Require Import Readers.
Open Scope Z_scope.

Inductive ArrowDataType := ArBoolean | ArInt64 | ArFloat64 | ArUtf8 | ArBinary | ArTimestamp (tz : option string).
(** [WriteError]. *)
Inductive WriteError :=
| WrIo
| WrKafka
| WrS3 (command : S3CommandName)
| WrPostgres
| WrUtf8
| WrDeltaTable
| WrArrow
| WrTypeMismatchWithSchema (value : Value) (type_ : ArrowDataType)
| WrIncorrectKeyFieldType (value : Value)
| WrUnsupportedType (type_ : Type_)
| WrPsqlQueryFailed (query : list Z)
| WrElasticsearch.

(** ** Files *)

(** [std::fs::File] as the target of [BufWriter]: the result of [write_all] and the
    number of bytes that were written. *)
Class OutputFile (O : Type) := file_write_all : O → list Z → outcome unit unit * nat * O.
Definition BUF_WRITER_CAPACITY : Z := 8192.
Record BufWriter (O : Type) := mk_BufWriter { bw_inner : O; bw_buffer : list Z }.
Arguments mk_BufWriter {O} bw_inner bw_buffer.
Arguments bw_inner {O} b.
Arguments bw_buffer {O} b.

Section file_writer.
Context {O : Type} `{OutputFile O}.
Abbreviation Write := (eff (BufWriter O) WriteError).

(** [BufWriter::flush_buf]: what was written leaves the buffer. *)
Definition flush_buf : Write unit := λ w,
  match bw_buffer w with
  | [] => (Ok tt, w)
  | buffer =>
      let '(r, n, o) := file_write_all (bw_inner w) buffer in
      (map_err (λ _, WrIo) r, mk_BufWriter o (match r with Ok _ => [] | _ => drop n buffer end))
  end.
Definition write_inner (data : list Z) : Write unit := λ w,
  let '(r, _, o) := file_write_all (bw_inner w) data in (map_err (λ _, WrIo) r, mk_BufWriter o (bw_buffer w)).
(** [BufWriter::write_all]. *)
Definition buf_write_all (data : list Z) : Write unit :=
  w ← gets id;
  let spare := BUF_WRITER_CAPACITY - Z.of_nat (length (bw_buffer w)) in
  let len := Z.of_nat (length data) in
  if len <? spare then modify (λ w, mk_BufWriter (bw_inner w) (bw_buffer w ++ data))
  else
    _ ← (if spare <? len then flush_buf else mret tt);
    if BUF_WRITER_CAPACITY <=? len then write_inner data
    else modify (λ w, mk_BufWriter (bw_inner w) (bw_buffer w ++ data)).
Fixpoint write_payloads (payloads : list (list Z)) : Write unit :=
  match payloads with
  | [] => mret tt
  | payload :: payloads =>
      _ ← buf_write_all payload;
      _ ← buf_write_all [10];
      write_payloads payloads
  end.
#[export] Instance FileWriter_Writer : Writer (BufWriter O) WriteError := {|
  write w data := write_payloads (payloads data) w;
  flush_writer w _ := flush_buf w;
  retriable _ := false
|}.
End file_writer.

(** ** Postgres *)

(** [impl ToSql for Value]: the type of a column, and the Rust types it accepts. *)
Inductive SqlKind := KBool | KI64 | KI32 | KI16 | KI8 | KF64 | KF32 | KString | KBytes | KTuple | KNaive | KUtc | KJson.
Class PgTypes := {
  PgType : Type;
  accepts : SqlKind → PgType → bool
}.
Inductive SqlDatum :=
| SqlBool (b : bool)
| SqlInt (kind : SqlKind) (i : Z)
| SqlF64 (f : f64)
| SqlF32 (f : f64)
| SqlString (s : string)
| SqlBytes (bs : list Z)
| SqlTuple (vals : list Value)
| SqlNaive (dt : DateTimeNaive)
| SqlUtc (dt : DateTimeUtc)
| SqlJson (j : JsonValue).
Inductive ToSqlError := WrongPathwayType (pathway_type : string) | TryFromIntError.
(** [as f32]: to the nearest, ties to even. *)
Definition f32_of_int (z : Z) : f64 := binary_normalize 24 128 z 0 false.
Definition f32_of_f64 (f : f64) : f64 :=
  match f with
  | S754_finite s m e => binary_normalize 24 128 (cond_Zopp s (Zpos m)) e s
  | _ => f
  end.
Definition kind_bits (k : SqlKind) : Z := match k with KI64 => 64 | KI32 => 32 | KI16 => 16 | KI8 => 8 | _ => 0 end.
Definition fits_kind (k : SqlKind) (i : Z) : bool := (- 2 ^ (kind_bits k - 1) <=? i) && (i <? 2 ^ (kind_bits k - 1)).

Section to_sql.
Context `{PgTypes, RustText}.
(** [try_forward!] for each of the candidates: the first one that the column accepts is
    taken, and fails if the conversion to it does. *)
Fixpoint try_forward (ty : PgType) (pathway_type : string) (candidates : list (SqlKind * outcome ToSqlError SqlDatum))
    : outcome ToSqlError (option SqlDatum) :=
  match candidates with
  | [] => Err (WrongPathwayType pathway_type)
  | (kind, datum) :: candidates =>
      if accepts kind ty then d ← datum; Ok (Some d) else try_forward ty pathway_type candidates
  end.
Definition try_into_int (kind : SqlKind) (i : Z) : SqlKind * outcome ToSqlError SqlDatum :=
  (kind, if fits_kind kind i then Ok (SqlInt kind i) else Err TryFromIntError).
(** [None]: [IsNull::Yes]. *)
Definition to_sql (v : Value) (ty : PgType) : outcome ToSqlError (option SqlDatum) :=
  match v with
  | VNone => Ok None
  | VBool b => try_forward ty "bool" [(KBool, Ok (SqlBool b))]
  | VInt i =>
      try_forward ty "int"
        [try_into_int KI64 i; try_into_int KI32 i; try_into_int KI16 i; try_into_int KI8 i;
         (KF64, Ok (SqlF64 (f64_of_int i))); (KF32, Ok (SqlF32 (f32_of_int i)))]
  | VFloat f => try_forward ty "float" [(KF64, Ok (SqlF64 f)); (KF32, Ok (SqlF32 (f32_of_f64 f)))]
  | VPointer p => try_forward ty "pointer" [(KString, Ok (SqlString (key_display p)))]
  | VString s => try_forward ty "string" [(KString, Ok (SqlString s))]
  | VBytes b => try_forward ty "bytes" [(KBytes, Ok (SqlBytes b))]
  | VTuple t => try_forward ty "tuple" [(KTuple, Ok (SqlTuple t))]
  | VIntArray _ => Err (WrongPathwayType "int array")
  | VFloatArray _ => Err (WrongPathwayType "float array")
  | VDateTimeNaive dt => try_forward ty "naive date/time" [(KNaive, Ok (SqlNaive dt))]
  | VDateTimeUtc dt => try_forward ty "UTC date/time" [(KUtc, Ok (SqlUtc dt))]
  | VDuration _ => Err (WrongPathwayType "duration")
  | VJson j => try_forward ty "JSON" [(KJson, Ok (SqlJson (handle_data j)))]
  | VError => Err (WrongPathwayType "error")
  | VPyObjectWrapper _ => Err (WrongPathwayType "PyObjectWrapper")
  end.
End to_sql.

(** A client and its transactions; an error carries the state that it leaves. *)
Class PsqlClient (C T : Type) := {
  psql_transaction : C → outcome C T;
  psql_execute : T → list Z → list Value → outcome T T;
  psql_commit : T → outcome C C;
  psql_rollback : T → C
}.
Record PsqlWriter (C : Type) := mk_PsqlWriter {
  client : C;
  max_batch_size : option nat;
  buffer : list FormatterContext;
  snapshot_mode : bool
}.
Arguments mk_PsqlWriter {C} client max_batch_size buffer snapshot_mode.
Arguments client {C} p.
Arguments max_batch_size {C} p.
Arguments buffer {C} p.
Arguments snapshot_mode {C} p.

Section psql.
Context {C T : Type} `{PsqlClient C T}.
Definition psql_writer_new (client : C) (max_batch_size : option nat) (snapshot_mode : bool) : PsqlWriter C :=
  mk_PsqlWriter client max_batch_size [] snapshot_mode.
Definition with_client (c : C) (b : list FormatterContext) (w : PsqlWriter C) : PsqlWriter C :=
  mk_PsqlWriter c (max_batch_size w) b (snapshot_mode w).

Abbreviation InTransaction := (eff T WriteError).
Definition execute (query : list Z) (params : list Value) : InTransaction unit := λ t,
  match psql_execute t query params with
  | Ok t => (Ok tt, t)
  | Err t => (Err (WrPsqlQueryFailed query), t)
  | Panic p => (Panic p, t)
  end.
Fixpoint execute_payloads (params : list Value) (payloads : list (list Z)) : InTransaction unit :=
  match payloads with
  | [] => mret tt
  | payload :: payloads =>
      _ ← lift (if utf8_valid payload then Ok tt else Err WrUtf8);
      _ ← execute payload params;
      execute_payloads params payloads
  end.
Fixpoint execute_buffer (buffer : list FormatterContext) : InTransaction unit :=
  match buffer with
  | [] => mret tt
  | data :: buffer => _ ← execute_payloads (fc_values data) (payloads data); execute_buffer buffer
  end.
(** The buffer is drained once the transaction has begun; a transaction that is dropped
    is rolled back. *)
Definition psql_flush (w : PsqlWriter C) : outcome WriteError unit * PsqlWriter C :=
  match buffer w with
  | [] => (Ok tt, w)
  | buffer =>
      match psql_transaction (client w) with
      | Err c => (Err WrPostgres, with_client c buffer w)
      | Panic p => (Panic p, w)
      | Ok transaction =>
          let '(r, transaction) := execute_buffer buffer transaction in
          match r with
          | Ok _ =>
              match psql_commit transaction with
              | Ok c => (Ok tt, with_client c [] w)
              | Err c => (Err WrPostgres, with_client c [] w)
              | Panic p => (Panic p, with_client (psql_rollback transaction) [] w)
              end
          | _ => (r, with_client (psql_rollback transaction) [] w)
          end
      end
  end.
Definition psql_write (w : PsqlWriter C) (data : FormatterContext) : outcome WriteError unit * PsqlWriter C :=
  let w := with_client (client w) (buffer w ++ [data]) w in
  match max_batch_size w with
  | Some max_batch_size => if Nat.eqb (length (buffer w)) max_batch_size then psql_flush w else (Ok tt, w)
  | None => (Ok tt, w)
  end.
#[export] Instance PsqlWriter_Writer : Writer (PsqlWriter C) WriteError := {|
  write := psql_write;
  flush_writer w _ := psql_flush w;
  retriable _ := false
|}.
Definition psql_single_threaded (w : PsqlWriter C) : bool := snapshot_mode w.
End psql.

(** ** Kafka *)

Record KafkaRecord := mk_KafkaRecord {
  kr_topic : string;
  kr_payload : list Z;
  kr_headers : list (string * list Z);
  kr_key : list Z
}.
Inductive SendResult := Sent | QueueFull | SendFailed.
Class KafkaProducer (P : Type) := {
  producer_send : P → KafkaRecord → SendResult * P;
  producer_poll : P → P;
  producer_flush : P → outcome unit unit * P
}.
Record KafkaWriter (P : Type) := mk_KafkaWriter {
  producer : P;
  kw_topic : string;
  header_fields : list (string * nat);
  kw_key_field_index : option nat
}.
Arguments mk_KafkaWriter {P} producer kw_topic header_fields kw_key_field_index.
Arguments producer {P} k.
Arguments kw_topic {P} k.
Arguments header_fields {P} k.
Arguments kw_key_field_index {P} k.

Section kafka_writer.
Context {P : Type} `{KafkaProducer P}.
Context `{Profile, XxHash, Python, SerdeJson, Chrono, Ndarray, RustText}.

Definition with_producer (p : P) (w : KafkaWriter P) : KafkaWriter P :=
  mk_KafkaWriter p (kw_topic w) (header_fields w) (kw_key_field_index w).
(** [values[index]]. *)
Definition value_at (values : list Value) (index : nat) : outcome WriteError Value :=
  match values !! index with Some v => Ok v | None => Panic "index out of bounds" end.
Definition kafka_key (w : KafkaWriter P) (data : FormatterContext) : outcome WriteError (list Z) :=
  match kw_key_field_index w with
  | Some index =>
      v ← value_at (fc_values data) index;
      match v with
      | VBytes bytes => Ok bytes
      | VString s => Ok (string_bytes s)
      | v => Err (WrIncorrectKeyFieldType v)
      end
  | None => Ok (to_le_bytes 16 (key_0 (fc_key data)))
  end.
Definition header_value (values : list Value) (field : string * nat) : outcome WriteError (string * list Z) :=
  v ← value_at values (snd field);
  match v with
  | VBytes b => Ok (fst field, b)
  | other => s ← display_expect (value_display other); Ok (fst field, string_bytes s)
  end.
Definition kafka_headers (w : KafkaWriter P) (data : FormatterContext) : outcome WriteError (list (string * list Z)) :=
  fields ← try_collect (header_value (fc_values data)) (header_fields w);
  Ok ([("pathway_time"%string, string_bytes (timestamp_to_string (fc_time data)));
       ("pathway_diff"%string, string_bytes (int_to_string (fc_diff data)))] ++ fields).
(** The loop on a full queue; [None]: it has not ended after [fuel] attempts. *)
Fixpoint kafka_send (fuel : nat) (entry : KafkaRecord) (p : P) : option (outcome WriteError unit * P) :=
  match fuel with
  | O => None
  | S fuel =>
      let '(r, p) := producer_send p entry in
      match r with
      | Sent => Some (Ok tt, p)
      | QueueFull => kafka_send fuel entry (producer_poll p)
      | SendFailed => Some (Err WrKafka, p)
      end
  end.
Fixpoint kafka_send_all (fuel : nat) (entries : list KafkaRecord) (p : P) : option (outcome WriteError unit * P) :=
  match entries with
  | [] => Some (Ok tt, p)
  | entry :: entries =>
      ' (r, p) ← kafka_send fuel entry p;
      match r with Ok _ => kafka_send_all fuel entries p | _ => Some (r, p) end
  end.
Definition kafka_records (w : KafkaWriter P) (data : FormatterContext) : outcome WriteError (list KafkaRecord) :=
  key_as_bytes ← kafka_key w data;
  headers ← kafka_headers w data;
  Ok (map (λ payload, mk_KafkaRecord (kw_topic w) payload headers key_as_bytes) (payloads data)).
Definition kafka_write (fuel : nat) (w : KafkaWriter P) (data : FormatterContext) : option (outcome WriteError unit * KafkaWriter P) :=
  match kafka_records w data with
  | Ok entries =>
      ' (r, p) ← kafka_send_all fuel entries (producer w);
      Some (r, with_producer p w)
  | Err e => Some (Err e, w)
  | Panic p => Some (Panic p, w)
  end.
(** [Writer::flush] is the default one. *)
Definition kafka_flush (w : KafkaWriter P) : outcome WriteError unit * KafkaWriter P := (Ok tt, w).
Definition kafka_drop (w : KafkaWriter P) : outcome WriteError unit * KafkaWriter P :=
  let '(r, p) := producer_flush (producer w) in
  (match r with Ok _ => Ok tt | _ => Panic "kafka commit should work" end, with_producer p w).
End kafka_writer.

(** ** Elasticsearch *)

Class ElasticClient (C : Type) := elastic_bulk : C → string → list (list Z) → outcome unit unit * C.
Record ElasticSearchWriter (C : Type) := mk_ElasticSearchWriter {
  es_client : C;
  index_name : string;
  es_max_batch_size : option Z;
  docs_buffer : list (list Z)
}.
Arguments mk_ElasticSearchWriter {C} es_client index_name es_max_batch_size docs_buffer.
Arguments es_client {C} e.
Arguments index_name {C} e.
Arguments es_max_batch_size {C} e.
Arguments docs_buffer {C} e.
(** Its quotes are written as apostrophes. *)
Definition INDEX_ACTION : list Z :=
  string_bytes (String.string_of_list_ascii (map (λ c, if (c =? "'")%char then ascii_of_N 34 else c)
    (String.list_ascii_of_string "{'index': {}}"))).

Section elastic.
Context {C : Type} `{ElasticClient C}.
Definition elastic_writer_new (client : C) (index_name : string) (max_batch_size : option Z) : ElasticSearchWriter C :=
  mk_ElasticSearchWriter client index_name max_batch_size [].
Definition elastic_flush (w : ElasticSearchWriter C) : outcome WriteError unit * ElasticSearchWriter C :=
  match docs_buffer w with
  | [] => (Ok tt, w)
  | docs =>
      let '(r, c) := elastic_bulk (es_client w) (index_name w) docs in
      (map_err (λ _, WrElasticsearch) r, mk_ElasticSearchWriter c (index_name w) (es_max_batch_size w) [])
  end.
Definition elastic_write (w : ElasticSearchWriter C) (data : FormatterContext) : outcome WriteError unit * ElasticSearchWriter C :=
  let docs := docs_buffer w ++ concat (map (λ payload, [INDEX_ACTION; payload]) (payloads data)) in
  let w := mk_ElasticSearchWriter (es_client w) (index_name w) (es_max_batch_size w) docs in
  match es_max_batch_size w with
  | Some max_batch_size => if max_batch_size <=? Z.of_nat (length docs) / 2 then elastic_flush w else (Ok tt, w)
  | None => (Ok tt, w)
  end.
#[export] Instance ElasticSearchWriter_Writer : Writer (ElasticSearchWriter C) WriteError := {|
  write := elastic_write;
  flush_writer w _ := elastic_flush w;
  retriable _ := false
|}.
End elastic.

(** ** Nothing *)

Inductive NullWriter := mk_NullWriter.
#[export] Instance NullWriter_Writer : Writer NullWriter WriteError := {|
  write w _ := (Ok tt, w);
  flush_writer w _ := (Ok tt, w);
  retriable _ := false
|}.

(** ** Delta tables *)

(** [ValueField] of python_api.rs. *)
Record ValueField := mk_ValueField {
  vf_name : string;
  vf_type : Type_;
  vf_is_optional : bool;
  vf_default : option Value
}.
Record ArrowField := mk_ArrowField { af_name : string; af_data_type : ArrowDataType; af_nullable : bool }.
Inductive ArrowArray :=
| AaBoolean (vs : list (option bool))
| AaInt64 (vs : list (option Z))
| AaFloat64 (vs : list (option f64))
| AaUtf8 (vs : list (option string))
| AaBinary (vs : list (option (list Z)))
| AaTimestamp (tz : option string) (vs : list (option Z)).
Inductive DeltaTablePrimitiveType := DtBoolean | DtDouble | DtString | DtBinary | DtTimestampNtz | DtTimestamp | DtLong.
Record DeltaTableStructField := mk_DeltaTableStructField {
  sf_name : string; sf_type : DeltaTablePrimitiveType; sf_nullable : bool
}.
(** The crate deltalake, with the clock: the state of a table and its writer. *)
Class DeltaLake (D : Type) := {
  delta_create : string → list DeltaTableStructField → outcome unit D;
  delta_open : string → outcome unit D;
  record_batch_try_new : list ArrowField → list ArrowArray → outcome unit (list ArrowArray);
  delta_write : D → list ArrowArray → outcome unit unit * D;
  delta_flush_and_commit : D → outcome unit unit * D;
  instant_now : D → Z
}.
Definition SPECIAL_OUTPUT_FIELDS : list (string * Type_) := [("time"%string, TInt); ("diff"%string, TInt)].

Definition arrow_data_type (type_ : Type_) : outcome WriteError ArrowDataType :=
  match type_ with
  | TBool => Ok ArBoolean
  | TInt | TDuration => Ok ArInt64
  | TFloat => Ok ArFloat64
  | TPointer | TString | TJson => Ok ArUtf8
  | TBytes => Ok ArBinary
  | TDateTimeNaive => Ok (ArTimestamp None)
  | TDateTimeUtc => Ok (ArTimestamp (Some "UTC"%string))
  | TAny | TArray | TTuple | TPyObjectWrapper => Err (WrUnsupportedType type_)
  end.
Definition delta_table_primitive_type (type_ : Type_) : outcome WriteError DeltaTablePrimitiveType :=
  match type_ with
  | TBool => Ok DtBoolean
  | TFloat => Ok DtDouble
  | TPointer | TString | TJson => Ok DtString
  | TBytes => Ok DtBinary
  | TDateTimeNaive => Ok DtTimestampNtz
  | TDateTimeUtc => Ok DtTimestamp
  | TInt | TDuration => Ok DtLong
  | TAny | TArray | TTuple | TPyObjectWrapper => Err (WrUnsupportedType type_)
  end.
Definition construct_schema (value_fields : list ValueField) : outcome WriteError (list ArrowField) :=
  fields ← try_collect (λ f, t ← arrow_data_type (vf_type f); Ok (mk_ArrowField (vf_name f) t (vf_is_optional f))) value_fields;
  special ← try_collect (λ f : string * Type_, t ← arrow_data_type (snd f); Ok (mk_ArrowField (fst f) t false)) SPECIAL_OUTPUT_FIELDS;
  Ok (fields ++ special).
Definition struct_fields (schema_fields : list ValueField) : outcome WriteError (list DeltaTableStructField) :=
  fields ← try_collect (λ f, t ← delta_table_primitive_type (vf_type f);
                             Ok (mk_DeltaTableStructField (vf_name f) t (vf_is_optional f))) schema_fields;
  special ← try_collect (λ f : string * Type_, t ← delta_table_primitive_type (snd f);
                             Ok (mk_DeltaTableStructField (fst f) t false)) SPECIAL_OUTPUT_FIELDS;
  Ok (fields ++ special).

Section delta.
Context {D : Type} `{DeltaLake D}.
Context `{Profile, SerdeJson, Chrono, RustText}.

Definition open_table (path : string) (schema_fields : list ValueField) : outcome WriteError D :=
  fields ← struct_fields schema_fields;
  match delta_create path fields with
  | Err _ => map_err (λ _, WrDeltaTable) (delta_open path)
  | r => map_err (λ _, WrDeltaTable) r
  end.

Fixpoint array_of_target_type {E} (to_simple_type : Value → outcome WriteError E) (values : list Value)
    : outcome WriteError (list (option E)) :=
  match values with
  | [] => Ok []
  | value :: values =>
      v ← match value with VNone => Ok None | _ => v ← to_simple_type value; Ok (Some v) end;
      vs ← array_of_target_type to_simple_type values;
      Ok (v :: vs)
  end.
Definition mismatch {E} (v : Value) (type_ : ArrowDataType) : outcome WriteError E := Err (WrTypeMismatchWithSchema v type_).
(** The accessors of times return no error. *)
Definition accessor {A} (r : DynResult A) : outcome WriteError A :=
  match r with Ok a => Ok a | Err _ => Panic "unreachable" | Panic p => Panic p end.
Definition arrow_array_for_type (type_ : ArrowDataType) (values : list Value) : outcome WriteError ArrowArray :=
  match type_ with
  | ArBoolean =>
      v ← array_of_target_type (λ v, match v with VBool b => Ok b | _ => mismatch v type_ end) values;
      Ok (AaBoolean v)
  | ArInt64 =>
      v ← array_of_target_type (λ v, match v with
                                     | VInt i => Ok i
                                     | VDuration d => accessor (microseconds d)
                                     | _ => mismatch v type_
                                     end) values;
      Ok (AaInt64 v)
  | ArFloat64 =>
      v ← array_of_target_type (λ v, match v with VFloat f => Ok f | _ => mismatch v type_ end) values;
      Ok (AaFloat64 v)
  | ArUtf8 =>
      v ← array_of_target_type (λ v, match v with
                                     | VString s => Ok s
                                     | VPointer p => Ok (key_display p)
                                     | VJson j => Ok (json_to_string (handle_data j))
                                     | _ => mismatch v type_
                                     end) values;
      Ok (AaUtf8 v)
  | ArBinary =>
      v ← array_of_target_type (λ v, match v with VBytes b => Ok b | _ => mismatch v type_ end) values;
      Ok (AaBinary v)
  | ArTimestamp None =>
      v ← array_of_target_type (λ v, match v with
                                     | VDateTimeNaive dt => accessor (timestamp_microseconds dt)
                                     | _ => mismatch v type_
                                     end) values;
      Ok (AaTimestamp None v)
  | ArTimestamp (Some tz) =>
      v ← array_of_target_type (λ v, match v with
                                     | VDateTimeUtc dt => accessor (timestamp_microseconds dt)
                                     | _ => mismatch v type_
                                     end) values;
      Ok (AaTimestamp (Some tz) v)
  end.

(** [table] and [writer] are the state [D]. *)
Record DeltaTableWriter := mk_DeltaTableWriter {
  delta_table : D;
  delta_schema : list ArrowField;
  buffered_columns : list (list Value);
  min_commit_frequency : option Z;
  last_commit_at : Z
}.
Definition with_delta_table (t : D) (w : DeltaTableWriter) : DeltaTableWriter :=
  mk_DeltaTableWriter t (delta_schema w) (buffered_columns w) (min_commit_frequency w) (last_commit_at w).
Definition with_columns (c : list (list Value)) (w : DeltaTableWriter) : DeltaTableWriter :=
  mk_DeltaTableWriter (delta_table w) (delta_schema w) c (min_commit_frequency w) (last_commit_at w).
Definition delta_writer_new (path : string) (value_fields : list ValueField) (min_commit_frequency : option Z)
    : outcome WriteError DeltaTableWriter :=
  schema ← construct_schema value_fields;
  table ← open_table path value_fields;
  Ok (mk_DeltaTableWriter table schema (replicate (length schema) []) min_commit_frequency (instant_now table)).
Definition prepare_delta_batch (w : DeltaTableWriter) : outcome WriteError (list ArrowArray) :=
  data_columns ← try_collect (λ c : nat * list Value,
      field ← match delta_schema w !! fst c with Some f => Ok f | None => Panic "index out of bounds" end;
      arrow_array_for_type (af_data_type field) (snd c))
    (imap pair (buffered_columns w));
  map_err (λ _, WrArrow) (record_batch_try_new (delta_schema w) data_columns).

Abbreviation Write := (eff DeltaTableWriter WriteError).
(** [buffered_columns[index].push(value)]. *)
Definition push_value (index : nat) (value : Value) : Write unit :=
  w ← gets id;
  match buffered_columns w !! index with
  | Some column => modify (with_columns (<[index := column ++ [value]]> (buffered_columns w)))
  | None => lift (Panic "index out of bounds")
  end.
Fixpoint push_values (index : nat) (values : list Value) : Write unit :=
  match values with
  | [] => mret tt
  | value :: values => _ ← push_value index value; push_values (S index) values
  end.
Definition try_into_i64 (z : Z) : outcome WriteError Z :=
  if in_i64 z then Ok z else Panic "called `Result::unwrap()` on an `Err` value".
(** [len() - n]. *)
Definition column_from_end (w : DeltaTableWriter) (n : nat) : outcome WriteError nat :=
  if Nat.leb n (length (buffered_columns w)) then Ok (length (buffered_columns w) - n)%nat
  else Panic "attempt to subtract with overflow".
Definition delta_write_entry (data : FormatterContext) : Write unit :=
  _ ← push_values 0 (fc_values data);
  w ← gets id;
  time_column_idx ← lift (column_from_end w 2);
  diff_column_idx ← lift (column_from_end w 1);
  time ← lift (try_into_i64 (Z.of_N (ts_0 (fc_time data))));
  _ ← push_value time_column_idx (VInt time);
  diff ← lift (try_into_i64 (fc_diff data));
  push_value diff_column_idx (VInt diff).
(** A call to the table or its writer. *)
Definition delta_call (f : D → outcome unit unit * D) : Write unit :=
  w ← gets id;
  let '(r, t) := f (delta_table w) in
  _ ← modify (with_delta_table t);
  lift (map_err (λ _, WrDeltaTable) r).
Definition delta_flush (forced : bool) : Write unit :=
  w ← gets id;
  first ← lift (match buffered_columns w with c :: _ => Ok c | [] => Panic "index out of bounds" end);
  let commit_needed :=
    negb (Nat.eqb (length first) 0) &&
    (match min_commit_frequency w with
     | None => true
     | Some f => f <=? instant_now (delta_table w) - last_commit_at w
     end || forced) in
  if commit_needed then
    batch ← lift (prepare_delta_batch w);
    _ ← delta_call (λ t, delta_write t batch);
    _ ← delta_call delta_flush_and_commit;
    modify (λ w, with_columns (map (λ _, []) (buffered_columns w)) w)
  else mret tt.
#[export] Instance DeltaTableWriter_Writer : Writer DeltaTableWriter WriteError := {|
  write w data := delta_write_entry data w;
  flush_writer w forced := delta_flush forced w;
  retriable _ := false
|}.
End delta.
