(* ===== verification/WritersProps.v ===== *)
(** The writers of outputs: the file and the Postgres writer keep the promises that the
    output thread relies on ([WriterLaws]), a Postgres table never holds a part of an
    entry, integers reach a column exactly or not at all, and a batch of a Delta table
    holds the rows that were written since the last one. *)
From Stdlib Require Import ZArith Lia Bool Ascii.
From stdpp Require Import base list strings gmap.
From S2P Require Import Prelude Effects Order Float Text Data Externals Instances Value Time Timestamp Expression Persistence PersistenceProps DataFormat.
From S2P Require Import Output OutputProps Readers Writers.
Open Scope Z_scope.

(** ** Files *)

(** What is known of [write_all] on a file: the bytes that it says it wrote are appended,
    all of them if it succeeds. *)
Class OutputFileLaws (O : Type) `{OutputFile O} := {
  file_contents : O → list Z;
  file_write_spec o bs r n o' : file_write_all o bs = (r, n, o') →
    file_contents o' = file_contents o ++ take n bs ∧ (r = Ok tt → n = length bs)
}.

Section file_writer.
Context {O : Type} `{OutputFileLaws O}.
Implicit Types w : BufWriter O.

Definition file_written w : list Z := file_contents (bw_inner w) ++ bw_buffer w.
Definition file_durable w : list Z := file_contents (bw_inner w).
(** The file grows, and what was written grows by [bs]. *)
Definition writes w (bs : list Z) w' : Prop :=
  file_written w' = file_written w ++ bs ∧ file_durable w `prefix_of` file_durable w'.

Lemma writes_app w bs w1 bs' w' : writes w bs w1 → writes w1 bs' w' → writes w (bs ++ bs') w'.
Proof. intros [Hw1 Hd1] [Hw2 Hd2]. split; [by rewrite Hw2, Hw1, app_assoc|by etrans]. Qed.
Lemma flush_buf_spec w w' u : flush_buf w = (Ok u, w') → writes w [] w' ∧ bw_buffer w' = [].
Proof.
  unfold flush_buf, writes, file_written, file_durable. destruct w as [o [|b bs]]; cbn [bw_buffer bw_inner].
  { intros [= <- <-]. by rewrite !app_nil_r. }
  destruct (file_write_all o (b :: bs)) as [[[[]|e|p] n] o'] eqn:Hf; try done. intros [= <- <-]. cbn [bw_inner bw_buffer].
  destruct (file_write_spec _ _ _ _ _ Hf) as [-> Hn]. rewrite (Hn eq_refl), firstn_all, !app_nil_r.
  split; [|done]. split; [done|by apply prefix_app_r].
Qed.
Lemma buf_write_all_spec data w w' u : buf_write_all data w = (Ok u, w') → writes w data w'.
Proof.
  unfold buf_write_all, gets, id. unfold mbind at 1, eff_bind at 1. cbn beta iota.
  assert (Happend : ∀ w, writes w data (mk_BufWriter (bw_inner w) (bw_buffer w ++ data)))
    by (intros [o b]; unfold writes, file_written, file_durable; cbn; by rewrite app_assoc).
  destruct (_ <? _); [intros [= <- <-]; apply Happend|]. intros (u1 & w1 & Hflush & Hw)%bind_eff_ok.
  assert (writes w [] w1 ∧ (BUF_WRITER_CAPACITY ≤ Z.of_nat (length data) → bw_buffer w1 = [])) as [Hw1 Hempty].
  { destruct (Z.ltb_spec (BUF_WRITER_CAPACITY - Z.of_nat (length (bw_buffer w))) (Z.of_nat (length data))).
    - destruct (flush_buf_spec _ _ _ Hflush). done.
    - injection Hflush as <- <-. split; [split; [by rewrite app_nil_r|done]|]. intros Hlen.
      destruct (bw_buffer w); [done|]. cbn [length] in *. lia. }
  apply (writes_app _ [] w1 data); [done|]. destruct (Z.leb_spec BUF_WRITER_CAPACITY (Z.of_nat (length data))); [|by injection Hw as <- <-].
  unfold write_inner in Hw. destruct (file_write_all (bw_inner w1) data) as [[[[]|e|p] n] o'] eqn:Hf; try done. injection Hw as <- <-.
  destruct (file_write_spec _ _ _ _ _ Hf) as [Hc Hn]. rewrite (Hn eq_refl), firstn_all in Hc.
  unfold writes, file_written, file_durable. cbn [bw_inner bw_buffer]. rewrite Hempty, Hc, !app_nil_r by done.
  split; [done|by apply prefix_app_r].
Qed.
Definition file_items (c : FormatterContext) : list Z := concat (map (λ p, p ++ [10]) (payloads c)).
Lemma write_payloads_spec ps w w' u : write_payloads ps w = (Ok u, w') → writes w (concat (map (λ p, p ++ [10]) ps)) w'.
Proof.
  revert w. induction ps as [|p ps IH]; intros w; cbn [write_payloads map concat].
  { intros [= <- <-]. split; [by rewrite app_nil_r|done]. }
  intros (u1 & w1 & Hp & (u2 & w2 & Hn & Hrest)%bind_eff_ok)%bind_eff_ok.
  eapply writes_app; [|by apply IH]. eapply writes_app; by eapply buf_write_all_spec.
Qed.
#[export] Program Instance FileWriter_laws : WriterLaws (BufWriter O) WriteError := {|
  item := Z; items := file_items; written := file_written; durable := file_durable
|}.
Next Obligation. intros w c w' u Hw. by eapply write_payloads_spec. Qed.
Next Obligation. done. Qed.
Next Obligation.
  intros w b w' u Hw. destruct (flush_buf_spec _ _ _ Hw) as [[Hw' _] Hb]. rewrite app_nil_r in Hw'.
  split; [done|]. rewrite <- Hw'. unfold file_durable, file_written. by rewrite Hb, app_nil_r.
Qed.
Next Obligation. done. Qed.
End file_writer.

(** ** Postgres *)

(** The statements that a database has committed, and those of a transaction.  A failed
    commit may have happened nevertheless. *)
Class PsqlLaws (C T : Type) `{PsqlClient C T} := {
  committed : C → list (list Z * list Value);
  base : T → list (list Z * list Value);
  pending : T → list (list Z * list Value);
  transaction_ok c t : psql_transaction c = Ok t → base t = committed c ∧ pending t = [];
  transaction_err c c' : psql_transaction c = Err c' → committed c' = committed c;
  execute_ok t q vs t' : psql_execute t q vs = Ok t' → base t' = base t ∧ pending t' = pending t ++ [(q, vs)];
  execute_err t q vs t' : psql_execute t q vs = Err t' → base t' = base t;
  commit_ok t c : psql_commit t = Ok c → committed c = base t ++ pending t;
  commit_err t c : psql_commit t = Err c → committed c = base t ∨ committed c = base t ++ pending t;
  rollback_spec t : committed (psql_rollback t) = base t
}.

Section psql.
Context {C T : Type} `{PsqlLaws C T}.
Implicit Types w : PsqlWriter C.

Definition statements (c : FormatterContext) : list (list Z * list Value) := map (λ p, (p, fc_values c)) (payloads c).
Definition all_statements (cs : list FormatterContext) : list (list Z * list Value) := concat (map statements cs).
Lemma all_statements_app cs cs' : all_statements (cs ++ cs') = all_statements cs ++ all_statements cs'.
Proof. unfold all_statements. by rewrite map_app, concat_app. Qed.

Lemma execute_spec q vs t r t' : execute q vs t = (r, t') →
  base t' = base t ∧ (r = Ok tt → pending t' = pending t ++ [(q, vs)]).
Proof.
  unfold execute. destruct (psql_execute t q vs) as [t1|t1|p] eqn:He; intros [= <- <-].
  - apply execute_ok in He as [? ?]. done.
  - apply execute_err in He. done.
  - done.
Qed.
Lemma execute_payloads_spec vs ps t r t' : execute_payloads vs ps t = (r, t') →
  base t' = base t ∧ (r = Ok tt → pending t' = pending t ++ map (λ p, (p, vs)) ps).
Proof.
  revert t. induction ps as [|p ps IH]; intros t; cbn [execute_payloads map].
  { intros [= <- <-]. by rewrite app_nil_r. }
  unfold mbind, eff_bind, lift. destruct (utf8_valid p); [|by intros [= <- <-]].
  destruct (execute p vs t) as [[[]|e|m] t1] eqn:He; apply execute_spec in He as [Hb Hp];
    [|by intros [= <- <-]; rewrite Hb..].
  intros Hrest. apply IH in Hrest as [-> Hp']. rewrite Hb. split; [done|]. intros Hr. by rewrite (Hp' Hr), (Hp eq_refl), <- app_assoc.
Qed.
Lemma execute_buffer_spec cs t r t' : execute_buffer cs t = (r, t') →
  base t' = base t ∧ (r = Ok tt → pending t' = pending t ++ all_statements cs).
Proof.
  revert t. induction cs as [|c cs IH]; intros t; cbn [execute_buffer].
  { intros [= <- <-]. by rewrite app_nil_r. }
  unfold mbind, eff_bind. destruct (execute_payloads _ _ t) as [[[]|e|m] t1] eqn:He; apply execute_payloads_spec in He as [Hb Hp];
    [|by intros [= <- <-]; rewrite Hb..].
  intros Hrest. apply IH in Hrest as [-> Hp']. rewrite Hb. split; [done|]. intros Hr.
  by rewrite (Hp' Hr), (Hp eq_refl), <- app_assoc.
Qed.
(** A flush commits all of the buffer or nothing. *)
Lemma psql_flush_spec w r w' : psql_flush w = (r, w') →
  (committed (client w') = committed (client w) ∨ committed (client w') = committed (client w) ++ all_statements (buffer w)) ∧
  (r = Ok tt → committed (client w') = committed (client w) ++ all_statements (buffer w) ∧ buffer w' = []).
Proof.
  unfold psql_flush. destruct (buffer w) as [|c cs] eqn:Hb.
  { intros [= <- <-]. rewrite Hb, app_nil_r. split; [by left|done]. }
  destruct (psql_transaction (client w)) as [t|c'|p] eqn:Ht.
  - apply transaction_ok in Ht as [Hbase Hpend]. destruct (execute_buffer (c :: cs) t) as [re t1] eqn:He.
    apply execute_buffer_spec in He as [Hbase1 Hpend1].
    destruct re as [[]|e|p]; [|intros [= <- <-]; cbn; rewrite rollback_spec, Hbase1, Hbase; (split; [by left|done])..].
    specialize (Hpend1 eq_refl). rewrite Hpend in Hpend1. simpl in Hpend1.
    destruct (psql_commit t1) as [c1|c1|p] eqn:Hc; intros [= <- <-]; cbn [client buffer with_client].
    + apply commit_ok in Hc. rewrite Hc, Hbase1, Hbase, Hpend1. split; [by right|done].
    + apply commit_err in Hc. rewrite Hbase1, Hbase, Hpend1 in Hc. split; [exact Hc|done].
    + rewrite rollback_spec, Hbase1, Hbase. split; [by left|done].
  - apply transaction_err in Ht. intros [= <- <-]. cbn. rewrite Ht. split; [by left|done].
  - intros [= <- <-]. split; [by left|done].
Qed.
#[export] Program Instance PsqlWriter_laws : WriterLaws (PsqlWriter C) WriteError := {|
  item := list Z * list Value; items := statements;
  written w := committed (client w) ++ all_statements (buffer w); durable w := committed (client w)
|}.
Next Obligation.
  intros w c w' u. cbn [write PsqlWriter_Writer]. unfold psql_write. set (w1 := with_client _ _ w).
  assert (Hw1 : committed (client w1) ++ all_statements (buffer w1) = (committed (client w) ++ all_statements (buffer w)) ++ statements c).
  { unfold w1. cbn [client buffer with_client]. rewrite all_statements_app, app_assoc. unfold all_statements at 2. cbn [map concat]. by rewrite app_nil_r. }
  assert (Hquiet : (Ok tt : outcome WriteError unit, w1) = (Ok u, w') → committed (client w') ++ all_statements (buffer w') =
    (committed (client w) ++ all_statements (buffer w)) ++ statements c ∧ committed (client w) `prefix_of` committed (client w'))
    by (by intros [= <- <-]).
  destruct (max_batch_size w1) as [n|]; [|done]. destruct (Nat.eqb _ n); [|done].
  intros Hf. destruct (psql_flush_spec _ _ _ Hf) as [_ [Hc Hb]]; [by destruct u|].
  rewrite Hc, Hb, <- Hw1. split; [by rewrite app_nil_r|]. apply prefix_app_r. done.
Qed.
Next Obligation. done. Qed.
Next Obligation.
  intros w b w' u Hf. cbn [flush_writer PsqlWriter_Writer] in Hf.
  destruct (psql_flush_spec _ _ _ Hf) as [_ [Hc Hb]]; [by destruct u|]. rewrite Hc, Hb. by rewrite app_nil_r.
Qed.
Next Obligation. done. Qed.

(** Of the entries [held] since the log was [log], the first [k] are committed; the
    others are in the buffer. *)
Definition committed_some (log : list (list Z * list Value)) (held : list FormatterContext) w : Prop :=
  ∃ k, committed (client w) = log ++ all_statements (take k held).
Definition holds (log : list (list Z * list Value)) (held : list FormatterContext) w : Prop :=
  ∃ k, committed (client w) = log ++ all_statements (take k held) ∧ buffer w = drop k held.
Lemma holds_some log held w : holds log held w → committed_some log held w.
Proof. intros (k & Hc & _). by exists k. Qed.
Lemma holds_extend log held c w : holds log held w → holds log (held ++ [c]) (with_client (client w) (buffer w ++ [c]) w).
Proof.
  intros (k & Hc & Hb). exists (Nat.min k (length held)). cbn [client buffer with_client]. rewrite Hc, Hb.
  rewrite take_app_le, drop_app_le by lia. split; f_equal.
  - f_equal. destruct (Nat.le_ge_cases k (length held)); [by rewrite Nat.min_l|]. by rewrite Nat.min_r, !take_ge.
  - destruct (Nat.le_ge_cases k (length held)); [by rewrite Nat.min_l|]. by rewrite Nat.min_r, !drop_ge.
Qed.
Lemma psql_flush_holds log held w r w' : psql_flush w = (r, w') → holds log held w →
  committed_some log held w' ∧ (r = Ok tt → committed (client w') = log ++ all_statements held ∧ buffer w' = []).
Proof.
  intros Hf (k & Hc & Hb). destruct (psql_flush_spec _ _ _ Hf) as [Hall Hok]. rewrite Hc, Hb in *.
  rewrite <- !app_assoc, <- all_statements_app, take_drop in *. split; [|done].
  unfold committed_some. destruct Hall as [->| ->]; [by exists k|]. exists (length held). by rewrite firstn_all.
Qed.
Lemma psql_write_holds log held c w r w' : psql_write w c = (r, w') → holds log held w →
  committed_some log (held ++ [c]) w' ∧ (r = Ok tt → holds log (held ++ [c]) w').
Proof.
  intros Hw Hh%(holds_extend _ _ c). unfold psql_write in Hw. set (w1 := with_client _ _ w) in *.
  destruct (max_batch_size w1) as [n|]; [destruct (Nat.eqb _ n)|].
  2, 3: injection Hw as <- <-; split; [by apply holds_some|done].
  destruct (psql_flush_holds _ _ _ _ _ Hw Hh) as [Hs Hok]. split; [done|]. intros Hr. destruct (Hok Hr) as [Hc Hb].
  exists (length (held ++ [c])). by rewrite firstn_all, drop_all.
Qed.

Context {F : Type} `{Formatter F}.
Lemma psql_entries_hold log held time data w f r w' f' :
  write_entries false time data (w, f) = (r, (w', f')) → holds log held w →
  ∃ n cs, Forall2 (formatted_as (F := F) time) (take n data) cs ∧ committed_some log (held ++ cs) w' ∧
    (r = Ok tt → n = length data ∧ holds log (held ++ cs) w').
Proof.
  revert held w f. induction data as [|[[key values] diff] data IH]; intros held w f; cbn [write_entries].
  { intros [= <- <- <-] Hh. exists 0%nat, []. rewrite app_nil_r. split_and!; [constructor|by apply holds_some|done]. }
  cbn [retriable PsqlWriter_Writer fst write_attempts snd]. intros Hrun Hh.
  destruct (format f key values time diff) as [[c|e|p] f1] eqn:Hf.
  2, 3: injection Hrun as <- <- <-; exists 0%nat, []; rewrite app_nil_r; split_and!; [constructor|by apply holds_some|done].
  cbn [write PsqlWriter_Writer] in Hrun. destruct (psql_write w c) as [rw w1] eqn:Hw.
  destruct (psql_write_holds _ _ _ _ _ _ Hw Hh) as [Hs Hok].
  assert (Hc : formatted_as (F := F) time (key, values, diff) c) by (by exists f, f1).
  destruct rw as [[]|e|p]; cbn [Nat.eqb] in Hrun.
  2, 3: injection Hrun as <- <- <-; exists 1%nat, [c]; split_and!; [by repeat constructor|done|done].
  destruct (IH _ _ _ Hrun (Hok eq_refl)) as (n & cs & Hcs & Hs' & Hok'). rewrite <- app_assoc in *.
  exists (S n), (c :: cs). split_and!; [by constructor|done|]. intros Hr. destruct (Hok' Hr) as [-> ?]. done.
Qed.
End psql.

(** C5: A Postgres table never holds a part of an entry, and no entry without those before
    it.  However the processing of a batch ends - an entry that cannot be formatted, a
    query that fails, a connection that is lost, also while committing - the database
    has the statements of the first entries, in order, all the statements of each; if
    it ends well, those of all the entries, each once. *)
Theorem psql_batch_is_atomic {C T F : Type} `{PsqlLaws C T, Formatter F} (batch : OutputBatch Timestamp (Key * list Value))
    (persistence : bool) (w w' : PsqlWriter C) (f f' : F) (r : outcome (OutputError WriteError) unit) :
  buffer w = [] → skipped (ob_time batch) persistence = false →
  output_batch batch persistence (w, f) = (r, (w', f')) →
  ∃ n cs k, Forall2 (formatted_as (ob_time batch)) (take n (ob_data batch)) cs ∧
    committed (client w') = committed (client w) ++ all_statements (take k cs) ∧
    (r = Ok tt → n = length (ob_data batch) ∧ k = length cs ∧ buffer w' = []).
Proof.
  intros Hb Hskip. unfold output_batch. fold (skipped (ob_time batch) persistence).
  change (ts_0 ARTIFICIAL_TIME_ON_REWIND_START) with 0%N. fold (skipped (ob_time batch) persistence). rewrite Hskip.
  assert (Hh : holds (committed (client w)) [] w) by (exists 0%nat; rewrite app_nil_r; by rewrite Hb).
  destruct (write_entries false _ _ (w, f)) as [re [w1 f1]] eqn:Hrun.
  destruct (psql_entries_hold _ _ _ _ _ _ _ _ _ Hrun Hh) as (n & cs & Hcs & [k Hs] & Hok). cbn [app] in *.
  destruct re as [[]|e|p]; [|intros [= <- <- <-]; by exists n, cs, k..]. cbn [fst snd].
  destruct (Hok eq_refl) as [-> Hh1]. cbn [flush_writer PsqlWriter_Writer].
  destruct (psql_flush w1) as [rf w2] eqn:Hf. destruct (psql_flush_holds _ _ _ _ _ Hf Hh1) as [[k' Hs'] Hok'].
  intros [= <- <- <-]. destruct rf as [[]|e|p]; [|by exists (length (ob_data batch)), cs, k'..].
  destruct (Hok' eq_refl) as [Hc Hb']. exists (length (ob_data batch)), cs, (length cs). by rewrite (firstn_all cs).
Qed.

(** C22: What is reported to the persistence tracker is durable, for outputs to a file
    and to Postgres. A thread starts with nothing in the buffer of its writer and its
    sink registered at time 0, and has processed, without an error, events in which no
    batch follows the commit of its time. Then every entry of every batch, processed or
    still pending, whose time the sink's reported time has passed is in the file (handed
    to the operating system), or committed in the database: the lines, or the
    statements, of the batch contiguously and in order, each entry as the formatter gave
    it. The rows of time 0, which are replayed from a snapshot, are left out. *)
Theorem committed_output_is_durable {O C T F B : Type} `{OutputFileLaws O, PsqlLaws C T, Formatter F, MetadataSerde, MetadataBackend B}
    (sink : nat) (processed pending : list OutputEvent) :
  (∀ st st' : OutputThread (BufWriter O) F B, bw_buffer (data_sink st) = [] → thread_ran sink processed pending st st' →
    reported sink (processed ++ pending) st' (λ batch, ∃ before cs after,
      file_contents (bw_inner (data_sink st')) = before ++ concat (map file_items cs) ++ after ∧
      Forall2 (formatted_as (ob_time batch)) (ob_data batch) cs)) ∧
  (∀ st st' : OutputThread (PsqlWriter C) F B, buffer (data_sink st) = [] → thread_ran sink processed pending st st' →
    reported sink (processed ++ pending) st' (λ batch, ∃ before cs after,
      committed (client (data_sink st')) = before ++ all_statements cs ++ after ∧
      Forall2 (formatted_as (ob_time batch)) (ob_data batch) cs)).
Proof.
  split; intros st st' Hb Hran.
  - refine (thread_reports_delivered (W := BufWriter O) (E := WriteError) (F := F) (B := B) sink processed pending st st' _ Hran).
    cbn. unfold file_durable, file_written. by rewrite Hb, app_nil_r.
  - refine (thread_reports_delivered (W := PsqlWriter C) (E := WriteError) (F := F) (B := B) sink processed pending st st' _ Hran).
    cbn. by rewrite Hb, app_nil_r.
Qed.

(** *** Integers *)

Section to_sql.
Context `{PgTypes, RustText}.
Lemma try_forward_ok ty name candidates d : try_forward ty name candidates = Ok (Some d) →
  ∃ kind, (kind, Ok d) ∈ candidates ∧ accepts kind ty = true.
Proof.
  induction candidates as [|[kind o] candidates IH]; [done|]. cbn [try_forward].
  destruct (accepts kind ty) eqn:Ha.
  - destruct o as [d'|e|p]; cbn [mbind outcome_bind]; [|done..]. intros [= <-]. exists kind. split; [by left|done].
  - intros (kind' & Hin & Ha')%IH. exists kind'. split; [by right|done].
Qed.
(** An integer that a column of an integer type takes is the same one there; it is an
    error if the type is too narrow. *)
Lemma to_sql_int_exact i ty kind j : to_sql (VInt i) ty = Ok (Some (SqlInt kind j)) →
  j = i ∧ accepts kind ty = true ∧ fits_kind kind i = true.
Proof.
  intros (kind' & Hin & Ha)%try_forward_ok. unfold try_into_int in Hin.
  assert (Hcase : ∀ k, (kind', Ok (SqlInt kind j)) = (k, if fits_kind k i then Ok (SqlInt k i) else Err TryFromIntError) →
    j = i ∧ accepts kind ty = true ∧ fits_kind kind i = true).
  { intros k [= -> Hk]. destruct (fits_kind k i) eqn:Hfit; [|done]. by injection Hk as -> ->. }
  repeat (apply elem_of_cons in Hin as [Heq|Hin]; [first [exact (Hcase _ Heq)|discriminate Heq]|]).
  by apply elem_of_nil in Hin.
Qed.
Lemma to_sql_int_too_narrow i ty : accepts KI64 ty = false → accepts KI32 ty = true → fits_kind KI32 i = false →
  to_sql (VInt i) ty = Err TryFromIntError.
Proof. cbn [to_sql try_forward]. unfold try_into_int. by intros -> -> ->. Qed.
End to_sql.

(** ** Delta tables *)

Section delta.
Context {D : Type} `{DeltaLake D}.
Context `{Profile, SerdeJson, Chrono, RustText}.
Implicit Types w : DeltaTableWriter (D := D).

(** The cells of an entry, with the special ones. *)
Definition delta_row (c : FormatterContext) : list Value :=
  fc_values c ++ [VInt (Z.of_N (ts_0 (fc_time c))); VInt (fc_diff c)].
Definition add_row (columns : list (list Value)) (row : list Value) : list (list Value) :=
  zip_with (λ column v, column ++ [v]) columns row.
Lemma push_value_spec index v w column : buffered_columns w !! index = Some column →
  push_value index v w = (Ok tt, with_columns (<[index := column ++ [v]]> (buffered_columns w)) w).
Proof. intros Hc. unfold push_value, mbind, eff_bind, gets, id, modify. by rewrite Hc. Qed.
Lemma push_values_spec vs : ∀ before columns after w, buffered_columns w = before ++ columns ++ after → length columns = length vs →
  push_values (length before) vs w = (Ok tt, with_columns (before ++ add_row columns vs ++ after) w).
Proof.
  induction vs as [|v vs IH]; intros before [|column columns] after w Hb Hlen; try done; cbn [push_values].
  { cbn in *. rewrite <- Hb. by destruct w. }
  assert (Hl : buffered_columns w !! length before = Some column) by (rewrite Hb; by apply list_lookup_middle).
  erewrite bind_eff by (apply push_value_spec, Hl).
  assert (Hi : <[length before := column ++ [v]]> (buffered_columns w) = (before ++ [column ++ [v]]) ++ columns ++ after).
  { rewrite Hb, insert_app_r_alt, Nat.sub_diag by lia. cbn. by rewrite <- app_assoc. }
  rewrite Hi. replace (S (length before)) with (length (before ++ [column ++ [v]])) by (rewrite length_app; cbn; lia).
  injection Hlen as Hlen. rewrite (IH (before ++ [column ++ [v]]) columns after) by done. cbn [add_row zip_with].
  by rewrite <- app_assoc.
Qed.
Lemma last_two {A} (l : list A) n : length l = (n + 2)%nat → ∃ l' a b, l = l' ++ [a; b] ∧ length l' = n.
Proof.
  intros Hlen. exists (take n l). assert (length (drop n l) = 2%nat) as Hd by (rewrite length_drop; lia).
  destruct (drop n l) as [|a [|b [|? ?]]] eqn:Hdrop; try done. exists a, b.
  rewrite <- Hdrop, take_drop, length_take. split; [done|]. lia.
Qed.
Lemma delta_write_entry_spec c w : length (buffered_columns w) = length (delta_row c) →
  in_i64 (Z.of_N (ts_0 (fc_time c))) = true → in_i64 (fc_diff c) = true →
  delta_write_entry c w = (Ok tt, with_columns (add_row (buffered_columns w) (delta_row c)) w).
Proof.
  intros Hlen Ht Hd. unfold delta_row in *. rewrite length_app in Hlen. cbn [length] in Hlen.
  destruct (last_two _ _ Hlen) as (cols & ct & cd & Hb & Hcols). unfold delta_write_entry.
  erewrite bind_eff by (apply (push_values_spec (fc_values c) [] cols [ct; cd]); done). cbn [app].
  assert (Hl : length (add_row cols (fc_values c)) = length (fc_values c)) by (unfold add_row; rewrite length_zip_with; lia).
  set (w1 := with_columns _ w).
  assert (Hn : ∀ k, (k ≤ 2)%nat → column_from_end w1 k = Ok (length (fc_values c) + 2 - k)%nat).
  { intros k Hk. unfold column_from_end, w1. cbn [buffered_columns with_columns]. rewrite length_app, Hl. cbn [length].
    rewrite (proj2 (Nat.leb_le _ _)) by lia. done. }
  erewrite bind_eff by reflexivity. unfold id.
  rewrite (Hn 2%nat), (Hn 1%nat) by lia. unfold lift, try_into_i64. rewrite Ht, Hd.
  do 3 (erewrite bind_eff by reflexivity).
  erewrite bind_eff by (apply (push_value_spec _ _ w1 ct); unfold w1; cbn [buffered_columns with_columns];
    apply list_lookup_middle; rewrite Hl; lia).
  erewrite bind_eff by reflexivity.
  set (w2 := with_columns _ w1).
  assert (Hw2 : buffered_columns w2 = add_row cols (fc_values c) ++ [ct ++ [VInt (Z.of_N (ts_0 (fc_time c)))]; cd]).
  { unfold w2, w1. cbn [buffered_columns with_columns]. rewrite insert_app_r_alt by lia.
    by replace (length (fc_values c) + 2 - 2 - length (add_row cols (fc_values c)))%nat with 0%nat by lia. }
  erewrite push_value_spec by (rewrite Hw2, lookup_app_r by lia;
    by replace (length (fc_values c) + 2 - 1 - length (add_row cols (fc_values c)))%nat with 1%nat by lia).
  rewrite Hw2, insert_app_r_alt by lia.
  replace (length (fc_values c) + 2 - 1 - length (add_row cols (fc_values c)))%nat with 1%nat by lia.
  unfold w2, w1, with_columns. cbn. rewrite Hb. unfold add_row. by rewrite zip_with_app by done.
Qed.

Fixpoint delta_writes (cs : list FormatterContext) : eff (DeltaTableWriter (D := D)) WriteError unit :=
  match cs with
  | [] => mret tt
  | c :: cs => _ ← delta_write_entry c; delta_writes cs
  end.
Definition entry_fits (n : nat) (c : FormatterContext) : Prop :=
  length (delta_row c) = n ∧ in_i64 (Z.of_N (ts_0 (fc_time c))) = true ∧ in_i64 (fc_diff c) = true.
Lemma delta_writes_spec cs w : Forall (entry_fits (length (buffered_columns w))) cs →
  delta_writes cs w = (Ok tt, with_columns (fold_left add_row (map delta_row cs) (buffered_columns w)) w).
Proof.
  revert w. induction cs as [|c cs IH]; intros w; cbn [delta_writes map fold_left].
  { intros _. by destruct w. }
  intros [(Hlen & Ht & Hd) Hcs]%Forall_cons. erewrite bind_eff by (by apply delta_write_entry_spec).
  rewrite IH; [done|]. cbn [buffered_columns with_columns]. unfold add_row. rewrite length_zip_with, Hlen, Nat.min_id. done.
Qed.
Lemma add_rows_lookup rows columns i : Forall (λ row, length row = length columns) rows →
  fold_left add_row rows columns !! i = (λ column, column ++ omap (λ row, row !! i) rows) <$> columns !! i.
Proof.
  revert columns. induction rows as [|row rows IH]; intros columns; cbn [fold_left].
  { intros _. destruct (columns !! i) as [c|]; [|done]. cbn. by rewrite app_nil_r. }
  intros [Hrow Hrows]%Forall_cons. assert (Hlen : length (add_row columns row) = length columns)
    by (unfold add_row; rewrite length_zip_with; lia).
  rewrite IH by (by rewrite Hlen). unfold add_row. rewrite lookup_zip_with.
  destruct (columns !! i) as [c|] eqn:Hc; [|done]. cbn [mbind option_bind omap list_omap].
  destruct (lookup_lt_is_Some_2 row i) as [v Hv]; [rewrite Hrow; by apply lookup_lt_Some in Hc|].
  rewrite Hv. cbn. by rewrite <- app_assoc.
Qed.
Definition commit_needed (forced : bool) w : bool :=
  match buffered_columns w with
  | column :: _ =>
      negb (Nat.eqb (length column) 0) &&
      (match min_commit_frequency w with None => true | Some f => f <=? instant_now (delta_table w) - last_commit_at w end || forced)
  | [] => false
  end.
(** A flush keeps the buffered rows, or commits a batch of them; it keeps them if it does
    not end well or no commit is needed.  The time of the last commit stays. *)
Lemma delta_flush_spec forced w r w' : delta_flush forced w = (r, w') →
  last_commit_at w' = last_commit_at w ∧
  (buffered_columns w' = buffered_columns w ∧ (r = Ok tt → commit_needed forced w = false) ∨
   r = Ok tt ∧ buffered_columns w' = map (λ _, []) (buffered_columns w) ∧
   ∃ batch t, prepare_delta_batch w = Ok batch ∧ delta_write (delta_table w) batch = (Ok tt, t) ∧
     delta_flush_and_commit t = (Ok tt, delta_table w')).
Proof.
  unfold delta_flush, commit_needed, delta_call, mbind, eff_bind, gets, lift, modify, mret, eff_ret, id.
  destruct (buffered_columns w) as [|c cs] eqn:Hb; [intros [= <- <-]; rewrite Hb; split; [done|by left]|].
  destruct (negb _ && _); [|intros [= <- <-]; rewrite Hb; split; [done|by left]].
  destruct (prepare_delta_batch w) as [batch|e|p] eqn:Hp; [|intros [= <- <-]; rewrite Hb; (split; [done|by left])..].
  destruct (delta_write (delta_table w) batch) as [[[]|e|p] t] eqn:Hw; cbn;
    [|intros [= <- <-]; cbn; rewrite Hb; (split; [done|by left])..].
  destruct (delta_flush_and_commit t) as [[[]|e|p] t'] eqn:Hf; cbn; intros [= <- <-]; cbn; rewrite Hb;
    (split; [done|]); [right|by left..].
  split_and!; [done..|]. by exists batch, t.
Qed.
Lemma prepare_arrays w batch : prepare_delta_batch w = Ok batch →
  ∃ arrays, record_batch_try_new (delta_schema w) arrays = Ok batch ∧ length arrays = length (buffered_columns w) ∧
    ∀ i column, buffered_columns w !! i = Some column →
    ∃ field array, delta_schema w !! i = Some field ∧ arrays !! i = Some array ∧
      arrow_array_for_type (af_data_type field) column = Ok array.
Proof.
  unfold prepare_delta_batch. intros (arrays & Hcols & Hbatch)%bind_ok. apply try_collect_ok in Hcols.
  exists arrays. split; [by destruct (record_batch_try_new _ _); simplify_eq/=|].
  split; [apply Forall2_length in Hcols; by rewrite length_imap in Hcols|]. intros i column Hc.
  destruct (Forall2_lookup_l _ _ _ i (i, column) Hcols) as (array & Ha & Harray); [by rewrite list_lookup_imap, Hc|].
  cbn [fst snd] in Harray.
  destruct (delta_schema w !! i) as [field|]; [|done]. by exists field, array.
Qed.

(** A batch that is committed to a Delta table holds the rows written since the last
    one: its column i is the array, of the type that the schema gives to the column,
    of the i-th cells of the entries in the order in which they were written, with
    the time and the difference in the two last columns; the buffer is empty again. *)
Theorem delta_commit_holds_rows cs w w1 w2 :
  Forall (entry_fits (length (buffered_columns w))) cs → Forall (λ column, column = []) (buffered_columns w) → cs ≠ [] →
  delta_writes cs w = (Ok tt, w1) → delta_flush true w1 = (Ok tt, w2) →
  ∃ arrays batch t, record_batch_try_new (delta_schema w) arrays = Ok batch ∧
    delta_write (delta_table w) batch = (Ok tt, t) ∧ delta_flush_and_commit t = (Ok tt, delta_table w2) ∧
    buffered_columns w2 = buffered_columns w ∧ length arrays = length (buffered_columns w) ∧
    ∀ i, (i < length (buffered_columns w))%nat → ∃ field array, delta_schema w !! i = Some field ∧ arrays !! i = Some array ∧
      arrow_array_for_type (af_data_type field) (omap (λ c, delta_row c !! i) cs) = Ok array.
Proof.
  intros Hfit Hempty Hcs Hw Hflush. rewrite delta_writes_spec in Hw by done. injection Hw as <-.
  set (w1 := with_columns _ w) in *.
  assert (Hrows : ∀ i, (i < length (buffered_columns w))%nat → buffered_columns w1 !! i = Some (omap (λ c, delta_row c !! i) cs)).
  { intros i [column Hc]%lookup_lt_is_Some. unfold w1. cbn [buffered_columns with_columns]. rewrite add_rows_lookup, Hc.
    - rewrite Forall_lookup in Hempty. rewrite (Hempty _ _ Hc). cbn. f_equal. clear. induction cs as [|c cs IH]; [done|]. cbn.
      destruct (delta_row c !! i); by rewrite ?IH.
    - apply Forall_map. eapply Forall_impl; [exact Hfit|]. by intros c [? _]. }
  assert (Hlen : length (buffered_columns w1) = length (buffered_columns w)).
  { unfold w1. cbn [buffered_columns with_columns]. clear -Hfit. revert Hfit. generalize (buffered_columns w).
    induction cs as [|c cs IH]; intros columns Hfit; [done|]. apply Forall_cons in Hfit as [[Hc _] Hfit]. cbn.
    assert (Hl : length (add_row columns (delta_row c)) = length columns) by (unfold add_row; rewrite length_zip_with; lia).
    rewrite IH; [done|by rewrite Hl]. }
  apply delta_flush_spec in Hflush as [_ [[_ Hneeded]|(_ & Hb & batch & t & Hprepare & Hw & Hf)]].
  - exfalso. specialize (Hneeded eq_refl). unfold commit_needed in Hneeded. destruct cs as [|c cs]; [done|].
    apply Forall_cons in Hfit as [[Hc _] _]. unfold delta_row in Hc. rewrite length_app in Hc. cbn [length] in Hc.
    assert (Hzero := Hrows 0%nat ltac:(lia)). destruct (buffered_columns w1) as [|column columns]; [done|]. injection Hzero as ->.
    cbn [omap list_omap] in Hneeded. rewrite orb_true_r, andb_true_r in Hneeded.
    destruct (delta_row c !! 0%nat) eqn:Hcell; [done|]. unfold delta_row in Hcell. by destruct (fc_values c).
  - destruct (prepare_arrays _ _ Hprepare) as (arrays & Hbatch & Harrays & Hcols). exists arrays, batch, t.
    split_and!; [done|done|done| |by rewrite Harrays|].
    + rewrite Hb. apply list_eq. intros i. rewrite list_lookup_fmap. destruct (buffered_columns w !! i) as [column|] eqn:Hc.
      * rewrite Forall_lookup in Hempty. rewrite (Hempty _ _ Hc).
        destruct (lookup_lt_is_Some_2 (buffered_columns w1) i) as [c1 ->]; [rewrite Hlen; by apply lookup_lt_Some in Hc|done].
      * apply lookup_ge_None in Hc. by rewrite (proj2 (lookup_ge_None _ _)) by lia.
    + intros i Hi. apply Hcols. by apply Hrows.
Qed.
End delta.

(** ** Services in memory *)

Module Memory.
Import Concrete.
#[export] Instance profile : Profile := true.
(** A database that rejects the query of one byte 9. *)
Abbreviation Log := (list (list Z * list Value)).
#[export] Instance database : PsqlClient Log (Log * Log) := {|
  psql_transaction c := Ok (c, []);
  psql_execute t q vs := if bool_decide (q = [9]) then Err t else Ok (fst t, snd t ++ [(q, vs)]);
  psql_commit t := Ok (fst t ++ snd t);
  psql_rollback := fst
|}.
#[export] Program Instance database_laws : PsqlLaws Log (Log * Log) := {| committed c := c; base := fst; pending := snd |}.
Next Obligation. by intros c t [= <-]. Qed.
Next Obligation. done. Qed.
Next Obligation. intros t q vs t'. cbn. case_bool_decide; [done|]. by intros [= <-]. Qed.
Next Obligation. intros t q vs t'. cbn. case_bool_decide; [|done]. by intros [= <-]. Qed.
Next Obligation. by intros t c [= <-]. Qed.
Next Obligation. done. Qed.
Next Obligation. done. Qed.
(** A file that takes everything. *)
#[export] Instance memory_file : OutputFile (list Z) := λ o bs, (Ok tt, length bs, o ++ bs).
#[export] Program Instance memory_file_laws : OutputFileLaws (list Z) := {| file_contents o := o |}.
Next Obligation. intros o bs r n o' [= <- <- <-]. by rewrite firstn_all. Qed.
(** Integers are formatted as two queries of one byte. *)
#[export] Instance queries : Formatter unit := {|
  format f key values time diff :=
    (Ok (mk_FormatterContext (map (λ v, match v with VInt i => [i] | _ => [] end) values ++ [[0]]) key [] time diff), f)
|}.
Definition batch (cells : list Z) : OutputBatch Timestamp (Key * list Value) :=
  mk_OutputBatch (mk_Timestamp 4) (map (λ i, ((mk_Key i, [VInt i]), 1)) cells).
Definition writer : PsqlWriter Log := psql_writer_new [] (Some 2%nat) false.

(** A table with its batches, the staged ones and a clock. *)
Record Lake := mk_Lake { lake_batches : list (list ArrowArray); staged : list (list ArrowArray); lake_now : Z }.
#[export] Instance lake : DeltaLake Lake := {|
  delta_create _ _ := Ok (mk_Lake [] [] 100);
  delta_open _ := Err tt;
  record_batch_try_new _ arrays := Ok arrays;
  delta_write l b := (Ok tt, mk_Lake (lake_batches l) (staged l ++ [b]) (lake_now l));
  delta_flush_and_commit l := (Ok tt, mk_Lake (lake_batches l ++ staged l) [] (lake_now l));
  instant_now := lake_now
|}.
Definition fields : list ValueField := [mk_ValueField "n" TInt false None; mk_ValueField "t" TDuration true None].
Definition entry (n : Z) (d : Z) : FormatterContext :=
  mk_FormatterContext [] (mk_Key n) [VInt n; VDuration (mk_Duration d)] (mk_Timestamp 6) 1.
Definition delta (frequency : option Z) : DeltaTableWriter (D := Lake) :=
  match delta_writer_new "table" fields frequency with Ok w => w | _ => mk_DeltaTableWriter (mk_Lake [] [] 0) [] [] None 0 end.
End Memory.
Import Concrete Memory.

Lemma psql_batch_is_atomic_witness : ∃ r w' n cs k,
  output_batch (batch [1; 2; 3; 9; 5]) true (writer, tt) = (r, (w', tt)) ∧
  Forall2 (formatted_as (F := unit) (mk_Timestamp 4)) (take n (ob_data (batch [1; 2; 3; 9; 5]))) cs ∧
  client w' = all_statements (take k cs) ∧ client w' = [([1], []); ([0], []); ([2], []); ([0], [])].
Proof.
  destruct (output_batch (batch [1; 2; 3; 9; 5]) true (writer, tt)) as [r [w' []]] eqn:Hrun.
  destruct (psql_batch_is_atomic (batch [1; 2; 3; 9; 5]) true writer w' tt tt r eq_refl eq_refl Hrun) as (n & cs & k & Hcs & Hc & _).
  exists r, w', n, cs, k. split_and!; [done|exact Hcs|exact Hc|]. vm_compute in Hrun. by injection Hrun as _ <-.
Defined.

(** A batch of time 4, whose commit is reported, and a batch of a later time. *)
#[local] Existing Instance ConcreteMetadata.metadata_serde.
Definition sample_processed : list OutputEvent := [OutputBatch_ (batch [1; 2]); OutputCommit (Some (mk_Timestamp 6)) true (λ _, Flushed)].
Definition sample_pending : list OutputEvent := [OutputBatch_ (mk_OutputBatch (mk_Timestamp 6) [((mk_Key 3, [VInt 3]), 1)])].
Definition sample_thread {W} (w : W) : OutputThread W unit FilesystemKVStorage := mk_OutputThread w tt (Some ConcreteMetadata.with_sink).
Lemma sample_ran {W E} `{Writer W E} (w : W) st' : output_thread (Some 0%nat) sample_processed (sample_thread w) = (Ok tt, st') →
  thread_ran 0 sample_processed sample_pending (sample_thread w) st'.
Proof.
  intros Hrun. split; [by eexists|]. split; [|exact Hrun]. intros before t elapsed flushes after Hb b Hin.
  unfold sample_processed, sample_pending in Hb. destruct before as [|e1 [|e2 [|e3 [|? ?]]]]; simplify_eq/=.
  apply list_elem_of_singleton in Hin as ->. cbn. lia.
Qed.
Lemma committed_output_is_durable_witness :
  (∃ st' before cs after, output_thread (Some 0%nat) sample_processed (sample_thread (mk_BufWriter [7] [])) = (Ok tt, st') ∧
    bw_inner (data_sink st') = before ++ concat (map file_items cs) ++ after ∧ concat (map file_items cs) = [1; 10; 0; 10; 2; 10; 0; 10]) ∧
  (∃ st' before cs after, output_thread (Some 0%nat) sample_processed (sample_thread writer) = (Ok tt, st') ∧
    client (data_sink st') = before ++ all_statements cs ++ after ∧ all_statements cs = [([1], []); ([0], []); ([2], []); ([0], [])]).
Proof.
  assert (Hcs : ∀ cs, Forall2 (formatted_as (F := unit) (mk_Timestamp 4)) (ob_data (batch [1; 2])) cs →
    concat (map file_items cs) = [1; 10; 0; 10; 2; 10; 0; 10] ∧ all_statements cs = [([1], []); ([0], []); ([2], []); ([0], [])]).
  { intros cs Hc. inversion Hc as [|? c1 ? ? H1 Hc2]; subst. inversion Hc2 as [|? c2 ? ? H2 Hc3]; subst.
    inversion Hc3; subst. destruct H1 as ([] & [] & [= <-]), H2 as ([] & [] & [= <-]). split; reflexivity. }
  split.
  - destruct (output_thread (Some 0%nat) sample_processed (sample_thread (mk_BufWriter [7] []))) as [r st'] eqn:E.
    assert (r = Ok tt) as -> by (by vm_compute in E; injection E as <- _).
    destruct (proj1 (committed_output_is_durable (O := list Z) (C := Log) 0 sample_processed sample_pending)
      (sample_thread (mk_BufWriter [7] [])) st' eq_refl (sample_ran _ _ E)) as (w' & threshold & Hs & Ht & Hd).
    destruct (Hd (batch [1; 2])) as (before & cs & after & Hb & Hc); [by left| |done|].
    { vm_compute in E. injection E as <-. injection Hs as <-. vm_compute in Ht. by injection Ht as <-. }
    exists st', before, cs, after. split_and!; [done|exact Hb|by apply Hcs].
  - destruct (output_thread (Some 0%nat) sample_processed (sample_thread writer)) as [r st'] eqn:E.
    assert (r = Ok tt) as -> by (by vm_compute in E; injection E as <- _).
    destruct (proj2 (committed_output_is_durable (O := list Z) (C := Log) 0 sample_processed sample_pending)
      (sample_thread writer) st' eq_refl (sample_ran _ _ E)) as (w' & threshold & Hs & Ht & Hd).
    destruct (Hd (batch [1; 2])) as (before & cs & after & Hb & Hc); [by left| |done|].
    { vm_compute in E. injection E as <-. injection Hs as <-. vm_compute in Ht. by injection Ht as <-. }
    exists st', before, cs, after. split_and!; [done|exact Hb|by apply Hcs].
Defined.

Lemma delta_commit_holds_rows_witness : ∃ w1 w2 arrays,
  delta_writes [entry 1 5000; entry 2 7000] (delta None) = (Ok tt, w1) ∧ delta_flush true w1 = (Ok tt, w2) ∧
  lake_batches (delta_table w2) = [arrays] ∧ arrays !! 1%nat = Some (AaInt64 [Some 5; Some 7]).
Proof.
  destruct (delta_writes [entry 1 5000; entry 2 7000] (delta None)) as [r1 w1] eqn:Hw.
  assert (r1 = Ok tt) as -> by (by vm_compute in Hw; injection Hw as <- _).
  destruct (delta_flush true w1) as [r2 w2] eqn:Hf.
  assert (r2 = Ok tt) as -> by (vm_compute in Hw; injection Hw as <-; by vm_compute in Hf; injection Hf as <- _).
  destruct (delta_commit_holds_rows [entry 1 5000; entry 2 7000] (delta None) w1 w2) as (arrays & b & t & Hb & Hw' & Hc & _ & _ & Hcols);
    [repeat constructor|repeat constructor|done|done|done|].
  injection Hb as <-. injection Hw' as <-. injection Hc as Ht. exists w1, w2, arrays. split_and!; [done|done|by rewrite <- Ht|].
  destruct (Hcols 1%nat ltac:(vm_compute; lia)) as (field & array & Hfield & -> & Harray).
  injection Hfield as <-. vm_compute in Harray. by injection Harray as <-.
Defined.
(** Until the frequency allows a commit, a flush succeeds with the rows only in memory;
    once it does, every flush commits: the time of the last commit is never updated. *)
Example flush_without_commit :
  let '(r, w) := delta_flush false (snd (delta_writes [entry 1 5000] (delta (Some 60)))) in
  r = Ok tt ∧ lake_batches (delta_table w) = [] ∧ buffered_columns w !! 0%nat = Some [VInt 1].
Proof. by vm_compute. Qed.

(** ** A full queue *)

Section kafka.
Context {P : Type} `{KafkaProducer P}.
(** The queue of the producer is full for [k] attempts, with a poll after each. *)
Fixpoint full_for (k : nat) (entry : KafkaRecord) (p : P) : Prop :=
  match k with
  | O => fst (producer_send p entry) ≠ QueueFull
  | S k => fst (producer_send p entry) = QueueFull ∧ full_for k entry (producer_poll (snd (producer_send p entry)))
  end.
(** The loop ends when the queue is not full any more, and any more fuel changes nothing. *)
Lemma kafka_send_ends k entry p : full_for k entry p →
  ∃ r, ∀ fuel, (k < fuel)%nat → kafka_send fuel entry p = Some r ∧ (fst r = Ok tt ∨ fst r = Err WrKafka).
Proof.
  revert p. induction k as [|k IH]; intros p; cbn [full_for].
  - intros Hs. destruct (producer_send p entry) as [[] p'] eqn:Hsend; [|done|].
    + exists (Ok tt, p'). intros [|fuel] Hf; [lia|]. cbn [kafka_send]. rewrite Hsend. auto.
    + exists (Err WrKafka, p'). intros [|fuel] Hf; [lia|]. cbn [kafka_send]. rewrite Hsend. auto.
  - intros [Hs Hrest]. destruct (IH _ Hrest) as [r Hr]. exists r. intros [|fuel] Hf; [lia|]. cbn [kafka_send].
    destruct (producer_send p entry) as [sr p']. cbn in Hs. subst sr. apply Hr. lia.
Qed.
End kafka.
