(* ===== verification/Index.v ===== *)
(** External indexes: rows are added to and removed from an index outside of the
    engine, which answers queries as of the present (external_integration/mod.rs,
    usearch_integration.rs, tantivy_integration.rs, operators/external_index.rs).

    The libraries usearch, tantivy and jmespath and the glob patterns of filters are
    parameters.  A computation on an index is an [eff] on its state that fails only by
    a panic; the errors of single rows are values. *)
From Stdlib Require Import ZArith Lia Bool.
From stdpp Require Import base list strings gmap.
From S2P Require Import Prelude Effects Order Float Data Externals Value TimeColumn Table.
Open Scope Z_scope.

(** A panic inside a call ends the thread, an error is a value to be looked at. *)
Definition settle {E F A} (m : outcome E A) : outcome F (outcome E A) :=
  match m with Panic p => Panic p | Ok a => Ok (Ok a) | Err e => Ok (Err e) end.
(** [iter.map(f).collect()] with a mutable state. *)
Fixpoint eff_map {S E A B} (f : A → eff S E B) (l : list A) : eff S E (list B) :=
  match l with
  | [] => mret []
  | a :: l => b ← f a; bs ← eff_map f l; mret (b :: bs)
  end.
(** A call of a library, with the state it leaves. *)
Definition call {S E A} (f : S → DynResult A * S) : eff S E (DynResult A) :=
  λ s, let '(r, s) := f s in (settle r, s).

(** [partition_map] with [Either], and the values or the errors of keyed results. *)
Definition lefts {A B} (l : list (A + B)) : list A := omap (λ e, match e with inl a => Some a | inr _ => None end) l.
Definition rights {A B} (l : list (A + B)) : list B := omap (λ e, match e with inr b => Some b | inl _ => None end) l.
Definition oks {K E A} (l : list (K * outcome E A)) : list (K * A) :=
  omap (λ p, match snd p with Ok a => Some (fst p, a) | _ => None end) l.
Definition errs {K E A B} (l : list (K * outcome E A)) : list (K * outcome E B) :=
  omap (λ p, match snd p with Err e => Some (fst p, Err e) | _ => None end) l.

(** ** Interfaces *)

Record AddDataEntry := mk_AddDataEntry { ad_key : Key; ad_data : Value; ad_filter_data : option Value }.
Record QueryEntry := mk_QueryEntry { qe_key : Key; qe_data : Value; qe_limit : option Value; qe_filter : option Value }.
Record KeyScoreMatch := mk_KeyScoreMatch { ksm_key : Key; ksm_score : f64 }.
Definition ksm_into_value (m : KeyScoreMatch) : Value := VTuple [VPointer (ksm_key m); VFloat (ksm_score m)].

Class ExternalIndex (I : Type) := {
  ei_add : list AddDataEntry → eff I unit (list (Key * DynResult unit));
  ei_remove : list Key → eff I unit (list (Key * DynResult unit));
  ei_search : I → list QueryEntry → outcome unit (list (Key * DynResult Value))
}.
Class NonFilteringExternalIndex (D Q I : Type) := {
  nf_add : list (Key * D) → eff I unit (list (Key * DynResult unit));
  nf_remove : list Key → eff I unit (list (Key * DynResult unit));
  nf_search : I → list (Key * Q * Z) → outcome unit (list (Key * DynResult (list KeyScoreMatch)))
}.

(** ** Accessors *)

Abbreviation Accessor := (Value → outcome unit Value).
Abbreviation OptionAccessor := (Value → outcome unit (option Value)).
Definition make_accessor (path : ColumnPath) : Accessor := λ x, unwrap_with_reporter (extract_from_value path x).
Definition make_option_accessor (path : option ColumnPath) : OptionAccessor := λ x,
  match path with
  | Some path => v ← unwrap_with_reporter (extract_from_value path x); Ok (Some v)
  | None => Ok None
  end.
Definition contains_errors (vs : list (option Value)) : bool :=
  existsb (λ v, match v with Some v => Value_eqb v VError | None => false end) vs.

(** ** IndexDerivedImpl *)

Section derived.
Context {I : Type} `{ExternalIndex I, ErrorMode}.

Record IndexDerivedImpl := mk_IndexDerivedImpl {
  inner : I;
  data_accessor : Accessor;
  filter_data_accessor : OptionAccessor;
  query_accessor : Accessor;
  query_limit_accessor : OptionAccessor;
  query_filter_accessor : OptionAccessor
}.
Definition with_inner (i : I) (d : IndexDerivedImpl) : IndexDerivedImpl :=
  mk_IndexDerivedImpl i (data_accessor d) (filter_data_accessor d) (query_accessor d)
    (query_limit_accessor d) (query_filter_accessor d).

Definition is_retraction (diff : Z) : bool := diff <? 0.
(** An update, unless its row contains an error. *)
Definition index_update (d : IndexDerivedImpl) (u : Key * Value * Z) : outcome unit (option (AddDataEntry * Z)) :=
  let '(k, v, diff) := u in
  data ← data_accessor d v;
  filter_data ← filter_data_accessor d v;
  if contains_errors [Some data; filter_data] then _ ← log_error ErrorInIndexUpdate; Ok None
  else Ok (Some (mk_AddDataEntry k data filter_data, diff)).
(** Errors of the rows are logged. *)
Definition log_results (results : list (Key * DynResult unit)) : outcome unit unit :=
  _ ← try_collect (λ r, unwrap_or_log (snd r) tt) results; Ok tt.
Definition take_updates (data : list (Key * Value * Z)) : eff IndexDerivedImpl unit unit := λ d,
  match try_collect (index_update d) (List.filter (λ u, negb (snd u =? 0)) data) with
  | Ok filtered_data =>
      let updates := omap id filtered_data in
      let to_remove := map (λ u, ad_key (fst u)) (List.filter (λ u, is_retraction (snd u)) updates) in
      let to_insert := map fst (List.filter (λ u, negb (is_retraction (snd u))) updates) in
      zoom inner with_inner
        (removed ← ei_remove to_remove; _ ← lift (log_results removed);
         added ← ei_add to_insert; lift (log_results added)) d
  | Err e => (Err e, d)
  | Panic p => (Panic p, d)
  end.

(** A query, unless it contains an error. *)
Definition index_query (d : IndexDerivedImpl) (q : Key * Value * Z) : outcome unit (Key + QueryEntry) :=
  let '(k, v, _) := q in
  vec_as_val ← query_accessor d v;
  query_response_limit ← query_limit_accessor d v;
  filter ← query_filter_accessor d v;
  if contains_errors [Some vec_as_val; query_response_limit; filter] then _ ← log_error ErrorInIndexSearch; Ok (inl k)
  else Ok (inr (mk_QueryEntry k vec_as_val query_response_limit filter)).
(** Each key takes its response out of the map. *)
Fixpoint answer_queries (queries : list (Key * Value * Z)) (responses : gmap Key Value) : list (Key * Value * Z) :=
  match queries with
  | [] => []
  | (k, v, diff) :: queries =>
      (k, VTuple [v; default VError (responses !! k)], diff) :: answer_queries queries (delete k responses)
  end.
Definition search (d : IndexDerivedImpl) (queries : list (Key * Value * Z)) : outcome unit (list (Key * Value * Z)) :=
  entries ← try_collect (index_query d) queries;
  let to_query_without_errors := rights entries in
  let errors := lefts entries in
  maybe_error_responses ← ei_search (inner d) to_query_without_errors;
  results ← try_collect (λ r, v ← unwrap_or_log (snd r) VError; Ok (fst r, v)) maybe_error_responses;
  let responses := foldl (λ m r, <[fst r := snd r]> m) ∅ results in
  let responses := foldl (λ m err, <[err := VError]> m) responses errors in
  Ok (answer_queries queries responses).
End derived.
Arguments IndexDerivedImpl I : clear implicits.

(** ** Keys as numbers *)

Record KeyToU64IdMapper := mk_KeyToU64IdMapper {
  next_id : Z;
  id_to_key_map : gmap Z Key;
  key_to_id_map : gmap Key Z
}.
Definition mapper_new : KeyToU64IdMapper := mk_KeyToU64IdMapper 1 ∅ ∅.

Section mapper.
Context `{Profile}.
Definition get_noncolliding_u64_id (key : Key) : eff KeyToU64IdMapper unit Z := λ self,
  match key_to_id_map self !! key with
  | Some ret => (Ok ret, self)
  | None =>
      let id := next_id self in
      match u64_arith (next_id self + 1) with
      | Ok n => (Ok id, mk_KeyToU64IdMapper n (<[id := key]> (id_to_key_map self)) (<[key := id]> (key_to_id_map self)))
      | Err e => (Err e, self)
      | Panic p => (Panic p, self)
      end
  end.
Definition get_key_for_id (self : KeyToU64IdMapper) (id : Z) : outcome unit Key :=
  match id_to_key_map self !! id with Some k => Ok k | None => Panic "no entry found for key" end.
Definition remove_key (key : Key) : eff KeyToU64IdMapper unit (DynResult Z) := λ self,
  match key_to_id_map self !! key with
  | Some key_id =>
      (Ok (Ok key_id), mk_KeyToU64IdMapper (next_id self) (delete key_id (id_to_key_map self)) (delete key (key_to_id_map self)))
  | None => (Ok (Err (MissingKey key)), self)
  end.
End mapper.

(** ** Filters *)

(** The crate jmespath: a runtime with registered functions compiles expressions. *)
Class JmesPath := {
  JVariable : Type;
  JExpression : Type;
  jp_compile : list (string * (list JVariable → DynResult JVariable)) → string → DynResult JExpression;
  jp_search : JExpression → JVariable → DynResult JVariable;
  jp_as_boolean : JVariable → option bool;
  jp_as_string : JVariable → option string;
  jp_bool : bool → JVariable;
  json_to_jmespath : JsonValue → DynResult JVariable
}.
Class GlobPattern := glob_pattern_matches : string → option (string → bool).

Section filters.
Context `{JmesPath, GlobPattern}.
Definition globmatch (args : list JVariable) : DynResult JVariable :=
  match args with
  | arg0 :: args =>
      pattern ← ok_or (jp_as_string arg0) (ValueError "arg[0] not present / not a string");
      pattern ← ok_or (glob_pattern_matches pattern) (ValueError "glob parsing error");
      match args with
      | arg1 :: _ =>
          path ← ok_or (jp_as_string arg1) (ValueError "arg[1] not present / not a string");
          Ok (jp_bool (pattern path))
      | [] => Panic "index out of bounds"
      end
  | [] => Panic "index out of bounds"
  end.
Definition compile_filter (filter : string) : DynResult JExpression := jp_compile [("globmatch"%string, globmatch)] filter.
End filters.

Class Unpack (T : Type) := unpack : Value → DynResult T.
#[export] Instance unpack_vector : Unpack (list f64) := λ v, t ← as_tuple v; try_collect as_float t.
#[export] Instance unpack_string : Unpack string := as_string.
#[export] Instance unpack_variable `{JmesPath} : Unpack JVariable := λ v, j ← as_json v; json_to_jmespath j.

(** ** DerivedFilteredSearchIndex *)

Section filtered.
Context {D Q I : Type} `{JmesPath, GlobPattern, Profile, Unpack D, Unpack Q, NonFilteringExternalIndex D Q I}.

Record DerivedFilteredSearchIndex := mk_DerivedFilteredSearchIndex {
  filter_data_map : gmap Key JVariable;
  df_inner : I
}.
Definition with_df_inner (i : I) (s : DerivedFilteredSearchIndex) : DerivedFilteredSearchIndex :=
  mk_DerivedFilteredSearchIndex (filter_data_map s) i.
Definition with_filter_data (m : gmap Key JVariable) (s : DerivedFilteredSearchIndex) : DerivedFilteredSearchIndex :=
  mk_DerivedFilteredSearchIndex m (df_inner s).
Definition filtered_new (index : I) : DerivedFilteredSearchIndex := mk_DerivedFilteredSearchIndex ∅ index.

Definition handle_filter_and_unpack_data (entry : AddDataEntry) : eff DerivedFilteredSearchIndex unit (DynResult D) :=
  unpacked ← lift (match ad_filter_data entry with
                   | Some f => settle (u ← unpack f; Ok (Some u))
                   | None => Ok (Ok None)
                   end);
  match unpacked with
  | Ok u =>
      _ ← (match u with
           | Some u => modify (λ s, with_filter_data (<[ad_key entry := u]> (filter_data_map s)) s)
           | None => mret tt
           end);
      lift (settle (unpack (ad_data entry)))
  | Err e => mret (Err e)
  | Panic p => lift (Panic p)
  end.
Definition filtered_add (add_data : list AddDataEntry) : eff DerivedFilteredSearchIndex unit (list (Key * DynResult unit)) :=
  points ← eff_map (λ entry, r ← handle_filter_and_unpack_data entry; mret (ad_key entry, r)) add_data;
  let batch := oks points in
  let error_rows := errs points in
  ret ← zoom df_inner with_df_inner (nf_add (Q := Q) batch);
  mret (ret ++ error_rows).
Definition filtered_remove (keys : list Key) : eff DerivedFilteredSearchIndex unit (list (Key * DynResult unit)) :=
  _ ← modify (λ s, with_filter_data (foldl (λ m key, delete key m) (filter_data_map s) keys) s);
  zoom df_inner with_df_inner (nf_remove (D := D) (Q := Q) keys).

Definition make_query_tuple (query : QueryEntry) : DynResult (Q * Z * option JExpression) :=
  limit ← match qe_limit query with
          | Some wrapped => i ← as_int wrapped; if in_u64 i then Ok i else Err (ValueError "out of range integral type conversion attempted")
          | None => Ok 1
          end;
  query_point ← unpack (qe_data query);
  filter ← match qe_filter query with
           | None | Some VNone => Ok None
           | Some filter => filter_as_string ← unpack filter; e ← compile_filter filter_as_string; Ok (Some e)
           end;
  Ok (query_point, limit, filter).

Definition filter_data (self : DerivedFilteredSearchIndex) (key : Key) : DynResult JVariable :=
  match filter_data_map self !! key with Some v => Ok v | None => Panic "no entry found for key" end.
Definition filter_match (self : DerivedFilteredSearchIndex) (expr : JExpression) (sm : KeyScoreMatch)
    : DynResult (KeyScoreMatch * JVariable) :=
  v ← filter_data self (ksm_key sm); r ← jp_search expr v; Ok (sm, r).
Definition filter_verdict (e : KeyScoreMatch * JVariable) : DynResult (option KeyScoreMatch) :=
  match jp_as_boolean (snd e) with
  | Some b => Ok (if b then Some (fst e) else None)
  | None => Err (ValueError "jmespath filter expression did not return a boolean value")
  end.
Definition filter_results (self : DerivedFilteredSearchIndex) (results : list KeyScoreMatch) (expr : JExpression)
    : DynResult (list KeyScoreMatch) :=
  res_with_expr ← try_collect (filter_match self expr) results;
  kept ← try_collect filter_verdict res_with_expr;
  Ok (omap id (kept : list (option KeyScoreMatch))).
Definition matches_value (results : list KeyScoreMatch) : Value := VTuple (map ksm_into_value results).

(** A pending query: its point, the limit, how many results were asked for, the filter. *)
Abbreviation PendingQueryEntry := (Key * (Q * Z * Z * JExpression))%type.
(** What becomes of a query when its results arrive: a response, or another round. *)
Definition retain_query (self : DerivedFilteredSearchIndex) (p : PendingQueryEntry) (answer : Key * DynResult (list KeyScoreMatch))
    : outcome unit (Key * DynResult Value + PendingQueryEntry) :=
  let '(key, (query, limit, current_upper_bound, expr)) := p in
  if decide (key = fst answer) then
    match snd answer with
    | Err error => Ok (inl (key, Err error))
    | Panic p => Panic p
    | Ok results =>
        let res_len := Z.of_nat (length results) in
        filtered ← settle (filter_results self results expr);
        match filtered with
        | Err error => Ok (inl (key, Err error))
        | Panic p => Panic p
        | Ok filtered =>
            if (limit <=? Z.of_nat (length filtered)) || (res_len <? current_upper_bound) then
              Ok (inl (key, Ok (matches_value (take (Z.to_nat limit) filtered))))
            else
              bound ← u64_arith (2 * current_upper_bound);
              Ok (inr (key, (query, limit, bound, expr)))
        end
    end
  else Panic "assertion failed: **key == key2".
Definition retain_unfinished_queries (self : DerivedFilteredSearchIndex) (pending : list PendingQueryEntry)
    (answers : list (Key * DynResult (list KeyScoreMatch)))
    : outcome unit (list (Key * DynResult Value) * list PendingQueryEntry) :=
  r ← try_collect (λ pa, retain_query self (fst pa) (snd pa)) (zip pending answers);
  Ok (lefts r, rights r).
(** The rounds of the filtering queries; the bound doubles, so that 65 rounds exhaust
    any index. *)
Fixpoint search_rounds (fuel : nat) (self : DerivedFilteredSearchIndex) (pending : list PendingQueryEntry)
    : outcome unit (list (Key * DynResult Value)) :=
  match pending, fuel with
  | [], _ => Ok []
  | _, O => Panic "out of fuel"
  | _, S fuel =>
      answers ← nf_search (D := D) (df_inner self) (map (λ p, let '(key, (query, _, bound, _)) := p in (key, query, bound)) pending);
      ' (responses, pending) ← retain_unfinished_queries self pending answers;
      rest ← search_rounds fuel self pending;
      Ok (responses ++ rest)
  end.
Definition regular_queries (queries : list (Key * (Q * Z * option JExpression))) : list (Key * Q * Z) :=
  omap (λ kq, match kq with (k, (q, lim, None)) => Some (k, q, lim) | _ => None end) queries.
(** The filtering queries, pending with their limits as the first bounds. *)
Definition filtering_queries (queries : list (Key * (Q * Z * option JExpression))) : list PendingQueryEntry :=
  omap (λ kq, match kq with (k, (q, lim, Some f)) => Some (k, (q, lim, lim, f)) | _ => None end) queries.
Definition filtered_search (self : DerivedFilteredSearchIndex) (query_data : list QueryEntry)
    : outcome unit (list (Key * DynResult Value)) :=
  queries ← try_collect (λ query, q ← settle (make_query_tuple query); Ok (qe_key query, q)) query_data;
  let queries_without_errors := oks queries in
  let queries_with_errors := errs queries in
  maybe_error_responses ← nf_search (D := D) (df_inner self) (regular_queries queries_without_errors);
  let responses := map (λ r, (fst r, response ← snd r; Ok (matches_value response))) maybe_error_responses in
  filtering ← search_rounds 65 self (filtering_queries queries_without_errors);
  Ok (queries_with_errors ++ responses ++ filtering).

#[export] Instance filtered_index : ExternalIndex DerivedFilteredSearchIndex := {
  ei_add := filtered_add;
  ei_remove := filtered_remove;
  ei_search := filtered_search
}.
End filtered.
Arguments DerivedFilteredSearchIndex I {_}.

(** ** usearch *)

Record USearchOptions := mk_USearchOptions {
  dimensions : Z;
  metric : Z;
  connectivity : Z;
  expansion_add : Z;
  expansion_search : Z
}.
(** The crate usearch, with 16-bit floats and one vector per key; [us_search] returns
    keys and distances. *)
Class USearch := {
  UIndex : Type;
  us_new : USearchOptions → DynResult UIndex;
  us_reserve : Z → UIndex → DynResult unit * UIndex;
  us_size : UIndex → Z;
  us_capacity : UIndex → Z;
  us_add : Z → list f64 → UIndex → DynResult unit * UIndex;
  us_remove : Z → UIndex → DynResult unit * UIndex;
  us_search : UIndex → list f64 → Z → DynResult (list (Z * f64))
}.

Section usearch.
Context `{USearch, Profile}.
Record USearchKNNIndex := mk_USearchKNNIndex { us_index : UIndex; us_mapper : KeyToU64IdMapper }.
Definition with_us_index (i : UIndex) (s : USearchKNNIndex) : USearchKNNIndex := mk_USearchKNNIndex i (us_mapper s).
Definition with_us_mapper (m : KeyToU64IdMapper) (s : USearchKNNIndex) : USearchKNNIndex := mk_USearchKNNIndex (us_index s) m.
Definition usearch_new (options : USearchOptions) (reserved_space : Z) : DynResult USearchKNNIndex :=
  index ← us_new options;
  let '(r, index) := us_reserve reserved_space index in
  _ ← r;
  Ok (mk_USearchKNNIndex index mapper_new).
Definition us_call {A} (f : UIndex → DynResult A * UIndex) : eff USearchKNNIndex unit (DynResult A) :=
  zoom us_index with_us_index (call f).

(** The matches of a search, with the keys of their numbers. *)
Definition matches_of_ids (mapper : KeyToU64IdMapper) (ids : list (Z * f64)) : outcome unit (list KeyScoreMatch) :=
  try_collect (λ m, k ← get_key_for_id mapper (fst m); Ok (mk_KeyScoreMatch k (snd m))) ids.
Definition usearch_search_one (self : USearchKNNIndex) (data : list f64) (limit : Z)
    : outcome unit (DynResult (list KeyScoreMatch)) :=
  found ← settle (us_search (us_index self) data limit);
  match found with
  | Ok found => r ← matches_of_ids (us_mapper self) (map (λ m, (fst m, f64_neg (snd m))) found); Ok (Ok r)
  | Err e => Ok (Err e)
  | Panic p => Panic p
  end.
Definition usearch_add_one (key : Key) (data : list f64) : eff USearchKNNIndex unit (DynResult unit) :=
  key_id ← zoom us_mapper with_us_mapper (get_noncolliding_u64_id key);
  us_call (us_add key_id data).
Definition usearch_remove_one (key : Key) : eff USearchKNNIndex unit (DynResult unit) :=
  key_id ← zoom us_mapper with_us_mapper (remove_key key);
  match key_id with
  | Ok key_id => us_call (us_remove key_id)
  | Err e => mret (Err e)
  | Panic p => lift (Panic p)
  end.
Definition usearch_make_room (n : Z) : eff USearchKNNIndex unit unit :=
  index ← gets us_index;
  needed ← lift (u64_arith (us_size index + n));
  if us_capacity index <? needed then
    doubled ← lift (u64_arith (2 * us_capacity index));
    r ← us_call (us_reserve (Z.max doubled needed));
    match r with Ok _ => mret tt | _ => lift (Panic "assertion failed: index.reserve(..).is_ok()") end
  else mret tt.
Definition usearch_add (add_data : list (Key * list f64)) : eff USearchKNNIndex unit (list (Key * DynResult unit)) :=
  _ ← usearch_make_room (Z.of_nat (length add_data));
  eff_map (λ kd, r ← usearch_add_one (fst kd) (snd kd); mret (fst kd, r)) add_data.
Definition usearch_remove (keys : list Key) : eff USearchKNNIndex unit (list (Key * DynResult unit)) :=
  eff_map (λ key, r ← usearch_remove_one key; mret (key, r)) keys.
Definition usearch_search (self : USearchKNNIndex) (queries : list (Key * list f64 * Z))
    : outcome unit (list (Key * DynResult (list KeyScoreMatch))) :=
  try_collect (λ q, let '(key, data, limit) := q in r ← usearch_search_one self data limit; Ok (key, r)) queries.
#[export] Instance usearch_index : NonFilteringExternalIndex (list f64) (list f64) USearchKNNIndex := {
  nf_add := usearch_add;
  nf_remove := usearch_remove;
  nf_search := usearch_search
}.
End usearch.

(** ** tantivy *)

(** The crate tantivy: a writer of documents with a number and a text, whose changes
    are visible to a searcher after a commit; a searcher returns the scores and numbers
    of the best documents. *)
Class Tantivy := {
  TIndex : Type;
  TQuery : Type;
  TSearcher : Type;
  tv_new : Z → bool → DynResult TIndex;
  tv_add_document : Z → string → TIndex → DynResult unit * TIndex;
  tv_delete_term : Z → TIndex → TIndex;
  tv_commit : TIndex → DynResult unit * TIndex;
  tv_searcher : TIndex → DynResult TSearcher;
  tv_parse_query : string → DynResult TQuery;
  tv_search : TSearcher → TQuery → Z → DynResult (list (f64 * Z))
}.

Section tantivy.
Context `{Tantivy, Profile}.
Record TantivyIndex := mk_TantivyIndex { tv_index : TIndex; tv_mapper : KeyToU64IdMapper }.
Definition with_tv_index (i : TIndex) (s : TantivyIndex) : TantivyIndex := mk_TantivyIndex i (tv_mapper s).
Definition with_tv_mapper (m : KeyToU64IdMapper) (s : TantivyIndex) : TantivyIndex := mk_TantivyIndex (tv_index s) m.
Definition tantivy_new (ram_budget : Z) (in_memory_index : bool) : DynResult TantivyIndex :=
  index ← tv_new ram_budget in_memory_index; Ok (mk_TantivyIndex index mapper_new).
Definition tv_call {A} (f : TIndex → DynResult A * TIndex) : eff TantivyIndex unit (DynResult A) :=
  zoom tv_index with_tv_index (call f).

Definition tantivy_search_one (self : TantivyIndex) (data : string) (limit : Z) (searcher : TSearcher)
    : outcome unit (DynResult (list KeyScoreMatch)) :=
  top_docs ← settle (query ← tv_parse_query data; tv_search searcher query limit);
  match top_docs with
  | Ok top_docs => r ← matches_of_ids (tv_mapper self) (map (λ d, (snd d, fst d)) top_docs); Ok (Ok r)
  | Err e => Ok (Err e)
  | Panic p => Panic p
  end.
Definition tantivy_add_one (key : Key) (data : string) : eff TantivyIndex unit (DynResult unit) :=
  key_id ← zoom tv_mapper with_tv_mapper (get_noncolliding_u64_id key);
  tv_call (tv_add_document key_id data).
Definition tantivy_remove_one (key : Key) : eff TantivyIndex unit (DynResult unit) :=
  key_id ← zoom tv_mapper with_tv_mapper (remove_key key);
  match key_id with
  | Ok key_id => tv_call (λ i, (Ok tt, tv_delete_term key_id i))
  | Err e => mret (Err e)
  | Panic p => lift (Panic p)
  end.
Definition tantivy_commit : eff TantivyIndex unit unit :=
  r ← tv_call tv_commit;
  match r with Ok _ => mret tt | _ => lift (Panic "called `Result::unwrap()` on an `Err` value") end.
Definition tantivy_add (add_data : list (Key * string)) : eff TantivyIndex unit (list (Key * DynResult unit)) :=
  ret ← eff_map (λ kd, r ← tantivy_add_one (fst kd) (snd kd); mret (fst kd, r)) add_data;
  _ ← tantivy_commit; mret ret.
Definition tantivy_remove (keys : list Key) : eff TantivyIndex unit (list (Key * DynResult unit)) :=
  ret ← eff_map (λ key, r ← tantivy_remove_one key; mret (key, r)) keys;
  _ ← tantivy_commit; mret ret.
Definition tantivy_search (self : TantivyIndex) (queries : list (Key * string * Z))
    : outcome unit (list (Key * DynResult (list KeyScoreMatch))) :=
  searcher ← match tv_searcher (tv_index self) with
             | Ok s => Ok s
             | _ => Panic "called `Result::unwrap()` on an `Err` value"
             end;
  try_collect (λ q, let '(key, data, limit) := q in r ← tantivy_search_one self data limit searcher; Ok (key, r)) queries.
#[export] Instance tantivy_external_index : NonFilteringExternalIndex string string TantivyIndex := {
  nf_add := tantivy_add;
  nf_remove := tantivy_remove;
  nf_search := tantivy_search
}.
End tantivy.

(** ** The operator *)

(** The updates of the index and the queries of one time. *)
Inductive IndexEvent :=
| IndexUpdate (u : Key * Value * Z)
| IndexQuery (q : Key * Value * Z).

Section operator.
Context {I T : Type} `{ExternalIndex I, ErrorMode, Ord T}.

(** The stream of both, as the operator receives it: the first component of a key
    tells them apart. *)
Definition index_event (is_query : bool) (key : Key) (val : Value) (diff : Z) : IndexEvent :=
  if is_query then IndexQuery (key, val, diff) else IndexUpdate (key, val, diff).
Definition grouped_events (batches : list (list ((bool * Key) * Value * T * Z))) : list (T * list IndexEvent) :=
  batch_by_time batches (λ key val _ diff, index_event (fst key) (snd key) val diff).
Definition updates_of (data : list IndexEvent) : list (Key * Value * Z) :=
  omap (λ e, match e with IndexUpdate u => Some u | IndexQuery _ => None end) data.
Definition queries_of (data : list IndexEvent) : list (Key * Value * Z) :=
  omap (λ e, match e with IndexQuery q => Some q | IndexUpdate _ => None end) data.
(** The data of one time: the index is updated, then it answers. *)
Definition index_step (time : T) (data : list IndexEvent) : eff (IndexDerivedImpl I) unit (list (Key * Value * T * Z)) :=
  _ ← take_updates (updates_of data);
  index ← gets id;
  ret ← lift (search index (queries_of data));
  mret (map (λ r, let '(k, v, diff) := r in (k, v, time, diff)) ret).
Definition use_external_index_as_of_now_core (groups : list (T * list IndexEvent))
    : eff (IndexDerivedImpl I) unit (list (Key * Value * T * Z)) :=
  outs ← eff_map (λ g, index_step (fst g) (snd g)) groups; mret (concat outs).

(** The operator of the dataflow on a worker that received some batches. *)
Definition use_external_index_as_of_now (data_column : ColumnPath) (filter_data_column : option ColumnPath)
    (query_column : ColumnPath) (limit_column filter_column : option ColumnPath) (external_index : I)
    (batches : list (list ((bool * Key) * Value * T * Z))) : outcome unit (list (Key * Value * T * Z)) :=
  fst (use_external_index_as_of_now_core (grouped_events batches)
         (mk_IndexDerivedImpl external_index (make_accessor data_column) (make_option_accessor filter_data_column)
            (make_accessor query_column) (make_option_accessor limit_column) (make_option_accessor filter_column))).
End operator.
