(* ===== verification/IndexProps.v ===== *)
(** External indexes: a query with a filter gets the first matches of the whole
    ranking that pass the filter, and the index holds the rows of the table at the
    time of the query. *)
From Stdlib Require Import ZArith Lia Bool.
From stdpp Require Import base list strings gmap sets.
From S2P Require Import Prelude Effects Order Float Data Externals Instances Value TimeColumn Table TableProps Index.
Open Scope Z_scope.

(** A map whose computations always succeed. *)
Lemma eff_map_state {S E A B} (f : A → eff S E B) (g : A → B) (h : S → A → S) (l : list A) (s : S) :
  (∀ a s, a ∈ l → f a s = (Ok (g a), h s a)) → eff_map f l s = (Ok (map g l), foldl h s l).
Proof.
  revert s. induction l as [|a l IH]; intros s Hf; [done|]. cbn [eff_map map foldl].
  rewrite (bind_eff _ _ _ _ _ (Hf a s ltac:(by constructor))).
  rewrite (bind_eff _ _ _ _ _ (IH _ (λ b s Hb, Hf b s ltac:(by constructor)))). done.
Qed.
Lemma oks_keys {K E A} (l : list (K * outcome E A)) : sublist (map fst (oks l)) (map fst l).
Proof.
  induction l as [|[k o] l IH]; [constructor|]. unfold oks. cbn. destruct o; [by constructor|by constructor|by constructor].
Qed.
Lemma omap_length {A B} (f : A → option B) (l : list A) : (length (omap f l) ≤ length l)%nat.
Proof. induction l as [|x l IH]; cbn; [done|]. destruct (f x); cbn; lia. Qed.
Lemma filter_keys {K A} (p : K * A → bool) (l : list (K * A)) : sublist (map fst (List.filter p l)) (map fst l).
Proof. induction l as [|x l IH]; [constructor|]. cbn. destruct (p x); by constructor. Qed.

(** ** What an index promises *)

(** An index holds data for keys; a batch adds what it accepts, errors concern single
    rows only.  [ix_room]: there is room for so many rows. *)
Class IndexLaws (D Q I : Type) `{NonFilteringExternalIndex D Q I} := {
  ix_inv : I → Prop;
  ix_contents : I → gmap Key D;
  ix_accepts : D → bool;
  ix_room : I → nat → Prop;
  ix_room_le i n n' : (n ≤ n')%nat → ix_room i n' → ix_room i n;
  ix_add_ok i batch : ix_inv i → ix_room i (length batch) → NoDup (map fst batch) →
    (∀ k, k ∈ map fst batch → ix_contents i !! k = None) →
    ∃ rs i', nf_add batch i = (Ok rs, i') ∧ Forall (λ r, ∀ p, snd r ≠ Panic p) rs ∧ ix_inv i' ∧
      ix_contents i' = list_to_map (List.filter (λ e, ix_accepts (snd e)) batch) ∪ ix_contents i;
  ix_remove_ok i keys : ix_inv i →
    ∃ rs i', nf_remove keys i = (Ok rs, i') ∧ Forall (λ r, ∀ p, snd r ≠ Panic p) rs ∧ ix_inv i' ∧
      (∀ n, ix_room i n → ix_room i' n) ∧
      ix_contents i' = foldr delete (ix_contents i) keys
}.
(** A search gives the beginning of a ranking of the contents. *)
Class RankedLaws (D Q I : Type) `{IndexLaws D Q I} := {
  ix_rank : I → Q → DynResult (list KeyScoreMatch);
  ix_search_ok i qs : ix_inv i → Forall (λ q, 1 ≤ snd q) qs →
    nf_search i qs = Ok (map (λ q, (fst (fst q), l ← ix_rank i (snd (fst q)); Ok (take (Z.to_nat (snd q)) l))) qs);
  ix_rank_panic i q p : ix_rank i q ≠ Panic p;
  ix_rank_keys i q l m : ix_inv i → ix_rank i q = Ok l → m ∈ l → is_Some (ix_contents i !! ksm_key m);
  ix_rank_size i q l : ix_inv i → ix_rank i q = Ok l → Z.of_nat (length l) < 2 ^ 63
}.

(** ** Searching with filters *)

Section filtered_search.
Context {D Q I : Type} `{JmesPath, GlobPattern, Profile, Unpack D, Unpack Q, RankedLaws D Q I}.
Implicit Types (self : DerivedFilteredSearchIndex I) (f : JExpression) (l : list KeyScoreMatch).

(** Whether a match passes a filter. *)
Definition passes self f (m : KeyScoreMatch) : DynResult bool :=
  r ← filter_match self f m;
  match jp_as_boolean (snd r) with
  | Some b => Ok b
  | None => Err (ValueError "jmespath filter expression did not return a boolean value")
  end.
Definition keeps self f (m : KeyScoreMatch) : bool := match passes self f m with Ok b => b | _ => false end.
Definition filter_total self f l : Prop := ∀ m, m ∈ l → ∃ b, passes self f m = Ok b.

Lemma filter_results_ok self f l : filter_total self f l → filter_results self l f = Ok (List.filter (keeps self f) l).
Proof.
  intros Ht. unfold filter_results.
  destruct (try_collect_total (filter_match self f) (λ m r, fst r = m ∧ jp_as_boolean (snd r) = Some (keeps self f m)) l)
    as (rs & -> & Hrs).
  { intros m Hm. destruct (Ht m Hm) as [b Hb]. unfold keeps. rewrite Hb. unfold passes in Hb.
    apply bind_ok in Hb as (r & Hr & Hb). exists r. split; [done|]. split.
    - unfold filter_match in Hr. apply bind_ok in Hr as (v & _ & Hr). apply bind_ok in Hr as (x & _ & Hr). by injection Hr as <-.
    - destruct (jp_as_boolean _) as [b'|]; [by injection Hb as ->|done]. }
  cbn [mbind outcome_bind].
  destruct (try_collect_total filter_verdict (λ r o, o = if keeps self f (fst r) then Some (fst r) else None) rs) as (os & -> & Hos).
  { intros r Hr. apply list_elem_of_lookup in Hr as [i Hi].
    destruct (Forall2_lookup_r _ _ _ _ _ Hrs Hi) as (m & _ & <- & Hb). unfold filter_verdict. rewrite Hb. by eexists. }
  cbn [mbind outcome_bind]. f_equal. clear Ht. revert os Hos. induction Hrs as [|m r l rs [<- _] _ IH]; intros os Hos.
  - by inversion Hos.
  - apply Forall2_cons_inv_l in Hos as (o & os' & -> & Hos & ->). cbn [List.filter].
    specialize (IH os' Hos). destruct (keeps self f (fst r)); cbn; [f_equal|]; exact IH.
Qed.

(** Enough of a filtered prefix is enough of the whole. *)
Lemma filter_app {A} (p : A → bool) (l1 l2 : list A) : List.filter p (l1 ++ l2) = List.filter p l1 ++ List.filter p l2.
Proof. induction l1 as [|x l1 IH]; cbn; [done|]. destruct (p x); cbn; by rewrite IH. Qed.
Lemma take_filter_prefix {A} (p : A → bool) (l : list A) n k :
  (k ≤ length (List.filter p (take n l)))%nat ∨ (length l ≤ n)%nat →
  take k (List.filter p (take n l)) = take k (List.filter p l).
Proof.
  intros [Hk|Hn]; [|by rewrite (take_ge l)]. rewrite <- (take_drop n l) at 2. rewrite filter_app.
  by rewrite take_app_le.
Qed.

(** What a query is answered. *)
Definition expected self (query : QueryEntry) : DynResult Value :=
  t ← make_query_tuple query;
  let '(point, limit, filter) := t in
  l ← ix_rank (df_inner self) point;
  Ok (matches_value (take (Z.to_nat limit) (match filter with Some f => List.filter (keeps self f) l | None => l end))).
Definition expected_pending self (p : Key * (Q * Z * Z * JExpression)) : Key * DynResult Value :=
  let '(key, (query, limit, _, f)) := p in
  (key, l ← ix_rank (df_inner self) query; Ok (matches_value (take (Z.to_nat limit) (List.filter (keeps self f) l)))).

(** A pending query whose bound grows [2 ^ fuel] fold beyond the ranking. *)
Definition pending_ok self (fuel : nat) (p : Key * (Q * Z * Z * JExpression)) : Prop :=
  let '(_, (query, limit, bound, f)) := p in
  1 ≤ limit ≤ bound ∧ ∀ l, ix_rank (df_inner self) query = Ok l →
    filter_total self f l ∧ Z.of_nat (length l) < bound * 2 ^ Z.of_nat fuel.

Lemma retain_query_ok self fuel p : ix_inv (df_inner self) → pending_ok self fuel p →
  let '(key, (query, limit, bound, f)) := p in
  retain_query self p (key, l ← ix_rank (df_inner self) query; Ok (take (Z.to_nat bound) l)) = Ok (inl (expected_pending self p)) ∨
  ∃ fuel', fuel = S fuel' ∧ retain_query self p (key, l ← ix_rank (df_inner self) query; Ok (take (Z.to_nat bound) l)) =
    Ok (inr (key, (query, limit, 2 * bound, f))) ∧
    pending_ok self fuel' (key, (query, limit, 2 * bound, f)).
Proof.
  destruct p as [key [[[query limit] bound] f]]. cbn [pending_ok]. intros Hinv (Hlim & Hrank).
  unfold retain_query, expected_pending. cbn [fst snd]. rewrite decide_True by done.
  destruct (ix_rank (df_inner self) query) as [l|e|pn] eqn:El; cbn [mbind outcome_bind]; [|by left|by destruct (ix_rank_panic _ _ _ El)].
  destruct (Hrank l eq_refl) as [Ht Hsize]. pose proof (ix_rank_size _ _ _ Hinv El) as H63.
  rewrite filter_results_ok; [|intros m Hm; apply Ht; rewrite <- (take_drop (Z.to_nat bound) l); apply elem_of_app; by left]. cbn [settle mbind outcome_bind].
  destruct ((limit <=? _) || _) eqn:Edone; [left|right].
  - do 5 f_equal. apply take_filter_prefix. apply orb_true_iff in Edone. rewrite Z.leb_le, Z.ltb_lt, length_take in Edone.
    destruct Edone; [left; lia|right; lia].
  - apply orb_false_iff in Edone as [Hfew Hmore]. rewrite Z.ltb_ge, length_take in Hmore.
    assert (bound ≤ Z.of_nat (length l)) as Hle by lia. assert (in_u64 (2 * bound) = true) as Hin by (unfold in_u64, U64_MAX; lia).
    destruct fuel as [|fuel]; [cbn in Hsize; lia|]. exists fuel. split; [done|]. unfold u64_arith. rewrite Hin. cbn [mbind outcome_bind]. split; [done|].
    split; [lia|]. intros l' El'. assert (l' = l) as -> by congruence. split; [done|].
    rewrite Nat2Z.inj_succ, Z.pow_succ_r in Hsize by lia. lia.
Qed.
Lemma retain_ok self fuel pending : ix_inv (df_inner self) → Forall (pending_ok self fuel) pending →
  ∃ responses pending', retain_unfinished_queries self pending
      (map (λ p, let '(key, (query, _, bound, _)) := p in
                 (key, l ← ix_rank (df_inner self) query; Ok (take (Z.to_nat bound) l))) pending) = Ok (responses, pending') ∧
    responses ++ map (expected_pending self) pending' ≡ₚ map (expected_pending self) pending ∧
    (pending' = [] ∨ ∃ fuel', fuel = S fuel' ∧ Forall (pending_ok self fuel') pending').
Proof.
  intros Hinv. unfold retain_unfinished_queries. induction 1 as [|[key [[[query limit] bound] f]] pending Hp _ IH].
  { exists [], []. split; [done|]. by split; [|left]. }
  destruct IH as (responses & pending' & E & Hperm & Hnext). apply bind_ok in E as (es & E & Hes). injection Hes as <- <-.
  cbn [map zip zip_with fst snd try_collect].
  destruct (retain_query_ok self fuel _ Hinv Hp) as [-> | (fuel' & -> & -> & Hp')]; rewrite E; cbn [mbind outcome_bind].
  - eexists _, _. split; [done|]. by split; [constructor|].
  - eexists _, _. split; [done|]. split; [|right; exists fuel'; split; [done|]].
    + cbn [lefts rights omap list_omap map]. rewrite <- Permutation_middle. by constructor.
    + constructor; [done|]. change (Forall (pending_ok self fuel') (rights es)).
      destruct Hnext as [->|(fuel'' & [= ->] & ?)]; [constructor|done].
Qed.
Lemma rounds_ok self fuel pending : ix_inv (df_inner self) → Forall (pending_ok self fuel) pending →
  ∃ rs, search_rounds (S fuel) self pending = Ok rs ∧ rs ≡ₚ map (expected_pending self) pending.
Proof.
  intros Hinv. revert pending. induction fuel as [fuel IH] using lt_wf_ind. intros pending Hp.
  destruct pending as [|p0 pending0] eqn:Epend; [by exists []|]. rewrite <- Epend in *.
  assert (search_rounds (S fuel) self pending = answers ← nf_search (df_inner self)
      (map (λ p, let '(key, (query, _, bound, _)) := p in (key, query, bound)) pending);
    ' (responses, pending) ← retain_unfinished_queries self pending answers;
    rest ← search_rounds fuel self pending; Ok (responses ++ rest)) as -> by (by rewrite Epend).
  rewrite (ix_search_ok (df_inner self)); [|done|].
  2: { rewrite Forall_map. eapply Forall_impl; [exact Hp|]. intros [key [[[query limit] bound] f]] [? _]. cbn. lia. }
  rewrite map_map. cbn [mbind outcome_bind]. destruct (retain_ok self fuel pending Hinv Hp) as (responses & pending' & E & Hperm & Hnext).
  rewrite (map_ext _ (λ p, let '(key, (query, _, bound, _)) := p in
    (key, l ← ix_rank (df_inner self) query; Ok (take (Z.to_nat bound) l)))) by (by intros [? [[[? ?] ?] ?]]).
  rewrite E. cbn [mbind outcome_bind]. destruct Hnext as [->|(fuel' & -> & Hp')].
  - assert (search_rounds fuel self [] = Ok []) as -> by (by destruct fuel). cbn [mbind outcome_bind].
    eexists. split; [done|exact Hperm].
  - destruct (IH fuel' ltac:(lia) pending' Hp') as (rest & -> & Hrest). cbn [mbind outcome_bind].
    eexists. split; [done|]. by rewrite Hrest.
Qed.

(** A query that can be answered: its limit is positive, and its filter gives a boolean
    for every match. *)
Definition query_ok self (q : QueryEntry) : Prop :=
  (∀ p, make_query_tuple (Q := Q) q ≠ Panic p) ∧
  ∀ point limit filter, make_query_tuple q = Ok (point, limit, filter) → 1 ≤ limit ∧
    ∀ f l, filter = Some f → ix_rank (df_inner self) point = Ok l → filter_total self f l.

Lemma pending_start self key point limit f : ix_inv (df_inner self) → 1 ≤ limit →
  (∀ l, ix_rank (df_inner self) point = Ok l → filter_total self f l) →
  pending_ok self 64 (key, (point, limit, limit, f)).
Proof.
  intros Hinv Hl Hf. split; [lia|]. intros l Hr. split; [by apply Hf|].
  pose proof (ix_rank_size _ _ _ Hinv Hr). change (Z.of_nat 64) with 64. lia.
Qed.
Lemma perm_second {A} (x : A) (l1 l2 l3 l : list A) : l1 ++ l2 ++ l3 ≡ₚ l → l1 ++ (x :: l2) ++ l3 ≡ₚ x :: l.
Proof. intros <-. by rewrite <- app_comm_cons, <- Permutation_middle. Qed.
Lemma perm_third {A} (x : A) (l1 l2 l3 l : list A) : l1 ++ l2 ++ l3 ≡ₚ l → l1 ++ l2 ++ (x :: l3) ≡ₚ x :: l.
Proof. intros <-. by rewrite <- !Permutation_middle. Qed.
(** The answers of the regular queries. *)
Definition regular_response self (q : Key * Q * Z) : Key * DynResult Value :=
  (fst (fst q), response ← (l ← ix_rank (df_inner self) (snd (fst q)); Ok (take (Z.to_nat (snd q)) l)); Ok (matches_value response)).
Lemma queries_split self (qs : list QueryEntry) :
  Forall (query_ok self) qs →
  let queries := map (λ q, (qe_key q, make_query_tuple (Q := Q) q)) qs in
  (ix_inv (df_inner self) →
   Forall (λ q, 1 ≤ snd q) (regular_queries (oks queries)) ∧ Forall (pending_ok self 64) (filtering_queries (oks queries))) ∧
  errs queries ++ map (regular_response self) (regular_queries (oks queries))
  ++ map (expected_pending self) (filtering_queries (oks queries)) ≡ₚ map (λ q, (qe_key q, expected self q)) qs.
Proof.
  induction 1 as [|q qs [Hp Hok] _ [IH1 IH2]]; [by split|]. cbn [map] in *. unfold expected at 1.
  destruct (make_query_tuple q) as [[[point limit] filter]|e|p] eqn:Eq; [|split; [exact IH1|]|by destruct (Hp p)].
  - destruct (Hok point limit filter eq_refl) as [Hl Hf]. cbn [mbind outcome_bind].
    destruct filter as [f|]; (split; [intros Hinv; destruct (IH1 Hinv) as [Hr Hpe]|]).
    + split; [exact Hr|]. apply Forall_cons. split; [|exact Hpe]. apply pending_start; [done..|]. intros l Hr'. by eapply Hf.
    + exact (perm_third _ _ _ _ _ IH2).
    + split; [|exact Hpe]. apply Forall_cons. by split.
    + assert ((l ← ix_rank (df_inner self) point; Ok (matches_value (take (Z.to_nat limit) l))) =
              snd (regular_response self (qe_key q, point, limit))) as ->
        by (unfold regular_response; cbn [fst snd]; by destruct (ix_rank _ _)).
      exact (perm_second (regular_response self (qe_key q, point, limit)) _ _ _ _ IH2).
  - cbn [mbind outcome_bind]. apply perm_skip, IH2.
Qed.

Lemma filtered_search_ok self (qs : list QueryEntry) : ix_inv (df_inner self) → Forall (query_ok self) qs →
  ∃ rs, filtered_search self qs = Ok rs ∧ rs ≡ₚ map (λ q, (qe_key q, expected self q)) qs.
Proof.
  intros Hinv Hqs. unfold filtered_search.
  assert (try_collect (λ query, q ← settle (make_query_tuple query); Ok (qe_key query, q)) qs =
          (Ok (map (λ q, (qe_key q, make_query_tuple (Q := Q) q)) qs) : outcome unit _)) as ->.
  { apply try_collect_ok. apply Forall2_fmap_r, Forall_Forall2_diag. eapply Forall_impl; [exact Hqs|].
    intros q [Hp _]. unfold compose. destruct (make_query_tuple q) as [t|e|p]; [done|done|by destruct (Hp p)]. }
  cbn [mbind outcome_bind]. destruct (queries_split self qs Hqs) as [Hok Hperm]. destruct (Hok Hinv) as [Hr Hp].
  rewrite (ix_search_ok (df_inner self)) by done. cbn [mbind outcome_bind].
  destruct (rounds_ok self 64 _ Hinv Hp) as (rs & -> & Hrs). cbn [mbind outcome_bind]. eexists. split; [done|].
  rewrite Hrs, <- Hperm, map_map. done.
Qed.

(** C21: A filtering search asks the index for more and more results until enough of
    them pass the filter. It terminates, and every query is answered exactly once, with
    the best matches of the complete ranking that pass its filter, as many as its limit
    says; errors in a query concern that query only. This holds for an index whose
    searches give the first matches of one finite ranking for each query (RankedLaws: an
    exact index, not an approximate one), and for queries with limits of at least 1
    whose filters evaluate to a boolean on the matches. *)
Theorem filtered_search_answers self (qs : list QueryEntry) : ix_inv (df_inner self) → Forall (query_ok self) qs →
  ∃ rs, ei_search self qs = Ok rs ∧ rs ≡ₚ map (λ q, (qe_key q, expected self q)) qs.
Proof. apply filtered_search_ok. Qed.
End filtered_search.

(** ** The index of a table *)

(** A batch of updates of the indexed table: it removes rows that are there and adds
    rows under keys that are free by then. *)
Record index_change (m : gmap Key Value) (data : list (Key * Value * Z)) (m' : gmap Key Value) : Prop := {
  ic_removed k v diff : (k, v, diff) ∈ data → diff < 0 → m !! k = Some v;
  ic_fresh k v diff : (k, v, diff) ∈ data → 0 < diff → m !! k = None ∨ ∃ v' diff', (k, v', diff') ∈ data ∧ diff' < 0;
  ic_nodup : NoDup (map (λ u, fst (fst u)) (List.filter (λ u, 0 <? snd u) data));
  ic_after k v : m' !! k = Some v ↔ (∃ diff, (k, v, diff) ∈ data ∧ 0 < diff) ∨
                                    m !! k = Some v ∧ ∀ v' diff', (k, v', diff') ∈ data → 0 ≤ diff'
}.

Section table.
Context {D Q I : Type} `{JmesPath, GlobPattern, Profile, Unpack D, Unpack Q, RankedLaws D Q I}.
Context {mode : ErrorMode} (tolerant : terminate_on_error = false).
Abbreviation Derived := (IndexDerivedImpl (DerivedFilteredSearchIndex I)).
Implicit Types (d : Derived) (s : DerivedFilteredSearchIndex I) (v : Value) (e : AddDataEntry).

Lemma log_error_tolerant err : log_error err = Ok tt.
Proof. unfold log_error. by rewrite tolerant. Qed.
Lemma unwrap_or_log_tolerant {A} (r : DynResult A) a : (∀ p, r ≠ Panic p) → unwrap_or_log r a = Ok (match r with Ok b => b | _ => a end).
Proof. intros Hp. unfold unwrap_or_log. destruct r as [b|err|p]; [done|by rewrite log_error_tolerant|by destruct (Hp p)]. Qed.
Lemma log_results_ok (rs : list (Key * DynResult unit)) : Forall (λ r, ∀ p, snd r ≠ Panic p) rs → log_results rs = Ok tt.
Proof.
  intros Hrs. unfold log_results.
  destruct (try_collect_total (λ r : Key * DynResult unit, unwrap_or_log (snd r) tt) (λ _ _, True) rs) as (us & -> & _); [|done].
  intros r Hr. rewrite Forall_forall in Hrs. rewrite unwrap_or_log_tolerant by by apply Hrs. by eexists.
Qed.

(** What is made of the filter data and the data of an entry. *)
Definition entry_filter (f : option Value) : DynResult (option JVariable) :=
  match f with Some f => u ← unpack f; Ok (Some u) | None => Ok None end.
Definition entry_point e : DynResult D := _ ← entry_filter (ad_filter_data e); unpack (ad_data e).
Definition add_filter (m : gmap Key JVariable) e : gmap Key JVariable :=
  match entry_filter (ad_filter_data e) with Ok (Some u) => <[ad_key e := u]> m | _ => m end.
Definition entry_ok e : Prop := (∀ p, entry_filter (ad_filter_data e) ≠ Panic p) ∧ ∀ p, unpack (T := D) (ad_data e) ≠ Panic p.

Lemma handle_entry_ok s e : entry_ok e →
  handle_filter_and_unpack_data e s = (Ok (entry_point e), with_filter_data (add_filter (filter_data_map s) e) s).
Proof.
  destruct e as [k data f], s as [fm i]. unfold entry_ok, handle_filter_and_unpack_data, entry_point, add_filter, entry_filter.
  cbn [ad_key ad_data ad_filter_data filter_data_map df_inner]. intros [Hf Hd].
  destruct f as [f|]; [destruct (unpack f) as [u|err|p]; [|done|by destruct (Hf p)]|].
  all: destruct (unpack data) as [x|err|p]; [done|done|by destruct (Hd p)].
Qed.
Lemma add_filters_state s (es : list AddDataEntry) :
  foldl (λ s e, with_filter_data (add_filter (filter_data_map s) e) s) s es =
  mk_DerivedFilteredSearchIndex (foldl add_filter (filter_data_map s) es) (df_inner s).
Proof. revert s. induction es as [|e es IH]; intros s; [by destruct s|]. cbn [foldl]. by rewrite IH. Qed.
Lemma filtered_add_ok s (es : list AddDataEntry) : Forall entry_ok es → ix_inv (df_inner s) →
  ix_room (df_inner s) (length (oks (map (λ e, (ad_key e, entry_point e)) es))) →
  NoDup (map ad_key es) → (∀ e, e ∈ es → ix_contents (df_inner s) !! ad_key e = None) →
  ∃ rs i', filtered_add es s = (Ok rs, mk_DerivedFilteredSearchIndex (foldl add_filter (filter_data_map s) es) i') ∧
    Forall (λ r, ∀ p, snd r ≠ Panic p) rs ∧ ix_inv i' ∧
    ix_contents i' = list_to_map (List.filter (λ p, ix_accepts (snd p)) (oks (map (λ e, (ad_key e, entry_point e)) es)))
                     ∪ ix_contents (df_inner s).
Proof.
  intros Hes Hinv Hroom Hnd Hfree. unfold filtered_add.
  rewrite (bind_eff _ _ s (map (λ e, (ad_key e, entry_point e)) es)
    (mk_DerivedFilteredSearchIndex (foldl add_filter (filter_data_map s) es) (df_inner s))).
  2: { rewrite (eff_map_state _ (λ e, (ad_key e, entry_point e)) (λ s e, with_filter_data (add_filter (filter_data_map s) e) s)).
       - by rewrite add_filters_state.
       - intros e s' He. rewrite Forall_forall in Hes.
         by rewrite (bind_eff _ _ _ _ _ (handle_entry_ok s' e (Hes e He))). }
  assert (sublist (map fst (oks (map (λ e, (ad_key e, entry_point e)) es))) (map ad_key es)) as Hsub.
  { pose proof (oks_keys (map (λ e, (ad_key e, entry_point e)) es)) as Hsub. rewrite map_map in Hsub. exact Hsub. }
  destruct (ix_add_ok (df_inner s) (oks (map (λ e, (ad_key e, entry_point e)) es))) as (rs & i' & Hadd & Hrs & Hinv' & Hc);
    [done|done|by eapply sublist_NoDup| |].
  { intros k Hk. eapply elem_of_sublist in Hk; [|exact Hsub]. apply list_elem_of_fmap in Hk as (e & -> & He). by apply Hfree. }
  rewrite (bind_eff _ _ _ rs (mk_DerivedFilteredSearchIndex (foldl add_filter (filter_data_map s) es) i')).
  2: { unfold zoom. cbn [df_inner]. by rewrite Hadd. }
  eexists _, i'. split; [done|]. split; [|done]. apply Forall_app. split; [done|].
  apply Forall_forall. intros r Hr p. unfold errs in Hr. apply list_elem_of_omap in Hr as ([k o] & _ & Hr). cbn in Hr.
  destruct o; [done| |done]. by injection Hr as <-.
Qed.

(** The row of a table as an index entry: nothing when it contains an error, or when
    its data cannot be read or is not accepted. *)
Definition row_entry d (k : Key) v : option AddDataEntry :=
  match data_accessor d v, filter_data_accessor d v with
  | Ok data, Ok filter_data => if contains_errors [Some data; filter_data] then None else Some (mk_AddDataEntry k data filter_data)
  | _, _ => None
  end.
Definition indexed d (k : Key) v : option (D * option JVariable) :=
  e ← row_entry d k v;
  match entry_filter (ad_filter_data e), entry_point e with
  | Ok u, Ok x => if ix_accepts x then Some (x, u) else None
  | _, _ => None
  end.
(** The accessors find their columns in the row, and unpacking does not panic. *)
Definition row_ok d v : Prop :=
  ∃ data filter_data, data_accessor d v = Ok data ∧ filter_data_accessor d v = Ok filter_data ∧
    ∀ k, entry_ok (mk_AddDataEntry k data filter_data).
(** The index holds the rows of the table. *)
Record holds d (m : gmap Key Value) : Prop := {
  ho_inv : ix_inv (df_inner (inner d));
  ho_contents k x : ix_contents (df_inner (inner d)) !! k = Some x ↔ ∃ v u, m !! k = Some v ∧ indexed d k v = Some (x, u);
  ho_filters k v x f : m !! k = Some v → indexed d k v = Some (x, Some f) → filter_data_map (inner d) !! k = Some f
}.

Definition removals d (data : list (Key * Value * Z)) : list Key :=
  omap (λ u, if snd u <? 0 then ad_key <$> row_entry d (fst (fst u)) (snd (fst u)) else None) data.
Definition insertions d (data : list (Key * Value * Z)) : list AddDataEntry :=
  omap (λ u, if 0 <? snd u then row_entry d (fst (fst u)) (snd (fst u)) else None) data.
Definition parsed_updates d (data : list (Key * Value * Z)) : list (AddDataEntry * Z) :=
  omap id (map (λ u, (λ e, (e, snd u)) <$> row_entry d (fst (fst u)) (snd (fst u))) (List.filter (λ u, negb (snd u =? 0)) data)).
Lemma removals_eq d data :
  map (λ u, ad_key (fst u)) (List.filter (λ u, is_retraction (snd u)) (parsed_updates d data)) = removals d data.
Proof.
  unfold parsed_updates, removals, is_retraction. induction data as [|[[k v] diff] data IH]; [done|]. cbn.
  destruct (Z.eqb_spec diff 0) as [->|]; [done|]. cbn. destruct (row_entry d k v) as [e|]; cbn; [|by destruct (diff <? 0)].
  by destruct (diff <? 0); cbn; [f_equal|].
Qed.
Lemma insertions_eq d data :
  map fst (List.filter (λ u, negb (is_retraction (snd u))) (parsed_updates d data)) = insertions d data.
Proof.
  unfold parsed_updates, insertions, is_retraction. induction data as [|[[k v] diff] data IH]; [done|]. cbn.
  destruct (Z.eqb_spec diff 0) as [->|]; [done|]. cbn.
  assert ((0 <? diff) = negb (diff <? 0)) as -> by lia. destruct (row_entry d k v) as [e|]; cbn; [|by destruct (diff <? 0)].
  by destruct (diff <? 0); cbn; [|f_equal].
Qed.
Lemma take_updates_runs d (data : list (Key * Value * Z)) : Forall (λ u, row_ok d (snd (fst u))) data →
  take_updates data d = zoom inner with_inner
    (removed ← ei_remove (removals d data); _ ← lift (log_results removed);
     added ← ei_add (insertions d data); lift (log_results added)) d.
Proof.
  intros Hrows. unfold take_updates.
  assert (try_collect (index_update d) (List.filter (λ u, negb (snd u =? 0)) data) =
    Ok (map (λ u, (λ e, (e, snd u)) <$> row_entry d (fst (fst u)) (snd (fst u))) (List.filter (λ u, negb (snd u =? 0)) data))) as ->.
  { apply try_collect_ok, Forall2_fmap_r, Forall_Forall2_diag. apply Forall_forall. intros [[k v] diff] Hu. unfold compose, index_update. cbn [fst snd].
    apply list_elem_of_In, filter_In in Hu as [Hu _]. apply list_elem_of_In in Hu. rewrite Forall_forall in Hrows.
    destruct (Hrows _ Hu) as (x & f & Hx & Hf & _). cbn in Hx, Hf. unfold row_entry. rewrite Hx, Hf. cbn [mbind outcome_bind].
    destruct (contains_errors _); [by rewrite log_error_tolerant|done]. }
  cbv beta zeta. change (omap id _) with (parsed_updates d data). by rewrite removals_eq, insertions_eq.
Qed.

Lemma foldl_delete_ne (fm : gmap Key JVariable) (ks : list Key) k : k ∉ ks → foldl (λ m key, delete key m) fm ks !! k = fm !! k.
Proof.
  revert fm. induction ks as [|k' ks IH]; intros fm; [done|]. rewrite not_elem_of_cons. intros [Hne Hk]. cbn [foldl].
  rewrite IH by done. by apply lookup_delete_ne.
Qed.
Lemma add_filter_ne fm e k : k ≠ ad_key e → add_filter fm e !! k = fm !! k.
Proof. intros Hk. unfold add_filter. destruct (entry_filter _) as [[u|]| |]; [by apply lookup_insert_ne|done..]. Qed.
Lemma add_filters_ne fm (es : list AddDataEntry) k : k ∉ map ad_key es → foldl add_filter fm es !! k = fm !! k.
Proof.
  revert fm. induction es as [|e es IH]; intros fm; [done|]. cbn [map]. rewrite not_elem_of_cons. intros [Hne Hk]. cbn [foldl].
  rewrite IH by done. by apply add_filter_ne.
Qed.
Lemma add_filters_in fm (es : list AddDataEntry) e u : NoDup (map ad_key es) → e ∈ es →
  entry_filter (ad_filter_data e) = Ok (Some u) → foldl add_filter fm es !! ad_key e = Some u.
Proof.
  revert fm. induction es as [|e' es IH]; intros fm; [by intros _ ?%elem_of_nil|]. cbn [map foldl].
  intros [Hk Hnd]%NoDup_cons [->|He]%elem_of_cons Hu.
  - rewrite add_filters_ne by done. unfold add_filter. rewrite Hu. apply lookup_insert_eq.
  - by apply IH.
Qed.

Lemma row_entry_key d k v e : row_entry d k v = Some e → ad_key e = k.
Proof.
  unfold row_entry. destruct (data_accessor d v), (filter_data_accessor d v); try done.
  destruct (contains_errors _); [done|]. by intros [= <-].
Qed.
Lemma removals_elem d data k : k ∈ removals d data ↔ ∃ v diff, (k, v, diff) ∈ data ∧ diff < 0 ∧ is_Some (row_entry d k v).
Proof.
  unfold removals. rewrite list_elem_of_omap. split.
  - intros ([[k' v] diff] & Hu & Hk). cbn in Hk. destruct (Z.ltb_spec diff 0); [|done].
    apply fmap_Some in Hk as (e & He & ->). pose proof (row_entry_key _ _ _ _ He) as ->. by eauto.
  - intros (v & diff & Hu & Hd & [e He]). exists (k, v, diff). split; [done|]. cbn.
    rewrite (proj2 (Z.ltb_lt _ _) Hd), He. cbn. by rewrite (row_entry_key _ _ _ _ He).
Qed.
Lemma insertions_elem d data e : e ∈ insertions d data ↔
  ∃ v diff, (ad_key e, v, diff) ∈ data ∧ 0 < diff ∧ row_entry d (ad_key e) v = Some e.
Proof.
  unfold insertions. rewrite list_elem_of_omap. split.
  - intros ([[k v] diff] & Hu & He). cbn in He. destruct (Z.ltb_spec 0 diff); [|done]. rewrite (row_entry_key _ _ _ _ He). by eauto.
  - intros (v & diff & Hu & Hd & He). exists (ad_key e, v, diff). split; [done|]. cbn. by rewrite (proj2 (Z.ltb_lt _ _) Hd).
Qed.
Lemma insertions_nodup d data : NoDup (map (λ u, fst (fst u)) (List.filter (λ u, 0 <? snd u) data)) →
  NoDup (map ad_key (insertions d data)).
Proof.
  intros Hnd. eapply sublist_NoDup; [exact Hnd|]. clear Hnd. unfold insertions. induction data as [|[[k v] diff] data IH]; [constructor|].
  cbn. destruct (0 <? diff); [|exact IH]. cbn [map fst]. destruct (row_entry d k v) as [e|] eqn:E; [|by constructor].
  cbn [map]. rewrite (row_entry_key _ _ _ _ E). by constructor.
Qed.

Section change.
Context (d : Derived) (m m' : gmap Key Value) (data : list (Key * Value * Z)).
Context (Hh : holds d m) (Hc : index_change m data m') (Hrows : Forall (λ u, row_ok d (snd (fst u))) data).
(** No row of the key is removed. *)
Definition not_removed (k : Key) : Prop := ∀ v diff, (k, v, diff) ∈ data → 0 ≤ diff.

Lemma contents_removed k x : foldr delete (ix_contents (df_inner (inner d))) (removals d data) !! k = Some x ↔
  (∃ v u, m !! k = Some v ∧ indexed d k v = Some (x, u)) ∧ not_removed k.
Proof.
  destruct (decide (k ∈ removals d data)) as [Hin|Hin].
  - rewrite lookup_foldr_delete by done. split; [done|]. intros [_ Hnr].
    apply removals_elem in Hin as (v & diff & Hu & Hd & _). specialize (Hnr v diff Hu). lia.
  - rewrite lookup_foldr_delete_not_elem_of by done. rewrite (ho_contents _ _ Hh). split; [|by intros [? _]].
    intros (v & u & Hm & Hi). split; [by eauto|]. intros v' diff Hu. apply Z.nlt_ge. intros Hd. apply Hin, removals_elem.
    exists v', diff. split; [done|]. split; [done|]. pose proof (ic_removed _ _ _ Hc _ _ _ Hu Hd) as Hm'.
    assert (v' = v) as -> by congruence. unfold indexed in Hi. destruct (row_entry d k v); [by eexists|done].
Qed.
(** The entries that are added are free by then, and are the new rows. *)
Lemma insertions_free e : e ∈ insertions d data →
  foldr delete (ix_contents (df_inner (inner d))) (removals d data) !! ad_key e = None.
Proof.
  intros (v & diff & Hu & Hd & _)%insertions_elem. apply eq_None_not_Some. intros [x Hx].
  apply contents_removed in Hx as [(v' & u & Hm & _) Hnr].
  destruct (ic_fresh _ _ _ Hc _ _ _ Hu Hd) as [Hn|(v2 & diff' & Hu' & Hd')]; [congruence|]. specialize (Hnr _ _ Hu'). lia.
Qed.
Definition accepted : list (Key * D) :=
  List.filter (λ p, ix_accepts (snd p)) (oks (map (λ e, (ad_key e, entry_point e)) (insertions d data))).
Lemma accepted_elem k x : (k, x) ∈ accepted ↔ ∃ v diff u, (k, v, diff) ∈ data ∧ 0 < diff ∧ indexed d k v = Some (x, u).
Proof.
  unfold accepted. rewrite list_elem_of_In, filter_In, <- list_elem_of_In. cbn [snd]. unfold oks. rewrite list_elem_of_omap. split.
  - intros [(p & Hp & Hx) Hacc]. apply list_elem_of_fmap in Hp as (e & -> & He). cbn [fst snd] in Hx.
    destruct (entry_point e) as [y| |] eqn:Ey; [|done..]. injection Hx as <- ->.
    apply insertions_elem in He as (v & diff & Hu & Hd & He). exists v, diff. unfold indexed. rewrite He. cbn [mbind option_bind].
    rewrite Ey. unfold entry_point in Ey. destruct (entry_filter _) as [u| |]; [|done..]. exists u. by rewrite Hacc.
  - intros (v & diff & u & Hu & Hd & Hi). unfold indexed in Hi. destruct (row_entry d k v) as [e|] eqn:He; [|done]. cbn in Hi.
    pose proof (row_entry_key _ _ _ _ He) as Hk.
    destruct (entry_filter _) as [u'| |]; [|done..]. destruct (entry_point e) as [y| |] eqn:Ey; [|done..].
    destruct (ix_accepts y) eqn:Hacc; [|done]. injection Hi as -> ->. split; [|done].
    exists (ad_key e, entry_point e). split; [|cbn; by rewrite Ey, Hk]. apply list_elem_of_fmap. exists e. split; [done|].
    apply insertions_elem. exists v, diff. by rewrite Hk.
Qed.
Lemma accepted_nodup : NoDup (map fst accepted).
Proof.
  eapply sublist_NoDup; [apply (insertions_nodup d data), (ic_nodup _ _ _ Hc)|]. unfold accepted.
  etrans; [apply filter_keys|]. etrans; [apply oks_keys|]. by rewrite map_map.
Qed.
Lemma contents_after k x :
  (list_to_map accepted ∪ foldr delete (ix_contents (df_inner (inner d))) (removals d data)) !! k = Some x ↔
  ∃ v u, m' !! k = Some v ∧ indexed d k v = Some (x, u).
Proof.
  rewrite lookup_union_Some_raw, <- elem_of_list_to_map, accepted_elem, contents_removed by apply accepted_nodup. split.
  - intros [(v & diff & u & Hu & Hd & Hi)|(_ & (v & u & Hm & Hi) & Hnr)]; exists v, u; (split; [|done]); apply (ic_after _ _ _ Hc);
      [left; by exists diff|by right].
  - intros (v & u & Hm' & Hi). apply (ic_after _ _ _ Hc) in Hm' as [(diff & Hu & Hd)|[Hm Hnr]]; [left; by exists v, diff, u|].
    right. split; [|by eauto]. apply eq_None_not_Some. intros [y Hy].
    apply elem_of_list_to_map in Hy; [|apply accepted_nodup]. apply accepted_elem in Hy as (v' & diff & _ & Hu & Hd & _).
    destruct (ic_fresh _ _ _ Hc _ _ _ Hu Hd) as [Hn|(v2 & diff' & Hu' & Hd')]; [congruence|]. specialize (Hnr _ _ Hu'). lia.
Qed.
Lemma filters_after k v x f : m' !! k = Some v → indexed d k v = Some (x, Some f) →
  foldl add_filter (foldl (λ m key, delete key m) (filter_data_map (inner d)) (removals d data)) (insertions d data) !! k = Some f.
Proof.
  intros Hm' Hi. apply (ic_after _ _ _ Hc) in Hm' as [(diff & Hu & Hd)|[Hm Hnr]].
  - unfold indexed in Hi. destruct (row_entry d k v) as [e|] eqn:He; [|done]. cbn in Hi.
    destruct (entry_filter _) as [u'| |] eqn:Ef; [|done..]. destruct (entry_point e) as [y| |]; [|done..].
    destruct (ix_accepts y); [|done]. injection Hi as -> ->. pose proof (row_entry_key _ _ _ _ He) as <-.
    apply add_filters_in; [by apply insertions_nodup, (ic_nodup _ _ _ Hc)| |done]. apply insertions_elem. by exists v, diff.
  - rewrite add_filters_ne, foldl_delete_ne; [by eapply ho_filters| |].
    + intros (v' & diff & Hu & Hd & _)%removals_elem. specialize (Hnr _ _ Hu). lia.
    + intros (e & -> & (v' & diff & Hu & Hd & _)%insertions_elem)%list_elem_of_fmap.
      destruct (ic_fresh _ _ _ Hc _ _ _ Hu Hd) as [Hn|(v2 & diff' & Hu' & Hd')]; [congruence|]. specialize (Hnr _ _ Hu'). lia.
Qed.
Lemma insertions_ok : Forall entry_ok (insertions d data).
Proof.
  apply Forall_forall. intros e (v & diff & Hu & _ & He)%insertions_elem. rewrite Forall_forall in Hrows.
  destruct (Hrows _ Hu) as (x & f & Hx & Hf & Hok). cbn in Hx, Hf. unfold row_entry in He. rewrite Hx, Hf in He.
  destruct (contains_errors _); [done|]. injection He as <-. apply Hok.
Qed.
Lemma insertions_length : (length (oks (map (λ e, (ad_key e, entry_point e)) (insertions d data))) ≤ length data)%nat.
Proof.
  unfold oks, insertions. etrans; [apply omap_length|]. rewrite length_map. apply omap_length.
Qed.

Lemma take_updates_ok : ix_room (df_inner (inner d)) (length data) →
  ∃ s', take_updates data d = (Ok tt, with_inner s' d) ∧ holds (with_inner s' d) m'.
Proof.
  intros Hroom. rewrite take_updates_runs by done.
  destruct (ix_remove_ok (df_inner (inner d)) (removals d data) (ho_inv _ _ Hh)) as (rs & i1 & Hrem & Hrs & Hinv1 & Hroom1 & Hc1).
  set (s1 := mk_DerivedFilteredSearchIndex (foldl (λ m key, delete key m) (filter_data_map (inner d)) (removals d data)) i1).
  destruct (filtered_add_ok s1 (insertions d data)) as (rs2 & i2 & Hadd & Hrs2 & Hinv2 & Hc2).
  - apply insertions_ok.
  - exact Hinv1.
  - eapply ix_room_le; [apply insertions_length|]. by apply Hroom1.
  - by apply insertions_nodup, (ic_nodup _ _ _ Hc).
  - intros e He. cbn [df_inner s1]. rewrite Hc1. by apply insertions_free.
  - eexists. split.
    + unfold zoom. rewrite (bind_eff _ _ (inner d) rs s1).
      2: { cbn [ei_remove filtered_index]. unfold filtered_remove, modify, zoom.
           cbn [mbind eff_bind with_filter_data df_inner]. unfold mbind, eff_bind. cbn [df_inner with_filter_data]. by rewrite Hrem. }
      cbv beta. rewrite (bind_eff _ _ s1 tt s1) by (unfold lift; by rewrite log_results_ok).
      rewrite (bind_eff _ _ s1 _ _ Hadd). cbv beta. unfold lift. rewrite log_results_ok by done. done.
    + split; cbn [inner with_inner df_inner filter_data_map].
      * exact Hinv2.
      * intros k x. rewrite Hc2. cbn [df_inner s1]. rewrite Hc1. apply contents_after.
      * intros k v x f. cbn [filter_data_map s1]. apply filters_after.
Qed.
End change.

(** ** Answers *)

(** The query of a row: nothing when it contains an error. *)
Definition row_query d (k : Key) v : option QueryEntry :=
  match query_accessor d v, query_limit_accessor d v, query_filter_accessor d v with
  | Ok data, Ok limit, Ok filter =>
      if contains_errors [Some data; limit; filter] then None else Some (mk_QueryEntry k data limit filter)
  | _, _, _ => None
  end.
Definition answer d (k : Key) v : Value :=
  match row_query d k v with
  | Some q => match expected (inner d) q with Ok a => a | _ => VError end
  | None => VError
  end.
(** The accessors find their columns, the limit is positive, and the filter gives a
    boolean on the filter data of every indexed row. *)
Definition query_row_ok d (m : gmap Key Value) (k : Key) v : Prop :=
  (∃ data limit filter, query_accessor d v = Ok data ∧ query_limit_accessor d v = Ok limit ∧ query_filter_accessor d v = Ok filter) ∧
  ∀ q, row_query d k v = Some q → (∀ p, make_query_tuple (Q := Q) q ≠ Panic p) ∧
    ∀ point limit filter, make_query_tuple (Q := Q) q = Ok (point, limit, filter) → 1 ≤ limit ∧
      ∀ f, filter = Some f → ∀ k' v' x u, m !! k' = Some v' → indexed d k' v' = Some (x, u) →
        ∃ w r b, u = Some w ∧ jp_search f w = Ok r ∧ jp_as_boolean r = Some b.

Lemma query_row_query_ok d m k v q : holds d m → query_row_ok d m k v → row_query d k v = Some q → query_ok (inner d) q.
Proof.
  intros Hh [_ Hq] Hrow. destruct (Hq q Hrow) as [Hp Hok]. split; [done|]. intros point limit filter Hm.
  destruct (Hok point limit filter Hm) as [Hl Hf]. split; [done|]. intros f l -> Hr sm Hsm.
  destruct (ix_rank_keys _ _ _ _ (ho_inv _ _ Hh) Hr Hsm) as [x Hx]. apply (ho_contents _ _ Hh) in Hx as (v' & u & Hm' & Hi).
  destruct (Hf f eq_refl _ _ _ _ Hm' Hi) as (w & r & b & -> & Hs & Hb). exists b.
  unfold passes, filter_match, filter_data. rewrite (ho_filters _ _ Hh _ _ _ _ Hm' Hi). cbn. by rewrite Hs; cbn; rewrite Hb.
Qed.
Lemma row_query_key d k v q : row_query d k v = Some q → qe_key q = k.
Proof.
  unfold row_query. destruct (query_accessor d v), (query_limit_accessor d v), (query_filter_accessor d v); try done.
  destruct (contains_errors _); [done|]. by intros [= <-].
Qed.
Lemma expected_panic s q p : (∀ p, make_query_tuple (Q := Q) q ≠ Panic p) → expected s q ≠ Panic p.
Proof.
  intros Hp. unfold expected. destruct (make_query_tuple q) as [[[point limit] filter]|e|p'] eqn:E; [|done|by destruct (Hp p')].
  cbn. destruct (ix_rank _ _) as [l|e|p'] eqn:Er; [done..|by destruct (ix_rank_panic _ _ _ Er)].
Qed.

Lemma foldl_insert_ne {A} (l : list (Key * A)) (r : gmap Key A) k :
  k ∉ map fst l → foldl (λ m r, <[fst r := snd r]> m) r l !! k = r !! k.
Proof.
  revert r. induction l as [|[k' a] l IH]; intros r; [done|]. cbn [map foldl fst snd]. rewrite not_elem_of_cons.
  intros [Hne Hk]. rewrite IH by done. by apply lookup_insert_ne.
Qed.
Lemma foldl_insert_in {A} (l : list (Key * A)) (r : gmap Key A) k a : NoDup (map fst l) → (k, a) ∈ l →
  foldl (λ m r, <[fst r := snd r]> m) r l !! k = Some a.
Proof.
  revert r. induction l as [|[k' a'] l IH]; intros r; [by intros _ ?%elem_of_nil|]. cbn [map foldl fst snd].
  intros [Hk Hnd]%NoDup_cons [[= -> ->]|Hin]%elem_of_cons; [|by apply IH]. rewrite foldl_insert_ne by done. apply lookup_insert_eq.
Qed.
Lemma foldl_errors (ks : list Key) (r : gmap Key Value) k :
  foldl (λ m err, <[err := VError]> m) r ks !! k = if decide (k ∈ ks) then Some VError else r !! k.
Proof.
  revert r. induction ks as [|k' ks IH]; intros r; [done|]. cbn [foldl]. rewrite IH.
  destruct (decide (k ∈ ks)); [by rewrite decide_True by by right|]. destruct (decide (k = k')) as [->|Hne].
  - rewrite decide_True by by left. apply lookup_insert_eq.
  - rewrite decide_False by (by rewrite elem_of_cons; intros []). by apply lookup_insert_ne.
Qed.
Lemma answer_queries_ok d (queries : list (Key * Value * Z)) (responses : gmap Key Value) :
  NoDup (map (λ q, fst (fst q)) queries) →
  (∀ k v diff, (k, v, diff) ∈ queries → responses !! k = Some (answer d k v)) →
  answer_queries queries responses =
  map (λ q, (fst (fst q), VTuple [snd (fst q); answer d (fst (fst q)) (snd (fst q))], snd q)) queries.
Proof.
  revert responses. induction queries as [|[[k v] diff] queries IH]; intros responses; [done|]. cbn [map fst snd answer_queries].
  intros [Hk Hnd]%NoDup_cons Hr. rewrite (Hr k v diff) by by left. cbn [default]. f_equal. apply IH; [done|].
  intros k' v' diff' Hin. rewrite lookup_delete_ne; [by eapply Hr; right|]. intros ->. apply Hk.
  apply list_elem_of_fmap. by exists (k', v', diff').
Qed.

Definition query_entry d (u : Key * Value * Z) : Key + QueryEntry :=
  match row_query d (fst (fst u)) (snd (fst u)) with Some q => inr q | None => inl (fst (fst u)) end.
Lemma index_query_ok d m (u : Key * Value * Z) : query_row_ok d m (fst (fst u)) (snd (fst u)) →
  index_query d u = Ok (query_entry d u).
Proof.
  destruct u as [[k v] diff]. intros [(data & limit & filter & Hd & Hl & Hf) _]. cbn [fst snd] in *.
  unfold index_query, query_entry, row_query. cbn [fst snd]. rewrite Hd, Hl, Hf. cbn [mbind outcome_bind].
  destruct (contains_errors _); [by rewrite log_error_tolerant|done].
Qed.
Lemma query_entries_elem d (queries : list (Key * Value * Z)) :
  (∀ q, q ∈ rights (map (query_entry d) queries) ↔ ∃ k v diff, (k, v, diff) ∈ queries ∧ row_query d k v = Some q) ∧
  (∀ k, k ∈ lefts (map (query_entry d) queries) ↔ ∃ v diff, (k, v, diff) ∈ queries ∧ row_query d k v = None).
Proof.
  unfold rights, lefts. split; [intros q|intros k]; rewrite list_elem_of_omap; split.
  - intros (e & He & Hq). apply list_elem_of_fmap in He as ([[k v] diff] & -> & Hu). unfold query_entry in Hq. cbn in Hq.
    destruct (row_query d k v) eqn:E; [|done]. injection Hq as ->. by eauto.
  - intros (k & v & diff & Hu & Hq). exists (inr q). split; [|done]. apply list_elem_of_fmap. exists (k, v, diff).
    unfold query_entry. cbn. by rewrite Hq.
  - intros (e & He & Hq). apply list_elem_of_fmap in He as ([[k' v] diff] & -> & Hu). unfold query_entry in Hq. cbn in Hq.
    destruct (row_query d k' v) eqn:E; [done|]. injection Hq as ->. by eauto.
  - intros (v & diff & Hu & Hq). exists (inl k). split; [|done]. apply list_elem_of_fmap. exists (k, v, diff).
    unfold query_entry. cbn. by rewrite Hq.
Qed.
Lemma query_entries_keys d (queries : list (Key * Value * Z)) :
  sublist (map qe_key (rights (map (query_entry d) queries))) (map (λ q, fst (fst q)) queries).
Proof.
  induction queries as [|[[k v] diff] queries IH]; [constructor|]. cbn [map rights omap list_omap fst].
  unfold query_entry at 1. cbn [fst snd]. destruct (row_query d k v) as [q|] eqn:E; [|by constructor].
  cbn [map]. rewrite (row_query_key _ _ _ _ E). by constructor.
Qed.

Lemma unique_query (queries : list (Key * Value * Z)) k v diff v' diff' : NoDup (map (λ q, fst (fst q)) queries) →
  (k, v, diff) ∈ queries → (k, v', diff') ∈ queries → (v, diff) = (v', diff').
Proof.
  induction queries as [|[[k0 v0] diff0] queries IH]; [by intros _ ?%elem_of_nil|]. cbn [map fst]. intros [Hk Hnd]%NoDup_cons.
  intros [[= -> -> ->]|In1]%elem_of_cons [[= E2 E3]|In2]%elem_of_cons; [by subst| | |by apply IH].
  - destruct Hk. apply list_elem_of_fmap. by exists (k0, v', diff').
  - subst. destruct Hk. apply list_elem_of_fmap. by exists (k0, v, diff).
Qed.
Lemma search_ok d m (queries : list (Key * Value * Z)) : holds d m → NoDup (map (λ q, fst (fst q)) queries) →
  Forall (λ u, query_row_ok d m (fst (fst u)) (snd (fst u))) queries →
  search d queries = Ok (map (λ q, (fst (fst q), VTuple [snd (fst q); answer d (fst (fst q)) (snd (fst q))], snd q)) queries).
Proof.
  intros Hh Hnd Hqs. unfold search. set (entries := map (query_entry d) queries).
  assert (try_collect (index_query d) queries = Ok entries) as ->.
  { apply try_collect_ok, Forall2_fmap_r, Forall_Forall2_diag. eapply Forall_impl; [exact Hqs|]. intros u Hu. by apply (index_query_ok d m). }
  cbn [mbind outcome_bind]. destruct (query_entries_elem d queries) as [Hright Hleft].
  assert (∀ k v diff q, (k, v, diff) ∈ queries → row_query d k v = Some q → (∀ p, make_query_tuple (Q := Q) q ≠ Panic p) ∧ query_ok (inner d) q)
    as Hok.
  { intros k v diff q Hu Hq. rewrite Forall_forall in Hqs. specialize (Hqs _ Hu). cbn in Hqs.
    split; [by apply (proj2 Hqs)|by eapply query_row_query_ok]. }
  destruct (filtered_search_ok (inner d) (rights entries) (ho_inv _ _ Hh)) as (rs & Hsearch & Hperm).
  { apply Forall_forall. intros q (k & v & diff & Hu & Hq)%Hright. by eapply Hok. }
  change (ei_search (inner d) (rights entries)) with (filtered_search (inner d) (rights entries)). rewrite Hsearch.
  cbn [mbind outcome_bind].
  set (value_of := λ r : Key * DynResult Value, (fst r, match snd r with Ok a => a | _ => VError end)).
  assert (try_collect (λ r : Key * DynResult Value, v ← unwrap_or_log (snd r) VError; Ok (fst r, v)) rs = Ok (map value_of rs)) as ->.
  { apply try_collect_ok, Forall2_fmap_r, Forall_Forall2_diag, Forall_forall. intros r Hr. rewrite Hperm in Hr.
    apply list_elem_of_fmap in Hr as (q & -> & (k & v & diff & Hu & Hq)%Hright). unfold compose. cbn [snd fst].
    rewrite unwrap_or_log_tolerant; [done|]. intros p. apply expected_panic. by eapply Hok. }
  cbn [mbind outcome_bind]. f_equal. apply answer_queries_ok; [done|]. intros k v diff Hu. rewrite foldl_errors.
  unfold answer. destruct (row_query d k v) as [q|] eqn:Eq.
  - rewrite decide_False.
    2: { intros (v' & diff' & Hu' & Hq')%Hleft. pose proof (unique_query queries k v diff v' diff' Hnd Hu Hu') as [= -> ->]. congruence. }
    apply foldl_insert_in.
    + rewrite map_map. cbn [fst value_of]. rewrite Hperm, map_map. cbn [fst].
      eapply sublist_NoDup; [exact Hnd|apply query_entries_keys].
    + apply list_elem_of_fmap. exists (k, expected (inner d) q). split; [done|]. rewrite Hperm. apply list_elem_of_fmap.
      exists q. rewrite (row_query_key _ _ _ _ Eq). split; [done|]. apply Hright. by eauto.
  - rewrite decide_True; [done|]. apply Hleft. by eauto.
Qed.

(** C3: The operator of an external index answers as of now. At each time, the index of
    a table goes from the rows of the table before to its rows after the updates of that
    time, and then every query of the time gets one result: its row with the best
    matches among these rows that pass its filter, up to its limit, with the sign of the
    query. Nothing panics. This holds where errors are logged (terminate_on_error is
    off); for an index that has room for the updates, whose additions and removals
    change the contents entry by entry (IndexLaws) and whose searches give the first
    matches of one ranking of the contents (RankedLaws); for rows whose data and filter
    data can be extracted and are read without a panic; and for queries with distinct
    keys at the time, limits of at least 1 and filters that evaluate to a boolean. *)
Theorem index_answers_as_of_now {T} (time : T) (data : list IndexEvent) d (m m' : gmap Key Value) :
  holds d m → index_change m (updates_of data) m' →
  Forall (λ u, row_ok d (snd (fst u))) (updates_of data) →
  ix_room (df_inner (inner d)) (length (updates_of data)) →
  NoDup (map (λ q, fst (fst q)) (queries_of data)) →
  Forall (λ q, query_row_ok d m' (fst (fst q)) (snd (fst q))) (queries_of data) →
  ∃ s', index_step time data d =
      (Ok (map (λ q, (fst (fst q), VTuple [snd (fst q); answer (with_inner s' d) (fst (fst q)) (snd (fst q))], time, snd q))
               (queries_of data)), with_inner s' d) ∧
    holds (with_inner s' d) m'.
Proof.
  intros Hh Hc Hrows Hroom Hnd Hqs. destruct (take_updates_ok d m m' (updates_of data) Hh Hc Hrows Hroom) as (s' & Hup & Hh').
  exists s'. split; [|done]. unfold index_step. rewrite (bind_eff _ _ _ _ _ Hup). cbv beta.
  rewrite (bind_eff _ _ _ (with_inner s' d) (with_inner s' d)) by done. cbv beta. unfold lift, mbind, eff_bind.
  rewrite (search_ok (with_inner s' d) m' _ Hh' Hnd Hqs). by rewrite map_map.
Qed.
End table.

(** ** The index of usearch *)

(** usearch keeps one vector per number, of those that have its dimensions, while it has
    room. *)
Class USearchLaws `{USearch} := {
  us_data : UIndex → gmap Z (list f64);
  us_fits : list f64 → bool;
  us_capacity_ok i : 0 ≤ us_capacity i;
  us_size_ok i : us_size i = Z.of_nat (size (us_data i));
  us_add_ok i id v : us_data i !! id = None → us_size i < us_capacity i → ∃ r i', us_add id v i = (r, i') ∧
    (∀ p, r ≠ Panic p) ∧ us_data i' = (if us_fits v then <[id := v]> (us_data i) else us_data i) ∧ us_capacity i' = us_capacity i;
  us_remove_ok i id : ∃ r i', us_remove id i = (r, i') ∧
    (∀ p, r ≠ Panic p) ∧ us_data i' = delete id (us_data i) ∧ us_capacity i' = us_capacity i;
  us_reserve_ok i n : us_size i ≤ n → ∃ i', us_reserve n i = (Ok tt, i') ∧ us_data i' = us_data i ∧ n ≤ us_capacity i'
}.

(** The mapper is a bijection between its keys and numbers below the next one. *)
Record mapper_ok (m : KeyToU64IdMapper) : Prop := {
  mo_inverse k id : key_to_id_map m !! k = Some id ↔ id_to_key_map m !! id = Some k;
  mo_below k id : key_to_id_map m !! k = Some id → 0 < id < next_id m;
  mo_next : 0 < next_id m
}.
Lemma mapper_get_ok `{Profile} m k : mapper_ok m → next_id m < U64_MAX →
  ∃ id m', get_noncolliding_u64_id k m = (Ok id, m') ∧ mapper_ok m' ∧ key_to_id_map m' = <[k := id]> (key_to_id_map m) ∧
    next_id m' ≤ next_id m + 1 ∧
    (key_to_id_map m !! k = Some id ∨ key_to_id_map m !! k = None ∧ id_to_key_map m !! id = None).
Proof.
  intros [Hinv Hbelow Hpos] Hmax. unfold get_noncolliding_u64_id. destruct (key_to_id_map m !! k) as [id|] eqn:Ek.
  - exists id, m. split; [done|]. split; [done|]. rewrite insert_id by done. split; [done|]. split; [lia|]. by left.
  - assert (u64_arith (next_id m + 1) = (Ok (next_id m + 1) : outcome unit Z)) as ->.
    { unfold u64_arith, in_u64. by rewrite (proj2 (andb_true_iff _ _)) by (rewrite !Z.leb_le; lia). }
    assert (id_to_key_map m !! next_id m = None) as Hfree.
    { apply eq_None_not_Some. intros [k' Hk']. apply Hinv, Hbelow in Hk'. lia. }
    eexists _, _. split; [done|]. split; [|split; [done|split; [cbn; lia|by right]]]. split; cbn.
    + intros k' id. rewrite !lookup_insert_Some, Hinv. split.
      * intros [[<- <-]|[Hne Hid]]; [by left|]. right. split; [|done]. intros <-. congruence.
      * intros [[<- <-]|[Hne Hid]]; [by left|]. right. split; [|done]. intros <-. apply Hinv in Hid. congruence.
    + intros k' id [[<- <-]|[_ Hid]]%lookup_insert_Some; [lia|]. apply Hbelow in Hid. lia.
    + lia.
Qed.
Lemma mapper_remove_ok m k : mapper_ok m →
  ∃ r m', remove_key k m = (Ok r, m') ∧ mapper_ok m' ∧ key_to_id_map m' = delete k (key_to_id_map m) ∧ next_id m' = next_id m ∧
    r = ok_or (key_to_id_map m !! k) (MissingKey k).
Proof.
  intros [Hinv Hbelow Hpos]. unfold remove_key. destruct (key_to_id_map m !! k) as [id|] eqn:Ek.
  - eexists _, _. split; [done|]. split; [|by split_and!]. split; cbn; [|intros ? ? [_ ?]%lookup_delete_Some; eauto|done].
    intros k' id'. rewrite !lookup_delete_Some, Hinv. split; intros [Hne Hid]; (split; [|done]); intros <-; apply Hne;
      [apply Hinv in Ek|apply Hinv in Hid]; congruence.
  - eexists _, m. split; [done|]. split; [done|]. by rewrite delete_id.
Qed.
Section usearch_refines.
Context `{USearchLaws, Profile}.
Implicit Types (s : USearchKNNIndex).
Definition usearch_inv s : Prop :=
  mapper_ok (us_mapper s) ∧ ∀ id, is_Some (us_data (us_index s) !! id) → is_Some (id_to_key_map (us_mapper s) !! id).
Definition usearch_contents s : gmap Key (list f64) := omap (λ id, us_data (us_index s) !! id) (key_to_id_map (us_mapper s)).

Lemma usearch_add_one_ok s k v : usearch_inv s → next_id (us_mapper s) < U64_MAX →
  us_size (us_index s) < us_capacity (us_index s) → usearch_contents s !! k = None →
  ∃ r s', usearch_add_one k v s = (Ok r, s') ∧ (∀ p, r ≠ Panic p) ∧ usearch_inv s' ∧
    usearch_contents s' = (if us_fits v then <[k := v]> (usearch_contents s) else usearch_contents s) ∧
    next_id (us_mapper s') ≤ next_id (us_mapper s) + 1 ∧ us_capacity (us_index s') = us_capacity (us_index s) ∧
    us_size (us_index s') ≤ us_size (us_index s) + 1.
Proof.
  intros [Hm Hdata] Hmax Hroom Hk. destruct (mapper_get_ok _ k Hm Hmax) as (id & m' & Hget & Hm' & Hmap & Hnext & Hid).
  assert (us_data (us_index s) !! id = None) as Hfree.
  { unfold usearch_contents in Hk. rewrite lookup_omap in Hk. destruct Hid as [Hid|[_ Hid]]; [by rewrite Hid in Hk|].
    apply eq_None_not_Some. intros Hs%Hdata. rewrite Hid in Hs. by destruct Hs. }
  destruct (us_add_ok _ _ v Hfree Hroom) as (r & i' & Hadd & Hr & Hd' & Hcap).
  assert (∀ id', id' ≠ id → us_data i' !! id' = us_data (us_index s) !! id') as Hother.
  { intros id' Hne. rewrite Hd'. destruct (us_fits v); [by rewrite lookup_insert_ne|done]. }
  assert (us_data i' !! id = if us_fits v then Some v else None) as Hat.
  { rewrite Hd'. destruct (us_fits v); [apply lookup_insert_eq|done]. }
  exists r, (mk_USearchKNNIndex i' m'). split.
  { unfold usearch_add_one. rewrite (bind_eff _ _ s id (with_us_mapper m' s)) by (unfold zoom; by rewrite Hget).
    unfold us_call, zoom, call. cbn [us_index with_us_mapper]. rewrite Hadd. destruct r; [done|done|by destruct (Hr msg)]. }
  split; [done|]. cbn [us_mapper us_index]. split; [split|split; [|split; [done|split; [done|]]]]; cbn [us_mapper us_index].
  - done.
  - intros id' [x Hx]. destruct (decide (id' = id)) as [->|Hne].
    + exists k. apply (mo_inverse _ Hm'). rewrite Hmap. apply lookup_insert_eq.
    + rewrite Hother in Hx by done. destruct (Hdata id') as [k' Hk']; [by eexists|]. exists k'. apply (mo_inverse _ Hm').
      rewrite Hmap. apply (mo_inverse _ Hm) in Hk'. rewrite lookup_insert_ne; [done|]. intros <-.
      destruct Hid as [Hid|[Hid _]]; congruence.
  - apply map_eq. intros k'. unfold usearch_contents. cbn [us_mapper us_index]. rewrite lookup_omap, Hmap.
    destruct (decide (k = k')) as [<-|Hne].
    + rewrite lookup_insert_eq. cbn [mbind option_bind]. rewrite Hat. destruct (us_fits v); [by rewrite lookup_insert_eq|].
      by rewrite <- Hk.
    + rewrite lookup_insert_ne by done.
      assert ((key_to_id_map (us_mapper s) !! k' ≫= λ id0, us_data i' !! id0) =
              (key_to_id_map (us_mapper s) !! k' ≫= λ id0, us_data (us_index s) !! id0)) as ->.
      { destruct (key_to_id_map (us_mapper s) !! k') as [id'|] eqn:Ek'; [|done]. cbn. apply Hother. intros ->.
        assert (key_to_id_map m' !! k' = Some id) as Hk1 by (rewrite Hmap; by rewrite lookup_insert_ne).
        assert (key_to_id_map m' !! k = Some id) as Hk2 by (rewrite Hmap; apply lookup_insert_eq).
        apply (mo_inverse _ Hm') in Hk1, Hk2. congruence. }
      rewrite <- lookup_omap. destruct (us_fits v); [by rewrite lookup_insert_ne|done].
  - rewrite !us_size_ok, Hd'. destruct (us_fits v); [rewrite map_size_insert_None by done|]; lia.
Qed.
Lemma usearch_remove_one_ok s k : usearch_inv s →
  ∃ r s', usearch_remove_one k s = (Ok r, s') ∧ (∀ p, r ≠ Panic p) ∧ usearch_inv s' ∧
    usearch_contents s' = delete k (usearch_contents s) ∧ next_id (us_mapper s') = next_id (us_mapper s) ∧
    us_capacity (us_index s') = us_capacity (us_index s) ∧ us_size (us_index s') ≤ us_size (us_index s).
Proof.
  intros [Hm Hdata]. destruct (mapper_remove_ok _ k Hm) as (rid & m' & Hrem & Hm' & Hmap & Hnext & ->).
  unfold usearch_remove_one. rewrite (bind_eff _ _ s (ok_or (key_to_id_map (us_mapper s) !! k) (MissingKey k)) (with_us_mapper m' s))
    by (unfold zoom; by rewrite Hrem).
  assert (∀ data : gmap Z (list f64), (∀ k' id', k' ≠ k → key_to_id_map (us_mapper s) !! k' = Some id' →
      data !! id' = us_data (us_index s) !! id') →
    omap (λ id, data !! id) (key_to_id_map m') = delete k (usearch_contents s)) as Hc.
  { intros data Hsame. apply map_eq. intros k'. rewrite lookup_omap, Hmap. destruct (decide (k = k')) as [<-|Hne].
    - by rewrite !lookup_delete_eq.
    - rewrite !lookup_delete_ne by done. unfold usearch_contents. rewrite lookup_omap.
      destruct (key_to_id_map (us_mapper s) !! k') as [id'|] eqn:E; [|done]. cbn. by apply (Hsame k'). }
  assert (∀ id', is_Some (us_data (us_index s) !! id') → key_to_id_map (us_mapper s) !! k ≠ Some id' →
    is_Some (id_to_key_map m' !! id')) as Hkeys.
  { intros id' [k' Hk']%Hdata Hne. exists k'. apply (mo_inverse _ Hm'). rewrite Hmap. apply (mo_inverse _ Hm) in Hk'.
    rewrite lookup_delete_ne; [done|]. by intros <-. }
  destruct (key_to_id_map (us_mapper s) !! k) as [id|] eqn:Ek; cbn [ok_or].
  - destruct (us_remove_ok (us_index s) id) as (r & i' & Hr & Hp & Hd & Hcap).
    exists r, (mk_USearchKNNIndex i' m'). split; [unfold us_call, zoom, call; cbn [us_index with_us_mapper]; rewrite Hr;
      destruct r; [done|done|by destruct (Hp msg)]|]. split; [done|]. split; [|split; [|split_and!; [done|done|]]].
    + split; [done|]. cbn. rewrite Hd. intros id' [x [Hne Hx]%lookup_delete_Some]. apply Hkeys; [by eexists|congruence].
    + apply (Hc (us_data i')). intros k' id' Hne Hid. rewrite Hd. apply lookup_delete_ne. intros <-.
      apply (mo_inverse _ Hm) in Ek, Hid. congruence.
    + cbn. rewrite !us_size_ok, Hd. apply inj_le, map_subseteq_size, delete_subseteq.
  - exists (Err (MissingKey k)), (with_us_mapper m' s). split; [done|]. split; [done|].
    split; [|split; [by apply (Hc (us_data (us_index s)))|by split_and!]]. split; [done|]. cbn. intros id' Hid. by apply Hkeys.
Qed.

Lemma usearch_adds_ok s (batch : list (Key * list f64)) : usearch_inv s →
  next_id (us_mapper s) + Z.of_nat (length batch) < U64_MAX →
  us_size (us_index s) + Z.of_nat (length batch) ≤ us_capacity (us_index s) →
  NoDup (map fst batch) → (∀ k, k ∈ map fst batch → usearch_contents s !! k = None) →
  ∃ rs s', eff_map (λ kd, r ← usearch_add_one (fst kd) (snd kd); mret (fst kd, r)) batch s = (Ok rs, s') ∧
    Forall (λ r, ∀ p, snd r ≠ Panic p) rs ∧ usearch_inv s' ∧
    usearch_contents s' = list_to_map (List.filter (λ e, us_fits (snd e)) batch) ∪ usearch_contents s.
Proof.
  revert s. induction batch as [|[k v] batch IH]; intros s Hi Hmax Hroom; cbn [map fst snd].
  { intros _ _. exists [], s. cbn. by rewrite map_empty_union. }
  intros [Hk Hnd]%NoDup_cons Hfree. cbn [length] in Hmax, Hroom.
  destruct (usearch_add_one_ok s k v Hi) as (r & s1 & Hadd & Hr & Hi1 & Hc1 & Hn1 & Hcap1 & Hs1); [lia|lia|apply Hfree; by left|].
  destruct (IH s1 Hi1) as (rs & s' & Hadds & Hrs & Hi' & Hc'); [lia|lia|done| |].
  { intros k' Hk'. rewrite Hc1. destruct (us_fits v); [rewrite lookup_insert_ne by (by intros ->)|]; apply Hfree; by right. }
  eexists _, s'. split; [|split; [|split; [done|]]].
  - cbn [eff_map fst snd]. rewrite (bind_eff _ _ s (k, r) s1) by (by rewrite (bind_eff _ _ _ _ _ Hadd)).
    by rewrite (bind_eff _ _ _ _ _ Hadds).
  - by constructor.
  - rewrite Hc', Hc1. cbn [List.filter snd]. destruct (us_fits v); [|done]. cbn [list_to_map foldr uncurry].
    rewrite <- insert_union_l, insert_union_r; [done|]. apply not_elem_of_list_to_map.
    intros Hin. apply Hk. eapply elem_of_sublist; [exact Hin|apply filter_keys].
Qed.
Lemma usearch_removes_ok s (keys : list Key) : usearch_inv s →
  ∃ rs s', usearch_remove keys s = (Ok rs, s') ∧ Forall (λ r, ∀ p, snd r ≠ Panic p) rs ∧ usearch_inv s' ∧
    usearch_contents s' = foldr delete (usearch_contents s) keys ∧ next_id (us_mapper s') = next_id (us_mapper s) ∧
    us_capacity (us_index s') = us_capacity (us_index s) ∧ us_size (us_index s') ≤ us_size (us_index s).
Proof.
  unfold usearch_remove. revert s. induction keys as [|k keys IH]; intros s Hi; [by exists [], s|].
  destruct (usearch_remove_one_ok s k Hi) as (r & s1 & Hrem & Hr & Hi1 & Hc1 & Hn1 & Hcap1 & Hs1).
  destruct (IH s1 Hi1) as (rs & s' & Hrems & Hrs & Hi' & Hc' & Hn' & Hcap' & Hs'). eexists _, s'. split.
  - cbn [eff_map]. rewrite (bind_eff _ _ s (k, r) s1) by (by rewrite (bind_eff _ _ _ _ _ Hrem)).
    by rewrite (bind_eff _ _ _ _ _ Hrems).
  - split; [by constructor|]. split; [done|]. split; [|split_and!; [congruence|congruence|lia]]. rewrite Hc', Hc1. cbn [foldr].
    clear. induction keys as [|k' keys IH]; [done|]. cbn. by rewrite IH, delete_delete.
Qed.
Definition usearch_room s (n : nat) : Prop :=
  next_id (us_mapper s) + Z.of_nat n < U64_MAX ∧ us_size (us_index s) + Z.of_nat n ≤ U64_MAX ∧ 2 * us_capacity (us_index s) ≤ U64_MAX.
Lemma u64_arith_in z : 0 ≤ z ≤ U64_MAX → u64_arith z = (Ok z : outcome unit Z).
Proof. intros Hz. unfold u64_arith, in_u64. by rewrite (proj2 (andb_true_iff _ _)) by (rewrite !Z.leb_le; lia). Qed.
Lemma make_room_ok s n : usearch_inv s → usearch_room s n → ∃ s', usearch_make_room (Z.of_nat n) s = (Ok tt, s') ∧
  usearch_inv s' ∧ usearch_contents s' = usearch_contents s ∧ us_mapper s' = us_mapper s ∧
  us_size (us_index s') + Z.of_nat n ≤ us_capacity (us_index s').
Proof.
  intros [Hm Hd] (Hn & Hs & Hcap). pose proof (us_capacity_ok (us_index s)) as Hpos. pose proof (us_size_ok (us_index s)) as Hsize.
  unfold usearch_make_room. rewrite (bind_eff _ _ s (us_index s) s) by done.
  rewrite (bind_eff _ _ s (us_size (us_index s) + Z.of_nat n) s) by (unfold lift; by rewrite u64_arith_in by lia).
  destruct (Z.ltb_spec (us_capacity (us_index s)) (us_size (us_index s) + Z.of_nat n)) as [Hlt|Hle]; [|by exists s; split_and!].
  rewrite (bind_eff _ _ s (2 * us_capacity (us_index s)) s) by (unfold lift; by rewrite u64_arith_in by lia).
  destruct (us_reserve_ok (us_index s) (Z.max (2 * us_capacity (us_index s)) (us_size (us_index s) + Z.of_nat n)))
    as (i' & Hr & Hd' & Hc'); [lia|].
  rewrite (bind_eff _ _ s (Ok tt) (with_us_index i' s)) by (unfold us_call, zoom, call; by rewrite Hr).
  exists (with_us_index i' s). split; [done|]. split; [split; [done|]; cbn; by rewrite Hd'|].
  unfold usearch_contents. cbn. rewrite !us_size_ok, Hd', <- us_size_ok. split_and!; [done|done|lia].
Qed.

(** The index of usearch keeps the promises of an index, whatever numbers its mapper
    hands out. *)
#[export] Program Instance usearch_laws : IndexLaws (list f64) (list f64) USearchKNNIndex := {
  ix_inv := usearch_inv;
  ix_contents := usearch_contents;
  ix_accepts := us_fits;
  ix_room := usearch_room
}.
Next Obligation. intros s n n' Hle (? & ? & ?). unfold usearch_room. lia. Qed.
Next Obligation.
  cbn. intros s batch Hi Hroom Hnd Hfree. destruct (make_room_ok s (length batch) Hi Hroom) as (s1 & Hr & Hi1 & Hc1 & Hm1 & Hsize).
  destruct (usearch_adds_ok s1 batch Hi1) as (rs & s' & Hadd & ? & ? & Hc'); [rewrite Hm1; apply Hroom|done|done|by rewrite Hc1|].
  exists rs, s'. unfold usearch_add. rewrite (bind_eff _ _ _ _ _ Hr). rewrite <- Hc1. by split_and!.
Qed.
Next Obligation.
  cbn. intros s keys Hi. destruct (usearch_removes_ok s keys Hi) as (rs & s' & Hr & Hrs & Hi' & Hc & Hn & Hcap & Hs).
  exists rs, s'. split_and!; try done. intros n (? & ? & ?). unfold usearch_room. rewrite Hn, Hcap. lia.
Qed.
End usearch_refines.

(** ** A small index *)

Module Brute.
(** The rows in the order of their insertion; a query ranks the rows that begin with
    its text in that order. *)
Definition Rows : Type := list (Key * string).
Definition add_row (e : Key * string) : eff Rows unit (Key * DynResult unit) := λ i, (Ok (fst e, Ok tt), i ++ [e]).
Definition remove_row (k : Key) : eff Rows unit (Key * DynResult unit) := λ i,
  (Ok (k, if existsb (λ e, bool_decide (fst e = k)) i then Ok tt else Err (MissingKey k)),
   List.filter (λ e, bool_decide (fst e ≠ k)) i).
Definition ranking (i : Rows) (q : string) : list KeyScoreMatch :=
  map (λ e, mk_KeyScoreMatch (fst e) f64_zero) (List.filter (λ e, String.prefix q (snd e)) i).
#[export] Instance rows_index : NonFilteringExternalIndex string string Rows := {
  nf_add := eff_map add_row;
  nf_remove := eff_map remove_row;
  nf_search i qs := Ok (map (λ q, (fst (fst q), Ok (take (Z.to_nat (snd q)) (ranking i (snd (fst q)))))) qs)
}.
Lemma add_rows_ok batch i : eff_map add_row batch i = (Ok (map (λ e, (fst e, Ok tt)) batch), i ++ batch).
Proof.
  rewrite (eff_map_state add_row (λ e, (fst e, Ok tt)) (λ i e, i ++ [e])) by done. f_equal.
  revert i. induction batch as [|e batch IH]; intros i; cbn [foldl]; [by rewrite app_nil_r|]. by rewrite IH, <- app_assoc.
Qed.
Lemma remove_row_contents (i : Rows) k :
  list_to_map (M := gmap Key string) (List.filter (λ e, bool_decide (fst e ≠ k)) i) = delete k (list_to_map i).
Proof.
  induction i as [|[k' x] i IH]; cbn; [by rewrite delete_empty|]. case_bool_decide as E; cbn.
  - by rewrite IH, delete_insert_ne.
  - subst k'. by rewrite IH, delete_insert_eq.
Qed.
Lemma remove_rows_ok ks i : ∃ rs i', eff_map remove_row ks i = (Ok rs, i') ∧ Forall (λ r, ∀ p, snd r ≠ Panic p) rs ∧
  sublist (map fst i') (map fst i) ∧ list_to_map (M := gmap Key string) i' = foldr delete (list_to_map i) ks.
Proof.
  revert i. induction ks as [|k ks IH]; intros i; [by exists [], i|]. cbn [eff_map foldr].
  destruct (IH (List.filter (λ e, bool_decide (fst e ≠ k)) i)) as (rs & i' & Hr & Hrs & Hsub & Hc).
  eexists _, i'. rewrite (bind_eff (remove_row k) _ i _ _ eq_refl), (bind_eff _ _ _ _ _ Hr). split; [done|]. split.
  - constructor; [|done]. intros p. cbn. by destruct (existsb _ i).
  - split; [etrans; [exact Hsub|apply filter_keys]|]. rewrite Hc, remove_row_contents.
    clear. induction ks as [|k' ks IH]; [done|]. cbn. by rewrite IH, delete_delete.
Qed.
#[export] Program Instance rows_laws : IndexLaws string string Rows := {
  ix_inv i := NoDup (map fst i) ∧ Z.of_nat (length i) < 2 ^ 63;
  ix_contents i := list_to_map i;
  ix_accepts _ := true;
  ix_room i n := Z.of_nat (length i + n) < 2 ^ 63
}.
Next Obligation. cbn. lia. Qed.
Next Obligation.
  cbn. intros i batch [Hnd Hlen] Hroom Hbatch Hfree. rewrite add_rows_ok. eexists _, _. split; [done|].
  assert (List.filter (λ _ : Key * string, true) batch = batch) as -> by (clear; induction batch; cbn; congruence).
  split; [|split; [split|]].
  - apply Forall_forall. intros r (e & -> & _)%list_elem_of_fmap p. done.
  - rewrite map_app. apply NoDup_app. split; [done|]. split; [|done]. intros k Hk Hk'.
    apply Hfree, not_elem_of_list_to_map in Hk'. done.
  - rewrite length_app. lia.
  - rewrite list_to_map_app. apply map_union_comm. apply map_disjoint_spec. intros k x y Hx Hy.
    apply elem_of_list_to_map_2 in Hy.
    assert (k ∈ map fst batch) as Hk by (apply list_elem_of_fmap; by exists (k, y)).
    apply Hfree in Hk. congruence.
Qed.
Next Obligation.
  cbn. intros i keys [Hnd Hlen]. destruct (remove_rows_ok keys i) as (rs & i' & Hr & Hrs & Hsub & Hc). exists rs, i'.
  pose proof (sublist_length _ _ Hsub) as Hl. rewrite !length_map in Hl.
  split; [done|]. split; [done|]. split; [split; [by eapply sublist_NoDup|lia]|]. split; [intros n; lia|done].
Qed.
#[export] Program Instance rows_ranked : RankedLaws string string Rows := { ix_rank i q := Ok (ranking i q) }.
Next Obligation. done. Qed.
Next Obligation. done. Qed.
Next Obligation.
  cbn. intros i q l m [Hnd _] [= <-] (e & -> & He%list_elem_of_In%filter_In)%list_elem_of_fmap. cbn.
  destruct (list_to_map i !! fst e) eqn:E; [by eexists|]. apply not_elem_of_list_to_map in E. destruct E.
  apply list_elem_of_fmap. exists e. split; [done|]. by apply list_elem_of_In, (proj1 He).
Qed.
Next Obligation.
  cbn. intros i q l [_ Hlen] [= <-]. unfold ranking. rewrite length_map.
  pose proof (filter_length_le (λ e, String.prefix q (snd e)) i). lia.
Qed.
(** Filters are texts to compare with. *)
#[export] Instance jmespath : JmesPath := {|
  JVariable := JsonValue;
  JExpression := string;
  jp_compile _ s := Ok s;
  jp_search e v := Ok (JBool (match v with JString x => String.eqb x e | _ => false end));
  jp_as_boolean v := match v with JBool b => Some b | _ => None end;
  jp_as_string v := match v with JString s => Some s | _ => None end;
  jp_bool := JBool;
  json_to_jmespath v := Ok v
|}.
#[export] Instance patterns : GlobPattern := λ p, Some (String.eqb p).
#[export] Instance profile : Profile := true.
#[export] Instance tolerant_mode : ErrorMode := false.
End Brute.
Import Brute.

Definition fruit (name colour : string) : Value := VTuple [VString name; VJson (mk_Handle (mk_Key 0) (JString colour))].
Definition fruit_query (prefix : string) (limit : Z) (colour : Value) : Value := VTuple [VString prefix; VInt limit; colour].
Definition fruit_index (i : DerivedFilteredSearchIndex Rows) : IndexDerivedImpl (DerivedFilteredSearchIndex Rows) :=
  mk_IndexDerivedImpl i (make_accessor (ValuePath [0%nat])) (make_option_accessor (Some (ValuePath [1%nat])))
    (make_accessor (ValuePath [0%nat])) (make_option_accessor (Some (ValuePath [1%nat]))) (make_option_accessor (Some (ValuePath [2%nat]))).
Definition stocked : DerivedFilteredSearchIndex Rows :=
  mk_DerivedFilteredSearchIndex {[mk_Key 1 := JString "red"; mk_Key 2 := JString "green"; mk_Key 3 := JString "red"]}
    [(mk_Key 1, "apple"); (mk_Key 2, "apricot"); (mk_Key 3, "apple pie")]%string.
Definition stocked_queries : list QueryEntry :=
  [mk_QueryEntry (mk_Key 10) (VString "app") (Some (VInt 5)) None;
   mk_QueryEntry (mk_Key 11) (VString "ap") (Some (VInt 1)) (Some (VString "green"));
   mk_QueryEntry (mk_Key 12) (VInt 7) None None].

(** The first match is not green, so that the second query needs another round. *)
Example stocked_answers : (map (λ r, (fst r, match snd r with Ok (VTuple l) => length l | _ => 100%nat end))) <$>
  (match ei_search stocked stocked_queries with Ok r => Some r | _ => None end) =
  Some [(mk_Key 12, 100%nat); (mk_Key 10, 2%nat); (mk_Key 11, 1%nat)].
Proof. vm_compute. reflexivity. Qed.

Lemma filtered_search_answers_witness :
  ∃ rs, ei_search stocked stocked_queries = Ok rs ∧ rs ≡ₚ map (λ q, (qe_key q, expected stocked q)) stocked_queries.
Proof.
  apply filtered_search_answers.
  - split; [|done]. apply (bool_decide_unpack _). vm_compute. done.
  - apply Forall_forall. intros q Hq. unfold stocked_queries in Hq. rewrite !elem_of_cons, elem_of_nil in Hq.
    destruct Hq as [->|[->|[->|[]]]]; (split; [done|]); intros point limit filter [= <- <- <-]; (split; [done|]); [done|].
    intros f l [= <-] [= <-] m Hm. cbn in Hm. rewrite !elem_of_cons, elem_of_nil in Hm.
    destruct Hm as [->|[->|[->|[]]]]; by eexists.
Defined.

Definition fruit_events : list IndexEvent :=
  [IndexUpdate (mk_Key 1, fruit "apple" "red", 1); IndexQuery (mk_Key 10, fruit_query "ap" 1 (VString "green"), 1);
   IndexUpdate (mk_Key 2, fruit "apricot" "green", 1)]%string.
Definition fruit_table : gmap Key Value := {[mk_Key 1 := fruit "apple" "red"; mk_Key 2 := fruit "apricot" "green"]}.
Lemma fruit_change : index_change ∅ (updates_of fruit_events) fruit_table.
Proof.
  cbn. split.
  - intros k v diff. rewrite !elem_of_cons, elem_of_nil. intros [[= _ _ ->]|[[= _ _ ->]|[]]]; lia.
  - intros k v diff _ _. left. apply lookup_empty.
  - apply (bool_decide_unpack _). vm_compute. done.
  - intros k v. unfold fruit_table. rewrite lookup_insert_Some, lookup_singleton_Some, lookup_empty. split.
    + intros [[<- <-]|[_ [<- <-]]]; left; exists 1; (split; [|done]); [by left|right; by left].
    + intros [(diff & Hin & _)|[? _]]; [|done]. rewrite !elem_of_cons, elem_of_nil in Hin.
      destruct Hin as [[= -> -> _]|[[= -> -> _]|[]]]; [by left|by right].
Qed.
Lemma index_answers_as_of_now_witness :
  let d := fruit_index (filtered_new []) in
  ∃ s', index_step 0 fruit_events d =
      (Ok [(mk_Key 10, VTuple [fruit_query "ap" 1 (VString "green");
                               answer (with_inner s' d) (mk_Key 10) (fruit_query "ap" 1 (VString "green"))], 0, 1)], with_inner s' d) ∧
    holds (with_inner s' d) fruit_table.
Proof.
  apply (index_answers_as_of_now eq_refl 0 fruit_events (fruit_index (filtered_new [])) ∅ fruit_table).
  - split; [by split; [constructor|]| |]; [|done]. intros k x. cbn. rewrite lookup_empty. split; [done|].
    intros (v & u & Hv & _). by rewrite lookup_empty in Hv.
  - exact fruit_change.
  - repeat constructor; eexists _, _; (split; [vm_compute; reflexivity|]); (split; [vm_compute; reflexivity|]); by split.
  - by vm_compute.
  - by repeat constructor; intros ?%elem_of_nil.
  - apply Forall_cons. split; [|constructor]. split; [by eexists _, _, _|]. intros q Hq. vm_compute in Hq. injection Hq as <-.
    split; [done|]. intros point limit filter [= <- <- <-]. split; [done|]. intros f [= <-] k v x u Hv Hi.
    unfold fruit_table in Hv. rewrite lookup_insert_Some, lookup_singleton_Some in Hv.
    destruct Hv as [[<- <-]|[_ [<- <-]]]; vm_compute in Hi; injection Hi as <- <-; by eexists _, _, _.
Defined.

(** Two queries of one key, as when a query is replaced: the second one is answered with
    an error. *)
Example replaced_query :
  (map (λ r, (snd (fst r), snd r))) <$>
  (match search (fruit_index stocked) [(mk_Key 10, fruit_query "app" 1 VNone, -1); (mk_Key 10, fruit_query "apr" 1 VNone, 1)] with
   | Ok r => Some r | _ => None end) =
  Some [(VTuple [fruit_query "app" 1 VNone; VTuple [VTuple [VPointer (mk_Key 2); VFloat f64_zero]]], -1);
        (VTuple [fruit_query "apr" 1 VNone; VError], 1)].
Proof. vm_compute. reflexivity. Qed.
