(* ===== verification/Group.v ===== *)
(** Grouping, deduplication, sorting and expressions as table operators
    (src/engine/dataflow.rs: [trait DataflowReducer] and its implementations,
    [create_dataflow_reducer], [group_by_table], [deduplicate], [sort_table],
    [expression_table], [async_apply_table]).

    Stateful reducers depend on the order in which the rows arrive, so the input of a
    grouping is the list of its batches, the updates of each time; the output is what
    has accumulated after the last one.  The other reducers only see the concatenation
    of the batches. *)
From Stdlib Require Import ZArith Lia Bool.
From stdpp Require Import base list strings gmap.
From S2P Require Import Prelude Order Float Text Data Externals Value Weights Expression Reduce Timestamp.
From S2P Require Import TimeColumn Snapshot PrevNext Output Table.
Open Scope Z_scope.

(** ** Reducers of the graph *)

Inductive Reducer :=
| Reducer_Count
| Reducer_FloatSum
| Reducer_IntSum
| Reducer_ArraySum
| Reducer_Unique
| Reducer_Min
| Reducer_ArgMin
| Reducer_Max
| Reducer_ArgMax
| Reducer_SortedTuple (skip_nones : bool)
| Reducer_Tuple (skip_nones : bool)
| Reducer_Any
| Reducer_Stateful (combine_fn : option Value → list (list Value * Z) → DynResult (option Value))
| Reducer_Earliest
| Reducer_Latest.
Record ReducerData := mk_ReducerData { reducer : Reducer; skip_errors : bool; column_paths : list ColumnPath }.

(** The type of scopes in which times are totally ordered or not. *)
Inductive MaybeTotal := Total | NotTotal.
Inductive CreateError := NotSupportedInIteration.

Section group.
Context `{Profile, XxHash, Python, SerdeJson, Chrono, Ndarray, ErrorMode}.

Abbreviation Table := (Coll (Key * Value)).
(** Rows with their own key, the key of their group and the reduced values. *)
Abbreviation Extracted := (Coll (Key * Key * list Value)).
Definition DataflowReducer : Type := list Extracted → outcome unit Table.

(** [.ok_with_logger(error_logger)]. *)
Definition log_result {A} (r : DynResult A) : outcome unit (option A) := unwrap_or_log (Some <$> r) None.

(** ** [impl DataflowReducer for R: ReducerImpl] *)

Section reducer_impl.
Context (R : ReducerImpl) `{Ord (State R)}.

(** ["DataFlowReducer::reduce::init"]. *)
Definition reducer_init (source_key : Key) (values : list Value) : outcome unit (option (State R)) :=
  if row_contains_error values then Ok None else log_result (init R source_key values).
Definition reducer_logic (_key : Key) (input : list (option (State R) * Z))
    : outcome unit (list (option (State R) * Z)) :=
  result ← match all_some R input with
           | None => Ok None
           | Some items => log_result (combine R items)
           end;
  Ok [(result, 1)].
Definition reducer_finish (state : option (State R)) : Value :=
  match state with Some state => finish R state | None => VError end.
Definition ReducerImpl_reduce : DataflowReducer := λ batches,
  initialized ← map_coll (λ row, let '(source_key, result_key, values) := row in
    state ← reducer_init source_key values; Ok (result_key, state)) (concat batches);
  reduced ← reduce reducer_logic initialized;
  Ok (map (λ e, ((fst (fst e), reducer_finish (snd (fst e))), snd e)) reduced).
End reducer_impl.

(** ** [impl DataflowReducer for IntSumReducer] *)

Definition int_sum_state (source_key : Key) (values : list Value) : outcome unit IntSumState :=
  if row_contains_error values then Ok int_sum_error
  else
    value ← unwrap_with_reporter (index0 values);
    unwrap_or_log (int_sum_init source_key value) int_sum_error.
(** [count] of a collection whose differences are the states: the differences of
    a key are added, and a key with difference zero is left out. *)
Definition nonzero_state (current : Key * IntSumState) : list (Key * IntSumState) :=
  if int_sum_is_zero (snd current) then [] else [current].
Fixpoint sum_runs (current : Key * IntSumState) (rest : list (Key * IntSumState))
    : outcome unit (list (Key * IntSumState)) :=
  match rest with
  | [] => Ok (nonzero_state current)
  | next :: rest =>
      if decide (fst current = fst next) then
        s ← unwrap_with_reporter (int_sum_plus_equals (snd current) (snd next));
        sum_runs (fst current, s) rest
      else
        r ← sum_runs next rest; Ok (nonzero_state current ++ r)
  end.
Definition count_states (c : list (Key * IntSumState)) : outcome unit (list (Key * IntSumState)) :=
  match sort_by (λ x y, cmp (fst x) (fst y)) c with [] => Ok [] | e :: es => sum_runs e es end.
Definition IntSumReducer_reduce : DataflowReducer := λ batches,
  states ← map_coll (λ row, let '(source_key, result_key, values) := row in
    state ← int_sum_state source_key values; Ok (result_key, state)) (concat batches);
  exploded ← try_collect (λ e : Key * IntSumState * Z,
    s ← unwrap_with_reporter (int_sum_multiply (snd (fst e)) (snd e)); Ok (fst (fst e), s)) states;
  counted ← count_states exploded;
  Ok (map (λ e, ((fst e, int_sum_finish (snd e)), 1)) counted).

(** ** [impl DataflowReducer for CountReducer] *)

Definition CountReducer_reduce : DataflowReducer := λ batches,
  let keyed : Coll Key := map (λ e : Key * Key * list Value * Z, (snd (fst (fst e)), snd e)) (concat batches) in
  Ok (map (λ e, ((fst e, VInt (snd e)), 1)) (consolidate keyed)).

(** ** The stateful reducers *)

(** [stateful_reduce_named] on a batch of updates of one time. *)
Section stateful.
Context {V : Type} `{Ord V}.
Context (logic : option Value → list (V * Z) → DynResult (option Value)).

Definition stateful_step (state_by_key : gmap Key Value) (time : Z) (batch : Coll (Key * V))
    : outcome unit (Table * gmap Key Value) :=
  let arranged := map (λ g, (fst g, map (λ vw, (fst vw, [(time, snd vw)])) (snd g))) (group_by_key (consolidate batch)) in
  ' (out, state_by_key) ← unwrap_with_reporter (stateful_batch Value_eqb logic state_by_key arranged);
  Ok (map (λ o, (fst (fst o), snd o)) out, state_by_key).
Fixpoint stateful_reduce (state_by_key : gmap Key Value) (time : Z) (batches : list (Coll (Key * V)))
    : outcome unit (Table * gmap Key Value) :=
  match batches with
  | [] => Ok ([], state_by_key)
  | batch :: batches =>
      ' (out, state_by_key) ← stateful_step state_by_key time batch;
      ' (rest, state_by_key) ← stateful_reduce state_by_key (time + 1) batches;
      Ok (out ++ rest, state_by_key)
  end.
End stateful.

(** A logged error, seen by the logic of the operator. *)
Definition logged {A} (r : outcome unit A) : DynResult A :=
  match r with Ok a => Ok a | Err _ => Panic "error reported" | Panic p => Panic p end.
Definition StatefulReducer_reduce (combine_fn : option Value → list (list Value * Z) → DynResult (option Value))
    : DataflowReducer := λ batches,
  let combine state values := logged (unwrap_or_log (combine_fn state values) (Some VError)) in
  r ← stateful_reduce (stateful_reducer_logic combine) ∅ 0
        (map (map (λ e : Key * Key * list Value * Z, ((snd (fst (fst e)), snd (fst e)), snd e))) batches);
  Ok (fst r).
Definition with_source_key (e : Key * Key * list Value * Z) : Key * (Key * list Value) * Z :=
  let '(source_key, result_key, values, diff) := e in ((result_key, (source_key, values)), diff).
Definition LatestReducer_reduce : DataflowReducer := λ batches,
  r ← stateful_reduce latest_logic ∅ 0 (map (map with_source_key) batches); Ok (fst r).
Definition EarliestReducer_reduce : DataflowReducer := λ batches,
  r ← stateful_reduce earliest_logic ∅ 0 (map (map with_source_key) batches); Ok (fst r).

(** ** [create_dataflow_reducer] *)

Definition create_not_total (r : Reducer) : outcome CreateError DataflowReducer :=
  match r with
  | Reducer_Count => Ok CountReducer_reduce
  | Reducer_FloatSum => Ok (ReducerImpl_reduce (of_unary FloatSumReducer))
  | Reducer_IntSum => Ok IntSumReducer_reduce
  | Reducer_ArraySum => Ok (ReducerImpl_reduce (of_unary ArraySumReducer))
  | Reducer_Unique => Ok (ReducerImpl_reduce (of_unary UniqueReducer))
  | Reducer_Min => Ok (ReducerImpl_reduce (of_unary MinReducer))
  | Reducer_ArgMin => Ok (ReducerImpl_reduce (of_unary ArgMinReducer))
  | Reducer_Max => Ok (ReducerImpl_reduce (of_unary MaxReducer))
  | Reducer_ArgMax => Ok (ReducerImpl_reduce (of_unary ArgMaxReducer))
  | Reducer_SortedTuple skip_nones => Ok (ReducerImpl_reduce (of_unary (SortedTupleReducer skip_nones)))
  | Reducer_Tuple skip_nones => Ok (ReducerImpl_reduce (TupleReducer skip_nones))
  | Reducer_Any => Ok (ReducerImpl_reduce (of_unary AnyReducer))
  | Reducer_Stateful _ | Reducer_Earliest | Reducer_Latest => Err NotSupportedInIteration
  end.
Definition create_total (r : Reducer) : outcome CreateError DataflowReducer :=
  match r with
  | Reducer_Stateful combine_fn => Ok (StatefulReducer_reduce combine_fn)
  | Reducer_Earliest => Ok EarliestReducer_reduce
  | Reducer_Latest => Ok LatestReducer_reduce
  | other => create_not_total other
  end.
Definition create_dataflow_reducer (scope : MaybeTotal) : Reducer → outcome CreateError DataflowReducer :=
  match scope with Total => create_total | NotTotal => create_not_total end.

(** ** [group_by_table] *)

Definition group_key (grouping_columns_paths : list ColumnPath) (shard_policy : ShardPolicy) (set_id : bool)
    (row : Key * Value) : outcome unit (option Key) :=
  new_key_parts ← extract_all grouping_columns_paths (fst row) (snd row);
  if row_contains_error new_key_parts then _ ← log_error ErrorInGroupby; Ok None
  else if set_id then
    first ← unwrap (head new_key_parts);
    p ← unwrap_with_reporter (as_pointer first); Ok (Some p)
  else k ← unwrap_with_reporter (generate_key shard_policy new_key_parts); Ok (Some k).
Definition with_new_key grouping_columns_paths shard_policy set_id (batch : Table) : outcome unit (Coll (Key * Key * Value)) :=
  flat_map_coll (λ row,
    new_key ← group_key grouping_columns_paths shard_policy set_id row;
    Ok (match new_key with Some new_key => [(fst row, new_key, snd row)] | None => [] end)) batch.
Definition with_extracted_value (data : ReducerData) (batch : Coll (Key * Key * Value)) : outcome unit Extracted :=
  flat_map_coll (λ row, let '(key, new_key, values) := row in
    new_values ← extract_all (column_paths data) key values;
    Ok (if row_contains_error new_values && skip_errors data then [] else [(key, new_key, new_values)])) batch.
Definition reduced_column (keyed : list (Coll (Key * Key * Value))) (rd : DataflowReducer * ReducerData) : outcome unit Table :=
  batches ← try_collect (with_extracted_value (snd rd)) keyed; fst rd batches.
Definition join_columns (first : Table) (others : list Table) : Coll (Key * list Value) :=
  foldl (λ joined column, join_core joined column (λ key values value, [(key, values ++ [value])]))
    (map (λ e, ((fst (fst e), [snd (fst e)]), snd e)) first) others.
Definition group_by_table (scope : MaybeTotal) (batches : list Table) (grouping_columns_paths : list ColumnPath)
    (shard_policy : ShardPolicy) (reducers : list ReducerData) (set_id : bool) : outcome CreateError (outcome unit Table) :=
  if set_id && negb (length grouping_columns_paths =? 1)%nat
  then Panic "assertion failed: grouping_columns_paths.len() == 1" else
  reducer_impls ← try_collect (λ data, create_dataflow_reducer scope (reducer data)) reducers;
  Ok (
    keyed ← try_collect (with_new_key grouping_columns_paths shard_policy set_id) batches;
    reduced_columns ← try_collect (reduced_column keyed) (zip reducer_impls reducers);
    match reduced_columns with
    | first :: others =>
        Ok (map (λ e, ((fst (fst e), VTuple (snd (fst e))), snd e)) (join_columns first others))
    | [] =>
        Ok (distinct (map (λ e : Key * Key * Value * Z, ((snd (fst (fst e)), VTuple []), snd e)) (concat keyed)))
    end).

(** ** [deduplicate] *)

Definition dedup_row (grouping_columns_paths reduced_column_paths : list ColumnPath) (row : Key * Value)
    : outcome unit (list (Key * list Value)) :=
  new_key_parts ← extract_all grouping_columns_paths (fst row) (snd row);
  if row_contains_error new_key_parts then _ ← log_error ErrorInDeduplicate; Ok []
  else
    new_values ← extract_all reduced_column_paths (fst row) (snd row);
    new_key ← unwrap_with_reporter (for_values new_key_parts);
    Ok [(new_key, new_values)].
(** The function that the Python library passes for [combine_fn], for the [acceptor] of its
    user; values go through Python unchanged. *)
Fixpoint is_different_with_state (acceptor : Value → Value → DynResult bool) (state : option Value)
    (rows : list (list Value * Z)) : DynResult (option Value) :=
  match rows with
  | [] => Ok state
  | ([], _) :: _ => Err (ValueError "not enough values to unpack")
  | (col :: cols, difference) :: rows =>
      if (difference <=? 0) || Value_eqb col VError then is_different_with_state acceptor state rows
      else
        state_val ← match state with
                    | None => Ok VNone
                    | Some (VTuple (val :: _)) => Ok val
                    | Some _ => Err (ValueError "the state has no first element")
                    end;
        accepted ← match state_val with VNone => Ok true | _ => acceptor col state_val end;
        is_different_with_state acceptor (if accepted : bool then Some (VTuple (col :: cols)) else state) rows
  end.
(** An error of the user's function is logged and leaves the state as it is. *)
Definition dedup_logic (combine_fn : option Value → list (list Value * Z) → DynResult (option Value))
    (state : option Value) (values : list (list Value * Z)) : DynResult (option Value) :=
  logged (unwrap_or_log (combine_fn state values) state).
(** The writer of the state: [inspect_core] on the consolidated output of a time. *)
Definition dedup_event (e : Key * Value * Z) : outcome unit Event :=
  let '((key, values), diff) := e in
  if (diff =? 1) || (diff =? -1) then
    values_vec ← unwrap_with_reporter (as_tuple values);
    Ok (if diff =? 1 then Insert key values_vec else Delete key values_vec)
  else Panic "assertion failed: *diff == 1 || *diff == -1".
Definition is_artificial (time : Timestamp) : bool := (ts_0 time =? ts_0 ARTIFICIAL_TIME_ON_REWIND_START)%N.
Definition dedup_events (time : Timestamp) (output : Table) : outcome unit (list Event) :=
  if is_artificial time then Ok [] else try_collect dedup_event (consolidate output).
Definition dedup_frontier (frontier : list Timestamp) : outcome unit (list Event) :=
  match frontier with
  | [] => Ok []
  | [time] => Ok [AdvanceTime time OffsetAntichain_new]
  | _ => Panic "assertion failed: frontier.len() <= 1"
  end.
(** [read_persisted_state]: the collection of the events of the snapshot. *)
Definition read_persisted_event (e : Event) : outcome unit (Key * list Value * Z) :=
  match e with
  | Insert key values => Ok ((key, values), 1)
  | Delete key values => Ok ((key, values), -1)
  | Upsert _ _ | AdvanceTime _ _ | Finished => Panic "internal error: entered unreachable code"
  end.
Definition read_persisted_state (events : list Event) : outcome unit (Coll (Key * list Value)) :=
  try_collect read_persisted_event events.

(** What reaches the operator: the rows of a time, or progress of the frontier. *)
Inductive DedupInput := Rows (time : Timestamp) (batch : Table) | Progress (frontier : list Timestamp).

Section deduplicate.
Context (grouping_columns_paths reduced_column_paths : list ColumnPath).
Context (combine_fn : option Value → list (list Value * Z) → DynResult (option Value)).

(** The rows of the artificial time of a rewind are skipped. *)
Definition dedup_rows (time : Timestamp) (batch : Table) : outcome unit (Coll (Key * list Value)) :=
  rows ← flat_map_coll (dedup_row grouping_columns_paths reduced_column_paths) batch;
  Ok (if is_artificial time then [] else rows).
(** One time: the output, the events written and the new states. *)
Definition dedup_time (state_by_key : gmap Key Value) (time : Timestamp) (rows : Coll (Key * list Value))
    : outcome unit (Table * list Event * gmap Key Value) :=
  ' (out, state_by_key) ← stateful_step (dedup_logic combine_fn) state_by_key (Z.of_N (ts_0 time)) rows;
  events ← dedup_events time out;
  Ok (out, events, state_by_key).
Definition dedup_input (state_by_key : gmap Key Value) (i : DedupInput)
    : outcome unit (Table * list Event * gmap Key Value) :=
  match i with
  | Rows time batch => rows ← dedup_rows time batch; dedup_time state_by_key time rows
  | Progress frontier => events ← dedup_frontier frontier; Ok ([], events, state_by_key)
  end.
Fixpoint dedup_inputs (state_by_key : gmap Key Value) (inputs : list DedupInput)
    : outcome unit (Table * list Event * gmap Key Value) :=
  match inputs with
  | [] => Ok ([], [], state_by_key)
  | i :: inputs =>
      ' (out, events, state_by_key) ← dedup_input state_by_key i;
      ' (rest, rest_events, state_by_key) ← dedup_inputs state_by_key inputs;
      Ok (out ++ rest, events ++ rest_events, state_by_key)
  end.
(** A run with persistence: the persisted rows come at the artificial time. *)
Definition deduplicate (persisted : list Event) (inputs : list DedupInput)
    : outcome unit (Table * list Event * gmap Key Value) :=
  state ← read_persisted_state persisted;
  ' (out, events, state_by_key) ← dedup_time ∅ ARTIFICIAL_TIME_ON_REWIND_START state;
  ' (rest, rest_events, state_by_key) ← dedup_inputs state_by_key inputs;
  Ok (out ++ rest, events ++ rest_events, state_by_key).
End deduplicate.

(** ** [sort_table] *)

Record SortingCell := mk_SortingCell { cell_instance : Value; cell_key : Value; cell_id : Key }.
#[export] Instance SortingCell_ord : Ord SortingCell := λ a b,
  cmp (cell_instance a, cell_key a, cell_id a) (cell_instance b, cell_key b, cell_id b).
Definition SortingCell_shard (self : SortingCell) : DynResult Z :=
  k ← for_value (cell_instance self); Ok (shard k).
Definition sorting_cell (key_column_path instance_column_path : ColumnPath) (row : Key * Value) : outcome unit SortingCell :=
  instance ← unwrap_with_reporter (extract instance_column_path (fst row) (snd row));
  key ← unwrap_with_reporter (extract key_column_path (fst row) (snd row));
  Ok (mk_SortingCell instance key (fst row)).
Definition same_instance (a b : SortingCell) : bool := Value_eqb (cell_instance a) (cell_instance b).
(** The index on all the cells, taken as one batch onto an empty output. *)
Definition sorted_cells (cells : Coll SortingCell) : outcome unit (Coll (SortingCell * Pointers SortingCell)) :=
  let trace : InputTrace SortingCell Z := map (λ e, (fst e, [(0, snd e)])) (consolidate cells) in
  updates ← add_prev_next_pointers same_instance trace [] trace;
  Ok (map (λ u, let '(k, v, _, w) := u in ((k, v), w)) (sorting_batch_done updates)).
Definition cell_pointer (c : option SortingCell) : Value :=
  match c with Some c => VPointer (cell_id c) | None => VNone end.
Definition sort_table (t : Table) (key_column_path instance_column_path : ColumnPath) : outcome unit Table :=
  cells ← map_coll (sorting_cell key_column_path instance_column_path) t;
  pointers ← sorted_cells cells;
  let prev_next : Coll (Key * (Value * Value)) :=
    map (λ e, ((cell_id (fst (fst e)), (cell_pointer (fst (snd (fst e))), cell_pointer (snd (snd (fst e))))), snd e)) pointers in
  Ok (join_core t prev_next (λ key values pn, [(key, VTuple [values; fst pn; snd pn])])).
End group.

(** ** [expression_table] and [async_apply_table] *)

Section expressions.
Context `{Profile, XxHash, Python, SerdeJson, Chrono, NumInteger, Ndarray, RustText, ErrorMode}.
Context (column_paths : list ColumnPath).
Abbreviation Table := (Coll (Key * Value)).

(** What a closure that may panic gave, once the operator has run. *)
Definition raise_panics {T} (out : list ((Key * outcome unit Value) * T * Z)) : outcome unit (list ((Key * Value) * T * Z)) :=
  try_collect (λ o, let '((key, value), time, diff) := o in value ← value; Ok ((key, value), time, diff)) out.

Definition expression_row (expressions : list Expression) (row : Key * Value) : outcome unit Value :=
  args ← extract_all column_paths (fst row) (snd row);
  new_values ← try_collect (λ expression, unwrap_or_log (eval args expression) VError) expressions;
  Ok (VTuple new_values).
Definition expression_table (expressions : list Expression) (t : Table) : outcome unit Table :=
  map_coll (λ row, v ← expression_row expressions row; Ok (fst row, v)) (consolidate t).
(** Expressions that are not deterministic: [expressions n] are those of call [n]. *)
Definition expression_table_non_deterministic {T} (expressions : nat → list Expression)
    (batches : list (OutputBatch T (Key * Value))) : outcome unit (list ((Key * Value) * T * Z)) :=
  ' (_, out) ← map_named_with_consistent_deletions (λ n row, (expression_row (expressions n) row, S n)) (0%nat, ∅) batches;
  raise_panics out.

Definition async_apply_row (function : Key → list Value → DynResult Value) (row : Key * Value) : outcome unit Value :=
  args ← extract_all column_paths (fst row) (snd row);
  value ← unwrap_or_log (function (fst row) args) VError;
  Ok (VTuple [value]).
Definition async_apply_table (function : Key → list Value → DynResult Value) (t : Table) : outcome unit Table :=
  map_coll (λ row, v ← async_apply_row function row; Ok (fst row, v)) t.
Definition async_apply_table_non_deterministic {T} (function : nat → Key → list Value → DynResult Value)
    (batches : list (OutputBatch T (Key * Value))) : outcome unit (list ((Key * Value) * T * Z)) :=
  ' (_, out) ← map_named_async_with_consistent_deletions (λ n row, ((fst row, async_apply_row (function n) row), S n)) (0%nat, ∅) batches;
  raise_panics out.
End expressions.
