(* ===== verification/GroupProps.v ===== *)
(** Grouping reduces each group: against the interface [Reduces] of a dataflow
    reducer, [group_by_table] holds for every group the tuple of the reducers' values
    on the group's rows.  The state of a deduplication is recovered from the events
    that it wrote. *)
From Stdlib Require Import ZArith Lia Bool.
From stdpp Require Import base list sets sorting strings gmap.
From S2P Require Import Prelude Order Float Text Data Externals Instances Value Weights Expression Reduce.
From S2P Require Import ReduceProps Timestamp TimeColumn Snapshot PrevNext Output Table TableProps Group.
Open Scope Z_scope.

(** ** Reducers that do not tell equal states apart *)

Definition same_counted {S} `{Ord S} (a b : S * positive) : Prop := cmp (fst a) (fst b) = Eq ∧ snd a = snd b.
Definition same_states {S} `{Ord S} (r1 r2 : DynResult S) : Prop :=
  match r1, r2 with
  | Ok a, Ok b => cmp a b = Eq
  | Err _, Err _ => True
  | _, _ => False
  end.
Class Respectful (R : ReducerImpl) `{OrdLaws (State R)} : Prop := {
  init_ok : ∀ k vs p, vs ≠ [] → init R k vs ≠ Panic p;
  combine_respects : ∀ vs1 vs2, vs1 ≠ [] → Forall2 same_counted vs1 vs2 →
    same_states (combine R (with_counts vs1)) (combine R (with_counts vs2));
  finish_respects : ∀ a b, cmp a b = Eq → cmp (finish R a) (finish R b) = Eq
}.

Section respectful.
Context {S : Type} `{OrdLaws S}.
Implicit Types (vs : list (S * positive)).

Lemma same_counted_fst vs1 vs2 : Forall2 same_counted vs1 vs2 → Forall2 ord_eq (map fst vs1) (map fst vs2).
Proof. intros Hs. apply Forall2_fmap. eapply Forall2_impl; [exact Hs|]. by intros a b [E _]. Qed.
Lemma Forall2_elem_l {A B} (P : A → B → Prop) l1 l2 x : Forall2 P l1 l2 → x ∈ l1 → ∃ y, y ∈ l2 ∧ P x y.
Proof.
  intros HP (i & Hi)%list_elem_of_lookup. destruct (Forall2_lookup_l _ _ _ _ _ HP Hi) as (y & Hy & Hxy).
  exists y. split; [|done]. apply list_elem_of_lookup. by exists i.
Qed.
Lemma ord_eq_list_sym (l1 l2 : list S) : Forall2 ord_eq l1 l2 → Forall2 ord_eq l2 l1.
Proof. induction 1 as [|x y l1 l2 E _ IH]; constructor; [by symmetry|done]. Qed.
(** A pick of the least state, by a key that tells states apart. *)
Lemma min_pick_respects {K} `{OrdLaws K} (f : S → K) (l1 l2 : list S) : l1 ≠ [] →
  (∀ x y, cmp (f x) (f y) = Eq ↔ cmp x y = Eq) → Forall2 ord_eq l1 l2 →
  same_states (unwrap (min_by_key f l1)) (unwrap (min_by_key f l2)).
Proof.
  intros Hne Hf Hl. assert (Hne2 : l2 ≠ []) by (intros ->; by inversion Hl; subst).
  destruct (min_by_key_is_Some f l1 Hne) as [m1 Hm1], (min_by_key_is_Some f l2 Hne2) as [m2 Hm2]. rewrite Hm1, Hm2.
  apply min_by_key_spec in Hm1 as [Hin1 Hle1], Hm2 as [Hin2 Hle2]. cbn. apply Hf.
  destruct (Forall2_elem_l _ _ _ _ Hl Hin1) as (n2 & Hn2 & E1).
  assert (Hl' : Forall2 ord_eq l2 l1) by by apply ord_eq_list_sym.
  destruct (Forall2_elem_l _ _ _ _ Hl' Hin2) as (n1 & Hn1 & E2).
  apply cmp_eq_iff. unfold ord_le in *. split.
  - rewrite (cmp_eq_r _ _ (f m1) (proj2 (Hf _ _) E2)). by apply Hle1.
  - rewrite (cmp_eq_r _ _ (f m2) (proj2 (Hf _ _) E1)). by apply Hle2.
Qed.
Lemma max_pick_respects {K} `{OrdLaws K} (f : S → K) (l1 l2 : list S) : l1 ≠ [] →
  (∀ x y, cmp (f x) (f y) = Eq ↔ cmp x y = Eq) → Forall2 ord_eq l1 l2 →
  same_states (unwrap (max_by_key f l1)) (unwrap (max_by_key f l2)).
Proof.
  intros Hne Hf Hl. assert (Hne2 : l2 ≠ []) by (intros ->; by inversion Hl; subst).
  destruct (max_by_key_is_Some f l1 Hne) as [m1 Hm1], (max_by_key_is_Some f l2 Hne2) as [m2 Hm2]. rewrite Hm1, Hm2.
  apply max_by_key_spec in Hm1 as [Hin1 Hle1], Hm2 as [Hin2 Hle2]. cbn. apply Hf.
  destruct (Forall2_elem_l _ _ _ _ Hl Hin1) as (n2 & Hn2 & E1).
  assert (Hl' : Forall2 ord_eq l2 l1) by by apply ord_eq_list_sym.
  destruct (Forall2_elem_l _ _ _ _ Hl' Hin2) as (n1 & Hn1 & E2).
  apply cmp_eq_iff. unfold ord_le in *. split.
  - rewrite (cmp_eq_l _ _ (f m2) (proj2 (Hf _ _) E1)). by apply Hle2.
  - rewrite (cmp_eq_l _ _ (f m1) (proj2 (Hf _ _) E2)). by apply Hle1.
Qed.

Lemma sort_insert_respects (x y : S) l1 l2 : cmp x y = Eq → Forall2 ord_eq l1 l2 →
  Forall2 ord_eq (sort_insert cmp x l1) (sort_insert cmp y l2).
Proof.
  intros E Hl. induction Hl as [|a b l1 l2 Hab Hl IH]; cbn; [by repeat constructor|].
  rewrite (cmp_eq_l _ _ a E), (cmp_eq_r _ _ y Hab). destruct (cmp y b); repeat (constructor; [done|]); done.
Qed.
Lemma sort_respects (l1 l2 : list S) : Forall2 ord_eq l1 l2 → Forall2 ord_eq (sort l1) (sort l2).
Proof. induction 1 as [|x y l1 l2 E _ IH]; [constructor|]. by apply sort_insert_respects. Qed.
Lemma repeat_items_respects (vs1 vs2 : list (list S * positive)) : Forall2 same_counted vs1 vs2 →
  cmp (repeat_items vs1) (repeat_items vs2) = Eq.
Proof.
  intros Hl. apply list_cmp_eq_Forall2. unfold repeat_items.
  induction Hl as [|[l1 p1] [l2 p2] vs1 vs2 [E Ep] _ IH]; cbn [map concat]; [constructor|]. cbn [fst snd] in *. subst p2.
  apply Forall2_app; [|done]. apply list_cmp_eq_Forall2 in E. clear -E.
  induction E as [|x y l1 l2 Exy _ IH]; cbn; [constructor|]. apply Forall2_app; [|done].
  clear IH. induction (Pos.to_nat p1); cbn; [constructor|by constructor].
Qed.
End respectful.

Ltac respectful R := split;
  [intros k [|v vs] p; cbn; [done|repeat case_match; done]
  |intros vs1 vs2 Hne Hs; cbn [of_unary combine ucombine R]; rewrite ?consume_with_counts; cbn [mbind outcome_bind]
  |intros a b Hab; cbn [of_unary finish ufinish R]].
Ltac nonempty_map := match goal with |- map _ ?l ≠ [] => by destruct l end.
#[export] Instance Min_respectful : Respectful (of_unary MinReducer).
Proof. respectful MinReducer; [|done]. apply (min_pick_respects (λ s : Value, s)). { nonempty_map. } { tauto. } by apply same_counted_fst. Qed.
#[export] Instance Max_respectful : Respectful (of_unary MaxReducer).
Proof. respectful MaxReducer; [|done]. apply (max_pick_respects (λ s : Value, s)). { nonempty_map. } { tauto. } by apply same_counted_fst. Qed.
#[export] Instance ArgMin_respectful : Respectful (of_unary ArgMinReducer).
Proof.
  respectful ArgMinReducer; [|apply pair_cmp_eq in Hab as [_ Hk]; exact Hk].
  apply (min_pick_respects (λ s : Value * Key, s)). { nonempty_map. } { tauto. } by apply same_counted_fst.
Qed.
#[export] Instance ArgMax_respectful : Respectful (of_unary ArgMaxReducer).
Proof.
  respectful ArgMaxReducer; [|apply pair_cmp_eq in Hab as [_ Hk]; exact Hk].
  apply (max_pick_respects (λ vk : Value * Key, (fst vk, mk_Reverse (snd vk)))). { nonempty_map. } 2: by apply same_counted_fst.
  intros [v k] [v' k']. rewrite !pair_cmp_eq. cbn [fst snd]. unfold cmp at 2. unfold Reverse_ord. cbn [reverse_inner].
  rewrite !key_eq_iff. naive_solver.
Qed.
#[export] Instance Any_respectful : Respectful (of_unary AnyReducer).
Proof.
  respectful AnyReducer; [|by apply pair_cmp_eq in Hab as [_ Hv]].
  apply (min_pick_respects (λ kv : Key * Value, (salted_with (fst kv) SALT, snd kv))). { nonempty_map. } 2: by apply same_counted_fst.
  intros [k v] [k' v']. rewrite !pair_cmp_eq. cbn [fst snd]. rewrite !key_eq_iff. split; [|naive_solver].
  intros [E Hv]. split; [|done]. unfold salted_with in E. destruct k as [k], k' as [k']. cbn in E. injection E as E. f_equal.
  rewrite <- (Z.lxor_0_r k), <- (Z.lxor_nilpotent SALT).
  rewrite <- Z.lxor_assoc, E, Z.lxor_assoc, Z.lxor_nilpotent. apply Z.lxor_0_r.
Qed.
#[export] Instance Unique_respectful : Respectful (of_unary UniqueReducer).
Proof.
  respectful UniqueReducer; [|done]. destruct Hs as [|[a p] [b q] vs1 vs2 [E _] Hs]; [done|]. cbn in *.
  by destruct Hs as [|[] [] ? ? []].
Qed.
#[export] Instance SortedTuple_respectful skip : Respectful (of_unary (SortedTupleReducer skip)).
Proof.
  respectful SortedTupleReducer; [by apply repeat_items_respects|]. apply value_tuple_eq, sort_respects. by apply list_cmp_eq_Forall2.
Qed.
#[export] Instance Tuple_respectful skip : Respectful (TupleReducer skip).
Proof.
  respectful TupleReducer; [by apply repeat_items_respects|]. apply value_tuple_eq, Forall2_fmap.
  eapply Forall2_impl; [apply sort_respects; by apply list_cmp_eq_Forall2|]. by intros x y [_ Hv]%pair_cmp_eq.
Qed.

(** ** The groups of rows *)

Definition grouped {A} (items : list (Key * A)) : gmap Key (list A) :=
  foldr (λ kv m, <[fst kv := snd kv :: default [] (m !! fst kv)]> m) ∅ items.
Definition some_rows {A} (l : list A) : option (list A) := match l with [] => None | _ => Some l end.
Lemma lookup_grouped {A} (items : list (Key * A)) k : grouped items !! k = some_rows (values_at items k).
Proof.
  induction items as [|[k' a] items IH]; [done|]. rewrite values_at_cons. cbn [grouped foldr fst snd]. fold (grouped items).
  destruct (decide (k = k')) as [<-|].
  - rewrite lookup_insert_eq, IH. by destruct (values_at items k).
  - by rewrite lookup_insert_ne.
Qed.
Lemma values_at_map {A B} (f : A → B) (items : list (Key * A)) k :
  values_at (map (λ kv, (fst kv, f (snd kv))) items) k = map f (values_at items k).
Proof.
  induction items as [|[k' a] items IH]; [done|]. cbn [map fst snd]. rewrite !values_at_cons, IH. cbn [fst snd].
  by destruct (decide (k = k')).
Qed.

Lemma try_collect_pure {E A B} (f : A → outcome E B) (g : A → B) l : (∀ x, x ∈ l → f x = Ok (g x)) → try_collect f l = Ok (map g l).
Proof.
  intros Hf. apply try_collect_ok. induction l as [|x l IH]; constructor; [by apply Hf; constructor|].
  apply IH. intros y Hy. apply Hf. by constructor.
Qed.
Lemma ones_weight_nonneg {A} `{OrdLaws A} (l : list A) x : 0 ≤ weight_at (ones l) x.
Proof.
  induction l as [|y l IH]; [done|]. unfold ones in *. cbn [map]. rewrite weight_at_cons. destruct (ord_eqb x y); lia.
Qed.
Lemma consolidate_ones_positive {A} `{OrdLaws A} (l : list A) : Forall (λ e, 0 < snd e) (consolidate (ones l)).
Proof.
  destruct (consolidate_spec (ones l)) as [Hs Hz]. apply Forall_forall. intros e He. rewrite Forall_forall in Hz.
  specialize (Hz e He). pose proof (ones_weight_nonneg l (fst e)) as Hn.
  rewrite <- consolidate_weight, (weight_at_sorted _ _ Hs He) in Hn. lia.
Qed.
Lemma consolidate_ones_nil {A} `{OrdLaws A} (l : list A) : consolidate (ones l) = [] ↔ l = [].
Proof.
  split; [|by intros ->]. intros E. destruct l as [|x l]; [done|]. exfalso.
  pose proof (consolidate_weight (ones (x :: l)) x) as Hw. rewrite E in Hw. unfold ones in Hw. cbn [map] in Hw.
  rewrite weight_at_cons in Hw. fold (ones l) in Hw. pose proof (ones_weight_nonneg l x) as Hn.
  unfold ord_eqb in Hw. rewrite cmp_refl in Hw. change (weight_at (@nil (A * Z)) x) with 0 in Hw. lia.
Qed.

(** ** The interface of a dataflow reducer *)

Abbreviation Row := (Key * list Value)%type.
Definition regroup (row : Key * Key * list Value) : Key * Row := (snd (fst row), (fst (fst row), snd row)).

(** On any batches whose updates add up to some rows, the reducer gives each group of
    the rows its value, and nothing else. *)
Class Reduces (r : DataflowReducer) (accepts : list Value → Prop) (spec : list Row → Value) : Prop :=
  reduces : ∀ batches rows, weq eq (concat batches) (ones rows) → Z.of_nat (length rows) ≤ I64_MAX →
    Forall (λ e, accepts (snd (fst e))) (concat batches) →
    ∃ out, r batches = Ok out ∧ represents out (spec <$> grouped (map regroup rows)).

Section reducer_impl.
Context `{Mode : ErrorMode} (Htolerant : terminate_on_error = false).
Context (R : ReducerImpl) `{Respectful R}.

Lemma log_result_ok {A} (r : DynResult A) : (∀ p, r ≠ Panic p) →
  log_result r = Ok (match r with Ok a => Some a | _ => None end).
Proof.
  intros Hr. destruct r as [a|e|p]; [done| |by destruct (Hr p)].
  unfold log_result. cbn. by rewrite log_error_ok.
Qed.

Definition row_state (row : Row) : option (State R) :=
  match group_init R (fst row) (snd row) with Ok s => s | _ => None end.
Lemma reducer_init_pure k vs : vs ≠ [] → reducer_init R k vs = Ok (row_state (k, vs)).
Proof.
  intros Hvs. unfold reducer_init, row_state, group_init, row_contains_error. cbn [fst snd].
  destruct (existsb _ vs); [done|]. rewrite log_result_ok by (intros p; by apply init_ok). by destruct (init R k vs).
Qed.

(** What the logic makes of a group. *)
Definition group_state (input : list (option (State R) * Z)) : option (State R) :=
  match group_reduce R input with Ok s => s | _ => None end.
Lemma all_some_same in1 in2 : same_records in1 in2 → Forall (λ e, 0 < snd e) in2 →
  (all_some R in1 = None ∧ all_some R in2 = None) ∨
  ∃ vs1 vs2, all_some R in1 = Some (with_counts vs1) ∧ all_some R in2 = Some (with_counts vs2) ∧
    length vs1 = length in1 ∧ Forall2 same_counted vs1 vs2.
Proof.
  induction 1 as [|[s1 c1] [s2 c2] in1 in2 [Es Ec] _ IH]; intros Hp; [right; by exists [], []|].
  apply Forall_cons in Hp as [Hc Hp]. cbn [fst snd] in *. subst c1.
  destruct s1 as [s1|], s2 as [s2|]; try done; [|by left]. cbn [all_some].
  destruct (IH Hp) as [[-> ->]|(vs1 & vs2 & -> & -> & Hl & HF)]; [by left|]. right. destruct c2 as [|p|]; try lia.
  exists ((s1, p) :: vs1), ((s2, p) :: vs2). repeat split; try done; cbn; [by rewrite Hl|]. by constructor.
Qed.
Lemma reducer_logic_respects k in1 in2 : in2 ≠ [] → same_records in1 in2 → Forall (λ e, 0 < snd e) in2 →
  ∃ o, reducer_logic R k in1 = Ok [(o, 1)] ∧ cmp o (group_state in2) = Eq.
Proof.
  intros Hne Hs Hp. unfold reducer_logic, group_state, group_reduce.
  destruct (all_some_same _ _ Hs Hp) as [[-> ->]|(vs1 & vs2 & -> & -> & Hl & HF)]; [by exists None|].
  assert (Hne1 : vs1 ≠ []) by (intros ->; apply Hne; destruct Hs; done).
  pose proof (combine_respects vs1 vs2 Hne1 HF) as Hc. unfold same_states in Hc.
  destruct (combine R (with_counts vs1)) as [s1|e1|p1], (combine R (with_counts vs2)) as [s2|e2|p2]; try done.
  - by exists (Some s1).
  - exists None. unfold log_result. cbn. by rewrite log_error_ok.
Qed.

Definition reducer_value (rows : list Row) : Value :=
  reducer_finish R (group_state (consolidate (ones (map row_state rows)))).
#[export] Instance ReducerImpl_reduces : Reduces (ReducerImpl_reduce R) (λ vs, vs ≠ []) reducer_value.
Proof.
  intros batches rows Hw _ Hacc. unfold ReducerImpl_reduce.
  set (f := λ row : Key * Key * list Value, (snd (fst row), row_state (fst (fst row), snd row))).
  erewrite (map_coll_pure _ f); cycle 1.
  { intros [[[sk rk] vs] w] He. rewrite Forall_forall in Hacc. specialize (Hacc _ He). cbn [fst snd] in *.
    by rewrite reducer_init_pure. }
  cbn [mbind outcome_bind]. set (items := map f rows).
  assert (Hvals : ∀ k, values_at items k = map row_state (values_at (map regroup rows) k)).
  { intros k. rewrite <- values_at_map, map_map. by unfold items. }
  assert (Hin : weq ord_eq (map (λ e, (f (fst e), snd e)) (concat batches)) (ones items)).
  { etrans; [apply weq_eq_ord, (weq_map eq eq f); [by intros ?? ->|exact Hw]|]. by rewrite map_ones. }
  destruct (reduce_weight (reducer_logic R) (λ k, consolidate (ones (values_at items k)))
    (λ k, match values_at items k with [] => [] | _ => [(group_state (consolidate (ones (values_at items k))), 1)] end)
    (map (λ e, (f (fst e), snd e)) (concat batches))) as (out & Hout & Hweights).
  - intros k. apply consolidate_canonical.
  - intros k v. rewrite (weq_weight_at _ _ _ Hin), ones_weight. symmetry. apply consolidate_weight.
  - intros k vs Hne Hs. destruct (reducer_logic_respects k vs _ Hne Hs) as (o & -> & Ho); [apply consolidate_ones_positive|].
    eexists. split; [done|]. destruct (values_at items k); [done|]. by apply weq_singleton.
  - intros k Hk. apply (proj1 (consolidate_ones_nil _)) in Hk. by rewrite Hk.
  - rewrite Hout. cbn [mbind outcome_bind]. eexists. split; [done|].
    assert (Hrep : represents out ((λ rows, group_state (consolidate (ones (map row_state rows)))) <$> grouped (map regroup rows))).
    { apply represents_weight. intros k o. rewrite Hweights, lookup_fmap, lookup_grouped, Hvals.
      by destruct (values_at (map regroup rows) k). }
    assert (E : reducer_value <$> grouped (map regroup rows) = map_imap (λ _ s, Some (reducer_finish R s))
      ((λ rows, group_state (consolidate (ones (map row_state rows)))) <$> grouped (map regroup rows))).
    { apply map_eq. intros k. rewrite map_lookup_imap, !lookup_fmap. by destruct (grouped (map regroup rows) !! k). }
    rewrite E. apply (represents_map _ _ (λ _ s, reducer_finish R s) Hrep).
    intros _ [a|] [b|] Hab; try done. by apply finish_respects.
Qed.
End reducer_impl.

(** ** Counting *)

Lemma represents_nodup {A} `{Ord A} (l : list (Key * A)) : NoDup (map fst l) → represents (ones l) (list_to_map l).
Proof. intros Hnd. unfold represents. rewrite rows_of_ones. apply weq_perm, Permutation_map. by rewrite map_to_list_to_map. Qed.
Lemma sorted_records_nodup {A} `{OrdLaws A} (c : list (A * Z)) : sorted_records c → NoDup (map fst c).
Proof.
  unfold sorted_records. induction 1 as [|k ks Hs IH Hf]; constructor; [|done].
  intros Hin. rewrite Forall_forall in Hf. pose proof (Hf k Hin) as E. by rewrite cmp_refl in E.
Qed.
Lemma key_count (items : list (Key * Row)) k : weight_at (ones (map fst items)) k = Z.of_nat (length (values_at items k)).
Proof.
  induction items as [|[k' r] items IH]; [done|]. rewrite values_at_cons. unfold ones in *. cbn [map fst]. rewrite weight_at_cons, IH.
  unfold ord_eqb. destruct (decide (k = k')) as [->|Hk].
  - rewrite cmp_refl. cbn [length]. lia.
  - destruct (cmp k k') eqn:E; [by apply key_eq_iff in E|lia..].
Qed.
#[export] Instance CountReducer_reduces : Reduces CountReducer_reduce (λ _, True) (λ rows, VInt (Z.of_nat (length rows))).
Proof.
  intros batches rows Hw _ _. unfold CountReducer_reduce. set (keyed := map _ (concat batches)). eexists. split; [done|].
  assert (Hk : weq ord_eq keyed (ones (map fst (map regroup rows)))).
  { etrans; [apply weq_eq_ord, (weq_map eq eq (λ row : Key * Key * list Value, snd (fst row))); [by intros ?? ->|exact Hw]|].
    rewrite (map_ones (λ row : Key * Key * list Value, snd (fst row))). by rewrite map_map. }
  destruct (consolidate_spec keyed) as [Hs _]. set (l := map (λ e : Key * Z, (fst e, VInt (snd e))) (consolidate keyed)).
  assert (Hnd : NoDup (map fst l)).
  { unfold l. rewrite map_map. cbn [fst]. by apply sorted_records_nodup. }
  assert (E : (λ rows, VInt (Z.of_nat (length rows))) <$> grouped (map regroup rows) = list_to_map l).
  { apply map_eq. intros k. rewrite lookup_fmap, lookup_grouped.
    pose proof (consolidate_weight keyed k) as Hwk. rewrite (weq_weight_at _ _ k Hk), key_count in Hwk.
    destruct (values_at (map regroup rows) k) as [|r rs] eqn:Hrows; cbn [some_rows fmap option_fmap option_map].
    - symmetry. apply not_elem_of_list_to_map. unfold l. rewrite map_map. cbn [fst].
      intros ([k' w] & -> & He)%list_elem_of_fmap. cbn [fst] in *. pose proof (weight_at_sorted _ _ Hs He) as Hn.
      destruct (consolidate_spec keyed) as [_ Hz]. rewrite Forall_forall in Hz. apply (Hz _ He). cbn [fst snd length] in *. lia.
    - destruct (weight_at_present (consolidate keyed) k) as ([k' w] & He & Ek); [cbn [length] in Hwk; lia|].
      apply key_eq_iff in Ek. cbn [fst] in Ek. subst k'. symmetry. apply elem_of_list_to_map; [done|]. apply list_elem_of_fmap.
      exists (k, w). split; [|done]. pose proof (weight_at_sorted _ _ Hs He) as Hn. cbn [fst snd] in *. by rewrite <- Hn, Hwk. }
  rewrite E. replace (map _ (consolidate keyed)) with (ones l); [by apply represents_nodup|]. unfold l, ones. by rewrite map_map.
Qed.

(** ** The integer sum, in the release profile *)

Section int_sum.
Context `{Mode : ErrorMode} (Htolerant : terminate_on_error = false).
#[local] Instance release : Profile := false.
Implicit Types (s : IntSumState) (es rest : list (Key * IntSumState)).

(** The total of a component over the entries of a key. *)
Definition key_total (c : IntSumState → Z) (k : Key) es : Z :=
  foldr (λ e t, (if decide (k = fst e) then c (snd e) else 0) + t) 0 es.
Definition wrapped (count sum errors : Z) : IntSumState := mk_IntSumState (wrap_i64 count) (wrap_i64 sum) (wrap_i64 errors).
Definition key_state (k : Key) es : IntSumState :=
  wrapped (key_total count k es) (key_total sum k es) (key_total error_count k es).
Definition unless_zero s : option IntSumState := if int_sum_is_zero s then None else Some s.
Definition in_range s : Prop := wrapped (count s) (sum s) (error_count s) = s.

Lemma wrap_i64_add_l a b : wrap_i64 (wrap_i64 a + b) = wrap_i64 (a + b).
Proof. apply wrap_i64_cong. by rewrite <- Zplus_mod_idemp_l, wrap_i64_eqm, Zplus_mod_idemp_l. Qed.
Lemma wrap_i64_idem a : wrap_i64 (wrap_i64 a) = wrap_i64 a.
Proof. apply wrap_i64_id, wrap_i64_range. Qed.
Lemma plus_release s t : int_sum_plus_equals s t = Ok (wrapped (count s + count t) (sum s + sum t) (error_count s + error_count t)).
Proof. unfold int_sum_plus_equals. by rewrite !i64_arith_release. Qed.
Lemma multiply_release s w : int_sum_multiply s w = Ok (wrapped (count s * w) (sum s * w) (error_count s * w)).
Proof. unfold int_sum_multiply. by rewrite !i64_arith_release. Qed.
Lemma key_total_absent c k es : k ∉ map fst es → key_total c k es = 0.
Proof.
  induction es as [|e es IH]; [done|]. cbn [map]. intros [Hne Hk]%not_elem_of_cons. cbn [key_total foldr].
  rewrite decide_False by done. by apply IH.
Qed.
Lemma key_state_absent k es : k ∉ map fst es → unless_zero (key_state k es) = None.
Proof. intros Hk. unfold key_state. by rewrite !key_total_absent. Qed.
Lemma key_total_perm c k es es' : es ≡ₚ es' → key_total c k es = key_total c k es'.
Proof. unfold key_total. induction 1; cbn; lia. Qed.

(** What the runs of the sorted entries come to. *)
Definition sums_of (out : list (Key * IntSumState)) es : Prop :=
  (∀ k, k ∈ map fst out → k ∈ map fst es) ∧ NoDup (map fst out) ∧
  ∀ k, list_to_map (M := gmap Key IntSumState) out !! k = unless_zero (key_state k es).

Lemma nonzero_sums k s es out : in_range s → k ∉ map fst es → sums_of out es → sums_of (nonzero_state (k, s) ++ out) ((k, s) :: es).
Proof.
  intros Hs Hk (Hin & Hnd & Hout).
  assert (Hke : key_state k ((k, s) :: es) = s).
  { unfold key_state. cbn [key_total foldr fst snd]. rewrite !decide_True by done.
    fold (key_total count k es) (key_total sum k es) (key_total error_count k es).
    rewrite !key_total_absent, !Z.add_0_r by done. exact Hs. }
  assert (Hother : ∀ k', k' ≠ k → key_state k' ((k, s) :: es) = key_state k' es).
  { intros k' Hne. unfold key_state. cbn [key_total foldr fst snd]. by rewrite !decide_False by done. }
  assert (Hko : k ∉ map fst out) by (intros Hin'; by apply Hk, Hin).
  unfold nonzero_state. cbn [snd]. destruct (int_sum_is_zero s) eqn:Hz; cbn [app].
  - split; [|split; [done|]].
    + intros k' Hk'. cbn [map fst]. apply elem_of_cons. right. by apply Hin.
    + intros k'. destruct (decide (k' = k)) as [->|Hne]; [|by rewrite Hother].
      rewrite Hke. unfold unless_zero. rewrite Hz. by apply not_elem_of_list_to_map.
  - split; [|split].
    + intros k'. cbn [map fst]. rewrite !elem_of_cons. naive_solver.
    + cbn [map fst]. by constructor.
    + intros k'. cbn [list_to_map foldr fst snd]. destruct (decide (k' = k)) as [->|Hne].
      * rewrite lookup_insert_eq, Hke. unfold unless_zero. by rewrite Hz.
      * rewrite lookup_insert_ne by done. by rewrite Hother.
Qed.
Lemma sum_runs_release current rest : StronglySorted ord_le (fst current :: map fst rest) →
  Forall (λ e, in_range (snd e)) (current :: rest) →
  ∃ out, sum_runs current rest = Ok out ∧ sums_of out (current :: rest).
Proof.
  revert current. induction rest as [|[k' s'] rest IH]; intros [k s] Hs Hr.
  - cbn [sum_runs]. eexists. split; [done|]. rewrite <- (app_nil_r (nonzero_state (k, s))). apply Forall_cons in Hr as [Hr _].
    apply nonzero_sums; [done|by intros ?%elem_of_nil|]. split; [done|]. split; [constructor|]. intros k'. by rewrite key_state_absent by by intros ?%elem_of_nil.
  - apply Forall_cons in Hr as [Hr Hr']. cbn [fst snd map] in *. cbn [sum_runs fst snd].
    apply StronglySorted_inv in Hs as [Hs Hf]. destruct (decide (k = k')) as [<-|Hne].
    + rewrite plus_release. cbn [unwrap_with_reporter mbind outcome_bind]. apply Forall_cons in Hr' as [_ Hr'].
      set (t := wrapped _ _ _). destruct (IH (k, t)) as (out & Hout & Hin & Hnd & Hsums); [by cbn|constructor; [|done]|].
      { unfold in_range, t, wrapped. cbn. by rewrite !wrap_i64_idem. }
      exists out. split; [done|]. split; [|split; [done|]].
      * intros k2 Hk2%Hin. cbn [map fst] in *. apply elem_of_cons in Hk2 as [->|?]; [by constructor|]. by do 2 constructor.
      * intros k2. rewrite Hsums. f_equal. unfold key_state. cbn [key_total foldr fst snd].
        destruct (decide (k2 = k)); [|done]. unfold t. cbn [count sum error_count wrapped].
        unfold wrapped. by rewrite !wrap_i64_add_l, !Z.add_assoc.
    + destruct (IH (k', s')) as (out & Hout & Hsums); [done..|]. rewrite Hout. cbn [mbind outcome_bind].
      eexists. split; [done|]. apply nonzero_sums; [done| |done]. cbn [map fst]. intros Hin.
      apply StronglySorted_inv in Hs as [_ Hf']. apply Forall_cons in Hf as [Hle Hf].
      apply elem_of_cons in Hin as [->|Hin]; [done|]. rewrite Forall_forall in Hf'. apply Hne. apply key_eq_iff.
      apply cmp_eq_iff. split; [exact Hle|]. by apply Hf'.
Qed.
Lemma count_states_release es : Forall (λ e, in_range (snd e)) es → ∃ out, count_states es = Ok out ∧ sums_of out es.
Proof.
  intros Hr. unfold count_states. set (f := λ x y : Key * IntSumState, cmp (fst x) (fst y)).
  pose proof (sort_by_perm f es) as Hp. pose proof (sort_by_sorted es : StronglySorted ord_le (map fst (sort_by f es))) as Hs.
  assert (Hsum : ∀ out, sums_of out (sort_by f es) → sums_of out es).
  { intros out (Hin & Hnd & Hout). split; [|split; [done|]].
    - intros k Hk%Hin. by rewrite <- Hp.
    - intros k. rewrite Hout. unfold key_state. by rewrite !(key_total_perm _ _ _ _ Hp). }
  rewrite <- Hp in Hr. destruct (sort_by f es) as [|e l].
  - exists []. split; [done|]. apply Hsum. split; [done|]. split; [constructor|]. intros k. by rewrite key_state_absent by by intros ?%elem_of_nil.
  - destruct (sum_runs_release e l Hs Hr) as (out & Hout & Ho). exists out. split; [done|]. by apply Hsum.
Qed.

(** The state of a row and what a group of rows comes to. *)
Definition row_sum_state (row : Row) : IntSumState :=
  mk_IntSumState (1 - snd (row_parts row)) (fst (row_parts row)) (snd (row_parts row)).
Lemma int_sum_state_pure k vs : vs ≠ [] → int_sum_state k vs = Ok (row_sum_state (k, vs)).
Proof.
  intros Hvs. unfold int_sum_state, row_sum_state, row_parts, row_contains_error. cbn [fst snd].
  destruct (existsb _ vs); [done|]. destruct vs as [|v vs]; [done|]. cbn [index0 unwrap_with_reporter mbind outcome_bind].
  destruct v; cbn; rewrite ?log_error_ok; done.
Qed.
Definition exploded (c : list (Key * Key * list Value * Z)) : list (Key * IntSumState) :=
  map (λ e, let s := row_sum_state (snd (regroup (fst e))) in
    (fst (regroup (fst e)), wrapped (count s * snd e) (sum s * snd e) (error_count s * snd e))) c.
Lemma wrap_key_total (g c : IntSumState → Z) k (es : list (Key * Key * list Value * Z)) :
  (∀ s w, g (wrapped (count s * w) (sum s * w) (error_count s * w)) = wrap_i64 (c s * w)) →
  wrap_i64 (key_total g k (exploded es)) =
  wrap_i64 (wsum (λ row, if decide (k = fst (regroup row)) then c (row_sum_state (snd (regroup row))) else 0) es).
Proof.
  intros Hg. induction es as [|[row w] es IH]; [done|]. unfold exploded. cbn [map key_total foldr fst snd]. rewrite wsum_cons.
  fold (exploded es) (key_total g k (exploded es)). cbn [fst snd]. destruct (decide (k = fst (regroup row))); [|by rewrite !Z.add_0_l].
  rewrite Hg, wrap_i64_add_l, !(Z.add_comm (_ * w)), <- wrap_i64_add_l, IH. apply wrap_i64_add_l.
Qed.
Lemma wsum_group (f : Row → Z) k rows : wsum (λ row, if decide (k = fst (regroup row)) then f (snd (regroup row)) else 0) (ones rows) =
  total f (ones (values_at (map regroup rows) k)).
Proof.
  unfold total, ones. induction rows as [|row rows IH]; [done|]. cbn [map]. rewrite wsum_cons, IH, values_at_cons. cbn [fst snd].
  destruct (decide (k = fst (regroup row))); [|lia]. cbn [map foldr fst snd]. lia.
Qed.
Lemma group_key_state (c : list (Key * Key * list Value * Z)) rows k : weq eq c (ones rows) →
  let group := ones (values_at (map regroup rows) k) in
  key_state k (exploded c) = wrapped (Z.of_nat (length group) - total (snd ∘ row_parts) group)
    (total (fst ∘ row_parts) group) (total (snd ∘ row_parts) group).
Proof.
  intros Hw group. unfold key_state, wrapped. rewrite !(wrap_key_total _ _ _ _ (λ s w, eq_refl)).
  rewrite !(Hw _ (λ x y E, f_equal _ E)).
  rewrite (wsum_group (λ r, count (row_sum_state r))), (wsum_group (λ r, sum (row_sum_state r))), (wsum_group (λ r, error_count (row_sum_state r))).
  fold group. f_equal. f_equal. subst group. generalize (values_at (map regroup rows) k). intros l.
  induction l as [|r l IH]; [done|]. unfold ones in *. cbn [map total foldr length fst snd] in *. 
  unfold total in IH. rewrite IH. cbn [row_sum_state count]. unfold compose. lia.
Qed.
Lemma total_errors_bounds (l : list Row) : 0 ≤ total (snd ∘ row_parts) (ones l) ≤ Z.of_nat (length l).
Proof.
  unfold total, ones. induction l as [|r l IH]; [done|]. cbn [map foldr length fst snd].
  assert (0 ≤ (snd ∘ row_parts) r ≤ 1); [|lia]. unfold compose, row_parts. destruct (existsb _ _); [done|]. by repeat case_match.
Qed.
Lemma length_values_at {A} (items : list (Key * A)) k : (length (values_at items k) <= length items)%nat.
Proof. induction items as [|kv items IH]; [done|]. rewrite values_at_cons. destruct (decide _); cbn [length]; lia. Qed.
(** A group's state is zero only without rows. *)
Lemma group_sum_value (l : list Row) : Z.of_nat (length l) ≤ I64_MAX →
  int_sum_finish <$> unless_zero (wrapped (Z.of_nat (length (ones l)) - total (snd ∘ row_parts) (ones l))
    (total (fst ∘ row_parts) (ones l)) (total (snd ∘ row_parts) (ones l))) =
  (λ rows, int_sum_value (ones rows)) <$> some_rows l.
Proof.
  intros Hl. pose proof (total_errors_bounds l) as Hb. unfold ones at 1. rewrite length_map. unfold I64_MAX in Hl.
  unfold unless_zero, int_sum_is_zero, wrapped. cbn [count sum error_count]. 
  rewrite !(wrap_i64_id (_ - _)) by (apply in_i64_spec; lia).
  rewrite !(wrap_i64_id (total (snd ∘ _) _)) by (apply in_i64_spec; lia).
  destruct l as [|r l]; [done|]. cbn [length] in *.
  assert (E : (Z.of_nat (S (length l)) - total (snd ∘ row_parts) (ones (r :: l)) =? 0) &&
    (wrap_i64 (total (fst ∘ row_parts) (ones (r :: l))) =? 0) && (total (snd ∘ row_parts) (ones (r :: l)) =? 0) = false).
  { destruct (Z.eqb_spec (total (snd ∘ row_parts) (ones (r :: l))) 0) as [->|]; [|by rewrite andb_false_r].
    destruct (Z.eqb_spec (Z.of_nat (S (length l)) - 0) 0); [lia|done]. }
  rewrite E. cbn [fmap option_fmap option_map some_rows]. f_equal. unfold int_sum_finish, int_sum_value. cbn [sum error_count].
  rewrite (wrap_i64_id (total (snd ∘ _) _)) by (apply in_i64_spec; lia). by destruct (total (snd ∘ row_parts) (ones (r :: l)) =? 0).
Qed.
#[export] Instance IntSumReducer_reduces : Reduces IntSumReducer_reduce (λ vs, vs ≠ []) (λ rows, int_sum_value (ones rows)).
Proof.
  intros batches rows Hw Hlen Hacc. unfold IntSumReducer_reduce.
  erewrite (map_coll_pure _ (λ row : Key * Key * list Value, (fst (regroup row), row_sum_state (snd (regroup row))))); cycle 1.
  { intros [[[sk rk] vs] w] He. rewrite Forall_forall in Hacc. specialize (Hacc _ He). cbn [fst snd] in *.
    by rewrite int_sum_state_pure. }
  cbn [mbind outcome_bind]. erewrite (try_collect_pure _ (λ e : Key * IntSumState * Z, (fst (fst e),
    wrapped (count (snd (fst e)) * snd e) (sum (snd (fst e)) * snd e) (error_count (snd (fst e)) * snd e)))); cycle 1.
  { intros [[k s] w] _. by rewrite multiply_release. }
  cbn [mbind outcome_bind]. rewrite map_map. cbn [fst snd]. fold (exploded (concat batches)).
  destruct (count_states_release (exploded (concat batches))) as (out & Hout & Hin & Hnd & Hsums).
  { apply Forall_forall. intros e (e' & -> & _)%list_elem_of_fmap. unfold in_range, wrapped. cbn. by rewrite !wrap_i64_idem. }
  rewrite Hout. cbn [mbind outcome_bind]. eexists. split; [done|].
  set (l := map (λ e : Key * IntSumState, (fst e, int_sum_finish (snd e))) out).
  assert (Hl : map fst l = map fst out) by (unfold l; by rewrite map_map).
  assert (E : (λ rows, int_sum_value (ones rows)) <$> grouped (map regroup rows) = list_to_map l).
  { apply map_eq. intros k. unfold l. rewrite lookup_fmap, lookup_grouped.
    change (map (λ e : Key * IntSumState, (fst e, int_sum_finish (snd e))) out) with (prod_map id int_sum_finish <$> out).
    rewrite list_to_map_fmap, lookup_fmap, Hsums, (group_key_state _ _ _ Hw). symmetry. apply group_sum_value.
    pose proof (length_values_at (map regroup rows) k) as Hk. rewrite length_map in Hk. lia. }
  rewrite E. replace (map _ out) with (ones l); [apply represents_nodup; by rewrite Hl|]. unfold l, ones. by rewrite map_map.
Qed.
End int_sum.

(** ** Groups of a table *)

Section group_by.
Context `{XxHash, Python, SerdeJson, Chrono, Ndarray}.
Context `{Mode : ErrorMode} (Htolerant : terminate_on_error = false).
#[local] Existing Instance release.

(** The value of a reducer on the rows of a group; float and array sums are left out,
    and so are the reducers whose value depends on the order of arrival. *)
Definition reducer_spec (r : Reducer) : option (list Row → Value) :=
  match r with
  | Reducer_Count => Some (λ rows, VInt (Z.of_nat (length rows)))
  | Reducer_IntSum => Some (λ rows, int_sum_value (ones rows))
  | Reducer_Unique => Some (reducer_value (of_unary UniqueReducer))
  | Reducer_Min => Some (reducer_value (of_unary MinReducer))
  | Reducer_ArgMin => Some (reducer_value (of_unary ArgMinReducer))
  | Reducer_Max => Some (reducer_value (of_unary MaxReducer))
  | Reducer_ArgMax => Some (reducer_value (of_unary ArgMaxReducer))
  | Reducer_SortedTuple skip_nones => Some (reducer_value (of_unary (SortedTupleReducer skip_nones)))
  | Reducer_Tuple skip_nones => Some (reducer_value (TupleReducer skip_nones))
  | Reducer_Any => Some (reducer_value (of_unary AnyReducer))
  | _ => None
  end.
Lemma create_reduces scope r spec : reducer_spec r = Some spec →
  ∃ impl, create_dataflow_reducer scope r = Ok impl ∧ Reduces impl (λ vs, vs ≠ []) spec.
Proof.
  intros Hr. destruct scope, r; try discriminate Hr; injection Hr as <-; (eexists; split; [reflexivity|]);
    try exact (ReducerImpl_reduces Htolerant _); try by apply IntSumReducer_reduces.
  all: intros batches rows Hw Hlen _; apply CountReducer_reduces; [done..|by apply Forall_forall].
Qed.

Context (new_key : Key * Value → option Key) (args : list ColumnPath → Key * Value → list Value).
Implicit Types (rows : list (Key * Value)) (d : ReducerData).

Definition keyed_row (row : Key * Value) : list (Key * Key * Value) :=
  match new_key row with Some k => [(fst row, k, snd row)] | None => [] end.
Definition extracted_row d (row : Key * Key * Value) : list (Key * Key * list Value) :=
  let values := args (column_paths d) (fst (fst row), snd row) in
  if row_contains_error values && skip_errors d then [] else [(fst row, values)].
(** The rows that the reducer sees. *)
Definition column_rows d rows : list (Key * Key * list Value) := flat_map (extracted_row d) (flat_map keyed_row rows).
Definition group_keys rows : gmap Key (list unit) := grouped (map (λ row, (snd (fst row), tt)) (flat_map keyed_row rows)).
Definition group_values (specs : list (ReducerData * (list Row → Value))) rows (k : Key) : option (list Value) :=
  mapM (λ ds, snd ds <$> grouped (map regroup (column_rows (fst ds) rows)) !! k) specs.

Lemma flat_map_length_one {A B} (f : A → list B) l : (∀ x, (length (f x) <= 1)%nat) → (length (flat_map f l) <= length l)%nat.
Proof. intros Hf. induction l as [|x l IH]; [done|]. cbn. rewrite length_app. specialize (Hf x). lia. Qed.
Lemma column_rows_length d rows : (length (column_rows d rows) <= length rows)%nat.
Proof.
  unfold column_rows. etrans; apply flat_map_length_one.
  - intros row. unfold extracted_row. by destruct (_ && _); cbn; lia.
  - intros row. unfold keyed_row. by destruct (new_key row); cbn; lia.
Qed.
Lemma flat_map_rows_concat {A B} (f : A → list B) (cs : list (list (A * Z))) :
  concat (map (flat_map_rows f) cs) = flat_map_rows f (concat cs).
Proof. unfold flat_map_rows. induction cs as [|c cs IH]; [done|]. cbn. by rewrite flat_map_app, IH. Qed.

(** Joining the columns. *)
Lemma join_columns_represents joined (mj : gmap Key (list Value)) others (ms : list (gmap Key Value)) :
  represents joined mj → Forall2 represents others ms →
  ∃ m, represents (foldl (λ joined column, join_core joined column (λ key values value, [(key, values ++ [value])])) joined others) m ∧
    ∀ k, m !! k = (vs ← mj !! k; ws ← mapM (λ m, m !! k) ms; Some (vs ++ ws)).
Proof.
  intros Hj Ho. revert joined mj Hj. induction Ho as [|column m others ms Hc Ho IH]; intros joined mj Hj; cbn [foldl mapM].
  - exists mj. split; [done|]. intros k. destruct (mj !! k); cbn; [by rewrite app_nil_r|done].
  - destruct (IH _ (map_imap (λ k vs, (λ v, vs ++ [v]) <$> m !! k) mj)
      (represents_join _ _ _ _ (λ vs v, vs ++ [v]) Hj Hc ltac:(intros a a' b b' Ha Hb;
        apply list_cmp_eq_Forall2; apply Forall2_app; [by apply list_cmp_eq_Forall2|by constructor]))) as (m' & Hm' & Hk).
    exists m'. split; [done|]. intros k. rewrite Hk, map_lookup_imap. destruct (mj !! k) as [vs|]; cbn; [|done].
    destruct (m !! k) as [v|]; cbn; [|done]. destruct (mapM _ ms); cbn; [by rewrite <- app_assoc|done].
Qed.

(** One column. *)
Section column.
Context (batches : list (list (Key * Value * Z))) (rows : list (Key * Value)).
Context (Hrows : weq eq (concat batches) (ones rows)) (Hlen : Z.of_nat (length rows) ≤ I64_MAX).

Lemma keyed_weq : weq eq (concat (map (flat_map_rows keyed_row) batches)) (ones (flat_map keyed_row rows)).
Proof. rewrite flat_map_rows_concat, <- flat_map_ones. by apply weq_flat_map. Qed.
Lemma reduced_column_ok d impl spec :
  (∀ row, row ∈ map fst (concat batches) → extract_all (column_paths d) (fst row) (snd row) = Ok (args (column_paths d) row)) →
  (∀ row, row ∈ map fst (concat batches) → args (column_paths d) row ≠ []) →
  Reduces impl (λ vs, vs ≠ []) spec →
  ∃ out, reduced_column (map (flat_map_rows keyed_row) batches) (impl, d) = Ok out ∧
    represents out (spec <$> grouped (map regroup (column_rows d rows))).
Proof.
  intros Hargs Hne Hr. unfold reduced_column. cbn [fst snd].
  assert (Hkeyed : ∀ e, e ∈ concat (map (flat_map_rows keyed_row) batches) →
    (fst (fst (fst e)), snd (fst e)) ∈ map fst (concat batches)).
  { intros e. rewrite flat_map_rows_concat. unfold flat_map_rows. rewrite list_elem_of_In. intros ([[k v] w] & Hin & He)%in_flat_map.
    apply list_elem_of_In in Hin, He. apply list_elem_of_fmap in He as (r & -> & Hr'). unfold keyed_row in Hr'. cbn [fst snd] in *.
    destruct (new_key (k, v)); [|by apply elem_of_nil in Hr']. apply list_elem_of_singleton in Hr' as ->.
    apply list_elem_of_fmap. by exists ((k, v), w). }
  rewrite (try_collect_pure _ (flat_map_rows (extracted_row d))); cycle 1.
  { intros c Hc. apply flat_map_coll_pure. intros [[[k k'] v] w] He. cbn [fst snd].
    assert (Hin : (k, v) ∈ map fst (concat batches)).
    { apply (Hkeyed ((k, k', v), w)). apply list_elem_of_In, in_concat. exists c. split; by apply list_elem_of_In. }
    pose proof (Hargs (k, v) Hin) as E. cbn [fst snd] in E. by rewrite E. }
  cbn [mbind outcome_bind]. apply Hr.
  - rewrite flat_map_rows_concat. unfold column_rows. rewrite <- flat_map_ones. apply weq_flat_map, keyed_weq.
  - pose proof (column_rows_length d rows). lia.
  - apply Forall_forall. intros [[[k k'] vs] w]. rewrite flat_map_rows_concat. unfold flat_map_rows at 1. rewrite list_elem_of_In.
    intros ([[[k2 k2'] v] w2] & Hin & He)%in_flat_map. apply list_elem_of_In in Hin, He. specialize (Hkeyed _ Hin).
    apply list_elem_of_fmap in He as (r & [= <- ->] & Hr'). unfold extracted_row in Hr'. cbn [fst snd] in *.
    destruct (_ && _); [by apply elem_of_nil in Hr'|]. apply list_elem_of_singleton in Hr' as [= -> -> ->]. by apply Hne.
Qed.
Lemma no_columns : represents
  (distinct (map (λ e : Key * Key * Value * Z, ((snd (fst (fst e)), VTuple []), snd e)) (concat (map (flat_map_rows keyed_row) batches))))
  ((λ _, VTuple []) <$> group_keys rows).
Proof.
  set (c := map _ _). set (items := map (λ row : Key * Key * Value, (snd (fst row), VTuple [])) (flat_map keyed_row rows)).
  assert (Hc : weq ord_eq c (ones items)).
  { unfold c, items. rewrite <- map_ones. apply weq_eq_ord. apply (weq_map eq eq (λ row : Key * Key * Value, (snd (fst row), VTuple []))); [by intros ?? ->|].
    apply keyed_weq. }
  apply represents_weight. intros k v. rewrite distinct_weight, (weq_weight_at _ _ _ Hc), ones_weight, lookup_fmap. unfold group_keys.
  rewrite lookup_grouped.
  assert (E : values_at items k = map (λ _, VTuple []) (values_at (map (λ row : Key * Key * Value, (snd (fst row), tt)) (flat_map keyed_row rows)) k)).
  { unfold items. rewrite <- values_at_map, map_map. done. }
  rewrite E. destruct (values_at (map _ (flat_map keyed_row rows)) k) as [|[] l]; [done|]. cbn [some_rows fmap option_fmap option_map row_group].
  rewrite weight_at_cons. unfold ord_eqb. destruct (cmp v (VTuple [])) eqn:Ev.
  2, 3: rewrite weight_at_absent; [done|]; intros e (x & -> & Hx)%list_elem_of_fmap; cbn [map fst] in *;
    (apply elem_of_cons in Hx as [->|(? & -> & _)%list_elem_of_fmap]; by rewrite Ev).
  unfold ones. cbn [map]. rewrite weight_at_cons. unfold ord_eqb. rewrite Ev.
  pose proof (ones_weight_nonneg (map (λ _, VTuple []) l) v) as Hn. unfold ones in Hn.
  destruct (Z.eqb_spec (1 + weight_at (map (λ x, (x, 1)) (map (λ _, VTuple []) l)) v) 0); [lia|done].
Qed.
End column.

Lemma columns_ok batches rows reducers impls specs :
  weq eq (concat batches) (ones rows) → Z.of_nat (length rows) ≤ I64_MAX →
  (∀ d row, d ∈ reducers → row ∈ map fst (concat batches) →
    extract_all (column_paths d) (fst row) (snd row) = Ok (args (column_paths d) row) ∧ args (column_paths d) row ≠ []) →
  Forall2 (λ impl spec, Reduces impl (λ vs, vs ≠ []) spec) impls specs → length specs = length reducers →
  ∃ columns, try_collect (reduced_column (map (flat_map_rows keyed_row) batches)) (zip impls reducers) = Ok columns ∧
    Forall2 (λ column ds, represents column (snd ds <$> grouped (map regroup (column_rows (fst ds) rows)))) columns (zip reducers specs).
Proof.
  intros Hrows Hlen Hargs Hr. revert reducers Hargs. induction Hr as [|impl spec impls specs Hr _ IH]; intros reducers Hargs Hl.
  - exists []. split; [done|]. rewrite zip_with_nil_r. constructor.
  - destruct reducers as [|d reducers]; [done|]. injection Hl as Hl.
    destruct (reduced_column_ok batches rows Hrows Hlen d impl spec) as (out & Hout & Hrep);
      [intros row Hrow; apply Hargs; [constructor|done]..|done|].
    destruct (IH reducers) as (outs & Houts & HF); [|done|].
    { intros d' row Hd Hrow. apply Hargs; [by constructor|done]. }
    exists (out :: outs). cbn [zip zip_with]. unfold try_collect in *. cbn. rewrite Hout. cbn. rewrite Houts. split; [done|]. by constructor.
Qed.
Lemma create_all scope reducers specs : Forall2 (λ d spec, reducer_spec (reducer d) = Some spec) reducers specs →
  ∃ impls, try_collect (λ d, create_dataflow_reducer scope (reducer d)) reducers = Ok impls ∧
    Forall2 (λ impl spec, Reduces impl (λ vs, vs ≠ []) spec) impls specs.
Proof.
  induction 1 as [|d spec reducers specs Hd _ (impls & IH & HF)]; [exists []; by split|].
  destruct (create_reduces scope _ _ Hd) as (impl & Himpl & Hr). exists (impl :: impls). unfold try_collect in *. cbn.
  rewrite Himpl. cbn. rewrite IH. split; [done|]. by constructor.
Qed.
Lemma mapM_columns {X} (f : X → gmap Key Value) (k : Key) (l : list X) : mapM (λ m : gmap Key Value, m !! k) (map f l) = mapM (λ x, f x !! k) l.
Proof. induction l as [|x l IH]; [done|]. cbn. by rewrite IH. Qed.
(** A reducer with a row of a group sees the group. *)
Lemma column_group d rows k : grouped (map regroup (column_rows d rows)) !! k ≠ None → group_keys rows !! k ≠ None.
Proof.
  unfold group_keys. rewrite !lookup_grouped. unfold column_rows. generalize (flat_map keyed_row rows). intros l.
  intros Hd Hn. apply Hd. clear Hd. induction l as [|row l IH]; [done|]. cbn [flat_map map] in *. rewrite values_at_cons in Hn.
  cbn [fst snd] in Hn. destruct (decide (k = snd (fst row))) as [|Hne]; [done|]. rewrite map_app, <- (IH Hn). f_equal.
  unfold extracted_row. destruct (_ && _); [done|]. cbn [map app]. rewrite values_at_cons. unfold regroup at 1. cbn [fst].
  by rewrite decide_False.
Qed.

(** The table of the joined columns. *)
Lemma joined_represents first others rows (ds : ReducerData * (list Row → Value)) dss :
  Forall2 (λ column ds, represents column (snd ds <$> grouped (map regroup (column_rows (fst ds) rows)))) (first :: others) (ds :: dss) →
  represents (map (λ e, ((fst (fst e), VTuple (snd (fst e))), snd e)) (join_columns first others))
    (map_imap (λ k _, VTuple <$> group_values (ds :: dss) rows k) (group_keys rows)).
Proof.
  intros [Hfirst Hothers]%Forall2_cons. set (col := λ ds : ReducerData * (list Row → Value), snd ds <$> grouped (map regroup (column_rows (fst ds) rows))).
  assert (Hothers' : Forall2 represents others (map col dss)).
  { induction Hothers; constructor; done. }
  pose proof (represents_map first _ (λ _ v, [v]) Hfirst) as Hj.
  destruct (join_columns_represents _ _ others _ (Hj ltac:(intros ? v v' E; apply list_cmp_eq_Forall2; by constructor)) Hothers') as (m & Hm & Hk).
  pose proof (represents_map _ _ (λ _ vs, VTuple vs) Hm ltac:(intros ? l l' E; apply value_tuple_eq; by apply list_cmp_eq_Forall2)) as Hout.
  replace (map_imap _ (group_keys rows)) with (map_imap (λ _ vs, Some (VTuple vs)) m); [exact Hout|].
  apply map_eq. intros k. rewrite !map_lookup_imap, Hk, map_lookup_imap, mapM_columns. unfold group_values. cbn [mapM].
  rewrite <- (mapM_ext (λ x, col x !! k) (λ x, snd x <$> grouped (map regroup (column_rows (fst x) rows)) !! k)) by (intros x; unfold col; by rewrite lookup_fmap).
  pose proof (column_group (fst ds) rows k) as Hgroup. rewrite lookup_fmap.
  destruct (grouped (map regroup (column_rows (fst ds) rows)) !! k) as [g|]; cbn.
  - destruct (group_keys rows !! k); [|by destruct Hgroup]. cbn. by destruct (mapM (λ x, col x !! k) dss).
  - by destruct (group_keys rows !! k).
Qed.
End group_by.

(** C18: A group-by table has, for each group of the rows and nothing else, the tuple of
    what its reducers make of the group, where a reducer that skips errors does not see
    rows with one; a group in which some reducer sees no row is missing. This holds
    however the updates are split into batches, and whatever was inserted and deleted
    again, for the ten reducers whose value does not depend on the order of arrival or
    of summation (those with a reducer_spec: count, the sum of integers, any, unique,
    min, max, argmin, argmax, sorted tuple and tuple; not the sums of floats and arrays,
    nor the stateful, earliest and latest reducers), in the release profile, where
    errors are logged, for at most 2^63 - 1 rows whose columns (at least one for each
    reducer) and keys can be extracted. *)
Theorem group_by_table_groups `{XxHash, Python, SerdeJson, Chrono, Ndarray, Mode : ErrorMode} scope batches paths policy reducers set_id
    (specs : list (list Row → Value)) (rows : list (Key * Value)) new_key args :
  terminate_on_error = false →
  weq eq (concat batches) (ones rows) → Z.of_nat (length rows) ≤ I64_MAX →
  (set_id = true → length paths = 1%nat) →
  (∀ row, row ∈ map fst (concat batches) → group_key paths policy set_id row = Ok (new_key row)) →
  (∀ d row, d ∈ reducers → row ∈ map fst (concat batches) →
    extract_all (column_paths d) (fst row) (snd row) = Ok (args (column_paths d) row) ∧ args (column_paths d) row ≠ []) →
  Forall2 (λ d spec, reducer_spec (reducer d) = Some spec) reducers specs →
  ∃ out, group_by_table (H := release) scope batches paths policy reducers set_id = Ok (Ok out) ∧
    represents out (map_imap (λ k _, VTuple <$> group_values new_key args (zip reducers specs) rows k) (group_keys new_key rows)).
Proof.
  intros Hmode Hrows Hlen Hset Hkey Hargs Hspecs. unfold group_by_table.
  assert (set_id && negb (length paths =? 1)%nat = false) as ->.
  { destruct set_id; [|done]. by rewrite (Hset eq_refl). }
  destruct (create_all Hmode scope _ _ Hspecs) as (impls & Himpls & HR).
  rewrite Himpls. cbn [mbind outcome_bind]. rewrite (try_collect_pure _ (flat_map_rows (keyed_row new_key))); cycle 1.
  { intros c Hc. apply flat_map_coll_pure. intros [row w] He. cbn [fst]. rewrite (Hkey row); [by unfold keyed_row; destruct (new_key row)|].
    apply list_elem_of_fmap. exists (row, w). split; [done|]. apply list_elem_of_In, in_concat. exists c. split; by apply list_elem_of_In. }
  cbn [mbind outcome_bind].
  destruct (columns_ok new_key args batches rows reducers impls specs) as (columns & Hcols & HF); [done..| |].
  { symmetry. by eapply Forall2_length. }
  rewrite Hcols. cbn [mbind outcome_bind]. destruct Hspecs as [|d spec reducers specs Hd Hspecs].
  - inversion HF; subst. eexists. split; [done|]. replace (map_imap _ _) with ((λ _, VTuple []) <$> group_keys new_key rows); [by apply no_columns|].
    apply map_eq. intros k. rewrite map_lookup_imap, lookup_fmap. by destruct (group_keys new_key rows !! k).
  - destruct columns as [|first others]; [by inversion HF|]. eexists. split; [done|]. by apply joined_represents.
Qed.

(** What the value of a group means, for the minimum: the least of its values. *)
Lemma elem_consolidate_ones {A} `{OrdLaws A} (l : list A) :
  (∀ x, x ∈ map fst (consolidate (ones l)) → ∃ y, y ∈ l ∧ cmp x y = Eq) ∧
  (∀ y, y ∈ l → ∃ x, x ∈ map fst (consolidate (ones l)) ∧ cmp y x = Eq).
Proof.
  destruct (consolidate_spec (ones l)) as [Hs Hz]. split.
  - intros x ([x' w] & -> & He)%list_elem_of_fmap. cbn [fst]. pose proof (weight_at_sorted _ _ Hs He) as Hw. cbn [fst snd] in Hw.
    rewrite consolidate_weight in Hw. rewrite Forall_forall in Hz. specialize (Hz _ He). cbn [snd] in Hz.
    destruct (weight_at_present (ones l) x') as (e & (y & -> & Hy)%list_elem_of_fmap & E); [congruence|]. by exists y.
  - intros y Hy. destruct (weight_at_present (consolidate (ones l)) y) as (e & He & E).
    + rewrite consolidate_weight. apply list_elem_of_split in Hy as (l1 & l2 & ->). unfold ones. rewrite map_app, weight_at_app.
      cbn [map]. rewrite weight_at_cons. unfold ord_eqb. rewrite cmp_refl.
      pose proof (ones_weight_nonneg l1 y) as H1'. pose proof (ones_weight_nonneg l2 y) as H2'. unfold ones in *. lia.
    + exists (fst e). split; [|done]. apply list_elem_of_fmap. by exists e.
Qed.
Lemma all_some_somes R (input : list (State R * Z)) : Forall (λ e, 0 < snd e) input →
  ∃ vs, all_some R (map (λ e, (Some (fst e), snd e)) input) = Some (with_counts vs) ∧ map fst vs = map fst input.
Proof.
  induction 1 as [|[s c] input Hc _ (vs & IH & Hvs)]; [by exists []|]. cbn [map all_some fst snd] in *. rewrite IH.
  destruct c as [|p|]; try lia. exists ((s, p) :: vs). cbn. by rewrite Hvs.
Qed.
Theorem group_minimum (rows : list Row) : rows ≠ [] → Forall (λ r, ∃ v, snd r = [v] ∧ Value_eqb v VError = false) rows →
  let m := reducer_value (of_unary MinReducer) rows in
  (∃ r, r ∈ rows ∧ cmp m (hd VError (snd r)) = Eq) ∧ ∀ r, r ∈ rows → ord_le m (hd VError (snd r)).
Proof.
  intros Hne Hrows. unfold reducer_value.
  assert (E : map (row_state (of_unary MinReducer)) rows = map (λ r, Some (hd VError (snd r))) rows).
  { apply map_ext_Forall. eapply Forall_impl; [exact Hrows|]. intros [k vs] (v & Ev & Hv). cbn [snd] in Ev. subst vs.
    unfold row_state, group_init. cbn. by rewrite Hv. }
  rewrite E. clear E Hrows.
  assert (Hc : ∃ input, consolidate (ones (map (λ r : Row, Some (hd VError (snd r))) rows)) = map (λ e, (Some (fst e), snd e)) input).
  { destruct (elem_consolidate_ones (map (λ r : Row, Some (hd VError (snd r))) rows)) as [Hin _]. revert Hin.
    generalize (consolidate (ones (map (λ r : Row, Some (hd VError (snd r))) rows))). intros c Hin.
    induction c as [|[[v|] w] c IH]; [by exists []| |].
    - destruct IH as (input & ->); [intros x Hx; apply Hin; by constructor|]. by exists ((v, w) :: input).
    - destruct (Hin None) as (y & (r & -> & _)%list_elem_of_fmap & E); [constructor|done]. }
  destruct Hc as (input & Hinput). pose proof (consolidate_ones_positive (map (λ r : Row, Some (hd VError (snd r))) rows)) as Hpos.
  destruct (elem_consolidate_ones (map (λ r : Row, Some (hd VError (snd r))) rows)) as [Hin Hout].
  rewrite Hinput in Hpos, Hin, Hout. rewrite Forall_map in Hpos. cbn [snd] in Hpos.
  destruct (all_some_somes (of_unary MinReducer) input Hpos) as (vs & Hvs & Hfst). unfold group_state, group_reduce.
  replace (all_some _ _) with (Some (with_counts vs)) by (symmetry; exact (eq_trans (f_equal (all_some (of_unary MinReducer)) Hinput) Hvs)).
  cbn [of_unary combine MinReducer ucombine]. rewrite consume_with_counts. cbn [mbind outcome_bind].
  destruct (min_combine_spec vs) as (m & Hm & Hmin & Hle).
  { intros ->. destruct rows as [|r rows]; [done|]. destruct input; [|done].
    destruct (Hout (Some (hd VError (snd r)))) as (x & Hx & _); [constructor|by apply elem_of_nil in Hx]. }
  match goal with |- context [unwrap ?x] => replace (unwrap x) with (@Ok DataError Value m) by (symmetry; exact Hm) end.
  cbn. rewrite map_map in Hin, Hout. cbn [fst] in Hin, Hout. rewrite Hfst in Hmin, Hle. split.
  - destruct (Hin (Some m)) as (y & (r & -> & Hr)%list_elem_of_fmap & Ey).
    { apply list_elem_of_fmap in Hmin as (e & -> & He). apply list_elem_of_fmap. by exists e. }
    by exists r.
  - intros r Hr. destruct (Hout (Some (hd VError (snd r)))) as (x & (e & -> & He)%list_elem_of_fmap & Ex).
    { apply list_elem_of_fmap. by exists r. }
    intros Hgt. apply (Hle (fst e)); [apply list_elem_of_fmap; by exists e|].
    exact (eq_trans (eq_sym (cmp_eq_r (hd VError (snd r)) (fst e) m Ex)) Hgt).
Qed.

(** ** Deduplication *)

(** The collection that the events of a snapshot make. *)
Definition event_row (e : Event) : list (Key * Value * Z) :=
  match e with
  | Insert key values => [((key, VTuple values), 1)]
  | Delete key values => [((key, VTuple values), -1)]
  | _ => []
  end.
Definition snapshot (events : list Event) : list (Key * Value * Z) := flat_map event_row events.
Definition is_row (e : Event) : bool := match e with Insert _ _ | Delete _ _ => true | _ => false end.
Definition row_events (events : list Event) : list Event := List.filter is_row events.
Lemma snapshot_app es1 es2 : snapshot (es1 ++ es2) = snapshot es1 ++ snapshot es2.
Proof. apply flat_map_app. Qed.
Lemma snapshot_row_events es : snapshot (row_events es) = snapshot es.
Proof.
  unfold snapshot, row_events. induction es as [|e es IH]; [done|]. by destruct e; cbn [List.filter is_row flat_map]; rewrite IH.
Qed.

(** The output of the stateful reduction is the change of its states. *)
Section stateful.
Context {V : Type} `{Ord V} (logic : option Value → list (V * Z) → DynResult (option Value)).

Definition row_of (f : Key * Value → Z) (k : Key) (s : option Value) : Z := match s with Some v => f (k, v) | None => 0 end.
Lemma wsum_rows_delete (f : Key * Value → Z) (m : gmap Key Value) k :
  wsum f (rows_of m) = row_of f k (m !! k) + wsum f (rows_of (delete k m)).
Proof.
  destruct (m !! k) as [v|] eqn:Hk; cbn [row_of]; [|by rewrite delete_id].
  rewrite <- (insert_delete_id _ _ _ Hk) at 1. rewrite rows_of_insert by apply lookup_delete_eq. rewrite wsum_cons. cbn. lia.
Qed.
Lemma stateful_times_change f key state data out final :
  stateful_times (T := Z) Value_eqb logic key state data = Ok (out, final) →
  wsum f (map (λ o, (fst (fst o), snd o)) out) = row_of f key final - row_of f key state.
Proof.
  revert state out. induction data as [|[time d] data IH]; intros state out; cbn [stateful_times].
  - intros [= <- <-]. cbn. lia.
  - intros (new & _ & Hr)%bind_ok. destruct (option_eqb Value_eqb new state); [by apply IH|].
    apply bind_ok in Hr as ([out' fin] & Hr & [= <- <-]). rewrite !map_app, !wsum_app, (IH _ _ Hr).
    destruct state, new; cbn; lia.
Qed.
Lemma stateful_key_change f st key vals out st' : stateful_key (T := Z) Value_eqb logic st key vals = Ok (out, st') →
  wsum f (rows_of st) + wsum f (map (λ o, (fst (fst o), snd o)) out) = wsum f (rows_of st').
Proof.
  unfold stateful_key. intros ([o final] & Hr & [= <- <-])%bind_ok. rewrite (stateful_times_change f _ _ _ _ _ Hr).
  rewrite (wsum_rows_delete f st key). destruct final as [s|]; cbn [row_of]; [|lia].
  rewrite rows_of_insert by apply lookup_delete_eq. rewrite wsum_cons. cbn. lia.
Qed.
Lemma stateful_batch_change f st batch out st' : stateful_batch (T := Z) Value_eqb logic st batch = Ok (out, st') →
  wsum f (rows_of st) + wsum f (map (λ o, (fst (fst o), snd o)) out) = wsum f (rows_of st').
Proof.
  revert st out. induction batch as [|[key vals] batch IH]; intros st out; cbn [stateful_batch].
  - intros [= <- <-]. cbn. lia.
  - intros ([o1 st1] & H1 & Hr)%bind_ok. apply bind_ok in Hr as ([o2 st2] & H2 & [= <- <-]).
    apply IH in H2. apply (stateful_key_change f) in H1. rewrite map_app, wsum_app, Z.add_assoc. etrans; [|exact H2]. f_equal. exact H1.
Qed.
Lemma stateful_step_change st time batch out st' : stateful_step logic st time batch = Ok (out, st') →
  weq eq (rows_of st ++ out) (rows_of st').
Proof.
  unfold stateful_step. intros ([o s] & Hr & [= <- <-])%bind_ok f _. rewrite wsum_app.
  destruct (stateful_batch _ _ _ _) as [[o' s']| |] eqn:E; try done. injection Hr as <- <-. by apply (stateful_batch_change f) in E.
Qed.
End stateful.

Section deduplicate.
Context `{XxHash, Python, SerdeJson, Chrono, Ndarray, Mode : ErrorMode}.
Context (grouping reduced : list ColumnPath) (combine_fn : option Value → list (list Value * Z) → DynResult (option Value)).

Lemma dedup_events_snapshot time out events : is_artificial time = false → dedup_events time out = Ok events →
  weq ord_eq (snapshot events) out ∧ row_events events = events.
Proof.
  unfold dedup_events. intros -> He%try_collect_ok. rewrite <- (consolidate_weq out). revert He. generalize (consolidate out). intros c He.
  assert (E : snapshot events = c ∧ row_events events = events); [|by destruct E as [-> ?]].
  induction He as [|[[k v] w] e c events Hd _ [IH IHr]]; [done|]. unfold dedup_event in Hd.
  destruct (Z.eqb_spec w 1) as [->|Hw1]; [|destruct (Z.eqb_spec w (-1)) as [->|Hw2]]; cbn in Hd; try done.
  all: destruct v; try done; injection Hd as <-; unfold snapshot, row_events in *; cbn [flat_map event_row app List.filter is_row];
    by rewrite IH, IHr.
Qed.
Lemma dedup_time_change st time rows out events st' : dedup_time combine_fn st time rows = Ok (out, events, st') →
  weq eq (rows_of st ++ out) (rows_of st') ∧ (is_artificial time = false → weq ord_eq (snapshot events) out).
Proof.
  unfold dedup_time. intros ([o s] & Hr & Hk)%bind_ok. apply bind_ok in Hk as (es & He & [= <- <- <-]). split.
  - by eapply stateful_step_change.
  - intros Ha. by eapply dedup_events_snapshot.
Qed.
Lemma dedup_input_change st i out events st' : dedup_input grouping reduced combine_fn st i = Ok (out, events, st') →
  weq eq (rows_of st ++ out) (rows_of st') ∧ weq ord_eq (snapshot events) out.
Proof.
  destruct i as [time batch|frontier]; cbn [dedup_input].
  - unfold dedup_rows. intros (rows & Hrows & Hd)%bind_ok. destruct (dedup_time_change _ _ _ _ _ _ Hd) as [Hc He]. split; [done|].
    destruct (is_artificial time) eqn:Ha; [|by apply He]. apply bind_ok in Hrows as (? & _ & [= <-]).
    unfold dedup_time, stateful_step in Hd. cbn in Hd. unfold dedup_events in Hd. rewrite Ha in Hd. by injection Hd as <- <- <-.
  - intros (es & He & [= <- <- <-])%bind_ok. rewrite app_nil_r. split; [done|].
    unfold dedup_frontier in He. by destruct frontier as [|? []]; try done; injection He as <-.
Qed.
Lemma dedup_inputs_change st inputs out events st' : dedup_inputs grouping reduced combine_fn st inputs = Ok (out, events, st') →
  weq ord_eq (rows_of st ++ snapshot events) (rows_of st') ∧ weq ord_eq (snapshot events) out.
Proof.
  revert st out events. induction inputs as [|i inputs IH]; intros st out events; cbn [dedup_inputs].
  - intros [= <- <- <-]. cbn. by rewrite app_nil_r.
  - intros ([[o es] s] & Hi & Hr)%bind_ok. apply bind_ok in Hr as ([[o' es'] s'] & Hr & [= <- <- <-]).
    destruct (dedup_input_change _ _ _ _ _ Hi) as [Hc He], (IH _ _ _ Hr) as [Hc' He']. rewrite snapshot_app, app_assoc.
    split; [|by rewrite He, He']. rewrite <- Hc'. apply weq_app; [|done]. rewrite He. by apply weq_eq_ord.
Qed.

(** Restoring the states from a snapshot in which every key has at most one row.  The
    states of [combine_fn] are tuples of some rows, and from each of these rows alone it
    makes the state again. *)
Record restores (kept : list Value → Prop) : Prop := {
  restores_row : ∀ vs, kept vs → combine_fn None [(vs, 1)] = Ok (Some (VTuple vs));
  restores_state : ∀ state values v, from_option (λ v, ∃ vs, v = VTuple vs ∧ kept vs) True state →
    combine_fn state values = Ok (Some v) → ∃ vs, v = VTuple vs ∧ kept vs;
  restores_equal : ∀ vs vs', cmp vs vs' = Eq → kept vs' → kept vs
}.
Definition tuple_row (e : Key * list Value * Z) : Key * Value * Z := ((fst (fst e), VTuple (snd (fst e))), snd e).
Lemma stateful_batch_fresh (time : Z) (gs : list (Key * list (list Value * Z))) st kept : restores kept →
  NoDup (map fst gs) → (∀ k, k ∈ map fst gs → st !! k = None) → Forall (λ g, ∃ vs, snd g = [(vs, 1)] ∧ kept vs) gs →
  ∃ out st', stateful_batch Value_eqb (dedup_logic combine_fn) st
      (map (λ g, (fst g, map (λ vw, (fst vw, [(time, snd vw)])) (snd g))) gs) = Ok (out, st') ∧
    map (λ o, (fst (fst o), snd o)) out = map tuple_row (flat_groups gs).
Proof.
  intros Hres. revert st. induction gs as [|[k g] gs IH]; intros st Hnd Hfresh Hg; [by exists [], st|].
  cbn [map fst] in *. apply NoDup_cons in Hnd as [Hk Hnd]. apply Forall_cons in Hg as [(vs & Hvs & Hkept) Hg]. cbn [snd] in Hvs. subst g.
  destruct (IH (<[k := VTuple vs]> (delete k st))) as (out & st' & Hb & Hout); [done| |done|].
  { intros k' Hk'. rewrite lookup_insert_ne by (intros ->; done). rewrite lookup_delete_ne by (intros ->; done). apply Hfresh. by constructor. }
  exists (((k, VTuple vs), time, 1) :: out), st'. cbn [stateful_batch fst snd map].
  unfold stateful_key. cbn [data_by_time foldl btree_push fst snd]. cbn. rewrite Hfresh by constructor. cbn.
  assert (dedup_logic combine_fn None [(vs, 1)] = Ok (Some (VTuple vs))) as -> by (unfold dedup_logic; by rewrite (restores_row _ Hres)).
  cbn. rewrite Hb. split; [done|]. cbn. by rewrite Hout.
Qed.
Definition all_kept (kept : list Value → Prop) (ps : gmap Key (list Value)) : Prop := ∀ k vs, ps !! k = Some vs → kept vs.
Lemma single_groups (c : list (Key * list Value * Z)) (ps : gmap Key (list Value)) kept : restores kept → represents c ps →
  all_kept kept ps → Forall (λ g, ∃ vs, snd g = [(vs, 1)] ∧ kept vs) (group_by_key (consolidate c)).
Proof.
  intros Hres Hc Hps. pose proof (consolidate_canonical c) as Hcan. destruct (group_by_key_sorted _ Hcan) as [_ Hg].
  pose proof (group_by_key_nodup _ Hcan) as Hnd. apply Forall_forall. intros [k vs] Hin. cbn [snd].
  destruct (Hg _ Hin) as [Hvs Hne]. cbn [snd] in *.
  assert (Hsame : same_records vs (row_group (ps !! k))).
  { apply canonical_unique; [done|apply row_group_canonical|]. intros v. rewrite <- (weight_at_in_group _ _ _ v Hnd Hin), flat_group_by_key.
    rewrite consolidate_weight. by apply (proj1 (represents_weight _ _) Hc). }
  destruct (ps !! k) as [a|] eqn:Hk; [|by inversion Hsame; subst]. apply same_records_singleton in Hsame as (v & -> & Hv). exists v.
  split; [done|]. by eapply (restores_equal _ Hres), Hps.
Qed.
Lemma restore_states (c : list (Key * list Value * Z)) (ps : gmap Key (list Value)) kept : restores kept → represents c ps →
  all_kept kept ps →
  ∃ out st, dedup_time combine_fn ∅ ARTIFICIAL_TIME_ON_REWIND_START c = Ok (out, [], st) ∧ weq ord_eq (map tuple_row c) (rows_of st).
Proof.
  intros Hres Hc Hps. pose proof (consolidate_canonical c) as Hcan.
  destruct (stateful_batch_fresh 0 (group_by_key (consolidate c)) ∅ kept Hres) as (out & st & Hb & Hout);
    [by apply group_by_key_nodup|done|by apply (single_groups c ps)|].
  assert (Hstep : stateful_step (dedup_logic combine_fn) ∅ 0 c = Ok (map tuple_row (consolidate c), st)).
  { unfold stateful_step. rewrite Hb. cbn [unwrap_with_reporter mbind outcome_bind]. by rewrite Hout, flat_group_by_key. }
  exists (map tuple_row (consolidate c)), st. unfold dedup_time. change (Z.of_N (ts_0 ARTIFICIAL_TIME_ON_REWIND_START)) with 0.
  rewrite Hstep. split; [done|]. apply stateful_step_change in Hstep. cbn [app] in Hstep.
  etrans; [|by apply weq_eq_ord]. etrans; [|done]. symmetry.
  apply (weq_map ord_eq ord_eq (λ e : Key * list Value, (fst e, VTuple (snd e)))); [|apply consolidate_weq].
  intros [k v] [k' v'] [E1 E2]%pair_cmp_eq. apply pair_cmp_eq. split; [done|]. apply value_tuple_eq. by apply list_cmp_eq_Forall2.
Qed.

(** The persisted rows as the operator reads them. *)
Lemma read_rows persisted : Forall is_row persisted → ∃ c, read_persisted_state persisted = Ok c ∧ map tuple_row c = snapshot persisted.
Proof.
  induction 1 as [|e es He _ (c & Hc & Hs)]; [by exists []|]. unfold read_persisted_state, try_collect, snapshot in *.
  destruct e as [k vs|k vs| | |]; try done; [exists (((k, vs), 1) :: c)|exists (((k, vs), -1) :: c)]; cbn; rewrite Hc; (split; [done|]);
    by rewrite Hs.
Qed.
Lemma weight_tuple_row (c : list (Key * list Value * Z)) k vs : weight_at (map tuple_row c) (k, VTuple vs) = weight_at c (k, vs).
Proof.
  induction c as [|[[k' vs'] w] c IH]; [done|]. 
  change (map tuple_row (((k', vs'), w) :: c)) with (((k', VTuple vs'), w) :: map tuple_row c). by rewrite !weight_at_cons, IH.
Qed.
Lemma tuple_states es (st : gmap Key Value) k v : represents (snapshot es) st → st !! k = Some v → ∃ vs, v = VTuple vs.
Proof.
  intros Hs Hk. destruct (weight_at_present (snapshot es) (k, v)) as ([[k' v'] w] & He & E).
  { rewrite (proj1 (represents_weight _ _) Hs), Hk. cbn [row_group]. rewrite weight_at_cons. unfold ord_eqb. by rewrite cmp_refl. }
  assert (Hv : ∃ l, v' = VTuple l).
  { unfold snapshot in He. apply list_elem_of_In, in_flat_map in He as (e & _ & He). destruct e; cbn in He; naive_solver. }
  destruct Hv as (l & ->). apply pair_cmp_eq in E as [_ E]. cbn [snd] in E. destruct v; try done. by eexists.
Qed.
Lemma represents_tuples (c : list (Key * list Value * Z)) ps : represents (map tuple_row c) (VTuple <$> ps) → represents c ps.
Proof.
  intros Hc. apply represents_weight. intros k vs. etrans; [symmetry; apply weight_tuple_row|].
  etrans; [apply (proj1 (represents_weight _ _) Hc)|]. rewrite lookup_fmap. by destruct (ps !! k).
Qed.
Lemma recover persisted (ps : gmap Key (list Value)) kept : restores kept → Forall is_row persisted →
  represents (snapshot persisted) (VTuple <$> ps) → all_kept kept ps →
  ∃ c out st, read_persisted_state persisted = Ok c ∧ dedup_time combine_fn ∅ ARTIFICIAL_TIME_ON_REWIND_START c = Ok (out, [], st) ∧
    represents (snapshot persisted) st.
Proof.
  intros Hres Hrows Hps Hkept. destruct (read_rows persisted Hrows) as (c & Hc & Hs). rewrite <- Hs in *.
  destruct (restore_states c ps kept Hres) as (out & st & Hd & Hst); [by apply represents_tuples|done|]. by exists c, out, st.
Qed.

(** The states stay among the rows that are kept. *)
Definition states_kept (kept : list Value → Prop) (st : gmap Key Value) : Prop :=
  ∀ k v, st !! k = Some v → ∃ vs, v = VTuple vs ∧ kept vs.
Lemma dedup_logic_kept kept state values new : restores kept → from_option (λ v, ∃ vs, v = VTuple vs ∧ kept vs) True state →
  dedup_logic combine_fn state values = Ok new → from_option (λ v, ∃ vs, v = VTuple vs ∧ kept vs) True new.
Proof.
  intros Hres Hs. unfold dedup_logic, unwrap_or_log. destruct (combine_fn state values) as [[v|]|e|p] eqn:E; cbn; try done.
  - intros [= <-]. cbn. by eapply (restores_state _ Hres).
  - by intros [= <-].
  - unfold log_error. destruct terminate_on_error; cbn; [done|]. by intros [= <-].
Qed.
Lemma stateful_times_kept kept (key : Key) state data out final : restores kept →
  from_option (λ v, ∃ vs, v = VTuple vs ∧ kept vs) True state →
  stateful_times (T := Z) Value_eqb (dedup_logic combine_fn) key state data = Ok (out, final) →
  from_option (λ v, ∃ vs, v = VTuple vs ∧ kept vs) True final.
Proof.
  intros Hres. revert state out. induction data as [|[time d] data IH]; intros state out Hs; cbn [stateful_times]; [by intros [= <- <-]|].
  intros (new & Hnew & Hr)%bind_ok. destruct (option_eqb Value_eqb new state); [by eapply IH|].
  apply bind_ok in Hr as ([out' fin] & Hr & [= <- <-]). eapply IH; [|exact Hr]. by eapply dedup_logic_kept.
Qed.
Lemma stateful_batch_kept kept (st : gmap Key Value) batch out st' : restores kept → states_kept kept st →
  stateful_batch (T := Z) Value_eqb (dedup_logic combine_fn) st batch = Ok (out, st') → states_kept kept st'.
Proof.
  intros Hres. revert st out. induction batch as [|[key vals] batch IH]; intros st out Hst; cbn [stateful_batch]; [by intros [= <- <-]|].
  intros ([o1 st1] & Hk1 & Hr)%bind_ok. apply bind_ok in Hr as ([o2 st2] & Hk2 & [= <- <-]). eapply IH; [|exact Hk2].
  unfold stateful_key in Hk1. apply bind_ok in Hk1 as ([o final] & Hf & [= <- <-]). apply (stateful_times_kept kept) in Hf; [|done|].
  - intros k v. destruct final as [s|]; rewrite ?lookup_insert_Some, lookup_delete_Some; [|naive_solver].
    intros [[<- <-]|(_ & _ & Hk)]; [exact Hf|by eapply Hst].
  - destruct (st !! key) as [s|] eqn:Hk; [|done]. by eapply Hst.
Qed.
Lemma dedup_time_kept kept st time rows out events st' : restores kept → states_kept kept st →
  dedup_time combine_fn st time rows = Ok (out, events, st') → states_kept kept st'.
Proof.
  intros Hres Hst. unfold dedup_time. intros ([o s] & Hr & Hk)%bind_ok. apply bind_ok in Hk as (es & He & [= <- <- <-]).
  unfold stateful_step in Hr. apply bind_ok in Hr as ([o' s'] & Hr & [= <- <-]).
  destruct (stateful_batch _ _ _ _) as [[o2 s2]| |] eqn:E; try done. injection Hr as <- <-. by eapply stateful_batch_kept.
Qed.
Lemma dedup_inputs_kept kept st inputs out events st' : restores kept → states_kept kept st →
  dedup_inputs grouping reduced combine_fn st inputs = Ok (out, events, st') → states_kept kept st'.
Proof.
  intros Hres. revert st out events. induction inputs as [|i inputs IH]; intros st out events Hst; cbn [dedup_inputs]; [by intros [= <- <- <-]|].
  intros ([[o es] s] & Hi & Hr)%bind_ok. apply bind_ok in Hr as ([[o' es'] s'] & Hr & [= <- <- <-]). eapply IH; [|exact Hr].
  destruct i as [time batch|frontier]; cbn [dedup_input] in Hi; apply bind_ok in Hi as (x & Hx & Hi).
  - by eapply dedup_time_kept.
  - by injection Hi as <- <- <-.
Qed.
End deduplicate.

(** The function of the Python library keeps rows whose first value is no Error. *)
Definition no_error_first (vs : list Value) : Prop := ∃ col cols, vs = col :: cols ∧ Value_eqb col VError = false.
Lemma is_different_with_state_kept acceptor state rows v :
  from_option (λ v, ∃ vs, v = VTuple vs ∧ no_error_first vs) True state →
  is_different_with_state acceptor state rows = Ok (Some v) → ∃ vs, v = VTuple vs ∧ no_error_first vs.
Proof.
  revert state. induction rows as [|[[|col cols] difference] rows IH]; intros state Hs; cbn [is_different_with_state]; [by intros [= ->]|done|].
  destruct (difference <=? 0); [by apply IH|]. destruct (Value_eqb col VError) eqn:Hcol; [by apply IH|]. cbn [orb].
  intros (val & _ & Hr)%bind_ok. apply bind_ok in Hr as ([] & _ & Hr); [|by eapply IH].
  apply IH in Hr; [done|]. by repeat eexists.
Qed.
Lemma is_different_with_state_restores acceptor : restores (is_different_with_state acceptor) no_error_first.
Proof.
  split.
  - intros vs (col & cols & -> & Hcol). cbn. by rewrite Hcol.
  - intros state values v. apply is_different_with_state_kept.
  - intros vs vs' E%list_cmp_eq_Forall2 (col & cols & -> & Hcol). inversion E as [|col' ? cols' ? Hc Hcs]; subst.
    exists col', cols'. split; [done|]. destruct (Value_eqb col' VError) eqn:He; [|done]. by destruct col', col.
Qed.

(** C24: A deduplication is recovered from what it persisted. Whatever reaches the
    operator after it read the persisted rows, which have at most one row for each key,
    the rows persisted before together with the events that it wrote are exactly its
    states, and so is what it has put out; a run that starts from the rows among these
    events has the same states at its first time and puts the same rows out. This holds
    for a combine_fn that makes each of the states it keeps again from the row of that
    state alone (restores), as is_different_with_state, the function of the Python
    library, does; the persisted rows are such states. *)
Theorem deduplicate_recovers `{XxHash, Python, SerdeJson, Chrono, Ndarray, ErrorMode} grouping reduced combine_fn
    kept persisted (ps : gmap Key (list Value)) inputs out events st :
  restores combine_fn kept → Forall is_row persisted → represents (snapshot persisted) (VTuple <$> ps) → all_kept kept ps →
  deduplicate grouping reduced combine_fn persisted inputs = Ok (out, events, st) →
  represents (snapshot (persisted ++ events)) st ∧ represents out st ∧
  ∃ out' st', deduplicate grouping reduced combine_fn (row_events (persisted ++ events)) [] = Ok (out', [], st') ∧
    represents out' st ∧ represents (rows_of st') st.
Proof.
  intros Hres Hrows Hps Hkept. destruct (recover combine_fn persisted ps kept Hres Hrows Hps Hkept) as (c & out0 & st0 & Hc & Hd & Hst0).
  unfold deduplicate. rewrite Hc. cbn [mbind outcome_bind]. rewrite Hd. cbn [mbind outcome_bind].
  intros ([[rest rest_events] st1] & Hrest & [= <- <- <-])%bind_ok. cbn [app].
  assert (states_kept kept st1) as Hstates.
  { eapply dedup_inputs_kept, Hrest; [done|]. eapply dedup_time_kept, Hd; done. }
  destruct (dedup_inputs_change _ _ _ _ _ _ _ _ Hrest) as [Hchange Hout]. destruct (dedup_time_change _ _ _ _ _ _ _ Hd) as [Hfirst _].
  cbn [app] in Hfirst. apply weq_eq_ord in Hfirst.
  assert (Hsnap : represents (snapshot (persisted ++ rest_events)) st1).
  { unfold represents. rewrite snapshot_app, <- Hchange. by apply weq_app. }
  split; [exact Hsnap|]. split; [unfold represents; by rewrite Hfirst, <- Hout|].
  set (es := row_events (persisted ++ rest_events)).
  assert (Hes : represents (snapshot es) (VTuple <$> ((λ v, match v with VTuple l => l | _ => [] end) <$> st1))).
  { unfold es. rewrite snapshot_row_events. rewrite <- map_fmap_compose. replace (_ <$> st1) with st1; [exact Hsnap|].
    apply map_eq. intros k. rewrite lookup_fmap. destruct (st1 !! k) as [v|] eqn:Hk; [|done].
    by destruct (tuple_states _ _ _ _ Hsnap Hk) as (vs & ->). }
  assert (Hall : Forall is_row es).
  { apply Forall_forall. intros e He. apply list_elem_of_In, filter_In in He as [_ He]. by rewrite He. }
  assert (Hkept' : all_kept kept ((λ v, match v with VTuple l => l | _ => [] end) <$> st1)).
  { intros k vs. rewrite lookup_fmap. destruct (st1 !! k) as [v|] eqn:Hk; [|done]. intros [= <-].
    by destruct (Hstates k v Hk) as (l & -> & ?). }
  destruct (recover combine_fn es _ kept Hres Hall Hes Hkept') as (c' & out' & st' & Hc' & Hd' & Hst').
  exists (out' ++ []), st'. rewrite Hc'. cbn [mbind outcome_bind]. rewrite Hd'. split; [done|].
  destruct (dedup_time_change _ _ _ _ _ _ _ Hd') as [Hfirst' _]. cbn [app] in Hfirst'. apply weq_eq_ord in Hfirst'.
  assert (Hsame : weq ord_eq (rows_of st') (rows_of st1)).
  { etrans; [symmetry; exact Hst'|]. unfold es. by rewrite snapshot_row_events. }
  split; [|exact Hsame]. rewrite app_nil_r. unfold represents. etrans; [exact Hfirst'|exact Hsame].
Qed.

(** ** Witnesses *)

Section witnesses.
Import Concrete.
#[local] Instance tolerant : ErrorMode := false.

Definition sample_row (i g v : Z) : Key * Value := (mk_Key i, VTuple [VInt g; VInt v]).
(** The third row is inserted and deleted again. *)
Definition sample_batches : list (list (Key * Value * Z)) :=
  [[(sample_row 1 0 10, 1); (sample_row 2 1 32, 1); (sample_row 3 1 7, 1)]; [(sample_row 3 1 7, -1); (sample_row 4 1 10, 1)]].
Definition sample_rows : list (Key * Value) := [sample_row 1 0 10; sample_row 2 1 32; sample_row 4 1 10].
Definition sample_reducers : list ReducerData :=
  [mk_ReducerData Reducer_Count false [ValuePath [1%nat]]; mk_ReducerData Reducer_IntSum false [ValuePath [1%nat]];
   mk_ReducerData Reducer_Min true [ValuePath [1%nat]]].
Definition sample_specs : list (list Row → Value) :=
  [λ rows, VInt (Z.of_nat (length rows)); λ rows, int_sum_value (ones rows); reducer_value (of_unary MinReducer)].
Definition sample_key (row : Key * Value) : option Key :=
  match group_key [ValuePath [0%nat]] WholeKey false row with Ok k => k | _ => None end.
Definition sample_args (paths : list ColumnPath) (row : Key * Value) : list Value :=
  match extract_all paths (fst row) (snd row) with Ok vs => vs | _ => [] end.

Lemma group_by_table_groups_witness :
∃ out, group_by_table (H := release) NotTotal sample_batches [ValuePath [0%nat]] WholeKey sample_reducers false = Ok (Ok out) ∧
  represents out (map_imap (λ k _, VTuple <$> group_values sample_key sample_args (zip sample_reducers sample_specs) sample_rows k)
    (group_keys sample_key sample_rows)).
Proof.
apply (group_by_table_groups NotTotal sample_batches [ValuePath [0%nat]] WholeKey sample_reducers false sample_specs sample_rows).
- done.
- intros f _. cbn [concat sample_batches app ones map sample_rows wsum foldr fst snd]. lia.
- done.
- done.
- intros row Hrow. cbn in Hrow. repeat (apply elem_of_cons in Hrow as [->|Hrow]; [vm_compute; reflexivity|]). by apply elem_of_nil in Hrow.
- intros d row Hd Hrow. cbn in Hd, Hrow.
  repeat (apply elem_of_cons in Hd as [->|Hd]; [repeat (apply elem_of_cons in Hrow as [->|Hrow]; [split; [reflexivity|discriminate]|]);
    by apply elem_of_nil in Hrow|]). by apply elem_of_nil in Hd.
- repeat constructor.
Defined.
(** The table itself: one row of group 0 and two of group 1. *)
Example sample_groups :
  (λ r, match r with Ok (Ok out) => map (λ e, (snd (fst e), snd e)) out | _ => [] end)
    (group_by_table (H := release) NotTotal sample_batches [ValuePath [0%nat]] WholeKey sample_reducers false) =
  [(VTuple [VInt 2; VInt 42; VInt 10], 1); (VTuple [VInt 1; VInt 10; VInt 10], 1)].
Proof. vm_compute. reflexivity. Qed.
Example iteration_has_no_latest :
  group_by_table (H := release) NotTotal [] [] WholeKey [mk_ReducerData Reducer_Latest false []] false = Err NotSupportedInIteration.
Proof. reflexivity. Qed.

(** A value is accepted when it is another one. *)
Definition keep_changes : option Value → list (list Value * Z) → DynResult (option Value) :=
  is_different_with_state (λ new old, Ok (negb (Value_eqb new old))).
Definition sample_inputs : list DedupInput :=
  [Rows (mk_Timestamp 2) [(sample_row 1 0 10, 1); (sample_row 2 1 32, 1)]; Progress [mk_Timestamp 4];
   Rows (mk_Timestamp 4) [(sample_row 3 1 40, 1)]; Progress []].
Lemma deduplicate_recovers_witness :
∃ out events st,
  deduplicate [ValuePath [0%nat]] [ValuePath [1%nat]] keep_changes [Insert (mk_Key 9) [VInt 8]] sample_inputs = Ok (out, events, st) ∧
  length events = 5%nat ∧ represents (snapshot ([Insert (mk_Key 9) [VInt 8]] ++ events)) st.
Proof.
eexists _, _, _. split; [vm_compute; reflexivity|]. split; [reflexivity|].
eapply (deduplicate_recovers [ValuePath [0%nat]] [ValuePath [1%nat]] keep_changes no_error_first [Insert (mk_Key 9) [VInt 8]]
  {[mk_Key 9 := [VInt 8]]} sample_inputs).
- apply is_different_with_state_restores.
- by repeat constructor.
- rewrite map_fmap_singleton. unfold represents. rewrite rows_of_ones, map_to_list_singleton. reflexivity.
- intros k vs [_ <-]%lookup_singleton_Some. by exists (VInt 8), [].
- vm_compute. reflexivity.
Defined.
End witnesses.
