(* ===== verification/Complex.v ===== *)
(** Complex columns (src/engine/dataflow/complex_columns.rs, with the computers of
    engine/graph.rs): the demand-driven evaluation of the attributes and methods of
    class transformers.

    A computer is user code that asks its context for the values of other columns.  It
    is modelled by what it asks and does with the answers, a tree of [Get]s that ends
    in a result.  The columns and universes behind the handles are given; collections
    and their operators are those of Table.v, keyed by requests as well. *)
From Stdlib Require Import ZArith Lia Bool.
From stdpp Require Import base list strings.
From S2P Require Import Prelude Order Float Text Data Externals Value Weights Expression Output Table.
Open Scope Z_scope.

(** ** Requests and events *)

Record Request := mk_Request { column_index : nat; request_key : Key; request_args : option (list Value) }.
Inductive Event :=
| EvRequest (request : Request)
| EvReply (request : Request) (reply : Value)
| EvDependency (requester requested : Request).
Inductive ComputerOutput :=
| OutReply (value : Value)
| OutRequest (request : Request).
(** The order of the variants is important: the request comes before the dependencies. *)
Inductive ComputerInput :=
| InRequest
| InRequestWithData (data : Value)
| InDependency (requested : Request) (value : Value).

(** The derived orders: variants first, then the fields from left to right. *)
Definition request_fields (r : Request) : Z * Key * option (list Value) :=
  (Z.of_nat (column_index r), request_key r, request_args r).
#[export] Instance Request_ord : Ord Request := λ a b, cmp (request_fields a) (request_fields b).
Definition event_fields (e : Event) : Z * Request * option Value * option Request :=
  match e with
  | EvRequest r => (0, r, None, None)
  | EvReply r v => (1, r, Some v, None)
  | EvDependency r d => (2, r, None, Some d)
  end.
#[export] Instance Event_ord : Ord Event := λ a b, cmp (event_fields a) (event_fields b).
Definition input_fields (i : ComputerInput) : Z * option Request * option Value :=
  match i with
  | InRequest => (0, None, None)
  | InRequestWithData d => (1, None, Some d)
  | InDependency r v => (2, Some r, Some v)
  end.
#[export] Instance ComputerInput_ord : Ord ComputerInput := λ a b, cmp (input_fields a) (input_fields b).

(** [impl Shard for Request] and [for Event]. *)
Definition Request_shard (self : Request) : Z := shard (request_key self).
Definition Event_shard (self : Event) : Z :=
  match self with
  | EvRequest request => Request_shard request
  | EvReply request _ => Request_shard request
  | EvDependency _ requested => Request_shard requested
  end.

(** ** Computers *)

Inductive Program :=
| Return (result : DynResult (option Value))
| Get (column_index : nat) (row : Key) (args : list Value) (k : option Value → Program).
(** A logic gets [this_row] and [data] of its context. *)
Inductive ComputerLogic :=
| Attribute (logic : Key → Value → Program)
| Method (logic : Key → Value → list Value → Program).
Record ComputerDetails := mk_ComputerDetails { logic : ComputerLogic; data_column : option (list (Key * Value * Z)) }.

(** [Context::get]: the request, and the answer if it is among the values of the
    dependencies; otherwise the request is noted. *)
Definition context_request (column_index : nat) (row : Key) (args : list Value) : Request :=
  mk_Request column_index row (match args with [] => None | args => Some args end).
(** A hash map collected from pairs: the last pair of a request stays. *)
Definition lookup_value (values : list (Request * Value)) (request : Request) : option Value :=
  foldl (λ found rv, if ord_eqb (fst rv) request then Some (snd rv) else found) None values.
Fixpoint run (values : list (Request * Value)) (p : Program) : DynResult (option Value) * list Request :=
  match p with
  | Return result => (result, [])
  | Get column_index row args k =>
      let request := context_request column_index row args in
      match lookup_value values request with
      | Some value => run values (k (Some value))
      | None => let '(result, requests) := run values (k None) in (result, request :: requests)
      end
  end.
(** [ComputerLogic::compute]. *)
Definition compute (self : ComputerLogic) (key : Key) (data : Value) (args : list Value) : DynResult Program :=
  match self with
  | Attribute logic =>
      match args with [] => Ok (logic key data) | _ => Panic "assertion failed: args.is_empty()" end
  | Method logic => Ok (logic key data args)
  end.

(** ** Collections keyed by records *)

Section by_record.
Context {K : Type} `{Ord K}.

Definition join_by {A B C} (left : Coll (K * A)) (right : Coll (K * B)) (result : K → A → B → C) : Coll C :=
  flat_map (λ l,
    flat_map (λ r,
      if ord_eqb (fst (fst l)) (fst (fst r)) then
        [(result (fst (fst l)) (snd (fst l)) (snd (fst r)), snd l * snd r)]
      else []) right) left.
Fixpoint group_by {V} (c : Coll (K * V)) : list (K * list (V * Z)) :=
  match c with
  | [] => []
  | ((k, v), w) :: c =>
      match group_by c with
      | (k', vs) :: gs => if ord_eqb k k' then (k, (v, w) :: vs) :: gs else (k, [(v, w)]) :: (k', vs) :: gs
      | [] => [(k, [(v, w)])]
      end
  end.
Definition reduce_by {V O} `{Ord V} (logic : K → list (V * Z) → outcome unit (list (O * Z))) (c : Coll (K * V))
    : outcome unit (Coll (K * O)) :=
  r ← try_collect (λ g, o ← logic (fst g) (snd g); Ok (map (λ e, ((fst g, fst e), snd e)) o)) (group_by (consolidate c));
  Ok (concat r).
End by_record.

(** ** The columns *)

Inductive ComplexError := UniverseMismatch.
(** A universe, as its handle and its keys; a column with the handle of its universe. *)
Record Universe := mk_Universe { universe_handle : nat; universe_keys : Coll Key }.
Record Column := mk_Column { column_universe : nat; column_values : Coll (Key * Value) }.
Inductive Computer :=
| AttributeComputer (logic : Key → Value → Program) (universe : Universe)
| MethodComputer (logic : Key → Value → list Value → Program) (universe : Universe) (data : Value) (data_column : option Column).
Inductive ComplexColumn :=
| ColumnInput (column : Column)
| InternalComputer (computer : Computer)
| ExternalComputer (computer : Computer).
Inductive Output :=
| AttributeOutput (column_index : nat) (universe : Universe)
| MethodOutput (data : Value) (universe : Universe).
Record InputParts := mk_InputParts { events : option (Coll Event); computer_details : option ComputerDetails; output : option Output }.
Record InputDetails := mk_InputDetails { computer_index : option nat; output_index : option nat }.

(** [From<Computer> for ComputerDetails]. *)
Definition details_of_computer (computer : Computer) : ComputerDetails :=
  match computer with
  | AttributeComputer logic _ => mk_ComputerDetails (Attribute logic) None
  | MethodComputer logic _ _ data_column => mk_ComputerDetails (Method logic) (column_values <$> data_column)
  end.
Definition handle_input (complex_column : ComplexColumn) (column_index : nat) : outcome ComplexError InputParts :=
  match complex_column with
  | ColumnInput column =>
      let events := map (λ e, (EvReply (mk_Request column_index (fst (fst e)) None) (snd (fst e)), snd e)) (column_values column) in
      Ok (mk_InputParts (Some events) None None)
  | ExternalComputer (AttributeComputer logic universe) =>
      let events := map (λ e, (EvRequest (mk_Request column_index (fst e) None), snd e)) (universe_keys universe) in
      Ok (mk_InputParts (Some events) (Some (mk_ComputerDetails (Attribute logic) None)) (Some (AttributeOutput column_index universe)))
  | ExternalComputer (MethodComputer logic universe data data_column) =>
      _ ← match data_column with
          | Some column => if column_universe column =? universe_handle universe then Ok tt else Err UniverseMismatch
          | None => Ok tt
          end%nat;
      Ok (mk_InputParts None (Some (mk_ComputerDetails (Method logic) (column_values <$> data_column)))
            (Some (MethodOutput data universe)))
  | InternalComputer computer => Ok (mk_InputParts None (Some (details_of_computer computer)) None)
  end.

(** ** One round of the iteration *)

Section complex_columns.
Context `{ErrorMode}.

Definition event_requests (e : Event) : list Request :=
  match e with EvRequest request => [request] | EvDependency _ requested => [requested] | _ => [] end.
Definition event_dependencies (e : Event) : list (Request * Request) :=
  match e with EvDependency requester requested => [(requester, requested)] | _ => [] end.
Definition event_values (e : Event) : list (Request * Value) :=
  match e with EvReply request value => [(request, value)] | _ => [] end.
Definition flat_map_pure {A B} (f : A → list B) (c : Coll A) : Coll B := flat_map (λ e, map (λ b, (b, snd e)) (f (fst e))) c.

(** The requests of each computer; the index of a column is not verified before. *)
Definition computer_request (input_details : list InputDetails) (request : Request) : outcome unit (list (nat * Request)) :=
  match input_details !! column_index request with
  | None => Panic "index out of bounds"
  | Some details => Ok (match computer_index details with Some index => [(index, request)] | None => [] end)
  end.
Definition requests_of (index : nat) (computer_requests : Coll (nat * Request)) : Coll Request :=
  map (λ e, (snd (fst e), snd e)) (List.filter (λ e, fst (fst e) =? index)%nat computer_requests).
Definition request_inputs (details : ComputerDetails) (our_requests : Coll Request) : Coll (Request * ComputerInput) :=
  match data_column details with
  | None => map (λ e, ((fst e, InRequest), snd e)) our_requests
  | Some data_column =>
      join_by (map (λ e, ((request_key (fst e), fst e), snd e)) our_requests) data_column
        (λ _key request data, (request, InRequestWithData data))
  end.
Definition our_inputs (details : ComputerDetails) (our_requests : Coll Request) (dependencies : Coll (Request * Request))
    (values : Coll (Request * Value)) : Coll (Request * ComputerInput) :=
  let reverse_dependencies :=
    join_by dependencies (map (λ e, ((fst e, tt), snd e)) our_requests) (λ requester requested _, (requested, requester)) in
  request_inputs details our_requests ++
  join_by reverse_dependencies values (λ requested requester value, (requester, InDependency requested value)).
Definition dependency_value (e : ComputerInput * Z) : outcome unit (Request * Value) :=
  if negb (snd e =? 1) then Panic "assertion `left == right` failed"
  else match fst e with
       | InDependency requested value => Ok (requested, value)
       | _ => Panic "internal error: entered unreachable code: expected only one request"
       end.
Definition run_computer (self : ComputerLogic) (request : Request) (data : Value) (rest : list (ComputerInput * Z))
    : outcome unit (list (ComputerOutput * Z)) :=
  values ← try_collect dependency_value rest;
  program ← unwrap_with_reporter (compute self (request_key request) data (default [] (request_args request)));
  let '(result, requests) := run values program in
  result ← unwrap_with_reporter result;
  Ok (match result with Some value => [(OutReply value, 1)] | None => [] end ++ map (λ r, (OutRequest r, 1)) requests).
Definition computer_logic (self : ComputerLogic) (request : Request) (input : list (ComputerInput * Z))
    : outcome unit (list (ComputerOutput * Z)) :=
  match input with
  | [] => Panic "called `Option::unwrap()` on a `None` value"
  | (first, first_count) :: rest =>
      if negb (first_count =? 1) then Panic "assertion `left == right` failed"
      else match first with
           | InRequest => run_computer self request VNone rest
           | InRequestWithData data => run_computer self request data rest
           | InDependency _ _ => Ok []
           end
  end.
Definition output_event (request : Request) (output : ComputerOutput) : Event :=
  match output with
  | OutReply value => EvReply request value
  | OutRequest requested => EvDependency request requested
  end.
Definition computer_events (computer_requests : Coll (nat * Request)) (dependencies : Coll (Request * Request))
    (values : Coll (Request * Value)) (ic : nat * ComputerDetails) : outcome unit (Coll Event) :=
  let '(index, computer) := ic in
  our_outputs ← reduce_by (computer_logic (logic computer))
    (our_inputs computer (requests_of index computer_requests) dependencies values);
  Ok (map (λ e, (output_event (fst (fst e)) (snd (fst e)), snd e)) our_outputs).
Definition step (input_details : list InputDetails) (computers : list ComputerDetails) (events : Coll Event)
    : outcome unit (Coll Event) :=
  let requests := distinct (flat_map_pure event_requests events) in
  let dependencies := flat_map_pure event_dependencies events in
  let values := flat_map_pure event_values events in
  computer_requests ← flat_map_coll (computer_request input_details) requests;
  new_events ← try_collect (computer_events computer_requests dependencies values) (zip (seq 0 (length computers)) computers);
  Ok (distinct (events ++ concat new_events)).

(** [iterate]: rounds from the input until one changes nothing. *)
Fixpoint iterate_events (fuel : nat) (input_details : list InputDetails) (computers : list ComputerDetails) (events : Coll Event)
    : option (outcome unit (Coll Event)) :=
  match fuel with
  | O => None
  | S fuel =>
      match step input_details computers events with
      | Ok next => if ord_eqb (consolidate events) (consolidate next) then Some (Ok next)
                   else iterate_events fuel input_details computers next
      | Err e => Some (Err e)
      | Panic p => Some (Panic p)
      end
  end.

(** ** The columns that come out *)

Definition attribute_value (column_index' : nat) (e : Event) : outcome unit (list (Key * Value)) :=
  match e with
  | EvReply request value =>
      if (column_index request =? column_index')%nat then
        match request_args request with
        | None => Ok [(request_key request, value)]
        | Some _ => Panic "assertion failed: request.args.is_none()"
        end
      else Ok []
  | _ => Ok []
  end.
Definition to_column (events : Coll Event) (self : Output) : outcome unit (Coll (Key * Value)) :=
  match self with
  | AttributeOutput column_index universe =>
      values ← flat_map_coll (attribute_value column_index) events;
      _ ← assert_input_keys_match_output_keys (universe_keys universe) values;
      Ok values
  | MethodOutput data universe =>
      Ok (map (λ e, ((fst e, VTuple [data; VPointer (fst e)]), snd e)) (universe_keys universe))
  end.

(** The parts of the inputs, with the indexes of their computers and outputs. *)
Record Parts := mk_Parts {
  input_details : list InputDetails; input_events : Coll Event; computers : list ComputerDetails; outputs : list Output
}.
Definition add_input (p : Parts) (parts : InputParts) : Parts :=
  mk_Parts
    (input_details p ++ [mk_InputDetails ((λ _, length (computers p)) <$> computer_details parts)
                                         ((λ _, length (outputs p)) <$> output parts)])
    (input_events p ++ default [] (events parts))
    (computers p ++ option_list (computer_details parts))
    (outputs p ++ option_list (output parts)).
Definition handle_inputs (inputs : list ComplexColumn) : outcome ComplexError Parts :=
  parts ← try_collect (λ ic, handle_input (snd ic) (fst ic)) (zip (seq 0 (length inputs)) inputs);
  Ok (foldl add_input (mk_Parts [] [] [] []) parts).
Definition complex_columns (fuel : nat) (inputs : list ComplexColumn)
    : outcome ComplexError (option (outcome unit (list (Coll (Key * Value))))) :=
  p ← handle_inputs inputs;
  Ok (match iterate_events fuel (input_details p) (computers p) (input_events p) with
      | None => None
      | Some result => Some (events ← result; try_collect (to_column events) (outputs p))
      end).
End complex_columns.
