(* ===== verification/ComplexProps.v ===== *)
(** Collections of distinct records as sets, their groups and joins, and the recursive
    evaluation of computers that the demand-driven one of Complex.v is compared with. *)
From Stdlib Require Import ZArith Lia Bool.
From stdpp Require Import base list sets sorting strings.
From S2P Require Import Prelude Order Float Text Data Externals Value Weights Expression Output Table TableProps.
From S2P Require Import Instances Complex GroupProps.
Open Scope Z_scope.

(** ** Collections as sets of records that are equal when they compare equal *)

Section exact.
Context {A : Type} `{OrdLaws A} (ok : A → Prop) (Hexact : ∀ x y, ok x → ok y → cmp x y = Eq → x = y).
Implicit Types (l : list A) (c : list (A * Z)).

Definition sorted_set l : Prop := StronglySorted (λ x y, cmp x y = Lt) l.
Lemma sorted_set_nodup l : sorted_set l → NoDup l.
Proof.
  induction 1 as [|x l _ IH Hx]; constructor; [|done]. intros Hin. rewrite Forall_forall in Hx.
  pose proof (Hx x Hin) as E. by rewrite cmp_refl in E.
Qed.
Lemma merge_runs_incl (current : A * Z) (rest : list (A * Z)) x : x ∈ map fst (merge_runs current rest) → x ∈ map fst (current :: rest).
Proof.
  revert current. induction rest as [|next rest IH]; intros current; cbn [merge_runs].
  - destruct (_ =? 0); [by intros ?%elem_of_nil|done].
  - destruct (ord_eqb _ _).
    + intros Hx%IH. cbn [map fst] in *. rewrite !elem_of_cons in *. naive_solver.
    + rewrite map_app, elem_of_app. intros [Hx|Hx%IH].
      * destruct (_ =? 0); [by apply elem_of_nil in Hx|]. cbn in *. apply list_elem_of_singleton in Hx as ->. by constructor.
      * cbn [map] in *. by constructor.
Qed.
Lemma consolidate_incl c x : x ∈ map fst (consolidate c) → x ∈ map fst c.
Proof.
  unfold consolidate. pose proof (sort_by_perm (λ x y : A * Z, cmp (fst x) (fst y)) c) as Hp.
  destruct (sort_by _ c) as [|e es]; [by intros ?%elem_of_nil|]. intros Hx%merge_runs_incl. by rewrite Hp in Hx.
Qed.
Lemma positive_weight c x : Forall (λ e, 0 < snd e) c → x ∈ map fst c → 0 < weight_at c x.
Proof.
  assert (Hn : ∀ c, Forall (λ e, 0 < snd e) c → 0 ≤ weight_at c x).
  { induction 1 as [|[y w] c' Hw _ IH]; [done|]. rewrite weight_at_cons. cbn [snd] in Hw. destruct (ord_eqb x y); lia. }
  induction 1 as [|[y w] c Hw Hc IH]; cbn [map fst]; [by intros ?%elem_of_nil|]. rewrite weight_at_cons. cbn [snd] in Hw.
  specialize (Hn c Hc). intros [->|Hin]%elem_of_cons.
  - unfold ord_eqb. rewrite cmp_refl. lia.
  - specialize (IH Hin). destruct (ord_eqb x y); lia.
Qed.
(** [distinct] of positive weights is the set of the records. *)
Lemma distinct_set c : Forall (λ e, 0 < snd e) c → (∀ x, x ∈ map fst c → ok x) →
  ∃ l, distinct c = ones l ∧ sorted_set l ∧ ∀ x, x ∈ l ↔ x ∈ map fst c.
Proof.
  intros Hc Hok. destruct (consolidate_spec c) as [Hs _]. exists (map fst (consolidate c)). split; [|split; [done|]].
  - unfold distinct, ones. by rewrite map_map.
  - intros x. split; [apply consolidate_incl|]. intros Hx. pose proof (positive_weight c x Hc Hx) as Hw.
    destruct (weight_at_present (consolidate c) x) as (e & He & E); [rewrite consolidate_weight; lia|].
    assert (Hin : fst e ∈ map fst (consolidate c)) by (apply list_elem_of_fmap; by exists e).
    by rewrite (Hexact _ _ (Hok x Hx) (Hok _ (consolidate_incl c _ Hin)) E).
Qed.
(** [consolidate] of distinct records sorts them. *)
Lemma consolidate_set l : NoDup l → (∀ x, x ∈ l → ok x) → ∃ l', consolidate (ones l) = ones l' ∧ sorted_set l' ∧ ∀ x, x ∈ l' ↔ x ∈ l.
Proof.
  intros Hnd Hok. assert (Hmap : map fst (ones l) = l) by (unfold ones; rewrite map_map; apply map_id).
  destruct (distinct_set (ones l)) as (l' & Hl' & Hs & Hin); [|by rewrite Hmap|].
  { apply Forall_forall. intros e (x & -> & _)%list_elem_of_fmap. cbn. lia. }
  rewrite Hmap in Hin. exists l'. split; [|done]. rewrite <- Hl'. unfold distinct.
  assert (Hw : ∀ e, e ∈ consolidate (ones l) → snd e = 1); [|by rewrite (map_ext_Forall _ id), map_id by (apply Forall_forall; intros [x w] He; cbn; by rewrite <- (Hw _ He))].
  intros e He. destruct (consolidate_spec (ones l)) as [Hsc _]. rewrite <- (weight_at_sorted _ _ Hsc He), consolidate_weight.
  assert (Hx : fst e ∈ l) by (rewrite <- Hmap; apply consolidate_incl, list_elem_of_fmap; by exists e).
  apply list_elem_of_split in Hx as (l1 & l2 & El). rewrite El in *. clear El He Hl'.
  apply NoDup_app in Hnd as (_ & Hd & Hnd). apply NoDup_cons in Hnd as [Hn2 _].
  unfold ones. rewrite map_app, weight_at_app. cbn [map]. rewrite weight_at_cons.
  assert (Habs : ∀ l', (∀ x, x ∈ l' → ok x ∧ x ≠ fst e) → weight_at (map (λ x, (x, 1)) l') (fst e) = 0).
  { intros l'' Hl''. apply weight_at_absent. intros e' (x & -> & Hx)%list_elem_of_fmap E. cbn [fst] in E.
    destruct (Hl'' x Hx) as [Hokx Hne]. apply Hne. symmetry. apply Hexact; [|done|done]. apply Hok. apply elem_of_app. right. by constructor. }
  rewrite !Habs; [unfold ord_eqb; by rewrite cmp_refl|..].
  - intros x Hx. split; [apply Hok, elem_of_app; right; by constructor|]. by intros ->.
  - intros x Hx. split; [apply Hok, elem_of_app; by left|]. intros ->. apply (Hd _ Hx). by constructor.
Qed.
End exact.
Lemma sorted_set_unique {A} `{OrdLaws A} (l1 l2 : list A) : sorted_set l1 → sorted_set l2 → (∀ x, x ∈ l1 ↔ x ∈ l2) → l1 = l2.
Proof.
  intros H1' H2' Hin. apply (StronglySorted_unique_strong (λ x y : A, cmp x y = Lt)); [|done|done|].
  - intros x y _ _ E1 E2. rewrite cmp_antisym, E1 in E2. done.
  - by apply NoDup_Permutation; [apply sorted_set_nodup..|].
Qed.

(** ** Groups of a set of pairs *)

Section groups.
Context {K V : Type} `{OrdLaws K, OrdLaws V} (ok : K → Prop) (Hexact : ∀ x y, ok x → ok y → cmp x y = Eq → x = y).
Context (okv : V → Prop) (Hexactv : ∀ x y, okv x → okv y → cmp x y = Eq → x = y).
Implicit Types (l : list (K * V)) (gs : list (K * list V)).

Definition is_group l (k : K) (us : list V) : Prop := us ≠ [] ∧ sorted_set us ∧ ∀ v, v ∈ us ↔ (k, v) ∈ l.
Lemma is_group_unique l k us us' : is_group l k us → is_group l k us' → us = us'.
Proof. intros (_ & Hs & Hin) (_ & Hs' & Hin'). apply sorted_set_unique; [done..|]. intros x. by rewrite Hin, Hin'. Qed.
Lemma group_by_spec l : sorted_set l → (∀ x, x ∈ l → ok (fst x)) →
  ∃ gs, group_by (ones l) = map (λ g, (fst g, ones (snd g))) gs ∧ StronglySorted (λ x y, cmp x y = Lt) (map fst gs) ∧
    (∀ k us, (k, us) ∈ gs → us ≠ [] ∧ sorted_set us) ∧ ∀ k v, (k, v) ∈ l ↔ ∃ us, (k, us) ∈ gs ∧ v ∈ us.
Proof.
  induction 1 as [|[k v] l Hl IH Hlt]; intros Hok.
  { exists []. split; [done|]. split; [constructor|]. split; [by intros ?? ?%elem_of_nil|].
    intros k v. split; [by intros ?%elem_of_nil|by intros (? & ?%elem_of_nil & _)]. }
  destruct IH as (gs & Hgs & Hs & Hg & Hin); [intros x Hx; apply Hok; by constructor|].
  assert (Hltin : ∀ k' v', (k', v') ∈ l → cmp (k, v) (k', v') = Lt) by (rewrite Forall_forall in Hlt; by intros; apply Hlt).
  cbn [ones map group_by]. change (map (λ x, (x, 1)) l) with (ones l). rewrite Hgs. destruct gs as [|[k' us] gs]; cbn [map fst snd].
  { exists [(k, [v])]. split; [done|]. split; [repeat constructor|]. split.
    - intros k1 us1 [= -> ->]%list_elem_of_singleton. split; [done|repeat constructor].
    - intros k1 v1. rewrite elem_of_cons, Hin. split.
      + intros [[= -> ->]|(us & Hus & _)]; [exists [v]; split; constructor|by apply elem_of_nil in Hus].
      + intros (us & [= -> ->]%list_elem_of_singleton & ->%list_elem_of_singleton). by left. }
  destruct (Hg k' us) as [Hne Hsu]; [constructor|]. destruct us as [|u us]; [done|].
  assert (Hu : (k', u) ∈ l) by (apply Hin; exists (u :: us); split; constructor).
  unfold ord_eqb. pose proof (Hltin _ _ Hu) as E. rewrite pair_cmp in E. cbn [fst snd] in E.
  destruct (cmp k k') eqn:Ek; [| |done].
  - assert (k = k') as <- by (apply Hexact; [apply (Hok (k, v)); constructor|apply (Hok (k', u)); by constructor|done]).
    exists ((k, v :: u :: us) :: gs). split; [done|]. split; [done|]. split.
    + intros k1 us1 [[= -> ->]|Hin1]%elem_of_cons; [|apply (Hg k1 us1); by constructor]. split; [done|]. constructor; [done|].
      apply Forall_forall. intros u1 Hu1. assert (Hin1 : (k, u1) ∈ l) by (apply Hin; exists (u :: us); split; [constructor|done]).
      apply Hltin in Hin1. rewrite pair_cmp in Hin1. cbn [fst snd] in Hin1. by rewrite cmp_refl in Hin1.
    + intros k1 v1. rewrite elem_of_cons, Hin. split.
      * intros [[= -> ->]|(us1 & [[= -> ->]|Hus1]%elem_of_cons & Hv1)].
        -- exists (v :: u :: us). split; constructor.
        -- exists (v :: u :: us). split; [constructor|by constructor].
        -- exists us1. split; [by constructor|done].
      * intros (us1 & [[= -> ->]|Hus1]%elem_of_cons & Hv1).
        -- apply elem_of_cons in Hv1 as [->|Hv1]; [by left|]. right. exists (u :: us). split; [constructor|done].
        -- right. exists us1. split; [by constructor|done].
  - exists ((k, [v]) :: (k', u :: us) :: gs). split; [done|]. split; [|split].
    + cbn [map fst] in *. constructor; [done|]. apply StronglySorted_inv in Hs as [_ Hf]. constructor; [done|].
      eapply Forall_impl; [exact Hf|]. intros k2 H2'. eapply cmp_lt_le_trans; [exact Ek|]. unfold ord_le. by rewrite H2'.
    + intros k1 us1 [[= -> ->]|Hin1]%elem_of_cons; [|by apply (Hg k1 us1)]. split; [done|repeat constructor].
    + intros k1 v1. rewrite elem_of_cons, Hin. split.
      * intros [[= -> ->]|(us1 & Hus1 & Hv1)]; [exists [v]; split; constructor|]. exists us1. split; [by constructor|done].
      * intros (us1 & [[= -> ->]|Hus1]%elem_of_cons & Hv1); [apply list_elem_of_singleton in Hv1 as ->; by left|]. right. by exists us1.
Qed.
Lemma groups_are_groups l gs k us : StronglySorted (λ x y, cmp x y = Lt) (map fst gs) →
  (∀ k us, (k, us) ∈ gs → us ≠ [] ∧ sorted_set us) → (∀ k v, (k, v) ∈ l ↔ ∃ us, (k, us) ∈ gs ∧ v ∈ us) →
  (k, us) ∈ gs ↔ is_group l k us.
Proof.
  intros Hs Hg Hin.
  assert (Huniq : ∀ k us us', (k, us) ∈ gs → (k, us') ∈ gs → us = us').
  { clear Hin Hg. intros k0 us0 us1. induction gs as [|[k1 us2] gs IH]; [by intros ?%elem_of_nil|].
    cbn [map fst] in Hs. apply StronglySorted_inv in Hs as [Hs Hf]. rewrite Forall_forall in Hf.
    assert (Hno : ∀ us, (k1, us) ∉ gs).
    { intros us' Hus'. assert (E : cmp k1 k1 = Lt) by (apply Hf, list_elem_of_fmap; by exists (k1, us')). by rewrite cmp_refl in E. }
    intros [[= -> ->]|H1']%elem_of_cons [[= ->]|H2']%elem_of_cons; [done|..].
    - by destruct (Hno us1).
    - by destruct (Hno us0).
    - by apply IH. }
  assert (Hto : ∀ us, (k, us) ∈ gs → is_group l k us).
  { intros us' Hus'. destruct (Hg _ _ Hus') as [Hne Hsu]. split; [done|]. split; [done|]. intros v. rewrite Hin. split; [eauto|].
    intros (us1 & Hus1 & Hv). by rewrite (Huniq k us' us1). }
  split; [apply Hto|]. intros Hgr. destruct us as [|u us]; [by destruct Hgr|].
  destruct (proj1 (Hin k u)) as (us' & Hus' & _); [apply Hgr; constructor|]. by rewrite (is_group_unique l k _ us' Hgr (Hto _ Hus')).
Qed.
Lemma groups_of_set l : NoDup l → (∀ k v, (k, v) ∈ l → ok k ∧ okv v) →
  ∃ gs, group_by (consolidate (ones l)) = map (λ g, (fst g, ones (snd g))) gs ∧ (∀ k us, (k, us) ∈ gs ↔ is_group l k us) ∧
    ∀ k v, (k, v) ∈ l → ∃ us, is_group l k us.
Proof.
  intros Hnd Hok.
  destruct (consolidate_set (λ x : K * V, ok (fst x) ∧ okv (snd x))) with (l := l) as (l' & Hl' & Hs & Hin); [|done|by intros []; apply Hok|].
  { intros [k v] [k' v'] [Hk Hv] [Hk' Hv'] [E1 E2]%pair_cmp_eq. cbn [fst snd] in *.
    by rewrite (Hexact k k'), (Hexactv v v'). }
  destruct (group_by_spec l' Hs) as (gs & Hgs & Hsk & Hg & Hmem); [intros [k v] Hx; apply Hin in Hx; by apply Hok in Hx as [? _]|].
  assert (Hgr : ∀ k us, (k, us) ∈ gs ↔ is_group l k us).
  { intros k us. rewrite (groups_are_groups l' gs k us Hsk Hg Hmem). unfold is_group. by setoid_rewrite Hin. }
  exists gs. rewrite Hl'. split; [done|]. split; [done|]. intros k v Hx%Hin%Hmem. destruct Hx as (us & Hus & _). exists us. by apply Hgr.
Qed.
(** Reducing a set: every group is reduced once. *)
Lemma reduce_by_set {O} (logic : K → list (V * Z) → outcome unit (list (O * Z))) l :
  NoDup l → (∀ k v, (k, v) ∈ l → ok k ∧ okv v) →
  (∀ k us, is_group l k us → ∃ os, logic k (ones us) = Ok (ones os)) →
  ∃ out, reduce_by logic (ones l) = Ok (ones out) ∧
    ∀ k o, (k, o) ∈ out ↔ ∃ us os, is_group l k us ∧ logic k (ones us) = Ok (ones os) ∧ o ∈ os.
Proof.
  intros Hnd Hok Hlogic. destruct (groups_of_set l Hnd Hok) as (gs & Hgs & Hgr & _).
  unfold reduce_by. rewrite Hgs. clear Hgs.
  assert (Hout : ∃ out, try_collect (λ g, o ← logic (fst g) (snd g); Ok (map (λ e, ((fst g, fst e), snd e)) o))
      (map (λ g, (fst g, ones (snd g))) gs) = Ok (map ones out) ∧
    ∀ k o, (k, o) ∈ concat out ↔ ∃ us os, (k, us) ∈ gs ∧ logic k (ones us) = Ok (ones os) ∧ o ∈ os).
  { assert (Hlogic' : ∀ k us, (k, us) ∈ gs → ∃ os, logic k (ones us) = Ok (ones os)) by (intros k us Hk; by apply Hlogic, Hgr).
    clear Hlogic Hgr. induction gs as [|[k us] gs IH].
    { exists []. split; [done|]. intros k o. cbn. split; [by intros ?%elem_of_nil|by intros (? & ? & ?%elem_of_nil & _)]. }
    destruct IH as (out & Hout & Hmem); [intros k' us' Hk'; apply Hlogic'; by constructor|].
    destruct (Hlogic' k us) as (os & Hos); [constructor|]. exists (map (λ o, (k, o)) os :: out).
    unfold try_collect in *. cbn [map fst snd]. rewrite Hos. cbn. rewrite Hout. split; [unfold ones; by rewrite !map_map|].
    intros k' o. cbn [concat]. rewrite elem_of_app, Hmem. split.
    - intros [(o' & [= -> ->] & Ho)%list_elem_of_fmap|(us' & os' & Hus' & Hos' & Ho)].
      + exists us, os. split; [constructor|done].
      + exists us', os'. split; [by constructor|done].
    - intros (us' & os' & [[= -> ->]|Hus']%elem_of_cons & Hos' & Ho).
      + left. apply list_elem_of_fmap. exists o. split; [done|]. rewrite Hos in Hos'. injection Hos' as Hos'.
        unfold ones in Hos'. apply (f_equal (map fst)) in Hos'. rewrite !map_map, !map_id in Hos'. by subst.
      + right. by exists us', os'. }
  destruct Hout as (out & -> & Hmem). cbn [mbind outcome_bind]. exists (concat out). split.
  - f_equal. unfold ones. by rewrite concat_map.
  - intros k o. rewrite Hmem. by setoid_rewrite Hgr.
Qed.
End groups.

(** ** Plain values *)

#[export] Instance Request_ord_laws : OrdLaws Request.
Proof. by apply (ord_laws_via request_fields). Qed.
#[export] Instance Event_ord_laws : OrdLaws Event.
Proof. by apply (ord_laws_via event_fields). Qed.
#[export] Instance ComputerInput_ord_laws : OrdLaws ComputerInput.
Proof. by apply (ord_laws_via input_fields). Qed.

Section plain.
(** Values that are equal when they compare equal: all but floats and handles. *)
Context (plain : Value → Prop) (plain_eq : ∀ v w, plain v → plain w → cmp v w = Eq → v = w).

Definition plain_request (r : Request) : Prop := match request_args r with Some args => Forall plain args | None => True end.
Definition plain_event (e : Event) : Prop :=
  match e with
  | EvRequest r => plain_request r
  | EvReply r v => plain_request r ∧ plain v
  | EvDependency a b => plain_request a ∧ plain_request b
  end.
Definition plain_input (i : ComputerInput) : Prop :=
  match i with
  | InRequest => True
  | InRequestWithData d => plain d
  | InDependency r v => plain_request r ∧ plain v
  end.
Lemma plain_list_eq l l' : Forall plain l → Forall plain l' → cmp l l' = Eq → l = l'.
Proof.
  intros Hl Hl' E. apply list_cmp_eq_Forall2 in E. revert Hl Hl'.
  induction E as [|v w l l' E _ IH]; [done|]. intros [Hv Hl]%Forall_cons [Hw Hl']%Forall_cons.
  by rewrite (plain_eq v w Hv Hw E), IH.
Qed.
Lemma plain_request_eq r r' : plain_request r → plain_request r' → cmp r r' = Eq → r = r'.
Proof.
  destruct r as [i k args], r' as [i' k' args']. unfold plain_request. cbn. intros Ha Ha' E.
  apply pair_cmp_eq in E as [[Ei Ek]%pair_cmp_eq Ea]. cbn in *. apply Z_cmp_eq in Ei. apply key_eq_iff in Ek as ->.
  apply Nat2Z.inj in Ei as ->. destruct args as [args|], args' as [args'|]; try done. by rewrite (plain_list_eq args args').
Qed.
Lemma plain_event_eq e e' : plain_event e → plain_event e' → cmp e e' = Eq → e = e'.
Proof.
  intros He He' E. apply pair_cmp_eq in E as [[[En Er]%pair_cmp_eq Ev]%pair_cmp_eq Ed].
  destruct e as [r|r v|a b], e' as [r'|r' v'|a' b']; try done; cbn in *.
  - by rewrite (plain_request_eq r r').
  - destruct He as [Hr Hv], He' as [Hr' Hv']. by rewrite (plain_request_eq r r'), (plain_eq v v').
  - destruct He as [Ha Hb], He' as [Ha' Hb']. by rewrite (plain_request_eq a a'), (plain_request_eq b b').
Qed.
Lemma plain_input_eq i i' : plain_input i → plain_input i' → cmp i i' = Eq → i = i'.
Proof.
  intros Hi Hi' E. apply pair_cmp_eq in E as [[En Er]%pair_cmp_eq Ev].
  destruct i as [|d|r v], i' as [|d'|r' v']; try done; cbn in *.
  - by rewrite (plain_eq d d').
  - destruct Hi as [Hr Hv], Hi' as [Hr' Hv']. by rewrite (plain_request_eq r r'), (plain_eq v v').
Qed.
Lemma ord_eqb_request r r' : plain_request r → plain_request r' → ord_eqb r r' = true ↔ r = r'.
Proof.
  intros Hr Hr'. unfold ord_eqb. split; [|intros ->; by rewrite cmp_refl].
  destruct (cmp r r') eqn:E; try done. intros _. by apply plain_request_eq.
Qed.
End plain.

(** ** Joins of sets *)

Lemma elem_of_flat_map {A B} (f : A → list B) l y : y ∈ flat_map f l ↔ ∃ x, x ∈ l ∧ y ∈ f x.
Proof. rewrite list_elem_of_In, in_flat_map. by setoid_rewrite list_elem_of_In. Qed.
Lemma NoDup_flat_map {A B} (f : A → list B) l : NoDup l → (∀ x, x ∈ l → NoDup (f x)) →
  (∀ x1 x2 y, x1 ∈ l → x2 ∈ l → y ∈ f x1 → y ∈ f x2 → x1 = x2) → NoDup (flat_map f l).
Proof.
  induction 1 as [|x l Hx Hl IH]; intros Hf Hinj; cbn; [constructor|]. apply NoDup_app. split; [apply Hf; constructor|]. split.
  - intros y Hy (x2 & Hx2 & Hy2)%elem_of_flat_map. apply Hx. rewrite (Hinj x x2 y); [done|constructor|by constructor|done|done].
  - apply IH; [intros y Hy; apply Hf; by constructor|]. intros x1 x2 y H1 H2. apply Hinj; by constructor.
Qed.
Lemma flat_map_pure_ones {A B} (f : A → list B) l : flat_map_pure f (ones l) = ones (flat_map f l).
Proof. apply flat_map_ones. Qed.

Section join.
Context {K A B C : Type} `{Ord K} (f : K → A → B → C).
Implicit Types (l : list (K * A)) (r : list (K * B)).

Definition join_row r (x : K * A) : list C :=
  flat_map (λ y : K * B, if ord_eqb (fst x) (fst y) then [f (fst x) (snd x) (snd y)] else []) r.
Lemma join_by_ones l r : join_by (ones l) (ones r) f = ones (flat_map (join_row r) l).
Proof.
  unfold join_by, ones. induction l as [|x l IH]; [done|]. cbn [map flat_map fst snd]. rewrite map_app. f_equal; [|exact IH].
  clear IH. unfold join_row. induction r as [|y r IH]; [done|]. cbn [map flat_map fst snd]. rewrite map_app, IH.
  by destruct (ord_eqb (fst x) (fst y)).
Qed.
Lemma elem_of_join l r z : z ∈ flat_map (join_row r) l ↔
  ∃ k a k' b, (k, a) ∈ l ∧ (k', b) ∈ r ∧ ord_eqb k k' = true ∧ z = f k a b.
Proof.
  rewrite elem_of_flat_map. split.
  - intros ([k a] & Hl & ([k' b] & Hr & Hz)%elem_of_flat_map). cbn [fst snd] in Hz. destruct (ord_eqb k k') eqn:E; [|by apply elem_of_nil in Hz].
    apply list_elem_of_singleton in Hz as ->. by exists k, a, k', b.
  - intros (k & a & k' & b & Hl & Hr & E & ->). exists (k, a). split; [done|]. apply elem_of_flat_map. exists (k', b).
    split; [done|]. cbn [fst snd]. rewrite E. constructor.
Qed.
Lemma join_nodup l r : NoDup l → NoDup r →
  (∀ k a k' b k2 a2 k2' b2, (k, a) ∈ l → (k2, a2) ∈ l → (k', b) ∈ r → (k2', b2) ∈ r → ord_eqb k k' = true → ord_eqb k2 k2' = true →
    f k a b = f k2 a2 b2 → (k, a) = (k2, a2) ∧ (k', b) = (k2', b2)) → NoDup (flat_map (join_row r) l).
Proof.
  intros Hl Hr Hinj. apply NoDup_flat_map; [done|..].
  - intros [k a] Hka. apply NoDup_flat_map; [done|..].
    + intros [k' b] _. cbn. destruct (ord_eqb k k'); repeat constructor. apply not_elem_of_nil.
    + intros [k' b] [k2' b2] z Hb Hb2. cbn. destruct (ord_eqb k k') eqn:E1, (ord_eqb k k2') eqn:E2; try by (intros ?%elem_of_nil || intros _ ?%elem_of_nil).
      intros ->%list_elem_of_singleton Ez%list_elem_of_singleton. by destruct (Hinj k a k' b k a k2' b2).
  - intros [k a] [k2 a2] z Hka Hka2 ([k' b] & Hb & Hz)%elem_of_flat_map ([k2' b2] & Hb2 & Hz2)%elem_of_flat_map. cbn [fst snd] in *.
    destruct (ord_eqb k k') eqn:E1; [|by apply elem_of_nil in Hz]. destruct (ord_eqb k2 k2') eqn:E2; [|by apply elem_of_nil in Hz2].
    apply list_elem_of_singleton in Hz as ->. apply list_elem_of_singleton in Hz2. by destruct (Hinj k a k' b k2 a2 k2' b2).
Qed.
End join.

(** ** The recursive evaluation *)

Section evaluation.
Context (plain : Value → Prop) (plain_eq : ∀ v w, plain v → plain w → cmp v w = Eq → v = w).
Context (dets : list InputDetails) (comps : list ComputerDetails) (s0 : list Event).

(** The computer of a request and the data it is called with. *)
Definition computer_of (r : Request) : option (nat * ComputerDetails) :=
  d ← dets !! column_index r; i ← computer_index d; c ← comps !! i; Some (i, c).
Definition has_data (c : ComputerDetails) (r : Request) (d : Value) : Prop :=
  match data_column c with None => d = VNone | Some col => (request_key r, d, 1) ∈ col end.
Definition program_of (r : Request) (p : Program) : Prop :=
  ∃ i c d, computer_of r = Some (i, c) ∧ has_data c r d ∧
    compute (logic c) (request_key r) d (default [] (request_args r)) = Ok p.

(** The value of a request: the one in an input column, or the result of its computer
    when it gets the values of what it asks for. *)
Inductive Evaluates : Request → Value → Prop :=
| eval_input r v : EvReply r v ∈ s0 → Evaluates r v
| eval_computer r v p : program_of r p → Runs p v → Evaluates r v
with Runs : Program → Value → Prop :=
| runs_return v : Runs (Return (Ok (Some v))) v
| runs_get i row args k u v : Evaluates (context_request i row args) u → Runs (k (Some u)) v → Runs (Get i row args k) v.
(** What a program asks for on the way. *)
Inductive Asks : Program → Request → Prop :=
| asks_here i row args k : Asks (Get i row args k) (context_request i row args)
| asks_later i row args k u r : Evaluates (context_request i row args) u → Asks (k (Some u)) r → Asks (Get i row args k) r.

(** A computer that asks with plain arguments and stops when an answer is missing. *)
Inductive good : Program → Prop :=
| good_return r : (∀ v, r = Ok (Some v) → plain v) → good (Return r)
| good_get i row args k : Forall plain args → k None = Return (Ok None) → (∀ u, plain u → good (k (Some u))) → good (Get i row args k).

Record WellFormed : Prop := {
  wf_nodup : NoDup s0;
  wf_plain : ∀ e, e ∈ s0 → plain_event plain e;
  wf_no_dependency : ∀ a b, EvDependency a b ∉ s0;
  wf_input : ∀ r v, EvReply r v ∈ s0 → ∃ d, dets !! column_index r = Some d ∧ computer_index d = None;
  wf_functional : ∀ r v v', EvReply r v ∈ s0 → EvReply r v' ∈ s0 → v = v';
  wf_data : ∀ c col, c ∈ comps → data_column c = Some col →
    ∃ rows, col = ones rows ∧ NoDup (map fst rows) ∧ Forall (λ row, plain (snd row)) rows;
  wf_none : plain VNone;
  wf_good : ∀ c key d args p, c ∈ comps → plain d → Forall plain args → compute (logic c) key d args = Ok p → good p
}.
Context (Hwf : WellFormed).

Scheme Evaluates_min := Minimality for Evaluates Sort Prop
  with Runs_min := Minimality for Runs Sort Prop.
Combined Scheme evaluation_ind from Evaluates_min, Runs_min.

Lemma computer_of_spec r i c : computer_of r = Some (i, c) →
  ∃ d, dets !! column_index r = Some d ∧ computer_index d = Some i ∧ comps !! i = Some c.
Proof.
  unfold computer_of. destruct (dets !! column_index r) as [d|]; [|done]. cbn. destruct (computer_index d) as [j|] eqn:Hj; [|done].
  cbn. destruct (comps !! j) as [c'|] eqn:Hc; [|done]. intros [= <- <-]. by exists d.
Qed.
Lemma input_not_computed r v p : EvReply r v ∈ s0 → program_of r p → False.
Proof.
  intros Hr (i & c & d & Hc & _). destruct (wf_input Hwf r v Hr) as (d1 & Hd1 & Hn).
  apply computer_of_spec in Hc as (d2 & Hd2 & Hs & _). congruence.
Qed.
Lemma has_data_unique c r d d' : c ∈ comps → has_data c r d → has_data c r d' → d = d'.
Proof.
  intros Hc. unfold has_data. destruct (data_column c) as [col|] eqn:Hcol; [|by intros -> ->].
  destruct (wf_data Hwf c col Hc Hcol) as (rows & -> & Hnd & _).
  intros ([k1 d1] & [= <- <-] & H1)%list_elem_of_fmap ([k2 d2] & [= <- <-] & H2)%list_elem_of_fmap.
  apply list_elem_of_split in H1 as (l1 & l2 & ->). rewrite map_app in Hnd. apply NoDup_app in Hnd as (_ & Hd & Hnd).
  cbn in Hnd. apply NoDup_cons in Hnd as [Hk Hnd]. apply elem_of_app in H2 as [H2|[[= ->]|H2]%elem_of_cons]; [|done|].
  - destruct (Hd (request_key r)); [apply list_elem_of_fmap; by exists (request_key r, d')|constructor].
  - destruct Hk. apply list_elem_of_fmap. by exists (request_key r, d').
Qed.
Lemma program_unique r p p' : program_of r p → program_of r p' → p = p'.
Proof.
  intros (i & c & d & Hc & Hd & Hp) (i' & c' & d' & Hc' & Hd' & Hp'). rewrite Hc in Hc'. injection Hc' as <- <-.
  apply computer_of_spec in Hc as (? & _ & _ & Hc). apply list_elem_of_lookup_2 in Hc.
  rewrite (has_data_unique _ _ _ _ Hc Hd Hd') in Hp. congruence.
Qed.
Lemma evaluation_unique : (∀ r v, Evaluates r v → ∀ v', Evaluates r v' → v = v') ∧ (∀ p v, Runs p v → ∀ v', Runs p v' → v = v').
Proof.
  apply evaluation_ind.
  - intros r v Hr v' Hv'. inversion Hv' as [? ? Hr'|? ? p Hp Hrun]; subst; [by eapply wf_functional|by destruct (input_not_computed r v p)].
  - intros r v p Hp Hrun IH v' Hv'. inversion Hv' as [? ? Hr'|? ? p' Hp' Hrun']; subst; [by destruct (input_not_computed r v' p)|].
    apply IH. by rewrite (program_unique r p p').
  - intros v v' Hv'. by inversion Hv'.
  - intros i row args k u v Hu IHu Hv IHv v' Hv'. inversion Hv' as [|? ? ? ? u' ? Hu' Hv'']; subst. apply IHv. by rewrite (IHu u').
Qed.
Lemma evaluates_unique r v v' : Evaluates r v → Evaluates r v' → v = v'.
Proof. intros H1 H2. by apply (proj1 evaluation_unique r v H1). Qed.

Lemma has_data_plain c r d : c ∈ comps → has_data c r d → plain d.
Proof.
  intros Hc. unfold has_data. destruct (data_column c) as [col|] eqn:Hcol; [|intros ->; apply (wf_none Hwf)].
  destruct (wf_data Hwf c col Hc Hcol) as (rows & -> & _ & Hp). intros (row & [= <-] & Hrow)%list_elem_of_fmap.
  rewrite Forall_forall in Hp. apply (Hp _ Hrow).
Qed.
Lemma program_good r p : plain_request plain r → program_of r p → good p.
Proof.
  intros Hr (i & c & d & Hc & Hd & Hp). apply computer_of_spec in Hc as (? & _ & _ & Hc). apply list_elem_of_lookup_2 in Hc.
  eapply (wf_good Hwf); [exact Hc|by eapply has_data_plain| |exact Hp]. unfold plain_request in Hr. by destruct (request_args r).
Qed.
Lemma plain_context_request i row args : Forall plain args → plain_request plain (context_request i row args).
Proof. intros Ha. by destruct args. Qed.
Lemma evaluates_plain : (∀ r v, Evaluates r v → plain_request plain r → plain v) ∧ (∀ p v, Runs p v → good p → plain v).
Proof.
  apply evaluation_ind.
  - intros r v Hr _. by apply (wf_plain Hwf) in Hr as [_ ?].
  - intros r v p Hp _ IH Hr. apply IH. by eapply program_good.
  - intros v Hg. inversion Hg as [? Hv|]; subst. by apply Hv.
  - intros i row args k u v _ IHu _ IHv Hg. inversion Hg as [|? ? ? ? Ha _ Hk]; subst. apply IHv, Hk, IHu. by apply plain_context_request.
Qed.

(** ** Running a computer on some of its values *)

Definition true_values (values : list (Request * Value)) : Prop := ∀ r v, (r, v) ∈ values → plain_request plain r ∧ Evaluates r v.
Lemma lookup_value_some values r : (∃ r' v', (r', v') ∈ values ∧ ord_eqb r' r = true) → ∃ v, lookup_value values r = Some v.
Proof.
  intros (r' & v' & Hin & E). unfold lookup_value.
  assert (Hg : ∀ found, (∃ v, found = Some v) ∨ (r', v') ∈ values →
    ∃ v, foldl (λ found rv, if ord_eqb (fst rv) r then Some (snd rv) else found) found values = Some v); [|by apply Hg; right].
  clear Hin. induction values as [|[r1 v1] values IH]; intros found; cbn [foldl fst snd].
  - intros [[v ->]|Hin]; [by exists v|by apply elem_of_nil in Hin].
  - intros [[v ->]|[[= <- <-]|Hin]%elem_of_cons]; apply IH.
    + left. destruct (ord_eqb r1 r); eauto.
    + left. rewrite E. eauto.
    + by right.
Qed.
Lemma lookup_value_in values r v : lookup_value values r = Some v → ∃ r', (r', v) ∈ values ∧ ord_eqb r' r = true.
Proof.
  unfold lookup_value. assert (Hg : ∀ found, foldl (λ found rv, if ord_eqb (fst rv) r then Some (snd rv) else found) found values = Some v →
    found = Some v ∨ ∃ r', (r', v) ∈ values ∧ ord_eqb r' r = true); [|by intros [?|?]%Hg].
  induction values as [|[r1 v1] values IH]; intros found; cbn [foldl fst snd]; [by left|].
  intros [Hf|(r' & Hr' & E)]%IH; [|right; exists r'; split; [by constructor|done]].
  destruct (ord_eqb r1 r) eqn:E; [|by left]. injection Hf as ->. right. exists r1. split; [constructor|done].
Qed.
Lemma lookup_true values r v u : true_values values → plain_request plain r → lookup_value values r = Some v → Evaluates r u → v = u.
Proof.
  intros Ht Hr (r' & Hin & E)%lookup_value_in Hu. destruct (Ht r' v Hin) as [Hr' Hv].
  apply (ord_eqb_request plain plain_eq) in E as ->; [|done..]. by eapply evaluates_unique.
Qed.
(** A run on true values gives the value, or asks for one missing value. *)
Lemma run_true values p v : true_values values → good p → Runs p v →
  run values p = (Ok (Some v), []) ∨ ∃ r, run values p = (Ok None, [r]) ∧ Asks p r ∧ plain_request plain r ∧ lookup_value values r = None.
Proof.
  intros Ht Hg Hrun. revert Hg.
  induction Hrun as [v|i row args k u v Hu Hrun IH]; intros Hg; [by left|]. inversion Hg as [|? ? ? ? Ha Hn Hk]; subst.
  pose proof (plain_context_request i row args Ha) as Hpr. cbn [run]. destruct (lookup_value values (context_request i row args)) as [u'|] eqn:Hl.
  - assert (u' = u) as -> by (by eapply lookup_true).
    destruct IH as [E|(r & E & Hr & Hrest)]; [apply Hk; by eapply (proj1 evaluates_plain)|by left|].
    right. exists r. split; [done|]. split; [by eapply asks_later|done].
  - right. exists (context_request i row args). rewrite Hn. cbn. split; [done|]. split; [constructor|done].
Qed.
End evaluation.
