(* ===== verification/ComplexEval.v ===== *)
(** The demand-driven evaluation of complex columns is the recursive evaluation of
    their computers: the iteration ends, whatever it replied is the value that the
    computer has when it is called with the values of what it asks for, and every
    request of the inputs gets its reply. *)
From Stdlib Require Import ZArith Lia Bool.
From stdpp Require Import base list sets sorting strings.
From S2P Require Import Prelude Order Float Text Data Externals Value Weights Expression Output Table TableProps.
From S2P Require Import Instances Complex GroupProps ComplexProps.
Open Scope Z_scope.

(** ** The inputs of a computer *)

Lemma ones_positive {A} (l : list A) : Forall (λ e, 0 < snd e) (ones l).
Proof. apply Forall_forall. intros e (x & -> & _)%list_elem_of_fmap. cbn. lia. Qed.
Lemma ones_records {A} (l : list A) : map fst (ones l) = l.
Proof. unfold ones. rewrite map_map. apply map_id. Qed.

Lemma ord_eqb_keys (k k' : Key) : ord_eqb k k' = true ↔ k = k'.
Proof. rewrite <- key_eq_iff. unfold ord_eqb. by destruct (cmp k k'). Qed.

Lemma elem_of_indexed {A} (l : list A) i x : (i, x) ∈ zip (seq 0 (length l)) l ↔ l !! i = Some x.
Proof.
  rewrite list_elem_of_lookup. split.
  - intros (n & (a & b & E & [-> _]%lookup_seq & Hb)%lookup_zip_with_Some). by injection E as -> ->.
  - intros Hx. exists i. apply lookup_zip_with_Some. exists i, x. split; [done|]. split; [|done].
    apply lookup_seq. split; [done|]. by eapply lookup_lt_Some.
Qed.

Section inputs.
Context (plain : Value → Prop) (plain_eq : ∀ v w, plain v → plain w → cmp v w = Eq → v = w).
Context (dets : list InputDetails) (s : list Event) (Hnd : NoDup s) (Hplain : ∀ e, e ∈ s → plain_event plain e).
Implicit Types (r : Request) (c : ComputerDetails).

Definition demanded (s : list Event) r : Prop := EvRequest r ∈ s ∨ ∃ a, EvDependency a r ∈ s.
Lemma demanded_plain r : demanded s r → plain_request plain r.
Proof. intros [Hr|[a Hr]]; apply Hplain in Hr; [done|by destruct Hr]. Qed.
Lemma event_requests_in r : r ∈ flat_map event_requests s ↔ demanded s r.
Proof.
  rewrite elem_of_flat_map. split.
  - intros ([r'|r' v|a b] & He & Hr); cbn in Hr; try by apply elem_of_nil in Hr.
    + apply list_elem_of_singleton in Hr as ->. by left.
    + apply list_elem_of_singleton in Hr as ->. right. by exists a.
  - intros [Hr|[a Hr]]; eexists; (split; [exact Hr|cbn; by constructor]).
Qed.
Lemma requests_set : ∃ rs, distinct (flat_map_pure event_requests (ones s)) = ones rs ∧ NoDup rs ∧ ∀ r, r ∈ rs ↔ demanded s r.
Proof.
  rewrite flat_map_pure_ones.
  destruct (distinct_set (plain_request plain) (plain_request_eq plain plain_eq) (ones (flat_map event_requests s)))
    as (rs & Hrs & Hs & Hin); [apply ones_positive|intros r; rewrite ones_records, event_requests_in; apply demanded_plain|].
  exists rs. split; [done|]. split; [by apply sorted_set_nodup|]. intros r. by rewrite Hin, ones_records, event_requests_in.
Qed.
Lemma dependencies_set : NoDup (flat_map event_dependencies s) ∧ ∀ a b, (a, b) ∈ flat_map event_dependencies s ↔ EvDependency a b ∈ s.
Proof.
  split.
  - apply NoDup_flat_map; [done|intros [] _; repeat constructor; apply not_elem_of_nil|].
    intros e1 e2 [a b] _ _ Ha Hb. destruct e1, e2; cbn in *; try (by apply elem_of_nil in Ha); try (by apply elem_of_nil in Hb).
    apply list_elem_of_singleton in Ha, Hb. congruence.
  - intros a b. rewrite elem_of_flat_map. split.
    + intros ([] & He & Hr); cbn in Hr; try by apply elem_of_nil in Hr. by apply list_elem_of_singleton in Hr as [= -> ->].
    + intros He. eexists. split; [exact He|constructor].
Qed.
Lemma values_set : NoDup (flat_map event_values s) ∧ ∀ r v, (r, v) ∈ flat_map event_values s ↔ EvReply r v ∈ s.
Proof.
  split.
  - apply NoDup_flat_map; [done|intros [] _; repeat constructor; apply not_elem_of_nil|].
    intros e1 e2 [a b] _ _ Ha Hb. destruct e1, e2; cbn in *; try (by apply elem_of_nil in Ha); try (by apply elem_of_nil in Hb).
    apply list_elem_of_singleton in Ha, Hb. congruence.
  - intros a b. rewrite elem_of_flat_map. split.
    + intros ([] & He & Hr); cbn in Hr; try by apply elem_of_nil in Hr. by apply list_elem_of_singleton in Hr as [= -> ->].
    + intros He. eexists. split; [exact He|constructor].
Qed.

(** The requests that reach the computer [i]. *)
Definition computer_is (i : nat) r : Prop := ∃ d, dets !! column_index r = Some d ∧ computer_index d = Some i.
Definition requests_for (r : Request) : list (nat * Request) :=
  match dets !! column_index r with
  | Some details => match computer_index details with Some index => [(index, r)] | None => [] end
  | None => []
  end.
Lemma requests_of_set i rs : NoDup rs → ∃ our, requests_of i (ones (flat_map requests_for rs)) = ones our ∧ NoDup our ∧
  ∀ r, r ∈ our ↔ r ∈ rs ∧ computer_is i r.
Proof.
  intros Hrs. exists (flat_map (λ r, map snd (List.filter (λ e, (fst e =? i)%nat) (requests_for r))) rs). split; [|split].
  - unfold requests_of, ones. clear Hrs. induction rs as [|r rs IH]; [done|]. cbn [flat_map]. rewrite !map_app, List.filter_app, map_app, IH.
    f_equal. unfold requests_for. destruct (dets !! column_index r) as [[[j|] ?]|]; [|done..]. cbn. by destruct (j =? i)%nat.
  - apply NoDup_flat_map; [done|..].
    + intros r _. unfold requests_for. destruct (dets !! column_index r) as [[[j|] ?]|]; [|constructor..].
      cbn. destruct (j =? i)%nat; repeat constructor. apply not_elem_of_nil.
    + intros r1 r2 r _ _. unfold requests_for. destruct (dets !! column_index r1) as [[[j1|] ?]|], (dets !! column_index r2) as [[[j2|] ?]|];
        cbn; try by (intros ?%elem_of_nil || intros _ ?%elem_of_nil).
      destruct (j1 =? i)%nat, (j2 =? i)%nat; try by (intros ?%elem_of_nil || intros _ ?%elem_of_nil).
      cbn. intros ?%list_elem_of_singleton ?%list_elem_of_singleton. congruence.
  - intros r. rewrite elem_of_flat_map. split.
    + intros (r' & Hr' & Hr). unfold requests_for, computer_is in *. destruct (dets !! column_index r') as [[[j|] o]|] eqn:Hd; cbn in Hr; try by apply elem_of_nil in Hr.
      destruct (Nat.eqb_spec j i) as [->|]; [|by apply elem_of_nil in Hr]. apply list_elem_of_singleton in Hr as ->.
      split; [done|]. by eexists.
    + intros (Hr & d & Hd & Hi). exists r. split; [done|]. unfold requests_for. rewrite Hd, Hi. cbn. rewrite Nat.eqb_refl. constructor.
Qed.

Definition first_input (c : ComputerDetails) (d : Value) : ComputerInput :=
  match data_column c with None => InRequest | Some _ => InRequestWithData d end.
Definition data_rows (c : ComputerDetails) : Prop :=
  ∀ col, data_column c = Some col → ∃ rows, col = ones rows ∧ NoDup (map fst rows).
Lemma request_inputs_set c our : data_rows c → NoDup our → ∃ ins, request_inputs c (ones our) = ones ins ∧ NoDup ins ∧
  ∀ r i, (r, i) ∈ ins ↔ r ∈ our ∧ ∃ d, has_data c r d ∧ i = first_input c d.
Proof.
  intros Hrows Hour. unfold request_inputs, has_data, first_input, data_rows in *. destruct (data_column c) as [col|].
  - destruct (Hrows col eq_refl) as (rows & -> & Hndr). apply NoDup_fmap_1 in Hndr.
    exists (flat_map (join_row (λ _ r d, (r, InRequestWithData d)) rows) (map (λ r, (request_key r, r)) our)). split; [|split].
    + rewrite <- join_by_ones. f_equal. unfold ones. by rewrite !map_map.
    + apply join_nodup; [|done|].
      * apply NoDup_fmap_2; [by intros ?? [=]|done].
      * intros k a k' b k2 a2 k2' b2 Ha Ha2 _ _ E E' [= <- <-]. apply ord_eqb_keys in E as ->, E' as ->.
        apply list_elem_of_fmap in Ha as (? & [= -> ->] & _), Ha2 as (? & [= -> ->] & _). done.
    + intros r i. rewrite elem_of_join. split.
      * intros (k & a & k' & d & (? & [= -> ->] & Ha)%list_elem_of_fmap & Hd & E & [= -> ->]). apply ord_eqb_keys in E as <-.
        split; [done|]. exists d. split; [|done]. apply list_elem_of_fmap. by eexists.
      * intros (Hr & d & (row & [= <-] & Hd)%list_elem_of_fmap & ->). exists (request_key r), r, (request_key r), d.
        split; [apply list_elem_of_fmap; by exists r|]. split; [done|]. split; [by apply ord_eqb_keys|done].
  - exists (map (λ r, (r, InRequest)) our). split; [unfold ones; by rewrite !map_map|]. split.
    + apply NoDup_fmap_2; [by intros ?? [=]|done].
    + intros r i. split.
      * intros (? & [= -> ->] & Hr)%list_elem_of_fmap. split; [done|]. by exists VNone.
      * intros (Hr & d & -> & ->). apply list_elem_of_fmap. by exists r.
Qed.
Lemma reverse_dependencies_set our : NoDup our → (∀ r, r ∈ our → plain_request plain r) → ∃ rev,
  join_by (ones (flat_map event_dependencies s)) (map (λ e, ((fst e, tt), snd e)) (ones our))
    (λ requester requested _, (requested, requester)) = ones rev ∧ NoDup rev ∧ ∀ b a, (b, a) ∈ rev ↔ a ∈ our ∧ EvDependency a b ∈ s.
Proof.
  intros Hour Hpl. destruct dependencies_set as [Hndd Hmd].
  assert (Heq : ∀ a b a', EvDependency a b ∈ s → a' ∈ our → ord_eqb a a' = true ↔ a = a').
  { intros a b a' Ha Ha'. apply (ord_eqb_request plain plain_eq); [by apply Hplain in Ha as [? _]|by apply Hpl]. }
  replace (map (λ e, ((fst e, tt), snd e)) (ones our)) with (ones (map (λ r, (r, tt)) our)) by (unfold ones; by rewrite !map_map).
  rewrite join_by_ones. eexists. split; [done|]. split.
  - apply join_nodup; [done|apply NoDup_fmap_2; [by intros ?? [=]|done]|].
    intros a b a' [] a2 b2 a2' [] Ha Ha2 (? & [= <-] & Ho)%list_elem_of_fmap (? & [= <-] & Ho2)%list_elem_of_fmap E E' [= <- <-].
    apply Hmd in Ha, Ha2. apply (Heq _ _ _ Ha Ho) in E as <-. apply (Heq _ _ _ Ha2 Ho2) in E' as <-. done.
  - intros b a. rewrite elem_of_join. split.
    + intros (a1 & b1 & a' & [] & Ha & (? & [= <-] & Ho)%list_elem_of_fmap & E & [= -> ->]). apply Hmd in Ha.
      by apply (Heq _ _ _ Ha Ho) in E as <-.
    + intros [Ho Ha]. exists a, b, a, tt. split; [by apply Hmd|]. split; [apply list_elem_of_fmap; by exists a|].
      split; [|done]. by apply (Heq a b a).
Qed.
Lemma our_inputs_set c our : data_rows c → NoDup our → (∀ r, r ∈ our → plain_request plain r) →
  ∃ ins, our_inputs c (ones our) (ones (flat_map event_dependencies s)) (ones (flat_map event_values s)) = ones ins ∧ NoDup ins ∧
    ∀ r i, (r, i) ∈ ins ↔ r ∈ our ∧ ((∃ d, has_data c r d ∧ i = first_input c d) ∨
      ∃ b u, i = InDependency b u ∧ EvDependency r b ∈ s ∧ EvReply b u ∈ s).
Proof.
  intros Hrows Hour Hpl. destruct (request_inputs_set c our Hrows Hour) as (ins & Hins & Hndi & Hmi).
  destruct (reverse_dependencies_set our Hour Hpl) as (rev & Hrev & Hndrev & Hmrev). destruct values_set as [Hndv Hmv].
  unfold our_inputs. rewrite Hins, Hrev, join_by_ones. eexists. split; [unfold ones; by rewrite <- map_app|].
  assert (Heqb : ∀ b a b' u, (b, a) ∈ rev → EvReply b' u ∈ s → ord_eqb b b' = true ↔ b = b').
  { intros b a b' u Hb Hb'. apply Hmrev in Hb as [_ Hb]. apply (ord_eqb_request plain plain_eq); [by apply Hplain in Hb as [_ ?]|by apply Hplain in Hb' as [? _]]. }
  assert (Hmem : ∀ r i, (r, i) ∈ flat_map (join_row (λ requested requester value, (requester, InDependency requested value)) (flat_map event_values s)) rev ↔
    r ∈ our ∧ ∃ b u, i = InDependency b u ∧ EvDependency r b ∈ s ∧ EvReply b u ∈ s).
  { intros r i. rewrite elem_of_join. split.
    - intros (b & a & b' & u & Hb & Hv & E & [= -> ->]). apply Hmv in Hv. apply (Heqb _ _ _ _ Hb Hv) in E as <-. apply Hmrev in Hb as [? ?]. eauto 8.
    - intros (Hr & b & u & -> & Hd & Hv). assert (Hb : (b, r) ∈ rev) by by apply Hmrev. exists b, r, b, u. split; [done|].
      split; [by apply Hmv|]. split; [by apply (Heqb _ _ _ _ Hb Hv)|done]. }
  split.
  - apply NoDup_app. split; [done|]. split.
    + intros [r i] Hr%Hmi Hr'%Hmem. destruct Hr as (_ & d & _ & ->), Hr' as (_ & b & u & E & _).
      unfold first_input in E. by destruct (data_column c).
    + apply join_nodup; [done..|]. intros b a b' u b2 a2 b2' u2 Ha Ha2 Hv Hv2 E E' [= <- <- <-]. apply Hmv in Hv, Hv2.
      apply (Heqb _ _ _ _ Ha Hv) in E as <-. apply (Heqb _ _ _ _ Ha2 Hv2) in E' as <-. done.
  - intros r i. rewrite elem_of_app, Hmi, Hmem. naive_solver.
Qed.
End inputs.

(** ** What a computer answers in a round *)

Section rounds.
Context (plain : Value → Prop) (plain_eq : ∀ v w, plain v → plain w → cmp v w = Eq → v = w).
Context (dets : list InputDetails) (comps : list ComputerDetails) (s0 : list Event) (Hwf : WellFormed plain dets comps s0).
Implicit Types (r : Request) (c : ComputerDetails) (s : list Event).
#[local] Notation Evaluates := (Evaluates dets comps s0).
#[local] Notation Runs := (Runs dets comps s0).
#[local] Notation Asks := (Asks dets comps s0).
#[local] Notation program_of := (program_of dets comps).

(** The values that a request gets from its dependencies. *)
Definition known s r (values : list (Request * Value)) : Prop :=
  ∀ b u, (b, u) ∈ values ↔ EvDependency r b ∈ s ∧ EvReply b u ∈ s.
(** A reply with the value, or a dependency on something the computer asks for and does not know. *)
Definition answer s r (e : Event) : Prop :=
  ∃ p values, program_of r p ∧ known s r values ∧
    ((∃ v, Evaluates r v ∧ e = EvReply r v) ∨
     (∃ r1, Asks p r1 ∧ plain_request plain r1 ∧ lookup_value values r1 = None ∧ e = EvDependency r r1)).
Record Sound s : Prop := {
  sound_nodup : NoDup s;
  sound_plain : ∀ e, e ∈ s → plain_event plain e;
  sound_reply : ∀ r v, EvReply r v ∈ s → Evaluates r v;
  sound_demanded : ∀ r, demanded s r → ∃ v, Evaluates r v
}.

Lemma first_of_group c d us : sorted_set us → first_input c d ∈ us →
  (∀ x, x ∈ us → x = first_input c d ∨ ∃ b u, x = InDependency b u) →
  ∃ values, us = first_input c d :: map (λ bu, InDependency (fst bu) (snd bu)) values.
Proof.
  intros Hs Hin Hus. destruct Hs as [|x us Hs Hx]; [by apply elem_of_nil in Hin|]. rewrite Forall_forall in Hx.
  destruct (Hus x) as [->|(b & u & ->)]; [constructor| |].
  - assert (Hrest : ∀ y, y ∈ us → ∃ b u, y = InDependency b u).
    { intros y Hy. destruct (Hus y) as [->|?]; [by constructor| |done]. pose proof (Hx _ Hy) as E. by rewrite cmp_refl in E. }
    clear -Hrest. induction us as [|y us IH]; [by exists []|]. destruct (Hrest y) as (b & u & ->); [constructor|].
    destruct IH as (values & [= ->]); [intros z Hz; apply Hrest; by constructor|]. by exists ((b, u) :: values).
  - apply elem_of_cons in Hin as [E|Hin]; [unfold first_input in E; by destruct (data_column c)|].
    apply Hx in Hin. unfold first_input in Hin. by destruct (data_column c).
Qed.
Lemma dependency_values values : try_collect dependency_value (ones (map (λ bu, InDependency (fst bu) (snd bu)) values)) = Ok values.
Proof. apply try_collect_ok. induction values as [|[b u] values IH]; constructor; [done|exact IH]. Qed.
Lemma first_input_logic c r d p us : compute (logic c) (request_key r) d (default [] (request_args r)) = Ok p → has_data c r d →
  computer_logic (logic c) r (ones (first_input c d :: map (λ bu, InDependency (fst bu) (snd bu)) us)) =
  let '(result, requests) := run us p in
  result ← unwrap_with_reporter result;
  Ok (match result with Some value => [(OutReply value, 1)] | None => [] end ++ map (λ r, (OutRequest r, 1)) requests).
Proof.
  intros Hp Hd. assert (E : computer_logic (logic c) r (ones (first_input c d :: map (λ bu, InDependency (fst bu) (snd bu)) us)) =
    run_computer (logic c) r d (ones (map (λ bu, InDependency (fst bu) (snd bu)) us))).
  { unfold first_input, has_data in *. destruct (data_column c); [done|]. by subst. }
  rewrite E. unfold run_computer. rewrite dependency_values. cbn [mbind outcome_bind]. by rewrite Hp.
Qed.
Lemma group_answer s i c ins r us : Sound s → comps !! i = Some c →
  (∀ r x, (r, x) ∈ ins ↔ (demanded s r ∧ computer_is dets i r) ∧ ((∃ d, has_data c r d ∧ x = first_input c d) ∨
      ∃ b u, x = InDependency b u ∧ EvDependency r b ∈ s ∧ EvReply b u ∈ s)) →
  is_group ins r us → ∃ o, computer_logic (logic c) r (ones us) = Ok (ones [o]) ∧ answer s r (output_event r o).
Proof.
  intros Hs Hc Hins (Hne & Hsu & Hus).
  assert (Hr : demanded s r ∧ computer_is dets i r).
  { destruct us as [|x us]; [done|]. apply (Hins r x), Hus. constructor. }
  destruct Hr as [Hdem Hci]. destruct (sound_demanded s Hs r Hdem) as [v Hv].
  destruct Hv as [r v Hr0|r v p Hp Hrun].
  { destruct (wf_input _ _ _ _ Hwf r v Hr0) as (d & Hd & Hn), Hci as (d' & Hd' & Hn'). congruence. }
  destruct (id Hp) as (i' & c' & d & Hco & Hd & Hcomp). apply computer_of_spec in Hco as (det & Hdet & Hi' & Hc').
  assert (c' = c) as -> by (destruct Hci as (d' & Hd' & Hn'); congruence). clear i' Hi' Hc' det Hdet.
  assert (Hcin : c ∈ comps) by by eapply list_elem_of_lookup_2.
  destruct (first_of_group c d us Hsu) as (values & ->).
  { apply Hus, Hins. split; [done|]. left. by exists d. }
  { intros x Hx. apply Hus, Hins in Hx as [_ [(d' & Hd' & ->)|(b & u & -> & _)]]; [left; by rewrite (has_data_unique plain dets comps s0 Hwf c r d d')|eauto]. }
  rewrite (first_input_logic c r d p values Hcomp Hd).
  assert (Hk : known s r values).
  { intros b u. transitivity (InDependency b u ∈ first_input c d :: map (λ bu, InDependency (fst bu) (snd bu)) values).
    - rewrite elem_of_cons. split.
      + intros Hb. right. apply list_elem_of_fmap. by exists (b, u).
      + intros [E|([b' u'] & [= -> ->] & Hb)%list_elem_of_fmap]; [unfold first_input in E; by destruct (data_column c)|done].
    - rewrite Hus, Hins. split.
      + intros [_ [(d' & _ & E)|(b' & u' & [= -> ->] & ?)]]; [unfold first_input in E; by destruct (data_column c)|done].
      + intros [? ?]. split; [done|]. right. by exists b, u. }
  assert (Ht : true_values plain dets comps s0 values).
  { intros b u [_ Hb]%Hk. split; [by apply (sound_plain s Hs) in Hb as [? _]|by apply (sound_reply s Hs)]. }
  pose proof (demanded_plain plain s (sound_plain s Hs) r Hdem) as Hpr.
  destruct (run_true plain plain_eq dets comps s0 Hwf values p v Ht) as [E|(r1 & E & Ha & Hp1 & Hl)]; [by eapply program_good|done|..]; rewrite E; cbn.
  - exists (OutReply v). split; [done|]. exists p, values. split; [done|]. split; [done|]. left. exists v. split; [by eapply eval_computer|done].
  - exists (OutRequest r1). split; [done|]. exists p, values. split; [done|]. split; [done|]. right. by exists r1.
Qed.
Lemma computer_events_spec s i c rs : Sound s → NoDup rs → (∀ r, r ∈ rs ↔ demanded s r) → comps !! i = Some c →
  ∃ evs, computer_events (ones (flat_map (requests_for dets) rs)) (ones (flat_map event_dependencies s)) (ones (flat_map event_values s)) (i, c)
    = Ok (ones evs) ∧
  (∀ e, e ∈ evs → ∃ r, demanded s r ∧ answer s r e) ∧
  (∀ r, demanded s r → computer_is dets i r → ∃ e, e ∈ evs ∧ answer s r e).
Proof.
  intros Hs Hnd Hrs Hc. pose proof (sound_plain s Hs) as Hpl.
  assert (Hcin : c ∈ comps) by by eapply list_elem_of_lookup_2.
  destruct (requests_of_set dets i rs Hnd) as (our & Hour & Hndo & Hmo).
  assert (Hdata : data_rows c).
  { intros col Hcol. destruct (wf_data _ _ _ _ Hwf c col Hcin Hcol) as (rows & -> & Hndr & _). by exists rows. }
  destruct (our_inputs_set plain plain_eq s (sound_nodup s Hs) Hpl c our Hdata Hndo) as (ins & Hins & Hndi & Hmi).
  { intros r [Hr%Hrs _]%Hmo. by eapply demanded_plain. }
  assert (Hmi' : ∀ r x, (r, x) ∈ ins ↔ (demanded s r ∧ computer_is dets i r) ∧ ((∃ d, has_data c r d ∧ x = first_input c d) ∨
      ∃ b u, x = InDependency b u ∧ EvDependency r b ∈ s ∧ EvReply b u ∈ s)).
  { intros r x. by rewrite Hmi, Hmo, Hrs. }
  assert (Hplain : ∀ r x, (r, x) ∈ ins → plain_request plain r ∧ plain_input plain x).
  { intros r x [[Hd _] Hx]%Hmi'. split; [by eapply demanded_plain|]. destruct Hx as [(d & Hd' & ->)|(b & u & -> & _ & [Hb Hu]%Hpl)]; [|done].
    apply (has_data_plain _ _ _ _ Hwf) in Hd'; [|done]. unfold first_input. by destruct (data_column c). }
  unfold computer_events. rewrite Hour, Hins.
  destruct (reduce_by_set (plain_request plain) (plain_request_eq plain plain_eq) (plain_input plain) (plain_input_eq plain plain_eq)
    (computer_logic (logic c)) ins Hndi Hplain) as (out & Hout & Hmem).
  { intros r us Hg. destruct (group_answer s i c ins r us Hs Hc Hmi' Hg) as (o & Ho & _). by exists [o]. }
  rewrite Hout. cbn [mbind outcome_bind]. exists (map (λ ro, output_event (fst ro) (snd ro)) out).
  split; [unfold ones; by rewrite !map_map|]. split.
  - intros e ([r o] & -> & Hro)%list_elem_of_fmap. apply Hmem in Hro as (us & os & Hg & Hos & Ho).
    destruct (group_answer s i c ins r us Hs Hc Hmi' Hg) as (o' & Ho' & Hans). rewrite Ho' in Hos. injection Hos as Hos.
    apply (f_equal (map fst)) in Hos. rewrite (ones_records os) in Hos. cbn in Hos. subst os. apply list_elem_of_singleton in Ho as ->.
    exists r. split; [|done]. destruct Hg as (Hne & _ & Hg). destruct us as [|x us]; [done|].
    apply (Hmi' r x), Hg. constructor.
  - intros r Hd Hci. destruct (sound_demanded s Hs r Hd) as [v Hv]. destruct Hv as [r v Hr0|r v p Hp Hrun].
    { destruct (wf_input _ _ _ _ Hwf r v Hr0) as (det & Hdet & Hn), Hci as (det' & Hdet' & Hn'). congruence. }
    destruct Hp as (i' & c' & d & Hco & Hdat & _). apply computer_of_spec in Hco as (det & Hdet & Hi' & Hc').
    assert (c' = c) as -> by (destruct Hci as (d' & Hd' & Hn'); congruence).
    destruct (groups_of_set (plain_request plain) (plain_request_eq plain plain_eq) (plain_input plain) (plain_input_eq plain plain_eq)
      ins Hndi Hplain) as (_ & _ & _ & Hex).
    destruct (Hex r (first_input c d)) as (us & Hg); [apply Hmi'; split; [done|]; left; by exists d|].
    destruct (group_answer s i c ins r us Hs Hc Hmi' Hg) as (o & Ho & Hans). exists (output_event r o). split; [|done].
    apply list_elem_of_fmap. exists (r, o). split; [done|]. apply Hmem. exists us, [o]. split; [done|]. split; [done|constructor].
Qed.
Lemma answer_plain s r e : plain_request plain r → answer s r e → plain_event plain e.
Proof.
  intros Hr (p & values & Hp & _ & [(v & Hv & ->)|(r1 & _ & Hr1 & _ & ->)]); [|done]. split; [done|].
  by eapply (proj1 (evaluates_plain plain dets comps s0 Hwf)).
Qed.
Lemma step_spec s : Sound s → ∃ s', step dets comps (ones s) = Ok (ones s') ∧ NoDup s' ∧ (∀ e, e ∈ s → e ∈ s') ∧
  (∀ e, e ∈ s' → e ∈ s ∨ ∃ r, demanded s r ∧ answer s r e) ∧
  (∀ r, demanded s r → (∃ v, EvReply r v ∈ s0) ∨ ∃ e, e ∈ s' ∧ answer s r e).
Proof.
  intros Hs. pose proof (sound_plain s Hs) as Hpl. unfold step.
  destruct (requests_set plain plain_eq s Hpl) as (rs & -> & Hnd & Hrs). rewrite !flat_map_pure_ones.
  rewrite (flat_map_coll_pure _ (requests_for dets)); cycle 1.
  { intros [r w] (r' & [= -> ->] & Hr)%list_elem_of_fmap. cbn [fst]. unfold computer_request, requests_for.
    apply Hrs in Hr. destruct (sound_demanded s Hs _ Hr) as [v Hv]. destruct Hv as [r v Hr0|r v p (i & c & d & Hco & _) _].
    - destruct (wf_input _ _ _ _ Hwf r v Hr0) as (det & -> & _). done.
    - apply computer_of_spec in Hco as (det & -> & _). done. }
  cbn [mbind outcome_bind]. rewrite flat_map_ones.
  destruct (try_collect_total (computer_events (ones (flat_map (requests_for dets) rs)) (ones (flat_map event_dependencies s)) (ones (flat_map event_values s)))
    (λ ic cs, ∃ evs, cs = ones evs ∧ (∀ e, e ∈ evs → ∃ r, demanded s r ∧ answer s r e) ∧
      (∀ r, demanded s r → computer_is dets (fst ic) r → ∃ e, e ∈ evs ∧ answer s r e)) (zip (seq 0 (length comps)) comps)) as (news & Hnews & HF).
  { intros [i c] Hic%elem_of_indexed. destruct (computer_events_spec s i c rs Hs Hnd Hrs Hic) as (evs & Hevs & Hans).
    exists (ones evs). split; [done|]. by exists evs. }
  rewrite Hnews. cbn [mbind outcome_bind].
  assert (Hcat : ∃ evs, concat news = ones evs ∧ (∀ e, e ∈ evs → ∃ r, demanded s r ∧ answer s r e) ∧
    (∀ r i c, (i, c) ∈ zip (seq 0 (length comps)) comps → demanded s r → computer_is dets i r → ∃ e, e ∈ evs ∧ answer s r e)).
  { clear Hnews. induction HF as [|[i c] cs ics news (evs & -> & Hto & Hfrom) HF (evs' & Hevs' & Hto' & Hfrom')].
    - exists []. split; [done|]. split; [by intros ? ?%elem_of_nil|by intros ? ? ? ?%elem_of_nil].
    - exists (evs ++ evs'). cbn [concat]. rewrite Hevs'. split; [unfold ones; by rewrite map_app|]. split.
      + intros e [He|He]%elem_of_app; [by apply Hto|by apply Hto'].
      + intros r i' c' [[= -> ->]|Hic]%elem_of_cons Hd Hci.
        * destruct (Hfrom r Hd Hci) as (e & He & Ha). exists e. split; [apply elem_of_app; by left|done].
        * destruct (Hfrom' r i' c' Hic Hd Hci) as (e & He & Ha). exists e. split; [apply elem_of_app; by right|done]. }
  destruct Hcat as (evs & -> & Hto & Hfrom).
  replace (ones s ++ ones evs) with (ones (s ++ evs)) by (unfold ones; by rewrite map_app).
  destruct (distinct_set (plain_event plain) (plain_event_eq plain plain_eq) (ones (s ++ evs))) as (s' & -> & Hss & Hin); [apply ones_positive|..].
  { intros e. rewrite ones_records, elem_of_app. intros [He|(r & Hd & Ha)%Hto]; [by apply Hpl|].
    eapply answer_plain; [by eapply demanded_plain|done]. }
  rewrite ones_records in Hin. exists s'. split; [done|]. split; [by apply sorted_set_nodup|].
  split; [intros e He; apply Hin, elem_of_app; by left|]. split.
  - intros e [He|He]%Hin%elem_of_app; [by left|right; by apply Hto].
  - intros r Hd. destruct (sound_demanded s Hs _ Hd) as [v Hv]. destruct Hv as [r v Hr0|r v p (i & c & d & Hco & _) _]; [left; by exists v|right].
    apply computer_of_spec in Hco as (det & Hdet & Hi & Hc). destruct (Hfrom r i c) as (e & He & Ha); [by apply elem_of_indexed|done|by exists det|].
    exists e. split; [apply Hin, elem_of_app; by right|done].
Qed.

(** ** The requests that an evaluation reaches are finitely many *)

Definition closed (Q : list Request) : Prop :=
  ∀ q, q ∈ Q → (∃ v, Evaluates q v) ∧ ∀ p r, program_of q p → Asks p r → r ∈ Q.
Lemma closed_app Q1 Q2 : closed Q1 → closed Q2 → closed (Q1 ++ Q2).
Proof.
  intros Hc1 Hc2 q [Hq|Hq]%elem_of_app; [destruct (Hc1 q Hq) as [Hv Ha]|destruct (Hc2 q Hq) as [Hv Ha]];
    (split; [done|]; intros p r Hp Hr; apply elem_of_app; eauto).
Qed.
Lemma finite_closure : (∀ r v, Evaluates r v → ∃ Q, closed Q ∧ r ∈ Q) ∧ (∀ p v, Runs p v → ∃ Q, closed Q ∧ ∀ r, Asks p r → r ∈ Q).
Proof.
  apply evaluation_ind.
  - intros r v Hr. exists [r]. split; [|constructor]. intros q ->%list_elem_of_singleton. split; [exists v; by apply eval_input|].
    intros p r1 Hp _. by destruct (input_not_computed plain dets comps s0 Hwf r v p).
  - intros r v p Hp Hrun (Q & HQ & Hin). exists (r :: Q). split; [|constructor]. intros q [->|Hq]%elem_of_cons.
    + split; [exists v; by eapply eval_computer|]. intros p' r1 Hp' Ha. rewrite (program_unique plain dets comps s0 Hwf r p' p) in Ha by done.
      constructor. by apply Hin.
    + destruct (HQ q Hq) as [Hv Ha]. split; [done|]. intros p' r1 Hp' Ha'. constructor. by eapply Ha.
  - intros v. exists []. split; [by intros q ?%elem_of_nil|]. intros r Ha. by inversion Ha.
  - intros i row args k u v Hu (Q1 & HQ1 & Hin1) _ (Q2 & HQ2 & Hin2). exists (Q1 ++ Q2). split; [by apply closed_app|].
    intros r Ha. apply elem_of_app. inversion Ha as [|? ? ? ? u' ? Hu' Ha']; subst; [by left|right].
    apply Hin2. by rewrite (evaluates_unique plain dets comps s0 Hwf (context_request i row args) u u').
Qed.
Lemma closure_of (rs : list Request) : (∀ r, r ∈ rs → ∃ v, Evaluates r v) → ∃ Q, closed Q ∧ ∀ r, r ∈ rs → r ∈ Q.
Proof.
  induction rs as [|r rs IH]; intros Hrs; [exists []; by split; [intros ? ?%elem_of_nil|intros ? ?%elem_of_nil]|].
  destruct IH as (Q & HQ & Hin); [intros r' Hr'; apply Hrs; by constructor|]. destruct (Hrs r) as [v Hv]; [constructor|].
  destruct (proj1 finite_closure r v Hv) as (Q' & HQ' & Hr). exists (Q' ++ Q). split; [by apply closed_app|].
  intros r' [->|Hr']%elem_of_cons; apply elem_of_app; [by left|right; by apply Hin].
Qed.
Lemma universe_of Q : closed Q → ∃ U : list Event, (∀ e, e ∈ s0 → e ∈ U) ∧ (∀ q v, q ∈ Q → Evaluates q v → EvReply q v ∈ U) ∧
  ∀ a b, a ∈ Q → b ∈ Q → EvDependency a b ∈ U.
Proof.
  intros HQ. assert (Hrep : ∃ R : list Event, ∀ q v, q ∈ Q → Evaluates q v → EvReply q v ∈ R).
  { assert (HQ' : ∀ q, q ∈ Q → ∃ v, Evaluates q v) by (intros q Hq; by destruct (HQ q Hq)). clear HQ.
    induction Q as [|q Q IH]; [exists []; by intros ? ? ?%elem_of_nil|]. destruct IH as (R & HR); [intros q' Hq'; apply HQ'; by constructor|].
    destruct (HQ' q) as [v Hv]; [constructor|]. exists (EvReply q v :: R). intros q' v' [->|Hq']%elem_of_cons Hv'.
    - rewrite (evaluates_unique plain dets comps s0 Hwf q v' v) by done. constructor.
    - constructor. by apply HR. }
  destruct Hrep as (R & HR). exists (s0 ++ R ++ flat_map (λ a, map (EvDependency a) Q) Q). split; [|split].
  - intros e He. apply elem_of_app. by left.
  - intros q v Hq Hv. apply elem_of_app. right. apply elem_of_app. left. by apply HR.
  - intros a b Ha Hb. apply elem_of_app. right. apply elem_of_app. right. apply elem_of_flat_map. exists a. split; [done|].
    apply list_elem_of_fmap. by exists b.
Qed.

(** ** The iteration *)

Lemma same_events s s' : NoDup s → NoDup s' → (∀ e, e ∈ s → plain_event plain e) → (∀ e, e ∈ s' → plain_event plain e) →
  ord_eqb (consolidate (ones s)) (consolidate (ones s')) = true ↔ ∀ e, e ∈ s ↔ e ∈ s'.
Proof.
  intros Hnd Hnd' Hpl Hpl'.
  destruct (consolidate_set (plain_event plain) (plain_event_eq plain plain_eq) s Hnd Hpl) as (l & -> & Hs & Hl).
  destruct (consolidate_set (plain_event plain) (plain_event_eq plain plain_eq) s' Hnd' Hpl') as (l' & -> & Hs' & Hl').
  transitivity (l = l').
  - unfold ord_eqb. split; [|intros ->; by rewrite cmp_refl]. destruct (cmp (ones l) (ones l')) eqn:E; try done. intros _.
    apply list_cmp_eq_Forall2 in E. assert (Hpl1 : ∀ e, e ∈ l → plain_event plain e) by (intros e He; by apply Hpl, Hl).
    assert (Hpl2 : ∀ e, e ∈ l' → plain_event plain e) by (intros e He; by apply Hpl', Hl'). clear -E Hpl1 Hpl2 plain_eq.
    revert l' E Hpl2. induction l as [|x l IH]; intros [|y l'] E Hpl2; inversion E as [|? ? ? ? Exy E']; subst; [done|].
    apply pair_cmp_eq in Exy as [Exy _]. f_equal; [apply (plain_event_eq plain plain_eq); [apply Hpl1; constructor|apply Hpl2; constructor|done]|].
    apply IH; [intros e He; apply Hpl1; by constructor|done|intros e He; apply Hpl2; by constructor].
  - split; [intros ->; intros e; by rewrite <- Hl, Hl'|]. intros Hin. apply sorted_set_unique; [done..|]. intros e. by rewrite Hl, Hin, Hl'.
Qed.
Lemma answer_same s s' r e : (∀ e, e ∈ s ↔ e ∈ s') → answer s r e → answer s' r e.
Proof.
  intros Hin (p & values & Hp & Hk & Ha). exists p, values. split; [done|]. split; [|done]. intros b u. rewrite <- !Hin. apply Hk.
Qed.
Lemma demanded_same s s' r : (∀ e, e ∈ s ↔ e ∈ s') → demanded s r ↔ demanded s' r.
Proof. intros Hin. unfold demanded. by setoid_rewrite Hin. Qed.

(** Every request that is demanded has its answer. *)
Definition answered s : Prop := ∀ r, demanded s r → (∃ v, EvReply r v ∈ s0) ∨ ∃ e, e ∈ s ∧ answer s r e.

(** The requests that the inputs lead to. *)
Inductive Needed : Request → Prop :=
| needed_input r : EvRequest r ∈ s0 → Needed r
| needed_asked a p r : Needed a → program_of a p → Asks p r → Needed r.

Section bounded.
Context (Q : list Request) (HQ : closed Q) (U : list Event) (HU0 : ∀ e, e ∈ s0 → e ∈ U)
  (HUr : ∀ q v, q ∈ Q → Evaluates q v → EvReply q v ∈ U) (HUd : ∀ a b, a ∈ Q → b ∈ Q → EvDependency a b ∈ U).

Definition reached s : Prop :=
  NoDup s ∧ (∀ e, e ∈ s0 → e ∈ s) ∧ (∀ e, e ∈ s → e ∈ U ∧ plain_event plain e) ∧
  (∀ r v, EvReply r v ∈ s → Evaluates r v ∧ (EvReply r v ∈ s0 ∨ Needed r)) ∧ (∀ r, demanded s r → r ∈ Q ∧ Needed r).
Lemma reached_sound s : reached s → Sound s.
Proof.
  intros (Hnd & _ & Hin & Hr & Hd). split; [done|intros e He; by apply Hin|intros r v Hrv; by apply Hr|]. intros r Hdr. by apply HQ, Hd.
Qed.
Lemma reached_step s s' : reached s → NoDup s' → (∀ e, e ∈ s → e ∈ s') →
  (∀ e, e ∈ s' → e ∈ s ∨ ∃ r, demanded s r ∧ answer s r e) → reached s'.
Proof.
  intros Hs Hnd' Hincl Hnew. destruct Hs as (Hnd & H0' & Hin & Hr & Hd).
  assert (HdQ : ∀ a p r, demanded s a → program_of a p → Asks p r → r ∈ Q ∧ Needed r).
  { intros a p r Hda Hp Ha. destruct (Hd a Hda) as [HaQ Hna]. split; [by eapply HQ, Ha|by eapply needed_asked]. }
  assert (Hnew' : ∀ e, e ∈ s' → e ∈ s ∨ (∃ a b, e = EvDependency a b ∧ a ∈ Q ∧ b ∈ Q ∧ Needed b) ∨
    ∃ a v, e = EvReply a v ∧ a ∈ Q ∧ Needed a ∧ Evaluates a v).
  { intros e [He|(r & Hdr & Ha)]%Hnew; [by left|right]. destruct (Hd r Hdr) as [HrQ Hnr].
    destruct Ha as (p & values & Hp & _ & [(v & Hv & ->)|(r1 & Ha1 & _ & _ & ->)]); [right; by exists r, v|left].
    exists r, r1. split; [done|]. split; [done|]. by eapply HdQ. }
  split; [done|]. split; [intros e He; by apply Hincl, H0'|]. split; [|split].
  - intros e He. split.
    + destruct (Hnew' e He) as [Hes|[(a & b & -> & Ha & Hb & _)|(a & v & -> & Ha & _ & Hv)]]; [by apply Hin|by apply HUd|by apply HUr].
    + destruct (Hnew e He) as [Hes|(r & Hdr & Ha)]; [by apply Hin|].
      eapply answer_plain; [|done]. eapply demanded_plain; [|done]. intros e' He'. by apply Hin.
  - intros r v Hrv. destruct (Hnew' _ Hrv) as [He|[(a & b & ? & _)|(a & v' & [= <- <-] & _ & ? & ?)]]; [by apply Hr|done|]. split; [done|by right].
  - intros r [Hdr|[a Hdr]]; (destruct (Hnew' _ Hdr) as [He|[(a' & b & Eb & _ & ? & ?)|(a' & v & Ea & _)]]; [|try done..]).
    + apply Hd. by left.
    + apply Hd. right. by exists a.
    + by injection Eb as -> ->.
Qed.
(** A round ends the iteration or adds an event. *)
Lemma round s : reached s → ∃ s', step dets comps (ones s) = Ok (ones s') ∧ reached s' ∧
  (if ord_eqb (consolidate (ones s)) (consolidate (ones s')) then answered s' else (length s < length s')%nat).
Proof.
  intros Hs. pose proof (reached_sound s Hs) as Hso. destruct (step_spec s Hso) as (s' & Hstep & Hnd' & Hincl & Hnew & Hans).
  pose proof (reached_step s s' Hs Hnd' Hincl Hnew) as Hs'. exists s'. split; [done|]. split; [done|].
  pose proof (same_events s s' (sound_nodup s Hso) Hnd' (sound_plain s Hso) (sound_plain s' (reached_sound s' Hs'))) as Hsame.
  destruct (ord_eqb _ _).
  - pose proof (proj1 Hsame eq_refl) as Hin. intros r Hd%(demanded_same s s' r Hin).
    destruct (Hans r Hd) as [?|(e & He & Ha)]; [by left|right]. exists e. split; [done|by eapply answer_same].
  - pose proof (NoDup_submseteq s s' (sound_nodup s Hso) Hincl) as Hsub. pose proof (submseteq_length _ _ Hsub) as Hle.
    destruct (decide (length s' ≤ length s)%nat) as [Hge|]; [|lia].
    pose proof (submseteq_length_Permutation _ _ Hsub Hge) as Hp. assert (false = true); [|done].
    apply Hsame. intros e. by rewrite Hp.
Qed.
Lemma reached_length s : reached s → (length s ≤ length U)%nat.
Proof. intros (Hnd & _ & Hin & _). apply submseteq_length, NoDup_submseteq; [done|]. intros e He. by apply Hin. Qed.
Lemma iterate_converges m s : reached s → (length U ≤ length s + m)%nat →
  ∃ s', iterate_events (S m) dets comps (ones s) = Some (Ok (ones s')) ∧ reached s' ∧ answered s'.
Proof.
  revert s. induction m as [|m IH]; intros s Hs Hm; destruct (round s Hs) as (s' & Hstep & Hs' & Hround);
    pose proof (reached_length s' Hs'); cbn [iterate_events]; rewrite Hstep; (destruct (ord_eqb _ _); [by exists s'|]).
  - lia.
  - apply IH; [done|lia].
Qed.
(** At the end, every request that is demanded and has a value is replied to. *)
Lemma answered_complete s : reached s → answered s →
  (∀ r v, Evaluates r v → demanded s r → EvReply r v ∈ s) ∧
  (∀ p v, Runs p v → ∀ r, Asks p r → ∃ u, Evaluates r u ∧ (demanded s r → EvReply r u ∈ s)).
Proof.
  intros Hs Hans. destruct Hs as (_ & H0' & _). apply evaluation_ind.
  - intros r v Hr _. by apply H0'.
  - intros r v p Hp Hrun IH Hd. destruct (Hans r Hd) as [[v' Hr]|(e & He & p' & values & Hp' & Hk & Ha)].
    { by destruct (input_not_computed plain dets comps s0 Hwf r v' p). }
    assert (p' = p) as -> by (by eapply program_unique). destruct Ha as [(v' & Hv' & ->)|(r1 & Ha & _ & Hl & ->)].
    + assert (v' = v) as -> by (eapply evaluates_unique; [done..|by eapply eval_computer]). done.
    + destruct (IH r1 Ha) as (u & _ & Hu). assert (Hru : (r1, u) ∈ values) by (apply Hk; split; [done|]; apply Hu; right; by exists r).
      destruct (lookup_value_some values r1) as [u' Hu']; [|congruence]. exists r1, u. split; [done|]. unfold ord_eqb. by rewrite cmp_refl.
  - intros v r Ha. inversion Ha.
  - intros i row args k u v Hu IHu Hrun IHrun r Ha. inversion Ha as [|? ? ? ? u' ? Hu' Ha']; subst; [by exists u|].
    apply IHrun. by rewrite (evaluates_unique plain dets comps s0 Hwf (context_request i row args) u u').
Qed.
End bounded.

(** The iteration ends with the values of the requests that are needed. *)
Lemma iterate_events_evaluates : (∀ r, EvRequest r ∈ s0 → ∃ v, Evaluates r v) →
  ∃ n s, iterate_events n dets comps (ones s0) = Some (Ok (ones s)) ∧ NoDup s ∧
    (∀ r v, EvReply r v ∈ s → Evaluates r v ∧ (EvReply r v ∈ s0 ∨ Needed r)) ∧
    (∀ r v, EvRequest r ∈ s0 → Evaluates r v → EvReply r v ∈ s).
Proof.
  intros Hreq. destruct (closure_of (flat_map event_requests s0)) as (Q & HQ & Hin).
  { intros r [Hr|[a Hr]]%event_requests_in; [by apply Hreq|]. by apply (wf_no_dependency _ _ _ _ Hwf) in Hr. }
  destruct (universe_of Q HQ) as (U & HU0 & HUr & HUd).
  assert (Hs0 : reached Q U s0).
  { split; [apply (wf_nodup _ _ _ _ Hwf)|]. split; [done|]. split; [intros e He; split; [by apply HU0|by apply (wf_plain _ _ _ _ Hwf)]|].
    split; [intros r v Hr; split; [by apply eval_input|by left]|]. intros r Hr. split; [by apply Hin, event_requests_in|].
    destruct Hr as [Hr|[a Hr]]; [by apply needed_input|]. by apply (wf_no_dependency _ _ _ _ Hwf) in Hr. }
  destruct (iterate_converges Q HQ U HUr HUd (length U) s0 Hs0) as (s & Hs & Hreached & Hans); [lia|].
  exists (S (length U)), s. split; [done|]. destruct (answered_complete Q U s Hreached Hans) as [Hc _].
  destruct Hreached as (Hnd & Hs0s & _ & Hr & _). split; [done|]. split; [done|].
  intros r v Hr0 Hv. apply Hc; [done|]. left. by apply Hs0s.
Qed.
End rounds.

(** ** The columns that come out *)

Lemma consolidate_same_keys (l l' : list Key) : NoDup l → NoDup l' → (∀ k, k ∈ l ↔ k ∈ l') → consolidate (ones l ++ wneg (ones l')) = [].
Proof.
  intros Hnd Hnd' Hin. apply canonical_nil_iff; [apply consolidate_canonical|]. intros x.
  rewrite consolidate_weight, weight_at_app, weight_at_neg.
  assert (E : weight_at (ones l) x = weight_at (ones l') x); [|lia]. apply weq_weight_at, weq_perm.
  apply Permutation_map, NoDup_Permutation; done.
Qed.
(** An output attribute requests its rows and has a computer. *)
Definition request_events (idx : nat) (u : Universe) : Coll Event :=
  map (λ e, (EvRequest (mk_Request idx (fst e) None), snd e)) (universe_keys u).
Definition outputs_requested (p : Parts) : Prop :=
  ∀ idx u, AttributeOutput idx u ∈ outputs p →
    (∃ pre post, input_events p = pre ++ request_events idx u ++ post) ∧
    ∃ d j, input_details p !! idx = Some d ∧ computer_index d = Some j.
Lemma add_input_spec p parts : outputs_requested p →
  (∀ idx u, output parts = Some (AttributeOutput idx u) →
    events parts = Some (request_events idx u) ∧ idx = length (input_details p) ∧ is_Some (computer_details parts)) →
  outputs_requested (add_input p parts).
Proof.
  intros Hp Hparts idx u. cbn [add_input outputs input_events input_details]. intros [Hin|Hin]%elem_of_app.
  - destruct (Hp idx u Hin) as [(pre & post & E) (d & j & Hd & Hj)]. split.
    + exists pre, (post ++ default [] (events parts)). by rewrite E, <- !app_assoc.
    + exists d, j. split; [by apply lookup_app_l_Some|done].
  - destruct (output parts) as [o|]; [|by apply elem_of_nil in Hin]. apply list_elem_of_singleton in Hin as <-.
    destruct (Hparts idx u eq_refl) as (-> & -> & [c ->]). split; [exists (input_events p), []; by rewrite app_nil_r|].
    eexists _, _. split; [by apply list_lookup_middle|done].
Qed.
Lemma handle_inputs_spec inputs p : handle_inputs inputs = Ok p → outputs_requested p.
Proof.
  unfold handle_inputs. destruct (try_collect _ _) as [parts|e|e] eqn:E; [|done..]. cbn [mbind outcome_bind]. intros [= <-].
  assert (Hparts : ∀ n x, parts !! n = Some x → ∀ idx u, output x = Some (AttributeOutput idx u) →
    events x = Some (request_events idx u) ∧ idx = n ∧ is_Some (computer_details x)).
  { apply try_collect_ok in E. clear -E. intros n x Hx. destruct (Forall2_lookup_r _ _ _ _ _ E Hx) as ([j c] & Hjc & Hh).
    apply lookup_zip_with_Some in Hjc as (? & ? & [= <- <-] & [-> _]%lookup_seq & _).
    cbn [fst snd] in Hh. intros idx u. unfold handle_input in Hh. destruct c as [col|comp|[lg un|lg un d [col|]]]; cbn in Hh.
    - by injection Hh as <-.
    - by injection Hh as <-.
    - injection Hh as <-. intros [= <- <-]. split; [done|]. split; [done|by eexists].
    - destruct (_ =? _)%nat; [by injection Hh as <-|done].
    - by injection Hh as <-. }
  clear E. set (p0 := mk_Parts [] [] [] []). change (outputs_requested (foldl add_input p0 parts)).
  assert (Hp0 : outputs_requested p0) by (by intros ?? ?%elem_of_nil).
  assert (Hparts' : ∀ n x, parts !! n = Some x → ∀ idx u, output x = Some (AttributeOutput idx u) →
    events x = Some (request_events idx u) ∧ idx = (length (input_details p0) + n)%nat ∧ is_Some (computer_details x)) by exact Hparts.
  clear Hparts. generalize dependent p0. induction parts as [|x parts IH]; intros p0 Hp0 Hparts; [done|]. cbn [foldl]. apply IH.
  - apply add_input_spec; [done|]. intros idx u Ho. rewrite <- (Nat.add_0_r (length (input_details p0))). by apply (Hparts 0%nat).
  - intros n y Hy idx u Ho. destruct (Hparts (S n) y Hy idx u Ho) as (He & -> & Hc). split; [done|]. split; [|done].
    cbn [add_input input_details]. rewrite length_app. cbn. lia.
Qed.

Lemma requested_universe p s0 idx u : outputs_requested p → input_events p = ones s0 → NoDup s0 → AttributeOutput idx u ∈ outputs p →
  ∃ ks, universe_keys u = ones ks ∧ NoDup ks ∧ ∀ k, k ∈ ks → EvRequest (mk_Request idx k None) ∈ s0.
Proof.
  intros Hout Hev Hn Ho. destruct (Hout idx u Ho) as [(pre & post & E) _]. rewrite Hev in E. exists (map fst (universe_keys u)).
  assert (Es : s0 = map fst pre ++ map (λ k, EvRequest (mk_Request idx k None)) (map fst (universe_keys u)) ++ map fst post).
  { rewrite <- (ones_records s0), E. unfold request_events. by rewrite !map_app, !map_map. }
  split; [|split].
  - assert (Hw : ∀ e, e ∈ universe_keys u → snd e = 1).
    { intros e He. assert (Hin : (EvRequest (mk_Request idx (fst e) None), snd e) ∈ ones s0).
      { rewrite E. apply elem_of_app. right. apply elem_of_app. left. apply list_elem_of_fmap. by exists e. }
      by apply list_elem_of_fmap in Hin as (? & [= _ ->] & _). }
    unfold ones. rewrite map_map. symmetry. rewrite <- (map_id (universe_keys u)) at 2. apply map_ext_in. intros [k w] Hk%list_elem_of_In.
    cbn. by rewrite <- (Hw _ Hk).
  - rewrite Es in Hn. apply NoDup_app in Hn as (_ & _ & [Hn _]%NoDup_app). by apply NoDup_fmap_1 in Hn.
  - intros k Hk. rewrite Es. apply elem_of_app. right. apply elem_of_app. left. apply list_elem_of_fmap. by exists k.
Qed.
(** The replies of a column are its rows. *)
Definition attribute_rows (idx : nat) (e : Event) : list (Key * Value) :=
  match e with EvReply r v => if (column_index r =? idx)%nat then [(request_key r, v)] else [] | _ => [] end.
Lemma attribute_rows_in idx s : (∀ r v, EvReply r v ∈ s → column_index r = idx → request_args r = None) →
  ∀ k v, (k, v) ∈ flat_map (attribute_rows idx) s ↔ EvReply (mk_Request idx k None) v ∈ s.
Proof.
  intros Hargs k v. rewrite elem_of_flat_map. split.
  - intros (e & He & Hk). destruct e as [r|r v'|a b]; cbn in Hk; try by apply elem_of_nil in Hk.
    destruct (Nat.eqb_spec (column_index r) idx) as [Ei|]; [|by apply elem_of_nil in Hk]. apply list_elem_of_singleton in Hk as [= -> ->].
    pose proof (Hargs r v' He Ei) as Ea. destruct r as [i kr args]. cbn in *. by subst.
  - intros He. eexists. split; [exact He|]. cbn. rewrite Nat.eqb_refl. constructor.
Qed.
Lemma attribute_rows_nodup idx s : NoDup s → (∀ r v, EvReply r v ∈ s → column_index r = idx → request_args r = None) →
  (∀ r v v', EvReply r v ∈ s → EvReply r v' ∈ s → v = v') → NoDup (map fst (flat_map (attribute_rows idx) s)).
Proof.
  intros Hnd Hargs Hfun. apply NoDup_fmap_2_strong.
  - intros [k v] [k' v'] Hk Hk'. cbn [fst]. intros ->. apply (attribute_rows_in idx s Hargs) in Hk, Hk'. by rewrite (Hfun _ _ _ Hk Hk').
  - apply NoDup_flat_map; [done|..].
    + intros [] _; cbn; try constructor. destruct (_ =? _)%nat; repeat constructor. apply not_elem_of_nil.
    + intros e1 e2 y He1 He2 Hy1 Hy2. destruct e1 as [r1|r1 v1|a b]; cbn in Hy1; try by apply elem_of_nil in Hy1.
      destruct e2 as [r2|r2 v2|a b]; cbn in Hy2; try by apply elem_of_nil in Hy2.
      destruct (Nat.eqb_spec (column_index r1) idx) as [E1|]; [|by apply elem_of_nil in Hy1].
      destruct (Nat.eqb_spec (column_index r2) idx) as [E2|]; [|by apply elem_of_nil in Hy2].
      apply list_elem_of_singleton in Hy1 as ->. apply list_elem_of_singleton in Hy2 as [= Ek ->].
      pose proof (Hargs _ _ He1 E1) as A1. pose proof (Hargs _ _ He2 E2) as A2. destruct r1, r2. cbn in *. by subst.
Qed.

Section output.
Context `{ErrorMode}.
Context (plain : Value → Prop) (plain_eq : ∀ v w, plain v → plain w → cmp v w = Eq → v = w).

(** The rows of an output attribute: the keys of its universe with their values. *)
Definition column_of (p : Parts) (s0 : list Event) (o : Output) (col : Coll (Key * Value)) : Prop :=
  match o with
  | AttributeOutput idx u => ∃ rows, col = ones rows ∧ NoDup (map fst rows) ∧
      ∀ k v, (k, v) ∈ rows ↔ (k, 1) ∈ universe_keys u ∧ Evaluates (input_details p) (computers p) s0 (mk_Request idx k None) v
  | MethodOutput data u => col = map (λ e, ((fst e, VTuple [data; VPointer (fst e)]), snd e)) (universe_keys u)
  end.
(** Computers ask an output attribute for the rows of its universe only. *)
Definition asked_in_universe (p : Parts) (s0 : list Event) : Prop :=
  ∀ idx u r, AttributeOutput idx u ∈ outputs p → Needed (input_details p) (computers p) s0 r → column_index r = idx →
    request_args r = None ∧ (request_key r, 1) ∈ universe_keys u.
Lemma attribute_column p s0 s idx u : WellFormed plain (input_details p) (computers p) s0 → outputs_requested p → input_events p = ones s0 →
  AttributeOutput idx u ∈ outputs p → NoDup s →
  (∀ r v, EvReply r v ∈ s → Evaluates (input_details p) (computers p) s0 r v ∧ (EvReply r v ∈ s0 ∨ Needed (input_details p) (computers p) s0 r)) →
  (∀ r v, EvRequest r ∈ s0 → Evaluates (input_details p) (computers p) s0 r v → EvReply r v ∈ s) →
  (∀ r, EvRequest r ∈ s0 → ∃ v, Evaluates (input_details p) (computers p) s0 r v) → asked_in_universe p s0 →
  ∃ col, to_column (ones s) (AttributeOutput idx u) = Ok col ∧ column_of p s0 (AttributeOutput idx u) col.
Proof.
  intros Hwf Hout Hev Ho Hnd Hrep Hcomp Hreq Hown. destruct (Hout idx u Ho) as [_ (det & j & Hdet & Hj)].
  destruct (requested_universe p s0 idx u Hout Hev (wf_nodup _ _ _ _ Hwf) Ho) as (ks & Hks & Hndk & Hkr).
  assert (Hin1 : ∀ k, (k, 1) ∈ universe_keys u ↔ k ∈ ks).
  { intros k. rewrite Hks. split; [by intros (? & [= ->] & ?)%list_elem_of_fmap|]. intros Hk. apply list_elem_of_fmap. by exists k. }
  assert (Hcol : ∀ r v, EvReply r v ∈ s → column_index r = idx → request_args r = None ∧ request_key r ∈ ks).
  { intros r v Hr E. destruct (Hrep r v Hr) as [_ [Hr0|Hn]].
    - destruct (wf_input _ _ _ _ Hwf r v Hr0) as (d & Hd & Hnone). congruence.
    - rewrite <- Hin1. by apply (Hown idx u r). }
  assert (Hargs : ∀ r v, EvReply r v ∈ s → column_index r = idx → request_args r = None) by (intros r v Hr E; by apply (Hcol r v)).
  set (rows := flat_map (attribute_rows idx) s).
  assert (Hndr : NoDup (map fst rows)).
  { apply attribute_rows_nodup; [done..|]. intros r v v' Hv Hv'. eapply evaluates_unique; [exact Hwf|by apply Hrep..]. }
  assert (Hrows : ∀ k v, (k, v) ∈ rows ↔ (k, 1) ∈ universe_keys u ∧ Evaluates (input_details p) (computers p) s0 (mk_Request idx k None) v).
  { intros k v. unfold rows. rewrite (attribute_rows_in idx s Hargs), Hin1. split.
    - intros Hr. split; [by apply (Hcol _ _ Hr)|by apply Hrep].
    - intros [Hk Hv]. apply Hcomp; [by apply Hkr|done]. }
  exists (ones rows). split; [|by exists rows]. unfold to_column. rewrite (flat_map_coll_pure _ (attribute_rows idx)); cycle 1.
  { intros e' (e & -> & He)%list_elem_of_fmap. cbn [fst]. destruct e as [r|r v|a b]; try done. cbn.
    destruct (Nat.eqb_spec (column_index r) idx) as [Ei|]; [|done]. by rewrite (Hargs r v He Ei). }
  cbn [mbind outcome_bind]. rewrite flat_map_ones. fold rows. unfold assert_input_keys_match_output_keys.
  replace (keys (ones rows)) with (ones (map fst rows)) by (unfold keys, ones; by rewrite !map_map).
  rewrite Hks, consolidate_same_keys.
  { reflexivity. }
  { done. } { done. } intros k. split.
  - intros Hk. destruct (Hreq _ (Hkr k Hk)) as [v Hv]. apply list_elem_of_fmap. exists (k, v). split; [done|]. apply Hrows. by rewrite Hin1.
  - intros ([k' v] & -> & Hkv%Hrows)%list_elem_of_fmap. apply Hin1, Hkv.
Qed.

(** C11: The columns of class transformers. The iteration of requests, dependencies and
    replies ends without an error, and every output attribute has exactly one row for
    each key of its universe, with the value of the recursive evaluation of the
    computers. This holds for inputs whose rows are unique, with values on which
    equality is identity, whose computers ask with such values and stop when an answer
    is missing, whose requested attributes all have a value under the recursive
    evaluation (no cycles), and whose output attributes are asked for rows of their
    universes only. *)
Theorem complex_columns_evaluate inputs p s0 : handle_inputs inputs = Ok p → input_events p = ones s0 →
  WellFormed plain (input_details p) (computers p) s0 →
  (∀ r, EvRequest r ∈ s0 → ∃ v, Evaluates (input_details p) (computers p) s0 r v) → asked_in_universe p s0 →
  ∃ fuel cols, complex_columns fuel inputs = Ok (Some (Ok cols)) ∧ Forall2 (column_of p s0) (outputs p) cols.
Proof.
  intros Hp Hev Hwf Hreq Hown. pose proof (handle_inputs_spec inputs p Hp) as Hout.
  destruct (iterate_events_evaluates plain plain_eq _ _ s0 Hwf Hreq) as (fuel & s & Hs & Hnd & Hrep & Hcomp).
  destruct (try_collect_total (to_column (ones s)) (column_of p s0) (outputs p)) as (cols & Hcols & HF).
  { intros [idx u|data u] Ho; [by apply attribute_column|]. by eexists. }
  exists fuel, cols. split; [|done]. unfold complex_columns. rewrite Hp. cbn [mbind outcome_bind]. rewrite Hev, Hs. cbn [mbind outcome_bind].
  by rewrite Hcols.
Qed.
End output.

(** ** Running totals *)

Definition ask (column : nat) (row : Key) (k : Value → Program) : Program :=
  Get column row [] (λ u, match u with Some u => k u | None => Return (Ok None) end).
(** The total of a row: its amount and the total of the row before. *)
Definition total (key : Key) (_ : Value) : Program :=
  ask 0 key (λ v, if key_0 key =? 1 then Return (Ok (Some v)) else
    ask 1 (mk_Key (key_0 key - 1)) (λ u, match v, u with VInt a, VInt b => Return (Ok (Some (VInt (a + b)))) | _, _ => Return (Ok None) end)).
Definition total_inputs : list ComplexColumn :=
  [ColumnInput (mk_Column 0 [((mk_Key 1, VInt 5), 1); ((mk_Key 2, VInt 7), 1); ((mk_Key 3, VInt 30), 1)]);
   ExternalComputer (AttributeComputer total (mk_Universe 0 [(mk_Key 1, 1); (mk_Key 2, 1); (mk_Key 3, 1)]))].
Definition amount (n v : Z) : Event := EvReply (mk_Request 0 (mk_Key n) None) (VInt v).
Definition total_of (n : Z) : Request := mk_Request 1 (mk_Key n) None.
Definition total_events : list Event :=
  [amount 1 5; amount 2 7; amount 3 30; EvRequest (total_of 1); EvRequest (total_of 2); EvRequest (total_of 3)].
Definition total_parts : Parts :=
  mk_Parts [mk_InputDetails None None; mk_InputDetails (Some 0%nat) (Some 0%nat)] (ones total_events)
    [mk_ComputerDetails (Attribute total) None] [AttributeOutput 1 (mk_Universe 0 [(mk_Key 1, 1); (mk_Key 2, 1); (mk_Key 3, 1)])].
#[local] Notation total_evaluates := (Evaluates (input_details total_parts) (computers total_parts) total_events).
Definition number (v : Value) : Prop := match v with VNone | VInt _ => True | _ => False end.
Lemma number_eq v w : number v → number w → cmp v w = Eq → v = w.
Proof. destruct v, w; try done. intros _ _ E. by apply Z_cmp_eq in E as ->. Qed.

Lemma total_good key d : number d → good number (total key d).
Proof.
  intros _. apply good_get; [done|done|]. intros v Hv. destruct (key_0 key =? 1); [apply good_return; by intros ? [= <-]|].
  apply good_get; [done|done|]. intros u Hu. destruct v; try done; destruct u; try done; apply good_return; by intros ? [= <-].
Qed.
Lemma total_well_formed : WellFormed number (input_details total_parts) (computers total_parts) total_events.
Proof.
  split.
  - unfold total_events. repeat constructor; rewrite ?not_elem_of_cons, ?elem_of_nil; set_solver.
  - intros e He. unfold total_events in He. repeat (apply elem_of_cons in He as [->|He]; [done|]). by apply elem_of_nil in He.
  - intros a b He. unfold total_events in He. repeat (apply elem_of_cons in He as [E|He]; [discriminate E|]). by apply elem_of_nil in He.
  - intros r v He. exists (mk_InputDetails None None). split; [|done]. unfold total_events in He.
    repeat (apply elem_of_cons in He as [E|He]; [first [discriminate E|by injection E as -> ->]|]). by apply elem_of_nil in He.
  - intros r v v' He He'. unfold total_events in He, He'.
    repeat (apply elem_of_cons in He as [E|He]; [first [discriminate E|injection E as -> ->;
      repeat (apply elem_of_cons in He' as [E'|He']; [first [discriminate E'|by injection E' as ->]|]); by apply elem_of_nil in He']|]).
    by apply elem_of_nil in He.
  - intros c col ->%list_elem_of_singleton. done.
  - done.
  - intros c key d args p ->%list_elem_of_singleton Hd _. cbn. destruct args; [|done]. intros [= <-]. by apply total_good.
Qed.
Lemma total_program key : program_of (input_details total_parts) (computers total_parts) (mk_Request 1 key None) (total key VNone).
Proof. by exists 0%nat, (mk_ComputerDetails (Attribute total) None), VNone. Qed.
Lemma amount_evaluates n v : amount n v ∈ total_events → total_evaluates (context_request 0 (mk_Key n) []) (VInt v).
Proof. intros Hv. by apply eval_input. Qed.
Lemma total_later n a b : 1 < n → amount n a ∈ total_events → total_evaluates (total_of (n - 1)) (VInt b) → total_evaluates (total_of n) (VInt (a + b)).
Proof.
  intros Hn Ha Hb. eapply eval_computer; [apply total_program|]. eapply runs_get; [by apply amount_evaluates|]. cbn.
  destruct (Z.eqb_spec n 1); [lia|]. eapply runs_get; [exact Hb|]. apply runs_return.
Qed.
Lemma total_values : total_evaluates (total_of 1) (VInt 5) ∧ total_evaluates (total_of 2) (VInt 12) ∧ total_evaluates (total_of 3) (VInt 42).
Proof.
  assert (He1 : total_evaluates (total_of 1) (VInt 5)).
  { eapply eval_computer; [apply total_program|]. eapply runs_get; [by apply amount_evaluates, list_elem_of_In; left|]. apply runs_return. }
  assert (He2 : total_evaluates (total_of 2) (VInt (7 + 5))) by (apply (total_later 2 7 5); [done|apply list_elem_of_In; cbn; auto|done]).
  split; [done|]. split; [done|]. apply (total_later 3 30 12); [done|apply list_elem_of_In; cbn; auto|done].
Qed.
Lemma total_asks p r : Asks (input_details total_parts) (computers total_parts) total_events p r → ∀ key, p = total key VNone →
  r = mk_Request 0 key None ∨ (key_0 key ≠ 1 ∧ r = mk_Request 1 (mk_Key (key_0 key - 1)) None).
Proof.
  intros Ha key ->. inversion Ha as [|? ? ? ? u ? _ Ha']; subst; [by left|right]. cbn in Ha'.
  destruct (Z.eqb_spec (key_0 key) 1); [by inversion Ha'|]. inversion Ha' as [|? ? ? ? w ? _ Ha'']; subst; [done|].
  destruct u, w; by inversion Ha''.
Qed.
Lemma total_asked : asked_in_universe total_parts total_events.
Proof.
  assert (Hn : ∀ r, Needed (input_details total_parts) (computers total_parts) total_events r →
    r ∈ [total_of 1; total_of 2; total_of 3] ∨ column_index r = 0%nat).
  { induction 1 as [r Hr|a p r Ha IH Hp Hasks].
    - unfold total_events in Hr. left. repeat (apply elem_of_cons in Hr as [E|Hr]; [first [discriminate E|injection E as ->; apply list_elem_of_In; cbn; auto]|]).
      by apply elem_of_nil in Hr.
    - destruct Hp as (i & c & d & Hc & Hd & Hp). unfold computer_of in Hc. destruct IH as [IH|IH]; [|by rewrite IH in Hc].
      assert (Hin : ∃ n, (n = 1 ∨ n = 2 ∨ n = 3) ∧ a = total_of n).
      { repeat (apply elem_of_cons in IH as [->|IH]; [eexists; split; [|done]; auto|]). by apply elem_of_nil in IH. }
      destruct Hin as (n & Hn & ->). injection Hc as <- <-. injection Hp as <-.
      destruct (total_asks _ _ Hasks (mk_Key n) eq_refl) as [->|[Hne ->]]; [by right|left].
      cbn in *. destruct Hn as [->|[->| ->]]; [done|apply list_elem_of_In; cbn; auto..]. }
  intros idx u r [= -> ->]%list_elem_of_singleton [Hr|Hr]%Hn Hi; [|congruence].
  repeat (apply elem_of_cons in Hr as [->|Hr]; [split; [done|]; apply list_elem_of_In; cbn; auto|]). by apply elem_of_nil in Hr.
Qed.
Lemma complex_columns_evaluate_witness :
  ∃ fuel cols, complex_columns (H := release) fuel total_inputs = Ok (Some (Ok cols)) ∧
    Forall2 (column_of total_parts total_events) (outputs total_parts) cols.
Proof.
  apply (complex_columns_evaluate (H := release) number number_eq total_inputs total_parts total_events).
  - reflexivity.
  - reflexivity.
  - exact total_well_formed.
  - intros r Hr. destruct total_values as (Ht1 & Ht2 & Ht3). unfold total_events in Hr.
    repeat (apply elem_of_cons in Hr as [E|Hr]; [first [discriminate E|injection E as ->; eexists; eassumption]|]). by apply elem_of_nil in Hr.
  - exact total_asked.
Defined.
(** The totals 5, 12 and 42 after five rounds, and not before. *)
Example totals : (λ r, match r with Ok (Some (Ok cols)) => Some (map (map (λ e, (snd (fst e), snd e))) cols) | _ => None end)
  (complex_columns (H := release) 5 total_inputs) = Some [[(VInt 5, 1); (VInt 12, 1); (VInt 42, 1)]] ∧
  complex_columns (H := release) 4 total_inputs = Ok None.
Proof. split; vm_compute; reflexivity. Qed.
