(* ===== verification/Properties.v ===== *)
(** Properties of tables (src/engine/graph.rs, error.rs): the types and traces of the
    columns of a table, as a tree along the paths of the columns. *)
From Stdlib Require Import ZArith Lia Bool.
From stdpp Require Import base list strings.
From S2P Require Import Prelude Order Float Text Data Externals Value Weights Expression Output Table.
Open Scope Z_scope.

(** [Trace] of error.rs: where in the user's code an operator comes from. *)
Inductive Trace := TraceFrame (line file_name : string) (line_number : Z) (function : string) | TraceEmpty.
#[export] Instance Trace_eq_dec : EqDecision Trace.
Proof. solve_decision. Defined.
Record ColumnProperties := mk_ColumnProperties { dtype : Type_; append_only : bool; cp_trace : Trace }.
#[export] Instance ColumnProperties_eq_dec : EqDecision ColumnProperties.
Proof. solve_decision. Defined.
Inductive TableProperties :=
| PropertiesTable (inner : list TableProperties)
| PropertiesColumn (properties : ColumnProperties)
| PropertiesEmpty.

(** [#[derive(PartialEq)]]. *)
Fixpoint TableProperties_eqb (a b : TableProperties) : bool :=
  match a, b with
  | PropertiesTable l, PropertiesTable l' =>
      (fix go (l l' : list TableProperties) : bool :=
         match l, l' with
         | [], [] => true
         | x :: l, y :: l' => TableProperties_eqb x y && go l l'
         | _, _ => false
         end) l l'
  | PropertiesColumn p, PropertiesColumn q => bool_decide (p = q)
  | PropertiesEmpty, PropertiesEmpty => true
  | _, _ => false
  end.
Inductive PropertiesError :=
| PathError (e : GraphError)
| InconsistentColumnProperties
| IdInTableProperties.

(** [TableProperties::flat], [TableProperties::trace]. *)
Definition flat (column_properties : list ColumnProperties) : TableProperties :=
  PropertiesTable (map PropertiesColumn column_properties).
Definition trace (self : TableProperties) : Trace :=
  match self with PropertiesColumn properties => cp_trace properties | _ => TraceEmpty end.

(** [ColumnPath::extract_properties]. *)
Fixpoint extract_properties_path (self : ColumnPath) (path : list nat) (table_properties : TableProperties)
    : outcome GraphError TableProperties :=
  match path with
  | [] => Ok table_properties
  | i :: path =>
      match table_properties with
      | PropertiesTable inner =>
          table_properties ← ok_or (inner !! i) (InvalidColumnPath self);
          extract_properties_path self path table_properties
      | _ => Err (InvalidColumnPath self)
      end
  end.
Definition extract_properties (self : ColumnPath) (table_properties : TableProperties) : outcome GraphError TableProperties :=
  match self with
  | PathKey => Ok PropertiesEmpty
  | ValuePath path => extract_properties_path self path table_properties
  end.

(** ** [TableProperties::from_paths] *)

#[export] Instance index_ord : Ord nat := λ a b, cmp (Z.of_nat a) (Z.of_nat b).
Definition path_order (x y : list nat * TableProperties) : comparison := cmp (fst x) (fst y).
(** [props[end].0[depth]]. *)
Definition path_at (depth : nat) (x : list nat * TableProperties) : outcome PropertiesError nat :=
  match fst x !! depth with Some i => Ok i | None => Panic "index out of bounds" end.
(** The inner loop: the paths that go on with [prefix] at this depth, and the others. *)
Fixpoint span_prefix (depth prefix : nat) (props : list (list nat * TableProperties))
    : outcome PropertiesError (list (list nat * TableProperties) * list (list nat * TableProperties)) :=
  match props with
  | [] => Ok ([], [])
  | x :: rest =>
      i ← path_at depth x;
      if (prefix =? i)%nat then ' (group, rest) ← span_prefix depth prefix rest; Ok (x :: group, rest)
      else Ok ([], x :: rest)
  end.
(** The outer loop. *)
Fixpoint nested_loop (produce : list (list nat * TableProperties) → outcome PropertiesError TableProperties) (depth fuel prefix : nat)
    (props : list (list nat * TableProperties)) : outcome PropertiesError (list TableProperties) :=
  match fuel with
  | O => Panic "fuel"
  | S fuel =>
      match props with
      | [] => Ok []
      | _ =>
          ' (group, rest) ← span_prefix depth prefix props;
          p ← match group with [] => Ok PropertiesEmpty | _ => produce group end;
          ps ← nested_loop produce depth fuel (S prefix) rest;
          Ok (p :: ps)
      end
  end.
(** The prefix grows up to the largest index at the depth. *)
Definition loop_fuel (depth : nat) (props : list (list nat * TableProperties)) : nat :=
  S (S (foldr Nat.max 0 (map (λ x, default 0 (fst x !! depth)) props)))%nat.
Fixpoint produce_nested_tuple (fuel depth : nat) (props : list (list nat * TableProperties)) : outcome PropertiesError TableProperties :=
  match fuel with
  | O => Panic "fuel"
  | S fuel =>
      let descend :=
        result ← nested_loop (produce_nested_tuple fuel (S depth)) depth (loop_fuel depth props) 0 props;
        Ok (PropertiesTable result) in
      match props with
      | first :: others =>
          if (length (fst first) =? depth)%nat then
            if forallb (λ other, TableProperties_eqb (snd first) (snd other)) others
            then Ok (snd first) else Err InconsistentColumnProperties
          else descend
      | [] => descend
      end
  end.
(** The depth grows up to the length of the longest path. *)
Definition depth_fuel (props : list (list nat * TableProperties)) : nat :=
  S (foldr Nat.max 0 (map (λ x, length (fst x)) props))%nat.
Definition from_paths (properties : list (ColumnPath * TableProperties)) : outcome PropertiesError TableProperties :=
  properties ← try_collect (λ pp, match fst pp with ValuePath path => Ok (path, snd pp) | PathKey => Err IdInTableProperties end) properties;
  let properties := sort_by path_order properties in
  produce_nested_tuple (depth_fuel properties) 0 properties.
