(* ===== verification/PropertiesProps.v ===== *)
(** The tree of the properties of a table: building it from the paths of the columns and
    looking the paths up again. *)
From Stdlib Require Import ZArith Lia Bool.
From stdpp Require Import base list sorting strings.
From S2P Require Import Prelude Order Float Text Data Externals Value Weights Expression Output Table TableProps.
From S2P Require Import Properties.
Open Scope Z_scope.

#[export] Instance index_ord_laws : OrdLaws nat.
Proof. by apply (ord_laws_via Z.of_nat). Qed.
Lemma index_cmp_eq (a b : nat) : cmp a b = Eq ↔ a = b.
Proof. unfold cmp, index_ord. rewrite Z_cmp_eq. lia. Qed.
Lemma index_cmp_le (a b : nat) : cmp a b ≠ Gt ↔ (a ≤ b)%nat.
Proof. unfold cmp, index_ord, cmp, Z_ord. destruct (Z.compare_spec (Z.of_nat a) (Z.of_nat b)); split; try done; lia. Qed.

(** [#[derive(PartialEq)]] is equality. *)
Lemma TableProperties_eqb_eq a : ∀ b, TableProperties_eqb a b = true ↔ a = b.
Proof.
  revert a. fix IH 1. intros [l|p|] [l'|p'|]; cbn; try (split; intros E; discriminate E); [| |split; intros _; reflexivity].
  - transitivity (l = l'); [|split; [intros ->; reflexivity|intros [= ->]; reflexivity]]. revert l'.
    induction l as [|x l IHl]; intros [|y l']; try (split; intros E; discriminate E); [split; intros _; reflexivity|].
    rewrite andb_true_iff, (IH x y), (IHl l'). split; [intros [-> ->]; reflexivity|intros [= -> ->]; split; reflexivity].
  - rewrite bool_decide_eq_true. split; [intros ->; reflexivity|intros [= ->]; reflexivity].
Qed.

(** ** Sorted paths *)

Implicit Types (props : list (list nat * TableProperties)) (path : list nat).
Definition paths_sorted props : Prop := StronglySorted (λ x y : list nat, cmp x y ≠ Gt) (map fst props).
(** All the paths start with the same indexes up to a depth, which does not end them. *)
Definition at_depth (start : list nat) (x : list nat * TableProperties) : Prop := ∃ i rest, fst x = start ++ i :: rest.
Lemma list_cmp_app (start p q : list nat) : cmp (start ++ p) (start ++ q) = cmp p q.
Proof.
  induction start as [|i start IH]; [done|]. cbn [app]. unfold cmp, list_ord in *. cbn [list_cmp].
  assert (E : cmp i i = Eq) by (by apply index_cmp_eq). rewrite E. exact IH.
Qed.
Lemma path_at_depth start x : at_depth start x → ∃ i, path_at (length start) x = Ok i ∧ start ++ [i] `prefix_of` fst x.
Proof.
  intros (i & rest & E). exists i. unfold path_at. rewrite E, list_lookup_middle by done. split; [done|].
  exists rest. by rewrite <- app_assoc.
Qed.
Lemma path_at_sorted start x y i j : at_depth start x → at_depth start y → cmp (fst x) (fst y) ≠ Gt →
  path_at (length start) x = Ok i → path_at (length start) y = Ok j → (i ≤ j)%nat.
Proof.
  intros (i' & p & Ex) (j' & q & Ey) Hle. unfold path_at. rewrite Ex, Ey, !list_lookup_middle by done. intros [= <-] [= <-].
  rewrite Ex, Ey, list_cmp_app in Hle. apply index_cmp_le. intros Hgt. apply Hle. unfold cmp. cbn. by rewrite Hgt.
Qed.
(** The inner loop splits off the paths of its prefix. *)
Lemma span_prefix_spec start prefix props : Forall (at_depth start) props → paths_sorted props →
  (∀ x i, x ∈ props → path_at (length start) x = Ok i → (prefix ≤ i)%nat) →
  ∃ group rest, span_prefix (length start) prefix props = Ok (group, rest) ∧ props = group ++ rest ∧
    (∀ x, x ∈ group → path_at (length start) x = Ok prefix) ∧
    (∀ x i, x ∈ rest → path_at (length start) x = Ok i → (S prefix ≤ i)%nat).
Proof.
  induction props as [|x props IH]; intros Hd Hs Hge.
  { exists [], []. split; [done|]. split; [done|]. by split; [intros ? ?%elem_of_nil|intros ? ? ?%elem_of_nil]. }
  apply Forall_cons in Hd as [Hx Hd]. destruct (path_at_depth _ _ Hx) as (i & Hi & _). cbn [span_prefix]. rewrite Hi. cbn [mbind outcome_bind].
  apply StronglySorted_inv in Hs as [Hs Hf]. rewrite Forall_forall in Hf.
  destruct (Nat.eqb_spec prefix i) as [<-|Hne].
  - destruct IH as (group & rest & Hg & -> & Hgroup & Hrest); [done|done|intros y j Hy; apply Hge; by constructor|].
    rewrite Hg. cbn [mbind outcome_bind]. exists (x :: group), rest. split; [done|]. split; [done|]. split; [|done].
    intros y [->|Hy]%elem_of_cons; [done|by apply Hgroup].
  - exists [], (x :: props). split; [done|]. split; [done|]. split; [by intros ? ?%elem_of_nil|].
    assert (Hlt : (S prefix ≤ i)%nat) by (pose proof (Hge x i ltac:(constructor) Hi); lia).
    intros y j [->|Hy]%elem_of_cons Hj; [congruence|]. transitivity i; [done|].
    eapply (path_at_sorted start x y); [done|by rewrite Forall_forall in Hd; apply Hd|apply Hf, list_elem_of_fmap; by exists y|done|done].
Qed.
Lemma paths_sorted_app props props' : paths_sorted (props ++ props') → paths_sorted props ∧ paths_sorted props'.
Proof. unfold paths_sorted. rewrite map_app. rewrite StronglySorted_app. by intros (_ & ? & ?). Qed.

(** ** The tree of the paths *)

(** A path that starts another one is the same path. *)
Definition prefix_free props : Prop := ∀ x y, x ∈ props → y ∈ props → fst x `prefix_of` fst y → fst x = fst y.
Definition looks_up (start : list nat) props (t : TableProperties) : Prop :=
  ∀ x path self, x ∈ props → fst x = start ++ path → extract_properties_path self path t = Ok (snd x).
Definition inconsistent props : Prop := ∃ x y, x ∈ props ∧ y ∈ props ∧ fst x = fst y ∧ snd x ≠ snd y.
Definition produced (start : list nat) props (r : outcome PropertiesError TableProperties) : Prop :=
  (∃ t, r = Ok t ∧ looks_up start props t) ∨ (r = Err InconsistentColumnProperties ∧ inconsistent props).
Definition produces (fuel : nat) : Prop := ∀ start props, props ≠ [] →
  Forall (λ x, start `prefix_of` fst x) props → paths_sorted props → prefix_free props →
  Forall (λ x, (length (fst x) < length start + fuel)%nat) props →
  produced start props (produce_nested_tuple fuel (length start) props).

Lemma prefix_free_incl props props' : (∀ x, x ∈ props' → x ∈ props) → prefix_free props → prefix_free props'.
Proof. intros Hi Hp x y Hx Hy. apply Hp; by apply Hi. Qed.
Lemma nested_loop_spec n start fuel prefix props : produces n →
  Forall (at_depth start) props → paths_sorted props → prefix_free props →
  Forall (λ x, (length (fst x) < S (length start) + n)%nat) props →
  (∀ x i, x ∈ props → path_at (length start) x = Ok i → (prefix ≤ i ∧ S i < prefix + fuel)%nat) → (0 < fuel)%nat →
  (∃ ps, nested_loop (produce_nested_tuple n (S (length start))) (length start) fuel prefix props = Ok ps ∧
    ∀ x i path self, x ∈ props → fst x = start ++ i :: path →
      ∃ t, ps !! (i - prefix)%nat = Some t ∧ extract_properties_path self path t = Ok (snd x)) ∨
  (nested_loop (produce_nested_tuple n (S (length start))) (length start) fuel prefix props = Err InconsistentColumnProperties ∧ inconsistent props).
Proof.
  intros Hn. revert prefix props. induction fuel as [|fuel IH]; intros prefix props Hd Hs Hp Hl Hi Hf; [lia|]. cbn [nested_loop].
  destruct props as [|x0 props']; [left; exists []; split; [done|by intros ? ? ? ? ?%elem_of_nil]|].
  assert (Hpos : (0 < fuel)%nat).
  { apply Forall_cons in Hd as [Hx0 _]. destruct (path_at_depth _ _ Hx0) as (i & Ei & _). destruct (Hi x0 i ltac:(constructor) Ei). lia. }
  set (props := x0 :: props') in *.
  destruct (span_prefix_spec start prefix props Hd Hs) as (group & rest & Hspan & Eprops & Hgroup & Hrest); [intros x i Hx Hxi; by apply (Hi x i)|].
  rewrite Hspan. cbn [mbind outcome_bind]. clearbody props. subst props.
  apply Forall_app in Hd as [Hdg Hdr]. apply paths_sorted_app in Hs as [Hsg Hsr]. apply Forall_app in Hl as [Hlg Hlr].
  assert (Hig : ∀ x, x ∈ group → x ∈ group ++ rest) by (intros x Hx; apply elem_of_app; by left).
  assert (Hir : ∀ x, x ∈ rest → x ∈ group ++ rest) by (intros x Hx; apply elem_of_app; by right).
  assert (Hg : produced (start ++ [prefix]) group (match group with [] => Ok PropertiesEmpty | _ => produce_nested_tuple n (S (length start)) group end)).
  { destruct group as [|g group]; [left; exists PropertiesEmpty; split; [done|by intros ? ? ? ?%elem_of_nil]|].
    replace (S (length start)) with (length (start ++ [prefix])) by (rewrite length_app; cbn; lia). apply Hn; [done| |done|by eapply prefix_free_incl|].
    - apply Forall_forall. intros x Hx. rewrite Forall_forall in Hdg. destruct (path_at_depth _ _ (Hdg x Hx)) as (i & Ei & Hpre).
      rewrite (Hgroup x Hx) in Ei. by injection Ei as <-.
    - eapply Forall_impl; [exact Hlg|]. intros x. cbn. rewrite length_app. cbn. lia. }
  destruct Hg as [(t & -> & Ht)|[-> (x & y & Hx & Hy & Hne)]]; [|right; split; [done|]; exists x, y; auto].
  cbn [mbind outcome_bind].
  destruct (IH (S prefix) rest Hdr Hsr) as [(ps & -> & Hps)|[-> (x & y & Hx & Hy & Hne)]]; [by eapply prefix_free_incl|done| |done|..].
  { intros x i Hx Ei. split; [by apply (Hrest x i)|]. destruct (Hi x i (Hir x Hx) Ei). lia. }
  - left. exists (t :: ps). split; [done|]. intros x i path self Hx Ex.
    assert (Ei : path_at (length start) x = Ok i) by (unfold path_at; by rewrite Ex, list_lookup_middle).
    apply elem_of_app in Hx as [Hx|Hx].
    + rewrite (Hgroup x Hx) in Ei. injection Ei as <-. exists t. rewrite Nat.sub_diag. split; [done|]. apply Ht; [done|].
      by rewrite Ex, <- app_assoc.
    + pose proof (Hrest x i Hx Ei) as Hle. destruct (Hps x i path self Hx Ex) as (t' & Ht' & E). exists t'. split; [|done].
      replace (i - prefix)%nat with (S (i - S prefix)) by lia. done.
  - right. split; [done|]. exists x, y. auto.
Qed.
Lemma foldr_max_le (l : list nat) x : x ∈ l → (x ≤ foldr Nat.max 0 l)%nat.
Proof. induction 1; cbn; lia. Qed.
(** Paths that all start in the same way end there, or go on. *)
Lemma same_path start props x : Forall (λ x, start `prefix_of` fst x) props → prefix_free props → x ∈ props → fst x = start →
  ∀ y, y ∈ props → fst y = start.
Proof.
  intros Hpre Hp Hx Ex y Hy. rewrite Forall_forall in Hpre. rewrite <- (Hp x y Hx Hy); [done|]. rewrite Ex. by apply Hpre.
Qed.
Lemma produce_nested_tuple_spec n : produces n.
Proof.
  induction n as [|n IH]; intros start props Hne Hpre Hs Hp Hl.
  { destruct props as [|x props]; [done|]. apply Forall_cons in Hl as [Hx _], Hpre as [[rest E] _]. rewrite E, length_app in Hx. lia. }
  destruct props as [|x props]; [done|]. cbn [produce_nested_tuple]. destruct (Nat.eqb_spec (length (fst x)) (length start)) as [El|El].
  - assert (Ex : fst x = start).
    { apply Forall_cons in Hpre as [[rest E] _]. rewrite E, length_app in El. destruct rest; [|cbn in El; lia]. by rewrite E, app_nil_r. }
    pose proof (same_path start (x :: props) x Hpre Hp ltac:(constructor) Ex) as Hall.
    destruct (forallb _ _) eqn:Ef.
    + left. exists (snd x). split; [done|]. rewrite forallb_forall in Ef. intros y path self Hy Ey. rewrite (Hall y Hy) in Ey.
      assert (path = []) as -> by (apply (app_inv_head start); by rewrite app_nil_r). cbn. f_equal.
      apply elem_of_cons in Hy as [->|Hy]; [done|]. by apply TableProperties_eqb_eq, Ef, list_elem_of_In.
    + right. split; [done|]. assert (Hf : ∃ y, y ∈ props ∧ TableProperties_eqb (snd x) (snd y) = false).
      { clear -Ef. induction props as [|y props IH]; [done|]. cbn in Ef. destruct (TableProperties_eqb (snd x) (snd y)) eqn:E.
        - destruct IH as (z & Hz & Ez); [done|]. exists z. split; [by constructor|done].
        - exists y. split; [constructor|done]. }
      destruct Hf as (y & Hy & E). exists x, y. split; [constructor|]. split; [by constructor|].
      split; [rewrite (Hall y) by (by constructor); done|]. intros E'%TableProperties_eqb_eq. congruence.
  - assert (Hd : Forall (at_depth start) (x :: props)).
    { apply Forall_forall. intros y Hy. rewrite Forall_forall in Hpre. destruct (Hpre y Hy) as [[|i rest] Ey]; [|by exists i, rest].
      rewrite app_nil_r in Ey. pose proof (same_path start (x :: props) y ltac:(by apply Forall_forall) Hp Hy Ey x ltac:(constructor)) as Ex.
      by rewrite Ex in El. }
    destruct (nested_loop_spec n start (loop_fuel (length start) (x :: props)) 0 (x :: props) IH Hd Hs Hp) as [(ps & -> & Hps)|[-> Hi]].
    + eapply Forall_impl; [exact Hl|]. cbn. lia.
    + intros y i Hy Ei. split; [lia|]. unfold loop_fuel, path_at in *.
      assert (Hin : i ∈ map (λ x, default 0%nat (fst x !! length start)) (x :: props)).
      { apply list_elem_of_fmap. exists y. split; [|done]. destruct (fst y !! length start) as [j|]; [|done]. by injection Ei as ->. }
      apply foldr_max_le in Hin. lia.
    + unfold loop_fuel. lia.
    + left. exists (PropertiesTable ps). split; [done|]. intros y path self Hy Ey. rewrite Forall_forall in Hd.
      destruct (Hd y Hy) as (i & rest & E). assert (path = i :: rest) as -> by (apply (app_inv_head start); congruence).
      destruct (Hps y i rest self Hy E) as (t & Ht & Et). rewrite Nat.sub_0_r in Ht. cbn [extract_properties_path]. by rewrite Ht.
    + right. split; [done|]. destruct Hi as (y & z & ?). by exists y, z.
Qed.

(** C17: from the paths and properties of columns, none of which lies below another one,
    [from_paths] makes a tree of properties exactly when the columns of the same path
    agree, and looking up the path of a column in it gives its properties; otherwise it
    reports the inconsistency.  Its recursion and its loop end. *)
Theorem from_paths_looks_up (properties : list (list nat * TableProperties)) :
  (∀ x y, x ∈ properties → y ∈ properties → fst x `prefix_of` fst y → fst x = fst y) →
  (from_paths (map (λ x, (ValuePath (fst x), snd x)) properties) = Err InconsistentColumnProperties ∧
   ∃ x y, x ∈ properties ∧ y ∈ properties ∧ fst x = fst y ∧ snd x ≠ snd y) ∨
  (∃ t, from_paths (map (λ x, (ValuePath (fst x), snd x)) properties) = Ok t ∧
   ∀ x, x ∈ properties → extract_properties (ValuePath (fst x)) t = Ok (snd x)).
Proof.
  intros Hp. unfold from_paths.
  replace (try_collect _ _) with (Ok properties : outcome PropertiesError _).
  2: { symmetry. apply try_collect_ok. clear Hp. induction properties as [|[path p] properties IH]; constructor; [done|exact IH]. }
  cbn [mbind outcome_bind]. cbv zeta. pose proof (sort_by_perm path_order properties) as Hperm. set (props := sort_by path_order properties) in *.
  assert (Hin : ∀ x, x ∈ props ↔ x ∈ properties) by (intros x; by rewrite Hperm).
  destruct props as [|x props'] eqn:Ep.
  { right. exists (PropertiesTable []). split; [done|]. by intros x Hx%Hin%elem_of_nil. }
  rewrite <- Ep in *. assert (Hpr : produced [] props (produce_nested_tuple (depth_fuel props) 0 props)); [|
    destruct Hpr as [(t & -> & Ht)|[-> (y & z & Hy & Hz & Hyz)]]; [right; exists t; split; [done|intros y Hy; by apply Ht; [apply Hin|]]|
      left; split; [done|]; exists y, z; rewrite !Hin in *; done]].
  apply (produce_nested_tuple_spec (depth_fuel props) [] props).
  - by rewrite Ep.
  - apply Forall_forall. intros y _. apply prefix_nil.
  - unfold paths_sorted. subst props. apply sort_by_sorted.
  - intros y z Hy%Hin Hz%Hin. by apply Hp.
  - apply Forall_forall. intros y Hy. cbn [length]. unfold depth_fuel.
    assert (Hl : length (fst y) ∈ map (λ x, length (fst x)) props) by (apply list_elem_of_fmap; by exists y). apply foldr_max_le in Hl. lia.
Qed.

(** The columns 0.1, 2 and 0.0 of a table, whose column 1 is not used. *)
Definition int_column (append_only : bool) : TableProperties := PropertiesColumn (mk_ColumnProperties TInt append_only TraceEmpty).
Definition some_columns : list (list nat * TableProperties) :=
  [([0%nat; 1%nat], int_column true); ([2%nat], int_column false); ([0%nat; 0%nat], int_column false)].
Lemma from_paths_looks_up_witness :
  (from_paths (map (λ x, (ValuePath (fst x), snd x)) some_columns) = Err InconsistentColumnProperties ∧
   ∃ x y, x ∈ some_columns ∧ y ∈ some_columns ∧ fst x = fst y ∧ snd x ≠ snd y) ∨
  (∃ t, from_paths (map (λ x, (ValuePath (fst x), snd x)) some_columns) = Ok t ∧
   ∀ x, x ∈ some_columns → extract_properties (ValuePath (fst x)) t = Ok (snd x)).
Proof.
  apply from_paths_looks_up. intros x y Hx Hy. unfold some_columns in Hx, Hy.
  repeat (apply elem_of_cons in Hx as [->|Hx]; [repeat (apply elem_of_cons in Hy as [->|Hy];
    [first [reflexivity|intros [k [= ]]]|]); by apply elem_of_nil in Hy|]). by apply elem_of_nil in Hx.
Defined.
Example some_properties : from_paths (map (λ x, (ValuePath (fst x), snd x)) some_columns) =
  Ok (PropertiesTable [PropertiesTable [int_column false; int_column true]; PropertiesEmpty; int_column false]).
Proof. reflexivity. Qed.
Example no_properties : from_paths [(ValuePath [0%nat], int_column true); (ValuePath [0%nat], int_column false)] = Err InconsistentColumnProperties.
Proof. reflexivity. Qed.
