(* ===== verification/Export.v ===== *)
(** Exported tables (src/engine/dataflow/export.rs, the trait [ExportedTable] of
    engine/graph.rs): a table that one dataflow graph writes and another one reads.

    The graphs run on their own threads and share the fields of the exported table,
    each behind its own lock.  A method is a sequence of accesses; a poll of the
    importing graph is split where other accesses can come between. *)
From Stdlib Require Import ZArith Lia Bool.
From stdpp Require Import base list strings.
From S2P Require Import Prelude Order Float Text Data Externals Value Timestamp Session Weights Expression Output Table.
From S2P Require Import Properties.
Open Scope Z_scope.

(** ** [DataRow] *)

Record DataRow := mk_DataRow { row_key : Key; row_values : list Value; row_time : Timestamp; row_diff : Z; row_shard : option Z }.
Definition from_engine (key : Key) (values : list Value) (time : Timestamp) (diff : Z) : DataRow :=
  mk_DataRow key values time diff None.

(** ** The exported table *)

(** A consumer is called to be notified and says whether to go on; [W] is what the
    consumers act on. *)
Section exported.
Context {W : Type}.
Record ExportedTable := mk_ExportedTable {
  failed : bool;
  properties : TableProperties;
  frontier : TotalFrontier Timestamp;
  data : list DataRow;
  consumers : list (W → bool * W)
}.
Definition exported_new (properties : TableProperties) : ExportedTable :=
  mk_ExportedTable false properties (At minimum) [] [].

(** [notify]: [retain_mut]. *)
Fixpoint retain_consumers (consumers : list (W → bool * W)) (w : W) : list (W → bool * W) * W :=
  match consumers with
  | [] => ([], w)
  | c :: cs =>
      let '(continue, w) := c w in
      let '(cs, w) := retain_consumers cs w in
      (if continue then c :: cs else cs, w)
  end.
Definition notify (t : ExportedTable) (w : W) : ExportedTable * W :=
  let '(cs, w) := retain_consumers (consumers t) w in
  (mk_ExportedTable (failed t) (properties t) (frontier t) (data t) cs, w).
Definition push (t : ExportedTable) (rows : list DataRow) (w : W) : ExportedTable * W :=
  notify (mk_ExportedTable (failed t) (properties t) (frontier t) (data t ++ rows) (consumers t)) w.
Definition advance (t : ExportedTable) (new_frontier : TotalFrontier Timestamp) (w : W) : outcome unit (ExportedTable * W) :=
  if ord_ltb (frontier t) new_frontier then
    Ok (notify (mk_ExportedTable (failed t) (properties t) new_frontier (data t) (consumers t)) w)
  else if ord_eqb new_frontier (frontier t) then Ok (t, w)
  else Panic "assertion `left == right` failed: advancing the frontier backwards".
Definition mark_finished (t : ExportedTable) (w : W) : ExportedTable * W :=
  if is_done (frontier t) then (t, w)
  else if failed t then (t, w)
  else notify (mk_ExportedTable true (properties t) (frontier t) (data t) (consumers t)) w.
Definition data_from_offset (t : ExportedTable) (offset : nat) : outcome unit (list DataRow * nat) :=
  if (offset <=? length (data t))%nat then Ok (drop offset (data t), length (data t))
  else Panic "range start index out of range for slice".
Definition subscribe (t : ExportedTable) (callback : W → bool * W) : ExportedTable :=
  mk_ExportedTable (failed t) (properties t) (frontier t) (data t) (consumers t ++ [callback]).

(** [snapshot_at]: the rows of the times that are done, sorted, equal ones merged. *)
Definition row_order (a b : DataRow) : comparison := then_cmp (cmp (row_key a) (row_key b)) (cmp (row_values a) (row_values b)).
Definition with_diff (r : DataRow) (diff : Z) : DataRow := mk_DataRow (row_key r) (row_values r) (row_time r) diff (row_shard r).
Fixpoint dedup_by (old : DataRow) (rows : list DataRow) : list DataRow :=
  match rows with
  | [] => [old]
  | new :: rows =>
      if bool_decide (row_key new = row_key old) && ord_eqb (row_values new) (row_values old)
      then dedup_by (with_diff old (row_diff old + row_diff new)) rows
      else old :: dedup_by new rows
  end.
Definition snapshot_row (r : DataRow) : outcome unit (list (Key * list Value)) :=
  if row_diff r =? 0 then Ok []
  else if row_diff r =? 1 then Ok [(row_key r, row_values r)]
  else Panic "assertion `left == right` failed: row had a final count different from 1".
Definition snapshot_at (t : ExportedTable) (frontier : TotalFrontier Timestamp) : outcome unit (list (Key * list Value)) :=
  ' (rows, _offset) ← data_from_offset t 0;
  let rows := List.filter (λ row, is_time_done frontier (row_time row)) rows in
  rows ← try_collect snapshot_row (match sort_by row_order rows with [] => [] | row :: rows => dedup_by row rows end);
  Ok (concat rows).

(** ** [export_table]: what the exporting dataflow does with the table *)

Inductive ExportEvent :=
| InspectBatch (rows : list (Key * list Value * Timestamp * Z))
| InspectFrontier (frontier : list Timestamp)
| DropGuard.
Definition export_event (t : ExportedTable) (w : W) (e : ExportEvent) : outcome unit (ExportedTable * W) :=
  match e with
  | InspectBatch rows => Ok (push t (map (λ r, let '(key, values, time, diff) := r in from_engine key values time diff) rows) w)
  | InspectFrontier frontier =>
      match frontier_try_from frontier with
      | Some f => advance t f w
      | None => Panic "called `Result::unwrap()` on an `Err` value: InvalidTotalAntichain"
      end
  | DropGuard => Ok (mark_finished t w)
  end.

(** ** [import_table]: the poller of the importing graph *)

(** Where the poller is: between its calls, or after it saw that the table has not
    failed, or with the frontier that it read. *)
Inductive ImportPhase := Idle | NotFailed | HasFrontier (frontier : TotalFrontier Timestamp) | Finished.
Record Importer := mk_Importer { phase : ImportPhase; offset : nat; input_session : Session NativeRecord }.
Definition importer_new : Importer := mk_Importer Idle 0 session_new.

(** [InputSession::update_at]. *)
Definition update_at `{AtCapacity NativeRecord} (s : Session NativeRecord) (element : Key * Value) (time : Timestamp) (change : Z)
    : outcome unit (Session NativeRecord) :=
  if less_equal (Session.time s) time then Ok (session_push s (element, time, change))
  else Panic "assertion failed: self.time.less_equal(&time)".
Fixpoint push_rows `{AtCapacity NativeRecord} (s : Session NativeRecord) (rows : list DataRow) : outcome unit (Session NativeRecord) :=
  match rows with
  | [] => Ok s
  | row :: rows =>
      s ← update_at s (row_key row, VTuple (row_values row)) (row_time row) (row_diff row);
      push_rows s rows
  end.
(** The accesses of a call of the poller.  At the end the session is dropped, which
    flushes it. *)
Definition poll_failed (t : ExportedTable) (i : Importer) : outcome unit Importer :=
  if failed t then Panic "ImportedTableFailed" else Ok (mk_Importer NotFailed (offset i) (input_session i)).
Definition poll_frontier (t : ExportedTable) (i : Importer) : outcome unit Importer :=
  Ok (mk_Importer (HasFrontier (frontier t)) (offset i) (input_session i)).
Definition poll_data `{AtCapacity NativeRecord} (t : ExportedTable) (frontier : TotalFrontier Timestamp) (i : Importer) : outcome unit Importer :=
  ' (rows, new_offset) ← data_from_offset t (offset i);
  s ← push_rows (input_session i) rows;
  match frontier with
  | At time =>
      s ← session_advance_to s time;
      s ← session_flush s;
      Ok (mk_Importer Idle new_offset s)
  | Done => s ← session_flush s; Ok (mk_Importer Finished new_offset s)
  end.
Definition import_step `{AtCapacity NativeRecord} (t : ExportedTable) (i : Importer) : outcome unit Importer :=
  match phase i with
  | Idle => poll_failed t i
  | NotFailed => poll_frontier t i
  | HasFrontier frontier => poll_data t frontier i
  | Finished => Ok i
  end.
End exported.
Arguments ExportedTable W : clear implicits.
