(* ===== verification/ExportProps.v ===== *)
(** Importing a table gives what was exported: however the accesses of the two graphs
    interleave, the importing session never goes back in time and gets every row once,
    before the times of the row are declared complete. *)
From Stdlib Require Import ZArith Lia Bool.
From stdpp Require Import base list sorting strings.
From S2P Require Import Prelude Order Float Text Data Externals Value Timestamp Session Weights Expression Output Table TableProps.
From S2P Require Import Properties Export GroupProps PersistenceProps Instances.
Open Scope Z_scope.

(** ** Sessions that get records of later times *)

Definition record_time (r : NativeRecord) : Timestamp := snd (fst r).
Lemma session_push_at_ok `{AtCapacity NativeRecord} s r : session_ok record_time s → less_equal (time s) (record_time r) = true →
  session_ok record_time (session_push s r) ∧ session_records (session_push s r) = session_records s ++ [r] ∧
  time (session_push s r) = time s.
Proof.
  intros [He Hb Hs] Hr. pose proof (Timestamp_le_trans _ _ _ He Hr) as Hr'. unfold session_push. destruct (at_capacity s); split_and!; try done.
  - split; simpl; rewrite ?now_at_send_batch; [done| |by apply send_batch_ok]. by intros r' ->%list_elem_of_singleton.
  - unfold session_records; simpl. by rewrite sent_send_batch.
  - split; simpl; [done| |done]. intros r' [?| ->%list_elem_of_singleton]%elem_of_app; auto.
  - unfold session_records; simpl. by rewrite app_assoc.
Qed.
Definition native_row (r : DataRow) : NativeRecord := ((row_key r, VTuple (row_values r)), row_time r, row_diff r).
Lemma push_rows_ok `{AtCapacity NativeRecord} rows s : session_ok record_time s →
  (∀ r, r ∈ rows → less_equal (time s) (row_time r) = true) →
  ∃ s', push_rows s rows = Ok s' ∧ session_ok record_time s' ∧ session_records s' = session_records s ++ map native_row rows ∧ time s' = time s.
Proof.
  revert s. induction rows as [|r rows IH]; intros s Hs Hr; [exists s; by rewrite app_nil_r|].
  cbn [push_rows]. unfold update_at. rewrite (Hr r) by constructor. cbn [mbind outcome_bind].
  destruct (session_push_at_ok s (native_row r) Hs) as (Hs1 & Hr1 & Ht1); [apply Hr; constructor|].
  destruct (IH (session_push s (native_row r)) Hs1) as (s' & Hs' & Hok & Hrec & Ht).
  { intros r' Hr'. rewrite Ht1. apply Hr. by constructor. }
  exists s'. split; [exact Hs'|]. split; [done|]. rewrite Ht, Ht1, Hrec, Hr1, <- app_assoc. done.
Qed.

(** ** Runs of the two graphs *)

Section runs.
Context `{AtCapacity NativeRecord} {W : Type}.
Implicit Types (t : ExportedTable W) (i : Importer) (w : W).

(** What a dataflow does with an operator: batches at times of the present frontier,
    and frontiers that move on. *)
Definition export_allowed t (e : ExportEvent) : Prop :=
  match e with
  | InspectBatch rows => ∀ key values time diff, (key, values, time, diff) ∈ rows → is_time_pending (frontier t) time = true
  | InspectFrontier f => ∃ f', frontier_try_from f = Some f' ∧ ord_le (frontier t) f'
  | DropGuard => True
  end.
Inductive reachable (p : TableProperties) (cs : list (W → bool * W)) : ExportedTable W → W → Importer → Prop :=
| reach_start w : reachable p cs (foldl subscribe (exported_new p) cs) w importer_new
| reach_export t w i e t' w' : reachable p cs t w i → export_allowed t e → export_event t w e = Ok (t', w') → reachable p cs t' w' i
| reach_import t w i i' : reachable p cs t w i → import_step t i = Ok i' → reachable p cs t w i'.

(** A time is not after a frontier. *)
Definition time_before (time : Timestamp) (f : TotalFrontier Timestamp) : Prop := ord_le (At time) f.
Record consistent t i : Prop := {
  con_offset : (offset i ≤ length (data t))%nat;
  con_session : session_ok record_time (input_session i);
  con_records : session_records (input_session i) = map native_row (take (offset i) (data t));
  con_sent : concat (map snd (sent (handle (input_session i)))) = session_records (input_session i);
  con_epoch : now_at (handle (input_session i)) = time (input_session i);
  con_time : time_before (time (input_session i)) (frontier t);
  con_pending : ∀ r, r ∈ drop (offset i) (data t) → less_equal (time (input_session i)) (row_time r) = true;
  con_phase : match phase i with
              | HasFrontier f => time_before (time (input_session i)) f ∧ ord_le f (frontier t)
              | Finished => frontier t = Done ∧ offset i = length (data t)
              | _ => True
              end
}.
Lemma le_time (a b : Timestamp) : less_equal a b = true ↔ ord_le a b.
Proof.
  unfold less_equal, Timestamp_PartialOrder, ord_le, cmp, Timestamp_ord, cmp, Z_ord. rewrite N.leb_le, Z.compare_le_iff. lia.
Qed.
Lemma pending_before f time time' : is_time_pending f time = true → time_before time' f → less_equal time' time = true.
Proof.
  unfold is_time_pending, time_before. destruct f as [u|]; [|done]. rewrite negb_true_iff. intros Hp Hle. apply le_time.
  change (ord_le time' u) in Hle. etrans; [exact Hle|]. apply le_time. destruct (less_equal u time) eqn:E; [done|].
  assert (Hlt : is_time_done (At u) time = true).
  { apply (proj1 (total_frontier_monotone (At u) (At u) time)). change (cmp time u = Lt). destruct (cmp time u) eqn:Ec; [| done |].
    - apply cmp_eq_iff in Ec as [_ Ec]. apply (proj2 (le_time u time)) in Ec. congruence.
    - assert (Ele : ord_le u time) by (unfold ord_le; by rewrite cmp_antisym, Ec). apply (proj2 (le_time u time)) in Ele. congruence. }
  congruence.
Qed.

(** ** Every access keeps the two sides consistent *)

Lemma notify_fields t w : let t' := fst (notify t w) in
  failed t' = failed t ∧ frontier t' = frontier t ∧ data t' = data t ∧ properties t' = properties t.
Proof. unfold notify. by destruct (retain_consumers (consumers t) w). Qed.
Lemma consistent_same t t' i : frontier t' = frontier t → data t' = data t → consistent t i → consistent t' i.
Proof. intros Hf Hd Hc. destruct Hc. split; rewrite ?Hf, ?Hd; done. Qed.
Lemma push_consistent t w i rows : consistent t i → (∀ r, r ∈ rows → is_time_pending (frontier t) (row_time r) = true) →
  consistent (fst (push t rows w)) i.
Proof.
  intros Hc Hp. unfold push. set (t1 := mk_ExportedTable (failed t) (properties t) (frontier t) (data t ++ rows) (consumers t)).
  destruct (notify_fields t1 w) as (_ & Hf & Hd & _). apply (consistent_same t1 _ i Hf Hd). clear Hf Hd. subst t1.
  destruct Hc as [Ho Hs Hr Hsent He Ht Hpend Hph]. split; cbn [frontier data]; try done.
  - rewrite length_app. lia.
  - by rewrite take_app_le.
  - intros r. rewrite drop_app_le by done. rewrite elem_of_app. intros [Hin|Hin]; [by apply Hpend|].
    eapply pending_before; [by apply Hp|done].
  - destruct (phase i); try done. destruct Hph as [Hdone Hlen]. split; [done|]. destruct rows as [|r rows]; [by rewrite app_nil_r|].
    specialize (Hp r ltac:(constructor)). rewrite Hdone in Hp. done.
Qed.
Lemma export_event_consistent t w i e : consistent t i → export_allowed t e →
  ∃ t' w', export_event t w e = Ok (t', w') ∧ consistent t' i ∧ data t `prefix_of` data t' ∧ ord_le (frontier t) (frontier t').
Proof.
  intros Hc Ha. destruct e as [rows|f|]; cbn in *.
  - set (drows := map _ rows).
    assert (Hp : ∀ r, r ∈ drows → is_time_pending (frontier t) (row_time r) = true).
    { intros r ([[[key values] time] diff] & -> & Hin)%list_elem_of_fmap. by eapply Ha. }
    pose proof (push_consistent t w i drows Hc Hp) as Hc'. unfold push in *.
    destruct (notify_fields (mk_ExportedTable (failed t) (properties t) (frontier t) (data t ++ drows) (consumers t)) w) as (_ & Hf & Hd & _).
    destruct (notify _ w) as [t' w']. exists t', w'. split; [done|]. split; [done|]. cbn [fst frontier data] in *. rewrite Hf, Hd.
    split; [by exists drows|reflexivity].
  - destruct Ha as (f' & -> & Hle). unfold advance. destruct (ord_ltb (frontier t) f') eqn:Elt.
    + set (t1 := mk_ExportedTable (failed t) (properties t) f' (data t) (consumers t)).
      destruct (notify_fields t1 w) as (_ & Hf & Hd & _). destruct (notify t1 w) as [t' w']. exists t', w'. split; [done|].
      cbn [fst] in Hf, Hd. cbn [t1 frontier data] in Hf, Hd. rewrite Hf, Hd. split; [|by split]. destruct Hc as [Ho Hs Hr Hsent He Ht Hpend Hph].
      split; rewrite ?Hf, ?Hd; try done.
      * unfold time_before in *. by etrans.
      * destruct (phase i); try done; destruct Hph as [Hph1 Hph2]; (split; [|done || (by etrans)]); [done|].
        rewrite Hph1 in Hle, Elt. by destruct f'.
    + assert (E : f' = frontier t).
      { apply TotalFrontier_cmp_eq, cmp_eq_iff. split; [|done]. unfold ord_ltb in Elt. unfold ord_le. rewrite cmp_antisym. by destruct (cmp (frontier t) f'). }
      exists t, w. subst f'. unfold ord_eqb. rewrite cmp_refl. split; [done|]. split; [done|]. by split.
  - unfold mark_finished. destruct (is_done _); [exists t, w; by split_and!|]. destruct (failed t); [exists t, w; by split_and!|].
    set (t1 := mk_ExportedTable true (properties t) (frontier t) (data t) (consumers t)).
    destruct (notify_fields t1 w) as (_ & Hf & Hd & _). destruct (notify t1 w) as [t' w']. exists t', w'. split; [done|]. cbn [fst] in Hf, Hd.
    split; [by apply (consistent_same t _ i Hf Hd)|]. rewrite Hf, Hd. by split.
Qed.
Lemma import_step_consistent t i : consistent t i → failed t = false →
  ∃ i', import_step t i = Ok i' ∧ consistent t i'.
Proof.
  intros Hc Hfail. destruct Hc as [Ho Hs Hr Hsent He Ht Hpend Hph]. unfold import_step. destruct (phase i) as [| |f|] eqn:Ephase.
  - unfold poll_failed. rewrite Hfail. eexists. split; [done|]. split; try done.
  - eexists. split; [done|]. by split.
  - destruct Hph as [Hbefore Hle]. unfold poll_data, data_from_offset. rewrite (proj2 (Nat.leb_le _ _) Ho). cbn [mbind outcome_bind].
    destruct (push_rows_ok (drop (offset i) (data t)) (input_session i) Hs Hpend) as (s & -> & Hok & Hrec & Htime). cbn [mbind outcome_bind].
    assert (Hrec' : session_records s = map native_row (data t)) by (by rewrite Hrec, Hr, <- map_app, take_drop).
    destruct f as [u|].
    + destruct (session_advance_ok record_time s u Hok) as (s1 & -> & Hok1 & Hrec1 & Ht1); [rewrite Htime; by apply le_time|].
      cbn [mbind outcome_bind]. destruct (session_flush_ok record_time s1 Hok1) as (s2 & -> & Hok2 & Hrec2 & Ht2 & Hsent2 & Hnow2).
      cbn [mbind outcome_bind]. eexists. split; [done|]. split; cbn; try done; try congruence.
      * rewrite firstn_all. congruence.
      * intros r. rewrite drop_all. by intros ?%elem_of_nil.
    + destruct (session_flush_ok record_time s Hok) as (s2 & -> & Hok2 & Hrec2 & Ht2 & Hsent2 & Hnow2).
      cbn [mbind outcome_bind]. eexists. split; [done|]. split; cbn; try done; try congruence.
      * rewrite firstn_all. congruence.
      * intros r. rewrite drop_all. by intros ?%elem_of_nil.
      * split; [|done]. by destruct (frontier t).
  - exists i. split; [done|]. split; try done. by rewrite Ephase.
Qed.
Lemma reachable_consistent p cs t w i : reachable p cs t w i → consistent t i.
Proof.
  induction 1 as [w|t w i e t' w' _ IH Ha He|t w i i' _ IH Hi].
  - assert (Hf : ∀ t0, frontier (foldl subscribe t0 cs) = frontier t0 ∧ data (foldl subscribe t0 cs) = data t0).
    { induction cs as [|c cs IH]; intros t0; [done|]. cbn [foldl]. by destruct (IH (subscribe t0 c)) as [-> ->]. }
    destruct (Hf (exported_new p)) as [Hf1 Hf2]. split; rewrite ?Hf1, ?Hf2; try done.
    + apply session_new_ok.
    + by intros r ?%elem_of_nil.
  - destruct (export_event_consistent t w i e IH Ha) as (t1 & w1 & E & Hc & _). rewrite He in E. by injection E as -> ->.
  - destruct (failed t) eqn:Hfail.
    + pose proof (consistent_same t (mk_ExportedTable false (properties t) (frontier t) (data t) (consumers t)) i eq_refl eq_refl IH) as Hc.
      destruct (import_step_consistent _ i Hc eq_refl) as (i1 & E & Hc1).
      assert (i1 = i') as <-; [|eapply consistent_same; [| |exact Hc1]; done].
      unfold import_step, poll_failed, poll_frontier, poll_data, data_from_offset in *. cbn [failed frontier data] in E. rewrite Hfail in Hi. destruct (phase i); [done|congruence..].
    + destruct (import_step_consistent t i IH Hfail) as (i1 & E & Hc). congruence.
Qed.

(** ** Snapshots *)

Definition row_record (r : DataRow) : Key * list Value * Z := ((row_key r, row_values r), row_diff r).
Definition done_rows (f : TotalFrontier Timestamp) (rows : list DataRow) : Coll (Key * list Value) :=
  map row_record (List.filter (λ row, is_time_done f (row_time row)) rows).
Definition single_record (e : Key * list Value * Z) : outcome unit (Key * list Value) :=
  if snd e =? 1 then Ok (fst e) else Panic "assertion `left == right` failed: row had a final count different from 1".
Lemma sort_by_rows rows : map row_record (sort_by row_order rows) = sort_by (λ x y : Key * list Value * Z, cmp (fst x) (fst y)) (map row_record rows).
Proof.
  unfold sort_by. induction rows as [|r rows IH]; [done|]. cbn [foldr map]. rewrite <- IH. clear IH.
  induction (foldr (sort_insert row_order) [] rows) as [|y l IH]; [done|]. cbn [sort_insert map].
  replace (cmp (fst (row_record r)) (fst (row_record y))) with (row_order r y) by reflexivity.
  destruct (row_order r y); [done..|]. cbn [map]. by rewrite IH.
Qed.
Lemma same_row (a b : DataRow) :
  bool_decide (row_key b = row_key a) && ord_eqb (row_values b) (row_values a) = ord_eqb (fst (row_record a)) (fst (row_record b)).
Proof.
  unfold ord_eqb, row_record. cbn [fst]. rewrite pair_cmp. cbn [fst snd]. rewrite (cmp_antisym (row_values a) (row_values b)).
  case_bool_decide as E.
  - rewrite E, cmp_refl. cbn. by destruct (cmp (row_values a) (row_values b)).
  - destruct (cmp (row_key a) (row_key b)) eqn:Ek; try done. apply key_eq_iff in Ek. congruence.
Qed.
Lemma dedup_by_merge rows old : List.filter (λ e, negb (snd e =? 0)) (map row_record (dedup_by old rows)) =
  merge_runs (row_record old) (map row_record rows).
Proof.
  revert old. induction rows as [|new rows IH]; intros old; cbn [dedup_by map merge_runs].
  - cbn. by destruct (row_diff old =? 0).
  - rewrite same_row. destruct (ord_eqb _ _); [by rewrite IH|]. cbn [map List.filter]. rewrite IH. cbn. by destruct (row_diff old =? 0).
Qed.
Lemma try_collect_cons {E A B} (f : A → outcome E B) x l : try_collect f (x :: l) = (y ← f x; ys ← try_collect f l; Ok (y :: ys)).
Proof. cbn. destruct (f x); [|done..]. cbn. by destruct (try_collect f l). Qed.
Lemma snapshot_rows rows : (l ← try_collect snapshot_row rows; Ok (concat l)) =
  try_collect single_record (List.filter (λ e, negb (snd e =? 0)) (map row_record rows)).
Proof.
  induction rows as [|r rows IH]; [done|]. rewrite try_collect_cons. cbn [map List.filter].
  set (rest := try_collect snapshot_row rows) in *. replace (snd (row_record r)) with (row_diff r) by done.
  unfold snapshot_row. destruct (row_diff r =? 0) eqn:E; cbn [negb].
  - cbn [mbind outcome_bind]. rewrite <- IH. by destruct rest.
  - rewrite try_collect_cons, <- IH. unfold single_record. cbn [row_record fst snd]. by destruct (row_diff r =? 1), rest.
Qed.
(** A snapshot has the rows of the consolidated table, if each occurs once. *)
Lemma snapshot_at_consolidated t f : snapshot_at t f = try_collect single_record (consolidate (done_rows f (data t))).
Proof.
  unfold snapshot_at, data_from_offset. cbn [Nat.leb mbind outcome_bind drop]. rewrite snapshot_rows. unfold consolidate, done_rows.
  rewrite <- sort_by_rows. destruct (sort_by row_order _) as [|r rows]; [done|]. cbn [map]. by rewrite dedup_by_merge.
Qed.

(** ** What the importing graph has *)

Fixpoint import_steps (n : nat) t i : outcome unit Importer :=
  match n with O => Ok i | S n => i ← import_step t i; import_steps n t i end.
Definition imported i : list NativeRecord := concat (map snd (sent (handle (input_session i)))).
(** The imported rows, as records of the snapshot. *)
Definition imported_done (f : TotalFrontier Timestamp) i : Coll (Key * Value) :=
  map (λ r, (fst (fst r), snd r)) (List.filter (λ r, is_time_done f (record_time r)) (imported i)).
Lemma filter_rejects_all {A} (f : A → bool) l : (∀ x, x ∈ l → f x = false) → List.filter f l = [].
Proof.
  induction l as [|x l IH]; intros Hl; [done|]. cbn. rewrite (Hl x) by constructor. apply IH. intros y Hy. apply Hl. by constructor.
Qed.
Lemma late_rows_pending (time time' : Timestamp) : less_equal time time' = true → is_time_done (At time) time' = false.
Proof.
  intros Hle. unfold is_time_done, less_than. destruct (less_equal time' time) eqn:E; [|done]. cbn.
  rewrite (Timestamp_le_antisym _ _ E Hle). by rewrite bool_decide_true.
Qed.
Lemma imported_rows t i : consistent t i → imported i = map native_row (take (offset i) (data t)).
Proof. intros Hc. unfold imported. by rewrite (con_sent _ _ Hc), (con_records _ _ Hc). Qed.
Lemma imported_done_rows t i : consistent t i → let epoch := now_at (handle (input_session i)) in
  imported_done (At epoch) i = map (λ e, ((fst (fst e), VTuple (snd (fst e))), snd e)) (done_rows (At epoch) (data t)).
Proof.
  intros Hc. cbv zeta. unfold imported_done, done_rows. rewrite (imported_rows t i Hc).
  rewrite <- (take_drop (offset i) (data t)) at 2. rewrite List.filter_app.
  rewrite (filter_rejects_all _ (drop (offset i) (data t))), app_nil_r.
  - rewrite map_map. induction (take (offset i) (data t)) as [|r rows IH]; [done|]. cbn [map List.filter].
    replace (record_time (native_row r)) with (row_time r) by done. destruct (is_time_done _ _); [|exact IH]. cbn [map]. by rewrite IH.
  - intros r Hr. rewrite (con_epoch _ _ Hc). by apply late_rows_pending, (con_pending _ _ Hc).
Qed.
(** When the table is complete, at most four accesses finish the import. *)
Lemma import_finishes t i : consistent t i → frontier t = Done → failed t = false →
  ∃ n i', (n ≤ 4)%nat ∧ import_steps n t i = Ok i' ∧ phase i' = Finished ∧ consistent t i'.
Proof.
  intros Hc Hdone Hfail.
  assert (Hstep : ∀ i, consistent t i → ∃ i', import_step t i = Ok i' ∧ consistent t i') by (intros i0 Hc0; by apply import_step_consistent).
  assert (Hlast : ∀ i, consistent t i → phase i = HasFrontier Done → ∃ i', import_step t i = Ok i' ∧ phase i' = Finished ∧ consistent t i').
  { intros i0 Hc0 Hp. destruct (Hstep i0 Hc0) as (i1 & E & Hc1). exists i1. split; [done|]. split; [|done]. unfold import_step in E. rewrite Hp in E.
    unfold poll_data in E. destruct (data_from_offset t (offset i0)) as [[rows n]|e|e]; [|done..]. cbn [mbind outcome_bind] in E.
    destruct (push_rows _ _) as [s|e|e]; [|done..]. cbn [mbind outcome_bind] in E. destruct (session_flush s) as [s'|e|e]; [|done..].
    cbn in E. by injection E as <-. }
  assert (Hread : ∀ i, consistent t i → phase i = NotFailed → ∃ i', import_steps 2 t i = Ok i' ∧ phase i' = Finished ∧ consistent t i').
  { intros i0 Hc0 Hp. destruct (Hstep i0 Hc0) as (i1 & E & Hc1). cbn [import_steps]. rewrite E. cbn [mbind outcome_bind].
    unfold import_step in E. rewrite Hp in E. injection E as <-. rewrite Hdone in *.
    destruct (Hlast _ Hc1 eq_refl) as (i2 & E2 & ? & ?). rewrite E2. by exists i2. }
  assert (Hidle : ∀ i, consistent t i → phase i = Idle → ∃ i', import_steps 3 t i = Ok i' ∧ phase i' = Finished ∧ consistent t i').
  { intros i0 Hc0 Hp. destruct (Hstep i0 Hc0) as (i1 & E & Hc1). cbn [import_steps]. rewrite E. cbn [mbind outcome_bind].
    unfold import_step, poll_failed in E. rewrite Hp, Hfail in E. injection E as <-. by apply (Hread _ Hc1). }
  destruct (phase i) as [| |[u|]|] eqn:Hp.
  - destruct (Hidle i Hc Hp) as (i' & ?). exists 3%nat, i'. split; [lia|done].
  - destruct (Hread i Hc Hp) as (i' & ?). exists 2%nat, i'. split; [lia|done].
  - destruct (Hstep i Hc) as (i1 & E & Hc1). destruct (Hidle i1 Hc1) as (i' & E' & Hi').
    { unfold import_step in E. rewrite Hp in E. unfold poll_data in E. destruct (data_from_offset t (offset i)) as [[rows n]|e|e]; [|done..].
      cbn [mbind outcome_bind] in E. destruct (push_rows _ _) as [s|e|e]; [|done..]. cbn [mbind outcome_bind] in E.
      destruct (session_advance_to s u) as [s1|e|e]; [|done..]. cbn [mbind outcome_bind] in E. destruct (session_flush s1) as [s2|e|e]; [|done..].
      cbn in E. by injection E as <-. }
    exists 4%nat, i'. split; [lia|]. split; [|done]. cbn [import_steps] in *. by rewrite E.
  - destruct (Hlast i Hc Hp) as (i' & E & ?). exists 1%nat, i'. split; [lia|]. cbn [import_steps]. by rewrite E.
  - exists 0%nat, i. split; [lia|done].
Qed.

(** C35: exporting a table to another graph.  Whatever the consumers are and however the
    accesses of the two graphs to the exported table interleave: neither graph panics,
    unless the exporting one has failed; the importing graph has got the exported rows
    in order, each once, at most the rows so far, and all rows of the times that it was
    told to be complete, so that a snapshot at that time is the snapshot of what was
    imported; when the exporting graph is done, four accesses later the importing graph
    has everything. *)
Theorem import_follows_export p cs t w i : reachable p cs t w i →
  let epoch := At (now_at (handle (input_session i))) in
  (∀ e, export_allowed t e → ∃ t' w', export_event t w e = Ok (t', w')) ∧
  (failed t = false → ∃ i', import_step t i = Ok i') ∧
  imported i = map native_row (take (offset i) (data t)) ∧
  imported_done epoch i = map (λ e, ((fst (fst e), VTuple (snd (fst e))), snd e)) (done_rows epoch (data t)) ∧
  snapshot_at t epoch = try_collect single_record (consolidate (done_rows epoch (data t))) ∧
  (frontier t = Done → failed t = false → ∃ n i', (n ≤ 4)%nat ∧ import_steps n t i = Ok i' ∧ phase i' = Finished ∧
    imported i' = map native_row (data t)).
Proof.
  intros Hr. pose proof (reachable_consistent p cs t w i Hr) as Hc. cbv zeta. split; [|split; [|split; [|split; [|split]]]].
  - intros e He. destruct (export_event_consistent t w i e Hc He) as (t' & w' & E & _). by exists t', w'.
  - intros Hf. destruct (import_step_consistent t i Hc Hf) as (i' & E & _). by exists i'.
  - by apply imported_rows.
  - by apply imported_done_rows.
  - apply snapshot_at_consolidated.
  - intros Hdone Hf. destruct (import_finishes t i Hc Hdone Hf) as (n & i' & Hn & E & Hp & Hc'). exists n, i'. split; [done|]. split; [done|].
    split; [done|]. rewrite (imported_rows t i' Hc'). pose proof (con_phase _ _ Hc') as Hph. rewrite Hp in Hph. destruct Hph as [_ ->].
    by rewrite firstn_all.
Qed.
End runs.

(** ** Two rows at two times *)

#[local] Instance never_full : AtCapacity NativeRecord := λ _, false.
Definition one_row (n t : Z) (diff : Z) : Key * list Value * Timestamp * Z := (mk_Key n, [VInt (n * 10)], mk_Timestamp (Z.to_N t), diff).
Definition wake (w : nat) : bool * nat := (true, S w).
Definition exported (es : list ExportEvent) : outcome unit (ExportedTable nat * nat) :=
  foldl (λ tw e, ' (t, w) ← tw; export_event t w e) (Ok (foldl subscribe (exported_new PropertiesEmpty) [wake], 0%nat)) es.
(** The importer reads the frontier 2, then a batch of time 2 comes, then it reads the rows. *)
Definition before : list ExportEvent := [InspectBatch [one_row 1 0 1; one_row 2 0 1]; InspectFrontier [mk_Timestamp 2]].
Definition after : list ExportEvent := [InspectBatch [one_row 2 2 (-1); one_row 3 2 1]].
Definition table_of (r : outcome unit (ExportedTable nat * nat)) : ExportedTable nat * nat :=
  match r with Ok tw => tw | _ => (exported_new PropertiesEmpty, 0%nat) end.
Definition importer_of (r : outcome unit Importer) : Importer := match r with Ok i => i | _ => importer_new end.
Definition i2 : Importer := importer_of (import_steps 2 (fst (table_of (exported before))) importer_new).
Definition i3 : Importer := importer_of (import_steps 1 (fst (table_of (exported (before ++ after)))) i2).
Definition t3 : ExportedTable nat := fst (table_of (exported (before ++ after))).
Definition t0 : ExportedTable nat := foldl subscribe (exported_new PropertiesEmpty) [wake].
Definition first_batch : ExportEvent := InspectBatch [one_row 1 0 1; one_row 2 0 1].
Definition second_batch : ExportEvent := InspectBatch [one_row 2 2 (-1); one_row 3 2 1].
Lemma exported_reachable : reachable PropertiesEmpty [wake] t3 (snd (table_of (exported (before ++ after)))) i3.
Proof.
  assert (Hallowed : ∀ (t : ExportedTable nat) rows, (∀ r, r ∈ rows → is_time_pending (frontier t) (snd (fst r)) = true) → export_allowed t (InspectBatch rows)).
  { intros t rows Hrows key values time diff Hin. apply (Hrows _ Hin). }
  pose proof (reach_start (W := nat) PropertiesEmpty [wake] 0%nat) as R0. fold t0 in R0.
  assert (A1 : export_allowed t0 first_batch) by (apply Hallowed; intros r Hr; repeat (apply elem_of_cons in Hr as [->|Hr]; [reflexivity|]); by apply elem_of_nil in Hr).
  destruct (export_event t0 0%nat first_batch) as [[t1 w1]|e|e] eqn:E1; [|discriminate E1..].
  pose proof (reach_export _ _ _ _ _ _ _ _ R0 A1 E1) as R1. vm_compute in E1. injection E1 as <- <-.
  unshelve epose proof (reach_export _ _ _ _ _ (InspectFrontier [mk_Timestamp 2]) _ _ R1 _ eq_refl) as R2.
  { exists (At (mk_Timestamp 2)). split; [done|]. by vm_compute. }
  pose proof (reach_import _ _ _ _ _ _ R2 eq_refl) as R3. pose proof (reach_import _ _ _ _ _ _ R3 eq_refl) as R4.
  unshelve epose proof (reach_export _ _ _ _ _ second_batch _ _ R4 _ eq_refl) as R5.
  { apply Hallowed. intros r Hr. repeat (apply elem_of_cons in Hr as [->|Hr]; [reflexivity|]). by apply elem_of_nil in Hr. }
  exact (reach_import _ _ _ _ _ _ R5 eq_refl).
Qed.
Lemma import_follows_export_witness :
  snapshot_at t3 (At (mk_Timestamp 2)) = try_collect single_record (consolidate (done_rows (At (mk_Timestamp 2)) (data t3))) ∧
  imported i3 = map native_row (take 4 (data t3)).
Proof.
  destruct (import_follows_export PropertiesEmpty [wake] t3 _ i3 exported_reachable) as (_ & _ & Hi & _ & Hs & _).
  split; [exact Hs|exact Hi].
Defined.
Example snapshots : snapshot_at t3 (At (mk_Timestamp 2)) = Ok [(mk_Key 1, [VInt 10]); (mk_Key 2, [VInt 20])] ∧
  snapshot_at t3 Done = Ok [(mk_Key 1, [VInt 10]); (mk_Key 3, [VInt 30])] ∧ length (imported i3) = 4%nat.
Proof. split_and!; vm_compute; reflexivity. Qed.
