(* ===== verification/Graph.v ===== *)
(** The state of a dataflow graph (src/engine/dataflow.rs, [DataflowGraphInner]): the
    arenas of its universes, columns and tables, the operations that extend them, and
    iteration in a nested scope.

    The data behind a handle is the collection that its operators compute, or the panic
    of one of them: building a graph fails with the errors of the methods, running it
    panics.  Collections are those of all workers.  The arenas are those of the crate
    id_arena, given by a class with its laws. *)
From Stdlib Require Import ZArith Lia Bool.
From stdpp Require Import base list strings gmap.
From S2P Require Import Prelude Order Float Text Data Externals Value Weights Expression Output Table.
From S2P Require Import Effects Properties.
Open Scope Z_scope.

(** ** Handles and arenas *)

(** [define_handle!]: the handles of universes, columns and tables have this form. *)
Record ArenaHandle := mk_ArenaHandle { arena_id : Z; index : nat }.
#[export] Instance ArenaHandle_eq_dec : EqDecision ArenaHandle.
Proof. solve_decision. Defined.
#[export] Instance ArenaHandle_countable : Countable ArenaHandle.
Proof. by apply (inj_countable' (λ h, (arena_id h, index h)) (λ p, mk_ArenaHandle (fst p) (snd p))); intros []. Qed.
Definition UniverseHandle : Type := ArenaHandle.
Definition ColumnHandle : Type := ArenaHandle.
Definition TableHandle : Type := ArenaHandle.
Definition LegacyTable : Type := UniverseHandle * list ColumnHandle.

(** [id_arena::Arena]. *)
Class Arenas := {
  Arena : Type → Type;
  arena_new : ∀ {T}, Z → Arena T;
  arena_alloc : ∀ {T}, Arena T → T → ArenaHandle * Arena T;
  arena_get : ∀ {T}, Arena T → ArenaHandle → option T
}.
(** A new arena, of a given identity, is empty.  An allocation gives a handle that was not valid, and changes nothing else. *)
Class ArenaLaws `{Arenas} : Prop := {
  arena_new_empty : ∀ T id h, arena_get (arena_new (T := T) id) h = None;
  arena_alloc_same : ∀ T (a : Arena T) x, arena_get (snd (arena_alloc a x)) (fst (arena_alloc a x)) = Some x;
  arena_alloc_other : ∀ T (a : Arena T) x h, h ≠ fst (arena_alloc a x) → arena_get (snd (arena_alloc a x)) h = arena_get a h;
  arena_alloc_fresh : ∀ T (a : Arena T) x, arena_get a (fst (arena_alloc a x)) = None
}.

(** ** Data of universes, columns and tables *)

Definition Flow (A : Type) : Type := outcome unit (Coll A).
Definition flow_map {A B} (f : A → B) (c : Flow A) : Flow B := c ← c; Ok (map (λ e, (f (fst e), snd e)) c).
(** An arrangement consolidates its collection. *)
Definition flow_arrange {A} `{Ord A} (c : Flow A) : Flow A := c ← c; Ok (consolidate c).

Inductive Values :=
| IntValues (int_collection : Flow (Key * Z))
| PointerValues (pointer_collection : Flow (Key * Key))
| GenericValues (generic_collection : Flow (Key * Value)).
Definition as_generic (self : Values) : Flow (Key * Value) :=
  match self with
  | IntValues c => flow_map (λ e, (fst e, VInt (snd e))) c
  | PointerValues c => flow_map (λ e, (fst e, VPointer (snd e))) c
  | GenericValues c => c
  end.
Inductive UniverseData :=
| UniverseFromCollection (collection : Flow Key)
| UniverseFromArranged (arranged : Flow Key).
Definition universe_keys (self : UniverseData) : Flow Key :=
  match self with UniverseFromCollection c => c | UniverseFromArranged a => a end.
Definition universe_keys_arranged (self : UniverseData) : Flow Key :=
  match self with UniverseFromCollection c => flow_arrange c | UniverseFromArranged a => a end.
Definition universe_keys_consolidated (self : UniverseData) : Flow Key :=
  match self with UniverseFromCollection _ => universe_keys_arranged self | UniverseFromArranged _ => universe_keys self end.

Inductive ColumnData :=
| DataFromCollection (collection : Values)
| DataFromArranged (arranged : Flow (Key * Value)).
Definition data_collection (self : ColumnData) : Values :=
  match self with DataFromCollection c => c | DataFromArranged a => GenericValues a end.
Definition data_values (self : ColumnData) : Flow (Key * Value) := as_generic (data_collection self).
Definition data_arranged (self : ColumnData) : Flow (Key * Value) :=
  match self with DataFromCollection c => flow_arrange (as_generic c) | DataFromArranged a => a end.
Definition data_keys (self : ColumnData) : Flow Key := flow_map fst (data_values self).
Definition data_keys_arranged (self : ColumnData) : Flow Key := flow_arrange (data_keys self).
Definition data_consolidated (self : ColumnData) : Flow (Key * Value) :=
  match self with DataFromCollection _ => data_arranged self | DataFromArranged _ => data_values self end.

Record GraphColumn := mk_GraphColumn { column_universe : UniverseHandle; column_data : ColumnData; column_properties : TableProperties }.
Definition column_from_collection (universe : UniverseHandle) (values : Values) : GraphColumn :=
  mk_GraphColumn universe (DataFromCollection values) PropertiesEmpty.
Definition column_from_arranged (universe : UniverseHandle) (values : Flow (Key * Value)) : GraphColumn :=
  mk_GraphColumn universe (DataFromArranged values) PropertiesEmpty.
Definition column_with_properties (self : GraphColumn) (properties : TableProperties) : GraphColumn :=
  mk_GraphColumn (column_universe self) (column_data self) properties.
Definition with_column_properties (self : GraphColumn) (properties : ColumnProperties) : GraphColumn :=
  column_with_properties self (PropertiesColumn properties).
Record GraphTable := mk_GraphTable { table_data : ColumnData; table_properties : TableProperties }.
Definition table_from_collection (values : Values) : GraphTable := mk_GraphTable (DataFromCollection values) PropertiesEmpty.
Definition table_with_properties (self : GraphTable) (properties : TableProperties) : GraphTable :=
  mk_GraphTable (table_data self) properties.

(** ** The graph *)

Record OperatorProperties := mk_OperatorProperties { operator_id : nat; depends_on_error_log : bool }.
Inductive EngineError :=
| InvalidUniverseHandle
| InvalidColumnHandle
| InvalidTableHandle
| UniverseMismatch
| IndexOutOfBounds
| LengthMismatch
| IterationLimitTooSmall
| OperatorIdNotSet
| OperatorIdTooLarge
| DataErrorIn (e : DataError)
| PathErrorIn (e : GraphError).

Section graph.
Context `{Profile, XxHash, Python, SerdeJson, Chrono, NumInteger, Ndarray, RustText, ErrorMode, Arenas}.

Record Graph := mk_Graph {
  universes : Arena UniverseData;
  columns : Arena GraphColumn;
  tables : Arena GraphTable;
  worker_count : nat;
  ignore_asserts : bool;
  current_operator_properties : option OperatorProperties
}.
Definition G (A : Type) : Type := eff Graph EngineError A.

Definition get_universe (h : UniverseHandle) : G UniverseData := λ g, (ok_or (arena_get (universes g) h) InvalidUniverseHandle, g).
Definition get_column (h : ColumnHandle) : G GraphColumn := λ g, (ok_or (arena_get (columns g) h) InvalidColumnHandle, g).
Definition get_table (h : TableHandle) : G GraphTable := λ g, (ok_or (arena_get (tables g) h) InvalidTableHandle, g).
Definition alloc_universe (u : UniverseData) : G UniverseHandle := λ g,
  let '(h, us) := arena_alloc (universes g) u in
  (Ok h, mk_Graph us (columns g) (tables g) (worker_count g) (ignore_asserts g) (current_operator_properties g)).
Definition alloc_column (c : GraphColumn) : G ColumnHandle := λ g,
  let '(h, cs) := arena_alloc (columns g) c in
  (Ok h, mk_Graph (universes g) cs (tables g) (worker_count g) (ignore_asserts g) (current_operator_properties g)).
Definition alloc_table (t : GraphTable) : G TableHandle := λ g,
  let '(h, ts) := arena_alloc (tables g) t in
  (Ok h, mk_Graph (universes g) (columns g) ts (worker_count g) (ignore_asserts g) (current_operator_properties g)).
Fixpoint collect {A B} (f : A → G B) (l : list A) : G (list B) :=
  match l with [] => mret [] | x :: l => y ← f x; ys ← collect f l; mret (y :: ys) end.

Definition set_operator_properties (operator_properties : OperatorProperties) : G unit :=
  modify (λ g, mk_Graph (universes g) (columns g) (tables g) (worker_count g) (ignore_asserts g) (Some operator_properties)).
(** [create_error_logger]: whether there is one; what it does with the messages is not
    modelled. *)
Definition create_error_logger : G unit := λ g,
  if terminate_on_error then (Ok tt, g)
  else match current_operator_properties g with
       | Some operator_properties =>
           if Z.of_nat (operator_id operator_properties) <? 2 ^ 63 then (Ok tt, g) else (Err OperatorIdTooLarge, g)
       | None => (Err OperatorIdNotSet, g)
       end.
Definition assert_keys (input_keys : Flow Key) (output_collection : Flow (Key * Value)) : Flow (Key * Value) :=
  ks ← input_keys; out ← output_collection; _ ← assert_input_keys_match_output_keys ks out; Ok out.
(** The assertion of a static or restricted column, before its result is used. *)
Definition unless_ignored (input_keys : Flow Key) (output_collection : Flow (Key * Value)) : G (Flow (Key * Value)) :=
  ignored ← gets ignore_asserts;
  if (ignored : bool) then mret output_collection
  else _ ← create_error_logger; mret (assert_keys input_keys output_collection).

(** ** Static data: every worker keeps its share *)

Definition worker_share {A} (key_of : A → Key) (worker_count worker_index : nat) (data : list A) : Coll A :=
  map (λ d, (d, 1)) (List.filter (λ d, shard (key_of d) mod Z.of_nat worker_count =? Z.of_nat worker_index) data).
Definition all_shares {A} (key_of : A → Key) (worker_count : nat) (data : list A) : Coll A :=
  flat_map (λ worker_index, worker_share key_of worker_count worker_index data) (seq 0 worker_count).
Definition static_universe (keys : list Key) : G UniverseHandle :=
  worker_count ← gets worker_count;
  alloc_universe (UniverseFromCollection (Ok (all_shares id worker_count keys))).
Definition empty_universe : G UniverseHandle := static_universe [].
Definition static_column (universe_handle : UniverseHandle) (values : list (Key * Value)) (column_properties : ColumnProperties) : G ColumnHandle :=
  worker_count ← gets worker_count;
  universe ← get_universe universe_handle;
  values ← unless_ignored (universe_keys universe) (Ok (all_shares fst worker_count values));
  alloc_column (with_column_properties (column_from_collection universe_handle (GenericValues values)) column_properties).
Definition empty_column (universe_handle : UniverseHandle) (column_properties : ColumnProperties) : G ColumnHandle :=
  static_column universe_handle [] column_properties.

(** ** Tuples of columns *)

Inductive TupleCollection :=
| TuplesZero (c : Flow Key)
| TuplesOne (c : Flow (Key * Value))
| TuplesTwo (c : Flow (Key * (Value * Value)))
| TuplesMore (c : Flow (Key * list Value)).
(** The rows with their keys and the slices of their values. *)
Definition tuple_rows (self : TupleCollection) : Flow (Key * list Value) :=
  match self with
  | TuplesZero c => flow_map (λ k, (k, [])) c
  | TuplesOne c => flow_map (λ e, (fst e, [snd e])) c
  | TuplesTwo c => flow_map (λ e, (fst e, [fst (snd e); snd (snd e)])) c
  | TuplesMore c => c
  end.
Definition flow_join {A B C} (left : Flow (Key * A)) (right : Flow (Key * B)) (result : Key → A → B → C) : Flow (Key * C) :=
  l ← left; r ← right; Ok (join_core l r (λ k a b, [(k, result k a b)])).
Definition column_values (c : GraphColumn) : Flow (Key * Value) := data_values (column_data c).
Definition column_arranged (c : GraphColumn) : Flow (Key * Value) := data_arranged (column_data c).
Definition join_more (more : Flow (Key * list Value)) (columns : list GraphColumn) : Flow (Key * list Value) :=
  foldl (λ more column, flow_join (flow_arrange more) (column_arranged column) (λ _ values value, values ++ [value])) more columns.
Definition tuples (universe_handle : UniverseHandle) (column_handles : list ColumnHandle) : G TupleCollection :=
  universe ← get_universe universe_handle;
  columns ← collect get_column column_handles;
  mret (match columns with
        | [] => TuplesZero (universe_keys universe)
        | [first] => TuplesOne (column_values first)
        | first :: second :: rest =>
            let two := flow_join (column_arranged first) (column_arranged second) (λ _ a b, (a, b)) in
            match rest with
            | [] => TuplesTwo two
            | third :: rest =>
                let more := flow_join (flow_arrange two) (column_arranged third) (λ _ ab c, [fst ab; snd ab; c]) in
                TuplesMore (join_more more rest)
            end
        end).

(** ** Columns and tables *)

Definition expression_rows (rows : TupleCollection) (expression : Expression) : Flow (Key * Value) :=
  rows ← tuple_rows rows;
  map_coll (λ row, v ← unwrap_with_reporter (eval (snd row) expression); Ok (fst row, v)) rows.
Definition expression_column (expression : Expression) (universe_handle : UniverseHandle) (column_handles : list ColumnHandle)
    (column_properties : ColumnProperties) : G ColumnHandle :=
  match column_handles with
  | [] =>
      universe ← get_universe universe_handle;
      value ← lift (map_err DataErrorIn (eval [] expression));
      alloc_column (with_column_properties
        (column_from_collection universe_handle (GenericValues (flow_map (λ k, (k, value)) (universe_keys universe)))) column_properties)
  | _ =>
      match expression with
      | EAny (Any_Argument index) =>
          column_handle ← lift (ok_or (column_handles !! index) IndexOutOfBounds);
          column ← get_column column_handle;
          if decide (column_universe column = universe_handle) then mret column_handle else lift (Err UniverseMismatch)
      | _ =>
          rows ← tuples universe_handle column_handles;
          alloc_column (with_column_properties
            (column_from_collection universe_handle (GenericValues (expression_rows rows expression))) column_properties)
      end
  end.
Definition columns_to_table_properties (columns : list ColumnHandle) : G TableProperties :=
  properties ← collect (λ h, column ← get_column h; mret (column_properties column)) columns;
  mret (PropertiesTable properties).
Definition columns_to_table (universe_handle : UniverseHandle) (column_handles : list ColumnHandle) : G TableHandle :=
  rows ← tuples universe_handle column_handles;
  properties ← columns_to_table_properties column_handles;
  alloc_table (table_with_properties
    (table_from_collection (GenericValues (flow_map (λ e, (fst e, VTuple (snd e))) (tuple_rows rows)))) properties).
Definition table_column_handle (universe_handle : UniverseHandle) (table_handle : TableHandle) (column_path : ColumnPath) : G ColumnHandle :=
  table ← get_table table_handle;
  properties ← lift (map_err PathErrorIn (extract_properties column_path (table_properties table)));
  alloc_column (column_with_properties
    (column_from_collection universe_handle (GenericValues (t ← data_values (table_data table); table_column t column_path))) properties).
Definition table_universe (table_handle : TableHandle) : G UniverseHandle :=
  table ← get_table table_handle;
  alloc_universe (UniverseFromCollection (data_keys (table_data table))).
Definition get_table_properties (table_handle : TableHandle) (path : ColumnPath) : G TableProperties :=
  table ← get_table table_handle;
  lift (map_err PathErrorIn (extract_properties path (table_properties table))).
Definition flatten_table_storage_handle (table_handle : TableHandle) (column_paths : list ColumnPath) : G TableHandle :=
  table ← get_table table_handle;
  let properties := try_collect (λ path, extract_properties path (table_properties table)) column_paths in
  properties ← lift (map_err PathErrorIn properties);
  alloc_table (table_with_properties
    (table_from_collection (GenericValues (t ← data_values (table_data table); flatten_table_storage t column_paths)))
    (PropertiesTable properties)).
Definition restrict_column (universe_handle : UniverseHandle) (column_handle : ColumnHandle) : G ColumnHandle :=
  universe ← get_universe universe_handle;
  column ← get_column column_handle;
  if decide (column_universe column = universe_handle) then mret column_handle
  else
    let new_values := flow_join (flow_map (λ k, (k, tt)) (universe_keys_arranged universe)) (column_arranged column) (λ _ _ v, v) in
    new_values ← unless_ignored (universe_keys universe) new_values;
    alloc_column (column_from_collection universe_handle (GenericValues new_values)).

(** ** Iteration *)

(** The contents of the variables of a loop, in the order in which they are created. *)
Record Vars := mk_Vars { var_keys : list (Flow Key); var_values : list (Flow (Key * Value)) }.
(** [BeforeIterate]: the inner graph, the caches of imported handles; the contents of
    the variables still to be created, none before the first round, and of those that
    were created. *)
Record Before := mk_Before {
  inner : Graph;
  universe_cache : gmap UniverseHandle UniverseHandle;
  column_cache : gmap ColumnHandle ColumnHandle;
  given : Vars;
  used : Vars
}.
Definition B (A : Type) : Type := eff Before EngineError A.
Definition on_inner {A} (m : G A) : B A :=
  zoom inner (λ g s, mk_Before g (universe_cache s) (column_cache s) (given s) (used s)) m.
(** [Variable::new_from]: the source in the first round, then what was set. *)
Definition keys_variable (source : Flow Key) : B (Flow Key) := λ s,
  let '(c, rest) := match var_keys (given s) with [] => (source, []) | c :: rest => (c, rest) end in
  (Ok c, mk_Before (inner s) (universe_cache s) (column_cache s) (mk_Vars rest (var_values (given s)))
           (mk_Vars (var_keys (used s) ++ [c]) (var_values (used s)))).
Definition values_variable (source : Flow (Key * Value)) : B (Flow (Key * Value)) := λ s,
  let '(c, rest) := match var_values (given s) with [] => (source, []) | c :: rest => (c, rest) end in
  (Ok c, mk_Before (inner s) (universe_cache s) (column_cache s) (mk_Vars (var_keys (given s)) rest)
           (mk_Vars (var_keys (used s)) (var_values (used s) ++ [c]))).

(** A table of the inner graph: its universe, with the outer one if it was imported. *)
Record InnerLegacyTable := mk_InnerLegacyTable {
  inner_universe : UniverseHandle; imported_from : option UniverseHandle; inner_columns : list ColumnHandle
}.
(** The kinds of tables: what of them is iterated. *)
Inductive TableKind := IteratedLegacyTable | IteratedWithUniverseLegacyTable | ExtraLegacyTable.
Fixpoint collect_before {A C} (f : A → B C) (l : list A) : B (list C) :=
  match l with [] => mret [] | x :: l => y ← f x; ys ← collect_before f l; mret (y :: ys) end.

Section iterate.
Context (outer : Graph).

Definition import_universe (outer_handle : UniverseHandle) : B UniverseHandle :=
  cache ← gets universe_cache;
  match (cache : gmap _ _) !! outer_handle with
  | Some inner_handle => mret inner_handle
  | None =>
      universe ← lift (ok_or (arena_get (universes outer) outer_handle) InvalidUniverseHandle);
      inner_handle ← on_inner (alloc_universe (UniverseFromCollection (universe_keys universe)));
      _ ← modify (λ s, mk_Before (inner s) (<[outer_handle := inner_handle]> (universe_cache s)) (column_cache s) (given s) (used s));
      mret inner_handle
  end.
Definition iterate_universe (outer_handle : UniverseHandle) : B UniverseHandle :=
  universe ← lift (ok_or (arena_get (universes outer) outer_handle) InvalidUniverseHandle);
  keys_var ← keys_variable (universe_keys universe);
  on_inner (alloc_universe (UniverseFromCollection keys_var)).
Definition import_column (inner_universe : UniverseHandle) (outer_handle : ColumnHandle) : B ColumnHandle :=
  cache ← gets column_cache;
  match (cache : gmap _ _) !! outer_handle with
  | Some inner_handle => mret inner_handle
  | None =>
      column ← lift (ok_or (arena_get (columns outer) outer_handle) InvalidColumnHandle);
      inner_handle ← on_inner (alloc_column (column_from_collection inner_universe (GenericValues (column_values column))));
      _ ← modify (λ s, mk_Before (inner s) (universe_cache s) (<[outer_handle := inner_handle]> (column_cache s)) (given s) (used s));
      mret inner_handle
  end.
Definition iterate_column (inner_universe : UniverseHandle) (outer_handle : ColumnHandle) : B ColumnHandle :=
  column ← lift (ok_or (arena_get (columns outer) outer_handle) InvalidColumnHandle);
  values_var ← values_variable (column_values column);
  on_inner (alloc_column (column_from_collection inner_universe (GenericValues values_var))).
(** [InnerLegacyTable::create]. *)
Definition create_table (kind : TableKind) (table : LegacyTable) : B InnerLegacyTable :=
  universe ← match kind with
             | IteratedWithUniverseLegacyTable => iterate_universe (fst table)
             | _ => import_universe (fst table)
             end;
  columns ← collect_before (match kind with ExtraLegacyTable => import_column universe | _ => iterate_column universe end) (snd table);
  mret (mk_InnerLegacyTable universe (match kind with IteratedWithUniverseLegacyTable => None | _ => Some (fst table) end) columns).
Definition create_tables (kind : TableKind) (tables : list LegacyTable) : B (list InnerLegacyTable) :=
  collect_before (create_table kind) tables.
Definition extract_handles (tables : list InnerLegacyTable) : list LegacyTable :=
  map (λ t, (inner_universe t, inner_columns t)) tables.
End iterate.

(** [AfterIterate]: the outer graph and what the variables were set to. *)
Record After := mk_After { after_outer : Graph; next : Vars }.
Definition A_ (T : Type) : Type := eff After EngineError T.
Definition on_outer {T} (m : G T) : A_ T := zoom after_outer (λ g s, mk_After g (next s)) m.
Definition set_keys (c : Flow Key) : A_ unit :=
  modify (λ s, mk_After (after_outer s) (mk_Vars (var_keys (next s) ++ [c]) (var_values (next s)))).
Definition set_values (c : Flow (Key * Value)) : A_ unit :=
  modify (λ s, mk_After (after_outer s) (mk_Vars (var_keys (next s)) (var_values (next s) ++ [c]))).

Section finish.
Context (inner : Graph).

Definition finish_universe (table : InnerLegacyTable) (inner_handle : UniverseHandle) : A_ UniverseHandle :=
  match imported_from table with
  | Some outer_handle => if decide (inner_universe table = inner_handle) then mret outer_handle else lift (Err UniverseMismatch)
  | None =>
      universe ← lift (ok_or (arena_get (universes inner) inner_handle) InvalidUniverseHandle);
      let keys := universe_keys_consolidated universe in
      _ ← set_keys keys;
      on_outer (alloc_universe (UniverseFromArranged (flow_arrange keys)))
  end.
Definition finish_column (outer_universe_handle : UniverseHandle) (inner_handle : ColumnHandle) : A_ ColumnHandle :=
  column ← lift (ok_or (arena_get (columns inner) inner_handle) InvalidColumnHandle);
  let values := data_consolidated (column_data column) in
  _ ← set_values values;
  on_outer (alloc_column (column_from_arranged outer_universe_handle (flow_arrange values))).
(** [zip_longest] with [both().ok_or(LengthMismatch)?]. *)
Fixpoint finish_both {X Y T} (f : X → Y → A_ T) (xs : list X) (ys : list Y) : A_ (list T) :=
  match xs, ys with
  | [], [] => mret []
  | x :: xs, y :: ys => t ← f x y; ts ← finish_both f xs ys; mret (t :: ts)
  | _, _ => lift (Err LengthMismatch)
  end.
Definition finish_table (result : LegacyTable) (table : InnerLegacyTable) : A_ LegacyTable :=
  outer_universe_handle ← finish_universe table (fst result);
  outer_column_handles ← finish_both (λ inner_column_handle _, finish_column outer_universe_handle inner_column_handle)
    (snd result) (inner_columns table);
  mret (outer_universe_handle, outer_column_handles).
Definition finish_tables (results : list LegacyTable) (tables : list InnerLegacyTable) : A_ (list LegacyTable) :=
  finish_both finish_table results tables.
End finish.

(** The user's logic builds the body of the loop in the inner graph. *)
Definition IterationLogic : Type := list LegacyTable → list LegacyTable → list LegacyTable → G (list LegacyTable * list LegacyTable).

Section loop.
Context (logic : IterationLogic) (inner_id : Z) (iterated iterated_with_universe extra : list LegacyTable).

Definition inner_graph (outer : Graph) : Graph :=
  mk_Graph (arena_new inner_id) (arena_new inner_id) (arena_new inner_id) (worker_count outer) (ignore_asserts outer) None.
(** One round, with the contents of the variables: what it returns, the outer graph, the
    contents that were used and those for the next round. *)
Definition iteration_round (outer : Graph) (given : Vars)
    : outcome EngineError (list LegacyTable * list LegacyTable) * Graph * (Vars * Vars) :=
  let build : B (list InnerLegacyTable * list InnerLegacyTable * (list LegacyTable * list LegacyTable)) :=
    inner_iterated ← create_tables outer IteratedLegacyTable iterated;
    inner_iterated_with_universe ← create_tables outer IteratedWithUniverseLegacyTable iterated_with_universe;
    inner_extra ← create_tables outer ExtraLegacyTable extra;
    result ← on_inner (logic (extract_handles inner_iterated) (extract_handles inner_iterated_with_universe) (extract_handles inner_extra));
    mret (inner_iterated, inner_iterated_with_universe, result) in
  let '(r, s) := build (mk_Before (inner_graph outer) ∅ ∅ given (mk_Vars [] [])) in
  match r with
  | Ok (inner_iterated, inner_iterated_with_universe, (result, result_with_universe)) =>
      let finish : A_ (list LegacyTable * list LegacyTable) :=
        result ← finish_tables (inner s) result inner_iterated;
        result_with_universe ← finish_tables (inner s) result_with_universe inner_iterated_with_universe;
        mret (result, result_with_universe) in
      let '(r, a) := finish (mk_After outer (mk_Vars [] [])) in
      (r, after_outer a, (used s, next a))
  | Err e => (Err e, outer, (used s, mk_Vars [] []))
  | Panic p => (Panic p, outer, (used s, mk_Vars [] []))
  end.

(** Whether a round changed nothing; after a panic there is no other round. *)
Definition same_flow {A} `{Ord A} (a b : Flow A) : bool :=
  match a, b with Ok a, Ok b => ord_eqb (consolidate a) (consolidate b) | _, _ => true end.
Fixpoint forallb_both {A} (f : A → A → bool) (l l' : list A) : bool :=
  match l, l' with x :: l, y :: l' => f x y && forallb_both f l l' | _, _ => true end.
Definition panics {A} (f : Flow A) : bool := match f with Panic _ => true | _ => false end.
Definition same_vars (a b : Vars) : bool :=
  existsb panics (var_keys b) || existsb panics (var_values b) ||
  forallb_both same_flow (var_keys a) (var_keys b) && forallb_both same_flow (var_values a) (var_values b).
(** The updates of a round reach the next one while [time.inner < limit - 1]: the body is
    applied [limit] times at most. *)
Fixpoint iteration_rounds (fuel : nat) (limit : option Z) (outer : Graph) (given : Vars)
    : option (outcome EngineError (list LegacyTable * list LegacyTable) * Graph) :=
  match fuel with
  | O => None
  | S fuel =>
      let '(r, outer', (used, next)) := iteration_round outer given in
      match r with
      | Ok _ =>
          if bool_decide (limit = Some 1) || same_vars used next then Some (r, outer')
          else iteration_rounds fuel (Z.pred <$> limit) outer next
      | _ => Some (r, outer')
      end
  end.
Definition iterate (fuel : nat) (limit : option Z) (outer : Graph)
    : option (outcome EngineError (list LegacyTable * list LegacyTable) * Graph) :=
  match limit with
  | Some v => if v <=? 1 then Some (Err IterationLimitTooSmall, outer) else iteration_rounds fuel limit outer (mk_Vars [] [])
  | None => iteration_rounds fuel limit outer (mk_Vars [] [])
  end.
End loop.
End graph.
