(* ===== verification/GraphProps.v ===== *)
(** The state of a dataflow graph: handles stay valid and keep their data, columns put
    into a table come out of it unchanged, and an iteration applies its logic up to its
    limit or a fixed point. *)
From Stdlib Require Import ZArith Lia Bool.
From stdpp Require Import base list strings gmap.
From S2P Require Import Prelude Order Float Text Data Externals Value Weights Expression Output Table TableProps.
From S2P Require Import Instances Effects Properties Graph GroupProps ComplexProps.
Open Scope Z_scope.

(** ** Flows that represent maps *)

Definition flow_represents {A} `{Ord A} (f : Flow (Key * A)) (m : gmap Key A) : Prop := ∃ c, f = Ok c ∧ represents c m.
Lemma flow_arrange_represents {A} `{OrdLaws A} (f : Flow (Key * A)) m : flow_represents f m → flow_represents (flow_arrange f) m.
Proof. intros (c & -> & Hc). exists (consolidate c). split; [done|]. unfold represents. by rewrite consolidate_weq. Qed.
Lemma data_arranged_represents d m : flow_represents (data_values d) m → flow_represents (data_arranged d) m.
Proof. destruct d; [apply flow_arrange_represents|done]. Qed.
Lemma flow_join_represents {A B C} `{OrdLaws A, OrdLaws B, OrdLaws C} (f : Flow (Key * A)) m (g : Flow (Key * B)) mg (res : A → B → C) :
  flow_represents f m → flow_represents g mg →
  (∀ a a' b b', cmp a a' = Eq → cmp b b' = Eq → cmp (res a b) (res a' b') = Eq) →
  flow_represents (flow_join f g (λ _, res)) (map_imap (λ k a, res a <$> mg !! k) m).
Proof. intros (c & -> & Hc) (d & -> & Hd) Hres. eexists. split; [done|]. by apply represents_join. Qed.
Lemma flow_map_represents {A B} `{OrdLaws A, OrdLaws B} (f : Flow (Key * A)) m (h : A → B) : flow_represents f m →
  (∀ a a', cmp a a' = Eq → cmp (h a) (h a') = Eq) → flow_represents (flow_map (λ e, (fst e, h (snd e))) f) (h <$> m).
Proof.
  intros (c & -> & Hc) Hh. eexists. split; [done|]. replace (h <$> m) with (map_imap (λ _ v, Some (h v)) m).
  - by apply (represents_map c m (λ _, h)).
  - apply map_eq. intros k. rewrite map_lookup_imap, lookup_fmap. by destruct (m !! k).
Qed.

(** ** Tuples of columns *)

(** Rows of [n] values that represent a map. *)
Definition tuples_represent (f : Flow (Key * list Value)) (n : nat) (m : gmap Key (list Value)) : Prop :=
  ∃ c, f = Ok c ∧ represents c m ∧ ∀ e, e ∈ c → length (snd (fst e)) = n.
Definition joined_values (ms : list (gmap Key Value)) (m : gmap Key (list Value)) : Prop := ∀ k, m !! k = mapM (λ m, m !! k) ms.

Lemma mapM_lookup_app (ms : list (gmap Key Value)) m k :
  mapM (λ m, m !! k) (ms ++ [m]) = (vs ← mapM (λ m, m !! k) ms; v ← m !! k; Some (vs ++ [v])).
Proof.
  induction ms as [|m0 ms IH]; cbn; [by destruct (m !! k)|]. rewrite IH.
  destruct (m0 !! k); cbn; [|done]. destruct (mapM _ ms); cbn; [|done]. by destruct (m !! k).
Qed.
Lemma in_consolidate {A} `{OrdLaws A} (c : Coll A) e : e ∈ consolidate c → ∃ w, (fst e, w) ∈ c.
Proof.
  intros He. assert (Hin : fst e ∈ map fst c) by (apply ComplexProps.consolidate_incl, list_elem_of_fmap; by exists e).
  apply list_elem_of_fmap in Hin as ([x w] & -> & Hx). by exists w.
Qed.
Lemma snoc_cmp (vs vs' : list Value) v v' : cmp vs vs' = Eq → cmp v v' = Eq → cmp (vs ++ [v]) (vs' ++ [v']) = Eq.
Proof. intros Hvs Hv. apply list_cmp_eq_Forall2. apply Forall2_app; [by apply list_cmp_eq_Forall2|by constructor]. Qed.
(** Joining one more column. *)
Lemma join_one_more f n mt ms column m : tuples_represent f n mt → joined_values ms mt →
  flow_represents (data_values (column_data column)) m →
  ∃ mt', tuples_represent (flow_join (flow_arrange f) (column_arranged column) (λ _ values value, values ++ [value])) (S n) mt' ∧
    joined_values (ms ++ [m]) mt'.
Proof.
  intros (c & -> & Hc & Hlen) Hms (d & Hd & Hdm)%data_arranged_represents. unfold column_arranged, flow_join. rewrite Hd.
  cbn [flow_arrange mbind outcome_bind]. eexists. split.
  - eexists. split; [done|]. split.
    + apply (represents_join (consolidate c) mt d m (λ vs v, vs ++ [v])); [unfold represents; rewrite consolidate_weq; exact Hc|exact Hdm|].
      intros a a' b b'. apply snoc_cmp.
    + intros e (k & vs & v & w & w' & Hvs & _ & He)%elem_of_join_core. apply list_elem_of_singleton in He as ->.
      cbn [snd fst]. apply in_consolidate in Hvs as (w1 & Hvs). rewrite length_app. specialize (Hlen _ Hvs). cbn in *. lia.
  - intros k. rewrite map_lookup_imap, Hms, mapM_lookup_app. destruct (mapM (λ m0, m0 !! k) ms); [|done]. cbn. by destruct (m !! k).
Qed.
Lemma join_more_represents columns cms f n mt ms : tuples_represent f n mt → joined_values ms mt →
  Forall2 (λ column m, flow_represents (data_values (column_data column)) m) columns cms →
  ∃ mt', tuples_represent (join_more f columns) (n + length columns)%nat mt' ∧ joined_values (ms ++ cms) mt'.
Proof.
  intros Hf Hms HF. revert f n mt ms Hf Hms. induction HF as [|column m columns cms Hc HF IH]; intros f n mt ms Hf Hms; cbn [join_more foldl].
  - exists mt. by rewrite Nat.add_0_r, app_nil_r.
  - destruct (join_one_more f n mt ms column m Hf Hms Hc) as (mt1 & Hmt1 & Hms1).
    destruct (IH _ _ _ _ Hmt1 Hms1) as (mt' & Hmt' & Hms'). exists mt'. rewrite <- app_assoc in Hms'. split; [|done].
    by replace (n + length (column :: columns))%nat with (S n + length columns)%nat by (cbn; lia).
Qed.
(** The rows of one column, two columns, three columns. *)
Lemma one_represents f m : flow_represents f m →
  ∃ mt, tuples_represent (flow_map (λ e, (fst e, [snd e])) f) 1 mt ∧ joined_values [m] mt.
Proof.
  intros Hf. destruct (flow_map_represents f m (λ v : Value, [v]) Hf) as (c & Hc & Hm).
  { intros a a' E. apply list_cmp_eq_Forall2. by constructor. }
  exists ((λ v, [v]) <$> m). split.
  - exists c. split; [exact Hc|]. split; [done|]. destruct Hf as (c0 & -> & _). injection Hc as <-.
    by intros e ([[k v] w] & -> & _)%list_elem_of_fmap.
  - intros k. rewrite lookup_fmap. cbn. by destruct (m !! k).
Qed.
Lemma two_pairs (a b : Flow (Key * Value)) ma mb : flow_represents a ma → flow_represents b mb →
  flow_represents (flow_join a b (λ _ a b, (a, b))) (map_imap (λ k a, (λ b, (a, b)) <$> mb !! k) ma).
Proof.
  intros Ha Hb. apply (flow_join_represents a ma b mb (λ a b, (a, b))); [done|done|]. intros x x' y y' Ex Ey. by apply pair_cmp_eq.
Qed.
Lemma two_represents (a b : Flow (Key * Value)) ma mb : flow_represents a ma → flow_represents b mb →
  ∃ mt, tuples_represent (flow_map (λ e, (fst e, [fst (snd e); snd (snd e)])) (flow_join a b (λ _ a b, (a, b)))) 2 mt ∧ joined_values [ma; mb] mt.
Proof.
  intros Ha Hb. pose proof (two_pairs a b ma mb Ha Hb) as Hab.
  destruct (flow_map_represents _ _ (λ p : Value * Value, [fst p; snd p]) Hab) as (c & Hc & Hm).
  { intros p p' [E1 E2]%pair_cmp_eq. apply list_cmp_eq_Forall2. by repeat constructor. }
  eexists. split.
  - exists c. split; [exact Hc|]. split; [exact Hm|]. destruct Hab as (c0 & E & _). rewrite E in Hc. injection Hc as <-.
    by intros e ([[k p] w] & -> & _)%list_elem_of_fmap.
  - intros k. rewrite lookup_fmap, map_lookup_imap. cbn. destruct (ma !! k); [|done]. cbn. by destruct (mb !! k).
Qed.
Lemma three_represents (a b d : Flow (Key * Value)) ma mb md : flow_represents a ma → flow_represents b mb → flow_represents d md →
  ∃ mt, tuples_represent (flow_join (flow_arrange (flow_join a b (λ _ a b, (a, b)))) d (λ _ ab c, [fst ab; snd ab; c])) 3 mt ∧
    joined_values [ma; mb; md] mt.
Proof.
  intros Ha Hb Hd. pose proof (flow_arrange_represents _ _ (two_pairs a b ma mb Ha Hb)) as Hab.
  destruct (flow_join_represents _ _ d md (λ (ab : Value * Value) c, [fst ab; snd ab; c]) Hab Hd) as (c & Hc & Hm).
  { intros p p' v v' [E1 E2]%pair_cmp_eq Ev. apply list_cmp_eq_Forall2. by repeat constructor. }
  eexists. split.
  - exists c. split; [exact Hc|]. split; [exact Hm|]. destruct Hab as (c0 & E & _), Hd as (d0 & -> & _). rewrite E in Hc. injection Hc as <-.
    intros e (k & p & v & w & w' & _ & _ & He)%elem_of_join_core. by apply list_elem_of_singleton in He as ->.
  - intros k. rewrite !map_lookup_imap. cbn. destruct (ma !! k); [|done]. cbn. destruct (mb !! k); [|done]. cbn. by destruct (md !! k).
Qed.

Section graph.
Context `{Profile, XxHash, Python, SerdeJson, Chrono, NumInteger, Ndarray, RustText, ErrorMode, ArenaLaws}.
Implicit Types (g : Graph).

Definition column_holds g (h : ColumnHandle) (m : gmap Key Value) : Prop :=
  ∃ column, arena_get (columns g) h = Some column ∧ flow_represents (column_values column) m.
Lemma get_columns g hs ms : Forall2 (column_holds g) hs ms →
  ∃ cs, collect get_column hs g = (Ok cs, g) ∧ Forall2 (λ column m, flow_represents (data_values (column_data column)) m) cs ms ∧
    Forall2 (λ h column, arena_get (columns g) h = Some column) hs cs.
Proof.
  induction 1 as [|h m hs ms (column & Hg & Hm) _ (cs & Hcs & HF & HG)]; [by exists []|]. exists (column :: cs).
  cbn [collect]. unfold mbind, eff_bind, get_column in *. rewrite Hg. cbn [ok_or]. rewrite Hcs. by repeat constructor.
Qed.
Lemma tuples_spec g u ud hs ms : arena_get (universes g) u = Some ud → hs ≠ [] → Forall2 (column_holds g) hs ms →
  ∃ tc mt, tuples u hs g = (Ok tc, g) ∧ tuples_represent (tuple_rows tc) (length hs) mt ∧ joined_values ms mt.
Proof.
  intros Hu Hne HF. destruct (get_columns g hs ms HF) as (cs & Hcs & HC & HG). unfold tuples, mbind at 1, eff_bind at 1, get_universe.
  rewrite Hu. cbn [ok_or]. unfold mbind, eff_bind. rewrite Hcs. assert (El : length hs = length cs) by exact (Forall2_length _ _ _ HG).
  destruct HC as [|c1 m1 cs ms1 Hc1 HC]; [by inversion HG; subst|].
  destruct HC as [|c2 m2 cs ms1 Hc2 HC]; [|destruct HC as [|c3 m3 cs ms1 Hc3 HC]]; cbn [mret eff_ret]; eexists.
  - destruct (one_represents _ _ Hc1) as (mt & ? & ?). exists mt. rewrite El. by repeat split.
  - destruct (two_represents _ _ _ _ (data_arranged_represents _ _ Hc1) (data_arranged_represents _ _ Hc2)) as (mt & ? & ?).
    exists mt. rewrite El. by repeat split.
  - destruct (three_represents _ _ _ _ _ _ (data_arranged_represents _ _ Hc1) (data_arranged_represents _ _ Hc2) (data_arranged_represents _ _ Hc3))
      as (mt & Hmt & Hms).
    destruct (join_more_represents cs ms1 _ _ mt _ Hmt Hms HC) as (mt' & Hmt' & Hms'). exists mt'. rewrite El. split; [done|]. split; [exact Hmt'|exact Hms'].
Qed.

(** ** Into a table and out of it *)

Lemma alloc_table_spec t g : ∃ h g', alloc_table t g = (Ok h, g') ∧ arena_get (tables g') h = Some t ∧
  universes g' = universes g ∧ columns g' = columns g.
Proof.
  unfold alloc_table. pose proof (arena_alloc_same _ (tables g) t) as E. destruct (arena_alloc (tables g) t) as [h ts]. by eexists _, _.
Qed.
Lemma alloc_column_spec c g : ∃ h g', alloc_column c g = (Ok h, g') ∧ arena_get (columns g') h = Some c ∧
  universes g' = universes g ∧ tables g' = tables g.
Proof.
  unfold alloc_column. pose proof (arena_alloc_same _ (columns g) c) as E. destruct (arena_alloc (columns g) c) as [h cs]. by eexists _, _.
Qed.
Lemma columns_properties_spec g hs cs : Forall2 (λ h column, arena_get (columns g) h = Some column) hs cs →
  columns_to_table_properties hs g = (Ok (PropertiesTable (map column_properties cs)), g).
Proof.
  intros HG. unfold columns_to_table_properties.
  assert (E : collect (λ h, column ← get_column h; mret (column_properties column)) hs g = (Ok (map column_properties cs), g)).
  { induction HG as [|h c hs cs Hg _ IH]; [done|]. cbn [collect map]. unfold mbind, eff_bind, get_column in *. rewrite Hg. cbn [ok_or mret eff_ret].
    by rewrite IH. }
  unfold mbind, eff_bind in *. by rewrite E.
Qed.
Lemma mapM_lookup_index (ms : list (gmap Key Value)) k vs i m : mapM (λ m, m !! k) ms = Some vs → ms !! i = Some m → vs !! i = m !! k.
Proof.
  revert vs i. induction ms as [|m0 ms IH]; intros vs i E Hi; [done|]. cbn in E. destruct (m0 !! k) as [v|] eqn:Ev; [|done].
  cbn in E. destruct (mapM _ ms) as [vs'|] eqn:Evs; [|done]. cbn in E. injection E as <-. destruct i as [|i]; cbn in *.
  - by injection Hi as <-.
  - by apply IH.
Qed.
Lemma mapM_lookup_some (ms : list (gmap Key Value)) k : (∀ m, m ∈ ms → is_Some (m !! k)) → is_Some (mapM (λ m, m !! k) ms).
Proof.
  induction ms as [|m ms IH]; intros Hms; [by eexists|]. cbn. destruct (Hms m) as [v ->]; [constructor|].
  destruct IH as [vs Hvs]; [intros m' Hm'; apply Hms; by constructor|]. cbn. rewrite Hvs. by eexists.
Qed.
Lemma extract_index k vs i v : vs !! i = Some v → extract (ValuePath [i]) k (VTuple vs) = Ok v.
Proof. intros Hv. cbn. by rewrite Hv. Qed.
(** Column [i] of a table of tuples. *)
Lemma table_column_index f n mt ms i m : tuples_represent f n mt → joined_values ms mt → length ms = n → ms !! i = Some m →
  (∀ m1 m2 k, m1 ∈ ms → m2 ∈ ms → is_Some (m1 !! k) → is_Some (m2 !! k)) →
  flow_represents (t ← flow_map (λ e, (fst e, VTuple (snd e))) f; table_column t (ValuePath [i])) m.
Proof.
  intros (c & -> & Hc & Hlen) Hms Hn Hi Hdom. unfold flow_map. cbn [mbind outcome_bind]. unfold table_column.
  rewrite (map_coll_pure _ (λ row, (fst row, match snd row with VTuple vs => default VNone (vs !! i) | _ => VNone end))).
  2: { intros e ([[k vs] w] & -> & He)%list_elem_of_fmap. specialize (Hlen _ He). cbn [fst snd] in *.
    destruct (lookup_lt_is_Some_2 vs i) as [v Hv]; [apply lookup_lt_Some in Hi; lia|]. by rewrite (extract_index k vs i v Hv), Hv. }
  eexists. split; [done|]. rewrite map_map. cbn [fst snd].
  replace m with (map_imap (λ _ vs, Some (default VNone (vs !! i))) mt).
  - apply (represents_map c mt (λ _ vs, default VNone (vs !! i)) Hc). intros _ vs vs' E%list_cmp_eq_Forall2.
    destruct (vs !! i) as [v|] eqn:Ev.
    + destruct (Forall2_lookup_l _ _ _ _ _ E Ev) as (v' & -> & Ev'). done.
    + destruct (vs' !! i) as [v'|] eqn:Ev'; [|done]. destruct (Forall2_lookup_r _ _ _ _ _ E Ev') as (v & ? & _). congruence.
  - apply map_eq. intros k. rewrite map_lookup_imap, Hms. destruct (mapM _ ms) as [vs|] eqn:Ek; cbn.
    + pose proof (mapM_lookup_index ms k vs i m Ek Hi) as E. destruct (m !! k) as [v|] eqn:Ev; rewrite E; [done|].
      pose proof (length_mapM _ _ _ Ek) as Hl. apply lookup_ge_None in E. apply lookup_lt_Some in Hi. lia.
    + destruct (m !! k) as [v|] eqn:Ev; [|done]. exfalso. destruct (mapM_lookup_some ms k) as [vs Hvs]; [|congruence].
      intros m' Hm'. apply (Hdom m m'); [by eapply list_elem_of_lookup_2|done|by eexists].
Qed.

(** C16: columns of a universe that represent maps with the same keys can be put into a
    table and taken out again: the rows of the table are the tuples of their values, its
    properties are those of the columns, and the column at path [i] of the table has
    the values and the properties of the [i]-th column. *)
Theorem columns_to_table_roundtrip g u ud hs ms : arena_get (universes g) u = Some ud → hs ≠ [] →
  Forall2 (column_holds g) hs ms → (∀ m1 m2 k, m1 ∈ ms → m2 ∈ ms → is_Some (m1 !! k) → is_Some (m2 !! k)) →
  ∃ th g' table mt, columns_to_table u hs g = (Ok th, g') ∧ arena_get (tables g') th = Some table ∧
    flow_represents (data_values (table_data table)) (VTuple <$> mt) ∧ joined_values ms mt ∧
    ∀ i h m, hs !! i = Some h → ms !! i = Some m → ∃ ch g'' column column',
      table_column_handle u th (ValuePath [i]) g' = (Ok ch, g'') ∧
      arena_get (columns g) h = Some column ∧ arena_get (columns g'') ch = Some column' ∧
      column_properties column' = column_properties column ∧ column_universe column' = u ∧
      flow_represents (column_values column') m.
Proof.
  intros Hu Hne HF Hdom. destruct (tuples_spec g u ud hs ms Hu Hne HF) as (tc & mt & Htc & Hmt & Hms).
  destruct (get_columns g hs ms HF) as (cs & _ & _ & HG).
  set (table := table_with_properties (table_from_collection (GenericValues (flow_map (λ e, (fst e, VTuple (snd e))) (tuple_rows tc))))
    (PropertiesTable (map column_properties cs))).
  destruct (alloc_table_spec table g) as (th & g' & Hal & Hget & _ & Hcols).
  exists th, g', table, mt. split; [|split; [done|split; [|split; [done|]]]].
  - pose proof (columns_properties_spec g hs cs HG) as Hprops. unfold columns_to_table, mbind, eff_bind. rewrite Htc, Hprops. exact Hal.
  - destruct Hmt as (c & Hc & Hm & _). apply flow_map_represents; [by exists c|]. intros vs vs' E%list_cmp_eq_Forall2. by apply value_tuple_eq.
  - intros i h m Hh Hm. destruct (Forall2_lookup_l _ _ _ _ _ HG Hh) as (column & Hci & Hg).
    set (column' := column_with_properties (column_from_collection u (GenericValues (t ← data_values (table_data table); table_column t (ValuePath [i]))))
      (column_properties column)).
    destruct (alloc_column_spec column' g') as (ch & g'' & Hal' & Hget' & _ & _). exists ch, g'', column, column'.
    split; [|split; [done|split; [done|split; [done|split; [done|]]]]].
    + unfold table_column_handle, mbind, eff_bind, get_table, lift. rewrite Hget. cbn [ok_or table table_with_properties table_properties].
      cbn [extract_properties extract_properties_path]. rewrite list_lookup_fmap, Hci. exact Hal'.
    + apply (table_column_index (tuple_rows tc) (length hs) mt ms i m Hmt Hms); [by rewrite (Forall2_length _ _ _ HF)|done|done].
Qed.
End graph.

Section witnesses.
Import Concrete.
#[local] Existing Instance release.
#[local] Instance terminating : ErrorMode := true.
(** Arenas as lists with an identity. *)
#[local] Instance list_arenas : Arenas := {|
  Arena T := (Z * list T)%type;
  arena_new _ id := (id, []);
  arena_alloc _ a x := (mk_ArenaHandle (fst a) (length (snd a)), (fst a, snd a ++ [x]));
  arena_get _ a h := if decide (arena_id h = fst a) then snd a !! index h else None
|}.
#[local] Instance list_arena_laws : ArenaLaws.
Proof.
  split; cbn.
  - intros T id h. by destruct (decide _).
  - intros T [id l] x. cbn. rewrite decide_True by done. by apply list_lookup_middle.
  - intros T [id l] x [id' i] Hne. cbn in *. destruct (decide (id' = id)) as [->|]; [|done].
    destruct (decide (i < length l)%nat) as [Hi|Hi]; [by apply lookup_app_l|].
    assert (i ≠ length l) by (intros ->; done). rewrite !lookup_ge_None_2; [done|lia|rewrite length_app; cbn; lia].
  - intros T [id l] x. cbn. destruct (decide _); [|done]. apply lookup_ge_None_2. lia.
Qed.

Definition empty_graph : Graph := mk_Graph (arena_new 1) (arena_new 2) (arena_new 3) 2 true None.
Definition ints (l : list (Z * Z)) : list (Key * Value) := map (λ x, (mk_Key (fst x), VInt (snd x))) l.
Definition int_properties : ColumnProperties := mk_ColumnProperties TInt true TraceEmpty.
(** A universe of two keys with two columns, on two workers. *)
Definition two_columns : G (UniverseHandle * list ColumnHandle) :=
  u ← static_universe [mk_Key 1; mk_Key 2];
  a ← static_column u (ints [(1, 10); (2, 20)]) int_properties;
  b ← static_column u (ints [(2, 200); (1, 100)]) int_properties;
  mret (u, [a; b]).
Definition two_columns_graph : Graph := snd (two_columns empty_graph).
Definition universe_handle : UniverseHandle := mk_ArenaHandle 1 0.
Definition column_handles : list ColumnHandle := [mk_ArenaHandle 2 0; mk_ArenaHandle 2 1].
Definition column_maps : list (gmap Key Value) := [list_to_map (ints [(2, 20); (1, 10)]); list_to_map (ints [(2, 200); (1, 100)])].
Lemma columns_represent h c m : arena_get (columns two_columns_graph) h = Some c →
  column_values c = Ok (ones m) → NoDup (map fst m) → column_holds two_columns_graph h (list_to_map m).
Proof. intros Hg Hc Hm. exists c. split; [done|]. exists (ones m). split; [done|]. by apply represents_nodup. Qed.

Lemma columns_to_table_roundtrip_witness :
  ∃ th g' table mt, columns_to_table universe_handle column_handles two_columns_graph = (Ok th, g') ∧ arena_get (tables g') th = Some table ∧
    flow_represents (data_values (table_data table)) (VTuple <$> mt) ∧ joined_values column_maps mt ∧
    ∀ i h m, column_handles !! i = Some h → column_maps !! i = Some m → ∃ ch g'' column column',
      table_column_handle universe_handle th (ValuePath [i]) g' = (Ok ch, g'') ∧
      arena_get (columns two_columns_graph) h = Some column ∧ arena_get (columns g'') ch = Some column' ∧
      column_properties column' = column_properties column ∧ column_universe column' = universe_handle ∧
      flow_represents (column_values column') m.
Proof.
  eapply (columns_to_table_roundtrip two_columns_graph universe_handle).
  - vm_compute. reflexivity.
  - done.
  - constructor; [|constructor; [|by apply Forall2_nil]]; (eapply columns_represent; [vm_compute; reflexivity|vm_compute; reflexivity|]);
      apply NoDup_ListNoDup; cbn; repeat constructor; cbn; intuition discriminate.
  - intros m1 m2 k Hm1 Hm2. assert (E : ∀ m, m ∈ column_maps → dom m = ({[mk_Key 1; mk_Key 2]} : gset Key)).
    { intros m Hm. repeat (apply elem_of_cons in Hm as [->|Hm]); [vm_compute; reflexivity..|by apply elem_of_nil in Hm]. }
    intros Hk%elem_of_dom. apply elem_of_dom. rewrite (E m2 Hm2). rewrite (E m1 Hm1) in Hk. exact Hk.
Defined.
(** The rows of the table; a handle of another arena is not valid. *)
Example two_columns_table :
  (λ r, match r with (Ok th, g) => (λ t, match data_values (table_data t) with Ok c => c | _ => [] end) <$> arena_get (tables g) th | _ => None end)
    (columns_to_table universe_handle column_handles two_columns_graph) =
  Some [((mk_Key 1, VTuple [VInt 10; VInt 100]), 1); ((mk_Key 2, VTuple [VInt 20; VInt 200]), 1)].
Proof. vm_compute. reflexivity. Qed.
Example foreign_handle : fst (columns_to_table universe_handle [mk_ArenaHandle 1 0] two_columns_graph) = Err InvalidColumnHandle.
Proof. vm_compute. reflexivity. Qed.
End witnesses.
