(* ===== verification/IterateProps.v ===== *)
(** Iteration in a nested scope: the logic is applied to the contents of the variables
    until a round changes nothing, or up to the limit; the tables that come out hold the
    last contents. *)
From Stdlib Require Import ZArith Lia Bool.
From stdpp Require Import base list strings gmap.
From S2P Require Import Prelude Order Float Text Data Externals Value Weights Expression Output Table TableProps.
From S2P Require Import Instances Effects Properties Graph GroupProps GraphProps.
Open Scope Z_scope.

(** ** Contents taken in the order of the variables *)

(** From the contents given, or from the sources when nothing is given. *)
Inductive Takes {A} : list A → list A → list A → list A → Prop :=
| takes_nil given : Takes given [] [] given
| takes_source s sources used rest : Takes [] sources used rest → Takes [] (s :: sources) (s :: used) rest
| takes_given c given s sources used rest : Takes given sources used rest → Takes (c :: given) (s :: sources) (c :: used) rest.
Lemma takes_app {A} (g src1 us1 g1 src2 us2 g2 : list A) :
  Takes g src1 us1 g1 → Takes g1 src2 us2 g2 → Takes g (src1 ++ src2) (us1 ++ us2) g2.
Proof. induction 1; intros Ht; cbn; [done|apply takes_source|apply takes_given]; auto. Qed.
Lemma takes_sources {A} (src us rest : list A) : Takes [] src us rest → us = src.
Proof.
  intros Ht. remember [] as given eqn:E. induction Ht as [| |]; [done| |done]. by rewrite IHHt.
Qed.
Lemma takes_all {A} (given src us rest : list A) : Takes given src us rest → length given = length src → us = given ∧ rest = [].
Proof.
  induction 1 as [given|s src us rest Ht IH|c given s src us rest Ht IH]; cbn; intros E.
  - by destruct given.
  - done.
  - destruct IH as [-> ->]; [lia|done].
Qed.

Section iterate.
Context `{Profile, XxHash, Python, SerdeJson, Chrono, NumInteger, Ndarray, RustText, ErrorMode, ArenaLaws}.
Implicit Types (g : Graph) (s : Before).

(** ** Graphs that grow *)

Definition grows g g' : Prop :=
  (∀ h u, arena_get (universes g) h = Some u → arena_get (universes g') h = Some u) ∧
  (∀ h c, arena_get (columns g) h = Some c → arena_get (columns g') h = Some c) ∧
  (∀ h t, arena_get (tables g) h = Some t → arena_get (tables g') h = Some t).
#[export] Instance grows_preorder : PreOrder grows.
Proof. split; [intros g; unfold grows; by split_and!|]. intros g1 g2 g3 (H1' & H2' & H3') (H1'' & H2'' & H3''). unfold grows. split_and!; eauto. Qed.
Lemma arena_alloc_keeps {T} (a : Arena T) x h y : arena_get a h = Some y → arena_get (snd (arena_alloc a x)) h = Some y.
Proof.
  intros Hy. rewrite arena_alloc_other; [done|]. intros ->. by rewrite arena_alloc_fresh in Hy.
Qed.
Lemma alloc_universe_grows u g : ∃ h g', alloc_universe u g = (Ok h, g') ∧ grows g g' ∧ arena_get (universes g') h = Some u.
Proof.
  unfold alloc_universe. pose proof (arena_alloc_same _ (universes g) u) as E. pose proof (arena_alloc_keeps (universes g) u) as Hk.
  destruct (arena_alloc (universes g) u) as [h us]. eexists _, _. split; [done|]. split; [|done]. split_and!; [exact Hk|done..].
Qed.
Lemma alloc_column_grows c g : ∃ h g', alloc_column c g = (Ok h, g') ∧ grows g g' ∧ arena_get (columns g') h = Some c.
Proof.
  unfold alloc_column. pose proof (arena_alloc_same _ (columns g) c) as E. pose proof (arena_alloc_keeps (columns g) c) as Hk.
  destruct (arena_alloc (columns g) c) as [h cs]. eexists _, _. split; [done|]. split; [|done]. split_and!; [done|exact Hk|done].
Qed.

(** What a handle stands for. *)
Definition column_has g (h : ColumnHandle) (f : Flow (Key * Value)) : Prop :=
  ∃ c, arena_get (columns g) h = Some c ∧ column_values c = f.
Definition universe_has g (h : UniverseHandle) (f : Flow Key) : Prop := ∃ u, arena_get (universes g) h = Some u ∧ universe_keys u = f.
Definition column_leaves g (h : ColumnHandle) (f : Flow (Key * Value)) : Prop :=
  ∃ c, arena_get (columns g) h = Some c ∧ data_consolidated (column_data c) = f.
Definition universe_leaves g (h : UniverseHandle) (f : Flow Key) : Prop :=
  ∃ u, arena_get (universes g) h = Some u ∧ universe_keys_consolidated u = f.
Lemma column_has_grows g g' h f : grows g g' → column_has g h f → column_has g' h f.
Proof. intros (_ & Hg & _) (c & Hc & E). exists c. auto. Qed.
Lemma universe_has_grows g g' h f : grows g g' → universe_has g h f → universe_has g' h f.
Proof. intros (Hg & _) (c & Hc & E). exists c. auto. Qed.
Lemma columns_have_grows g g' hs fs : grows g g' → Forall2 (column_has g) hs fs → Forall2 (column_has g') hs fs.
Proof. intros Hg Hf. eapply Forall2_impl; [exact Hf|]. intros h f. by apply column_has_grows. Qed.
Lemma universes_have_grows g g' hs fs : grows g g' → Forall2 (universe_has g) hs fs → Forall2 (universe_has g') hs fs.
Proof. intros Hg Hf. eapply Forall2_impl; [exact Hf|]. intros h f. by apply universe_has_grows. Qed.

(** ** Creating the tables of the inner graph *)

Section create.
Context (outer : Graph).

(** An inner handle has the data of an outer one. *)
Definition imported_universe g (oh ih : UniverseHandle) : Prop := ∃ f, universe_has outer oh f ∧ universe_has g ih f.
Definition imported_column g (oh ih : ColumnHandle) : Prop := ∃ f, column_has outer oh f ∧ column_has g ih f.
Record caches_ok s : Prop := {
  universes_cached : ∀ oh ih, universe_cache s !! oh = Some ih → imported_universe (inner s) oh ih;
  columns_cached : ∀ oh ih, column_cache s !! oh = Some ih → imported_column (inner s) oh ih
}.
Lemma imported_universe_grows g g' oh ih : grows g g' → imported_universe g oh ih → imported_universe g' oh ih.
Proof. intros Hg (f & Ho & Hi). exists f. split; [done|by eapply universe_has_grows]. Qed.
Lemma imported_column_grows g g' oh ih : grows g g' → imported_column g oh ih → imported_column g' oh ih.
Proof. intros Hg (f & Ho & Hi). exists f. split; [done|by eapply column_has_grows]. Qed.

(** What creating something does to the state: the inner graph grows, the caches stay
    right, and contents are taken for the variables. *)
Definition created s s' (key_sources : list (Flow Key)) (value_sources : list (Flow (Key * Value)))
    (keys : list (Flow Key)) (values : list (Flow (Key * Value))) : Prop :=
  grows (inner s) (inner s') ∧ caches_ok s' ∧
  Takes (var_keys (given s)) key_sources keys (var_keys (given s')) ∧
  Takes (var_values (given s)) value_sources values (var_values (given s')) ∧
  var_keys (used s') = var_keys (used s) ++ keys ∧ var_values (used s') = var_values (used s) ++ values.
Lemma created_nothing s : caches_ok s → created s s [] [] [] [].
Proof. intros Hc. split_and!; [reflexivity|done|constructor|constructor|by rewrite app_nil_r..]. Qed.
Lemma created_app s1 s2 s3 ks vs ks' vs' uks uvs uks' uvs' : created s1 s2 ks vs uks uvs → created s2 s3 ks' vs' uks' uvs' →
  created s1 s3 (ks ++ ks') (vs ++ vs') (uks ++ uks') (uvs ++ uvs').
Proof.
  intros (Hg & _ & Hk & Hv & Hu & Hw) (Hg' & Hc & Hk' & Hv' & Hu' & Hw'). split_and!.
  - by etrans.
  - done.
  - by eapply takes_app.
  - by eapply takes_app.
  - by rewrite Hu', Hu, app_assoc.
  - by rewrite Hw', Hw, app_assoc.
Qed.
Lemma caches_grow s g : caches_ok s → grows (inner s) g → ∀ gv us, caches_ok (mk_Before g (universe_cache s) (column_cache s) gv us).
Proof.
  intros [Hu Hc] Hg gv us. split; cbn; intros oh ih Hi; [eapply imported_universe_grows|eapply imported_column_grows]; eauto.
Qed.
Lemma iterate_column_spec u h f s : caches_ok s → column_has outer h f →
  ∃ ih s' c, iterate_column outer u h s = (Ok ih, s') ∧ created s s' [] [f] [] [c] ∧ column_has (inner s') ih c.
Proof.
  intros Hs (col & Hcol & Hf). unfold iterate_column, mbind, eff_bind, lift. rewrite Hcol. cbn [ok_or]. unfold values_variable.
  set (cr := match var_values (given s) with [] => (column_values col, []) | c :: rest => (c, rest) end).
  assert (Ht : Takes (var_values (given s)) [f] [fst cr] (snd cr)).
  { subst cr. destruct (var_values (given s)) as [|c rest]; cbn; rewrite ?Hf; repeat constructor. }
  destruct cr as [c rest]. unfold on_inner, zoom. cbn [inner].
  destruct (alloc_column_grows (column_from_collection u (GenericValues c)) (inner s)) as (ih & g' & -> & Hg & Hget).
  eexists ih, _, c. split; [done|]. split; [|eexists; split; [exact Hget|done]]. split_and!; cbn; try done.
  - by apply (caches_grow s).
  - constructor.
  - by rewrite app_nil_r.
Qed.
Lemma iterate_columns_spec u hs fs s : caches_ok s → Forall2 (column_has outer) hs fs →
  ∃ ihs s' cs, collect_before (iterate_column outer u) hs s = (Ok ihs, s') ∧ created s s' [] fs [] cs ∧ Forall2 (column_has (inner s')) ihs cs.
Proof.
  intros Hs HF. revert s Hs. induction HF as [|h f hs fs Hf _ IH]; intros s Hs.
  { exists [], s, []. split; [done|]. split; [by apply created_nothing|constructor]. }
  destruct (iterate_column_spec u h f s Hs Hf) as (ih & s1 & c & E1 & Hc1 & Hcol).
  destruct (IH s1) as (ihs & s' & cs & E & Hc & HF'); [apply Hc1|]. exists (ih :: ihs), s', (c :: cs).
  cbn [collect_before]. unfold mbind, eff_bind in *. rewrite E1, E. split; [done|]. split.
  - apply (created_app _ _ _ [] [f] [] fs [] [c] [] cs Hc1 Hc).
  - constructor; [|done]. eapply column_has_grows; [apply Hc|done].
Qed.
Lemma import_universe_spec h f s : caches_ok s → universe_has outer h f →
  ∃ ih s', import_universe outer h s = (Ok ih, s') ∧ created s s' [] [] [] [] ∧ imported_universe (inner s') h ih.
Proof.
  intros Hs (u & Hu & Hf). unfold import_universe, mbind, eff_bind, gets, lift. destruct (universe_cache s !! h) as [ih|] eqn:Ec.
  { exists ih, s. split; [done|]. split; [by apply created_nothing|]. by apply (universes_cached s Hs). }
  rewrite Hu. cbn [ok_or]. unfold on_inner, zoom, modify.
  destruct (alloc_universe_grows (UniverseFromCollection (universe_keys u)) (inner s)) as (ih & g' & -> & Hg & Hget). cbn [inner].
  assert (Himp : imported_universe g' h ih).
  { exists f. split; [by exists u|]. eexists. split; [exact Hget|exact Hf]. }
  eexists ih, _. split; [done|]. split; [|exact Himp]. split_and!; cbn; [exact Hg| |constructor|constructor|by rewrite app_nil_r|by rewrite app_nil_r].
  split; cbn.
  - intros oh ih'. rewrite lookup_insert_Some. intros [[<- <-]|[_ Hi]]; [done|]. eapply imported_universe_grows; [exact Hg|by apply (universes_cached s Hs)].
  - intros oh ih' Hi. eapply imported_column_grows; [exact Hg|by apply (columns_cached s Hs)].
Qed.
Lemma import_column_spec u h f s : caches_ok s → column_has outer h f →
  ∃ ih s', import_column outer u h s = (Ok ih, s') ∧ created s s' [] [] [] [] ∧ imported_column (inner s') h ih.
Proof.
  intros Hs (c & Hc & Hf). unfold import_column, mbind, eff_bind, gets, lift. destruct (column_cache s !! h) as [ih|] eqn:Ec.
  { exists ih, s. split; [done|]. split; [by apply created_nothing|]. by apply (columns_cached s Hs). }
  rewrite Hc. cbn [ok_or]. unfold on_inner, zoom, modify.
  destruct (alloc_column_grows (column_from_collection u (GenericValues (column_values c))) (inner s)) as (ih & g' & -> & Hg & Hget). cbn [inner].
  assert (Himp : imported_column g' h ih).
  { exists f. split; [by exists c|]. eexists. split; [exact Hget|exact Hf]. }
  eexists ih, _. split; [done|]. split; [|exact Himp]. split_and!; cbn; [exact Hg| |constructor|constructor|by rewrite app_nil_r|by rewrite app_nil_r].
  split; cbn.
  - intros oh ih' Hi. eapply imported_universe_grows; [exact Hg|by apply (universes_cached s Hs)].
  - intros oh ih'. rewrite lookup_insert_Some. intros [[<- <-]|[_ Hi]]; [done|]. eapply imported_column_grows; [exact Hg|by apply (columns_cached s Hs)].
Qed.
Lemma import_columns_spec u hs s : caches_ok s → (∀ h, h ∈ hs → ∃ f, column_has outer h f) →
  ∃ ihs s', collect_before (import_column outer u) hs s = (Ok ihs, s') ∧ created s s' [] [] [] [] ∧ Forall2 (imported_column (inner s')) hs ihs.
Proof.
  intros Hs Hhs. revert s Hs. induction hs as [|h hs IH]; intros s Hs.
  { exists [], s. split; [done|]. split; [by apply created_nothing|constructor]. }
  destruct (Hhs h) as [f Hf]; [constructor|]. destruct (import_column_spec u h f s Hs Hf) as (ih & s1 & E1 & Hc1 & Himp).
  destruct (IH ltac:(intros h' Hh'; apply Hhs; by constructor) s1) as (ihs & s' & E & Hc & HF); [apply Hc1|]. exists (ih :: ihs), s'.
  cbn [collect_before]. unfold mbind, eff_bind in *. rewrite E1, E. split; [done|]. split.
  - apply (created_app _ _ _ [] [] [] [] [] [] [] [] Hc1 Hc).
  - constructor; [|done]. eapply imported_column_grows; [apply Hc|done].
Qed.
Lemma iterate_universe_spec h f s : caches_ok s → universe_has outer h f →
  ∃ ih s' c, iterate_universe outer h s = (Ok ih, s') ∧ created s s' [f] [] [c] [] ∧ universe_has (inner s') ih c.
Proof.
  intros Hs (u & Hu & Hf). unfold iterate_universe, mbind, eff_bind, lift. rewrite Hu. cbn [ok_or]. unfold keys_variable.
  set (cr := match var_keys (given s) with [] => (universe_keys u, []) | c :: rest => (c, rest) end).
  assert (Ht : Takes (var_keys (given s)) [f] [fst cr] (snd cr)).
  { subst cr. destruct (var_keys (given s)) as [|c rest]; cbn; rewrite ?Hf; repeat constructor. }
  destruct cr as [c rest]. unfold on_inner, zoom. cbn [inner].
  destruct (alloc_universe_grows (UniverseFromCollection c) (inner s)) as (ih & g' & -> & Hg & Hget).
  eexists ih, _, c. split; [done|]. split; [|eexists; split; [exact Hget|done]]. split_and!; cbn; try done.
  - by apply (caches_grow s).
  - constructor.
  - by rewrite app_nil_r.
Qed.

(** A table of the outer graph with its sources, and its inner handles with the contents. *)
Definition table_sources (kind : TableKind) (t : LegacyTable) (ks : list (Flow Key)) (vs : list (Flow (Key * Value))) : Prop :=
  match kind with
  | IteratedLegacyTable => (∃ f, universe_has outer (fst t) f) ∧ ks = [] ∧ Forall2 (column_has outer) (snd t) vs
  | IteratedWithUniverseLegacyTable => (∃ f, universe_has outer (fst t) f ∧ ks = [f]) ∧ Forall2 (column_has outer) (snd t) vs
  | ExtraLegacyTable => (∃ f, universe_has outer (fst t) f) ∧ ks = [] ∧ vs = [] ∧ ∀ h, h ∈ snd t → ∃ f, column_has outer h f
  end.
Definition table_holds (kind : TableKind) g (t i : LegacyTable) (ks : list (Flow Key)) (vs : list (Flow (Key * Value))) : Prop :=
  length (snd i) = length (snd t) ∧
  match kind with
  | IteratedLegacyTable => imported_universe g (fst t) (fst i) ∧ ks = [] ∧ Forall2 (column_has g) (snd i) vs
  | IteratedWithUniverseLegacyTable => (∃ f, universe_has g (fst i) f ∧ ks = [f]) ∧ Forall2 (column_has g) (snd i) vs
  | ExtraLegacyTable => imported_universe g (fst t) (fst i) ∧ ks = [] ∧ vs = [] ∧ Forall2 (imported_column g) (snd t) (snd i)
  end.
Definition from_outer (kind : TableKind) (t : LegacyTable) : option UniverseHandle :=
  match kind with IteratedWithUniverseLegacyTable => None | _ => Some (fst t) end.
Lemma table_holds_grows kind g g' t i ks vs : grows g g' → table_holds kind g t i ks vs → table_holds kind g' t i ks vs.
Proof.
  intros Hg [Hl Ht]. split; [done|]. destruct kind.
  - destruct Ht as (Hu & -> & Hc). split_and!; [by eapply imported_universe_grows|done|by eapply columns_have_grows].
  - destruct Ht as ((f & Hf & ->) & Hc). split; [exists f; split; [by eapply universe_has_grows|done]|by eapply columns_have_grows].
  - destruct Ht as (Hu & -> & -> & Hc). split_and!; [by eapply imported_universe_grows|done|done|].
    eapply Forall2_impl; [exact Hc|]. intros h h'. by apply imported_column_grows.
Qed.
Lemma create_table_spec kind t ks vs s : caches_ok s → table_sources kind t ks vs →
  ∃ u cols s' kc vc, create_table outer kind t s = (Ok (mk_InnerLegacyTable u (from_outer kind t) cols), s') ∧
    created s s' ks vs kc vc ∧ table_holds kind (inner s') t (u, cols) kc vc.
Proof.
  intros Hs Ht. unfold create_table, mbind, eff_bind. destruct kind; cbn [table_sources from_outer] in *.
  - destruct Ht as ([f Hf] & -> & Hcols). destruct (import_universe_spec (fst t) f s Hs Hf) as (u & s1 & -> & Hc1 & Hu).
    destruct (iterate_columns_spec u (snd t) vs s1 (proj1 (proj2 Hc1)) Hcols) as (cols & s' & cs & -> & Hc & HF).
    exists u, cols, s', [], cs. split; [done|]. split; [apply (created_app _ _ _ [] [] [] vs [] [] [] cs Hc1 Hc)|]. split; cbn.
    + rewrite (Forall2_length _ _ _ HF), (Forall2_length _ _ _ Hcols). destruct Hc as (_ & _ & _ & Htk & _). clear -Htk.
      induction Htk; cbn; congruence.
    + split_and!; [eapply imported_universe_grows; [apply Hc|done]|done|done].
  - destruct Ht as ((f & Hf & ->) & Hcols). destruct (iterate_universe_spec (fst t) f s Hs Hf) as (u & s1 & c & -> & Hc1 & Hu).
    destruct (iterate_columns_spec u (snd t) vs s1 (proj1 (proj2 Hc1)) Hcols) as (cols & s' & cs & -> & Hc & HF).
    exists u, cols, s', [c], cs. split; [done|]. split; [apply (created_app _ _ _ [f] [] [] vs [c] [] [] cs Hc1 Hc)|]. split; cbn.
    + rewrite (Forall2_length _ _ _ HF), (Forall2_length _ _ _ Hcols). destruct Hc as (_ & _ & _ & Htk & _). clear -Htk.
      induction Htk; cbn; congruence.
    + split; [|done]. exists c. split; [eapply universe_has_grows; [apply Hc|done]|done].
  - destruct Ht as ([f Hf] & -> & -> & Hcols). destruct (import_universe_spec (fst t) f s Hs Hf) as (u & s1 & -> & Hc1 & Hu).
    destruct (import_columns_spec u (snd t) s1 (proj1 (proj2 Hc1)) Hcols) as (cols & s' & -> & Hc & HF).
    exists u, cols, s', [], []. split; [done|]. split; [apply (created_app _ _ _ [] [] [] [] [] [] [] [] Hc1 Hc)|]. split; cbn.
    + by rewrite (Forall2_length _ _ _ HF).
    + split_and!; [eapply imported_universe_grows; [apply Hc|done]|done|done|done].
Qed.

(** The same for lists of tables. *)
Inductive tables_sources (kind : TableKind) : list LegacyTable → list (Flow Key) → list (Flow (Key * Value)) → Prop :=
| sources_nil : tables_sources kind [] [] []
| sources_cons t ts ks vs kss vss : table_sources kind t ks vs → tables_sources kind ts kss vss →
    tables_sources kind (t :: ts) (ks ++ kss) (vs ++ vss).
Inductive tables_hold (kind : TableKind) g : list LegacyTable → list LegacyTable → list (Flow Key) → list (Flow (Key * Value)) → Prop :=
| hold_nil : tables_hold kind g [] [] [] []
| hold_cons t ts i is_ ks vs kss vss : table_holds kind g t i ks vs → tables_hold kind g ts is_ kss vss →
    tables_hold kind g (t :: ts) (i :: is_) (ks ++ kss) (vs ++ vss).
Lemma tables_hold_grows kind g g' ts is_ ks vs : grows g g' → tables_hold kind g ts is_ ks vs → tables_hold kind g' ts is_ ks vs.
Proof. intros Hg. induction 1; constructor; [by eapply table_holds_grows|done]. Qed.
Lemma create_tables_spec kind ts ks vs s : caches_ok s → tables_sources kind ts ks vs →
  ∃ its s' kc vc, create_tables outer kind ts s = (Ok its, s') ∧ map imported_from its = map (from_outer kind) ts ∧
    created s s' ks vs kc vc ∧ tables_hold kind (inner s') ts (extract_handles its) kc vc.
Proof.
  intros Hs Hts. revert s Hs. induction Hts as [|t ts ks vs kss vss Ht _ IH]; intros s Hs.
  { exists [], s, [], []. split; [done|]. split; [done|]. split; [by apply created_nothing|constructor]. }
  destruct (create_table_spec kind t ks vs s Hs Ht) as (u & cols & s1 & kc & vc & E1 & Hc1 & Hh1).
  destruct (IH s1 (proj1 (proj2 Hc1))) as (its & s' & kcs & vcs & E & Ef & Hc & Hh).
  exists (mk_InnerLegacyTable u (from_outer kind t) cols :: its), s', (kc ++ kcs), (vc ++ vcs). split.
  - unfold create_tables in *. cbn [collect_before]. unfold mbind, eff_bind in *. by rewrite E1, E.
  - split; [cbn; by rewrite Ef|]. split; [by eapply created_app|]. cbn. constructor; [|done]. eapply table_holds_grows; [apply Hc|done].
Qed.
End create.

(** ** Finishing the tables that the logic returned *)

Section finish.
Context (g_in : Graph).

Definition column_arranged_as g u (h : ColumnHandle) (f : Flow (Key * Value)) : Prop :=
  arena_get (columns g) h = Some (column_from_arranged u (flow_arrange f)).
Definition universe_arranged_as g (h : UniverseHandle) (f : Flow Key) : Prop :=
  arena_get (universes g) h = Some (UniverseFromArranged (flow_arrange f)).
(** A result of the logic for the inner table [i], and the contents it has. *)
Definition result_leaves (kind : TableKind) (i r : LegacyTable) (ks : list (Flow Key)) (vs : list (Flow (Key * Value))) : Prop :=
  length (snd r) = length (snd i) ∧ Forall2 (column_leaves g_in) (snd r) vs ∧
  match kind with
  | IteratedWithUniverseLegacyTable => ∃ f, universe_leaves g_in (fst r) f ∧ ks = [f]
  | _ => fst r = fst i ∧ ks = []
  end.
(** A table of the outer graph, for the table [t], with the arranged contents. *)
Definition comes_out (kind : TableKind) g (t o : LegacyTable) (ks : list (Flow Key)) (vs : list (Flow (Key * Value))) : Prop :=
  Forall2 (column_arranged_as g (fst o)) (snd o) vs ∧
  match kind with
  | IteratedWithUniverseLegacyTable => ∃ f, universe_arranged_as g (fst o) f ∧ ks = [f]
  | _ => fst o = fst t ∧ ks = []
  end.
Definition finished (a a' : After) (ks : list (Flow Key)) (vs : list (Flow (Key * Value))) : Prop :=
  grows (after_outer a) (after_outer a') ∧ next a' = mk_Vars (var_keys (next a) ++ ks) (var_values (next a) ++ vs).
Lemma finished_nothing a : finished a a [] [].
Proof. split; [reflexivity|]. rewrite !app_nil_r. by destruct (next a). Qed.
Lemma finished_app a1 a2 a3 ks vs ks' vs' : finished a1 a2 ks vs → finished a2 a3 ks' vs' → finished a1 a3 (ks ++ ks') (vs ++ vs').
Proof. intros [Hg E] [Hg' E']. split; [by etrans|]. rewrite E', E. cbn. by rewrite !app_assoc. Qed.
Lemma comes_out_grows kind g g' t o ks vs : grows g g' → comes_out kind g t o ks vs → comes_out kind g' t o ks vs.
Proof.
  intros Hg [Hc Hu]. split.
  - eapply Forall2_impl; [exact Hc|]. intros h f. apply Hg.
  - destruct kind; [done| |done]. destruct Hu as (f & Hf & ->). exists f. split; [by apply Hg|done].
Qed.
Lemma finish_column_spec u h f a : column_leaves g_in h f →
  ∃ oh a', finish_column g_in u h a = (Ok oh, a') ∧ finished a a' [] [f] ∧ column_arranged_as (after_outer a') u oh f.
Proof.
  intros (c & Hc & <-). unfold finish_column, mbind, eff_bind, lift. rewrite Hc. cbn [ok_or]. unfold set_values, modify, on_outer, zoom.
  cbn [after_outer next].
  destruct (alloc_column_grows (column_from_arranged u (flow_arrange (data_consolidated (column_data c)))) (after_outer a)) as (oh & g' & -> & Hg & Hget).
  eexists oh, _. split; [done|]. split; [|exact Hget]. split; [exact Hg|]. cbn. by rewrite app_nil_r.
Qed.
Lemma finish_columns_spec u hs (is_ : list ColumnHandle) fs a : Forall2 (column_leaves g_in) hs fs → length hs = length is_ →
  ∃ ohs a', finish_both (λ h _, finish_column g_in u h) hs is_ a = (Ok ohs, a') ∧ finished a a' [] fs ∧
    Forall2 (column_arranged_as (after_outer a') u) ohs fs.
Proof.
  intros HF. revert is_ a. induction HF as [|h f hs fs Hf _ IH]; intros [|i is_] a; cbn [length]; intros El; try done.
  { exists [], a. split; [done|]. split; [apply finished_nothing|by apply Forall2_nil]. }
  destruct (finish_column_spec u h f a Hf) as (oh & a1 & E1 & Hf1 & Ho).
  destruct (IH is_ a1) as (ohs & a' & E & Hfs & HF'); [lia|]. exists (oh :: ohs), a'.
  cbn [finish_both]. unfold mbind, eff_bind in *. rewrite E1, E. split; [done|]. split; [apply (finished_app a a1 a' [] [f] [] fs Hf1 Hfs)|].
  constructor; [|exact HF']. by apply Hfs.
Qed.
Lemma finish_table_spec kind t it r ks vs a : kind ≠ ExtraLegacyTable → imported_from it = from_outer kind t →
  result_leaves kind (inner_universe it, inner_columns it) r ks vs →
  ∃ o a', finish_table g_in r it a = (Ok o, a') ∧ finished a a' ks vs ∧ comes_out kind (after_outer a') t o ks vs.
Proof.
  intros Hk Hfrom (El & Hcols & Hu). cbn [fst snd] in El, Hu. unfold finish_table, finish_universe. rewrite Hfrom. destruct kind; [| |done]; cbn [from_outer].
  - destruct Hu as [Eu ->]. rewrite decide_True by done. unfold mbind, eff_bind. cbn [mret eff_ret].
    destruct (finish_columns_spec (fst t) (snd r) (inner_columns it) vs a Hcols El) as (ohs & a' & -> & Hf & HF).
    eexists _, a'. split; [done|]. split; [exact Hf|]. by split.
  - destruct Hu as (f & (u & Hu & Ef) & ->). unfold mbind, eff_bind, lift. rewrite Hu. cbn [ok_or]. cbv zeta. rewrite Ef. unfold set_keys, modify, on_outer, zoom.
    cbn [after_outer next].
    destruct (alloc_universe_grows (UniverseFromArranged (flow_arrange f)) (after_outer a)) as (oh & g' & -> & Hg & Hget).
    set (a1 := mk_After g' (mk_Vars (var_keys (next a) ++ [f]) (var_values (next a)))).
    destruct (finish_columns_spec oh (snd r) (inner_columns it) vs a1 Hcols El) as (ohs & a' & E & Hf & HF).
    unfold mbind, eff_bind in E. cbn [next]. fold a1. rewrite E. eexists _, a'. split; [done|]. split.
    + apply (finished_app a a1 a' [f] [] [] vs); [|exact Hf]. split; [exact Hg|]. cbn. by rewrite app_nil_r.
    + split; [exact HF|]. exists f. split; [by apply Hf|done].
Qed.

(** The same for lists. *)
Inductive results_leave (kind : TableKind) : list LegacyTable → list LegacyTable → list (Flow Key) → list (Flow (Key * Value)) → Prop :=
| leave_nil : results_leave kind [] [] [] []
| leave_cons i is_ r rs ks vs kss vss : result_leaves kind i r ks vs → results_leave kind is_ rs kss vss →
    results_leave kind (i :: is_) (r :: rs) (ks ++ kss) (vs ++ vss).
Inductive all_come_out (kind : TableKind) g : list LegacyTable → list LegacyTable → list (Flow Key) → list (Flow (Key * Value)) → Prop :=
| out_nil : all_come_out kind g [] [] [] []
| out_cons t ts o os ks vs kss vss : comes_out kind g t o ks vs → all_come_out kind g ts os kss vss →
    all_come_out kind g (t :: ts) (o :: os) (ks ++ kss) (vs ++ vss).
Lemma all_come_out_grows kind g g' ts os ks vs : grows g g' → all_come_out kind g ts os ks vs → all_come_out kind g' ts os ks vs.
Proof. intros Hg. induction 1; constructor; [by eapply comes_out_grows|done]. Qed.
Lemma finish_tables_spec kind ts its rs ks vs a : kind ≠ ExtraLegacyTable → map imported_from its = map (from_outer kind) ts →
  results_leave kind (extract_handles its) rs ks vs →
  ∃ os a', finish_tables g_in rs its a = (Ok os, a') ∧ finished a a' ks vs ∧ all_come_out kind (after_outer a') ts os ks vs.
Proof.
  intros Hk. revert ts rs ks vs a. induction its as [|it its IH]; intros [|t ts] rs ks vs a Hfrom Hr; try done; inversion Hr; subst.
  { exists [], a. split; [done|]. split; [apply finished_nothing|constructor]. }
  cbn [map] in Hfrom. injection Hfrom as Hf1 Hf2.
  edestruct (finish_table_spec kind t it) as (o & a1 & E1 & Hfin1 & Ho); [exact Hk|exact Hf1|eassumption|].
  edestruct (IH ts) as (os & a' & E & Hfin & Hos); [exact Hf2|eassumption|].
  exists (o :: os), a'. unfold finish_tables in *. cbn [finish_both]. unfold mbind, eff_bind in *. rewrite E1, E. split; [done|].
  split; [by eapply finished_app|]. constructor; [|exact Hos]. eapply comes_out_grows; [apply Hfin|exact Ho].
Qed.
End finish.

(** ** Rounds *)

Lemma lengths_hold outer kind g ts is_ ks vs : kind ≠ ExtraLegacyTable → tables_hold outer kind g ts is_ ks vs →
  length vs = length (concat (map snd is_)) ∧ length ks = match kind with IteratedWithUniverseLegacyTable => length is_ | _ => 0%nat end.
Proof.
  intros Hk. induction 1 as [|t ts i is_ ks vs kss vss Ht _ [IHv IHk]]; [by destruct kind|]. cbn [map concat]. rewrite !length_app, IHv, IHk.
  destruct Ht as [_ Ht]. destruct kind; [| |done].
  - destruct Ht as (_ & -> & Hc). by rewrite (Forall2_length _ _ _ Hc).
  - destruct Ht as ((f & _ & ->) & Hc). by rewrite (Forall2_length _ _ _ Hc).
Qed.
Lemma lengths_leave kind g is_ rs ks vs : kind ≠ ExtraLegacyTable → results_leave g kind is_ rs ks vs →
  length vs = length (concat (map snd is_)) ∧ length ks = match kind with IteratedWithUniverseLegacyTable => length is_ | _ => 0%nat end.
Proof.
  intros Hk. induction 1 as [|i is_ r rs ks vs kss vss Ht _ [IHv IHk]]; [by destruct kind|]. cbn [map concat]. rewrite !length_app, IHv, IHk.
  destruct Ht as (El & Hc & Hu). rewrite <- El, (Forall2_length _ _ _ Hc). destruct kind; [| |done].
  - by destruct Hu as [_ ->].
  - by destruct Hu as (f & _ & ->).
Qed.

Section rounds.
Context (outer : Graph) (iterated iterated_with_universe extra : list LegacyTable).

(** What the logic builds computes [F] of the contents of its tables. *)
Definition implements (F : Vars → Vars) (logic : IterationLogic) : Prop := ∀ g li lw lx ks vs vs',
  tables_hold outer IteratedLegacyTable g iterated li [] vs →
  tables_hold outer IteratedWithUniverseLegacyTable g iterated_with_universe lw ks vs' →
  tables_hold outer ExtraLegacyTable g extra lx [] [] →
  ∃ rs rws g' ks1 vs1 vs1', logic li lw lx g = (Ok (rs, rws), g') ∧ F (mk_Vars ks (vs ++ vs')) = mk_Vars ks1 (vs1 ++ vs1') ∧
    results_leave g' IteratedLegacyTable li rs [] vs1 ∧ results_leave g' IteratedWithUniverseLegacyTable lw rws ks1 vs1'.
(** Tables of the outer graph with the contents [c], arranged. *)
Definition outputs g (out : list LegacyTable * list LegacyTable) (c : Vars) : Prop := ∃ vs vs', var_values c = vs ++ vs' ∧
  all_come_out IteratedLegacyTable g iterated (fst out) [] vs ∧
  all_come_out IteratedWithUniverseLegacyTable g iterated_with_universe (snd out) (var_keys c) vs'.

Context (F : Vars → Vars) (logic : IterationLogic) (Hlogic : implements F logic) (inner_id : Z).
Context (ks : list (Flow Key)) (vs vs' : list (Flow (Key * Value))).
Context (Hiterated : tables_sources outer IteratedLegacyTable iterated [] vs).
Context (Hwith : tables_sources outer IteratedWithUniverseLegacyTable iterated_with_universe ks vs').
Context (Hextra : tables_sources outer ExtraLegacyTable extra [] []).

Definition sources : Vars := mk_Vars ks (vs ++ vs').
(** The variables given to a round and the contents that they take. *)
Definition plays (given c : Vars) : Prop :=
  given = mk_Vars [] [] ∧ c = sources ∨
  given = c ∧ length (var_keys c) = length ks ∧ length (var_values c) = length (vs ++ vs').
Lemma plays_takes gv c uk uv rk rv : plays gv c → Takes (var_keys gv) ks uk rk → Takes (var_values gv) (vs ++ vs') uv rv → c = mk_Vars uk uv.
Proof.
  intros [[-> ->]|(-> & Ek & Ev)] Hk Hv.
  - unfold sources. by rewrite (takes_sources _ _ _ Hk), (takes_sources _ _ _ Hv).
  - destruct (takes_all _ _ _ _ Hk Ek) as [-> _], (takes_all _ _ _ _ Hv Ev) as [-> _]. by destruct c.
Qed.
Lemma takes_length {A} (given src us rest : list A) : Takes given src us rest → length us = length src.
Proof. induction 1; cbn; congruence. Qed.

Definition build : B (list InnerLegacyTable * list InnerLegacyTable * (list LegacyTable * list LegacyTable)) :=
  inner_iterated ← create_tables outer IteratedLegacyTable iterated;
  inner_iterated_with_universe ← create_tables outer IteratedWithUniverseLegacyTable iterated_with_universe;
  inner_extra ← create_tables outer ExtraLegacyTable extra;
  result ← on_inner (logic (extract_handles inner_iterated) (extract_handles inner_iterated_with_universe) (extract_handles inner_extra));
  mret (inner_iterated, inner_iterated_with_universe, result).
Lemma build_spec gv c : plays gv c → ∃ ii iw rs rws s ks1 vs1 vs1',
  build (mk_Before (inner_graph inner_id outer) ∅ ∅ gv (mk_Vars [] [])) = (Ok (ii, iw, (rs, rws)), s) ∧ used s = c ∧
  F c = mk_Vars ks1 (vs1 ++ vs1') ∧
  map imported_from ii = map (from_outer IteratedLegacyTable) iterated ∧
  map imported_from iw = map (from_outer IteratedWithUniverseLegacyTable) iterated_with_universe ∧
  results_leave (inner s) IteratedLegacyTable (extract_handles ii) rs [] vs1 ∧
  results_leave (inner s) IteratedWithUniverseLegacyTable (extract_handles iw) rws ks1 vs1' ∧
  length ks1 = length ks ∧ length (vs1 ++ vs1') = length (vs ++ vs').
Proof.
  intros Hc. unfold build, mbind, eff_bind. set (s0 := mk_Before _ _ _ _ _).
  assert (Hs0 : caches_ok outer s0) by by split.
  destruct (create_tables_spec outer IteratedLegacyTable iterated [] vs s0 Hs0 Hiterated) as (ii & s1 & k1 & v1 & -> & Ei & Hc1 & Hh1).
  destruct (create_tables_spec outer IteratedWithUniverseLegacyTable iterated_with_universe ks vs' s1 (proj1 (proj2 Hc1)) Hwith)
    as (iw & s2 & k2 & v2 & -> & Ew & Hc2 & Hh2).
  destruct (create_tables_spec outer ExtraLegacyTable extra [] [] s2 (proj1 (proj2 Hc2)) Hextra) as (ie & s3 & k3 & v3 & -> & _ & Hc3 & Hh3).
  pose proof (created_app _ _ _ _ _ _ _ _ _ _ _ _ (created_app _ _ _ _ _ _ _ _ _ _ _ _ Hc1 Hc2) Hc3) as (_ & _ & Hk & Hv & Uk & Uv).
  cbn [s0 given used var_keys var_values app] in Hk, Hv, Uk, Uv. rewrite !app_nil_r in Hk, Hv.
  assert (k1 = [] ∧ k3 = [] ∧ v3 = []) as (-> & -> & ->).
  { destruct Hc1 as (_ & _ & Hk1 & _), Hc3 as (_ & _ & Hk3 & Hv3 & _). inversion Hk1; inversion Hk3; inversion Hv3; by subst. }
  rewrite !app_nil_r in *. cbn [app] in *.
  destruct (Hlogic (inner s3) (extract_handles ii) (extract_handles iw) (extract_handles ie) k2 v1 v2) as (rs & rws & g' & ks1 & vs1 & vs1' & El & EF & Hr & Hrw).
  { eapply tables_hold_grows; [apply Hc3|]. eapply tables_hold_grows; [apply Hc2|exact Hh1]. }
  { eapply tables_hold_grows; [apply Hc3|exact Hh2]. }
  { exact Hh3. }
  assert (Ec : c = mk_Vars k2 (v1 ++ v2)) by (eapply plays_takes; eauto).
  unfold on_inner, zoom. rewrite El. cbn [mret eff_ret]. eexists ii, iw, rs, rws, _, ks1, vs1, vs1'. split; [done|]. cbn [used inner].
  destruct (lengths_hold _ IteratedLegacyTable _ _ _ _ _ ltac:(done) Hh1) as [Lv1 _], (lengths_hold _ IteratedWithUniverseLegacyTable _ _ _ _ _ ltac:(done) Hh2) as [Lv2 Lk2].
  destruct (lengths_leave IteratedLegacyTable _ _ _ _ _ ltac:(done) Hr) as [Lr _], (lengths_leave IteratedWithUniverseLegacyTable _ _ _ _ _ ltac:(done) Hrw) as [Lw Lkw].
  split_and!; try done; try (by rewrite Ec).
  - rewrite Ec. destruct (used s3). by cbn in Uk, Uv; subst.
  - rewrite Lkw, <- Lk2. by apply takes_length in Hk.
  - rewrite length_app, Lr, Lw, <- Lv1, <- Lv2, <- length_app. by apply takes_length in Hv.
Qed.
Lemma round_spec gv c : plays gv c → ∃ outs outer',
  iteration_round logic inner_id iterated iterated_with_universe extra outer gv = (Ok outs, outer', (c, F c)) ∧
  grows outer outer' ∧ outputs outer' outs (F c) ∧ plays (F c) (F c).
Proof.
  intros Hc. destruct (build_spec gv c Hc) as (ii & iw & rs & rws & s & ks1 & vs1 & vs1' & E & Eu & EF & Ei & Ew & Hr & Hrw & Lk & Lv).
  unfold iteration_round. cbv zeta. unfold build in E. rewrite E. unfold mbind, eff_bind.
  destruct (finish_tables_spec (inner s) IteratedLegacyTable iterated ii rs [] vs1 (mk_After outer (mk_Vars [] [])) ltac:(done) Ei Hr)
    as (os & a1 & -> & Hf1 & Ho1).
  destruct (finish_tables_spec (inner s) IteratedWithUniverseLegacyTable iterated_with_universe iw rws ks1 vs1' a1 ltac:(done) Ew Hrw)
    as (ows & a2 & -> & Hf2 & Ho2).
  destruct (finished_app _ _ _ _ _ _ _ Hf1 Hf2) as [Hg En]. cbn [mret eff_ret]. cbn in En. exists (os, ows), (after_outer a2). split_and!.
  - by rewrite Eu, En, EF.
  - exact Hg.
  - exists vs1, vs1'. rewrite EF. split; [done|]. split; [|exact Ho2]. eapply all_come_out_grows; [apply Hf2|exact Ho1].
  - right. rewrite EF. by split_and!.
Qed.

(** The loop stops after [n] more rounds: the next one reaches the limit or changes nothing. *)
Definition stops (limit : option Z) (c : Vars) (n : nat) : bool :=
  bool_decide (limit = Some (Z.of_nat (S n))) || same_vars (Nat.iter n F c) (Nat.iter (S n) F c).
Lemma stops_next limit c n : stops (Z.pred <$> limit) (F c) n = stops limit c (S n).
Proof.
  unfold stops. f_equal; [|by rewrite <- !Nat.iter_succ_r]. apply bool_decide_ext. destruct limit as [v|]; cbn [fmap option_fmap option_map]; [|done].
  split; intros [= E]; f_equal; lia.
Qed.
Lemma rounds_spec fuel limit gv c n : plays gv c → stops limit c n = true → (n < fuel)%nat →
  ∃ m outs outer', (m ≤ n)%nat ∧ stops limit c m = true ∧ (∀ i, (i < m)%nat → stops limit c i = false) ∧
    iteration_rounds logic inner_id iterated iterated_with_universe extra fuel limit outer gv = Some (Ok outs, outer') ∧
    grows outer outer' ∧ outputs outer' outs (Nat.iter (S m) F c).
Proof.
  revert limit gv c n. induction fuel as [|fuel IH]; intros limit gv c n Hc Hn Hlt; [lia|].
  destruct (round_spec gv c Hc) as (outs & outer' & E & Hg & Ho & Hnext). cbn [iteration_rounds]. rewrite E.
  destruct (stops limit c 0) eqn:E0.
  - exists 0%nat, outs, outer'. split_and!; [lia|done|intros i; lia| |exact Hg|exact Ho]. unfold stops in E0. cbn [Nat.iter nat_rect] in E0.
    change (Z.of_nat 1) with 1 in E0. by rewrite E0.
  - destruct n as [|n]; [congruence|].
    destruct (IH (Z.pred <$> limit) (F c) (F c) n Hnext) as (m & outs' & outer'' & Hm & Hs & Hbefore & E' & Hg' & Ho'); [by rewrite stops_next|lia|].
    exists (S m), outs', outer''. split_and!; [lia|by rewrite <- stops_next| | |exact Hg'|by rewrite Nat.iter_succ_r].
    + intros [|i] Hi; [done|]. rewrite <- stops_next. apply Hbefore. lia.
    + unfold stops in E0. cbn [Nat.iter nat_rect] in E0. change (Z.of_nat 1) with 1 in E0. by rewrite E0, E'.
Qed.
End rounds.

(** C39: the logic of an iteration computes [F] of the contents of its tables.  Then
    [iterate] returns as soon as its fuel is enough: the contents that the outer tables
    start with go through [F] until a round reaches the limit or changes nothing, and
    the tables that come out hold, arranged, the contents of that round.  All handles
    of the outer graph stay valid. *)
Theorem iterate_reaches_fixpoint outer iterated iterated_with_universe extra (F : Vars → Vars) logic inner_id ks vs vs' limit n fuel :
  implements outer iterated iterated_with_universe extra F logic →
  tables_sources outer IteratedLegacyTable iterated [] vs →
  tables_sources outer IteratedWithUniverseLegacyTable iterated_with_universe ks vs' →
  tables_sources outer ExtraLegacyTable extra [] [] →
  (∀ v, limit = Some v → 1 < v) → stops F limit (sources ks vs vs') n = true → (n < fuel)%nat →
  ∃ m outs outer', (m ≤ n)%nat ∧ stops F limit (sources ks vs vs') m = true ∧
    (∀ i, (i < m)%nat → stops F limit (sources ks vs vs') i = false) ∧
    iterate logic inner_id iterated iterated_with_universe extra fuel limit outer = Some (Ok outs, outer') ∧
    grows outer outer' ∧ outputs iterated iterated_with_universe outer' outs (Nat.iter (S m) F (sources ks vs vs')).
Proof.
  intros Hlogic Hi Hw He Hlim Hn Hlt.
  destruct (rounds_spec outer iterated iterated_with_universe extra F logic Hlogic inner_id ks vs vs' Hi Hw He fuel limit (mk_Vars [] [])
    (sources ks vs vs') n) as (m & outs & outer' & Hm); [by left|exact Hn|exact Hlt|].
  exists m, outs, outer'. destruct Hm as (Hm & Hs & Hb & E & Hg & Ho). split_and!; try done. unfold iterate. destruct limit as [v|]; [|exact E].
  specialize (Hlim v eq_refl). destruct (v <=? 1) eqn:Ev; [lia|exact E].
Qed.
End iterate.

Section witnesses.
Import Concrete.
#[local] Existing Instances release list_arenas list_arena_laws terminating.

(** The logic of the loop: add 5 to the values below 24. *)
Definition step_expression : Expression :=
  EAny (Any_IfElse (EBool (Bool_IntLt (EAny (Any_Argument 0)) (EInt (Int_Const 24))))
    (EInt (Int_Add (EAny (Any_Argument 0)) (EInt (Int_Const 5)))) (EAny (Any_Argument 0))).
Definition step_logic : IterationLogic := λ iterated _ _,
  match iterated with
  | [(u, [c])] => c' ← expression_column step_expression u [c] int_properties; mret ([(u, [c'])], [])
  | _ => lift (Err LengthMismatch)
  end.
Definition step_values (f : Flow (Key * Value)) : Flow (Key * Value) := flow_arrange (expression_rows (TuplesOne f) step_expression).
Definition step_vars (c : Vars) : Vars := mk_Vars (var_keys c) (map step_values (var_values c)).
Definition loop_tables : list LegacyTable := [(universe_handle, [mk_ArenaHandle 2 0])].
Lemma step_implements : implements two_columns_graph loop_tables [] [] step_vars step_logic.
Proof.
  intros g li lw lx ks vs vs' Hi Hw _. inversion Hw; subst. inversion Hi as [|? ? [u cs] ? ks1 vs1 ? ? [El Ht] Hnil]; subst. inversion Hnil; subst.
  destruct Ht as ((f0 & _ & ud & Hu & _) & -> & Hcs). cbn [fst snd app] in *. rewrite !app_nil_r.
  assert (ks1 = []) as -> by (destruct ks1; done). clear Hi Hw Hnil.
  destruct Hcs as [|h f cs fs (c & Hc & Ef) Hcs]; [discriminate El|]. destruct Hcs; [|discriminate El].
  cbn [step_logic]. unfold expression_column, step_expression at 1, tuples, mbind, eff_bind, get_universe.
  rewrite Hu. cbn [ok_or collect]. unfold mbind, eff_bind, get_column. rewrite Hc. cbn [ok_or mret eff_ret].
  match goal with |- context [alloc_column ?col g] => destruct (alloc_column_grows col g) as (h' & g' & -> & _ & Hget) end.
  eexists [(u, [h'])], [], g', [], [step_values f], []. split; [done|]. split; [done|]. split; [|constructor].
  apply (leave_cons _ _ (u, [h]) [] (u, [h']) [] [] [step_values f] [] []); [|constructor]. split; [done|]. split; [|done].
  constructor; [|by apply Forall2_nil]. eexists. split; [exact Hget|]. cbn. by rewrite Ef.
Qed.
Definition first_values : Flow (Key * Value) := Ok (ones (ints [(2, 20); (1, 10)])).
Lemma loop_sources : tables_sources two_columns_graph IteratedLegacyTable loop_tables [] [first_values].
Proof.
  apply (sources_cons _ _ _ [] [] [first_values] [] []); [|constructor]. split; [eexists _, _; split; [vm_compute; reflexivity|done]|].
  split; [done|]. constructor; [|by apply Forall2_nil]. eexists. split; vm_compute; reflexivity.
Qed.
Lemma iterate_reaches_fixpoint_witness :
  ∃ m outs outer', (m ≤ 3)%nat ∧ stops step_vars (Some 9) (sources [] [first_values] []) m = true ∧
    (∀ i, (i < m)%nat → stops step_vars (Some 9) (sources [] [first_values] []) i = false) ∧
    iterate step_logic 7 loop_tables [] [] 4 (Some 9) two_columns_graph = Some (Ok outs, outer') ∧
    grows two_columns_graph outer' ∧ outputs loop_tables [] outer' outs (Nat.iter (S m) step_vars (sources [] [first_values] [])).
Proof.
  apply (iterate_reaches_fixpoint two_columns_graph loop_tables [] [] step_vars step_logic 7 [] [first_values] [] (Some 9) 3 4).
  - exact step_implements.
  - exact loop_sources.
  - constructor.
  - constructor.
  - by intros v [= <-].
  - vm_compute. reflexivity.
  - lia.
Defined.
(** The values after the loop, and after two rounds. *)
Definition loop_values (fuel : nat) (limit : option Z) : option (list Value) :=
  match iterate step_logic 7 loop_tables [] [] fuel limit two_columns_graph with
  | Some (Ok ([(_, [c])], _), g) => (λ c, match column_values c with Ok l => map (λ e, snd (fst e)) l | _ => [] end) <$> arena_get (columns g) c
  | _ => None
  end.
Example loop_results : loop_values 4 (Some 9) = Some [VInt 25; VInt 25] ∧ loop_values 4 None = Some [VInt 25; VInt 25] ∧
  loop_values 4 (Some 2) = Some [VInt 20; VInt 25] ∧ loop_values 3 None = None.
Proof. repeat split; vm_compute; reflexivity. Qed.
Example limit_too_small : fst <$> iterate step_logic 7 loop_tables [] [] 3 (Some 1) two_columns_graph = Some (Err IterationLimitTooSmall).
Proof. reflexivity. Qed.
End witnesses.
