(* ===== verification/S3Snapshot.v ===== *)
(** Input snapshots in a bucket of S3 (S3Writer, S3SnapshotReader and S3SnapshotWriter of
    src/connectors/snapshot.rs): an object for each flush, named by the time at which its
    upload began, with the events in between.

    The client of the bucket is a class of operations on a state.  The writer and its
    uploading thread communicate by a queue of events. *)
From Stdlib Require Import ZArith Lia Bool Ascii.
From stdpp Require Import base list strings gmap.
From S2P Require Import Prelude Effects Order Text Data Timestamp Snapshot Readers.
Open Scope Z_scope.

(** The requests of [s3::Bucket] that change the bucket, and the state in which it
    answers the others. *)
Class S3Client (C : Type) := {
  Part : Type;
  bucket_answers : C → S3Bucket;
  initiate_multipart_upload : C → string → outcome unit (string * string) * C;
  put_multipart_chunk : C → list Z → string → Z → string → outcome unit Part * C;
  complete_multipart_upload : C → string → string → list Part → outcome unit Z * C;
  delete_object : C → string → outcome unit unit * C
}.

Section s3_snapshot.
Context {C : Type} `{S3Client C, Bincode, Profile}.

Definition MAX_CHUNK_LEN : Z := 1000000.
Definition named (command : S3CommandName) {A} (o : outcome unit A) : outcome S3CommandName A := map_err (λ _, command) o.

(** ** [S3Writer] *)

Record S3Writer := mk_S3Writer { writer_key : string; upload_id : string; upload_parts : list Part }.
Abbreviation Upload := (eff C S3CommandName).
(** A request to the bucket, whose failure is reported with the name of the command. *)
Definition request {A} (command : S3CommandName) (call : C → outcome unit A * C) : Upload A := λ s,
  let '(response, s) := call s in (named command response, s).
Definition s3_writer_new (path : string) : Upload S3Writer :=
  ' (key, upload_id) ← request InitiateMultipartUpload (λ s, initiate_multipart_upload s path);
  mret (mk_S3Writer key upload_id []).
(** The serialized entries of a chunk. *)
Fixpoint serialize_entries (buffer : list Event) : outcome S3CommandName (list Z) :=
  match buffer with
  | [] => Ok []
  | entry :: buffer =>
      if serializable entry then chunk ← serialize_entries buffer; Ok (event_bytes entry ++ chunk)
      else Panic "unable to serialize an entry"
  end.
Definition next_part_number (parts : nat) : outcome S3CommandName Z :=
  let parts := Z.of_nat parts in
  if parts <? 2 ^ 32 - 1 then Ok (parts + 1)
  else if (parts =? 2 ^ 32 - 1) && negb overflow_checks then Ok 0
  else Panic "too many upload parts".
Definition put_chunk (w : S3Writer) (buffer : list Event) : Upload S3Writer :=
  chunk ← lift (serialize_entries buffer);
  part_number ← lift (next_part_number (length (upload_parts w)));
  part ← request PutMultipartChunk (λ s, put_multipart_chunk s chunk (writer_key w) part_number (upload_id w));
  mret (mk_S3Writer (writer_key w) (upload_id w) (upload_parts w ++ [part])).
(** The status code is only logged. *)
Definition finalize (w : S3Writer) : Upload unit :=
  _ ← request CompleteMultipartUpload (λ s, complete_multipart_upload s (writer_key w) (upload_id w) (upload_parts w));
  mret tt.

(** ** [S3SnapshotReader] *)

(** [Path::file_name]: the last component, unless it is [..]. *)
Definition path_file_name (path : string) : option string :=
  match last (List.filter (λ c, negb (String.eqb c "" || String.eqb c ".")) (split_on "/" path)) with
  | Some c => if String.eqb c ".." then None else Some c
  | None => None
  end.
(** [s3_reader]: the bytes of the open object that were not read yet, as far as they
    come through. *)
Record S3SnapshotReader := mk_S3SnapshotReader {
  store : C;
  root_path : string;
  s3_reader : option (list Z);
  next_object_idx : nat;
  s3_times_advanced : list Timestamp;
  current_state : option CurrentlyProcessedS3Object;
  current_chunk_len : nat
}.
Definition object_time (object : S3Object) : option Timestamp :=
  name ← path_file_name (s3_key object); timestamp_from_str name.
Definition s3_reader_new (s : C) (path : string) : outcome ReadError S3SnapshotReader :=
  object_lists ← map_err ReadS3 (named ListObjectsV2 (s3_list (bucket_answers s) path));
  Ok (mk_S3SnapshotReader s path None 0 (sort (omap object_time (concat object_lists))) None 0).
Definition object_path (root_path : string) (time : Timestamp) : string := root_path +:+ "/" +:+ timestamp_to_string time.
(** [CurrentlyProcessedS3Object::finalize]; only S3 fails there. *)
Definition finalize_state (state : option CurrentlyProcessedS3Object) : outcome ReadError unit :=
  match state with
  | Some state => map_err (λ e, match e with SeS3 command => ReadS3 command | _ => ReadIo end) (loader_result state)
  | None => Ok tt
  end.
(** The loop of [read]; every iteration returns, closes an object or opens the next one. *)
Fixpoint s3_read_loop (fuel : nat) (r : S3SnapshotReader) : outcome ReadError Event * S3SnapshotReader :=
  match fuel with
  | O => (Panic "out of fuel", r)
  | S fuel =>
      match s3_reader r with
      | Some bytes =>
          match bin_deserialize bytes with
          | DeOk entry rest =>
              (Ok entry, mk_S3SnapshotReader (store r) (root_path r) (Some rest) (next_object_idx r) (s3_times_advanced r)
                           (current_state r) (current_chunk_len r + 1))
          | DeUnexpectedEof =>
              s3_read_loop fuel (mk_S3SnapshotReader (store r) (root_path r) None (next_object_idx r) (s3_times_advanced r)
                                   (current_state r) (current_chunk_len r))
          | DeIo => (Err ReadIo, r)
          | DeError => (Err ReadBincode, r)
          end
      | None =>
          match s3_times_advanced r !! next_object_idx r with
          | None => (Ok Finished, r)
          | Some time =>
              let '(new_current_state, bytes) :=
                stream_object_from_path_and_bucket (object_path (root_path r) time) (bucket_answers (store r)) in
              match finalize_state (current_state r) with
              | Ok _ =>
                  s3_read_loop fuel (mk_S3SnapshotReader (store r) (root_path r) (Some bytes) (next_object_idx r + 1)
                                       (s3_times_advanced r) (Some new_current_state) 0)
              | Err e => (Err e, mk_S3SnapshotReader (store r) (root_path r) None (next_object_idx r) (s3_times_advanced r)
                                   None (current_chunk_len r))
              | Panic p => (Panic p, r)
              end
          end
      end
  end.
Definition s3_read_fuel (r : S3SnapshotReader) : nat := (2 * (length (s3_times_advanced r) - next_object_idx r) + 2)%nat.
Definition s3_read (r : S3SnapshotReader) : outcome ReadError Event * S3SnapshotReader := s3_read_loop (s3_read_fuel r) r.

(** The loop of [truncate]: the entries that were read, copied in chunks; [n] of them
    are missing. *)
Fixpoint copy_entries (n : nat) (bytes : list Z) (current_chunk : list Event) (writer : S3Writer) : Upload (list Event * S3Writer) :=
  match n with
  | O => mret (current_chunk, writer)
  | S n =>
      match bin_deserialize bytes with
      | DeOk entry rest =>
          let current_chunk := current_chunk ++ [entry] in
          if Z.of_nat (length current_chunk) =? MAX_CHUNK_LEN then
            writer ← put_chunk writer current_chunk; copy_entries n rest [] writer
          else copy_entries n rest current_chunk writer
      | _ => mret (current_chunk, writer)
      end
  end.
Definition copy_object (bytes : list Z) (entries : nat) (path : string) : Upload unit :=
  writer ← s3_writer_new path;
  ' (current_chunk, writer) ← copy_entries entries bytes [] writer;
  writer ← match current_chunk with [] => mret writer | _ => put_chunk writer current_chunk end;
  finalize writer.
Fixpoint delete_objects (root_path : string) (times : list Timestamp) : Upload unit :=
  match times with
  | [] => mret tt
  | unreachable_part :: times =>
      _ ← request DeleteObject (λ s, delete_object s (object_path root_path unreachable_part));
      delete_objects root_path times
  end.
(** [truncate] at the time [now] of the clock. *)
Definition s3_truncate_store (now : Z) (r : S3SnapshotReader) : Upload unit :=
  _ ← (if ((0 <? next_object_idx r) && (0 <? current_chunk_len r))%nat then
         match s3_times_advanced r !! (next_object_idx r - 1)%nat with
         | None => lift (Panic "index out of bounds")
         | Some time =>
             s ← gets id;
             let '(_, bytes) := stream_object_from_path_and_bucket (object_path (root_path r) time) (bucket_answers s) in
             copy_object bytes (current_chunk_len r) (root_path r +:+ "/" +:+ int_to_string now)
         end
       else mret tt);
  (if (next_object_idx r - 1 <=? length (s3_times_advanced r))%nat then
     delete_objects (root_path r) (drop (next_object_idx r - 1) (s3_times_advanced r))
   else lift (Panic "range start index out of range for slice")).
Definition s3_truncate (now : Z) (r : S3SnapshotReader) : outcome ReadError unit * S3SnapshotReader :=
  let '(result, s) := s3_truncate_store now r (store r) in
  (map_err ReadS3 result,
   mk_S3SnapshotReader s (root_path r) (s3_reader r) (next_object_idx r) (s3_times_advanced r) (current_state r) (current_chunk_len r)).

(** [now]: the clock at the truncation. *)
Definition S3SnapshotReader_impl (now : Z) : ReadSnapshotEvent S3SnapshotReader := {|
  rse_read r := match s3_read r with (Ok e, r) => Ok (e, r) | (Err e, _) => Err e | (Panic p, _) => Panic p end;
  rse_truncate := s3_truncate now;
  check_threshold_from_metadata _ := true
|}.

(** ** [S3SnapshotWriter] *)

Inductive S3SnapshotWriterEvent :=
| Chunk (chunk : list Event)
| Flush
| Finish.
(** The uploading thread: it begins, has an upload open, or has ended (by [Finish], or by
    a panic). *)
Inductive Uploader := Starting | Uploading (s3_writer : S3Writer) | Ended.
(** The writer with the queue to its thread, and the bucket with the answers that were
    sent to the flushes, which are answered in their order. *)
Record S3SnapshotWriter := mk_S3SnapshotWriter {
  current_chunk : list Event;
  chunk_events : list S3SnapshotWriterEvent;
  uploader : Uploader;
  bucket : C;
  flush_results : list (outcome WriteError unit)
}.
Definition s3_snapshot_writer_new (bucket : C) : S3SnapshotWriter := mk_S3SnapshotWriter [] [] Starting bucket [].
(** [Sender::send]: it fails when the thread has ended. *)
Definition send_event (event : S3SnapshotWriterEvent) (w : S3SnapshotWriter) : outcome WriteError S3SnapshotWriter :=
  match uploader w with
  | Ended => Panic "chunk queue submission should not fail"
  | _ => Ok (mk_S3SnapshotWriter (current_chunk w) (chunk_events w ++ [event]) (uploader w) (bucket w) (flush_results w))
  end.
Definition with_current_chunk (chunk : list Event) (w : S3SnapshotWriter) : S3SnapshotWriter :=
  mk_S3SnapshotWriter chunk (chunk_events w) (uploader w) (bucket w) (flush_results w).
Definition send_chunk (w : S3SnapshotWriter) : outcome WriteError S3SnapshotWriter :=
  send_event (Chunk (current_chunk w)) (with_current_chunk [] w).
Definition s3_write (event : Event) (w : S3SnapshotWriter) : outcome WriteError S3SnapshotWriter :=
  let w := with_current_chunk (current_chunk w ++ [event]) w in
  if Z.of_nat (length (current_chunk w)) =? MAX_CHUNK_LEN then send_chunk w else Ok w.
Definition s3_flush (w : S3SnapshotWriter) : outcome WriteError S3SnapshotWriter :=
  w ← match current_chunk w with [] => Ok w | _ => send_chunk w end;
  send_event Flush w.
Definition s3_drop (w : S3SnapshotWriter) : outcome WriteError S3SnapshotWriter := send_event Finish w.

(** A turn of the uploading thread, with the time at which it starts a new upload. *)
Definition start_upload (chunks_root_path : string) (now : Z) : Upload S3Writer :=
  s3_writer_new (chunks_root_path +:+ "/" +:+ int_to_string now).
(** What an upload leaves: the thread goes on with a new writer, or it panicked. *)
Definition uploading (o : outcome S3CommandName S3Writer) : Uploader := match o with Ok w => Uploading w | _ => Ended end.
Definition upload_turn (chunks_root_path : string) (now : Z) (w : S3SnapshotWriter) : S3SnapshotWriter :=
  match uploader w, chunk_events w with
  | Starting, _ =>
      let '(s3_writer, s) := start_upload chunks_root_path now (bucket w) in
      mk_S3SnapshotWriter (current_chunk w) (chunk_events w) (uploading s3_writer) s (flush_results w)
  | Uploading s3_writer, Chunk chunk :: events =>
      let '(s3_writer, s) := put_chunk s3_writer chunk (bucket w) in
      mk_S3SnapshotWriter (current_chunk w) events (uploading s3_writer) s (flush_results w)
  | Uploading s3_writer, Flush :: events =>
      let '(flush_result, s) := finalize s3_writer (bucket w) in
      let '(s3_writer, s) := start_upload chunks_root_path now s in
      let flush_results := match s3_writer with Ok _ => flush_results w ++ [map_err WriteS3 flush_result] | _ => flush_results w end in
      mk_S3SnapshotWriter (current_chunk w) events (uploading s3_writer) s flush_results
  | Uploading _, Finish :: events => mk_S3SnapshotWriter (current_chunk w) events Ended (bucket w) (flush_results w)
  | Uploading _, [] | Ended, _ => w
  end.

(** The writer, and its thread between its calls. *)
Inductive S3WriterOp := S3Write (event : Event) | S3Flush | S3Upload (now : Z).
Definition s3_writer_op (chunks_root_path : string) (w : S3SnapshotWriter) (op : S3WriterOp) : outcome WriteError S3SnapshotWriter :=
  match op with
  | S3Write event => s3_write event w
  | S3Flush => s3_flush w
  | S3Upload now => Ok (upload_turn chunks_root_path now w)
  end.
Fixpoint run_s3_writer (chunks_root_path : string) (w : S3SnapshotWriter) (ops : list S3WriterOp) : outcome WriteError S3SnapshotWriter :=
  match ops with
  | [] => Ok w
  | op :: ops => w ← s3_writer_op chunks_root_path w op; run_s3_writer chunks_root_path w ops
  end.
End s3_snapshot.
Arguments S3SnapshotReader C : clear implicits.
Arguments S3SnapshotWriter C {_}.
