(* ===== verification/S3SnapshotProps.v ===== *)
(** Snapshots in a bucket: the reader keeps the promise of snapshot readers as long as
    the service answers, and what the writer's flushes reported as stored is replayed. *)
From Stdlib Require Import ZArith Lia Bool Ascii Sorted.
From stdpp Require Import base list strings gmap sorting.
From S2P Require Import Prelude Effects Order Text Data Timestamp Snapshot SnapshotProps Readers S3Snapshot.
Open Scope Z_scope.

(** ** What the service promises *)

(** The contents of a bucket and its uploads in progress, and how the requests change
    them: an object appears when its upload is completed, made of the parts in their
    order; a request that fails leaves the objects as they were, or as if it had not
    failed. *)
Class S3Laws (C : Type) `{S3Client C} := {
  objects : C → gmap string (list Z);
  uploads : C → gmap string (string * list (Part * list Z));
  initiated : ∀ s key response s', initiate_multipart_upload s key = (response, s') →
    objects s' = objects s ∧
    match response with
    | Ok (key', id) => key' = key ∧ uploads s' !! id = Some (key, [])
    | _ => True
    end;
  part_put : ∀ s chunk key n id parts response s', put_multipart_chunk s chunk key n id = (response, s') →
    uploads s !! id = Some (key, parts) → n = Z.of_nat (length parts) + 1 →
    objects s' = objects s ∧
    match response with
    | Ok part => uploads s' !! id = Some (key, parts ++ [(part, chunk)])
    | _ => True
    end;
  completed : ∀ s key id parts response s', complete_multipart_upload s key id (map fst parts) = (response, s') →
    uploads s !! id = Some (key, parts) →
    let done := <[key := concat (map snd parts)]> (objects s) in
    match response with
    | Ok _ => objects s' = done
    | _ => objects s' = objects s ∨ objects s' = done
    end;
  deleted : ∀ s key response s', delete_object s key = (response, s') →
    match response with
    | Ok _ => objects s' = delete key (objects s)
    | _ => objects s' = objects s ∨ objects s' = delete key (objects s)
    end
}.
(** States in which a service answers every request from now on: listings have the keys
    with the prefix, objects come through, and the completion of an upload with parts
    succeeds. *)
Class S3Answers (C : Type) `{S3Laws C} := {
  answering : C → Prop;
  list_answers : ∀ (s : C) prefix, answering s → ∃ lists, s3_list (bucket_answers s) prefix = Ok lists ∧
    NoDup (map s3_key (concat lists)) ∧
    ∀ k, k ∈ map s3_key (concat lists) ↔ is_Some (objects s !! k) ∧ String.prefix prefix k = true;
  get_answers : ∀ (s : C) k bs, answering s → objects s !! k = Some bs → s3_get (bucket_answers s) k = (bs, Ok 200);
  initiate_answers : ∀ (s : C) key, answering s → ∃ r s', initiate_multipart_upload s key = (Ok r, s') ∧ answering s';
  put_answers : ∀ (s : C) chunk key n id, answering s → ∃ p s', put_multipart_chunk s chunk key n id = (Ok p, s') ∧ answering s';
  complete_answers : ∀ (s : C) key id parts, answering s → parts ≠ [] → uploads s !! id = Some (key, parts) →
    ∃ s', complete_multipart_upload s key id (map fst parts) = (Ok 200, s') ∧ answering s';
  delete_answers : ∀ (s : C) key, answering s → ∃ s', delete_object s key = (Ok tt, s') ∧ answering s'
}.

Section s3.
Context {C : Type} `{S3Laws C, BincodeLaws, Profile}.
Implicit Types (s : C) (dir : Directory).

(** ** The objects below a path as a directory *)

(** The objects of the bucket whose keys begin with [root] are the files of [dir]. *)
Record holds (root : string) s dir : Prop := {
  holds_file : ∀ name, objects s !! (root +:+ "/" +:+ name) = dir !! name;
  holds_only : ∀ k, String.prefix root k = true → is_Some (objects s !! k) → ∃ name, k = root +:+ "/" +:+ name
}.
(** The files are whole records of events. *)
Definition whole dir : Prop := names_ok dir ∧ ∀ name bs, dir !! name = Some bs →
  ∃ es, bs = bytes_of es ∧ Forall (λ e, serializable e = true) es.
Lemma whole_ok dir : whole dir → dir_ok dir.
Proof.
  intros [Hn Hw]. split; [done|]. intros name bs Hbs. destruct (Hw name bs Hbs) as (es & -> & Hes).
  by eapply records_decode, records_bytes_of.
Qed.
Lemma append_cancel (a b c : string) : a +:+ b = a +:+ c → b = c.
Proof. induction a as [|x a IH]; [done|]. intros [= E]. by apply IH. Qed.
Lemma path_inj root name name' : root +:+ "/" +:+ name = root +:+ "/" +:+ name' → name = name'.
Proof. intros E%append_cancel. by injection E. Qed.
Lemma prefix_append root (s : string) : String.prefix root (root +:+ s) = true.
Proof. induction root as [|x root IH]; [by destruct s|]. change (String x root +:+ s) with (String x (root +:+ s)). unfold String.prefix; fold String.prefix.
  destruct (ascii_dec x x); [exact IH|congruence].
Qed.
Lemma holds_insert root s s' dir name bs : holds root s dir → objects s' = <[root +:+ "/" +:+ name := bs]> (objects s) →
  holds root s' (<[name := bs]> dir).
Proof.
  intros [Hf Ho] E. split.
  - intros name'. rewrite E. destruct (decide (name' = name)) as [->|Hne]; [by rewrite !lookup_insert_eq|].
    rewrite !lookup_insert_ne; [apply Hf|done|]. intros Ep%path_inj. congruence.
  - intros k Hk. rewrite E. intros [<-|[_ ?]]%lookup_insert_is_Some; [by eexists|by apply Ho].
Qed.
Lemma holds_delete root s s' dir name : holds root s dir → objects s' = delete (root +:+ "/" +:+ name) (objects s) →
  holds root s' (delete name dir).
Proof.
  intros [Hf Ho] E. split.
  - intros name'. rewrite E. destruct (decide (name' = name)) as [->|Hne]; [by rewrite !lookup_delete_eq|].
    rewrite !lookup_delete_ne; [apply Hf|done|]. intros Ep%path_inj. congruence.
  - intros k Hk. rewrite E. intros [? ?]%lookup_delete_is_Some. by apply Ho.
Qed.
Lemma holds_same root s s' dir : holds root s dir → objects s' = objects s → holds root s' dir.
Proof. intros [Hf Ho] E. split; [|]; rewrite E; done. Qed.

(** ** Names *)

Lemma split_on_sep sep a b : split_on sep (a +:+ String sep b) = split_on sep a ++ split_on sep b.
Proof.
  induction a as [|c a IH].
  - change ("" +:+ String sep b) with (String sep b). cbn [split_on]. by rewrite Ascii.eqb_refl.
  - change (String c a +:+ String sep b) with (String c (a +:+ String sep b)). cbn [split_on]. rewrite IH.
    destruct (c =? sep)%char; [done|]. destruct (split_on sep a) as [|p ps] eqn:E; [|done].
    by destruct a as [|c' a]; cbn [split_on] in E; [|destruct (c' =? sep)%char; [|destruct (split_on sep a)]].
Qed.
Lemma time_name t : let name := timestamp_to_string t in
  negb (String.eqb name "" || String.eqb name ".") = true ∧ String.eqb name ".." = false ∧ split_on "/" name = [name].
Proof.
  intros name. assert (Hn : ∀ sep, is_digit sep = false → string_forall (λ c, negb (c =? sep)%char) name = true).
  { intros sep. apply int_to_string_no_sep. lia. }
  split; [|split; [|by apply split_on_none, Hn]].
  - apply negb_true_iff, orb_false_iff. split; apply String.eqb_neq; intros E.
    + unfold name, timestamp_to_string in E. apply (f_equal (parse_int false 0 (Z.of_N (ts_0 t)))) in E. rewrite parse_int_to_string in E by lia. done.
    + specialize (Hn "."%char eq_refl). by rewrite E in Hn.
  - apply String.eqb_neq. intros E. specialize (Hn "."%char eq_refl). by rewrite E in Hn.
Qed.
Lemma file_name_of_time root t : path_file_name (object_path root t) = Some (timestamp_to_string t).
Proof.
  unfold path_file_name, object_path. change (root +:+ "/" +:+ timestamp_to_string t) with (root +:+ String "/"%char (timestamp_to_string t)).
  destruct (time_name t) as (Hn & Hdd & Hs). rewrite split_on_sep, Hs, List.filter_app. cbn [List.filter]. rewrite Hn, last_snoc. by rewrite Hdd.
Qed.

(** ** Uploads *)

(** The writer's upload in progress has the events [es], in parts with some event each. *)
Definition writer_open s (w : S3Writer) (es : list Event) : Prop := ∃ parts,
  uploads s !! upload_id w = Some (writer_key w, parts) ∧ upload_parts w = map fst parts ∧
  concat (map snd parts) = bytes_of es ∧ (length parts ≤ length es)%nat ∧ (es ≠ [] → parts ≠ []).
Lemma writer_new_spec path s r s' : s3_writer_new path s = (r, s') →
  objects s' = objects s ∧ ∀ w, r = Ok w → writer_open s' w [] ∧ writer_key w = path.
Proof.
  unfold s3_writer_new, mbind, eff_bind, request. destruct (initiate_multipart_upload s path) as [r0 s0] eqn:E.
  apply initiated in E as [Ho E]. destruct r0 as [[key id]|e|p]; cbn; intros [= <- <-]; (split; [exact Ho|]); [|done..].
  intros w [= <-]. destruct E as [-> E]. split; [|done]. exists []. split_and!; try done.
Qed.
Lemma serialize_entries_bytes chunk : Forall (λ e, serializable e = true) chunk → serialize_entries chunk = Ok (bytes_of chunk).
Proof. induction 1 as [|e chunk He _ IH]; [done|]. cbn [serialize_entries]. by rewrite He, IH. Qed.
Lemma serialize_entries_ok chunk bytes : serialize_entries chunk = Ok bytes → bytes = bytes_of chunk.
Proof.
  revert bytes. induction chunk as [|e chunk IH]; intros bytes; cbn [serialize_entries]; [by intros [= <-]|].
  destruct (serializable e); [|done]. destruct (serialize_entries chunk) as [b| |]; cbn; [|done..]. intros [= <-]. by rewrite (IH b).
Qed.
Lemma put_chunk_spec w chunk s es r s' : put_chunk w chunk s = (r, s') → chunk ≠ [] → Z.of_nat (length es) < 2 ^ 32 - 1 → writer_open s w es →
  objects s' = objects s ∧ ∀ w', r = Ok w' → writer_open s' w' (es ++ chunk) ∧ writer_key w' = writer_key w.
Proof.
  intros E Hne Hlen (parts & Hu & Hp & Hb & Hl & Hn). unfold put_chunk, mbind, eff_bind, lift in E.
  destruct (serialize_entries chunk) as [bytes| |] eqn:Es; [|by injection E as <- <-..]. apply serialize_entries_ok in Es as ->.
  unfold next_part_number in E. rewrite Hp, length_map in E. destruct (Z.ltb_spec (Z.of_nat (length parts)) (2 ^ 32 - 1)); [|lia].
  unfold request in E. destruct (put_multipart_chunk s (bytes_of chunk) (writer_key w) (Z.of_nat (length parts) + 1) (upload_id w)) as [r0 s0] eqn:E0.
  destruct (part_put _ _ _ _ _ _ _ _ E0 Hu eq_refl) as [Ho Hr]. destruct r0 as [part|e|p]; cbn in E; injection E as <- <-; (split; [exact Ho|]); [|done..].
  intros w' [= <-]. split; [|done]. exists (parts ++ [(part, bytes_of chunk)]). cbn. split_and!.
  - exact Hr.
  - by rewrite map_app.
  - by rewrite map_app, concat_app, Hb, bytes_of_app; cbn; rewrite app_nil_r.
  - rewrite !length_app. destruct chunk; [done|]. cbn. lia.
  - intros _. by destruct parts.
Qed.
Lemma finalize_spec w s es r s' : finalize w s = (r, s') → writer_open s w es →
  let done := <[writer_key w := bytes_of es]> (objects s) in
  (r = Ok tt ∧ objects s' = done) ∨ (r ≠ Ok tt ∧ (objects s' = objects s ∨ objects s' = done)).
Proof.
  intros E (parts & Hu & Hp & Hb & _). unfold finalize, mbind, eff_bind, request in E. rewrite Hp in E.
  destruct (complete_multipart_upload s (writer_key w) (upload_id w) (map fst parts)) as [r0 s0] eqn:E0.
  pose proof (completed _ _ _ _ _ _ E0 Hu) as Hr. cbv zeta in Hr. rewrite Hb in Hr.
  destruct r0; cbn in E; injection E as <- <-; [by left|by right..].
Qed.

(** ** Copying the entries that were read *)

Section answers.
Context `{!S3Answers C}.

Lemma writer_new_ok path s : answering s → ∃ w s', s3_writer_new path s = (Ok w, s') ∧ answering s' ∧ objects s' = objects s ∧ writer_open s' w [] ∧ writer_key w = path.
Proof.
  intros Ha. destruct (s3_writer_new path s) as [r s'] eqn:E. destruct (writer_new_spec _ _ _ _ E) as [Ho Hw].
  assert ((∃ w, r = Ok w) ∧ answering s') as [[w ->] Ha']; [|by exists w, s'; split_and!; try apply Hw].
  unfold s3_writer_new, mbind, eff_bind, request in E. destruct (initiate_answers s path Ha) as ([k id] & s0 & E0 & Ha').
  rewrite E0 in E. cbn in E. injection E as <- <-. split; [by eexists|done].
Qed.
Lemma put_chunk_ok w chunk s es : chunk ≠ [] → Forall (λ e, serializable e = true) chunk → Z.of_nat (length es) < 2 ^ 32 - 1 → writer_open s w es → answering s →
  ∃ w' s', put_chunk w chunk s = (Ok w', s') ∧ answering s' ∧ objects s' = objects s ∧ writer_open s' w' (es ++ chunk) ∧ writer_key w' = writer_key w.
Proof.
  intros Hne Hc Hlen Hw Ha. destruct (put_chunk w chunk s) as [r s'] eqn:E. destruct (put_chunk_spec _ _ _ _ _ _ E Hne Hlen Hw) as [Ho Hw'].
  assert ((∃ w', r = Ok w') ∧ answering s') as [[w' ->] Ha']; [|by exists w', s'; split_and!; try apply Hw'].
  destruct Hw as (parts & _ & Hp & _ & Hl & _). unfold put_chunk, mbind, eff_bind, lift in E. rewrite serialize_entries_bytes in E by done.
  unfold next_part_number in E. rewrite Hp, length_map in E. destruct (Z.ltb_spec (Z.of_nat (length parts)) (2 ^ 32 - 1)); [|lia].
  unfold request in E. destruct (put_answers s (bytes_of chunk) (writer_key w) (Z.of_nat (length parts) + 1) (upload_id w) Ha) as (part & s0 & E0 & Ha').
  rewrite E0 in E. cbn in E. injection E as <- <-. split; [by eexists|done].
Qed.
Lemma finalize_ok w s es : es ≠ [] → writer_open s w es → answering s →
  ∃ s', finalize w s = (Ok tt, s') ∧ answering s' ∧ objects s' = <[writer_key w := bytes_of es]> (objects s).
Proof.
  intros Hne Hw Ha. destruct (finalize w s) as [r s'] eqn:E. exists s'.
  assert (r = Ok tt ∧ answering s') as [-> Ha'].
  { destruct Hw as (parts & Hu & Hp & _ & _ & Hn). unfold finalize, mbind, eff_bind, request in E. rewrite Hp in E.
    destruct (complete_answers s (writer_key w) (upload_id w) parts Ha (Hn Hne) Hu) as (s0 & E0 & Ha'). rewrite E0 in E. cbn in E. by injection E as <- <-. }
  destruct (finalize_spec _ _ _ _ _ E Hw) as [[_ Ho]|[Hr _]]; done.
Qed.

Lemma copy_entries_ok n bytes chunk w s es evs d : decode bytes = (evs, d) → (n ≤ length evs)%nat →
  Forall (λ e, serializable e = true) (chunk ++ evs) → Z.of_nat (length (es ++ chunk ++ evs)) < 2 ^ 32 - 1 → writer_open s w es → answering s →
  ∃ chunk' w' s' es', copy_entries n bytes chunk w s = (Ok (chunk', w'), s') ∧ answering s' ∧ objects s' = objects s ∧ writer_open s' w' es' ∧
    writer_key w' = writer_key w ∧ es' ++ chunk' = es ++ chunk ++ take n evs ∧ Forall (λ e, serializable e = true) chunk'.
Proof.
  revert bytes chunk w s es evs. induction n as [|n IH]; intros bytes chunk w s es evs Hd Hn Hs Hlen Hw Ha.
  { exists chunk, w, s, es. apply Forall_app in Hs as [Hs _]. split_and!; try done. by rewrite take_0, app_nil_r. }
  rewrite decode_step in Hd. cbn [copy_entries]. destruct (bin_deserialize bytes) as [e rest| | |] eqn:Eb; [|injection Hd as <- <-; cbn in Hn; lia..].
  destruct (decode rest) as [evs' d'] eqn:Er. injection Hd as <- <-. cbn [length] in Hn. rewrite cons_middle, app_assoc in Hs.
  assert (Hlen' : Z.of_nat (length (es ++ (chunk ++ [e]) ++ evs')) < 2 ^ 32 - 1) by (rewrite !length_app in *; cbn in *; lia).
  destruct (_ =? _).
  - apply Forall_app in Hs as [Hs1 Hs2].
    destruct (put_chunk_ok w (chunk ++ [e]) s es) as (w1 & s1 & E1 & Ha1 & Ho1 & Hw1 & Hk1); [by destruct chunk|done|rewrite !length_app in Hlen; lia|done|done|].
    unfold mbind, eff_bind. rewrite E1.
    destruct (IH rest [] w1 s1 (es ++ chunk ++ [e]) evs' Er) as (chunk' & w' & s' & es' & E & Ha' & Ho & Hw' & Hk & Ev & Hs'); [lia|done|by rewrite <- app_assoc|done|done|].
    exists chunk', w', s', es'. split_and!; [exact E|done|congruence|done|congruence| |done]. by rewrite Ev, <- !app_assoc.
  - destruct (IH rest (chunk ++ [e]) w s es evs' Er) as (chunk' & w' & s' & es' & E & Ha' & Ho & Hw' & Hk & Ev & Hs'); [lia|done|done|done|done|].
    exists chunk', w', s', es'. split_and!; try done. by rewrite Ev, <- !app_assoc.
Qed.
Lemma copy_object_ok bytes n path s evs d : decode bytes = (evs, d) → (0 < n ≤ length evs)%nat →
  Forall (λ e, serializable e = true) evs → Z.of_nat (length evs) < 2 ^ 32 - 1 → answering s →
  ∃ s', copy_object bytes n path s = (Ok tt, s') ∧ answering s' ∧ objects s' = <[path := bytes_of (take n evs)]> (objects s).
Proof.
  intros Hd Hn Hs Hlen Ha. unfold copy_object, mbind, eff_bind.
  destruct (writer_new_ok path s Ha) as (w & s1 & -> & Ha1 & Ho1 & Hw1 & Hk1).
  destruct (copy_entries_ok n bytes [] w s1 [] evs d Hd (proj2 Hn) Hs Hlen Hw1 Ha1) as (chunk & w2 & s2 & es2 & -> & Ha2 & Ho2 & Hw2 & Hk2 & Ev & Hc).
  cbn [app] in Ev. assert (Hne : take n evs ≠ []) by (destruct n, evs; cbn in *; try lia; done).
  assert (Hl : (length es2 + length chunk = length (take n evs))%nat) by (by rewrite <- length_app, Ev). rewrite length_take in Hl.
  destruct chunk as [|e chunk].
  - cbn [mret eff_ret]. rewrite app_nil_r in Ev. subst es2. destruct (finalize_ok w2 s2 _ Hne Hw2 Ha2) as (s' & -> & Ha' & Ho).
    exists s'. split; [done|]. split; [done|]. by rewrite Ho, Hk2, Hk1, Ho2, Ho1.
  - destruct (put_chunk_ok w2 (e :: chunk) s2 es2) as (w3 & s3 & -> & Ha3 & Ho3 & Hw3 & Hk3); [done|done|lia|done|done|].
    rewrite Ev in Hw3. destruct (finalize_ok w3 s3 _ Hne Hw3 Ha3) as (s' & -> & Ha' & Ho).
    exists s'. split; [done|]. split; [done|]. by rewrite Ho, Hk3, Hk2, Hk1, Ho3, Ho2, Ho1.
Qed.

(** ** The reader does what a local reader of the directory does *)

Definition same_bytes (b : option (list Z)) (f : option (nat * list Z)) : Prop := b = snd <$> f.
Record like (dir : Directory) (r : S3SnapshotReader C) (l : LocalBinarySnapshotReader) : Prop := {
  like_dir : root_dir l = dir;
  like_idx : next_object_idx r = next_file_idx l;
  like_times : s3_times_advanced r = times_advanced l;
  like_bytes : same_bytes (s3_reader r) (reader l);
  like_loader : finalize_state (current_state r) = Ok tt
}.
(** [current_chunk_len] counts the events that were read from the open object. *)
Definition chunk_ok dir (r : S3SnapshotReader C) : Prop :=
  match next_object_idx r with
  | O => current_chunk_len r = 0%nat
  | S i => ∃ t used bytes es, s3_times_advanced r !! i = Some t ∧ dir !! timestamp_to_string t = Some (used ++ bytes) ∧
      records used es ∧ current_chunk_len r = length es ∧
      match s3_reader r with Some b => b = bytes | None => events_in bytes = [] end
  end.
Lemma events_in_eof bytes : bin_deserialize bytes = DeUnexpectedEof → events_in bytes = [].
Proof. intros E. unfold events_in. by rewrite decode_step, E. Qed.
(** The loop goes on with another state. *)
Ltac loop_again IH E :=
  match goal with |- context [s3_read_loop _ ?r1] =>
    match type of E with local_read_loop _ ?l1 = _ =>
      let r' := fresh "r'" in let Er := fresh "Er" in
      destruct (IH r1 l1) as (r' & Er & ?); [try by split|cbn|cbn; try done|try done|try done|exact E|exists r'; split; [exact Er|done]]
    end end.
Lemma s3_loop_like dir fuel r l e l' : like dir r l → chunk_ok dir r → (s3_reader r ≠ None → next_object_idx r ≠ 0%nat) →
  holds (root_path r) (store r) dir → answering (store r) → local_read_loop fuel l = Ok (e, l') →
  ∃ r', s3_read_loop fuel r = (Ok e, r') ∧ like dir r' l' ∧ chunk_ok dir r' ∧ (s3_reader r' ≠ None → next_object_idx r' ≠ 0%nat) ∧
    root_path r' = root_path r ∧ store r' = store r.
Proof.
  revert r l. induction fuel as [|fuel IH]; intros r l [Hd Hi Ht Hb Hl] Hc Hidx Hh Ha; [done|]. cbn [local_read_loop s3_read_loop].
  unfold same_bytes in Hb. destruct (reader l) as [[len bytes]|] eqn:Er; cbn in Hb; rewrite Hb.
  - specialize (Hidx ltac:(by rewrite Hb)). destruct (bin_deserialize bytes) as [e0 rest| | |] eqn:Eb; [| |done..].
    + intros [= -> <-]. eexists. split; [done|]. cbn. split_and!; try done.
      unfold chunk_ok in *. cbn. destruct (next_object_idx r) as [|i]; [done|]. destruct Hc as (t & used & bytes0 & es & ? & ? & ? & -> & Hbs).
      rewrite Hb in Hbs. subst bytes0. destruct (records_deserialized _ _ _ Eb) as (used' & -> & Hu').
      exists t, (used ++ used'), rest, (es ++ [e]). rewrite <- app_assoc, length_app. cbn. split_and!; try done; try lia. by apply records_app.
    + intros E. loop_again IH E.
      unfold chunk_ok in *. cbn. destruct (next_object_idx r) as [|i]; [done|]. destruct Hc as (t & used & bytes0 & es & ? & ? & ? & ? & Hbs).
      rewrite Hb in Hbs. subst bytes0. exists t, used, bytes, es. split_and!; try done. by apply events_in_eof.
  - rewrite Ht, Hi. destruct (times_advanced l !! next_file_idx l) as [t|] eqn:Et.
    + rewrite Hd. destruct (dir !! timestamp_to_string t) as [bytes|] eqn:Ef; [|done]. intros E.
      unfold stream_object_from_path_and_bucket. rewrite (get_answers (store r) (object_path (root_path r) t) bytes Ha).
      2: { unfold object_path. by rewrite (holds_file _ _ _ Hh). }
      rewrite Hl. loop_again IH E.
      * split; cbn; try done. lia.
      * unfold chunk_ok. cbn. rewrite Nat.add_1_r. exists t, [], bytes, []. split_and!; try done. apply records_nil.
      * intros _. lia.
    + intros [= <- <-]. exists r. split; [done|]. split; [|by split_and!]. split; [done..| |done]. unfold same_bytes. by rewrite Er, Hb.
Qed.

(** ** What the reader promises *)

(** The clock is past the times of the objects. *)
Definition clock_after (now : Z) dir : Prop := in_u64 now = true ∧ ∀ t, t ∈ dir_times dir → Z.of_N (ts_0 t) < now.
Definition s3_state (now : Z) (r : S3SnapshotReader C) (consumed pending : list Event) : Prop := ∃ dir l,
  holds (root_path r) (store r) dir ∧ answering (store r) ∧ whole dir ∧ clock_after now dir ∧ Z.of_nat (length (snapshot_events dir)) < 2 ^ 32 - 1 ∧
  like dir r l ∧ local_state l consumed pending ∧ chunk_ok dir r ∧ (s3_reader r ≠ None → next_object_idx r ≠ 0%nat).
Definition s3_stored (r : S3SnapshotReader C) (es : list Event) : Prop := ∃ dir,
  holds (root_path r) (store r) dir ∧ whole dir ∧ snapshot_events dir = es.
Lemma s3_read_spec now r consumed pending : s3_state now r consumed pending →
  ∃ r', s3_read r = (Ok (default Finished (head pending)), r') ∧ s3_state now r' (consumed ++ option_list (head pending)) (tail pending) ∧
    root_path r' = root_path r.
Proof.
  intros (dir & l & Hh & Ha & Hw & Hclk & Hlen & Hlike & Hl & Hc & Hidx).
  destruct (local_read_spec l consumed pending Hl) as (l' & E & Hl'). unfold local_read in E.
  replace (local_read_fuel l) with (s3_read_fuel r) in E.
  2: { unfold s3_read_fuel, local_read_fuel. by rewrite (like_idx _ _ _ Hlike), (like_times _ _ _ Hlike). }
  destruct (s3_loop_like dir _ r l _ l' Hlike Hc Hidx Hh Ha E) as (r' & Er & Hlike' & Hc' & Hidx' & Eroot & Estore).
  exists r'. split; [exact Er|]. split; [|done]. exists dir, l'. rewrite Eroot, Estore. by split_and!.
Qed.

(** The events read from the open object, the [i]-th. *)
Lemma s3_consumed now r consumed pending : s3_state now r consumed pending → ∃ dir, holds (root_path r) (store r) dir ∧ answering (store r) ∧ whole dir ∧
  clock_after now dir ∧ s3_times_advanced r = dir_times dir ∧ (next_object_idx r ≤ length (dir_times dir))%nat ∧
  match next_object_idx r with
  | O => consumed = [] ∧ current_chunk_len r = 0%nat
  | S i => ∃ t bytes fes, dir_times dir !! i = Some t ∧ dir !! timestamp_to_string t = Some bytes ∧ decode bytes = (fes, DeUnexpectedEof) ∧
      (current_chunk_len r ≤ length fes)%nat ∧ Z.of_nat (length fes) < 2 ^ 32 - 1 ∧ Forall (λ e, serializable e = true) fes ∧
      consumed = events_of dir (take i (dir_times dir)) ++ take (current_chunk_len r) fes
  end.
Proof.
  intros (dir & l & Hh & Ha & Hw & Hclk & Hlen & [Hd Hi Ht Hb _] & (Hok & Hts & Hil & Hpos) & Hc & Hidx). subst dir.
  exists (root_dir l). rewrite Ht, Hi, Hts. do 5 (split; [done|]). split; [congruence|]. unfold chunk_ok in Hc. rewrite Hi, Ht in Hc.
  unfold same_bytes in Hb. destruct (next_file_idx l) as [|i].
  { split; [|done]. destruct (reader l) as [[len b]|]; [|by destruct Hpos as [-> _]]. by destruct Hpos as (i & ? & ? & ? & ? & _). }
  destruct Hc as (t & used & bytes & es & Hti & Hf & Hu & Hlen' & Hbytes). rewrite Hts in Hti.
  destruct (proj2 Hw _ _ Hf) as (fes & Efes & Hser). exists t, (used ++ bytes), fes. rewrite Efes.
  assert (Hdec : decode (bytes_of fes) = (fes, DeUnexpectedEof)).
  { destruct (records_decode _ _ (records_bytes_of fes Hser)) as [E1 E2]. unfold events_in, clean in *. by destruct (decode (bytes_of fes)); cbn in *; subst. }
  assert (Ees : fes = es ++ events_in bytes).
  { pose proof (Hu bytes) as E. rewrite Efes, Hdec in E. by injection E. }
  assert (Efile : file_events (root_dir l) t = fes) by (unfold file_events; rewrite Hf, Efes; cbn; unfold events_in; by rewrite Hdec).
  assert (Hle : (length fes ≤ length (snapshot_events (root_dir l)))%nat).
  { unfold snapshot_events. rewrite <- (take_drop i (dir_times (root_dir l))), events_of_app, (events_of_drop _ _ _ _ Hti), Efile, !length_app. lia. }
  split_and!; try done.
  - by rewrite <- Efes.
  - rewrite Hlen', Ees, length_app. lia.
  - lia.
  - rewrite Hlen', Ees, take_app_length. destruct (reader l) as [[len b]|]; cbn in Hb; rewrite Hb in Hbytes.
    + subst b. destruct Hpos as (i' & t' & used' & es' & [= <-] & Hti' & Hf' & _ & Hu' & -> & _). rewrite Hts in Hti'.
      rewrite Hti in Hti'. injection Hti' as <-. rewrite Hf in Hf'. injection Hf' as Hused%app_inv_tail. subst used'.
      apply records_decode in Hu as [Hu _], Hu' as [Hu' _]. congruence.
    + destruct Hpos as [-> _]. rewrite Hts, (events_of_take_S _ _ _ _ Hti), Efile, Ees, Hbytes, app_nil_r. done.
Qed.

(** ** Truncation *)

Lemma delete_objects_ok root times s dir dir' : holds root s dir → answering s → remove_files dir times = (Ok tt, dir') →
  ∃ s', delete_objects root times s = (Ok tt, s') ∧ holds root s' dir'.
Proof.
  revert s dir. induction times as [|t times IH]; intros s dir Hh Ha; cbn [remove_files delete_objects]; [intros [= <-]; by exists s|].
  destruct (dir !! timestamp_to_string t); [|done]. intros Hrm. unfold mbind, eff_bind, request.
  destruct (delete_answers s (object_path root t) Ha) as (s0 & E & Ha0). rewrite E.
  cbn [named map_err]. apply deleted in E. apply (IH s0 (delete (timestamp_to_string t) dir)); [|done..]. by apply (holds_delete root s).
Qed.
Lemma remove_files_insert dir times dir' name bs : remove_files dir times = (Ok tt, dir') → name ∉ map timestamp_to_string times →
  remove_files (<[name := bs]> dir) times = (Ok tt, <[name := bs]> dir').
Proof.
  revert dir. induction times as [|t times IH]; intros dir; cbn [remove_files map]; [by intros [= ->]|].
  intros Hrm [Hne Hn]%not_elem_of_cons. rewrite lookup_insert_ne by done. destruct (dir !! timestamp_to_string t); [|done].
  rewrite <- (IH (delete (timestamp_to_string t) dir)); [|done..]. f_equal. by apply delete_insert_ne.
Qed.
Lemma now_name now dir : clock_after now dir → let t := mk_Timestamp (Z.to_N now) in
  int_to_string now = timestamp_to_string t ∧ timestamp_from_str (timestamp_to_string t) = Some t ∧ ∀ t0, t0 ∈ dir_times dir → cmp t0 t = Lt.
Proof.
  intros [Hnow Hlt] t. destruct (clock_timestamp now Hnow) as [E1 E2]. split; [done|]. split; [unfold t; by rewrite <- E1|].
  intros t0 Ht0%Hlt. unfold cmp, Timestamp_ord. cbn. pose proof (proj1 (in_u64_spec now) Hnow). rewrite Z2N.id by lia. by apply Z.compare_lt_iff.
Qed.
Lemma whole_taken dir dir' n : whole dir → dir_ok dir' → dir_times dir' = take n (dir_times dir) →
  (∀ t, t ∈ take n (dir_times dir) → dir' !! timestamp_to_string t = dir !! timestamp_to_string t) → whole dir'.
Proof.
  intros [Hn Hw] [Hn' _] Hts Hsame. split; [done|]. intros name bs Hbs. destruct (Hn' name) as (t & _ & ->); [by eexists|].
  apply (Hw (timestamp_to_string t)). rewrite <- Hsame; [done|]. rewrite <- Hts. apply elem_of_dir_times; [done|by eexists].
Qed.
Lemma taken_elem {A} (x : A) n l : x ∈ take n l → x ∈ l.
Proof. intros Hx. rewrite <- (take_drop n l), elem_of_app. by left. Qed.
(** Replacing the objects from the [i]-th on by a copy of what was read of it. *)
Lemma replace_by_copy now root s dir i dir' t bytes fes d n : holds root s dir → whole dir → clock_after now dir → answering s →
  remove_files dir (drop i (dir_times dir)) = (Ok tt, dir') → dir_ok dir' → whole dir' → dir_times dir' = take i (dir_times dir) →
  dir_times dir !! i = Some t → decode bytes = (fes, d) → (0 < n ≤ length fes)%nat → Z.of_nat (length fes) < 2 ^ 32 - 1 →
  Forall (λ e, serializable e = true) fes →
  ∃ s1 s2 dir2, copy_object bytes n (root +:+ "/" +:+ int_to_string now) s = (Ok tt, s1) ∧
    delete_objects root (drop i (dir_times dir)) s1 = (Ok tt, s2) ∧ holds root s2 dir2 ∧ whole dir2 ∧
    snapshot_events dir2 = snapshot_events dir' ++ take n fes.
Proof.
  intros Hh Hw Hclk Ha Hrm Hok' Hw' Hts' Hti Hdec Hn Hlen Hser. destruct (now_name now dir Hclk) as (Enow & Hparse & Hlast).
  destruct (copy_object_ok bytes n (root +:+ "/" +:+ int_to_string now) s fes _ Hdec Hn Hser Hlen Ha) as (s1 & Ec & Ha1 & Ho1).
  set (es := take n fes) in *. set (name := timestamp_to_string (mk_Timestamp (Z.to_N now))) in *.
  rewrite Enow in Ho1. pose proof (holds_insert _ _ _ _ _ _ Hh Ho1) as Hh1.
  assert (Hnew : name ∉ map timestamp_to_string (drop i (dir_times dir))).
  { intros (t0 & Et & Hin)%list_elem_of_fmap. apply timestamp_to_string_inj in Et as <-.
    assert (Hin' : mk_Timestamp (Z.to_N now) ∈ dir_times dir) by (rewrite <- (take_drop i (dir_times dir)), elem_of_app; by right).
    apply Hlast in Hin'. by rewrite cmp_refl in Hin'. }
  destruct (delete_objects_ok _ _ _ _ _ Hh1 Ha1 (remove_files_insert _ _ _ name (bytes_of es) Hrm Hnew)) as (s2 & Ed & Hh2).
  exists s1, s2, (<[name := bytes_of es]> dir'). split; [exact Ec|]. split; [exact Ed|]. split; [exact Hh2|].
  assert (Hes : Forall (λ e, serializable e = true) es) by by apply Forall_take.
  destruct (snapshot_events_insert dir' (mk_Timestamp (Z.to_N now)) (bytes_of es) Hok' Hparse) as [[Hn2 _] Hev2].
  { intros t0. rewrite Hts'. intros Ht0%taken_elem. by apply Hlast. }
  { by eapply records_decode, records_bytes_of. }
  split; [split; [exact Hn2|]|].
  - intros x bs [[_ <-]|[_ Hbs]]%lookup_insert_Some; [by exists es|by apply (proj2 Hw' x)].
  - unfold name. rewrite Hev2. f_equal. by destruct (records_decode _ _ (records_bytes_of es Hes)).
Qed.
Lemma s3_truncate_spec now r consumed pending : s3_state now r consumed pending →
  ∃ r', s3_truncate now r = (Ok tt, r') ∧ s3_stored r' consumed ∧ root_path r' = root_path r.
Proof.
  intros Hs. destruct (s3_consumed _ _ _ _ Hs) as (dir & Hh & Ha & Hw & Hclk & Ht & Hil & Hpos). unfold s3_truncate, s3_truncate_store.
  set (i := (next_object_idx r - 1)%nat).
  destruct (truncated_dir dir dir i (whole_ok _ Hw)) as (dir' & Hrm & Hok' & Hts' & Hsame); [done|intros t bs _; apply (whole_ok _ Hw)|].
  pose proof (whole_taken _ _ _ Hw Hok' Hts' Hsame) as Hw'.
  assert (Hev : snapshot_events dir' = events_of dir (take i (dir_times dir))) by (unfold snapshot_events; rewrite Hts'; by apply events_of_ext).
  rewrite Ht. destruct (Nat.leb_spec i (length (dir_times dir))); [|lia]. unfold mbind, eff_bind, mret, eff_ret.
  destruct (((0 <? next_object_idx r) && (0 <? current_chunk_len r))%nat) eqn:Eb.
  - apply andb_prop in Eb as [Eb1 Eb2]. apply Nat.ltb_lt in Eb1, Eb2. destruct (next_object_idx r) as [|i'] eqn:Ei; [lia|].
    replace i with i' in * by lia. destruct Hpos as (t & bytes & fes & Hti & Hf & Hdec & Hle & Hlen & Hser & ->). rewrite Hti. unfold gets, id.
    unfold stream_object_from_path_and_bucket. rewrite (get_answers (store r) (object_path (root_path r) t) bytes Ha).
    2: { unfold object_path. by rewrite (holds_file _ _ _ Hh). }
    destruct (replace_by_copy now _ _ _ i' dir' t bytes fes _ (current_chunk_len r) Hh Hw Hclk Ha Hrm Hok' Hw' Hts' Hti Hdec ltac:(lia) Hlen Hser)
      as (s1 & s2 & dir2 & Ec & Ed & Hh2 & Hw2 & Hev2).
    rewrite Ec, Ed. eexists. split; [done|]. split; [|done]. exists dir2. split_and!; [exact Hh2|done|]. by rewrite Hev2, Hev.
  - destruct (delete_objects_ok _ _ _ _ _ Hh Ha Hrm) as (s1 & Ed & Hh1). rewrite Ed. eexists. split; [done|]. split; [|done].
    exists dir'. split; [exact Hh1|]. split; [done|].
    rewrite Hev. apply andb_false_iff in Eb. destruct (next_object_idx r) as [|i']; [by destruct Hpos as [-> _]|].
    destruct Eb as [Eb|Eb]; [done|]. apply Nat.ltb_ge in Eb. destruct Hpos as (t & bytes & fes & _ & _ & _ & _ & _ & _ & ->).
    replace (current_chunk_len r) with 0%nat by lia. unfold i. cbn [take]. by rewrite Nat.sub_succ, Nat.sub_0_r, app_nil_r.
Qed.

(** The reader keeps the promise of [ReadSnapshotLaws] and [TruncateSnapshotLaws]. *)
Section laws.
Context (now : Z).
#[global] Program Definition s3_reader_laws : @ReadSnapshotLaws (S3SnapshotReader C) (S3SnapshotReader_impl now) :=
  Build_ReadSnapshotLaws _ _ (s3_state now) _ _.
Next Obligation.
  intros r c e p Hs. destruct (s3_read_spec _ _ _ _ Hs) as (r' & E & Hs' & _). exists r'. split; [|exact Hs'].
  cbv [rse_read S3SnapshotReader_impl]. by rewrite E.
Qed.
Next Obligation.
  intros r c Hs. destruct (s3_read_spec _ _ _ _ Hs) as (r' & E & Hs' & _). exists r'.
  cbn [head tail default option_list] in E, Hs'. rewrite app_nil_r in Hs'. split; [|exact Hs']. cbv [rse_read S3SnapshotReader_impl]. by rewrite E.
Qed.
Program Definition s3_truncate_laws : @TruncateSnapshotLaws (S3SnapshotReader C) (S3SnapshotReader_impl now) s3_reader_laws :=
  Build_TruncateSnapshotLaws _ _ _ s3_stored _ _ _.
Next Obligation.
  intros r c p (dir & l & Hh & _ & Hw & _ & _ & Hlike & Hl & _). exists dir. split; [done|]. split; [done|].
  rewrite <- (like_dir _ _ _ Hlike). by apply local_state_stored.
Qed.
Next Obligation.
  intros r c p Hs. destruct (s3_truncate_spec _ _ _ _ Hs) as (r' & E & Hst & _). exists r'. by split.
Qed.
Next Obligation. done. Qed.
End laws.

Lemma omap_compose {A B D} (f : A → option B) (g : D → A) l : omap (λ x, f (g x)) l = omap f (map g l).
Proof. induction l as [|x l IH]; [done|]. cbn. rewrite IH. by destruct (f (g x)). Qed.
Lemma s3_new_spec now s root dir : answering s → holds root s dir → whole dir → clock_after now dir →
  Z.of_nat (length (snapshot_events dir)) < 2 ^ 32 - 1 →
  ∃ r, s3_reader_new s root = Ok r ∧ s3_state now r [] (snapshot_events dir) ∧ root_path r = root.
Proof.
  intros Ha Hh Hw Hclk Hlen. unfold s3_reader_new. destruct (list_answers s root Ha) as (lists & -> & Hnd & Hin). cbn.
  assert (Hkey : ∀ k, k ∈ map s3_key (concat lists) ↔ ∃ t, k = object_path root t ∧ is_Some (dir !! timestamp_to_string t) ∧ timestamp_from_str (timestamp_to_string t) = Some t).
  { intros k. rewrite Hin. split.
    - intros [Hs Hp]. destruct (holds_only _ _ _ Hh k Hp Hs) as (name & ->). rewrite (holds_file _ _ _ Hh) in Hs.
      destruct (proj1 Hw name Hs) as (t & Ht & ->). by exists t.
    - intros (t & -> & Hs & _). unfold object_path. rewrite (holds_file _ _ _ Hh). split; [done|apply prefix_append]. }
  set (f := λ k, name ← path_file_name k; timestamp_from_str name).
  assert (Hf : ∀ k, k ∈ map s3_key (concat lists) → ∃ t, k = object_path root t ∧ f k = Some t).
  { intros k (t & -> & _ & Ht)%Hkey. exists t. split; [done|]. unfold f. by rewrite file_name_of_time. }
  eexists. split; [done|]. split; [|done]. exists dir, (local_reader_new dir). cbn. split_and!; try done.
  - split; try done. cbn. replace (omap object_time (concat lists)) with (omap f (map s3_key (concat lists))) by (by rewrite <- omap_compose).
    symmetry. apply dir_times_unique; [apply Hw| |apply sort_sorted|].
    + assert (Hp : sort (omap f (map s3_key (concat lists))) ≡ₚ omap f (map s3_key (concat lists))) by apply sort_by_perm.
      rewrite Hp. apply NoDup_omap_inj; [|done]. intros k1 k2 t (t1 & -> & E1)%Hf (t2 & -> & E2)%Hf ? ?. congruence.
    + intros t. assert (Hp : sort (omap f (map s3_key (concat lists))) ≡ₚ omap f (map s3_key (concat lists))) by apply sort_by_perm.
      rewrite Hp, list_elem_of_omap. split.
      * intros (k & Hk & Et). destruct (proj1 (Hkey k) Hk) as (t' & -> & Hs & Ht'). unfold f in Et. rewrite file_name_of_time in Et. cbn in Et. congruence.
      * intros Hs. destruct (proj1 Hw _ Hs) as (t' & Ht' & <-%timestamp_to_string_inj). exists (object_path root t).
        split; [apply Hkey; by exists t|]. unfold f. by rewrite file_name_of_time.
  - by apply local_state_new, whole_ok.
Qed.
(** Recovery from a bucket, as from a directory. *)
Lemma s3_recovers now s root dir th fuel : answering s → holds root s dir → whole dir → clock_after now dir →
  Z.of_nat (length (snapshot_events dir)) < 2 ^ 32 - 1 → th ≠ At (mk_Timestamp 0) → Finished ∉ snapshot_events dir →
  (length (snapshot_events dir) < fuel)%nat →
  ∃ r sr sr', s3_reader_new s root = Ok r ∧ SnapshotReader_new (H := S3SnapshotReader_impl now) r th true = Ok sr ∧
    read_to_end (H := S3SnapshotReader_impl now) fuel sr = Some (replayed th (snapshot_events dir), sr') ∧
    s3_stored (reader_impl sr') (committed_prefix th (snapshot_events dir)).
Proof.
  intros Ha Hh Hw Hclk Hlen Hth Hfin Hfuel. destruct (s3_new_spec now s root dir Ha Hh Hw Hclk Hlen) as (r & Er & Hr & _).
  set (sr := mk_SnapshotReader r th 0 OffsetAntichain_new true).
  destruct (@read_to_end_spec _ _ _ (s3_truncate_laws now) fuel sr [] (snapshot_events dir) Hr Hfin Hfuel) as (sr' & E & _ & Hst).
  exists r, sr, sr'. split_and!; [done| |exact E|exact Hst]. unfold SnapshotReader_new. by rewrite (threshold_not_zero th Hth).
Qed.
End answers.

(** ** The writer *)

Definition event_chunk (event : S3SnapshotWriterEvent) : list Event := match event with Chunk chunk => chunk | _ => [] end.
Definition queued (q : list S3SnapshotWriterEvent) : list Event := concat (map event_chunk q).
(** How much is written before each flush in a queue, [off] before all of it. *)
Fixpoint queue_marks (off : nat) (q : list S3SnapshotWriterEvent) : list nat :=
  match q with
  | [] => []
  | Flush :: q => off :: queue_marks off q
  | event :: q => queue_marks (off + length (event_chunk event)) q
  end.
Lemma queued_snoc q event : queued (q ++ [event]) = queued q ++ event_chunk event.
Proof. unfold queued. rewrite map_app, concat_app. cbn. by rewrite app_nil_r. Qed.
Lemma queue_marks_snoc off q event :
  queue_marks off (q ++ [event]) = queue_marks off q ++ match event with Flush => [(off + length (queued q))%nat] | _ => [] end.
Proof.
  revert off. induction q as [|ev q IH]; intros off; cbn [app queue_marks].
  - unfold queued. cbn. rewrite Nat.add_0_r. by destruct event.
  - replace (length (queued (ev :: q))) with (length (event_chunk ev) + length (queued q))%nat by (unfold queued; cbn; by rewrite length_app).
    destruct ev as [c| |]; cbn [queue_marks event_chunk length Nat.add]; rewrite IH; destruct event; rewrite ?Nat.add_0_r, ?Nat.add_assoc, ?app_nil_r; done.
Qed.
Definition filled (event : S3SnapshotWriterEvent) : Prop := match event with Chunk chunk => chunk ≠ [] | _ => True end.

#[local] Arguments queued : simpl never.
Section writer.
Context (root : string) (base : list Event).
Implicit Types (w : S3SnapshotWriter C) (written : list Event) (marks : list nat).

(** The thread has an upload of [up] open, after the first [m] events; what else was
    written is in the queue or the current chunk. *)
Definition uploader_inv dir written marks (last : Z) (m : nat) w : Prop :=
  Forall filled (chunk_events w) ∧ (length (flush_results w) ≤ length marks)%nat ∧ ∃ up,
    written = take m written ++ up ++ queued (chunk_events w) ++ current_chunk w ∧
    drop (length (flush_results w)) marks = queue_marks (m + length up) (chunk_events w) ∧
    match uploader w with
    | Starting => up = []
    | Uploading s3_writer => writer_open (bucket w) s3_writer up ∧ writer_key s3_writer = root +:+ "/" +:+ int_to_string last ∧
        in_u64 last = true ∧ ∀ t, t ∈ dir_times dir → Z.of_N (ts_0 t) < last
    | Ended => False
    end.
(** The bucket has the first [m] events, at least those before the answered flushes. *)
Definition s3_inv written marks (last : Z) w : Prop := ∃ m dir,
  holds root (bucket w) dir ∧ whole dir ∧ (∀ t, t ∈ dir_times dir → Z.of_N (ts_0 t) ≤ last) ∧
  snapshot_events dir = base ++ take m written ∧ (m ≤ length written)%nat ∧
  (∀ j mark, marks !! j = Some mark → (j < length (flush_results w))%nat → (mark ≤ m)%nat) ∧
  (uploader w = Ended ∨ uploader_inv dir written marks last m w).

Lemma send_chunk_inv dir written marks last m w w' : uploader_inv dir written marks last m w → current_chunk w ≠ [] → send_chunk w = Ok w' →
  uploader_inv dir written marks last m w' ∧ current_chunk w' = [] ∧ bucket w' = bucket w ∧ flush_results w' = flush_results w.
Proof.
  intros (Hf & Hl & up & Hw & Hm & Hu) Hne E. unfold send_chunk, send_event in E. cbn in E.
  assert (E' : w' = mk_S3SnapshotWriter [] (chunk_events w ++ [Chunk (current_chunk w)]) (uploader w) (bucket w) (flush_results w))
    by (destruct (uploader w); [by injection E as <-..|done]). subst w'. cbn. split; [|done].
  split; [by apply Forall_app; split; [|constructor]|]. split; [done|]. exists up. cbn. rewrite queued_snoc, queue_marks_snoc, !app_nil_r. by split_and!.
Qed.
Lemma send_flush_inv dir written marks last m w w' : uploader_inv dir written marks last m w → (m ≤ length written)%nat → current_chunk w = [] →
  send_event Flush w = Ok w' →
  uploader_inv dir written (marks ++ [length written]) last m w' ∧ bucket w' = bucket w ∧ flush_results w' = flush_results w.
Proof.
  intros (Hf & Hl & up & Hw & Hm & Hu) Hlen Hne E. unfold send_event in E.
  assert (E' : w' = mk_S3SnapshotWriter [] (chunk_events w ++ [Flush]) (uploader w) (bucket w) (flush_results w))
    by (rewrite Hne in E; destruct (uploader w); [by injection E as <-..|done]). subst w'. cbn. split; [|done].
  split; [by apply Forall_app; split; [|constructor]|]. split; [rewrite length_app; cbn; lia|]. exists up. cbn. rewrite Hne in Hw.
  rewrite queued_snoc, queue_marks_snoc, !app_nil_r in *. split_and!; try done.
  rewrite drop_app_le by done. rewrite Hm. f_equal. f_equal. rewrite Hw at 1. rewrite !length_app, length_take. lia.
Qed.
Lemma s3_write_inv written marks last e w w' : s3_inv written marks last w → s3_write e w = Ok w' → s3_inv (written ++ [e]) marks last w'.
Proof.
  intros (m & dir & Hh & Hw & Ht & Hev & Hm & Hans & Hup) E. unfold s3_write in E. cbv zeta in E.
  set (w1 := with_current_chunk (current_chunk w ++ [e]) w) in *.
  assert (Ew : take m (written ++ [e]) = take m written) by (by rewrite take_app_le).
  assert (Hinv1 : s3_inv (written ++ [e]) marks last w1 ∧ (uploader w = Ended ∨ uploader_inv dir (written ++ [e]) marks last m w1)).
  { assert (Hup1 : uploader w = Ended ∨ uploader_inv dir (written ++ [e]) marks last m w1).
    { destruct Hup as [->|(Hf & Hl & up & Hwr & Hmk & Hu)]; [by left|right]. split; [done|]. split; [done|]. exists up. rewrite Ew. cbn.
      split; [|done]. rewrite Hwr at 1. by rewrite <- !app_assoc. }
    split; [|done]. exists m, dir. rewrite Ew, length_app. split_and!; try done. lia. }
  destruct Hinv1 as [Hinv1 Hup1]. destruct (_ =? _); [|by injection E as <-].
  destruct Hup1 as [Hend|Hup1].
  { unfold send_chunk, send_event in E. cbn in E. by rewrite Hend in E. }
  destruct (send_chunk_inv _ _ _ _ _ _ _ Hup1 ltac:(cbn; by destruct (current_chunk w)) E) as (Hup2 & _ & Eb & Er).
  exists m, dir. rewrite Eb, Er, Ew, length_app. cbn [w1 bucket with_current_chunk flush_results]. split_and!; try done; [lia|by right].
Qed.
Lemma s3_flush_inv written marks last w w' : s3_inv written marks last w → s3_flush w = Ok w' → s3_inv written (marks ++ [length written]) last w'.
Proof.
  intros (m & dir & Hh & Hw & Ht & Hev & Hm & Hans & Hup) E. unfold s3_flush in E.
  assert (∃ w1, send_event Flush w1 = Ok w' ∧ current_chunk w1 = [] ∧ bucket w1 = bucket w ∧ flush_results w1 = flush_results w ∧
    uploader_inv dir written marks last m w1) as (w1 & E1 & Ec & Eb & Er & Hup1).
  { destruct Hup as [Hend|Hup].
    - exfalso. destruct (current_chunk w); cbn in E; unfold send_chunk, send_event in E; cbn in E; by rewrite Hend in E.
    - destruct (current_chunk w) as [|x c] eqn:Ec; [by exists w|]. apply bind_ok in E as (w1 & E1 & E2).
      destruct (send_chunk_inv _ _ _ _ _ _ _ Hup ltac:(by rewrite Ec) E1) as (Hup1 & ? & ? & ?). by exists w1. }
  destruct (send_flush_inv _ _ _ _ _ _ _ Hup1 Hm Ec E1) as (Hup2 & Eb2 & Er2). exists m, dir. rewrite Eb2, Er2, Eb, Er.
  split_and!; try done; [|by right]. intros j mark Hj Hlt. apply (Hans j); [|done].
  destruct Hup1 as (_ & Hl & _). rewrite Er in Hl. rewrite lookup_app_l in Hj by lia. done.
Qed.

Lemma holds_inv written marks last w w' m dir : holds root (bucket w') dir → whole dir → (∀ t, t ∈ dir_times dir → Z.of_N (ts_0 t) ≤ last) →
  snapshot_events dir = base ++ take m written → (m ≤ length written)%nat →
  (∀ j mark, marks !! j = Some mark → (j < length (flush_results w))%nat → (mark ≤ m)%nat) → flush_results w' = flush_results w →
  uploader w' = Ended ∨ uploader_inv dir written marks last m w' → s3_inv written marks last w'.
Proof. intros ? ? ? ? ? ? E ?. exists m, dir. rewrite E. by split_and!. Qed.
(** Turns that start an upload and read the clock. *)
Definition begins_upload w : bool :=
  match uploader w, chunk_events w with Starting, _ => true | Uploading _, Flush :: _ => true | _, _ => false end.
Lemma start_upload_inv dir now s r s' : start_upload root now s = (r, s') → in_u64 now = true → (∀ t, t ∈ dir_times dir → Z.of_N (ts_0 t) < now) →
  objects s' = objects s ∧ ∀ s3_writer, r = Ok s3_writer →
    writer_open s' s3_writer [] ∧ writer_key s3_writer = root +:+ "/" +:+ int_to_string now ∧ in_u64 now = true ∧
    ∀ t, t ∈ dir_times dir → Z.of_N (ts_0 t) < now.
Proof.
  intros E Hnow Ht. destruct (writer_new_spec _ _ _ _ E) as [Ho Hr]. split; [done|]. intros s3_writer E'. destruct (Hr _ E') as [? ?]. by split_and!.
Qed.
(** What the bucket has when an upload was completed. *)
Lemma completed_dir s s' dir last up : holds root s dir → whole dir → in_u64 last = true → (∀ t, t ∈ dir_times dir → Z.of_N (ts_0 t) < last) →
  Forall (λ e, serializable e = true) up → objects s' = <[root +:+ "/" +:+ int_to_string last := bytes_of up]> (objects s) →
  ∃ dir', holds root s' dir' ∧ whole dir' ∧ (∀ t, t ∈ dir_times dir' → Z.of_N (ts_0 t) ≤ last) ∧ snapshot_events dir' = snapshot_events dir ++ up.
Proof.
  intros Hh Hw Hu64 Ht Hser Ho. destruct (now_name last dir (conj Hu64 Ht)) as (Ename & Hparse & Hlast). set (t := mk_Timestamp (Z.to_N last)) in *.
  rewrite Ename in Ho. exists (<[timestamp_to_string t := bytes_of up]> dir). split; [by apply (holds_insert root s)|].
  destruct (records_decode _ _ (records_bytes_of up Hser)) as [Eup Hclean].
  destruct (snapshot_events_insert dir t (bytes_of up) (whole_ok _ Hw) Hparse Hlast Hclean) as [[Hn _] Hev]. split; [split; [done|]|split].
  - intros x bs [[_ <-]|[_ Hbs]]%lookup_insert_Some; [by exists up|by apply (proj2 Hw x)].
  - intros t0 [Et|Ht0]%(elem_of_dir_times _ _ Hn)%lookup_insert_is_Some.
    + apply timestamp_to_string_inj in Et as <-. unfold t. cbn. pose proof (proj1 (in_u64_spec last) Hu64). lia.
    + apply Z.lt_le_incl, Ht, elem_of_dir_times; [apply Hw|by apply Ht0].
  - by rewrite Hev, Eup.
Qed.
Lemma chunk_turn_inv written marks last w s3_writer chunk events : s3_inv written marks last w → Z.of_nat (length written) < 2 ^ 32 - 1 →
  uploader w = Uploading s3_writer → chunk_events w = Chunk chunk :: events → ∀ now, s3_inv written marks last (upload_turn root now w).
Proof.
  intros (m & dir & Hh & Hw & Ht & Hev & Hm & Hans & Hup) Hlen Eu Eq now. unfold upload_turn. rewrite Eu, Eq.
  destruct Hup as [Hup|(Hf & Hl & up & Hwr & Hmk & Hu)]; [congruence|]. rewrite Eu in Hu. rewrite Eq in *. apply Forall_cons in Hf as [Hf1 Hf].
  destruct Hu as (Hopen & Hkey & Hu64 & Hlt). destruct (put_chunk s3_writer chunk (bucket w)) as [r s'] eqn:E.
  assert (Hup : (length up ≤ length written)%nat) by (rewrite Hwr, !length_app; lia).
  destruct (put_chunk_spec _ _ _ up _ _ E Hf1 ltac:(lia) Hopen) as [Ho Hr].
  eapply (holds_inv _ _ _ w _ m dir); cbn; try done; [by eapply holds_same|].
  destruct r as [w'|e|p]; cbn [uploading]; [right|by left..]. destruct (Hr w' eq_refl) as [Hopen' Hkey'].
  split; [done|]. split; [done|]. exists (up ++ chunk). cbn. split_and!; try done; [|by rewrite length_app, Nat.add_assoc|congruence].
  rewrite Hwr at 1. unfold queued. cbn. by rewrite <- !app_assoc.
Qed.
Lemma take_segment {A} (l : list A) m up rest : (m ≤ length l)%nat → l = take m l ++ up ++ rest → take (m + length up) l = take m l ++ up.
Proof.
  intros Hm Hl. rewrite Hl at 1. rewrite app_assoc, take_app_le by (rewrite length_app, length_take; lia). apply take_ge.
  rewrite length_app, length_take. lia.
Qed.
(** The flush of an upload: with its events if it succeeds, with or without them if not. *)
Lemma flushed_dir written last m dir s s3_writer up rest r s1 : holds root s dir → whole dir → (∀ t, t ∈ dir_times dir → Z.of_N (ts_0 t) < last) →
  in_u64 last = true → snapshot_events dir = base ++ take m written → (m ≤ length written)%nat → written = take m written ++ up ++ rest →
  Forall (λ e, serializable e = true) written → writer_open s s3_writer up → writer_key s3_writer = root +:+ "/" +:+ int_to_string last →
  finalize s3_writer s = (r, s1) →
  ∃ m' dir', holds root s1 dir' ∧ whole dir' ∧ (∀ t, t ∈ dir_times dir' → Z.of_N (ts_0 t) ≤ last) ∧
    snapshot_events dir' = base ++ take m' written ∧ (m ≤ m' ≤ length written)%nat ∧ (r = Ok tt → m' = (m + length up)%nat).
Proof.
  intros Hh Hw Ht Hu64 Hev Hm Hwr Hser Hopen Hkey E. pose proof (finalize_spec _ _ _ _ _ E Hopen) as Hfin. cbv zeta in Hfin. rewrite Hkey in Hfin.
  assert (Hup : Forall (λ e, serializable e = true) up) by (rewrite Hwr in Hser; apply Forall_app in Hser as [_ Hser]; by apply Forall_app in Hser as [? _]).
  pose proof (take_segment _ _ _ _ Hm Hwr) as Etake.
  assert (Hlen : (m + length up ≤ length written)%nat) by (rewrite Hwr, !length_app, length_take; lia).
  assert (Hdone : objects s1 = <[root +:+ "/" +:+ int_to_string last := bytes_of up]> (objects s) →
    ∃ m' dir', holds root s1 dir' ∧ whole dir' ∧ (∀ t, t ∈ dir_times dir' → Z.of_N (ts_0 t) ≤ last) ∧
    snapshot_events dir' = base ++ take m' written ∧ (m ≤ m' ≤ length written)%nat ∧ (r = Ok tt → m' = (m + length up)%nat)).
  { intros Ho. destruct (completed_dir _ _ _ _ _ Hh Hw Hu64 Ht Hup Ho) as (dir' & ? & ? & ? & E'). exists (m + length up)%nat, dir'.
    split_and!; try done; try lia. by rewrite E', Hev, Etake, app_assoc. }
  destruct Hfin as [[-> Ho]|[Hne [Ho|Ho]]]; [by apply Hdone| |by apply Hdone].
  exists m, dir. split_and!; try done; [by eapply holds_same|]. intros t Htt%Ht. lia.
Qed.
Lemma flush_turn_inv written marks last w s3_writer events now : s3_inv written marks last w → Forall (λ e, serializable e = true) written →
  uploader w = Uploading s3_writer → chunk_events w = Flush :: events → in_u64 now = true → last < now →
  Forall (λ r, r = Ok tt) (flush_results (upload_turn root now w)) → s3_inv written marks now (upload_turn root now w).
Proof.
  intros (m & dir & Hh & Hw & Ht & Hev & Hm & Hans & Hup) Hser Eu Eq Hnow Hlt. unfold upload_turn. rewrite Eu, Eq.
  destruct Hup as [Hup|(Hf & Hl & up & Hwr & Hmk & Hu)]; [congruence|]. rewrite Eu in Hu. rewrite Eq in *. apply Forall_cons in Hf as [_ Hf].
  destruct Hu as (Hopen & Hkey & Hu64 & Hltd). destruct (finalize s3_writer (bucket w)) as [r s1] eqn:E1.
  destruct (flushed_dir _ _ _ _ _ _ _ _ _ _ Hh Hw Hltd Hu64 Hev Hm Hwr Hser Hopen Hkey E1) as (m' & dir' & Hh' & Hw' & Ht' & Hev' & Hm' & Hok).
  destruct (start_upload root now s1) as [r2 s2] eqn:E2.
  destruct (start_upload_inv dir' now _ _ _ E2 Hnow) as [Ho2 Hr2]; [intros t Htt%Ht'; lia|]. pose proof (holds_same _ _ _ _ Hh' Ho2) as Hh2.
  assert (Hend : ∀ u, u = Ended → s3_inv written marks now (mk_S3SnapshotWriter (current_chunk w) events u s2 (flush_results w))).
  { intros u ->. exists m', dir'. cbn. split_and!; try done; [intros t Htt%Ht'; lia|lia| |by left]. intros j mark Hj Hlt'. specialize (Hans j mark Hj Hlt'). lia. }
  destruct r2 as [w2|e|p]; cbn [uploading]; [|by intros _; apply Hend..].
  intros Hall. apply Forall_app in Hall as [_ Hall]. apply Forall_inv in Hall.
  assert (Hr : r = Ok tt) by (destruct r as [[]| |]; [done|discriminate Hall..]). specialize (Hok Hr). destruct (Hr2 w2 eq_refl) as (? & ? & ? & ?).
  cbn [queue_marks] in Hmk. assert (Hmark : marks !! length (flush_results w) = Some m').
  { by rewrite <- (Nat.add_0_r (length (flush_results w))), <- lookup_drop, Hmk, Hok. }
  exists m', dir'. cbn. rewrite length_app. cbn [length]. split_and!; try done; [intros t Htt%Ht'; lia|lia| |].
  - intros j mark Hj Hlt'. destruct (decide (j = length (flush_results w))) as [->|]; [rewrite Hmark in Hj; by injection Hj as <-|].
    specialize (Hans j mark Hj ltac:(lia)). lia.
  - right. split; [done|]. cbn. rewrite length_app. cbn [length]. split; [apply lookup_lt_Some in Hmark; lia|]. exists []. cbn [app length].
    rewrite Nat.add_0_r. split_and!; try done.
    + rewrite Hok, (take_segment _ _ _ _ Hm Hwr), <- app_assoc. exact Hwr.
    + by rewrite <- drop_drop, Hmk, Hok.
Qed.
Lemma start_turn_inv written marks last w now : s3_inv written marks last w → uploader w = Starting → in_u64 now = true → last < now →
  s3_inv written marks now (upload_turn root now w).
Proof.
  intros (m & dir & Hh & Hw & Ht & Hev & Hm & Hans & Hup) Eu Hnow Hlt. unfold upload_turn. rewrite Eu.
  destruct Hup as [Hup|(Hf & Hl & up & Hwr & Hmk & Hu)]; [congruence|]. rewrite Eu in Hu. subst up.
  destruct (start_upload root now (bucket w)) as [r s'] eqn:E. assert (Ht' : ∀ t, t ∈ dir_times dir → Z.of_N (ts_0 t) < now) by (intros t Htt%Ht; lia).
  destruct (start_upload_inv dir now _ _ _ E Hnow Ht') as [Ho Hr].
  eapply (holds_inv _ _ _ w _ m dir); cbn; try done; [by eapply holds_same|intros t Htt%Ht; lia|].
  destruct r as [w'|e|p]; cbn [uploading]; [right|by left..]. split; [done|]. split; [done|]. exists []. split_and!; try done; by apply Hr.
Qed.
Lemma upload_turn_inv written marks last w now : s3_inv written marks last w → Forall (λ e, serializable e = true) written →
  Z.of_nat (length written) < 2 ^ 32 - 1 → (begins_upload w = true → in_u64 now = true ∧ last < now) →
  Forall (λ r, r = Ok tt) (flush_results (upload_turn root now w)) →
  s3_inv written marks (if begins_upload w then now else last) (upload_turn root now w).
Proof.
  intros Hinv Hser Hlen Hclock Hall. unfold begins_upload in *. destruct (uploader w) as [|s3_writer|] eqn:Eu.
  - destruct Hclock; [done|]. by apply (start_turn_inv _ _ last).
  - destruct (chunk_events w) as [|[chunk| |] events] eqn:Eq.
    + unfold upload_turn. by rewrite Eu, Eq.
    + by apply (chunk_turn_inv _ _ _ _ s3_writer chunk events).
    + destruct Hclock; [done|]. by apply (flush_turn_inv _ _ last _ s3_writer events).
    + unfold upload_turn. rewrite Eu, Eq. destruct Hinv as (m & dir & Hh & Hw & Ht & Hev & Hm & Hans & _).
      apply (holds_inv _ _ _ w _ m dir); try done. by left.
  - unfold upload_turn. by rewrite Eu.
Qed.
End writer.

(** ** Runs of the writer *)

Fixpoint s3_written (ops : list S3WriterOp) : list Event :=
  match ops with [] => [] | S3Write event :: ops => event :: s3_written ops | _ :: ops => s3_written ops end.
(** How much was written before each flush, [n] before all of them. *)
Fixpoint flush_marks (n : nat) (ops : list S3WriterOp) : list nat :=
  match ops with
  | [] => []
  | S3Write _ :: ops => flush_marks (S n) ops
  | S3Flush :: ops => n :: flush_marks n ops
  | S3Upload _ :: ops => flush_marks n ops
  end.
(** The clock goes forward between the uploads, from [last] on, and events can be serialized. *)
Fixpoint clocked (root : string) (last : Z) (w : S3SnapshotWriter C) (ops : list S3WriterOp) : bool :=
  match ops with
  | [] => true
  | op :: ops =>
      match op with
      | S3Write event => serializable event
      | S3Flush => true
      | S3Upload now => negb (begins_upload w) || (in_u64 now && (last <? now))
      end &&
      match s3_writer_op root w op with
      | Ok w' => clocked root (match op with S3Upload now => if begins_upload w then now else last | _ => last end) w' ops
      | _ => true
      end
  end.
(** The time of the last upload. *)
Fixpoint last_upload (root : string) (last : Z) (w : S3SnapshotWriter C) (ops : list S3WriterOp) : Z :=
  match ops with
  | [] => last
  | op :: ops =>
      match s3_writer_op root w op with
      | Ok w' => last_upload root (match op with S3Upload now => if begins_upload w then now else last | _ => last end) w' ops
      | _ => last
      end
  end.
Definition all_flushed (w : S3SnapshotWriter C) : Prop := Forall (λ r, r = Ok tt) (flush_results w).
Lemma op_results root w op w' : s3_writer_op root w op = Ok w' → all_flushed w' → all_flushed w.
Proof.
  assert (Hs : ∀ ev w w', send_event ev w = Ok w' → flush_results w' = flush_results w).
  { intros ev w1 w2. unfold send_event. by destruct (uploader w1); [intros [= <-]..|]. }
  unfold all_flushed. destruct op as [e| |now]; cbn [s3_writer_op].
  - unfold s3_write. cbv zeta. destruct (_ =? _); [intros E%Hs|intros [= <-]]; [|done]. by rewrite E.
  - unfold s3_flush. intros (w1 & E1 & E2)%bind_ok. rewrite (Hs _ _ _ E2). destruct (current_chunk w); [by injection E1 as <-|].
    by rewrite (Hs _ _ _ E1).
  - intros [= <-]. unfold upload_turn. destruct (uploader w), (chunk_events w) as [|[] q]; try done;
      repeat match goal with |- context [let '(_, _) := ?x in _] => destruct x end; try done.
    cbn. destruct o0; [|done..]. by intros [? _]%Forall_app.
Qed.
Lemma run_results root ops : ∀ w w', run_s3_writer root w ops = Ok w' → all_flushed w' → all_flushed w.
Proof.
  induction ops as [|op ops IH]; intros w w'; cbn [run_s3_writer]; [by intros [= <-]|]. intros (w1 & E1 & E2)%bind_ok Hall.
  eapply op_results; [exact E1|by eapply IH].
Qed.
Lemma s3_run_inv root base ops : ∀ written marks last w w', s3_inv root base written marks last w →
  Forall (λ e, serializable e = true) written → Z.of_nat (length (written ++ s3_written ops)) < 2 ^ 32 - 1 → clocked root last w ops = true →
  run_s3_writer root w ops = Ok w' → all_flushed w' →
  s3_inv root base (written ++ s3_written ops) (marks ++ flush_marks (length written) ops) (last_upload root last w ops) w'.
Proof.
  induction ops as [|op ops IH]; intros written marks last w w' Hinv Hser Hlen Hclk Hrun Hall; cbn [run_s3_writer s3_written flush_marks last_upload] in *.
  { injection Hrun as <-. by rewrite !app_nil_r. }
  apply bind_ok in Hrun as (w1 & E1 & E2). pose proof (run_results _ _ _ _ E2 Hall) as Hall1. cbn [clocked] in Hclk. rewrite E1 in Hclk. apply andb_prop in Hclk as [Hop Hclk]. rewrite E1.
  destruct op as [e| |now].
  - rewrite cons_middle, app_assoc in Hlen |- *. pose proof (s3_write_inv _ _ _ _ _ _ _ _ Hinv E1) as Hinv1.
    replace (S (length written)) with (length (written ++ [e])) by (rewrite length_app; cbn; lia). eapply IH; try done. apply Forall_app. by repeat constructor.
  - pose proof (s3_flush_inv _ _ _ _ _ _ _ Hinv E1) as Hinv1. rewrite cons_middle, app_assoc. by eapply IH.
  - injection E1 as <-. eapply IH; try done. apply upload_turn_inv; try done; [rewrite length_app in Hlen; lia|].
    intros Hb. rewrite Hb in Hop. apply andb_prop in Hop as [? ?%Z.ltb_lt]. done.
Qed.

(** What was written before the last answered flush. *)
Definition answered (ops : list S3WriterOp) (w : S3SnapshotWriter C) : nat :=
  default 0%nat (last (take (length (flush_results w)) (flush_marks 0 ops))).
Lemma run_writer_spec root s dir last_time ops w : holds root s dir → whole dir → (∀ t, t ∈ dir_times dir → Z.of_N (ts_0 t) ≤ last_time) →
  clocked root last_time (s3_snapshot_writer_new s) ops = true → run_s3_writer root (s3_snapshot_writer_new s) ops = Ok w → all_flushed w →
  Z.of_nat (length (s3_written ops)) < 2 ^ 32 - 1 →
  ∃ m dir', holds root (bucket w) dir' ∧ whole dir' ∧ (∀ t, t ∈ dir_times dir' → Z.of_N (ts_0 t) ≤ last_upload root last_time (s3_snapshot_writer_new s) ops) ∧
    snapshot_events dir' = snapshot_events dir ++ take m (s3_written ops) ∧ (answered ops w ≤ m ≤ length (s3_written ops))%nat.
Proof.
  intros Hh Hw Ht Hclk Hrun Hall Hlen. set (w0 := s3_snapshot_writer_new s) in *.
  assert (Hinv : s3_inv root (snapshot_events dir) [] [] last_time w0).
  { exists 0%nat, dir. split_and!; try done; [by rewrite app_nil_r|]. right. split; [constructor|]. split; [done|]. by exists []. }
  destruct (s3_run_inv root _ ops [] [] last_time w0 w Hinv ltac:(constructor) Hlen Hclk Hrun Hall) as (m & dir' & ? & ? & ? & ? & Hm & Hans & _).
  exists m, dir'. split_and!; try done. unfold answered. destruct (last (take _ _)) as [mark|] eqn:E; cbn; [|lia].
  rewrite last_lookup in E. apply lookup_take_Some in E as [E Hlt]. by apply (Hans _ _ E).
Qed.
Lemma committed_app th es1 es2 : existsb (reaches th) es1 = true → committed_prefix th (es1 ++ es2) = committed_prefix th es1.
Proof.
  induction es1 as [|e es1 IH]; cbn; [done|]. destruct (reaches th e); cbn; [done|]. intros. f_equal. auto.
Qed.

(** C36: Snapshots in a bucket of S3. Whatever a writer and its uploading thread did, in
    any order, and however requests failed while they wrote: if the flushes that were
    answered were answered well, a later recovery from the bucket at a time that was
    written before the last of them replays exactly the events recorded before that
    time, as if nothing had been interrupted, and leaves the events up to that time in
    the bucket. The recovery is at a time other than 0, and the bucket answers all its
    requests; only the objects of this stream have keys that begin with its path; the
    clock moves forward between the uploads, and is past them and the objects there
    before at the recovery; the events can be serialized, are fewer than 2^32 - 1 and
    contain no Finished. *)
Theorem s3_flushed_time_recovers `{!S3Answers C} root s dir last_time ops w th now fuel :
  let recorded := snapshot_events dir ++ s3_written ops in
  holds root s dir → whole dir → (∀ t, t ∈ dir_times dir → Z.of_N (ts_0 t) ≤ last_time) →
  clocked root last_time (s3_snapshot_writer_new s) ops = true →
  run_s3_writer root (s3_snapshot_writer_new s) ops = Ok w → all_flushed w →
  existsb (reaches th) (snapshot_events dir ++ take (answered ops w) (s3_written ops)) = true →
  answering (bucket w) → in_u64 now = true → last_upload root last_time (s3_snapshot_writer_new s) ops < now →
  th ≠ At (mk_Timestamp 0) → Finished ∉ recorded → Z.of_nat (length recorded) < 2 ^ 32 - 1 → (length recorded < fuel)%nat →
  ∃ r sr sr', s3_reader_new (bucket w) root = Ok r ∧ SnapshotReader_new (H := S3SnapshotReader_impl now) r th true = Ok sr ∧
    read_to_end (H := S3SnapshotReader_impl now) fuel sr = Some (replayed th recorded, sr') ∧
    s3_stored (reader_impl sr') (committed_prefix th recorded).
Proof.
  intros recorded Hh Hw Ht Hclk Hrun Hall Hreach Ha Hnow Hlast Hth Hfin Hlen Hfuel. unfold recorded in *. rewrite length_app in Hlen, Hfuel.
  destruct (run_writer_spec root s dir last_time ops w Hh Hw Ht Hclk Hrun Hall ltac:(lia)) as (m & dir' & Hh' & Hw' & Ht' & Hev & Hm).
  assert (Hrec : snapshot_events dir ++ s3_written ops = snapshot_events dir' ++ drop m (s3_written ops)) by (by rewrite Hev, <- app_assoc, take_drop).
  assert (Hreach' : existsb (reaches th) (snapshot_events dir') = true).
  { rewrite Hev. rewrite existsb_app in *. apply orb_true_iff in Hreach as [->|Hreach]; [done|]. apply orb_true_iff. right.
    rewrite <- (take_drop (answered ops w) (take m (s3_written ops))), existsb_app, take_take, Nat.min_l by lia. by rewrite Hreach. }
  assert (Hl : (length (snapshot_events dir') ≤ length (snapshot_events dir) + length (s3_written ops))%nat) by (rewrite Hev, length_app, length_take; lia).
  rewrite Hrec, replayed_app, committed_app by done. apply s3_recovers; try done; try lia.
  - split; [done|]. intros t Htt%Ht'. lia.
  - intros Hin. apply Hfin. rewrite Hrec. apply elem_of_app. by left.
Qed.
End s3.

(** ** A bucket in memory *)

Module ConcreteS3.
(** Its objects and uploads, how many uploads there were, and whether it answers. *)
Record Bucket := mk_Bucket {
  stored_objects : gmap string (list Z);
  open_uploads : gmap string (string * list (Z * list Z));
  next_id : Z;
  healthy : bool
}.
Definition with_healthy (h : bool) (s : Bucket) : Bucket := mk_Bucket (stored_objects s) (open_uploads s) (next_id s) h.
(** One that does not answer gives the first two bytes of an object and fails. *)
#[export] Instance client : S3Client Bucket := {|
  Part := Z;
  bucket_answers s := mk_S3Bucket
    (λ prefix, if healthy s then Ok [map (λ k, mk_S3Object k "") (List.filter (String.prefix prefix) (map fst (map_to_list (stored_objects s))))] else Err tt)
    (λ key, match stored_objects s !! key with
            | Some bytes => if healthy s then (bytes, Ok 200) else (take 2 bytes, Err tt)
            | None => ([], Err tt)
            end);
  initiate_multipart_upload s key :=
    if healthy s then
      let id := int_to_string (next_id s) in
      (Ok (key, id), mk_Bucket (stored_objects s) (<[id := (key, [])]> (open_uploads s)) (next_id s + 1) true)
    else (Err tt, s);
  put_multipart_chunk s chunk key n id :=
    match open_uploads s !! id with
    | Some (key', parts) =>
        if healthy s && bool_decide (key' = key) then (Ok n, mk_Bucket (stored_objects s) (<[id := (key, parts ++ [(n, chunk)])]> (open_uploads s)) (next_id s) true)
        else (if healthy s then Ok n else Err tt, s)
    | None => (if healthy s then Ok n else Err tt, s)
    end;
  complete_multipart_upload s key id parts :=
    match open_uploads s !! id with
    | Some (key', (_ :: _) as chunks) =>
        if healthy s && bool_decide (key' = key)
        then (Ok 200, mk_Bucket (<[key := concat (map snd chunks)]> (stored_objects s)) (open_uploads s) (next_id s) true)
        else (Err tt, s)
    | _ => (Err tt, s)
    end;
  delete_object s key := if healthy s then (Ok tt, mk_Bucket (delete key (stored_objects s)) (open_uploads s) (next_id s) true) else (Err tt, s)
|}.
#[export] Instance laws : S3Laws Bucket.
Proof.
  refine {| objects := stored_objects; uploads := open_uploads |}.
  - intros s key r s'. cbn. destruct (healthy s); intros [= <- <-]; [|done]. cbn. by rewrite lookup_insert_eq.
  - intros s chunk key n id parts r s'. cbn. intros E Hu _. rewrite Hu in E. rewrite bool_decide_true, andb_true_r in E by done.
    destruct (healthy s); injection E as <- <-; cbn; [by rewrite lookup_insert_eq|done].
  - intros s key id parts r s'. cbn. intros E Hu. rewrite Hu in E. destruct parts as [|p parts]; [injection E as <- <-; by left|].
    rewrite bool_decide_true, andb_true_r in E by done. destruct (healthy s); injection E as <- <-; [done|by left].
  - intros s key r s'. cbn. destruct (healthy s); intros [= <- <-]; [done|by left].
Defined.
#[export] Instance answers : S3Answers Bucket.
Proof.
  refine {| answering s := healthy s = true |}.
  - intros s prefix Ha. cbn. rewrite Ha. eexists. split; [done|]. cbn. rewrite app_nil_r, map_map. cbn. rewrite map_id. split.
    + apply NoDup_ListNoDup, List.NoDup_filter, NoDup_ListNoDup, NoDup_fst_map_to_list.
    + intros k. rewrite <- elem_of_names. rewrite !list_elem_of_In, List.filter_In. done.
  - intros s k bs Ha Hk. cbn in *. by rewrite Hk, Ha.
  - intros s key Ha. cbn. rewrite Ha. by eexists _, _.
  - intros s chunk key n id Ha. cbn. rewrite Ha. destruct (open_uploads s !! id) as [[key' parts]|]; [|by eexists _, _].
    cbn. destruct (bool_decide _); by eexists _, _.
  - intros s key id parts Ha Hne Hu. cbn in *. rewrite Hu, Ha, bool_decide_true by done. destruct parts; [done|]. by eexists.
  - intros s key Ha. cbn. rewrite Ha. by eexists.
Defined.
End ConcreteS3.

Section s3_witnesses.
Import ConcreteBincode ConcreteS3.
#[local] Instance release : Profile := false.

Definition bucket_root : string := "run/streams/0/17".
(** A bucket with an object of an earlier run, and one of another stream. *)
Definition sample_files : Directory := <["5"%string := [0; 7; 3; 6]]> ∅.
Definition sample_bucket : Bucket := mk_Bucket (<["run/streams/0/17/5"%string := [0; 7; 3; 6]]> (<["run/streams/1/17/9"%string := [0; 1]]> ∅)) ∅ 0 true.
Lemma sample_holds : holds bucket_root sample_bucket sample_files.
Proof.
  split.
  - intros name. cbn. unfold sample_files. destruct (decide (name = "5"%string)) as [->|Hne]; [reflexivity|].
    rewrite (lookup_insert_ne ∅ "5"%string name) by done. rewrite !lookup_insert_ne, !lookup_empty; [done|discriminate|].
    unfold bucket_root. intros E. apply Hne. by injection E.
  - intros k Hp. cbn. intros [<-|[_ [<-|[_ [? Hk]]]%lookup_insert_is_Some]]%lookup_insert_is_Some; [by exists "5"%string|by vm_compute in Hp|done].
Qed.
Lemma sample_whole : whole sample_files.
Proof.
  unfold sample_files. split.
  - intros name [<-|[_ [? Hl]]]%lookup_insert_is_Some; [by exists (mk_Timestamp 5)|done].
  - intros name bs [[_ <-]|[_ Hl]]%lookup_insert_Some; [|done].
    exists [Insert (mk_Key 7) []; AdvanceTime (mk_Timestamp 6) OffsetAntichain_new]. split; [reflexivity|by repeat constructor].
Qed.
(** Two events and a time are flushed, then one more event is lost with the thread. *)
Definition bucket_ops : list S3WriterOp :=
  [S3Write (Insert (mk_Key 3) []); S3Upload 20; S3Write (AdvanceTime (mk_Timestamp 30) OffsetAntichain_new); S3Flush; S3Upload 20; S3Upload 25;
   S3Write (Delete (mk_Key 4) [])].
Definition bucket_run : outcome WriteError (S3SnapshotWriter Bucket) := run_s3_writer bucket_root (s3_snapshot_writer_new sample_bucket) bucket_ops.
Definition bucket_after : S3SnapshotWriter Bucket := match bucket_run with Ok w => w | _ => s3_snapshot_writer_new sample_bucket end.
Lemma bucket_run_ok : bucket_run = Ok bucket_after.
Proof.
  assert (Hok : match bucket_run with Ok _ => true | _ => false end = true) by (vm_compute; reflexivity).
  unfold bucket_after. by destruct bucket_run.
Qed.
Lemma s3_flushed_time_recovers_witness :
  ∃ r sr sr', s3_reader_new (bucket bucket_after) bucket_root = Ok r ∧
    SnapshotReader_new (H := S3SnapshotReader_impl 40) r (At (mk_Timestamp 25)) true = Ok sr ∧
    read_to_end (H := S3SnapshotReader_impl 40) 20 sr =
      Some (replayed (At (mk_Timestamp 25)) (snapshot_events sample_files ++ s3_written bucket_ops), sr') ∧
    s3_stored (reader_impl sr') (committed_prefix (At (mk_Timestamp 25)) (snapshot_events sample_files ++ s3_written bucket_ops)).
Proof.
  apply (s3_flushed_time_recovers bucket_root sample_bucket sample_files 9 bucket_ops bucket_after (At (mk_Timestamp 25)) 40 20).
  - exact sample_holds.
  - exact sample_whole.
  - intros t Ht. assert (E : dir_times sample_files = [mk_Timestamp 5]) by (vm_compute; reflexivity). rewrite E in Ht.
    apply list_elem_of_singleton in Ht as ->. done.
  - vm_compute. reflexivity.
  - exact bucket_run_ok.
  - assert (E : flush_results bucket_after = [Ok tt]) by (vm_compute; reflexivity). unfold all_flushed. rewrite E. by repeat constructor.
  - vm_compute. reflexivity.
  - vm_compute. reflexivity.
  - reflexivity.
  - assert (E : (last_upload bucket_root 9 (s3_snapshot_writer_new sample_bucket) bucket_ops <? 40) = true) by (vm_compute; reflexivity).
    by apply Z.ltb_lt.
  - discriminate.
  - assert (Hc : existsb (λ e, match e with Finished => true | _ => false end) (snapshot_events sample_files ++ s3_written bucket_ops) = false)
      by (vm_compute; reflexivity).
    intros Hin. apply not_true_iff_false in Hc. apply Hc, existsb_exists. exists Finished. split; [by apply list_elem_of_In|]. reflexivity.
  - vm_compute. reflexivity.
  - apply Nat.ltb_lt. vm_compute. reflexivity.
Defined.
(** What is replayed: the events of both runs before the time 25. *)
Example bucket_replayed : replayed (At (mk_Timestamp 25)) (snapshot_events sample_files ++ s3_written bucket_ops) =
  [Insert (mk_Key 7) []; AdvanceTime (mk_Timestamp 6) OffsetAntichain_new; Insert (mk_Key 3) []].
Proof. vm_compute. reflexivity. Qed.

(** An error while the last object comes through is not noticed: the reader reports the
    end after the events that came. *)
Example lost_error :
  let r := mk_S3SnapshotReader (with_healthy false sample_bucket) bucket_root None 0 [mk_Timestamp 5] None 0 in
  match s3_read r with
  | (Ok e, r') => e = Insert (mk_Key 7) [] ∧ fst (s3_read r') = Ok Finished ∧ finalize_state (current_state r') = Err (ReadS3 GetObject)
  | _ => False
  end.
Proof. vm_compute. repeat split. Qed.
(** A truncation that is interrupted between the copy and the deletions leaves both. *)
Example interrupted_truncation : option_map s3_times_advanced
  (match copy_object [0; 7; 3; 6] 1 "run/streams/0/17/40" sample_bucket with
   | (Ok _, s) => match s3_reader_new s bucket_root with Ok r => Some r | _ => None end
   | _ => None
   end) = Some [mk_Timestamp 5; mk_Timestamp 40].
Proof. vm_compute. reflexivity. Qed.
(** A flush after nothing was written is answered with an error. *)
Example empty_flush : option_map flush_results
  (match run_s3_writer bucket_root (s3_snapshot_writer_new sample_bucket) [S3Upload 20; S3Flush; S3Upload 25] with Ok w => Some w | _ => None end) =
  Some [Err (WriteS3 CompleteMultipartUpload)].
Proof. vm_compute. reflexivity. Qed.
(** The objects of another stream whose path begins with the same characters are listed too. *)
Example sibling_listed : option_map s3_times_advanced
  (match s3_reader_new (mk_Bucket (<["run/streams/0/170/9"%string := []]> ∅) ∅ 0 true) bucket_root with Ok r => Some r | _ => None end) =
  Some [mk_Timestamp 9].
Proof. vm_compute. reflexivity. Qed.
End s3_witnesses.
